(* ===== verification/_CoqProject ===== *)
-Q . S2P
Prelude.v
CrcTables.v
Crc.v
Vli.v
Sha256.v
Check.v
StreamFlags.v
FastPos.v
FilterProps.v
FilterFlags.v
BlockHeader.v
IndexHash.v
Coder.v
Delta.v
Bcj.v
SimpleCoder.v
CxxString.v
TarHeader.v
TarPax.v
Tar.v
ArchivePath.v
ArchiveFormat.v
RangeCoder.v
LzDict.v
LzDecoder.v
LzmaCommon.v
LzmaDecoder.v
LzmaSafety.v
MatchFinder.v
LzmaEncoder.v
LzmaSymbols.v
LzmaOptimumFast.v
LzmaRoundtrip.v
Lzma2Decoder.v
BelaIo.v
BelaTime.v
Zip.v
ZipRoundtrip.v
IndexPieces.v
Decodes.v
BlockDecoder.v
StreamDecoder.v
StreamFormat.v
Lzma2Stored.v
RawDecoder.v
BufferEncoder.v
XzRoundtrip.v
