(* ===== verification/Prelude.v ===== *)
(** * Verification of the archive library of baulk

    baulk is a package manager; what it installs it takes out of archives.  This
    development models the part of the repository with the logic on which that
    depends: the copy of liblzma in [src/lib/archive/xz] (the [.xz] container and
    the LZMA and LZMA2 coders) and baulk's own readers in [src/lib/archive]
    (tar and Zip archives, detection of formats, the check of entry names).

    ** How the parts interact

    An archive is recognized by its first bytes (ArchiveFormat), decompressed by a
    chain of coders behind one interface (Coder), its entries are found by the tar
    reader (Tar) or the Zip reader (Zip, which decompresses each entry by itself) and the names of the entries are made into paths (ArchivePath).
    Inside liblzma a Stream has a Header and a Footer (StreamFlags), Blocks with
    headers (BlockHeader) that list filters (FilterFlags, FilterProps), integrity
    checks (Check, Crc, Sha256) and an Index (IndexHash); integers are written by
    Vli.  The Stream decoder (StreamDecoder) reads these one after another and runs a
    Block decoder (BlockDecoder), which runs a chain of filters (RawDecoder) and
    compares the check; BufferEncoder writes a whole Stream in one call.  The filters are Delta, the branch converters (Bcj, run by SimpleCoder) and
    LZMA: a symbol decoder (LzmaDecoder) on a range decoder (RangeCoder), writing to
    a sliding dictionary (LzDict) that a loop empties to the caller (LzDecoder);
    LZMA2 (Lzma2Decoder) cuts that into chunks.

    ** Files

    All paths are below [src/lib/archive]; [liblzma] is [xz/src/liblzma].
    - Prelude: words of 8, 16, 32 and 64 bits as [Z] with their wrap-around, bytes,
      bit lemmas, [lzma_ret] and the error monad; [xz/src/common/tuklib_integer.h],
      [liblzma/common/common.h].
    - CrcTables, Crc: [liblzma/check/crc32_*.c], [crc64_*.c]; the generated tables,
      their generators, slicing by eight and by four.
    - Sha256: [liblzma/check/sha256.c].  Check: [liblzma/check/check.c].
    - Vli: [liblzma/common/vli_*.c], one call and many calls.
    - StreamFlags: [liblzma/common/stream_flags_*.c].
    - FastPos: [liblzma/lzma/fastpos.h] with its table and its generator.
    - FilterProps, FilterFlags: the properties of the filters, the tables of
      filters, chains ([liblzma/common/filter_*.c], [*_props_*] of the filters).
    - BlockHeader: [liblzma/common/block_header_*.c], [block_util.c].
    - IndexHash: [liblzma/common/index_hash.c], [index_encoder.c], [index.h].
    - Coder: the function table of a coder and [lzma_code] of
      [liblzma/common/common.c].
    - Delta: [liblzma/delta].  Bcj: the ARM, ARM-Thumb, ARM64, PowerPC and SPARC
      filters of [liblzma/simple]; SimpleCoder: [simple_coder.c], which runs them.
    - RangeCoder: [liblzma/rangecoder].
    - LzDict, LzDecoder: [liblzma/lz/lz_decoder.h] and [lz_decoder.c].
    - LzmaCommon, LzmaDecoder, LzmaEncoder: [liblzma/lzma/lzma_common.h],
      [lzma_decoder.c], [lzma_encoder.c].  LzmaSafety: the invariant of the decoder.
    - Lzma2Decoder: [liblzma/lzma/lzma2_decoder.c].  Lzma2Stored: what it makes of
      chunks that are stored.
    - IndexPieces: the Index decoder of [index_hash.c] when its input comes in pieces.
    - Decodes: the interface of a decoder that is given its input in pieces, with the
      laws [Decodes] and [Safe], and any sequence of calls ([feed]).
    - BlockDecoder: [liblzma/common/block_decoder.c].  StreamDecoder:
      [stream_decoder.c], state machine and initialization.  StreamFormat: the bytes
      of a Stream, and that the Stream decoder expects them.
    - RawDecoder: [filter_common.c], [filter_decoder.c], and the initialization and
      memory usage of the decoders of LZMA1, LZMA2 and Delta.
    - BufferEncoder: [block_buffer_encoder.c], [stream_buffer_encoder.c] and
      [lzma_index_append] of [index.c].
    - XzRoundtrip: the theorems on whole Streams, and files of [xz] decoded.
    - MatchFinder: [liblzma/lz/lz_encoder_mf.c], [lz_encoder.c] (the window),
      [lz_encoder_hash.h], [common/memcmplen.h].
    - LzmaOptimumFast: [liblzma/lzma/lzma_encoder_optimum_fast.c] and the interface
      of the optimizers.  LzmaSymbols, LzmaRoundtrip: what a symbol means, its bits
      in the encoder and in the decoder, the round trip.
    - CxxString: the functions of C++ strings that baulk uses.
    - TarHeader, TarPax, Tar: [tar/format.cc], [tar/tarinternal.hpp], [tar/tar.cc]
      and [include/baulk/archive/tar.hpp], [extractor.hpp].
    - BelaIo: the cursor, the buffered reader and the files of
      [vendor/bela/include/bela] ([endian.hpp], [bufio.hpp], [io.hpp]); BelaTime: its
      times ([vendor/bela/src/belatime/dos.cc], [time.hpp]), below [src].
    - Zip: [zip/zip.cc], [zip/filemode.cc], [zip/decompress.cc]; ZipRoundtrip: a
      writer of the format, the theorems and examples.
    - ArchivePath: [ced.cc] and [archive.cc].  ArchiveFormat: [format.cc].

    ** How code is modelled

    A function of the code is a definition of its name.  A buffer is a list of
    bytes; [in], [*in_pos] and [in_size] become the list of the bytes that are left,
    and what is stored to [out] is returned.  Structures are records, [lzma_ret] is
    an inductive type, a function that can fail returns [res].  A state machine
    that can stop when its input or its room ends is a step function with the place
    in the state, and a loop that runs it with fuel; the places are those of the
    code ([sequence]).  Interfaces are type classes: [Coder] for the next coder of a
    chain, [SimpleFilter] for a branch converter, [Window] for what an LZ-based
    decoder sees of the dictionary, [LzCoder] for the LZ-based decoder, [RawDecoder]
    for a chain of filters, [RawEncoder] for the encoder of a chain, [Optimum]
    for the choice of matches.  The laws that a client needs are classes, too, and
    the files of the implementations have the instances.

    ** What is proved

    - Round trips: integers, Stream flags, filter properties and flags, Block
      headers, the Index, Delta, branch converters through their buffering coder,
      the range coder (any sequence of bits, in any number of calls), ustar headers
      and pax records; Zip archives (the directory and its entries); LZMA in the fast mode with hash chains, from the options and
      an empty window to the decoded bytes; whole [.xz] Streams, from
      [lzma_stream_buffer_encode] to any calls of the Stream decoder.
    - The Stream decoder gives the data of any Stream of the format in whatever pieces
      it comes, with any number of Blocks and any chain of LZMA2 and Delta; a Block is
      accepted only with the check and the size of its data, whatever its chain does.
    - Every match of the hash chains is an occurrence of the next bytes, in every
      state that searches, skips, refills, moved windows, flushes and normalizations
      reach.
    - The decoders accept only what the encoders write, where the format wants that
      (integers, Stream flags, the Index).
    - Fast variants equal the plain ones: slicing CRC, SHA-256 in pieces against the
      standard, distance slots by table and by bit scan, the comparison of strings word by
      word, calls in pieces.
    - [SimpleCoder] and [LzDecoder] refine abstract specifications: the filter
      applied to all data at once; the sequence of decoded bytes instead of the
      buffer that wraps.
    - The Stream decoder returns for every input.  The LZMA and LZMA2 decoders: an invariant of every place of its [switch] (indices inside
      their arrays, distances inside the window, a measure that falls), hence it
      returns for every input, and every call that stops has consumed or produced
      what it could.  [Tar.next_terminates] is such a theorem for tar.
    - The Zip reader finds the last end record that fits and reads it inside its
      buffers; the calendar of DOS dates is counting days.
    - [lzma_code] keeps the protocol of its actions; a name that passes the check
      stays below the destination; checks detect the errors they should.

    ** Fuel

    Every fuel is a function of the input, and theorems state that it is enough:
    [LzDecoder.buffer_fuel] counts rounds that read or store a byte,
    [StreamDecoder.stream_fuel] is four rounds for every byte of input and five more,
    [BufferEncoder.chunk_loop] has one round for every byte and [padding_bytes] three,
    [LzmaDecoder.decode_fuel] is 64 steps for every byte of room (a symbol takes at
    most 55), [LzmaEncoder.encode_fuel] one round for every byte of input, [memcmplen] and the
    match finders count down from their limits; the loops
    of [Tar.Next] run on the size of the archive.

    ** Not modelled

    The encoders of Streams and Blocks that work in pieces, [.lzma] and [.lz] files,
    the tree of [index.c], the LZMA2 encoder, the x86, IA-64 and RISC-V filters; the
    branch converters are not part of the chains of RawDecoder, and a chain is always
    built in new memory.  The optimizer of the normal mode chooses
    between correct encodings by estimated prices; it is an instance of the class
    [Optimum] that is not modelled.  The binary trees are definitions without
    theorems.  Threads, memory management,
    intrinsics and assembly variants are left out.  zlib, bzip2, zstd, brotli, PPMd,
    the detection of encodings, mimalloc, bela and JSON are third-party code; what
    the modelled code uses of bela is written out or a parameter.  The tools, the
    network and the registry of Windows have little logic of their own. *)

From Stdlib Require Export ZArith Lia Bool.
From stdpp Require Export prelude.

#[export] Set Default Proof Using "Type".
Declare Scope baulk_scope.
Delimit Scope baulk_scope with baulk.
#[global] Open Scope Z_scope.

(** ** Machine integers

    A [w]-bit unsigned value is a [Z] in [[0, 2^w)]; every operation of the C
    code that can leave that range is followed by the matching wrap. *)

Definition u8 (x : Z) : Z := x mod 256.
Definition u16 (x : Z) : Z := x mod 65536.
Definition u32 (x : Z) : Z := x mod 4294967296.
Definition u64 (x : Z) : Z := x mod 18446744073709551616.

(** Two's complement reading of the low 64 bits: a conversion to [int64_t]. *)
Definition i64 (x : Z) : Z :=
  let y := u64 x in if y <? 9223372036854775808 then y else y - 18446744073709551616.

Definition UINT32_MAX : Z := 4294967295.
Definition UINT64_MAX : Z := 18446744073709551615.
Definition INT64_MAX : Z := 9223372036854775807.
Definition INT64_MIN : Z := -9223372036854775808.

Definition is_byte (b : Z) : Prop := 0 <= b < 256.
Definition is_u32 (x : Z) : Prop := 0 <= x < 4294967296.
Definition is_u64 (x : Z) : Prop := 0 <= x < 18446744073709551616.

(** A buffer of [uint8_t]. *)
Abbreviation bytes := (list Z) (only parsing).
Abbreviation bytes_ok := (Forall is_byte).

(** Length of a buffer as the [size_t] the C code computes with. *)
Abbreviation zlen l := (Z.of_nat (length l)).

(** [buf[i]]; a read outside the buffer is undefined in C, and the theorems
    about code that indexes a buffer assume or prove that it never happens. *)
Definition byte_at (buf : bytes) (i : Z) : Z := nth (Z.to_nat i) buf 0.

(** The bytes from [buf + off] on. *)
Definition from (off : Z) (buf : bytes) : bytes := drop (Z.to_nat off) buf.

(** The [n] bytes that start at [buf + off]. *)
Definition slice (off n : Z) (buf : bytes) : bytes := take (Z.to_nat n) (from off buf).

(** ** Unaligned little endian access, as in [common/tuklib_integer.h] *)

Definition read32le (buf : bytes) : Z :=
  Z.lor (Z.lor (Z.lor (byte_at buf 0) (Z.shiftl (byte_at buf 1) 8))
               (Z.shiftl (byte_at buf 2) 16))
        (Z.shiftl (byte_at buf 3) 24).

Definition write32le (num : Z) : bytes :=
  [u8 num; u8 (Z.shiftr num 8); u8 (Z.shiftr num 16); u8 (Z.shiftr num 24)].

(** ** Tactics *)

(** Linear arithmetic with division and remainder by constants. *)
Ltac dlia := Z.div_mod_to_equations; lia.

(** Discharge [bytes_ok] of a concrete buffer. *)
Ltac bytes_ok_tac :=
  repeat (apply Forall_cons; split; [unfold is_byte; lia|]); apply Forall_nil; exact I.

(** Turn the tests of the code, [bool] comparisons, into propositions. *)
Ltac b2p :=
  repeat match goal with
  | H : (_ && _)%bool = true |- _ => apply andb_true_iff in H as [??]
  | H : (_ || _)%bool = false |- _ => apply orb_false_iff in H as [??]
  | H : negb _ = true |- _ => apply negb_true_iff in H
  | H : negb _ = false |- _ => apply negb_false_iff in H
  | H : (_ =? _) = true |- _ => apply Z.eqb_eq in H
  | H : (_ =? _) = false |- _ => apply Z.eqb_neq in H
  | H : (_ <? _) = true |- _ => apply Z.ltb_lt in H
  | H : (_ <? _) = false |- _ => apply Z.ltb_ge in H
  | H : (_ <=? _) = true |- _ => apply Z.leb_le in H
  | H : (_ >? _) = _ |- _ => rewrite Z.gtb_ltb in H
  | H : (_ >=? _) = _ |- _ => rewrite Z.geb_leb in H
  | H : (_ <=? _) = false |- _ => apply Z.leb_gt in H
  end.

(** Case analysis on the first [if] or [match] scrutinee found. *)
Ltac case_if :=
  match goal with
  | |- context [if ?b then _ else _] => destruct b eqn:?
  end.

(** The same in a hypothesis. *)
Ltac case_if_in H :=
  match type of H with
  | context [if ?b then _ else _] => destruct b eqn:?
  end.

(** Decide a test of the code whose outcome linear arithmetic knows. *)
Ltac bool_lia :=
  symmetry;
  first [lia | apply Z.eqb_neq; lia | apply Z.eqb_eq; lia | apply Z.ltb_ge; lia | apply Z.ltb_lt; lia | apply Z.leb_gt; lia | apply Z.leb_le; lia |
    rewrite Z.gtb_ltb; (apply Z.ltb_ge + apply Z.ltb_lt); lia |
    rewrite Z.geb_leb; (apply Z.leb_gt + apply Z.leb_le); lia].
Tactic Notation "btrue" constr(t) := replace t with true by bool_lia.
Tactic Notation "btrue" constr(t) "in" hyp(H) := replace t with true in H by bool_lia.
Tactic Notation "bfalse" constr(t) := replace t with false by bool_lia.
Tactic Notation "bfalse" constr(t) "in" hyp(H) := replace t with false in H by bool_lia.

(** Bitwise equality of integers: compare the bits at a position [i >= 0]. *)
Create HintDb bitwise.
#[export] Hint Rewrite Z.land_spec Z.lor_spec Z.lxor_spec Z.testbit_0_l
  Z.bits_opp : bitwise.
#[export] Hint Rewrite Z.shiftr_spec Z.shiftl_spec Z.lnot_spec using lia : bitwise.
#[export] Hint Rewrite andb_true_r andb_false_r orb_false_r orb_true_r
  xorb_false_r xorb_false_l orb_false_l : bitwise.

Ltac zbits i Hi := apply Z.bits_inj'; intros i Hi; autorewrite with bitwise.

(** ** Ranges *)

Lemma u8_range x : 0 <= u8 x < 256.
Proof. apply Z.mod_pos_bound; lia. Qed.
Lemma u32_range x : 0 <= u32 x < 4294967296.
Proof. apply Z.mod_pos_bound; lia. Qed.
Lemma u64_range x : 0 <= u64 x < 18446744073709551616.
Proof. apply Z.mod_pos_bound; lia. Qed.
Lemma u8_small x : is_byte x -> u8 x = x.
Proof. apply Z.mod_small. Qed.
Lemma u32_small x : is_u32 x -> u32 x = x.
Proof. apply Z.mod_small. Qed.
Lemma u64_small x : is_u64 x -> u64 x = x.
Proof. apply Z.mod_small. Qed.
Lemma is_byte_u8 x : is_byte (u8 x).
Proof. apply u8_range. Qed.

#[export] Hint Resolve u8_range u32_range u64_range is_byte_u8 : core.

(** A statement about one byte, decided by running it on the 256 values. *)
Lemma byte_sweep (P : Z -> bool) :
  forallb (fun n => P (Z.of_nat n)) (seq 0 256) = true ->
  forall b, is_byte b -> P b = true.
Proof.
  intros Hall b [Hb0 Hb1]. rewrite forallb_forall in Hall.
  rewrite <- (Z2Nat.id b) by lia. apply Hall, in_seq. lia.
Qed.

(** A mask with the low [n] bits set is a remainder. *)
Lemma land_low n x : 0 <= n -> Z.land x (2 ^ n - 1) = x mod 2 ^ n.
Proof.
  intros. replace (2 ^ n - 1) with (Z.ones n) by (rewrite Z.ones_equiv; lia).
  now rewrite Z.land_ones.
Qed.

(** A mask of [n] bits from position [k] on selects a field. *)
Lemma land_field k n x :
  0 <= k -> 0 <= n -> Z.land x ((2 ^ n - 1) * 2 ^ k) = (x / 2 ^ k) mod 2 ^ n * 2 ^ k.
Proof.
  intros Hk Hn. rewrite <- (land_low n) by lia. rewrite <- !Z.shiftl_mul_pow2, <- Z.shiftr_div_pow2 by lia.
  zbits i Hi. destruct (Z.ltb_spec i k).
  - rewrite !(Z.testbit_neg_r _ (i - k)) by lia. now rewrite !andb_false_r.
  - rewrite Z.shiftr_spec by lia. now replace (i - k + k) with i by lia.
Qed.

(** Disjoint bits add up. *)
Lemma lxor_shifted n a b :
  0 <= n -> 0 <= b < 2 ^ n -> Z.lxor (a * 2 ^ n) b = a * 2 ^ n + b.
Proof.
  intros Hn Hb. rewrite <- Z.add_nocarry_lxor; [reflexivity|].
  zbits i Hi. rewrite <- Z.shiftl_mul_pow2, Z.shiftl_spec by lia.
  destruct (Z.ltb_spec i n); [rewrite Z.testbit_neg_r by lia; reflexivity|].
  rewrite <- (Z.mod_small b (2 ^ n)), Z.mod_pow2_bits_high by lia.
  apply andb_false_r.
Qed.

Lemma lor_shifted n a b :
  0 <= n -> 0 <= b < 2 ^ n -> Z.lor (a * 2 ^ n) b = a * 2 ^ n + b.
Proof.
  intros Hn Hb. rewrite <- lxor_shifted by assumption. rewrite Z.lxor_lor; [reflexivity|].
  zbits i Hi. rewrite <- Z.shiftl_mul_pow2, Z.shiftl_spec by lia.
  destruct (Z.ltb_spec i n); [rewrite Z.testbit_neg_r by lia; reflexivity|].
  rewrite <- (Z.mod_small b (2 ^ n)), Z.mod_pow2_bits_high by lia.
  apply andb_false_r.
Qed.

Lemma lor_shifted_l n a b :
  0 <= n -> 0 <= b < 2 ^ n -> Z.lor b (a * 2 ^ n) = a * 2 ^ n + b.
Proof. intros. rewrite Z.lor_comm. now apply lor_shifted. Qed.

(** A field between a high and a low part. *)
Lemma lor_mid m n a r x :
  0 <= m <= n -> 0 <= r < 2 ^ m -> 0 <= x -> x * 2 ^ m + 2 ^ m <= 2 ^ n ->
  Z.lor (a * 2 ^ n + r) (x * 2 ^ m) = a * 2 ^ n + x * 2 ^ m + r.
Proof.
  intros Hmn Hr Hx Hxn. pose proof (Z.pow_pos_nonneg 2 m ltac:(lia) ltac:(lia)).
  rewrite <- (lor_shifted n a r) by nia. rewrite <- Z.lor_assoc.
  rewrite lor_shifted_l by lia. rewrite lor_shifted by nia. lia.
Qed.

(** Clearing the low [n] bits. *)
Lemma land_high n x : 0 <= n -> Z.land x (Z.lnot (2 ^ n - 1)) = x - x mod 2 ^ n.
Proof.
  intros Hn. rewrite <- Z.ldiff_land.
  replace (2 ^ n - 1) with (Z.ones n) by (rewrite Z.ones_equiv; lia).
  rewrite Z.ldiff_ones_r, Z.shiftl_mul_pow2, Z.shiftr_div_pow2 by lia.
  pose proof (Z.div_mod x (2 ^ n)). lia.
Qed.

(** Exclusive or of values below a power of two stays below it. *)
Lemma lxor_range n a b :
  0 <= n -> 0 <= a < 2 ^ n -> 0 <= b < 2 ^ n -> 0 <= Z.lxor a b < 2 ^ n.
Proof.
  intros Hn Ha Hb. split; [apply Z.lxor_nonneg; lia|].
  rewrite <- (Z.mod_small a (2 ^ n)), <- (Z.mod_small b (2 ^ n)) by lia.
  assert (Z.lxor (a mod 2 ^ n) (b mod 2 ^ n) = Z.lxor a b mod 2 ^ n) as ->;
    [|apply Z.mod_pos_bound; lia].
  zbits i Hi. destruct (Z.ltb_spec i n).
  - now rewrite !Z.mod_pow2_bits_low, Z.lxor_spec by lia.
  - now rewrite !Z.mod_pow2_bits_high by lia.
Qed.

(** ** Little endian round trips *)

Lemma read32le_arith b0 b1 b2 b3 rest :
  is_byte b0 -> is_byte b1 -> is_byte b2 -> is_byte b3 ->
  read32le (b0 :: b1 :: b2 :: b3 :: rest) =
  b0 + b1 * 256 + b2 * 65536 + b3 * 16777216.
Proof.
  unfold is_byte, read32le, byte_at; simpl; intros.
  rewrite !Z.shiftl_mul_pow2 by lia.
  rewrite (lor_shifted_l 8), (lor_shifted_l 16), (lor_shifted_l 24) by lia. lia.
Qed.

Lemma length_write32le n : length (write32le n) = 4%nat.
Proof. reflexivity. Qed.

Lemma write32le_bytes n : bytes_ok (write32le n).
Proof. repeat constructor; apply u8_range. Qed.

Lemma read32le_write32le n rest : is_u32 n -> read32le (write32le n ++ rest) = n.
Proof.
  intros Hn. cbn [write32le app]. rewrite read32le_arith by apply is_byte_u8.
  rewrite !Z.shiftr_div_pow2 by lia. unfold u8, is_u32 in *.
  change (2 ^ 8) with 256; change (2 ^ 16) with 65536; change (2 ^ 24) with 16777216.
  dlia.
Qed.

Lemma write32le_read32le b0 b1 b2 b3 :
  bytes_ok [b0; b1; b2; b3] -> write32le (read32le [b0; b1; b2; b3]) = [b0; b1; b2; b3].
Proof.
  intros H. repeat (apply Forall_cons in H as [? H]).
  rewrite read32le_arith by assumption. unfold write32le, is_byte in *.
  rewrite !Z.shiftr_div_pow2 by lia. unfold u8.
  change (2 ^ 8) with 256; change (2 ^ 16) with 65536; change (2 ^ 24) with 16777216.
  repeat f_equal; dlia.
Qed.

Lemma read32le_app a b : (4 <= length a)%nat -> read32le (a ++ b) = read32le a.
Proof.
  intros. do 4 (destruct a as [|? a]; [simpl in *; lia|]). reflexivity.
Qed.

Lemma read32le_range buf : bytes_ok buf -> (4 <= length buf)%nat -> is_u32 (read32le buf).
Proof.
  intros H Hl. do 4 (destruct buf as [|? buf]; [simpl in *; lia|]).
  do 4 (apply Forall_cons in H as [? H]).
  rewrite read32le_arith by assumption. unfold is_byte, is_u32 in *. lia.
Qed.

(** ** Iteration and lists *)

Lemma iter_pred {A} (P : A -> Prop) (f : A -> A) n x :
  P x -> (forall y, P y -> P (f y)) -> P (Nat.iter n f x).
Proof. intros Hx Hf. induction n as [|n IH]; simpl; auto. Qed.

Lemma from_app (a b : bytes) n : n = zlen a -> from n (a ++ b) = b.
Proof. intros ->. unfold from. now rewrite Nat2Z.id, drop_app_length. Qed.

Lemma slice_app (a b c : bytes) n m :
  n = zlen a -> m = zlen b -> slice n m (a ++ b ++ c) = b.
Proof.
  intros -> ->. unfold slice. rewrite from_app by reflexivity.
  now rewrite Nat2Z.id, take_app_length.
Qed.

Lemma byte_at_0 b l : byte_at (b :: l) 0 = b.
Proof. reflexivity. Qed.

Lemma byte_at_S b l i : 0 <= i -> byte_at (b :: l) (i + 1) = byte_at l i.
Proof. intros. unfold byte_at. now replace (Z.to_nat (i + 1)) with (S (Z.to_nat i)) by lia. Qed.

Lemma byte_at_ok buf i : bytes_ok buf -> is_byte (byte_at buf i).
Proof.
  intros H. unfold byte_at. destruct (nth_in_or_default (Z.to_nat i) buf 0) as [Hin| ->].
  - rewrite Forall_forall in H. apply H, list_elem_of_In, Hin.
  - unfold is_byte; lia.
Qed.

Lemma byte_at_app (a b : bytes) i : 0 <= i -> byte_at (a ++ b) i = if i <? zlen a then byte_at a i else byte_at b (i - zlen a).
Proof.
  intros Hi. unfold byte_at. destruct (Z.ltb_spec i (zlen a)); [apply app_nth1; lia|].
  rewrite app_nth2 by lia. f_equal. lia.
Qed.

Lemma byte_at_of_slice b k n j : 0 <= k -> 0 <= j < n -> byte_at (slice k n b) j = byte_at b (k + j).
Proof.
  intros Hk Hj. unfold slice, from, byte_at. rewrite !nth_lookup, lookup_take, decide_True, lookup_drop by lia. do 2 f_equal. lia.
Qed.

Lemma length_slice (b : bytes) k n : 0 <= k -> 0 <= n -> k + n <= zlen b -> zlen (slice k n b) = n.
Proof. intros. unfold slice, from. rewrite length_take, length_drop. lia. Qed.

Lemma byte_at_take (l : bytes) n i : 0 <= i < Z.of_nat n -> byte_at (take n l) i = byte_at l i.
Proof. intros Hi. unfold byte_at. rewrite !nth_lookup, lookup_take. destruct (decide (Z.to_nat i < n)%nat); [reflexivity|lia]. Qed.

(** ** Return codes: [lzma_ret] of [api/lzma/base.h] *)

Inductive lzma_ret :=
  | LZMA_OK | LZMA_STREAM_END | LZMA_NO_CHECK | LZMA_UNSUPPORTED_CHECK
  | LZMA_GET_CHECK | LZMA_MEM_ERROR | LZMA_MEMLIMIT_ERROR | LZMA_FORMAT_ERROR
  | LZMA_OPTIONS_ERROR | LZMA_DATA_ERROR | LZMA_BUF_ERROR | LZMA_PROG_ERROR
  | LZMA_SEEK_NEEDED | LZMA_TIMED_OUT | LZMA_INDEX_DETECTED.

#[export] Instance lzma_ret_eq_dec : EqDecision lzma_ret.
Proof. solve_decision. Defined.

(** [return_if_error]: a computation that carries a value when it returned
    [LZMA_OK] and the other return code when it did not. *)
Inductive res (A : Type) :=
  | Ok (a : A)
  | Err (e : lzma_ret).
Arguments Ok {A} _.
Arguments Err {A} _.

Definition res_bind {A B} (m : res A) (f : A -> res B) : res B :=
  match m with Ok a => f a | Err e => Err e end.

Notation "'let?' p := m 'in' f" := (res_bind m (fun p => f))
  (at level 10, p as pattern, m at level 100, f at level 200) : baulk_scope.
#[global] Open Scope baulk_scope.

Lemma res_bind_Ok {A B} (m : res A) (f : A -> res B) b :
  res_bind m f = Ok b <-> exists a, m = Ok a /\ f a = Ok b.
Proof. destruct m; simpl; split;
  [eauto | intros (? & [= <-] & ?); assumption | discriminate | intros (? & ? & ?); discriminate].
Qed.
