(* ===== verification/Crc.v ===== *)
(** * CRC32 and CRC64 of liblzma

    The table generators ([check/crc32_tablegen.c], [crc64_tablegen.c]), the
    byte-at-a-time routine ([crc32_small.c]) and the slicing routines that
    liblzma runs ([crc32_fast.c], [crc64_fast.c]), all compared with a
    bit-serial reference. *)

From S2P Require Import Prelude CrcTables.

(** ** Table generation *)

Definition poly32 : Z := 0xEDB88320.
Definition poly64 : Z := 0xC96C5795D7870F42.

(** The body of the innermost loop: [r >> 1], with the polynomial added when
    the bit that leaves is set. *)
Definition crc_bit (poly r : Z) : Z :=
  if negb (Z.land r 1 =? 0) then Z.lxor (Z.shiftr r 1) poly else Z.shiftr r 1.

(** [for (size_t i = 0; i < 8; ++i)] *)
Definition crc_byte (poly r : Z) : Z := Nat.iter 8 (crc_bit poly) r.

(** [init_crc32_table] and [init_crc64_table]: row 0 starts from the byte
    itself and row [s] from row [s - 1]. *)
Fixpoint init_crc_table (poly : Z) (s : nat) (prev : list Z) : list (list Z) :=
  match s with
  | O => []
  | S s =>
      let row := map (crc_byte poly) prev in
      row :: init_crc_table poly s row
  end.

Definition all_bytes : list Z := map Z.of_nat (seq 0 256).
Definition init_crc32_table : list (list Z) := init_crc_table poly32 8 all_bytes.
Definition init_crc64_table : list (list Z) := init_crc_table poly64 4 all_bytes.

(** ** The routines *)

Definition tbl (t : list (list Z)) (s : nat) (i : Z) : Z := nth (Z.to_nat i) (nth s t []) 0.

(** The macros of [crc_common.h], little endian. *)
Module Macros.
Definition A (x : Z) : Z := Z.land x 0xFF.
Definition B (x : Z) : Z := Z.land (Z.shiftr x 8) 0xFF.
Definition C (x : Z) : Z := Z.land (Z.shiftr x 16) 0xFF.
Definition D (x : Z) : Z := Z.shiftr x 24.
Definition S8 (x : Z) : Z := Z.shiftr x 8.
Definition S32 (x : Z) : Z := Z.shiftr x 32.
End Macros.
Import Macros.

(** [~crc] on 32 and 64 bits. *)
Definition not32 (x : Z) : Z := Z.lxor x UINT32_MAX.
Definition not64 (x : Z) : Z := Z.lxor x UINT64_MAX.

(** One byte: [table[0][*buf++ ^ A(crc)] ^ S8(crc)]. *)
Definition crc_step (t : list (list Z)) (crc b : Z) : Z :=
  Z.lxor (tbl t 0 (Z.lxor b (A crc))) (S8 crc).

(** [while (size-- != 0)]: the remaining bytes one by one. *)
Definition crc_tail (t : list (list Z)) (buf : bytes) (crc : Z) : Z :=
  fold_left (crc_step t) buf crc.

(** [crc32_small.c] *)
Definition lzma_crc32_small (buf : bytes) (crc : Z) : Z :=
  not32 (crc_tail [hd [] init_crc32_table] buf (not32 crc)).

(** [while ((uintptr_t)(buf) & mask)]: bytes up to an aligned address. *)
Fixpoint crc_align (t : list (list Z)) (mask addr : Z) (buf : bytes) (crc : Z) : bytes * Z :=
  match buf with
  | [] => ([], crc)
  | b :: rest =>
      if negb (Z.land addr mask =? 0)
      then crc_align t mask (addr + 1) rest (crc_step t crc b)
      else (buf, crc)
  end.

(** [while (buf < limit)]: eight bytes at a time. *)
Fixpoint crc32_slice8 (buf : bytes) (crc : Z) : bytes * Z :=
  match buf with
  | b0 :: b1 :: b2 :: b3 :: b4 :: b5 :: b6 :: b7 :: rest =>
      let T := tbl lzma_crc32_table in
      let crc := Z.lxor crc (read32le [b0; b1; b2; b3]) in
      let crc := Z.lxor (Z.lxor (Z.lxor (T 7%nat (A crc)) (T 6%nat (B crc)))
                                (T 5%nat (C crc))) (T 4%nat (D crc)) in
      let tmp := read32le [b4; b5; b6; b7] in
      let crc := Z.lxor (Z.lxor (Z.lxor (Z.lxor (T 3%nat (A tmp)) (T 2%nat (B tmp))) crc)
                                (T 1%nat (C tmp))) (T 0%nat (D tmp)) in
      crc32_slice8 rest crc
  | _ => (buf, crc)
  end.

(** [lzma_crc32_generic], for a buffer that starts at address [addr]. *)
Definition lzma_crc32_generic (addr : Z) (buf : bytes) (crc : Z) : Z :=
  let crc := not32 crc in
  let '(buf, crc) :=
    if zlen buf >? 8 then
      let '(buf, crc) := crc_align lzma_crc32_table 7 addr buf crc in
      crc32_slice8 buf crc
    else (buf, crc) in
  not32 (crc_tail lzma_crc32_table buf crc).

Fixpoint crc64_slice4 (buf : bytes) (crc : Z) : bytes * Z :=
  match buf with
  | b0 :: b1 :: b2 :: b3 :: rest =>
      let T := tbl lzma_crc64_table in
      let tmp := Z.lxor (u32 crc) (read32le [b0; b1; b2; b3]) in
      let crc := Z.lxor (Z.lxor (Z.lxor (Z.lxor (T 3%nat (A tmp)) (T 2%nat (B tmp)))
                                        (S32 crc)) (T 1%nat (C tmp))) (T 0%nat (D tmp)) in
      crc64_slice4 rest crc
  | _ => (buf, crc)
  end.

Definition lzma_crc64_generic (addr : Z) (buf : bytes) (crc : Z) : Z :=
  let crc := not64 crc in
  let '(buf, crc) :=
    if zlen buf >? 4 then
      let '(buf, crc) := crc_align lzma_crc64_table 3 addr buf crc in
      crc64_slice4 buf crc
    else (buf, crc) in
  not64 (crc_tail lzma_crc64_table buf crc).

(** The exported functions in the generic configuration, for buffers that
    start at an aligned address; [crc32_generic_reference] shows that the
    address does not matter. *)
Definition lzma_crc32 (buf : bytes) (crc : Z) : Z := lzma_crc32_generic 0 buf crc.
Definition lzma_crc64 (buf : bytes) (crc : Z) : Z := lzma_crc64_generic 0 buf crc.

(** The check values of the two CRCs, for the ASCII string 123456789. *)
Definition check_string : bytes := map Z.of_nat (seq 0x31 9).
Example crc32_check : lzma_crc32 check_string 0 = 0xCBF43926.
Proof. vm_compute. reflexivity. Qed.
Example crc64_check : lzma_crc64 check_string 0 = 0x995DC9BBDF1939FA.
Proof. vm_compute. reflexivity. Qed.
Example crc32_check_unaligned : lzma_crc32_generic 3 check_string 0 = 0xCBF43926.
Proof. vm_compute. reflexivity. Qed.
Example crc32_check_small : lzma_crc32_small check_string 0 = 0xCBF43926.
Proof. vm_compute. reflexivity. Qed.

(** ** The reference: the message bits through the shift register *)

(** Feeding one byte and the whole message, least significant bit first. *)
Definition crc_feed (poly c b : Z) : Z := crc_byte poly (Z.lxor c b).
Definition crc_ref (poly : Z) (buf : bytes) (c : Z) : Z := fold_left (crc_feed poly) buf c.

(** The message as one number, its first byte lowest. *)
Fixpoint le_word (l : bytes) : Z :=
  match l with
  | [] => 0
  | b :: l => Z.lxor b (Z.shiftl (le_word l) 8)
  end.

(** ** The shift register is linear *)

Section Register.
Context (poly : Z).

Lemma crc_bit_alt r :
  crc_bit poly r = Z.lxor (Z.shiftr r 1) (if Z.testbit r 0 then poly else 0).
Proof.
  unfold crc_bit. change 1 with (2 ^ 1 - 1) at 1. rewrite land_low by lia.
  change (2 ^ 1) with 2. rewrite <- Z.bit0_mod.
  destruct (Z.testbit r 0); simpl; [reflexivity|now rewrite Z.lxor_0_r].
Qed.

Lemma crc_bit_lxor a b : crc_bit poly (Z.lxor a b) = Z.lxor (crc_bit poly a) (crc_bit poly b).
Proof.
  rewrite !crc_bit_alt, Z.shiftr_lxor, Z.lxor_spec.
  destruct (Z.testbit a 0), (Z.testbit b 0); simpl; rewrite ?Z.lxor_0_r.
  - rewrite Z.lxor_assoc, (Z.lxor_comm poly), Z.lxor_assoc, Z.lxor_nilpotent.
    now rewrite Z.lxor_0_r.
  - now rewrite !Z.lxor_assoc, (Z.lxor_comm poly).
  - now rewrite !Z.lxor_assoc.
  - reflexivity.
Qed.

Lemma iter_lxor (f : Z -> Z) n a b :
  (forall a b, f (Z.lxor a b) = Z.lxor (f a) (f b)) ->
  Nat.iter n f (Z.lxor a b) = Z.lxor (Nat.iter n f a) (Nat.iter n f b).
Proof. intros Hf. induction n as [|n IH]; simpl; [reflexivity|now rewrite IH, Hf]. Qed.

Lemma crc_byte_lxor a b :
  crc_byte poly (Z.lxor a b) = Z.lxor (crc_byte poly a) (crc_byte poly b).
Proof. apply iter_lxor, crc_bit_lxor. Qed.

Definition crc_bytes (n : nat) (r : Z) : Z := Nat.iter n (crc_byte poly) r.

Lemma crc_bytes_lxor n a b :
  crc_bytes n (Z.lxor a b) = Z.lxor (crc_bytes n a) (crc_bytes n b).
Proof. apply iter_lxor, crc_byte_lxor. Qed.

Lemma crc_bytes_S n r : crc_bytes (S n) r = crc_bytes n (crc_byte poly r).
Proof. unfold crc_bytes. now rewrite Nat.iter_succ_r. Qed.

Lemma crc_bytes_add n m r : crc_bytes (n + m) r = crc_bytes n (crc_bytes m r).
Proof. unfold crc_bytes. now rewrite Nat.iter_add. Qed.

(** Eight zero bits just move the register. *)
Lemma crc_bit_shiftl h k : 0 <= k -> crc_bit poly (Z.shiftl h (k + 1)) = Z.shiftl h k.
Proof.
  intros. rewrite crc_bit_alt, Z.shiftl_spec_low by lia. rewrite Z.lxor_0_r.
  rewrite Z.shiftr_shiftl_l by lia. f_equal; lia.
Qed.

Lemma crc_byte_shiftl h : crc_byte poly (Z.shiftl h 8) = h.
Proof.
  cbv [crc_byte Nat.iter nat_rect].
  let step k := (rewrite (crc_bit_shiftl h k ltac:(lia)
    : crc_bit poly (Z.shiftl h ltac:(let s := eval cbv in (k + 1) in exact s)) = _)) in
  step 7; step 6; step 5; step 4; step 3; step 2; step 1; step 0.
  apply Z.shiftl_0_r.
Qed.

(** The low byte and the rest of a register. *)
Lemma split_low x : x = Z.lxor (Z.land x 0xFF) (Z.shiftl (Z.shiftr x 8) 8).
Proof.
  change 0xFF with (2 ^ 8 - 1). rewrite land_low by lia.
  rewrite Z.shiftl_mul_pow2, Z.shiftr_div_pow2 by lia. rewrite Z.lxor_comm.
  rewrite lxor_shifted by (try apply Z.mod_pos_bound; lia).
  pose proof (Z.div_mod x (2 ^ 8)). lia.
Qed.

Lemma crc_bytes_split n x :
  crc_bytes (S n) x = Z.lxor (crc_bytes (S n) (A x)) (crc_bytes n (Z.shiftr x 8)).
Proof.
  rewrite (split_low x) at 1. rewrite crc_bytes_lxor. unfold A.
  now rewrite (crc_bytes_S n (Z.shiftl _ _)), crc_byte_shiftl.
Qed.

(** Feeding a message is running the register over the whole number. *)
Lemma crc_ref_word l c : crc_ref poly l c = crc_bytes (length l) (Z.lxor c (le_word l)).
Proof.
  revert c. induction l as [|b l IH]; intros c; [symmetry; apply Z.lxor_0_r|].
  cbn [length le_word]. change (crc_ref poly (b :: l) c) with (crc_ref poly l (crc_feed poly c b)).
  rewrite IH, crc_bytes_S. f_equal. unfold crc_feed.
  rewrite <- (Z.lxor_assoc c b), (crc_byte_lxor (Z.lxor c b)). now rewrite crc_byte_shiftl.
Qed.

Lemma crc_ref_app a b c : crc_ref poly (a ++ b) c = crc_ref poly b (crc_ref poly a c).
Proof. apply fold_left_app. Qed.
End Register.

(** ** The tables hold the register after [s + 1] bytes *)

Section Tables.

Definition table_ok (poly : Z) (t : list (list Z)) (n : nat) : Prop :=
  forall s b, (s < n)%nat -> is_byte b -> tbl t s b = crc_bytes poly (S s) b.

Lemma init_crc_table_row poly n s prev (f : Z -> Z) :
  prev = map f all_bytes -> (s < n)%nat ->
  nth s (init_crc_table poly n prev) [] =
    map (fun b => crc_bytes poly (S s) (f b)) all_bytes.
Proof.
  revert s prev f. induction n as [|n IH]; intros s prev f -> Hs; [lia|].
  cbn [init_crc_table]. rewrite map_map. destruct s as [|s]; cbn [nth]; [reflexivity|].
  rewrite (IH s _ (fun b => crc_byte poly (f b))); [|reflexivity|lia].
  apply map_ext. intros b. now rewrite (crc_bytes_S _ (S s)).
Qed.

Lemma nth_all_bytes (f : Z -> Z) b : is_byte b -> nth (Z.to_nat b) (map f all_bytes) 0 = f b.
Proof.
  unfold is_byte, all_bytes. intros Hb. rewrite map_map.
  rewrite (nth_indep _ 0 (f (Z.of_nat 256))) by (rewrite length_map, length_seq; lia).
  rewrite (map_nth (fun n => f (Z.of_nat n))).
  rewrite seq_nth by lia. f_equal. lia.
Qed.

Lemma init_table_ok poly n : table_ok poly (init_crc_table poly n all_bytes) n.
Proof.
  intros s b Hs Hb. unfold tbl.
  rewrite (init_crc_table_row poly n s _ (fun b => b)); [|now rewrite map_id|assumption].
  now apply (nth_all_bytes (fun b => crc_bytes poly (S s) b)).
Qed.

Lemma crc32_table_gen : lzma_crc32_table = init_crc32_table.
Proof. vm_compute. reflexivity. Qed.

Lemma crc64_table_gen : lzma_crc64_table = init_crc64_table.
Proof. vm_compute. reflexivity. Qed.

Lemma crc32_table_ok : table_ok poly32 lzma_crc32_table 8.
Proof. rewrite crc32_table_gen. apply init_table_ok. Qed.

Lemma crc64_table_ok : table_ok poly64 lzma_crc64_table 4.
Proof. rewrite crc64_table_gen. apply init_table_ok. Qed.
End Tables.

(** ** Each routine computes the reference *)

Section Routines.

Lemma land_byte x : is_byte (Z.land x 0xFF).
Proof.
  change 0xFF with (2 ^ 8 - 1). rewrite land_low by lia.
  unfold is_byte. apply Z.mod_pos_bound; lia.
Qed.

Lemma crc_step_feed poly t n c b :
  table_ok poly t n -> (0 < n)%nat -> is_byte b -> crc_step t c b = crc_feed poly c b.
Proof.
  intros Ht Hn Hb. unfold crc_step, crc_feed, A, S8.
  assert (is_byte (Z.lxor b (Z.land c 0xFF))) as Hx.
  { pose proof (land_byte c). unfold is_byte in *. apply (lxor_range 8); simpl; lia. }
  rewrite (Ht 0%nat) by assumption. cbn [crc_bytes Nat.iter].
  rewrite (split_low c) at 3.
  rewrite (Z.lxor_comm (Z.land c 255)), Z.lxor_assoc, (Z.lxor_comm (Z.land c 255)).
  rewrite crc_byte_lxor, crc_byte_shiftl. apply Z.lxor_comm.
Qed.

Lemma crc_tail_ref poly t n buf c :
  table_ok poly t n -> (0 < n)%nat -> bytes_ok buf -> crc_tail t buf c = crc_ref poly buf c.
Proof.
  intros Ht Hn Hb. revert c. induction Hb as [|b buf Hb0 Hb IH]; intros c; [reflexivity|].
  unfold crc_tail, crc_ref in *. cbn [fold_left].
  now rewrite (crc_step_feed poly t n) by assumption.
Qed.

Lemma crc_align_ref poly t n mask addr buf c :
  table_ok poly t n -> (0 < n)%nat -> bytes_ok buf ->
  bytes_ok (crc_align t mask addr buf c).1 /\
  crc_ref poly (crc_align t mask addr buf c).1 (crc_align t mask addr buf c).2 =
    crc_ref poly buf c.
Proof.
  intros Ht Hn Hb. revert addr c. induction Hb as [|b buf Hb0 Hb IH]; intros addr c; simpl.
  - split; [constructor|reflexivity].
  - case_if; simpl; [|split; [now constructor|reflexivity]].
    destruct (IH (addr + 1) (crc_step t c b)) as [H1 ->]. split; [assumption|].
    unfold crc_ref. cbn [fold_left]. now rewrite (crc_step_feed poly t n) by assumption.
Qed.

Lemma read32le_word b0 b1 b2 b3 :
  bytes_ok [b0; b1; b2; b3] -> read32le [b0; b1; b2; b3] = le_word [b0; b1; b2; b3].
Proof.
  intros H. repeat (apply Forall_cons in H as [? H]).
  rewrite read32le_arith by assumption. unfold is_byte in *. cbn [le_word].
  rewrite Z.shiftl_0_l, Z.lxor_0_r, !Z.shiftl_mul_pow2 by lia.
  do 3 (rewrite (Z.lxor_comm _ (_ * 2 ^ 8)), lxor_shifted by lia).
  lia.
Qed.

Lemma D_byte x : is_u32 x -> Z.shiftr x 24 = Z.land (Z.shiftr x 24) 0xFF.
Proof.
  intros Hx. change 0xFF with (2 ^ 8 - 1). rewrite land_low, Z.shiftr_div_pow2 by lia.
  unfold is_u32 in Hx. rewrite Z.mod_small; [reflexivity|]. dlia.
Qed.

(** The four lookups of one slice: a 32-bit word [x] put through [k + 4]
    bytes of the register. *)
Lemma slice_lookups poly t n k x :
  table_ok poly t n -> (k + 4 <= n)%nat -> is_u32 x ->
  Z.lxor (Z.lxor (Z.lxor (tbl t (S (S (S k))) (A x)) (tbl t (S (S k)) (B x)))
                 (tbl t (S k) (C x))) (tbl t k (D x)) = crc_bytes poly (S (S (S (S k)))) x.
Proof.
  intros Ht Hk Hx. unfold A, B, C, D. rewrite (D_byte x Hx).
  rewrite !Ht by (apply land_byte || lia).
  rewrite (crc_bytes_split _ _ x), (crc_bytes_split _ _ (Z.shiftr x 8)), Z.shiftr_shiftr by lia.
  change (8 + 8) with 16.
  rewrite (crc_bytes_split _ _ (Z.shiftr x 16)), Z.shiftr_shiftr by lia.
  change (16 + 8) with 24. rewrite (D_byte x Hx) at 2. unfold A. now rewrite !Z.lxor_assoc.
Qed.
End Routines.

(** ** Slicing *)

Section Slicing.

Lemma crc_bit_range w poly r :
  0 < w -> 0 <= poly < 2 ^ w -> 0 <= r < 2 ^ w -> 0 <= crc_bit poly r < 2 ^ w.
Proof.
  intros Hw Hp Hr. rewrite crc_bit_alt. apply lxor_range; [lia| |].
  - rewrite Z.shiftr_div_pow2 by lia. change (2 ^ 1) with 2. dlia.
  - destruct (Z.testbit r 0); lia.
Qed.

Lemma crc_bytes_range w poly n r :
  0 < w -> 0 <= poly < 2 ^ w -> 0 <= r < 2 ^ w -> 0 <= crc_bytes poly n r < 2 ^ w.
Proof.
  intros Hw Hp Hr.
  apply (iter_pred (fun r => 0 <= r < 2 ^ w)); [assumption|]. intros y Hy.
  apply (iter_pred (fun r => 0 <= r < 2 ^ w)); [assumption|]. intros z Hz.
  now apply crc_bit_range.
Qed.

Lemma crc_bytes_u32 n r : is_u32 r -> is_u32 (crc_bytes poly32 n r).
Proof. apply (crc_bytes_range 32); unfold poly32; lia. Qed.

Lemma lxor_u32 a b : is_u32 a -> is_u32 b -> is_u32 (Z.lxor a b).
Proof. apply (lxor_range 32). lia. Qed.

Lemma le_word_u32 l : bytes_ok l -> length l = 4%nat -> is_u32 (le_word l).
Proof.
  intros Hb Hl. destruct l as [|b0 [|b1 [|b2 [|b3 [|]]]]]; try discriminate.
  rewrite <- read32le_word by assumption. apply read32le_range; [assumption|simpl; lia].
Qed.

Lemma crc_ref_4 poly b0 b1 b2 b3 c :
  crc_ref poly [b0; b1; b2; b3] c = crc_bytes poly 4 (Z.lxor c (le_word [b0; b1; b2; b3])).
Proof. apply (crc_ref_word poly [b0; b1; b2; b3]). Qed.

Lemma crc32_slice8_ref buf c :
  bytes_ok buf -> is_u32 c ->
  bytes_ok (crc32_slice8 buf c).1 /\
  crc_ref poly32 (crc32_slice8 buf c).1 (crc32_slice8 buf c).2 = crc_ref poly32 buf c.
Proof.
  revert c. induction buf as [buf IH] using (well_founded_induction (well_founded_ltof _ length)).
  intros c Hb Hc.
  destruct buf as [|b0 [|b1 [|b2 [|b3 [|b4 [|b5 [|b6 [|b7 rest]]]]]]]];
    try (split; [assumption|reflexivity]).
  cbn [crc32_slice8].
  change (bytes_ok ([b0; b1; b2; b3] ++ [b4; b5; b6; b7] ++ rest)) in Hb.
  apply Forall_app in Hb as [Hw0 Hb]. apply Forall_app in Hb as [Hw1 Hrest].
  rewrite !read32le_word by assumption.
  set (w0 := le_word [b0; b1; b2; b3]). set (w1 := le_word [b4; b5; b6; b7]).
  assert (is_u32 w0) by now apply le_word_u32.
  assert (is_u32 w1) by now apply le_word_u32.
  pose proof (slice_lookups poly32 lzma_crc32_table 8 4 (Z.lxor c w0) crc32_table_ok
    ltac:(lia) ltac:(now apply lxor_u32)) as Hs0.
  pose proof (slice_lookups poly32 lzma_crc32_table 8 0 w1 crc32_table_ok
    ltac:(lia) ltac:(assumption)) as Hs1.
  rewrite Hs0. clear Hs0. set (c8 := crc_bytes poly32 8 (Z.lxor c w0)) in *.
  rewrite (Z.lxor_assoc _ c8), (Z.lxor_assoc _ (Z.lxor c8 _)), (Z.lxor_assoc c8),
    (Z.lxor_comm c8), <- !Z.lxor_assoc, Hs1.
  assert (is_u32 c8) by now apply crc_bytes_u32, lxor_u32.
  destruct (IH rest) with (c := Z.lxor (crc_bytes poly32 4 w1) c8) as [Hr1 ->];
    [unfold ltof; simpl; lia|assumption|now apply lxor_u32; [apply crc_bytes_u32|]|].
  split; [assumption|].
  change (b0 :: b1 :: b2 :: b3 :: b4 :: b5 :: b6 :: b7 :: rest)
    with ([b0; b1; b2; b3] ++ [b4; b5; b6; b7] ++ rest).
  rewrite !crc_ref_app, !crc_ref_4. fold w0 w1.
  rewrite (crc_bytes_lxor poly32 4 _ w1), <- crc_bytes_add. now rewrite Z.lxor_comm.
Qed.
End Slicing.

Section Slicing64.

Lemma u32_split x : 0 <= x -> x = Z.lxor (u32 x) (Z.shiftl (Z.shiftr x 32) 32).
Proof.
  intros. rewrite Z.shiftl_mul_pow2, Z.shiftr_div_pow2 by lia. rewrite Z.lxor_comm.
  unfold u32. change 4294967296 with (2 ^ 32).
  rewrite lxor_shifted by (try apply Z.mod_pos_bound; lia).
  pose proof (Z.div_mod x (2 ^ 32)). lia.
Qed.

Lemma crc_bytes_shiftl4 poly h : crc_bytes poly 4 (Z.shiftl h 32) = h.
Proof.
  change 32 with (8 + 8 + 8 + 8). rewrite <- !Z.shiftl_shiftl by lia.
  rewrite !crc_bytes_S, !crc_byte_shiftl. reflexivity.
Qed.

Lemma crc64_slice4_ref buf c :
  bytes_ok buf -> is_u64 c ->
  bytes_ok (crc64_slice4 buf c).1 /\
  crc_ref poly64 (crc64_slice4 buf c).1 (crc64_slice4 buf c).2 = crc_ref poly64 buf c.
Proof.
  revert c. induction buf as [buf IH] using (well_founded_induction (well_founded_ltof _ length)).
  intros c Hb Hc.
  destruct buf as [|b0 [|b1 [|b2 [|b3 rest]]]]; try (split; [assumption|reflexivity]).
  cbn [crc64_slice4].
  change (bytes_ok ([b0; b1; b2; b3] ++ rest)) in Hb. apply Forall_app in Hb as [Hw Hrest].
  rewrite read32le_word by assumption. set (w := le_word [b0; b1; b2; b3]).
  assert (is_u32 w) as Hw32 by now apply le_word_u32.
  pose proof (slice_lookups poly64 lzma_crc64_table 4 0 (Z.lxor (u32 c) w) crc64_table_ok
    ltac:(lia) ltac:(apply lxor_u32; [apply u32_range|assumption])) as Hs.
  set (tmp := Z.lxor (u32 c) w) in *.
  rewrite (Z.lxor_assoc _ (S32 c)), (Z.lxor_assoc _ (Z.lxor (S32 c) _)),
    (Z.lxor_assoc (S32 c)), (Z.lxor_comm (S32 c)), <- !Z.lxor_assoc, Hs.
  assert (Z.lxor (crc_bytes poly64 4 tmp) (S32 c) = crc_bytes poly64 4 (Z.lxor c w)) as ->.
  { rewrite (u32_split c) at 2 by (unfold is_u64 in Hc; lia).
    rewrite (Z.lxor_comm (u32 c)), Z.lxor_assoc. fold tmp.
    rewrite crc_bytes_lxor, crc_bytes_shiftl4. apply Z.lxor_comm. }
  destruct (IH rest) with (c := crc_bytes poly64 4 (Z.lxor c w)) as [Hr1 ->];
    [unfold ltof; simpl; lia|assumption| |].
  { apply (crc_bytes_range 64); [lia|unfold poly64; lia|].
    apply (lxor_range 64); [lia|assumption|unfold is_u32 in Hw32; lia]. }
  split; [assumption|].
  change (b0 :: b1 :: b2 :: b3 :: rest) with ([b0; b1; b2; b3] ++ rest).
  now rewrite crc_ref_app, crc_ref_4.
Qed.
End Slicing64.

(** ** The exported functions against the reference *)

Section Exported.

Lemma not32_u32 x : is_u32 x -> is_u32 (not32 x).
Proof. intros. apply lxor_u32; [assumption|]. unfold is_u32, UINT32_MAX; lia. Qed.

Lemma not32_involutive x : not32 (not32 x) = x.
Proof. unfold not32. now rewrite Z.lxor_assoc, Z.lxor_nilpotent, Z.lxor_0_r. Qed.

Lemma not64_u64 x : is_u64 x -> is_u64 (not64 x).
Proof. intros. apply (lxor_range 64); [lia|assumption|]. unfold UINT64_MAX; lia. Qed.

Lemma crc_ref_range w poly buf c :
  0 < w -> 8 <= w -> 0 <= poly < 2 ^ w -> bytes_ok buf -> 0 <= c < 2 ^ w ->
  0 <= crc_ref poly buf c < 2 ^ w.
Proof.
  intros Hw Hw8 Hp Hb. revert c. induction Hb as [|b buf Hb0 Hb IH]; intros c Hc; [assumption|].
  apply IH, (crc_bytes_range w poly 1); [lia|assumption|].
  apply lxor_range; [lia|assumption|].
  pose proof (Z.pow_le_mono_r 2 8 w ltac:(lia) Hw8). unfold is_byte in Hb0. lia.
Qed.

Lemma crc_align_u32 mask addr buf c :
  bytes_ok buf -> is_u32 c -> is_u32 (crc_align lzma_crc32_table mask addr buf c).2.
Proof.
  intros Hb. revert addr c. induction Hb as [|b buf Hb0 Hb IH]; intros addr c Hc; [assumption|].
  cbn [crc_align]. case_if; [|assumption]. apply IH.
  rewrite (crc_step_feed poly32 _ 8) by (apply crc32_table_ok || lia || assumption).
  apply (crc_bytes_u32 1), lxor_u32; [assumption|]. unfold is_byte, is_u32 in *. lia.
Qed.

Lemma crc_align_u64 mask addr buf c :
  bytes_ok buf -> is_u64 c -> is_u64 (crc_align lzma_crc64_table mask addr buf c).2.
Proof.
  intros Hb. revert addr c. induction Hb as [|b buf Hb0 Hb IH]; intros addr c Hc; [assumption|].
  cbn [crc_align]. case_if; [|assumption]. apply IH.
  rewrite (crc_step_feed poly64 _ 4) by (apply crc64_table_ok || lia || assumption).
  apply (crc_bytes_range 64 poly64 1); [lia|unfold poly64; lia|].
  apply (lxor_range 64); [lia|assumption|]. unfold is_byte in *. lia.
Qed.

Lemma crc32_generic_ref addr buf c :
  bytes_ok buf -> is_u32 c ->
  lzma_crc32_generic addr buf c = not32 (crc_ref poly32 buf (not32 c)).
Proof.
  intros Hb Hc. unfold lzma_crc32_generic. apply not32_u32 in Hc.
  destruct (zlen buf >? 8).
  - pose proof (crc_align_ref poly32 _ 8 7 addr buf (not32 c) crc32_table_ok ltac:(lia) Hb)
      as [Hb1 <-].
    pose proof (crc_align_u32 7 addr buf (not32 c) Hb Hc) as Hc1.
    destruct (crc_align _ 7 addr buf (not32 c)) as [buf1 c1]. cbn [fst snd] in *.
    pose proof (crc32_slice8_ref buf1 c1 Hb1 Hc1) as [Hb2 <-].
    destruct (crc32_slice8 buf1 c1) as [buf2 c2]. cbn [fst snd] in *.
    f_equal. apply (crc_tail_ref _ _ 8); [apply crc32_table_ok|lia|assumption].
  - f_equal. apply (crc_tail_ref _ _ 8); [apply crc32_table_ok|lia|assumption].
Qed.

Lemma crc64_generic_ref addr buf c :
  bytes_ok buf -> is_u64 c ->
  lzma_crc64_generic addr buf c = not64 (crc_ref poly64 buf (not64 c)).
Proof.
  intros Hb Hc. unfold lzma_crc64_generic. apply not64_u64 in Hc.
  destruct (zlen buf >? 4).
  - pose proof (crc_align_ref poly64 _ 4 3 addr buf (not64 c) crc64_table_ok ltac:(lia) Hb)
      as [Hb1 <-].
    pose proof (crc_align_u64 3 addr buf (not64 c) Hb Hc) as Hc1.
    destruct (crc_align _ 3 addr buf (not64 c)) as [buf1 c1]. cbn [fst snd] in *.
    pose proof (crc64_slice4_ref buf1 c1 Hb1 Hc1) as [Hb2 <-].
    destruct (crc64_slice4 buf1 c1) as [buf2 c2]. cbn [fst snd] in *.
    f_equal. apply (crc_tail_ref _ _ 4); [apply crc64_table_ok|lia|assumption].
  - f_equal. apply (crc_tail_ref _ _ 4); [apply crc64_table_ok|lia|assumption].
Qed.

Lemma crc32_small_ref buf c :
  bytes_ok buf -> lzma_crc32_small buf c = not32 (crc_ref poly32 buf (not32 c)).
Proof.
  intros Hb. unfold lzma_crc32_small. f_equal. apply (crc_tail_ref _ _ 1); [|lia|assumption].
  intros s b Hs. assert (s = 0%nat) as -> by lia.
  apply (init_table_ok poly32 1 0%nat b). lia.
Qed.

Lemma lzma_crc32_u32 buf c : bytes_ok buf -> is_u32 c -> is_u32 (lzma_crc32 buf c).
Proof.
  intros Hb Hc. unfold lzma_crc32. rewrite crc32_generic_ref by assumption.
  apply not32_u32, (crc_ref_range 32); [lia|lia|unfold poly32; lia|assumption|].
  now apply not32_u32.
Qed.

(** A longer message continues from the value of its prefix. *)
Lemma crc32_app a b c :
  bytes_ok a -> bytes_ok b -> is_u32 c ->
  lzma_crc32 (a ++ b) c = lzma_crc32 b (lzma_crc32 a c).
Proof.
  intros Ha Hb Hc. pose proof (lzma_crc32_u32 a c Ha Hc).
  unfold lzma_crc32 in *. rewrite !crc32_generic_ref by (try apply Forall_app; auto).
  now rewrite not32_involutive, crc_ref_app.
Qed.

Lemma crc32_nil c : is_u32 c -> lzma_crc32 [] c = c.
Proof.
  intros. unfold lzma_crc32. rewrite crc32_generic_ref by (assumption || constructor).
  apply not32_involutive.
Qed.

Lemma not64_involutive x : not64 (not64 x) = x.
Proof. unfold not64. now rewrite Z.lxor_assoc, Z.lxor_nilpotent, Z.lxor_0_r. Qed.

Lemma crc64_nil c : is_u64 c -> lzma_crc64 [] c = c.
Proof.
  intros. unfold lzma_crc64. rewrite crc64_generic_ref by (assumption || constructor).
  apply not64_involutive.
Qed.

Lemma lzma_crc64_u64 buf c : bytes_ok buf -> is_u64 c -> is_u64 (lzma_crc64 buf c).
Proof.
  intros Hb Hc. unfold lzma_crc64. rewrite crc64_generic_ref by assumption.
  apply not64_u64, (crc_ref_range 64); [lia|lia|unfold poly64; lia|assumption|].
  now apply not64_u64.
Qed.

Lemma crc64_app a b c :
  bytes_ok a -> bytes_ok b -> is_u64 c ->
  lzma_crc64 (a ++ b) c = lzma_crc64 b (lzma_crc64 a c).
Proof.
  intros Ha Hb Hc. pose proof (lzma_crc64_u64 a c Ha Hc).
  unfold lzma_crc64 in *. rewrite !crc64_generic_ref by (try apply Forall_app; auto).
  now rewrite not64_involutive, crc_ref_app.
Qed.
End Exported.

(** ** Error detection *)

Section Detection.

(** The register loses no information: only the zero state becomes zero. *)
Lemma crc_bit_kernel r : is_u32 r -> crc_bit poly32 r = 0 -> r = 0.
Proof.
  intros Hr. rewrite crc_bit_alt, Z.shiftr_div_pow2 by lia. change (2 ^ 1) with 2.
  destruct (Z.testbit r 0) eqn:Hbit; intros E.
  - apply Z.lxor_eq in E. unfold is_u32, poly32 in *. dlia.
  - rewrite Z.lxor_0_r in E. rewrite Z.bit0_eqb in Hbit. b2p. unfold is_u32 in *. dlia.
Qed.

Lemma crc_bytes_kernel n r : is_u32 r -> crc_bytes poly32 n r = 0 -> r = 0.
Proof.
  intros Hr. assert (H : forall m r, is_u32 r ->
    is_u32 (Nat.iter m (crc_bit poly32) r) /\
    (Nat.iter m (crc_bit poly32) r = 0 -> r = 0)).
  { clear. intros m r Hr. induction m as [|m [IHr IH]]; [auto|]. cbn. split.
    - apply (crc_bit_range 32); [lia|unfold poly32; lia|assumption].
    - intros E. apply IH, crc_bit_kernel; assumption. }
  induction n as [|n IH]; [auto|]. intros E.
  apply IH, (H 8%nat); [now apply crc_bytes_u32|exact E].
Qed.

Lemma crc_bytes_inj n a b :
  is_u32 a -> is_u32 b -> crc_bytes poly32 n a = crc_bytes poly32 n b -> a = b.
Proof.
  intros Ha Hb E. apply Z.lxor_eq, (crc_bytes_kernel n); [now apply lxor_u32|].
  rewrite crc_bytes_lxor, E. apply Z.lxor_nilpotent.
Qed.

Lemma le_word_range l : bytes_ok l -> 0 <= le_word l < 2 ^ (8 * zlen l).
Proof.
  induction 1 as [|b l Hb Hl IH]; cbn [le_word length]; [simpl; lia|].
  rewrite Z.lxor_comm, Z.shiftl_mul_pow2 by lia.
  replace (8 * Z.of_nat (S (length l))) with (8 * zlen l + 8) by lia.
  rewrite lxor_shifted, Z.pow_add_r by (unfold is_byte in Hb; lia).
  unfold is_byte in Hb. change (2 ^ 8) with 256. lia.
Qed.

Lemma le_word_inj l1 l2 :
  bytes_ok l1 -> bytes_ok l2 -> length l1 = length l2 -> le_word l1 = le_word l2 -> l1 = l2.
Proof.
  intros H1. revert l2. induction H1 as [|b1 l1 Hb1 Hl1 IH]; intros [|b2 l2] H2 Hlen;
    try discriminate; [reflexivity|].
  apply Forall_cons in H2 as [Hb2 H2]. injection Hlen as Hlen.
  cbn [le_word]. rewrite !(Z.lxor_comm _ (Z.shiftl _ _)), !Z.shiftl_mul_pow2 by lia.
  unfold is_byte in Hb1, Hb2. rewrite !lxor_shifted by (simpl; lia). intros E.
  change (2 ^ 8) with 256 in E. assert (b1 = b2) as -> by lia. f_equal. apply IH; auto. lia.
Qed.

Lemma crc_ref_inj suf a b :
  bytes_ok suf -> is_u32 a -> is_u32 b -> crc_ref poly32 suf a = crc_ref poly32 suf b -> a = b.
Proof.
  intros Hs. revert a b. induction Hs as [|x suf Hx Hs IH]; intros a b Ha Hb E; [exact E|].
  assert (is_u32 x) as Hx32 by (unfold is_byte, is_u32 in *; lia).
  apply IH in E; try (apply (crc_bytes_u32 1); now apply lxor_u32).
  apply (crc_bytes_inj 1) in E; try now apply lxor_u32.
  apply (f_equal (Z.lxor x)) in E. rewrite !(Z.lxor_comm x), !Z.lxor_assoc in E.
  now rewrite Z.lxor_nilpotent, !Z.lxor_0_r in E.
Qed.

Lemma crc32_burst_aux pre x y suf c :
  bytes_ok pre -> bytes_ok x -> bytes_ok y -> bytes_ok suf -> is_u32 c ->
  length x = length y -> (length x <= 4)%nat ->
  lzma_crc32 (pre ++ x ++ suf) c = lzma_crc32 (pre ++ y ++ suf) c -> x = y.
Proof.
  intros Hp Hx Hy Hs Hc Hl H4. unfold lzma_crc32.
  rewrite !crc32_generic_ref by (try (repeat apply Forall_app_2); assumption).
  intros E. apply (f_equal not32) in E. rewrite !not32_involutive, !crc_ref_app in E.
  apply not32_u32 in Hc. set (s := crc_ref poly32 pre (not32 c)) in *.
  assert (forall l, bytes_ok l -> forall c, is_u32 c -> is_u32 (crc_ref poly32 l c)) as Hr.
  { intros l Hbl d Hd. apply (crc_ref_range 32); [lia|lia|unfold poly32; lia|assumption|assumption]. }
  assert (is_u32 s) as Hs32 by now apply Hr.
  apply crc_ref_inj in E; [|assumption|now apply Hr|now apply Hr].
  rewrite !crc_ref_word, <- Hl in E.
  assert (forall l, bytes_ok l -> (length l <= 4)%nat -> is_u32 (Z.lxor s (le_word l))) as Hw.
  { intros l Hbl Hl4. apply lxor_u32; [assumption|].
    pose proof (le_word_range l Hbl).
    pose proof (Z.pow_le_mono_r 2 (8 * zlen l) 32 ltac:(lia) ltac:(lia)).
    unfold is_u32. lia. }
  apply crc_bytes_inj in E; [|apply Hw; assumption|apply Hw; [assumption|lia]].
  apply (f_equal (Z.lxor s)) in E. rewrite <- !Z.lxor_assoc, Z.lxor_nilpotent, !Z.lxor_0_l in E.
  now apply le_word_inj.
Qed.
End Detection.

(** ** Properties *)

(** The constants of the generated headers are the tables the generators
    compute, so a lookup [table[s][b]] is the register after [s + 1] bytes
    started from [b]. *)
Theorem crc_tables_generated :
  lzma_crc32_table = init_crc32_table /\ lzma_crc64_table = init_crc64_table /\
  (forall s b, (s < 8)%nat -> is_byte b ->
    tbl lzma_crc32_table s b = crc_bytes poly32 (S s) b) /\
  (forall s b, (s < 4)%nat -> is_byte b ->
    tbl lzma_crc64_table s b = crc_bytes poly64 (S s) b).
Proof.
  exact (conj crc32_table_gen (conj crc64_table_gen (conj crc32_table_ok crc64_table_ok))).
Qed.

(** C16: the slicing-by-eight CRC32 and the slicing-by-four CRC64 compute the
    bit-serial reference for every buffer, every address it may start at and
    every initial value; the size-optimised CRC32 computes the same. *)
Theorem crc_slicing_equivalence addr buf c :
  bytes_ok buf ->
  (is_u32 c ->
    lzma_crc32_generic addr buf c = not32 (crc_ref poly32 buf (not32 c)) /\
    lzma_crc32_generic addr buf c = lzma_crc32_small buf c) /\
  (is_u64 c -> lzma_crc64_generic addr buf c = not64 (crc_ref poly64 buf (not64 c))).
Proof.
  intros Hb. split; intros Hc.
  - rewrite crc32_small_ref, crc32_generic_ref by assumption. auto.
  - now apply crc64_generic_ref.
Qed.

Lemma crc_slicing_equivalence_witness :
  lzma_crc32_generic 5 check_string 0 = lzma_crc32_small check_string 0.
Proof.
  refine (proj2 (proj1 (crc_slicing_equivalence 5 check_string 0 _) _)).
  - bytes_ok_tac.
  - split; [discriminate|reflexivity].
Defined.

(** C25: an error confined to four consecutive bytes always changes the CRC32,
    whatever surrounds it. *)
Theorem crc32_burst_detected pre x y suf c :
  bytes_ok pre -> bytes_ok x -> bytes_ok y -> bytes_ok suf -> is_u32 c ->
  length x = length y -> (length x <= 4)%nat -> x <> y ->
  lzma_crc32 (pre ++ x ++ suf) c <> lzma_crc32 (pre ++ y ++ suf) c.
Proof. intros ? ? ? ? ? ? ? Hne E. now apply Hne, (crc32_burst_aux pre x y suf c). Qed.

Lemma crc32_burst_detected_witness :
  lzma_crc32 ([1; 2] ++ [3; 4] ++ [5]) 0 <> lzma_crc32 ([1; 2] ++ [3; 6] ++ [5]) 0.
Proof.
  apply crc32_burst_detected; try bytes_ok_tac;
    [split; [discriminate|reflexivity]|reflexivity|simpl; lia|discriminate].
Defined.
