(* ===== verification/Vli.v ===== *)
(** * Variable-length integers of the .xz container

    [lib/archive/xz/src/liblzma/common/vli_size.c], [vli_encoder.c] and
    [vli_decoder.c].  Both coders can be called in single-call mode
    ([vli_pos == NULL]) and in multi-call mode, where they stop when the
    buffer is exhausted and resume at [*vli_pos]. *)

From S2P Require Import Prelude.

(** ** Constants of [api/lzma/vli.h] *)

Definition LZMA_VLI_MAX : Z := 9223372036854775807.
Definition LZMA_VLI_UNKNOWN : Z := UINT64_MAX.
Definition LZMA_VLI_BYTES_MAX : Z := 9.

Definition lzma_vli_is_valid (vli : Z) : bool :=
  (vli <=? LZMA_VLI_MAX) || (vli =? LZMA_VLI_UNKNOWN).

(** ** [lzma_vli_size] *)

(** The [do ... while (vli != 0)] loop; [fuel] bounds its iterations, and
    [vli_size_loop_fuel] shows that nine are enough. *)
Fixpoint vli_size_loop (fuel : nat) (vli i : Z) : option Z :=
  match fuel with
  | O => None
  | S fuel =>
      let vli := Z.shiftr vli 7 in
      let i := i + 1 in
      if negb (vli =? 0) then vli_size_loop fuel vli i else Some i
  end.

Definition lzma_vli_size (vli : Z) : Z :=
  if vli >? LZMA_VLI_MAX then 0
  else default 0 (vli_size_loop 10 vli 0).

(** ** [lzma_vli_encode]

    [avail] is [out_size - *out_pos].  The result is the return code, the
    bytes stored from [out[*out_pos]] on (so [*out_pos] advances by their
    number) and the new [*vli_pos]. *)

Definition vli_full (single : bool) : lzma_ret :=
  if single then LZMA_PROG_ERROR else LZMA_OK.

Fixpoint vli_encode_loop (single : bool) (avail : nat) (vli vli_pos : Z)
    : lzma_ret * bytes * Z :=
  match avail with
  | O => (vli_full single, [], vli_pos)
  | S avail =>
      if vli >=? 0x80 then
        let '(ret, out, pos) :=
          vli_encode_loop single avail (Z.shiftr vli 7) (vli_pos + 1) in
        (ret, Z.lor (u8 vli) 0x80 :: out, pos)
      else ((if single then LZMA_OK else LZMA_STREAM_END), [u8 vli], vli_pos + 1)
  end.

Definition lzma_vli_encode (vli : Z) (vli_pos : option Z) (avail : nat)
    : lzma_ret * bytes * Z :=
  let single := bool_decide (vli_pos = None) in
  let pos := default 0 vli_pos in
  if (avail =? 0)%nat then
    ((if single then LZMA_PROG_ERROR else LZMA_BUF_ERROR), [], pos)
  else if (pos >=? LZMA_VLI_BYTES_MAX) || (vli >? LZMA_VLI_MAX) then
    (LZMA_PROG_ERROR, [], pos)
  else vli_encode_loop single avail (Z.shiftr vli (pos * 7)) pos.

(** ** [lzma_vli_decode]

    [input] is [in[*in_pos .. in_size)].  The result is the return code, the
    new [*vli] and [*vli_pos], and the input that was not consumed. *)

Fixpoint vli_decode_loop (single : bool) (vli vli_pos : Z) (input : bytes)
    : lzma_ret * Z * Z * bytes :=
  match input with
  | [] => ((if single then LZMA_DATA_ERROR else LZMA_OK), vli, vli_pos, [])
  | byte :: rest =>
      let vli := u64 (vli + u64 (Z.shiftl (Z.land byte 0x7F) (vli_pos * 7))) in
      let vli_pos := vli_pos + 1 in
      if Z.land byte 0x80 =? 0 then
        if (byte =? 0) && (vli_pos >? 1) then (LZMA_DATA_ERROR, vli, vli_pos, rest)
        else ((if single then LZMA_OK else LZMA_STREAM_END), vli, vli_pos, rest)
      else if vli_pos =? LZMA_VLI_BYTES_MAX then (LZMA_DATA_ERROR, vli, vli_pos, rest)
      else vli_decode_loop single vli vli_pos rest
  end.

Definition lzma_vli_decode (vli : Z) (vli_pos : option Z) (input : bytes)
    : lzma_ret * Z * Z * bytes :=
  match vli_pos with
  | None =>
      match input with
      | [] => (LZMA_DATA_ERROR, 0, 0, [])
      | _ => vli_decode_loop true 0 0 input
      end
  | Some pos =>
      let vli := if pos =? 0 then 0 else vli in
      if (pos >=? LZMA_VLI_BYTES_MAX) || negb (Z.shiftr vli (pos * 7) =? 0) then
        (LZMA_PROG_ERROR, vli, pos, input)
      else
        match input with
        | [] => (LZMA_BUF_ERROR, vli, pos, [])
        | _ => vli_decode_loop false vli pos input
        end
  end.

(** The single-call mode as a computation that fails with a return code. *)
Definition vli_encode (vli : Z) (avail : nat) : res bytes :=
  match lzma_vli_encode vli None avail with
  | (LZMA_OK, out, _) => Ok out
  | (e, _, _) => Err e
  end.

Definition vli_decode (input : bytes) : res (Z * bytes) :=
  match lzma_vli_decode 0 None input with
  | (LZMA_OK, vli, _, rest) => Ok (vli, rest)
  | (e, _, _, _) => Err e
  end.

Example vli_encode_ex : lzma_vli_encode 300 None 9 = (LZMA_OK, [0xAC; 0x02], 2).
Proof. reflexivity. Qed.
Example vli_decode_ex :
  lzma_vli_decode 7 None [0xAC; 0x02; 5] = (LZMA_OK, 300, 2, [5]).
Proof. reflexivity. Qed.

(** ** Arithmetic of the seven-bit groups *)

Section Groups.

Lemma pow7_succ pos : 0 <= pos -> 2 ^ (7 * (pos + 1)) = 128 * 2 ^ (7 * pos).
Proof.
  intros. replace (7 * (pos + 1)) with (7 + 7 * pos) by lia.
  rewrite Z.pow_add_r by lia. reflexivity.
Qed.

Lemma pow7_pos pos : 0 <= pos -> 0 < 2 ^ (7 * pos).
Proof. intros. apply Z.pow_pos_nonneg; lia. Qed.

Lemma pow7_le pos : 0 <= pos <= 9 -> 2 ^ (7 * pos) <= 9223372036854775808.
Proof.
  intros. change 9223372036854775808 with (2 ^ 63).
  apply Z.pow_le_mono_r; lia.
Qed.

(** A byte written by the encoder with the continuation bit. *)
Lemma cont_byte v :
  let b := Z.lor (u8 v) 0x80 in
  b = v mod 128 + 128 /\ is_byte b /\ Z.land b 0x7F = v mod 128 /\ Z.land b 0x80 = 0x80.
Proof.
  intros b.
  assert (H : (let b := Z.lor (u8 v) 0x80 in let g := (u8 v) mod 128 in
               (b =? g + 128) && (Z.land b 0x7F =? g) && (Z.land b 0x80 =? 0x80)) = true).
  { apply (byte_sweep (fun x => let b := Z.lor x 0x80 in let g := x mod 128 in
      (b =? g + 128) && (Z.land b 0x7F =? g) && (Z.land b 0x80 =? 0x80)));
      [reflexivity|auto]. }
  fold b in H. cbv zeta in H.
  assert ((u8 v) mod 128 = v mod 128) as Hm by (unfold u8; dlia).
  rewrite Hm in H. b2p. unfold is_byte in *. split_and!; try lia; dlia.
Qed.

(** The last byte of an integer: the continuation bit is clear. *)
Lemma last_byte b : is_byte b -> Z.land b 0x80 = 0 -> Z.land b 0x7F = b /\ b < 128.
Proof.
  intros Hb.
  assert (H : (negb (Z.land b 0x80 =? 0) || ((Z.land b 0x7F =? b) && (b <? 128))) = true)
    by (now apply (byte_sweep (fun b => negb (Z.land b 0x80 =? 0) ||
          ((Z.land b 0x7F =? b) && (b <? 128))))).
  intros E. rewrite E in H. simpl in H. b2p. lia.
Qed.

Lemma small_byte b : 0 <= b < 128 -> Z.land b 0x80 = 0 /\ Z.land b 0x7F = b.
Proof.
  intros Hb.
  assert (H : (negb (b <? 128) || ((Z.land b 0x7F =? b) && (Z.land b 0x80 =? 0))) = true)
    by (apply (byte_sweep (fun b => negb (b <? 128) ||
          ((Z.land b 0x7F =? b) && (Z.land b 0x80 =? 0)))); [reflexivity|split; lia]).
  btrue (b <? 128) in H. simpl in H. b2p. lia.
Qed.

(** A continued byte of the input is the one the encoder would write. *)
Lemma cont_byte_inv b : is_byte b -> Z.land b 0x80 <> 0 ->
  128 <= b /\ Z.land b 0x7F = b - 128 /\ Z.lor (u8 b) 0x80 = b.
Proof.
  intros Hb.
  assert (H : ((Z.land b 0x80 =? 0) || ((128 <=? b) && (Z.land b 0x7F =? b - 128) &&
                (Z.lor (u8 b) 0x80 =? b))) = true)
    by (now apply (byte_sweep (fun b => (Z.land b 0x80 =? 0) ||
         ((128 <=? b) && (Z.land b 0x7F =? b - 128) && (Z.lor (u8 b) 0x80 =? b))))).
  intros E. apply orb_true_iff in H as [H|H]; b2p; lia.
Qed.

End Groups.

(** ** The loops *)

Section Loops.

(** One step of the decoder's accumulation does not wrap. *)
Lemma decode_add acc pos g :
  0 <= pos <= 8 -> 0 <= acc < 2 ^ (7 * pos) -> 0 <= g < 128 ->
  u64 (acc + u64 (Z.shiftl g (pos * 7))) = acc + g * 2 ^ (7 * pos) /\
  0 <= acc + g * 2 ^ (7 * pos) < 2 ^ (7 * (pos + 1)).
Proof.
  intros Hp Ha Hg. pose proof (pow7_pos pos ltac:(lia)).
  pose proof (pow7_succ pos ltac:(lia)). pose proof (pow7_le (pos + 1) ltac:(lia)).
  rewrite Z.shiftl_mul_pow2 by lia. rewrite (Z.mul_comm pos 7).
  rewrite (u64_small (g * _)) by (unfold is_u64; nia).
  rewrite u64_small by (unfold is_u64; nia). split; [reflexivity|nia].
Qed.

Lemma shiftr7 v : Z.shiftr v 7 = v / 128.
Proof. now rewrite Z.shiftr_div_pow2 by lia. Qed.

Lemma vli_size_loop_fuel n fuel v i :
  (1 <= n)%nat -> 0 <= v < 2 ^ (7 * Z.of_nat n) -> (n <= fuel)%nat ->
  exists k : nat, vli_size_loop fuel v i = Some (i + Z.of_nat k) /\ (1 <= k <= n)%nat /\
    (v = 0 \/ 2 ^ (7 * (Z.of_nat k - 1)) <= v) /\ v < 2 ^ (7 * Z.of_nat k).
Proof.
  revert fuel v i. induction n as [|n IH]; intros fuel v i Hn Hv Hf; [lia|].
  destruct fuel as [|fuel]; [lia|]. cbn [vli_size_loop]. rewrite shiftr7.
  replace (Z.of_nat (S n)) with (Z.of_nat n + 1) in Hv by lia.
  rewrite pow7_succ in Hv by lia.
  case_if; b2p.
  - destruct n as [|n]; [change (2 ^ (7 * Z.of_nat 0)) with 1 in Hv; dlia|].
    destruct (IH fuel (v / 128) (i + 1)) as (k & -> & Hk & Hlo & Hhi); [lia|dlia|lia|].
    exists (S k). replace (Z.of_nat (S k)) with (Z.of_nat k + 1) by lia.
    rewrite pow7_succ by lia. split_and!; [f_equal; lia|lia|lia| |dlia].
    right. replace (Z.of_nat k + 1 - 1) with (Z.of_nat k - 1 + 1) by lia.
    rewrite pow7_succ by lia. destruct Hlo; [dlia|dlia].
  - exists 1%nat. change (2 ^ (7 * (Z.of_nat 1 - 1))) with 1.
    change (2 ^ (7 * Z.of_nat 1)) with 128. split_and!; [reflexivity|lia|lia|dlia|dlia].
Qed.

(** Encoding with room for the [k] groups of [v], and decoding the result
    from any position, in either mode. *)
Lemma encode_decode_loop n (avail : nat) v pos acc :
  (1 <= n <= avail)%nat -> 0 <= v < 2 ^ (7 * Z.of_nat n) ->
  (1 < Z.of_nat n -> 2 ^ (7 * (Z.of_nat n - 1)) <= v) ->
  0 <= pos -> pos + Z.of_nat n <= 9 -> (0 < v \/ pos = 0) ->
  0 <= acc < 2 ^ (7 * pos) ->
  exists out,
    length out = n /\ bytes_ok out /\
    (forall single, vli_encode_loop single avail v pos =
      ((if single then LZMA_OK else LZMA_STREAM_END), out, pos + Z.of_nat n)) /\
    (forall single rest, vli_decode_loop single acc pos (out ++ rest) =
      ((if single then LZMA_OK else LZMA_STREAM_END),
       acc + v * 2 ^ (7 * pos), pos + Z.of_nat n, rest)).
Proof.
  revert avail v pos acc.
  induction n as [|n IH]; intros avail v pos acc Hn Hv Hlo Hp Hp9 Hv0 Hacc; [lia|].
  destruct avail as [|avail]; [lia|].
  replace (Z.of_nat (S n)) with (Z.of_nat n + 1) in * by lia.
  pose proof (pow7_succ (Z.of_nat n) ltac:(lia)) as Hpow.
  destruct (decide (n = 0%nat)) as [->|Hn0].
  - change (2 ^ (7 * (Z.of_nat 0 + 1))) with 128 in Hv.
    destruct (small_byte v Hv) as [H80 H7F].
    assert (Hu : u8 v = v) by (apply u8_small; unfold is_byte; lia).
    exists [v]. split_and!; [reflexivity|repeat constructor; lia| |]; intros single.
    + cbn [vli_encode_loop]. bfalse (v >=? 128). rewrite Hu. do 2 f_equal; lia.
    + intros rest. cbn [app vli_decode_loop]. rewrite H80, H7F.
      destruct (decode_add acc pos v ltac:(lia) Hacc Hv) as [-> _].
      cbn [Z.eqb]. bfalse ((v =? 0) && (pos + 1 >? 1)).
      do 2 f_equal.
  - assert (128 <= v).
    { specialize (Hlo ltac:(lia)). replace (Z.of_nat n + 1 - 1) with (Z.of_nat n) in Hlo by lia.
      pose proof (Z.pow_le_mono_r 2 7 (7 * Z.of_nat n) ltac:(lia) ltac:(lia)). lia. }
    destruct (cont_byte v) as (_ & Hb & H7F & H80).
    pose proof (Z.mod_pos_bound v 128 ltac:(lia)) as Hm.
    destruct (decode_add acc pos (v mod 128) ltac:(lia) Hacc Hm) as [Hadd Hadd'].
    destruct (IH avail (v / 128) (pos + 1) (acc + v mod 128 * 2 ^ (7 * pos)))
      as (out & Hl & Hbs & Henc & Hdec); [lia|dlia| |lia|lia|left; dlia|exact Hadd'|].
    { intros. specialize (Hlo ltac:(lia)).
      replace (Z.of_nat n + 1 - 1) with (Z.of_nat n - 1 + 1) in Hlo by lia.
      rewrite pow7_succ in Hlo by lia. dlia. }
    exists (Z.lor (u8 v) 0x80 :: out). split_and!; [simpl; lia|now constructor| |]; intros single.
    + cbn [vli_encode_loop]. btrue (v >=? 128). rewrite shiftr7, Henc. cbv beta iota.
      f_equal; lia.
    + intros rest. cbn [app vli_decode_loop]. rewrite H80, H7F, Hadd. cbn [Z.eqb].
      unfold LZMA_VLI_BYTES_MAX. bfalse (pos + 1 =? 9). rewrite Hdec.
      rewrite (pow7_succ pos) by lia. f_equal; f_equal; [f_equal|lia].
      pose proof (Z.div_mod v 128). nia.
Qed.
End Loops.

(** ** The entry points *)

Section Api.

Lemma vli_size_spec v :
  0 <= v <= LZMA_VLI_MAX ->
  exists k : nat, lzma_vli_size v = Z.of_nat k /\ (1 <= k <= 9)%nat /\
    (1 < Z.of_nat k -> 2 ^ (7 * (Z.of_nat k - 1)) <= v) /\
    v < 2 ^ (7 * Z.of_nat k).
Proof.
  unfold LZMA_VLI_MAX, lzma_vli_size. intros Hv.
  destruct (vli_size_loop_fuel 9 10 v 0) as (k & Hk & Hr & Hlo & Hhi);
    [lia|change (2 ^ (7 * Z.of_nat 9)) with 9223372036854775808; lia|lia|].
  exists k. unfold LZMA_VLI_MAX. bfalse (v >? 9223372036854775807). rewrite Hk. simpl.
  split_and!; [lia|lia|lia| |lia].
  intros. destruct Hlo as [->|]; [|lia]. exfalso.
  change (vli_size_loop 10 0 0) with (Some 1) in Hk. injection Hk as Hk. lia.
Qed.

Lemma vli_size_range v : 0 <= v <= LZMA_VLI_MAX -> 1 <= lzma_vli_size v <= 9.
Proof. intros H. destruct (vli_size_spec v H) as (k & -> & ? & _). lia. Qed.

Lemma vli_size_range_any v : 0 <= v -> 0 <= lzma_vli_size v <= 9.
Proof.
  intros H. destruct (Z.leb_spec v LZMA_VLI_MAX).
  - pose proof (vli_size_range v ltac:(lia)). lia.
  - unfold lzma_vli_size. btrue (v >? LZMA_VLI_MAX). lia.
Qed.

(** With enough room the encoder emits [lzma_vli_size v] bytes, in both
    modes, and the decoder reads [v] back from them in both modes. *)
Lemma vli_encode_ok v (avail : nat) :
  0 <= v <= LZMA_VLI_MAX -> lzma_vli_size v <= Z.of_nat avail ->
  exists out,
    zlen out = lzma_vli_size v /\ bytes_ok out /\
    lzma_vli_encode v None avail = (LZMA_OK, out, lzma_vli_size v) /\
    lzma_vli_encode v (Some 0) avail = (LZMA_STREAM_END, out, lzma_vli_size v) /\
    (forall junk rest,
      lzma_vli_decode junk None (out ++ rest) = (LZMA_OK, v, lzma_vli_size v, rest)) /\
    (forall junk rest,
      lzma_vli_decode junk (Some 0) (out ++ rest) =
        (LZMA_STREAM_END, v, lzma_vli_size v, rest)).
Proof.
  intros Hv Ha. destruct (vli_size_spec v Hv) as (k & Hk & Hr & Hlo & Hhi).
  rewrite Hk in *.
  destruct (encode_decode_loop k avail v 0 0) as (out & Hl & Hb & He & Hd);
    [lia|lia|lia|lia|lia|lia|change (2 ^ (7 * 0)) with 1; lia|].
  exists out. rewrite Hl. unfold lzma_vli_encode. cbn [default bool_decide].
  unfold LZMA_VLI_MAX, LZMA_VLI_BYTES_MAX in *.
  replace (avail =? 0)%nat with false by (symmetry; apply Nat.eqb_neq; lia).
  cbn [Z.geb Z.compare orb]. bfalse (v >? 9223372036854775807).
  rewrite Z.shiftr_0_r. cbn [option_eq_None_dec].
  split_and!; [reflexivity|assumption|apply (He true)|apply (He false)| |]; intros junk rest.
  - unfold lzma_vli_decode. destruct out as [|b out]; [simpl in Hl; lia|].
    specialize (Hd true rest). cbn [app] in Hd |- *. rewrite Hd. f_equal. f_equal. f_equal.
    change (2 ^ (7 * 0)) with 1. lia.
  - unfold lzma_vli_decode, LZMA_VLI_BYTES_MAX. cbn.
    destruct out as [|b out]; [simpl in Hl; lia|].
    specialize (Hd false rest). cbn [app] in Hd |- *. rewrite Hd. f_equal. f_equal. f_equal.
    change (2 ^ (7 * 0)) with 1. lia.
Qed.
End Api.

(** ** Resuming a call that ran out of buffer *)

Section Resume.

Lemma encode_loop_resume a b v pos :
  0 <= v ->
  vli_encode_loop false (a + b) v pos =
    match vli_encode_loop false a v pos with
    | (LZMA_OK, o1, p1) =>
        let '(r, o2, p2) :=
          vli_encode_loop false b (Z.shiftr v (7 * (p1 - pos))) p1 in
        (r, o1 ++ o2, p2)
    | r => r
    end.
Proof.
  revert v pos. induction a as [|a IH]; intros v pos Hv; cbn [Nat.add vli_encode_loop].
  - cbn. rewrite Z.sub_diag, Z.mul_0_r, Z.shiftr_0_r.
    now destruct (vli_encode_loop false b v pos) as [[? ?] ?].
  - destruct (v >=? 128); [|reflexivity].
    rewrite IH by (apply Z.shiftr_nonneg; lia).
    assert (Hp : forall a v pos, (vli_encode_loop false a v pos).2 >= pos).
    { clear. induction a as [|a IHa]; intros v pos; cbn [vli_encode_loop]; [simpl; lia|].
      destruct (v >=? 128); [|simpl; lia]. specialize (IHa (Z.shiftr v 7) (pos + 1)).
      destruct (vli_encode_loop _ _ _ _) as [[? ?] ?]; simpl in *; lia. }
    specialize (Hp a (Z.shiftr v 7) (pos + 1)).
    destruct (vli_encode_loop false a (Z.shiftr v 7) (pos + 1)) as [[r1 o1] p1] eqn:E.
    simpl in Hp. destruct r1; try reflexivity.
    rewrite Z.shiftr_shiftr by lia.
    replace (7 + 7 * (p1 - (pos + 1))) with (7 * (p1 - pos)) by lia.
    now destruct (vli_encode_loop false b _ p1) as [[? ?] ?].
Qed.

(** A suspended encoder has bits left. *)
Lemma encode_loop_suspended a v pos o p :
  vli_encode_loop false a v pos = (LZMA_OK, o, p) ->
  (0 < a)%nat -> 2 ^ (7 * Z.of_nat a) <= v.
Proof.
  revert v pos o p. induction a as [|a IH]; intros v pos o p; cbn [vli_encode_loop]; [lia|].
  intros H _. destruct (Z.geb_spec v 128); [|discriminate].
  destruct (vli_encode_loop false a (Z.shiftr v 7) (pos + 1)) as [[r1 o1] p1] eqn:E.
  injection H as -> <- ->. rewrite shiftr7 in E.
  replace (Z.of_nat (S a)) with (Z.of_nat a + 1) by lia. rewrite pow7_succ by lia.
  destruct a as [|a].
  - change (2 ^ (7 * Z.of_nat 0)) with 1. lia.
  - specialize (IH (v / 128) (pos + 1) o1 p E ltac:(lia)). dlia.
Qed.

Lemma encode_loop_ok_pos a v pos o p :
  vli_encode_loop false a v pos = (LZMA_OK, o, p) ->
  p = pos + Z.of_nat a /\ length o = a.
Proof.
  revert v pos o p. induction a as [|a IH]; intros v pos o p; cbn [vli_encode_loop].
  - intros [= <- <-]. simpl. lia.
  - destruct (v >=? 128); [|discriminate].
    destruct (vli_encode_loop false a (Z.shiftr v 7) (pos + 1)) as [[r1 o1] p1] eqn:E.
    intros [= -> <- <-]. apply IH in E as [-> ?]. simpl. lia.
Qed.

Lemma encode_resume v pos (a b : nat) :
  0 <= v <= LZMA_VLI_MAX -> 0 <= pos -> (0 < a)%nat -> (0 < b)%nat ->
  lzma_vli_encode v (Some pos) (a + b) =
    match lzma_vli_encode v (Some pos) a with
    | (LZMA_OK, o1, p1) =>
        let '(r, o2, p2) := lzma_vli_encode v (Some p1) b in (r, o1 ++ o2, p2)
    | r => r
    end.
Proof.
  unfold LZMA_VLI_MAX. intros Hv Hp Ha Hb. unfold lzma_vli_encode.
  unfold LZMA_VLI_MAX, LZMA_VLI_BYTES_MAX. cbn [default bool_decide option_eq_None_dec id].
  rewrite !(proj2 (Nat.eqb_neq _ 0)) by lia.
  bfalse (v >? 9223372036854775807). rewrite !orb_false_r.
  destruct (Z.geb_spec pos 9) as [|Hp9]; [reflexivity|].
  rewrite encode_loop_resume by (apply Z.shiftr_nonneg; lia).
  destruct (vli_encode_loop false a (Z.shiftr v (pos * 7)) pos) as [[r1 o1] p1] eqn:E.
  destruct r1; try reflexivity.
  pose proof (encode_loop_ok_pos _ _ _ _ _ E) as [-> Hl].
  pose proof (encode_loop_suspended _ _ _ _ _ E ltac:(lia)) as Hsus.
  rewrite Z.shiftr_div_pow2 in Hsus by lia.
  assert (pos + Z.of_nat a <= 8).
  { assert (2 ^ (7 * Z.of_nat a) * 2 ^ (pos * 7) <= v).
    { pose proof (Z.mul_div_le v (2 ^ (pos * 7)) ltac:(apply Z.pow_pos_nonneg; lia)).
      pose proof (Z.pow_pos_nonneg 2 (pos * 7) ltac:(lia) ltac:(lia)). nia. }
    rewrite <- Z.pow_add_r in H by lia.
    destruct (Z.le_gt_cases (pos + Z.of_nat a) 8); [assumption|].
    pose proof (Z.pow_le_mono_r 2 63 (7 * Z.of_nat a + pos * 7) ltac:(lia) ltac:(lia)).
    change (2 ^ 63) with 9223372036854775808 in *. lia. }
  bfalse (pos + Z.of_nat a >=? 9).
  rewrite Z.shiftr_shiftr by lia.
  now replace (pos * 7 + 7 * (pos + Z.of_nat a - pos)) with ((pos + Z.of_nat a) * 7) by lia.
Qed.

Lemma decode_loop_app l1 l2 vli pos :
  vli_decode_loop false vli pos (l1 ++ l2) =
    match vli_decode_loop false vli pos l1 with
    | (LZMA_OK, v1, p1, _) => vli_decode_loop false v1 p1 l2
    | (r, v1, p1, rest) => (r, v1, p1, rest ++ l2)
    end.
Proof.
  revert vli pos. induction l1 as [|x l1 IH]; intros vli pos; cbn [app vli_decode_loop];
    [reflexivity|].
  destruct (Z.land x 128 =? 0).
  - now destruct ((x =? 0) && (pos + 1 >? 1)).
  - destruct (pos + 1 =? LZMA_VLI_BYTES_MAX); [reflexivity|apply IH].
Qed.

(** A suspended decoder holds a partial value that its guard accepts. *)
Lemma decode_loop_suspended l vli pos v1 p1 rest :
  bytes_ok l -> 0 <= pos < 9 -> 0 <= vli < 2 ^ (7 * pos) ->
  vli_decode_loop false vli pos l = (LZMA_OK, v1, p1, rest) ->
  rest = [] /\ p1 = pos + zlen l /\ p1 < 9 /\ 0 <= v1 < 2 ^ (7 * p1).
Proof.
  revert vli pos. induction l as [|x l IH]; intros vli pos Hl Hp Hv; cbn [vli_decode_loop].
  - intros [= <- <- <-]. simpl. split_and!; try lia. reflexivity.
  - apply Forall_cons in Hl as [Hx Hl].
    destruct (Z.eqb_spec (Z.land x 128) 0) as [|Hx80].
    { now destruct ((x =? 0) && (pos + 1 >? 1)). }
    unfold LZMA_VLI_BYTES_MAX. destruct (Z.eqb_spec (pos + 1) 9); [discriminate|].
    destruct (cont_byte_inv x Hx Hx80) as (Hx128 & H7F & _). rewrite H7F.
    destruct (decode_add vli pos (x - 128)) as [-> Hr]; [lia|lia|unfold is_byte in Hx; lia|].
    intros E. apply IH in E; [|assumption|lia|assumption].
    cbn [length]. intuition lia.
Qed.

Lemma decode_resume vli pos l1 l2 :
  bytes_ok l1 -> l1 <> [] -> l2 <> [] -> 0 <= pos -> 0 <= vli ->
  lzma_vli_decode vli (Some pos) (l1 ++ l2) =
    match lzma_vli_decode vli (Some pos) l1 with
    | (LZMA_OK, v1, p1, _) => lzma_vli_decode v1 (Some p1) l2
    | (r, v1, p1, rest) => (r, v1, p1, rest ++ l2)
    end.
Proof.
  intros Hb H1 H2 Hp Hv. unfold lzma_vli_decode, LZMA_VLI_BYTES_MAX.
  set (v0 := if pos =? 0 then 0 else vli).
  destruct ((pos >=? 9) || negb (Z.shiftr v0 (pos * 7) =? 0)) eqn:Hg; [reflexivity|].
  b2p. assert (0 <= v0 < 2 ^ (7 * pos)) as Hv0.
  { subst v0. pose proof (pow7_pos pos ltac:(lia)). destruct (pos =? 0); [lia|].
    split; [lia|]. rewrite Z.shiftr_div_pow2, (Z.mul_comm pos) in * by lia.
    apply Z.div_small_iff in H0; lia. }
  destruct l1 as [|x l1]; [easy|]. cbn [app].
  change (x :: l1 ++ l2) with ((x :: l1) ++ l2). rewrite decode_loop_app.
  destruct (vli_decode_loop false v0 pos (x :: l1)) as [[[r v1] p1] rest] eqn:E.
  destruct r; try reflexivity.
  apply decode_loop_suspended in E as (-> & Hp1 & Hp9 & Hv1); [|assumption|lia|assumption].
  simpl in Hp1. bfalse (p1 =? 0). bfalse (p1 >=? 9).
  rewrite Z.shiftr_div_pow2, (Z.mul_comm p1), Z.div_small by lia.
  destruct l2; easy.
Qed.
End Resume.

(** ** Canonical form *)

Section Canonical.

Lemma decode_loop_canonical l : forall vli pos v p rest,
  bytes_ok l -> 0 <= pos < 9 -> 0 <= vli < 2 ^ (7 * pos) ->
  vli_decode_loop true vli pos l = (LZMA_OK, v, p, rest) ->
  exists out w, l = out ++ rest /\ v = vli + w * 2 ^ (7 * pos) /\
    0 <= v < 2 ^ (7 * p) /\ p = pos + zlen out /\ p <= 9 /\ (0 < pos -> 0 < w) /\
    0 <= w /\ (forall avail : nat, zlen out <= Z.of_nat avail ->
      vli_encode_loop true avail w pos = (LZMA_OK, out, p)).
Proof.
  induction l as [|x l IH]; intros vli pos v p rest Hl Hp Hv; cbn [vli_decode_loop];
    [discriminate|].
  apply Forall_cons in Hl as [Hx Hl].
  destruct (Z.eqb_spec (Z.land x 128) 0) as [Hx80|Hx80].
  - destruct (last_byte x Hx Hx80) as [H7F Hx128]. rewrite H7F.
    destruct (decode_add vli pos x) as [-> Hr]; [lia|lia|unfold is_byte in Hx; lia|].
    destruct ((x =? 0) && (pos + 1 >? 1)) eqn:Hz; [discriminate|].
    intros [= <- <- <-]. exists [x], x. unfold is_byte in Hx.
    apply andb_false_iff in Hz.
    split_and!; try reflexivity; try lia.
    intros [|avail] Ha; [simpl in Ha; lia|]. cbn [vli_encode_loop].
    bfalse (x >=? 128). now rewrite u8_small.
  - unfold LZMA_VLI_BYTES_MAX. destruct (Z.eqb_spec (pos + 1) 9); [discriminate|].
    destruct (cont_byte_inv x Hx Hx80) as (Hx128 & H7F & Hlor). rewrite H7F.
    unfold is_byte in Hx.
    destruct (decode_add vli pos (x - 128)) as [-> Hr]; [lia|lia|lia|].
    intros E. apply IH in E
      as (out & w & -> & Hvv & Hrange & Hpp & Hp9 & Hw & Hw0 & Henc);
      [|assumption|lia|exact Hr].
    specialize (Hw ltac:(lia)).
    exists (x :: out), (x - 128 + 128 * w). rewrite pow7_succ in Hvv by lia.
    split_and!; try lia; try reflexivity.
    { simpl length. lia. }
    intros [|avail] Ha; [simpl in Ha; lia|]. cbn [vli_encode_loop].
    btrue (x - 128 + 128 * w >=? 128). rewrite shiftr7.
    replace ((x - 128 + 128 * w) / 128) with w by dlia.
    rewrite Henc by (simpl length in Ha; lia).
    cbv beta iota. do 2 f_equal. f_equal.
    destruct (cont_byte (x - 128 + 128 * w)) as [-> _]. dlia.
Qed.

(** Whatever the decoder accepts is what the encoder produces. *)
Lemma vli_decode_canonical input v rest :
  bytes_ok input -> vli_decode input = Ok (v, rest) ->
  0 <= v <= LZMA_VLI_MAX /\
  exists out, input = out ++ rest /\
    forall avail : nat, zlen out <= Z.of_nat avail -> vli_encode v avail = Ok out.
Proof.
  unfold vli_decode, lzma_vli_decode. intros Hi.
  destruct input as [|x input]; [discriminate|].
  destruct (vli_decode_loop true 0 0 (x :: input)) as [[[r v'] p] rest'] eqn:E.
  destruct r; try discriminate. intros [= -> ->].
  destruct (decode_loop_canonical _ 0 0 _ _ _ Hi ltac:(lia)
    ltac:(change (2 ^ (7 * 0)) with 1; lia) E)
    as (out & w & Hin & Hv & Hr & Hp & Hp9 & _ & Hw & Henc).
  change (2 ^ (7 * 0)) with 1 in Hv. assert (w = v) as -> by lia.
  assert (v <= LZMA_VLI_MAX).
  { unfold LZMA_VLI_MAX. pose proof (pow7_le p ltac:(lia)). lia. }
  split; [lia|]. exists out. split; [assumption|]. intros avail Ha.
  unfold vli_encode, lzma_vli_encode. cbn [default bool_decide option_eq_None_dec id].
  unfold LZMA_VLI_MAX, LZMA_VLI_BYTES_MAX in *. cbn [Z.geb Z.compare orb].
  bfalse (v >? 9223372036854775807). rewrite Z.shiftr_0_r.
  destruct avail as [|avail]; [|cbn [Nat.eqb]; now rewrite Henc].
  destruct out; [|simpl in Ha; lia]. specialize (Henc 1%nat ltac:(simpl; lia)).
  cbn in Henc. destruct (v >=? 128); discriminate.
Qed.
End Canonical.

(** The single-call interface, for the modules that build on it. *)
Lemma vli_encode_spec v (avail : nat) :
  0 <= v <= LZMA_VLI_MAX -> lzma_vli_size v <= Z.of_nat avail ->
  exists out, vli_encode v avail = Ok out /\ zlen out = lzma_vli_size v /\
    bytes_ok out /\ forall rest, vli_decode (out ++ rest) = Ok (v, rest).
Proof.
  intros Hv Ha. destruct (vli_encode_ok v avail Hv Ha) as (out & Hl & Hb & He & _ & Hd & _).
  exists out. unfold vli_encode, vli_decode. rewrite He. split_and!; try assumption; [reflexivity|].
  intros rest. now rewrite Hd.
Qed.

(** ** The bytes of an integer *)

Definition vli_bytes (v : Z) : bytes := match vli_encode v 9 with Ok out => out | Err _ => [] end.

Section Bytes.

Lemma vli_bytes_ok v (avail : nat) :
  0 <= v <= LZMA_VLI_MAX -> lzma_vli_size v <= Z.of_nat avail ->
  zlen (vli_bytes v) = lzma_vli_size v /\ bytes_ok (vli_bytes v) /\
  lzma_vli_encode v (Some 0) avail = (LZMA_STREAM_END, vli_bytes v, lzma_vli_size v) /\
  (forall junk rest, lzma_vli_decode junk (Some 0) (vli_bytes v ++ rest) =
    (LZMA_STREAM_END, v, lzma_vli_size v, rest)).
Proof.
  intros Hv Ha. pose proof (vli_size_range v Hv) as Hr.
  destruct (vli_encode_spec v 9 Hv) as (o9 & E9 & L9 & B9 & D9); [lia|].
  assert (vli_bytes v = o9) as -> by (unfold vli_bytes; now rewrite E9).
  destruct (vli_encode_ok v avail Hv Ha) as (out & Hl & Hb & He & He' & _ & Hd).
  assert (out = o9) as ->.
  { specialize (D9 []). rewrite app_nil_r in D9.
    destruct (vli_decode_canonical o9 v [] B9 D9) as (_ & o & Eo & Henc).
    rewrite app_nil_r in Eo. subst o. specialize (Henc avail ltac:(lia)).
    unfold vli_encode in Henc. rewrite He in Henc. congruence. }
  now split_and!.
Qed.

Lemma decode_loop_stream_end l : forall vli pos v p rest,
  vli_decode_loop false vli pos l = (LZMA_STREAM_END, v, p, rest) ->
  vli_decode_loop true vli pos l = (LZMA_OK, v, p, rest).
Proof.
  induction l as [|b l IH]; intros vli pos v p rest; cbn [vli_decode_loop]; [discriminate|].
  case_if; [case_if; [discriminate|]; intros [= <- <- <-]; reflexivity|].
  case_if; [discriminate|]. apply IH.
Qed.

Lemma vli_decode_multi_canonical junk input v p rest :
  bytes_ok input -> lzma_vli_decode junk (Some 0) input = (LZMA_STREAM_END, v, p, rest) ->
  0 <= v <= LZMA_VLI_MAX /\ input = vli_bytes v ++ rest.
Proof.
  intros Hb H. unfold lzma_vli_decode in H. cbn in H. destruct input as [|b input]; [discriminate|].
  apply decode_loop_stream_end in H.
  assert (vli_decode (b :: input) = Ok (v, rest)) as E.
  { unfold vli_decode, lzma_vli_decode. now rewrite H. }
  destruct (vli_decode_canonical _ _ _ Hb E) as (Hv & out & Ein & Henc). split; [assumption|].
  rewrite Ein. f_equal. pose proof (vli_size_range v Hv) as Hr.
  destruct (vli_encode_spec v 9 Hv) as (o9 & E9 & L9 & B9 & D9); [lia|].
  unfold vli_bytes. rewrite E9.
  destruct (vli_encode_spec v (Nat.max 9 (length out)) Hv) as (o & Eo & Lo & _); [lia|].
  rewrite Henc in Eo by lia. injection Eo as ->.
  assert (vli_encode v 9 = Ok o) as E9' by (apply Henc; lia). congruence.
Qed.

End Bytes.

(** ** Properties *)

(** C21: for every integer the format can hold and enough room, the encoder
    emits exactly [lzma_vli_size] bytes in both modes, and the decoder, in
    both modes and whatever follows in the buffer, reads the integer back and
    stops right after it. *)
Theorem vli_roundtrip v (avail : nat) :
  0 <= v <= LZMA_VLI_MAX -> lzma_vli_size v <= Z.of_nat avail ->
  exists out,
    zlen out = lzma_vli_size v /\ bytes_ok out /\
    lzma_vli_encode v None avail = (LZMA_OK, out, lzma_vli_size v) /\
    lzma_vli_encode v (Some 0) avail = (LZMA_STREAM_END, out, lzma_vli_size v) /\
    (forall junk rest,
      lzma_vli_decode junk None (out ++ rest) = (LZMA_OK, v, lzma_vli_size v, rest)) /\
    (forall junk rest,
      lzma_vli_decode junk (Some 0) (out ++ rest) =
        (LZMA_STREAM_END, v, lzma_vli_size v, rest)).
Proof. apply vli_encode_ok. Qed.

Lemma vli_roundtrip_witness :
  exists out, lzma_vli_encode LZMA_VLI_MAX None 9 = (LZMA_OK, out, 9) /\
    lzma_vli_decode 0 None (out ++ [1]) = (LZMA_OK, LZMA_VLI_MAX, 9, [1]).
Proof.
  destruct (vli_roundtrip LZMA_VLI_MAX 9) as (out & _ & _ & He & _ & Hd & _);
    [vm_compute; split; discriminate|vm_compute; discriminate|].
  exists out. split; [exact He|exact (Hd 0 [1])].
Defined.

(** C24: the decoder accepts only the shortest form: every accepted byte
    sequence is the one the encoder writes for the decoded value, and the value
    fits in 63 bits. *)
Theorem vli_canonical input v n rest :
  bytes_ok input -> lzma_vli_decode 0 None input = (LZMA_OK, v, n, rest) ->
  0 <= v <= LZMA_VLI_MAX /\
  exists out, input = out ++ rest /\ vli_encode v (length out) = Ok out.
Proof.
  intros Hi Hd. destruct (vli_decode_canonical input v rest Hi) as (Hv & out & Hin & He).
  - unfold vli_decode. now rewrite Hd.
  - split; [assumption|]. exists out. split; [assumption|]. apply He. lia.
Qed.

Lemma vli_canonical_witness :
  0 <= 300 <= LZMA_VLI_MAX /\
  exists out, [0xAC; 0x02; 9] = out ++ [9] /\ vli_encode 300 (length out) = Ok out.
Proof.
  apply (vli_canonical [0xAC; 0x02; 9] 300 2 [9]); [|reflexivity].
  bytes_ok_tac.
Defined.

(** in multi-call mode the call boundary does not show: encoding into
    [a + b] bytes, or decoding [l1 ++ l2], gives the same result, output and
    state as two calls on the two parts. *)
Theorem vli_resumable v pos (a b : nat) vli dpos l1 l2 :
  0 <= v <= LZMA_VLI_MAX -> 0 <= pos -> (0 < a)%nat -> (0 < b)%nat ->
  bytes_ok l1 -> l1 <> [] -> l2 <> [] -> 0 <= dpos -> 0 <= vli ->
  lzma_vli_encode v (Some pos) (a + b) =
    match lzma_vli_encode v (Some pos) a with
    | (LZMA_OK, o1, p1) =>
        let '(r, o2, p2) := lzma_vli_encode v (Some p1) b in (r, o1 ++ o2, p2)
    | r => r
    end /\
  lzma_vli_decode vli (Some dpos) (l1 ++ l2) =
    match lzma_vli_decode vli (Some dpos) l1 with
    | (LZMA_OK, v1, p1, _) => lzma_vli_decode v1 (Some p1) l2
    | (r, v1, p1, rest) => (r, v1, p1, rest ++ l2)
    end.
Proof. intros. split; [now apply encode_resume|now apply decode_resume]. Qed.

Lemma vli_resumable_witness :
  lzma_vli_decode 5 (Some 0) ([0xAC] ++ [0x02; 7]) = (LZMA_STREAM_END, 300, 2, [7]).
Proof.
  destruct (vli_resumable 300 0 1 1 5 0 [0xAC] [0x02; 7]) as [_ ->]; try reflexivity;
    try lia; try discriminate; [unfold LZMA_VLI_MAX; lia|].
  bytes_ok_tac.
Defined.
