(* ===== verification/Sha256.v ===== *)
(** * SHA-256

    [lib/archive/xz/src/liblzma/check/sha256.c]: the compression function with
    its rotating register window and its circular message schedule, and the
    streaming interface (init, update, finish).  [sha256_ref] is the definition
    of FIPS 180-4, to which the code is compared. *)

From S2P Require Import Prelude.

(** ** The macros *)

Definition rotr_32 (num amount : Z) : Z :=
  Z.lor (Z.shiftr num amount) (u32 (Z.shiftl num (32 - amount))).

Definition Ch (x y z : Z) : Z := Z.lxor z (Z.land x (Z.lxor y z)).
Definition Maj (x y z : Z) : Z := u32 (Z.land x (Z.lxor y z) + Z.land y z).

Definition S0 (x : Z) : Z := rotr_32 (Z.lxor x (rotr_32 (Z.lxor x (rotr_32 x 9)) 11)) 2.
Definition S1 (x : Z) : Z := rotr_32 (Z.lxor x (rotr_32 (Z.lxor x (rotr_32 x 14)) 5)) 6.
Definition s0 (x : Z) : Z := Z.lxor (rotr_32 (Z.lxor x (rotr_32 x 11)) 7) (Z.shiftr x 3).
Definition s1 (x : Z) : Z := Z.lxor (rotr_32 (Z.lxor x (rotr_32 x 2)) 17) (Z.shiftr x 10).

Definition SHA256_K : list Z := [
  0x428A2F98; 0x71374491; 0xB5C0FBCF; 0xE9B5DBA5;
  0x3956C25B; 0x59F111F1; 0x923F82A4; 0xAB1C5ED5;
  0xD807AA98; 0x12835B01; 0x243185BE; 0x550C7DC3;
  0x72BE5D74; 0x80DEB1FE; 0x9BDC06A7; 0xC19BF174;
  0xE49B69C1; 0xEFBE4786; 0x0FC19DC6; 0x240CA1CC;
  0x2DE92C6F; 0x4A7484AA; 0x5CB0A9DC; 0x76F988DA;
  0x983E5152; 0xA831C66D; 0xB00327C8; 0xBF597FC7;
  0xC6E00BF3; 0xD5A79147; 0x06CA6351; 0x14292967;
  0x27B70A85; 0x2E1B2138; 0x4D2C6DFC; 0x53380D13;
  0x650A7354; 0x766A0ABB; 0x81C2C92E; 0x92722C85;
  0xA2BFE8A1; 0xA81A664B; 0xC24B8B70; 0xC76C51A3;
  0xD192E819; 0xD6990624; 0xF40E3585; 0x106AA070;
  0x19A4C116; 0x1E376C08; 0x2748774C; 0x34B0BCB5;
  0x391C0CB3; 0x4ED8AA4A; 0x5B9CCA4F; 0x682E6FF3;
  0x748F82EE; 0x78A5636F; 0x84C87814; 0x8CC70208;
  0x90BEFFFA; 0xA4506CEB; 0xBEF9A3F7; 0xC67178F2
].

(** An array of [uint32_t], read and written at an index. *)
Definition word (l : list Z) (i : Z) : Z := nth (Z.to_nat i) l 0.
Definition set_word (l : list Z) (i v : Z) : list Z := <[Z.to_nat i := v]> l.

(** [conv32be(data[i])]: the big endian word [i] of the buffer. *)
Definition read32be (data : bytes) (i : Z) : Z :=
  Z.lor (Z.lor (Z.lor (Z.shiftl (byte_at data (4 * i)) 24) (Z.shiftl (byte_at data (4 * i + 1)) 16))
               (Z.shiftl (byte_at data (4 * i + 2)) 8))
        (byte_at data (4 * i + 3)).

Definition write32be (v : Z) : bytes :=
  [u8 (Z.shiftr v 24); u8 (Z.shiftr v 16); u8 (Z.shiftr v 8); u8 v].

Definition write64be (v : Z) : bytes :=
  write32be (u32 (Z.shiftr v 32)) ++ write32be (u32 v).

(** The index of register [k] ([a] is 0, [h] is 7) in round [i]. *)
Definition reg (k i : Z) : Z := Z.land (k - i) 7.

(** [R(i, j, blk)], with the value of [blk]. *)
Definition R (i j blk : Z) (T : list Z) : list Z :=
  let a := word T (reg 0 i) in let b := word T (reg 1 i) in let c := word T (reg 2 i) in
  let d := word T (reg 3 i) in let e := word T (reg 4 i) in let f := word T (reg 5 i) in
  let g := word T (reg 6 i) in let h := word T (reg 7 i) in
  let h := u32 (h + (S1 e + Ch e f g + word SHA256_K (i + j) + blk)) in
  let T := set_word T (reg 7 i) h in
  let T := set_word T (reg 3 i) (u32 (d + h)) in
  set_word T (reg 7 i) (u32 (h + (S0 a + Maj a b c))).

(** [R0(i)] and [R2(i)]; the state is [T] and [W]. *)
Definition R0 (data : bytes) (TW : list Z * list Z) (i : Z) : list Z * list Z :=
  let '(T, W) := TW in
  let W := set_word W i (read32be data i) in
  (R i 0 (word W i) T, W).

Definition R2 (j : Z) (TW : list Z * list Z) (i : Z) : list Z * list Z :=
  let '(T, W) := TW in
  let W := set_word W (Z.land i 15)
    (u32 (word W (Z.land i 15) + (s1 (word W (Z.land (i - 2) 15)) + word W (Z.land (i - 7) 15)
          + s0 (word W (Z.land (i - 15) 15))))) in
  (R i j (word W (Z.land i 15)) T, W).

Definition transform (state : list Z) (data : bytes) : list Z :=
  let TW := fold_left (R0 data) (seqZ 0 16) (state, repeat 0 16) in
  let '(T, _) := fold_left (fun TW j => fold_left (R2 j) (seqZ 0 16) TW) [16; 32; 48] TW in
  [u32 (word state 0 + word T (reg 0 0)); u32 (word state 1 + word T (reg 1 0));
   u32 (word state 2 + word T (reg 2 0)); u32 (word state 3 + word T (reg 3 0));
   u32 (word state 4 + word T (reg 4 0)); u32 (word state 5 + word T (reg 5 0));
   u32 (word state 6 + word T (reg 6 0)); u32 (word state 7 + word T (reg 7 0))].

(** ** The streaming interface

    The parts of [lzma_check_state] that SHA-256 uses: [state.sha256.state],
    [state.sha256.size] and the first 64 bytes of [buffer]. *)

Record sha256_check := {
  sha_state : list Z;
  sha_size : Z;
  sha_buffer : bytes;
}.

Definition process (c : sha256_check) : sha256_check :=
  {| sha_state := transform (sha_state c) (sha_buffer c); sha_size := sha_size c;
     sha_buffer := sha_buffer c |}.

Definition sha256_initial : list Z :=
  [0x6A09E667; 0xBB67AE85; 0x3C6EF372; 0xA54FF53A;
   0x510E527F; 0x9B05688C; 0x1F83D9AB; 0x5BE0CD19].

Definition lzma_sha256_init (c : sha256_check) : sha256_check :=
  {| sha_state := sha256_initial; sha_size := 0; sha_buffer := sha_buffer c |}.

(** [memcpy(buffer + start, src, ...)] *)
Definition store (buffer : bytes) (start : Z) (src : bytes) : bytes :=
  take (Z.to_nat start) buffer ++ src ++ drop (Z.to_nat start + length src) buffer.

(** The loop of [lzma_sha256_update]; every iteration consumes a byte at
    least, so that the number of bytes is enough [fuel]. *)
Fixpoint sha256_update_loop (fuel : nat) (buf : bytes) (c : sha256_check) : sha256_check :=
  match fuel with
  | O => c
  | S fuel =>
      if zlen buf =? 0 then c
      else
        let copy_start := Z.land (sha_size c) 0x3F in
        let copy_size := if 64 - copy_start >? zlen buf then zlen buf else 64 - copy_start in
        let c := {| sha_state := sha_state c; sha_size := u64 (sha_size c + copy_size);
                    sha_buffer := store (sha_buffer c) copy_start (slice 0 copy_size buf) |} in
        let c := if Z.land (sha_size c) 0x3F =? 0 then process c else c in
        sha256_update_loop fuel (from copy_size buf) c
  end.

Definition lzma_sha256_update (buf : bytes) (c : sha256_check) : sha256_check :=
  sha256_update_loop (length buf) buf c.

(** The loop that pads; [fuel] bounds the at most 64 bytes it stores. *)
Fixpoint sha256_pad_loop (fuel : nat) (pos : Z) (c : sha256_check) : sha256_check :=
  match fuel with
  | O => c
  | S fuel =>
      if pos =? 64 - 8 then c
      else
        let '(c, pos) := if pos =? 64 then (process c, 0) else (c, pos) in
        sha256_pad_loop fuel (pos + 1)
          {| sha_state := sha_state c; sha_size := sha_size c;
             sha_buffer := store (sha_buffer c) pos [0] |}
  end.

(** The digest is stored over the first 32 bytes of the buffer. *)
Definition lzma_sha256_finish (c : sha256_check) : sha256_check :=
  let pos := Z.land (sha_size c) 0x3F in
  let c := {| sha_state := sha_state c; sha_size := sha_size c;
              sha_buffer := store (sha_buffer c) pos [0x80] |} in
  let c := sha256_pad_loop 65 (pos + 1) c in
  let size := u64 (sha_size c * 8) in
  let c := process {| sha_state := sha_state c; sha_size := size;
                      sha_buffer := store (sha_buffer c) 56 (write64be size) |} in
  {| sha_state := sha_state c; sha_size := sha_size c;
     sha_buffer := store (sha_buffer c) 0 (flat_map write32be (sha_state c)) |}.

(** The whole computation: the first 32 bytes of the buffer at the end. *)
Definition sha256 (c : sha256_check) (chunks : list bytes) : bytes :=
  slice 0 32 (sha_buffer (lzma_sha256_finish
    (fold_left (fun c buf => lzma_sha256_update buf c) chunks (lzma_sha256_init c)))).

Definition check_example : sha256_check :=
  {| sha_state := repeat 7 8; sha_size := 3; sha_buffer := repeat 9 64 |}.

Example sha256_abc :
  sha256 check_example [[0x61]; [0x62; 0x63]] =
  [0xBA; 0x78; 0x16; 0xBF; 0x8F; 0x01; 0xCF; 0xEA; 0x41; 0x41; 0x40; 0xDE; 0x5D; 0xAE; 0x22; 0x23;
   0xB0; 0x03; 0x61; 0xA3; 0x96; 0x17; 0x7A; 0x9C; 0xB4; 0x10; 0xFF; 0x61; 0xF2; 0x00; 0x15; 0xAD].
Proof. vm_compute. reflexivity. Qed.

(** ** FIPS 180-4 *)

Module Fips.

Definition ROTR (n x : Z) : Z := Z.lor (Z.shiftr x n) (u32 (Z.shiftl x (32 - n))).
Definition Ch (x y z : Z) : Z := Z.lxor (Z.land x y) (Z.land (Z.lnot x) z).
Definition Maj (x y z : Z) : Z := Z.lxor (Z.lxor (Z.land x y) (Z.land x z)) (Z.land y z).
Definition Sigma0 (x : Z) : Z := Z.lxor (Z.lxor (ROTR 2 x) (ROTR 13 x)) (ROTR 22 x).
Definition Sigma1 (x : Z) : Z := Z.lxor (Z.lxor (ROTR 6 x) (ROTR 11 x)) (ROTR 25 x).
Definition sigma0 (x : Z) : Z := Z.lxor (Z.lxor (ROTR 7 x) (ROTR 18 x)) (Z.shiftr x 3).
Definition sigma1 (x : Z) : Z := Z.lxor (Z.lxor (ROTR 17 x) (ROTR 19 x)) (Z.shiftr x 10).

(** The message schedule: [n] more words after those in [w]. *)
Fixpoint expand (n : nat) (w : list Z) : list Z :=
  match n with
  | O => w
  | S n =>
      let t := zlen w in
      expand n (w ++ [u32 (sigma1 (word w (t - 2)) + word w (t - 7) + sigma0 (word w (t - 15))
                           + word w (t - 16))])
  end.

Definition schedule (block : bytes) : list Z :=
  expand 48 (map (read32be block) (seqZ 0 16)).

Definition round (r : list Z) (kw : Z * Z) : list Z :=
  let '(k, w) := kw in
  match r with
  | [a; b; c; d; e; f; g; h] =>
      let T1 := h + Sigma1 e + Ch e f g + k + w in
      let T2 := Sigma0 a + Maj a b c in
      [u32 (T1 + T2); a; b; c; u32 (d + T1); e; f; g]
  | _ => r
  end.

Definition compress (state : list Z) (block : bytes) : list Z :=
  let r := fold_left round (zip SHA256_K (schedule block)) state in
  zip_with (fun a b => u32 (a + b)) state r.

Fixpoint blocks (n : nat) (state : list Z) (msg : bytes) : list Z :=
  match n with
  | O => state
  | S n => blocks n (compress state (take 64 msg)) (drop 64 msg)
  end.

Definition pad (len : Z) : bytes :=
  [0x80] ++ repeat 0 (Z.to_nat ((55 - len) mod 64)) ++ write64be (u64 (len * 8)).

Definition sha256_ref (msg : bytes) : bytes :=
  let padded := msg ++ pad (zlen msg) in
  flat_map write32be (blocks (length padded / 64) sha256_initial padded).

End Fips.

Example fips_abc : Fips.sha256_ref [0x61; 0x62; 0x63] = sha256 check_example [[0x61; 0x62; 0x63]].
Proof. vm_compute. reflexivity. Qed.

(** ** Rotations *)

Section Bits.

Lemma testbit_u32_high x i : is_u32 x -> 32 <= i -> Z.testbit x i = false.
Proof.
  unfold is_u32. intros Hx Hi. rewrite <- (Z.mod_small x (2 ^ 32)) by lia.
  now apply Z.mod_pow2_bits_high.
Qed.

Lemma testbit_rotr x n i :
  is_u32 x -> 0 < n < 32 -> 0 <= i ->
  Z.testbit (rotr_32 x n) i = if i <? 32 then Z.testbit x ((i + n) mod 32) else false.
Proof.
  intros Hx Hn Hi. unfold rotr_32, u32. change 4294967296 with (2 ^ 32).
  rewrite Z.lor_spec, Z.shiftr_spec by lia. destruct (Z.ltb_spec i 32).
  - rewrite Z.mod_pow2_bits_low, Z.shiftl_spec by lia. destruct (Z.ltb_spec (i + n) 32).
    + rewrite (Z.testbit_neg_r _ (i - (32 - n))), orb_false_r, Z.mod_small by lia. reflexivity.
    + rewrite (testbit_u32_high x (i + n)) by (assumption || lia). cbn [orb].
      f_equal. dlia.
  - now rewrite Z.mod_pow2_bits_high, testbit_u32_high by (assumption || lia).
Qed.

Lemma rotr_u32 x n : is_u32 x -> 0 < n < 32 -> is_u32 (rotr_32 x n).
Proof.
  intros Hx Hn. assert (rotr_32 x n = rotr_32 x n mod 2 ^ 32) as ->; [|apply Z.mod_pos_bound; lia].
  zbits i Hi. rewrite testbit_rotr by assumption. destruct (Z.ltb_spec i 32).
  - rewrite Z.mod_pow2_bits_low, testbit_rotr by (assumption || lia). now btrue (i <? 32).
  - now rewrite Z.mod_pow2_bits_high by lia.
Qed.

Lemma xor_word x y : is_u32 x -> is_u32 y -> is_u32 (Z.lxor x y).
Proof. unfold is_u32. apply (lxor_range 32). lia. Qed.

Lemma rotr_lxor x y n :
  is_u32 x -> is_u32 y -> 0 < n < 32 ->
  rotr_32 (Z.lxor x y) n = Z.lxor (rotr_32 x n) (rotr_32 y n).
Proof.
  intros. zbits i Hi. rewrite !testbit_rotr by auto using xor_word.
  destruct (i <? 32); [apply Z.lxor_spec|reflexivity].
Qed.

Lemma rotr_rotr x a b :
  is_u32 x -> 0 < a -> 0 < b -> a + b < 32 -> rotr_32 (rotr_32 x a) b = rotr_32 x (a + b).
Proof.
  intros. zbits i Hi. pose proof (Z.mod_pos_bound (i + b) 32 ltac:(lia)).
  rewrite (testbit_rotr (rotr_32 x a)) by (try apply rotr_u32; auto; lia).
  rewrite !testbit_rotr by (auto; lia).
  btrue ((i + b) mod 32 <? 32). destruct (i <? 32); [|reflexivity].
  f_equal. rewrite Zplus_mod_idemp_l. f_equal. lia.
Qed.

Ltac sigma_tac :=
  rewrite ?rotr_lxor, ?rotr_rotr by
    (repeat first [assumption | apply xor_word | apply rotr_u32 | lia]);
  cbn [Z.add Pos.add Pos.succ]; rewrite ?Z.lxor_assoc; reflexivity.

Lemma S0_spec x : is_u32 x -> S0 x = Fips.Sigma0 x.
Proof.
  intros Hx. unfold S0, Fips.Sigma0. change Fips.ROTR with (fun n x => rotr_32 x n). cbv beta.
  sigma_tac.
Qed.

Lemma S1_spec x : is_u32 x -> S1 x = Fips.Sigma1 x.
Proof.
  intros Hx. unfold S1, Fips.Sigma1. change Fips.ROTR with (fun n x => rotr_32 x n). cbv beta.
  sigma_tac.
Qed.

Lemma s0_spec x : is_u32 x -> s0 x = Fips.sigma0 x.
Proof.
  intros Hx. unfold s0, Fips.sigma0. change Fips.ROTR with (fun n x => rotr_32 x n). cbv beta.
  sigma_tac.
Qed.

Lemma s1_spec x : is_u32 x -> s1 x = Fips.sigma1 x.
Proof.
  intros Hx. unfold s1, Fips.sigma1. change Fips.ROTR with (fun n x => rotr_32 x n). cbv beta.
  sigma_tac.
Qed.

Lemma Ch_spec x y z : Ch x y z = Fips.Ch x y z.
Proof.
  unfold Ch, Fips.Ch. zbits i Hi.
  destruct (Z.testbit x i), (Z.testbit y i), (Z.testbit z i); reflexivity.
Qed.

Lemma Maj_spec x y z : is_u32 x -> is_u32 y -> is_u32 z -> Maj x y z = Fips.Maj x y z.
Proof.
  intros Hx Hy Hz. unfold Maj, Fips.Maj.
  assert (Z.land x (Z.lxor y z) + Z.land y z =
    Z.lxor (Z.lxor (Z.land x y) (Z.land x z)) (Z.land y z)) as ->.
  { rewrite Z.add_nocarry_lxor; zbits i Hi;
      destruct (Z.testbit x i), (Z.testbit y i), (Z.testbit z i); reflexivity. }
  apply u32_small. assert (forall a b, is_u32 a -> is_u32 b -> is_u32 (Z.land a b)) as Hland.
  { intros a b Ha Hb. unfold is_u32 in *. split; [apply Z.land_nonneg; lia|].
    rewrite <- (Z.mod_small b (2 ^ 32)), <- Z.land_ones, Z.land_assoc, Z.land_ones by lia.
    apply Z.mod_pos_bound. lia. }
  repeat apply xor_word; auto.
Qed.

End Bits.

(** ** Rounds *)

Section Rounds.

(** The registers [a] to [h] before round [i]. *)
Definition regs (i : Z) (T : list Z) : list Z := map (fun k => word T (reg k i)) [0;1;2;3;4;5;6;7].

Lemma u32_add_l a b : u32 (u32 a + b) = u32 (a + b).
Proof. apply Zplus_mod_idemp_l. Qed.
Lemma u32_add_r a b : u32 (a + u32 b) = u32 (a + b).
Proof. apply Zplus_mod_idemp_r. Qed.

Lemma is_u32_u32 x : is_u32 (u32 x).
Proof. apply u32_range. Qed.

(** One round on the register values. *)
Lemma round_values a b c d e f g h k w :
  is_u32 a -> is_u32 b -> is_u32 c -> is_u32 e ->
  [u32 (u32 (h + (S1 e + Ch e f g + k + w)) + (S0 a + Maj a b c)); a; b; c;
   u32 (d + u32 (h + (S1 e + Ch e f g + k + w))); e; f; g] =
  Fips.round [a; b; c; d; e; f; g; h] (k, w).
Proof.
  intros. cbn [Fips.round]. rewrite S0_spec, S1_spec, Ch_spec, Maj_spec by assumption.
  rewrite u32_add_l, u32_add_r.
  replace (h + (Fips.Sigma1 e + Fips.Ch e f g + k + w))
    with (h + Fips.Sigma1 e + Fips.Ch e f g + k + w) by lia.
  reflexivity.
Qed.

(** Evaluate the register numbers and the indices of a concrete round. *)
Ltac eval_regs :=
  cbn [map];
  repeat match goal with
  | |- context [reg ?k ?i] => let v := eval vm_compute in (reg k i) in change (reg k i) with v
  end;
  unfold word, set_word;
  repeat match goal with
  | |- context [Z.to_nat (Zpos ?p)] =>
      let v := eval vm_compute in (Z.to_nat (Zpos p)) in change (Z.to_nat (Zpos p)) with v
  | |- context [Z.to_nat 0] => change (Z.to_nat 0) with 0%nat
  end;
  cbn [nth insert list_insert].

Lemma R_round i j blk T :
  length T = 8%nat -> Forall is_u32 T -> 0 <= i < 16 ->
  regs (i + 1) (R i j blk T) = Fips.round (regs i T) (word SHA256_K (i + j), blk) /\
  length (R i j blk T) = 8%nat /\ Forall is_u32 (R i j blk T).
Proof.
  intros HT Hu Hi. do 8 (destruct T as [|? T]; [discriminate|]). destruct T; [|discriminate].
  repeat (apply Forall_cons in Hu as [? Hu]).
  set (K := word SHA256_K (i + j)).
  assert (i = 0 \/ i = 1 \/ i = 2 \/ i = 3 \/ i = 4 \/ i = 5 \/ i = 6 \/ i = 7 \/ i = 8 \/
    i = 9 \/ i = 10 \/ i = 11 \/ i = 12 \/ i = 13 \/ i = 14 \/ i = 15) as Hcases by lia.
  unfold R, regs. fold K. clearbody K.
  destruct_or! Hcases; subst i; eval_regs;
    (split; [apply round_values; assumption|
     split; [reflexivity|repeat (apply Forall_cons; split; [first [apply is_u32_u32|assumption]|]);
             apply Forall_nil_2]]).
Qed.

(** *** The message schedule *)

Lemma expand_app n : forall w t, 0 <= t < zlen w -> word (Fips.expand n w) t = word w t.
Proof.
  induction n as [|n IH]; intros w t Ht; [reflexivity|]. cbn [Fips.expand].
  rewrite IH by (rewrite length_app; cbn [length]; lia).
  unfold word. rewrite app_nth1 by lia. reflexivity.
Qed.

Lemma length_expand n : forall w, length (Fips.expand n w) = (length w + n)%nat.
Proof.
  induction n as [|n IH]; intros w; cbn [Fips.expand]; [lia|].
  rewrite IH, length_app. cbn [length]. lia.
Qed.

Lemma expand_word n : forall w t, 16 <= zlen w -> zlen w <= t < zlen w + Z.of_nat n ->
  word (Fips.expand n w) t =
    let W := word (Fips.expand n w) in
    u32 (Fips.sigma1 (W (t - 2)) + W (t - 7) + Fips.sigma0 (W (t - 15)) + W (t - 16)).
Proof.
  induction n as [|n IH]; intros w t Hw Ht; [lia|]. cbn [Fips.expand] in *.
  set (x := u32 _). destruct (Z.eq_dec t (zlen w)) as [->|Hne].
  - cbv zeta. rewrite !expand_app by (rewrite length_app; cbn [length]; lia).
    unfold word at 1. rewrite app_nth2, Nat2Z.id, Nat.sub_diag by lia. cbn [nth]. unfold x.
    unfold word. rewrite !app_nth1 by lia. reflexivity.
  - apply IH; rewrite length_app; cbn [length]; lia.
Qed.

Lemma expand_u32 n : forall w, Forall is_u32 w -> Forall is_u32 (Fips.expand n w).
Proof.
  induction n as [|n IH]; intros w Hw; cbn [Fips.expand]; [assumption|].
  apply IH, Forall_app_2; [assumption|]. constructor; [apply u32_range|constructor].
Qed.

#[local] Opaque Fips.expand seqZ.

Lemma read32be_u32 data i : bytes_ok data -> is_u32 (read32be data i).
Proof.
  intros Hb. unfold read32be. rewrite !Z.shiftl_mul_pow2 by lia.
  pose proof (byte_at_ok data (4 * i) Hb) as B0. pose proof (byte_at_ok data (4 * i + 1) Hb) as B1.
  pose proof (byte_at_ok data (4 * i + 2) Hb) as B2. pose proof (byte_at_ok data (4 * i + 3) Hb) as B3.
  unfold is_byte, is_u32 in *.
  rewrite (lor_shifted 24) by lia.
  replace (byte_at data (4 * i) * 2 ^ 24 + byte_at data (4 * i + 1) * 2 ^ 16)
    with ((byte_at data (4 * i) * 256 + byte_at data (4 * i + 1)) * 2 ^ 16) by lia.
  rewrite (lor_shifted 16) by lia.
  replace ((byte_at data (4 * i) * 256 + byte_at data (4 * i + 1)) * 2 ^ 16 + byte_at data (4 * i + 2) * 2 ^ 8)
    with (((byte_at data (4 * i) * 256 + byte_at data (4 * i + 1)) * 256 + byte_at data (4 * i + 2)) * 2 ^ 8) by lia.
  rewrite (lor_shifted 8) by lia. lia.
Qed.

Lemma schedule_ok data :
  bytes_ok data -> length (Fips.schedule data) = 64%nat /\ Forall is_u32 (Fips.schedule data) /\
  (forall t, 0 <= t < 16 -> word (Fips.schedule data) t = read32be data t) /\
  (forall t, 16 <= t < 64 -> let W := word (Fips.schedule data) in
    W t = u32 (s1 (W (t - 2)) + W (t - 7) + s0 (W (t - 15)) + W (t - 16))).
Proof.
  intros Hb. assert (Forall is_u32 (Fips.schedule data)) as Hu.
  { unfold Fips.schedule. apply expand_u32, Forall_forall. intros x Hx.
    apply list_elem_of_In, in_map_iff in Hx as (i & <- & _). now apply read32be_u32. }
  split_and!; [unfold Fips.schedule; rewrite length_expand, length_map, length_seqZ; reflexivity
    |exact Hu| |].
  - intros t Ht. unfold Fips.schedule. rewrite expand_app by (rewrite length_map, length_seqZ; lia).
    unfold word. apply nth_lookup_Some. change (map ?f) with (fmap (M := list) f).
    rewrite list_lookup_fmap, lookup_seqZ_lt by lia. cbn. do 2 f_equal. lia.
  - intros t Ht W. unfold W, Fips.schedule.
    rewrite expand_word by (rewrite length_map, length_seqZ; lia). cbv zeta. fold (Fips.schedule data).
    assert (forall k, is_u32 (word (Fips.schedule data) k)) as HW.
    { intros k. unfold word. destruct (nth_in_or_default (Z.to_nat k) (Fips.schedule data) 0) as [Hin| ->].
      - rewrite Forall_forall in Hu. apply Hu, list_elem_of_In, Hin.
      - unfold is_u32; lia. }
    now rewrite s0_spec, s1_spec by apply HW.
Qed.

(** *** The loops of [transform] *)

Lemma fold_seqZ {A} (P : Z -> A -> Prop) (f : A -> Z -> A) (n : nat) : forall m x,
  P m x -> (forall i y, m <= i < m + Z.of_nat n -> P i y -> P (i + 1) (f y i)) ->
  P (m + Z.of_nat n) (fold_left f (seqZ m (Z.of_nat n)) x).
Proof.
  induction n as [|n IH]; intros m x Hx Hf.
  - rewrite seqZ_nil by lia. cbn. now rewrite Z.add_0_r.
  - rewrite seqZ_cons by lia. cbn [fold_left].
    replace (m + Z.of_nat (S n)) with (Z.succ m + Z.of_nat n) by lia.
    replace (Z.pred (Z.of_nat (S n))) with (Z.of_nat n) by lia.
    apply IH; [apply Hf; [lia|assumption]|]. intros i y Hi. apply Hf. lia.
Qed.

Lemma land15 m : Z.land m 15 = m mod 16.
Proof. apply (land_low 4). lia. Qed.

Lemma reg_period k i n : reg k (i + 16 * n) = reg k i.
Proof.
  unfold reg. change 7 with (2 ^ 3 - 1). rewrite !land_low by lia. change (2 ^ 3) with 8. dlia.
Qed.

Lemma word_set_same l i v : 0 <= i < zlen l -> word (set_word l i v) i = v.
Proof.
  intros Hi. unfold word, set_word. apply nth_lookup_Some, list_lookup_insert_eq. lia.
Qed.

Lemma word_set_other l i j v : 0 <= i -> 0 <= j -> i <> j -> word (set_word l i v) j = word l j.
Proof.
  intros Hi Hj Hne. unfold word, set_word. rewrite !nth_lookup, list_lookup_insert_ne by lia.
  reflexivity.
Qed.

Lemma regs_initial st : length st = 8%nat -> regs 0 st = st.
Proof.
  intros H. do 8 (destruct st as [|? st]; [discriminate|]). destruct st; [reflexivity|discriminate].
Qed.

Lemma add_state st T :
  length st = 8%nat -> length T = 8%nat ->
  [u32 (word st 0 + word T (reg 0 0)); u32 (word st 1 + word T (reg 1 0));
   u32 (word st 2 + word T (reg 2 0)); u32 (word st 3 + word T (reg 3 0));
   u32 (word st 4 + word T (reg 4 0)); u32 (word st 5 + word T (reg 5 0));
   u32 (word st 6 + word T (reg 6 0)); u32 (word st 7 + word T (reg 7 0))] =
  zip_with (fun a b => u32 (a + b)) st (regs 64 T).
Proof.
  intros H1 H2. do 8 (destruct st as [|? st]; [discriminate|]). destruct st; [|discriminate].
  do 8 (destruct T as [|? T]; [discriminate|]). destruct T; [reflexivity|discriminate].
Qed.

Section Loops.

Variables (state : list Z) (data : bytes).
Hypothesis Hstate : length state = 8%nat.
Hypothesis Hstate_u32 : Forall is_u32 state.
Hypothesis Hdata : bytes_ok data.

Let S := Fips.schedule data.

(** The state before round [t] holds the registers of FIPS and the last 16
    words of the schedule. *)
Definition round_inv (t : Z) (TW : list Z * list Z) : Prop :=
  let '(T, W) := TW in
  length T = 8%nat /\ Forall is_u32 T /\
  regs t T = fold_left Fips.round (take (Z.to_nat t) (zip SHA256_K S)) state /\
  length W = 16%nat /\
  forall m, 0 <= m < t -> t - 16 <= m -> word W (m mod 16) = word S m.

Lemma round_inv_step T W i n :
  let t := i + 16 * n in
  0 <= i < 16 -> 0 <= t < 64 -> round_inv t (T, W) ->
  round_inv (t + 1) (R i (16 * n) (word S t) T, set_word W i (word S t)).
Proof using Type*.
  intros t Hi Ht (HT & Hu & Hr & HW & HS).
  destruct (R_round i (16 * n) (word S t) T HT Hu Hi) as (Hr' & HT' & Hu').
  destruct (schedule_ok data Hdata) as (Hlen & _). fold S in Hlen.
  assert (forall i' T', regs (i' + 16 * n) T' = regs i' T') as Hper.
  { intros. unfold regs. apply map_ext. intros k. now rewrite reg_period. }
  split; [assumption|]. split; [assumption|]. split; [|split].
  - replace (t + 1) with (i + 1 + 16 * n) at 1 by (unfold t; lia). rewrite Hper, Hr'.
    unfold t in Hr. rewrite Hper in Hr. rewrite Hr. fold t.
    replace (Z.to_nat (t + 1)) with (Datatypes.S (Z.to_nat t)) by lia.
    rewrite (take_S_r _ _ (word SHA256_K t, word S t)); [now rewrite fold_left_app|].
    apply lookup_zip_with_Some. exists (word SHA256_K t), (word S t). unfold word. split_and!; [reflexivity| |].
    + destruct (nth_lookup_or_length SHA256_K (Z.to_nat t) 0) as [E|E]; [exact E|].
      change (length SHA256_K) with 64%nat in E. lia.
    + destruct (nth_lookup_or_length S (Z.to_nat t) 0) as [E|E]; [exact E|lia].
  - unfold set_word. now rewrite length_insert.
  - intros m Hm Hm16. destruct (Z.eq_dec m t) as [->|Hne].
    + replace (t mod 16) with i by (unfold t; dlia). apply word_set_same. lia.
    + rewrite word_set_other by (unfold t in *; dlia). apply HS; lia.
Qed.

Lemma R0_inv t TW : 0 <= t < 16 -> round_inv t TW -> round_inv (t + 1) (R0 data TW t).
Proof using Type*.
  intros Ht Hinv. destruct TW as [T W]. pose proof Hinv as (_ & _ & _ & HW & _).
  destruct (schedule_ok data Hdata) as (_ & _ & H16 & _). fold S in H16.
  unfold R0. rewrite word_set_same, <- H16 by lia.
  pose proof (round_inv_step T W t 0) as H. cbv zeta in H.
  rewrite Z.mul_0_r, Z.add_0_r in H. apply H; [assumption|lia|assumption].
Qed.

Lemma R2_inv i n TW :
  0 <= i < 16 -> 1 <= n < 4 -> round_inv (i + 16 * n) TW ->
  round_inv (i + 16 * n + 1) (R2 (16 * n) TW i).
Proof using Type*.
  intros Hi Hn Hinv. destruct TW as [T W]. pose proof Hinv as (_ & _ & _ & HW & HS).
  destruct (schedule_ok data Hdata) as (_ & _ & _ & H64). fold S in H64. set (t := i + 16 * n) in *.
  unfold R2. rewrite !land15. rewrite (Z.mod_small i) by lia. rewrite word_set_same by lia.
  replace (word W i) with (word S (t - 16)).
  2: { rewrite <- HS by (unfold t; lia). f_equal. unfold t. dlia. }
  replace (word W ((i - 2) mod 16)) with (word S (t - 2)).
  2: { rewrite <- HS by (unfold t; lia). f_equal. unfold t. dlia. }
  replace (word W ((i - 7) mod 16)) with (word S (t - 7)).
  2: { rewrite <- HS by (unfold t; lia). f_equal. unfold t. dlia. }
  replace (word W ((i - 15) mod 16)) with (word S (t - 15)).
  2: { rewrite <- HS by (unfold t; lia). f_equal. unfold t. dlia. }
  replace (u32 _) with (word S t) by (rewrite H64 by (unfold t; lia); cbv zeta; f_equal; lia).
  apply round_inv_step; [assumption|unfold t; lia|assumption].
Qed.

Lemma R2_block j n TW :
  j = 16 * n -> 1 <= n < 4 -> round_inv j TW ->
  round_inv (j + 16) (fold_left (R2 j) (seqZ 0 16) TW).
Proof using Type*.
  intros -> Hn H.
  replace (16 * n + 16) with (0 + Z.of_nat 16 + 16 * n) by lia.
  apply (fold_seqZ (fun i => round_inv (i + 16 * n)) (R2 (16 * n)) 16 0 TW H).
  intros i y Hi Hy. replace (i + 1 + 16 * n) with (i + 16 * n + 1) by lia.
  apply R2_inv; [lia|lia|assumption].
Qed.

Lemma R0_block : round_inv 16 (fold_left (R0 data) (seqZ 0 16) (state, repeat 0 16)).
Proof using Type*.
  apply (fold_seqZ round_inv (R0 data) 16 0).
  - split_and!; try assumption; try reflexivity; [|intros; lia]. now apply regs_initial.
  - intros i y Hi. apply R0_inv. lia.
Qed.

(** The compression function of the code is the one of FIPS. *)
Lemma transform_compress : transform state data = Fips.compress state data.
Proof using Type*.
  unfold transform. pose proof R0_block as H16.
  generalize dependent (fold_left (R0 data) (seqZ 0 16) (state, repeat 0 16)). intros TW H16.
  assert (round_inv 64 (fold_left (fun TW j => fold_left (R2 j) (seqZ 0 16) TW) [16; 32; 48] TW)) as H64.
  { cbn [fold_left]. apply (R2_block 48 3); [reflexivity|lia|].
    apply (R2_block 32 2); [reflexivity|lia|]. apply (R2_block 16 1); [reflexivity|lia|assumption]. }
  generalize dependent (fold_left (fun TW j => fold_left (R2 j) (seqZ 0 16) TW) [16; 32; 48] TW).
  intros [T W] (HT & _ & Hr & _). destruct (schedule_ok data Hdata) as (Hlen & _). fold S in Hlen.
  rewrite take_ge in Hr by (rewrite length_zip_with, Hlen; cbn; lia).
  unfold Fips.compress. fold S. rewrite <- Hr. now apply add_state.
Qed.

End Loops.

End Rounds.

(** ** Streaming *)

Section Streaming.

#[local] Opaque transform Fips.compress.

Definition words_ok (st : list Z) : Prop := length st = 8%nat /\ Forall is_u32 st.

Lemma compress_ok st blk : words_ok st -> words_ok (Fips.compress st blk).
Proof.
  #[local] Transparent Fips.compress.
  intros [Hl Hu]. unfold Fips.compress. set (r := fold_left _ _ _).
  assert (length r = 8%nat) as Hr.
  { unfold r. generalize (zip SHA256_K (Fips.schedule blk)). intros l. clear r Hu.
    revert st Hl. induction l as [|[k w] l IH]; intros st Hl; [assumption|]. cbn [fold_left].
    apply IH. do 8 (destruct st as [|? st]; [discriminate|]). destruct st; [reflexivity|discriminate]. }
  split; [rewrite length_zip_with; lia|]. clearbody r. clear Hu.
  revert r Hl Hr. intros r _ _. apply Forall_forall. intros x Hx.
  apply list_elem_of_lookup in Hx as (i & Hx). apply lookup_zip_with_Some in Hx as (a & b & -> & _).
  apply u32_range.
Qed.

#[local] Opaque Fips.compress.

Lemma blocks_ok n : forall st msg, words_ok st -> words_ok (Fips.blocks n st msg).
Proof. induction n; intros st msg H; cbn [Fips.blocks]; auto using compress_ok. Qed.

Lemma blocks_snoc n : forall st full blk rest,
  length full = (64 * n)%nat -> length blk = 64%nat ->
  Fips.blocks (S n) st (full ++ blk ++ rest) = Fips.compress (Fips.blocks n st full) blk.
Proof.
  induction n as [|n IH]; intros st full blk rest Hf Hb.
  - destruct full; [|discriminate]. cbn [Fips.blocks app]. rewrite <- Hb, take_app_length. reflexivity.
  - change (Fips.blocks (S (S n)) st (full ++ blk ++ rest)) with
      (Fips.blocks (S n) (Fips.compress st (take 64 (full ++ blk ++ rest))) (drop 64 (full ++ blk ++ rest))).
    rewrite take_app_le, drop_app_le by lia. cbn [Fips.blocks] in IH |- *.
    apply IH; [rewrite length_drop; lia|assumption].
Qed.

(** The state stands for the message read so far; [pos] of its last bytes are
    in the buffer. *)
Definition sha_inv (c : sha256_check) (msg : bytes) (pos : Z) : Prop :=
  exists n full part, msg = full ++ part /\ length full = (64 * n)%nat /\ zlen part = pos /\
    pos <= 64 /\ bytes_ok part /\
    sha_state c = Fips.blocks n sha256_initial full /\ length (sha_buffer c) = 64%nat /\
    take (length part) (sha_buffer c) = part.

Lemma store_spec buffer start src :
  0 <= start -> start + zlen src <= zlen buffer ->
  length (store buffer start src) = length buffer /\
  take (Z.to_nat start + length src) (store buffer start src) = take (Z.to_nat start) buffer ++ src.
Proof.
  intros Hs Hl. unfold store. split.
  - rewrite !length_app, length_take, length_drop. lia.
  - rewrite app_assoc. rewrite take_app_length'; [reflexivity|].
    rewrite length_app, length_take. lia.
Qed.

(** Bytes are appended to the buffer. *)
Lemma sha_inv_store c msg pos src :
  sha_inv c msg pos -> pos + zlen src <= 64 -> bytes_ok src ->
  forall size, sha_inv {| sha_state := sha_state c; sha_size := size;
                          sha_buffer := store (sha_buffer c) pos src |} (msg ++ src) (pos + zlen src).
Proof.
  intros (n & full & part & -> & Hf & <- & Hp & Hb & Hst & Hlb & Ht) Hs Hsrc size.
  destruct (store_spec (sha_buffer c) (zlen part) src) as [L T]; [lia|lia|].
  exists n, full, (part ++ src). cbn [sha_state sha_buffer]. split_and!.
  - now rewrite app_assoc.
  - assumption.
  - rewrite length_app. lia.
  - assumption.
  - now apply Forall_app_2.
  - assumption.
  - lia.
  - rewrite length_app. rewrite Nat2Z.id in T. rewrite T. now rewrite Ht.
Qed.

(** A full buffer is compressed. *)
Lemma sha_inv_process c msg : sha_inv c msg 64 -> sha_inv (process c) msg 0.
Proof.
  intros (n & full & part & -> & Hf & Hp & _ & Hb & Hst & Hlb & Ht).
  assert (length part = 64%nat) as Hp' by lia.
  assert (sha_buffer c = part) as Eb.
  { rewrite <- Ht. rewrite take_ge; [reflexivity|lia]. }
  exists (S n), (full ++ part), []. cbn [process sha_state sha_buffer]. split_and!.
  - now rewrite app_nil_r.
  - rewrite length_app. lia.
  - reflexivity.
  - lia.
  - constructor.
  - assert (words_ok (sha_state c)) as [W1 W2].
    { rewrite Hst. apply blocks_ok. split; [reflexivity|]. repeat constructor; unfold is_u32; lia. }
    rewrite Eb, transform_compress, Hst by assumption.
    rewrite <- (app_nil_r part) at 2. symmetry. now apply blocks_snoc.
  - assumption.
  - reflexivity.
Qed.

Lemma land63 m : Z.land m 0x3F = m mod 64.
Proof. apply (land_low 6). lia. Qed.

Lemma u64_mod64 m : u64 m mod 64 = m mod 64.
Proof. unfold u64. dlia. Qed.

Lemma update_loop_inv fuel : forall buf c msg,
  (length buf <= fuel)%nat -> bytes_ok buf ->
  sha_inv c msg (zlen msg mod 64) -> sha_size c = u64 (zlen msg) ->
  let c' := sha256_update_loop fuel buf c in
  sha_inv c' (msg ++ buf) (zlen (msg ++ buf) mod 64) /\ sha_size c' = u64 (zlen (msg ++ buf)).
Proof.
  induction fuel as [|fuel IH]; intros buf c msg Hf Hb Hi Hs; cbn [sha256_update_loop].
  { destruct buf; [|cbn in Hf; lia]. rewrite app_nil_r. auto. }
  destruct (Z.eqb_spec (zlen buf) 0) as [E|E].
  { destruct buf; [|cbn in E; lia]. rewrite app_nil_r. auto. }
  rewrite land63, Hs, u64_mod64. set (pos := zlen msg mod 64) in *.
  assert (0 <= pos < 64) as Hpos by (apply Z.mod_pos_bound; lia).
  set (k := if _ >? _ then _ else _).
  assert (0 < k <= zlen buf /\ k <= 64 - pos) as Hk.
  { unfold k. destruct (Z.gtb_spec (64 - pos) (zlen buf)); lia. }
  clearbody k.
  assert (buf = slice 0 k buf ++ from k buf) as Eb by (symmetry; apply take_drop).
  assert (zlen (slice 0 k buf) = k) as Lk.
  { unfold slice, from. rewrite drop_0, length_take. lia. }
  pose proof (Forall_take _ (Z.to_nat k) _ Hb) as Hb1. pose proof (Forall_drop _ (Z.to_nat k) _ Hb) as Hb2.
  change (take (Z.to_nat k) buf) with (slice 0 k buf) in Hb1.
  change (drop (Z.to_nat k) buf) with (from k buf) in Hb2.
  pose proof (sha_inv_store c msg pos (slice 0 k buf) Hi ltac:(lia) Hb1 (u64 (u64 (zlen msg) + k))) as Hi'.
  rewrite Lk in Hi'.
  assert (u64 (u64 (zlen msg) + k) = u64 (zlen (msg ++ slice 0 k buf))) as Esz.
  { rewrite length_app, Nat2Z.inj_add, Lk. apply Zplus_mod_idemp_l. }
  cbn [sha_size]. rewrite land63, u64_mod64.
  assert ((u64 (zlen msg) + k) mod 64 = (pos + k) mod 64) as Em by (unfold pos, u64; dlia).
  rewrite Em. replace (msg ++ buf) with ((msg ++ slice 0 k buf) ++ from k buf)
    by (rewrite <- app_assoc, <- Eb; reflexivity).
  apply IH; [unfold from; rewrite length_drop; lia|assumption| |].
  - assert (zlen (msg ++ slice 0 k buf) mod 64 = (pos + k) mod 64) as ->.
    { rewrite length_app, Nat2Z.inj_add, Lk. unfold pos. dlia. }
    destruct (Z.eqb_spec ((pos + k) mod 64) 0) as [E0|E0].
    + assert (pos + k = 64) as E64 by dlia. rewrite E64 in *. apply sha_inv_process. exact Hi'.
    + rewrite Z.mod_small by dlia. exact Hi'.
  - rewrite <- Esz. now case_if.
Qed.

Lemma pad_loop_inv fuel : forall c msg pos,
  1 <= pos <= 64 -> (56 - pos) mod 64 < Z.of_nat fuel -> sha_inv c msg pos ->
  let c' := sha256_pad_loop fuel pos c in
  sha_inv c' (msg ++ repeat 0 (Z.to_nat ((56 - pos) mod 64))) 56 /\ sha_size c' = sha_size c.
Proof.
  induction fuel as [|fuel IH]; intros c msg pos Hpos Hf Hi; [dlia|]. cbn [sha256_pad_loop].
  change (64 - 8) with 56. destruct (Z.eqb_spec pos 56) as [->|Hne].
  - change (Z.to_nat ((56 - 56) mod 64)) with 0%nat. cbn [repeat]. rewrite app_nil_r. auto.
  - assert (Z.to_nat ((56 - pos) mod 64) = S (Z.to_nat ((56 - (pos mod 64 + 1)) mod 64))) as -> by dlia.
    cbn [repeat]. rewrite cons_middle, app_assoc.
    destruct (Z.eqb_spec pos 64) as [->|Hne2].
    + apply sha_inv_process in Hi. change (64 mod 64) with 0.
      pose proof (sha_inv_store (process c) msg 0 [0] Hi ltac:(cbn; lia) ltac:(bytes_ok_tac)
        (sha_size (process c))) as Hi'.
      refine (IH _ (msg ++ [0]) (0 + 1) _ _ Hi'); [lia|dlia].
    + rewrite (Z.mod_small pos) by lia.
      pose proof (sha_inv_store c msg pos [0] Hi ltac:(cbn; lia) ltac:(bytes_ok_tac) (sha_size c)) as Hi'.
      refine (IH _ (msg ++ [0]) (pos + 1) _ _ Hi'); [lia|dlia].
Qed.

Lemma write64be_bytes v : bytes_ok (write64be v).
Proof. unfold write64be, write32be. repeat constructor; apply u8_range. Qed.

(** The digest of the whole message. *)
Lemma finish_spec c msg :
  bytes_ok msg -> sha_inv c msg (zlen msg mod 64) -> sha_size c = u64 (zlen msg) ->
  slice 0 32 (sha_buffer (lzma_sha256_finish c)) = Fips.sha256_ref msg.
Proof.
  intros Hmsg Hi Hs. unfold lzma_sha256_finish. rewrite land63, Hs, u64_mod64.
  set (pos := zlen msg mod 64) in *.
  assert (0 <= pos < 64) as Hpos by (apply Z.mod_pos_bound; lia).
  pose proof (sha_inv_store c msg pos [0x80] Hi ltac:(cbn; lia) ltac:(bytes_ok_tac) (u64 (zlen msg))) as Hi1.
  destruct (pad_loop_inv 65 _ _ (pos + 1) ltac:(lia) ltac:(dlia) Hi1) as [Hi2 Hs2].
  set (c2 := sha256_pad_loop 65 (pos + 1) _) in *. cbn [sha_size] in Hs2. clearbody c2.
  rewrite Hs2.
  pose proof (sha_inv_store c2 _ 56 (write64be (u64 (u64 (zlen msg) * 8))) Hi2 ltac:(cbn; lia)
    (write64be_bytes _) (u64 (u64 (zlen msg) * 8))) as Hi3.
  change (56 + zlen (write64be (u64 (u64 (zlen msg) * 8)))) with 64 in Hi3.
  apply sha_inv_process in Hi3. set (c3 := process _) in *. clearbody c3.
  assert (u64 (u64 (zlen msg) * 8) = u64 (zlen msg * 8)) as Esz by apply Zmult_mod_idemp_l.
  assert (((msg ++ [128]) ++ repeat 0 (Z.to_nat ((56 - (pos + 1)) mod 64))) ++
    write64be (u64 (u64 (zlen msg) * 8)) = msg ++ Fips.pad (zlen msg)) as Epad.
  { unfold Fips.pad. rewrite Esz, <- !app_assoc. do 4 f_equal. unfold pos. f_equal. dlia. }
  rewrite Epad in Hi3. destruct Hi3 as (n & full & part & Em & Hf & Hp & _ & _ & Hst & Hlb & _).
  assert (part = []) as -> by (destruct part; [reflexivity|cbn in Hp; lia]). rewrite app_nil_r in Em.
  unfold Fips.sha256_ref. rewrite Em, Hf, Nat.mul_comm, Nat.div_mul by lia. rewrite <- Hst.
  assert (words_ok (sha_state c3)) as [W _].
  { rewrite Hst. apply blocks_ok. split; [reflexivity|]. repeat constructor; unfold is_u32; lia. }
  clear -W Hlb. destruct c3 as [st size buf]. cbn [sha_state sha_buffer] in *.
  do 8 (destruct st as [|? st]; [discriminate|]). destruct st; [|discriminate]. reflexivity.
Qed.

Lemma update_inv chunks : forall c msg,
  Forall bytes_ok chunks -> sha_inv c msg (zlen msg mod 64) -> sha_size c = u64 (zlen msg) ->
  let c' := fold_left (fun c buf => lzma_sha256_update buf c) chunks c in
  sha_inv c' (msg ++ concat chunks) (zlen (msg ++ concat chunks) mod 64) /\
  sha_size c' = u64 (zlen (msg ++ concat chunks)).
Proof.
  induction chunks as [|buf chunks IH]; intros c msg Hb Hi Hs; cbn [fold_left concat].
  - rewrite app_nil_r. auto.
  - apply Forall_cons in Hb as [Hb Hbs].
    destruct (update_loop_inv (length buf) buf c msg ltac:(lia) Hb Hi Hs) as [Hi' Hs'].
    rewrite app_assoc. now apply IH.
Qed.

(** The digest does not depend on how the message is cut. *)
Lemma sha256_streaming c chunks :
  length (sha_buffer c) = 64%nat -> Forall bytes_ok chunks ->
  sha256 c chunks = Fips.sha256_ref (concat chunks).
Proof.
  intros Hl Hb. unfold sha256.
  assert (sha_inv (lzma_sha256_init c) [] (zlen (@nil Z) mod 64)) as H0.
  { exists 0%nat, [], []. split_and!; try reflexivity; try assumption; [vm_compute; discriminate|constructor]. }
  destruct (update_inv chunks _ [] Hb H0 eq_refl) as [Hi Hs]. cbn [app] in *.
  apply finish_spec; [|assumption|assumption].
  clear -Hb. induction Hb; cbn [concat]; [constructor|now apply Forall_app_2].
Qed.

Lemma length_sha256_ref msg : length (Fips.sha256_ref msg) = 32%nat.
Proof.
  unfold Fips.sha256_ref. set (st := Fips.blocks _ _ _).
  assert (words_ok st) as [W _].
  { apply blocks_ok. split; [reflexivity|]. repeat constructor; unfold is_u32; lia. }
  clearbody st. do 8 (destruct st as [|? st]; [discriminate|]). destruct st; [|discriminate]. reflexivity.
Qed.

End Streaming.

(** ** Property *)

(** C15: SHA-256.  Whatever was in the buffer before, and however the message
    is cut into pieces, initialising the state, updating it with the pieces and
    finishing it leaves the digest that FIPS 180-4 defines for the message in
    the buffer. *)
Theorem sha256_correct c chunks :
  length (sha_buffer c) = 64%nat -> Forall bytes_ok chunks ->
  sha256 c chunks = Fips.sha256_ref (concat chunks).
Proof. apply sha256_streaming. Qed.

Lemma sha256_correct_witness :
  sha256 check_example [[1; 2]; []; [3]] = Fips.sha256_ref [1; 2; 3].
Proof.
  apply (sha256_correct check_example [[1; 2]; []; [3]]); [reflexivity|].
  apply Forall_cons_2; [bytes_ok_tac|]. apply Forall_cons_2; [constructor|].
  apply Forall_cons_2; [bytes_ok_tac|constructor].
Defined.
