(* ===== verification/Check.v ===== *)
(** * Check types of the .xz container

    [lib/archive/xz/src/liblzma/check/check.c]: which integrity checks exist,
    the sizes of their fields, and the state of a check that is being
    calculated, in the configuration the build uses (CRC32, CRC64 and SHA-256
    enabled). *)

From S2P Require Import Prelude Crc Sha256.

(** [lzma_check] of [api/lzma/check.h], as the [unsigned int] the code casts
    it to. *)
Definition LZMA_CHECK_NONE : Z := 0.
Definition LZMA_CHECK_CRC32 : Z := 1.
Definition LZMA_CHECK_CRC64 : Z := 4.
Definition LZMA_CHECK_SHA256 : Z := 10.
Definition LZMA_CHECK_ID_MAX : Z := 15.

Definition available_checks : list bool :=
  [true; true; false; false; true; false; false; false; false; false;
   true; false; false; false; false; false].

Definition lzma_check_is_supported (type : Z) : bool :=
  if type >? LZMA_CHECK_ID_MAX then false
  else nth (Z.to_nat type) available_checks false.

Definition check_sizes : list Z := [0; 4; 4; 4; 8; 8; 8; 16; 16; 16; 32; 32; 32; 64; 64; 64].

Definition lzma_check_size (type : Z) : Z :=
  if type >? LZMA_CHECK_ID_MAX then UINT32_MAX
  else nth (Z.to_nat type) check_sizes 0.

(** ** The state of a check

    [lzma_check_state]: the 64 bytes of [buffer], and the members of the union
    [state].  A check type reads only the members that it has written. *)

Record lzma_check_state := {
  chk_sha256 : sha256_check;
  chk_crc32 : Z;
  chk_crc64 : Z;
}.

(** [check->buffer.u8] *)
Definition chk_buffer (c : lzma_check_state) : bytes := sha_buffer (chk_sha256 c).

Definition write64le (v : Z) : bytes := write32le (u32 v) ++ write32le (u32 (Z.shiftr v 32)).

Definition lzma_check_init (c : lzma_check_state) (type : Z) : lzma_check_state :=
  if type =? LZMA_CHECK_CRC32 then
    {| chk_sha256 := chk_sha256 c; chk_crc32 := 0; chk_crc64 := chk_crc64 c |}
  else if type =? LZMA_CHECK_CRC64 then
    {| chk_sha256 := chk_sha256 c; chk_crc32 := chk_crc32 c; chk_crc64 := 0 |}
  else if type =? LZMA_CHECK_SHA256 then
    {| chk_sha256 := lzma_sha256_init (chk_sha256 c); chk_crc32 := chk_crc32 c;
       chk_crc64 := chk_crc64 c |}
  else c.

Definition lzma_check_update (c : lzma_check_state) (type : Z) (buf : bytes) : lzma_check_state :=
  if type =? LZMA_CHECK_CRC32 then
    {| chk_sha256 := chk_sha256 c; chk_crc32 := lzma_crc32 buf (chk_crc32 c);
       chk_crc64 := chk_crc64 c |}
  else if type =? LZMA_CHECK_CRC64 then
    {| chk_sha256 := chk_sha256 c; chk_crc32 := chk_crc32 c;
       chk_crc64 := lzma_crc64 buf (chk_crc64 c) |}
  else if type =? LZMA_CHECK_SHA256 then
    {| chk_sha256 := lzma_sha256_update buf (chk_sha256 c); chk_crc32 := chk_crc32 c;
       chk_crc64 := chk_crc64 c |}
  else c.

Definition store_check (c : lzma_check_state) (value : bytes) : lzma_check_state :=
  {| chk_sha256 := {| sha_state := sha_state (chk_sha256 c); sha_size := sha_size (chk_sha256 c);
                      sha_buffer := store (chk_buffer c) 0 value |};
     chk_crc32 := chk_crc32 c; chk_crc64 := chk_crc64 c |}.

Definition lzma_check_finish (c : lzma_check_state) (type : Z) : lzma_check_state :=
  if type =? LZMA_CHECK_CRC32 then store_check c (write32le (chk_crc32 c))
  else if type =? LZMA_CHECK_CRC64 then store_check c (write64le (chk_crc64 c))
  else if type =? LZMA_CHECK_SHA256 then
    {| chk_sha256 := lzma_sha256_finish (chk_sha256 c); chk_crc32 := chk_crc32 c;
       chk_crc64 := chk_crc64 c |}
  else c.

(** The Check field of the data in [chunks]: what the Block coders compare or
    write, the first [lzma_check_size(type)] bytes of the buffer. *)
Definition check_field (c : lzma_check_state) (type : Z) (chunks : list bytes) : bytes :=
  slice 0 (lzma_check_size type) (chk_buffer (lzma_check_finish
    (fold_left (fun c buf => lzma_check_update c type buf) chunks (lzma_check_init c type)) type)).

(** A statement about a valid check type, decided by running it on the 16 of
    them. *)
Lemma check_sweep (P : Z -> bool) :
  forallb (fun n => P (Z.of_nat n)) (seq 0 16) = true ->
  forall c, 0 <= c <= LZMA_CHECK_ID_MAX -> P c = true.
Proof.
  unfold LZMA_CHECK_ID_MAX. intros Hall c Hc. rewrite forallb_forall in Hall.
  rewrite <- (Z2Nat.id c) by lia. apply Hall, in_seq. lia.
Qed.

Lemma lzma_check_size_range c :
  0 <= c <= LZMA_CHECK_ID_MAX -> 0 <= lzma_check_size c <= 64.
Proof.
  intros Hc.
  assert (((0 <=? lzma_check_size c) && (lzma_check_size c <=? 64)) = true).
  { now apply (check_sweep (fun c => (0 <=? lzma_check_size c) && (lzma_check_size c <=? 64))). }
  b2p. lia.
Qed.

Definition check_state_example : lzma_check_state :=
  {| chk_sha256 := check_example; chk_crc32 := 5; chk_crc64 := 6 |}.

(** The function that a check type stands for. *)
Definition check_ref (type : Z) (data : bytes) : bytes :=
  if type =? LZMA_CHECK_CRC32 then write32le (lzma_crc32 data 0)
  else if type =? LZMA_CHECK_CRC64 then write64le (lzma_crc64 data 0)
  else if type =? LZMA_CHECK_SHA256 then Fips.sha256_ref data
  else [].

#[local] Opaque lzma_crc32 lzma_crc64 lzma_sha256_update lzma_sha256_finish lzma_sha256_init
  Fips.sha256_ref.

Section Streaming.

Lemma concat_bytes_ok (chunks : list bytes) : Forall bytes_ok chunks -> bytes_ok (concat chunks).
Proof. induction 1; cbn [concat]; [constructor|now apply Forall_app_2]. Qed.

Lemma update_crc32 chunks : forall c, Forall bytes_ok chunks -> is_u32 (chk_crc32 c) ->
  fold_left (fun c buf => lzma_check_update c LZMA_CHECK_CRC32 buf) chunks c =
  {| chk_sha256 := chk_sha256 c; chk_crc32 := lzma_crc32 (concat chunks) (chk_crc32 c);
     chk_crc64 := chk_crc64 c |}.
Proof.
  induction chunks as [|buf chunks IH]; intros c Hb Hc; cbn [fold_left concat].
  - rewrite crc32_nil by assumption. now destruct c.
  - apply Forall_cons in Hb as [Hb Hbs]. rewrite IH; [|assumption|].
    + cbn. now rewrite crc32_app by (auto using concat_bytes_ok).
    + cbn. now apply lzma_crc32_u32.
Qed.

Lemma update_crc64 chunks : forall c, Forall bytes_ok chunks -> is_u64 (chk_crc64 c) ->
  fold_left (fun c buf => lzma_check_update c LZMA_CHECK_CRC64 buf) chunks c =
  {| chk_sha256 := chk_sha256 c; chk_crc32 := chk_crc32 c;
     chk_crc64 := lzma_crc64 (concat chunks) (chk_crc64 c) |}.
Proof.
  induction chunks as [|buf chunks IH]; intros c Hb Hc; cbn [fold_left concat].
  - rewrite crc64_nil by assumption. now destruct c.
  - apply Forall_cons in Hb as [Hb Hbs]. rewrite IH; [|assumption|].
    + cbn. now rewrite crc64_app by (auto using concat_bytes_ok).
    + cbn. now apply lzma_crc64_u64.
Qed.

Lemma update_sha256 chunks : forall c,
  fold_left (fun c buf => lzma_check_update c LZMA_CHECK_SHA256 buf) chunks c =
  {| chk_sha256 := fold_left (fun c buf => lzma_sha256_update buf c) chunks (chk_sha256 c);
     chk_crc32 := chk_crc32 c; chk_crc64 := chk_crc64 c |}.
Proof.
  induction chunks as [|buf chunks IH]; intros c; cbn [fold_left]; [now destruct c|].
  rewrite IH. reflexivity.
Qed.

Lemma update_none type chunks : forall c,
  type <> LZMA_CHECK_CRC32 -> type <> LZMA_CHECK_CRC64 -> type <> LZMA_CHECK_SHA256 ->
  fold_left (fun c buf => lzma_check_update c type buf) chunks c = c.
Proof.
  intros c H1 H2 H3. induction chunks as [|buf chunks IH]; cbn [fold_left]; [reflexivity|].
  rewrite <- IH at 2. f_equal. unfold lzma_check_update.
  bfalse (type =? LZMA_CHECK_CRC32). bfalse (type =? LZMA_CHECK_CRC64).
  now bfalse (type =? LZMA_CHECK_SHA256).
Qed.

(** The value is stored at the beginning of the buffer. *)
Lemma slice_store buffer value n :
  n = zlen value -> slice 0 n (store buffer 0 value) = value.
Proof.
  intros ->. unfold slice, from, store. rewrite drop_0. cbn [take app].
  change (take (Z.to_nat 0) buffer) with (@nil Z). cbn [app].
  now rewrite Nat2Z.id, take_app_length.
Qed.


Lemma check_field_ref c type chunks :
  0 <= type -> lzma_check_is_supported type = true ->
  length (chk_buffer c) = 64%nat -> Forall bytes_ok chunks ->
  check_field c type chunks = check_ref type (concat chunks) /\
  zlen (check_field c type chunks) = lzma_check_size type.
Proof.
  intros H0 Hs Hl Hb.
  assert (type = 0 \/ type = LZMA_CHECK_CRC32 \/ type = LZMA_CHECK_CRC64 \/ type = LZMA_CHECK_SHA256)
    as Hcases.
  { unfold lzma_check_is_supported in Hs. destruct (type >? LZMA_CHECK_ID_MAX) eqn:Emax; [discriminate|].
    b2p. assert (implb (nth (Z.to_nat type) available_checks false)
      ((type =? 0) || (type =? 1) || (type =? 4) || (type =? 10)) = true) as H.
    { apply (check_sweep (fun type => implb (nth (Z.to_nat type) available_checks false)
      ((type =? 0) || (type =? 1) || (type =? 4) || (type =? 10)))); [reflexivity|lia]. }
    rewrite Hs in H. cbn in H. rewrite !orb_true_iff in H.
    unfold LZMA_CHECK_CRC32, LZMA_CHECK_CRC64, LZMA_CHECK_SHA256. destruct_or! H; b2p; auto. }
  unfold check_field. destruct Hcases as [-> | [-> | [-> | ->]]].
  - split; [reflexivity|]. rewrite update_none by discriminate. reflexivity.
  - rewrite update_crc32; [|assumption|cbn; unfold is_u32; lia]. cbn [lzma_check_init].
    change (lzma_check_size LZMA_CHECK_CRC32) with 4.
    unfold lzma_check_finish, store_check, chk_buffer. cbn. rewrite slice_store by reflexivity.
    split; reflexivity.
  - rewrite update_crc64; [|assumption|cbn; unfold is_u64; lia]. cbn [lzma_check_init].
    change (lzma_check_size LZMA_CHECK_CRC64) with 8.
    unfold lzma_check_finish, store_check, chk_buffer. cbn. rewrite slice_store by reflexivity.
    split; reflexivity.
  - rewrite update_sha256. change (lzma_check_size LZMA_CHECK_SHA256) with 32.
    unfold lzma_check_finish, chk_buffer in *. cbn.
    pose proof (sha256_streaming (chk_sha256 c) chunks Hl Hb) as E. unfold sha256 in E. rewrite E.
    split; [reflexivity|]. now rewrite length_sha256_ref.
Qed.

End Streaming.

(** ** Property *)

(** the check of a Block.  For every supported check type, initialising
    the state, updating it with the data in pieces of any size and finishing
    it leaves in the buffer the check value of the whole data: nothing, the
    CRC32 or CRC64 in little endian order, or the SHA-256 digest. *)
Theorem check_streaming c type chunks :
  0 <= type -> lzma_check_is_supported type = true ->
  length (chk_buffer c) = 64%nat -> Forall bytes_ok chunks ->
  check_field c type chunks = check_ref type (concat chunks) /\
  zlen (check_field c type chunks) = lzma_check_size type.
Proof. apply check_field_ref. Qed.

Lemma check_streaming_witness :
  zlen (check_field check_state_example LZMA_CHECK_SHA256 [[1; 2]; [3]]) = 32.
Proof.
  apply (check_streaming check_state_example LZMA_CHECK_SHA256 [[1; 2]; [3]]);
    [unfold LZMA_CHECK_SHA256; lia|reflexivity|reflexivity|].
  apply Forall_cons_2; [bytes_ok_tac|]. apply Forall_cons_2; [bytes_ok_tac|constructor].
Defined.
