(* ===== verification/StreamFlags.v ===== *)
(** * Stream Header and Stream Footer of the .xz container

    [common/stream_flags_common.c], [stream_flags_common.h],
    [stream_flags_encoder.c] and [stream_flags_decoder.c] of liblzma.  The
    encoders are functions from the options to the 12 bytes they store in
    [out], the decoders read the 12 bytes at [in]. *)

From S2P Require Import Prelude Crc Vli Check.

Definition LZMA_STREAM_HEADER_SIZE : Z := 12.
Definition LZMA_STREAM_FLAGS_SIZE : Z := 2.
Definition LZMA_BACKWARD_SIZE_MIN : Z := 4.
Definition LZMA_BACKWARD_SIZE_MAX : Z := 17179869184.

Definition lzma_header_magic : bytes := [0xFD; 0x37; 0x7A; 0x58; 0x5A; 0x00].
Definition lzma_footer_magic : bytes := [0x59; 0x5A].

Record lzma_stream_flags := {
  version : Z;
  backward_size : Z;
  check : Z;
}.

Definition is_backward_size_valid (options : lzma_stream_flags) : bool :=
  (backward_size options >=? LZMA_BACKWARD_SIZE_MIN)
  && (backward_size options <=? LZMA_BACKWARD_SIZE_MAX)
  && (Z.land (backward_size options) 3 =? 0).

(** ** Encoding *)

(** The two bytes of the Stream Flags field; [None] is the [true] the C
    function returns for a check type that does not exist. *)
Definition stream_flags_encode (options : lzma_stream_flags) : option bytes :=
  if check options >? LZMA_CHECK_ID_MAX then None
  else Some [0x00; u8 (check options)].

Definition lzma_stream_header_encode (options : lzma_stream_flags) : res bytes :=
  if negb (version options =? 0) then Err LZMA_OPTIONS_ERROR
  else
    match stream_flags_encode options with
    | None => Err LZMA_PROG_ERROR
    | Some flags =>
        let crc := lzma_crc32 flags 0 in
        Ok (lzma_header_magic ++ flags ++ write32le crc)
    end.

Definition lzma_stream_footer_encode (options : lzma_stream_flags) : res bytes :=
  if negb (version options =? 0) then Err LZMA_OPTIONS_ERROR
  else if negb (is_backward_size_valid options) then Err LZMA_PROG_ERROR
  else
    let size := write32le (u32 (backward_size options / 4 - 1)) in
    match stream_flags_encode options with
    | None => Err LZMA_PROG_ERROR
    | Some flags =>
        let crc := lzma_crc32 (size ++ flags) 0 in
        Ok (write32le crc ++ size ++ flags ++ lzma_footer_magic)
    end.

(** ** Decoding *)

(** The check type of the Stream Flags field, [None] if a reserved bit is
    set; the decoder sets the version to 0. *)
Definition stream_flags_decode (input : bytes) : option Z :=
  if negb (byte_at input 0 =? 0x00) || negb (Z.land (byte_at input 1) 0xF0 =? 0)
  then None
  else Some (Z.land (byte_at input 1) 0x0F).

Definition lzma_stream_header_decode (input : bytes) : res lzma_stream_flags :=
  if negb (bool_decide (slice 0 6 input = lzma_header_magic)) then Err LZMA_FORMAT_ERROR
  else
    let crc := lzma_crc32 (slice 6 LZMA_STREAM_FLAGS_SIZE input) 0 in
    if negb (crc =? read32le (from (6 + LZMA_STREAM_FLAGS_SIZE) input))
    then Err LZMA_DATA_ERROR
    else
      match stream_flags_decode (from 6 input) with
      | None => Err LZMA_OPTIONS_ERROR
      | Some check =>
          Ok {| version := 0; backward_size := LZMA_VLI_UNKNOWN; check := check |}
      end.

Definition lzma_stream_footer_decode (input : bytes) : res lzma_stream_flags :=
  if negb (bool_decide (slice (4 * 2 + LZMA_STREAM_FLAGS_SIZE) 2 input = lzma_footer_magic))
  then Err LZMA_FORMAT_ERROR
  else
    let crc := lzma_crc32 (slice 4 (4 + LZMA_STREAM_FLAGS_SIZE) input) 0 in
    if negb (crc =? read32le input) then Err LZMA_DATA_ERROR
    else
      match stream_flags_decode (from (4 * 2) input) with
      | None => Err LZMA_OPTIONS_ERROR
      | Some check =>
          let backward_size := read32le (from 4 input) in
          Ok {| version := 0;
                backward_size := u64 ((backward_size + 1) * 4);
                check := check |}
      end.

(** ** Comparison *)

Definition lzma_stream_flags_compare (a b : lzma_stream_flags) : lzma_ret :=
  if negb (version a =? 0) || negb (version b =? 0) then LZMA_OPTIONS_ERROR
  else if (check a >? LZMA_CHECK_ID_MAX) || (check b >? LZMA_CHECK_ID_MAX)
  then LZMA_PROG_ERROR
  else if negb (check a =? check b) then LZMA_DATA_ERROR
  else if negb (backward_size a =? LZMA_VLI_UNKNOWN)
          && negb (backward_size b =? LZMA_VLI_UNKNOWN) then
    if negb (is_backward_size_valid a) || negb (is_backward_size_valid b)
    then LZMA_PROG_ERROR
    else if negb (backward_size a =? backward_size b) then LZMA_DATA_ERROR
    else LZMA_OK
  else LZMA_OK.

Example header_ex :
  lzma_stream_header_encode {| version := 0; backward_size := LZMA_VLI_UNKNOWN; check := 4 |} =
  Ok [0xFD; 0x37; 0x7A; 0x58; 0x5A; 0x00; 0x00; 0x04; 0xE6; 0xD6; 0xB4; 0x46].
Proof. vm_compute. reflexivity. Qed.

#[local] Opaque lzma_crc32.

(** ** Lemmas on the Stream Flags field *)

Section Flags.

Lemma crc_of_bytes_u32 l : bytes_ok l -> is_u32 (lzma_crc32 l 0).
Proof. intros. apply lzma_crc32_u32; [assumption|]. unfold is_u32; lia. Qed.

Lemma check_byte c :
  0 <= c <= LZMA_CHECK_ID_MAX ->
  u8 c = c /\ Z.land c 0xF0 = 0 /\ Z.land c 0x0F = c /\ (c >? LZMA_CHECK_ID_MAX) = false.
Proof.
  intros Hc.
  assert (((u8 c =? c) && (Z.land c 0xF0 =? 0) && (Z.land c 0x0F =? c)) = true) as H.
  { now apply (check_sweep (fun c => (u8 c =? c) && (Z.land c 0xF0 =? 0) && (Z.land c 0x0F =? c))). }
  b2p. split_and!; try assumption. lia.
Qed.

Lemma flags_roundtrip o rest :
  0 <= check o <= LZMA_CHECK_ID_MAX ->
  stream_flags_encode o = Some [0; check o] /\
  stream_flags_decode (0 :: check o :: rest) = Some (check o).
Proof.
  intros Hc. destruct (check_byte _ Hc) as (H8 & HF0 & H0F & Hmax).
  unfold stream_flags_encode, stream_flags_decode, byte_at. cbn [Z.to_nat nth Pos.to_nat].
  rewrite Hmax, H8. change (Z.to_nat 1) with 1%nat. cbn [nth]. now rewrite HF0, H0F.
Qed.

Lemma flags_canonical a b rest c :
  is_byte b -> stream_flags_decode (a :: b :: rest) = Some c ->
  a = 0 /\ b = c /\ 0 <= c <= LZMA_CHECK_ID_MAX.
Proof.
  unfold stream_flags_decode, byte_at. change (Z.to_nat 0) with 0%nat.
  change (Z.to_nat 1) with 1%nat. cbn [nth]. intros Hb.
  destruct (_ || _) eqn:E; [discriminate|]. intros [= <-]. apply orb_false_iff in E as [E1 E2]. b2p.
  assert ((negb (Z.land b 0xF0 =? 0) || ((Z.land b 0x0F =? b) && (b <=? 15))) = true) as H.
  { now apply (byte_sweep (fun b => negb (Z.land b 0xF0 =? 0) ||
      ((Z.land b 0x0F =? b) && (b <=? 15)))). }
  rewrite E2 in H. simpl in H. b2p.
  unfold LZMA_CHECK_ID_MAX, is_byte in *. lia.
Qed.

End Flags.

(** ** Header and footer *)

Section HeaderFooter.

Lemma header_encode_ok o :
  version o = 0 -> 0 <= check o <= LZMA_CHECK_ID_MAX ->
  lzma_stream_header_encode o =
    Ok (lzma_header_magic ++ [0; check o] ++ write32le (lzma_crc32 [0; check o] 0)).
Proof.
  intros Hv Hc. unfold lzma_stream_header_encode. rewrite Hv.
  destruct (flags_roundtrip o [] Hc) as [-> _]. reflexivity.
Qed.

Lemma footer_encode_ok o :
  version o = 0 -> 0 <= check o <= LZMA_CHECK_ID_MAX -> is_backward_size_valid o = true ->
  let size := write32le (u32 (backward_size o / 4 - 1)) in
  lzma_stream_footer_encode o =
    Ok (write32le (lzma_crc32 (size ++ [0; check o]) 0) ++ size ++ [0; check o] ++ lzma_footer_magic).
Proof.
  intros Hv Hc Hb. unfold lzma_stream_footer_encode. rewrite Hv, Hb.
  destruct (flags_roundtrip o [] Hc) as [-> _]. reflexivity.
Qed.

Lemma check_bytes c : 0 <= c <= LZMA_CHECK_ID_MAX -> bytes_ok [0; c].
Proof. unfold LZMA_CHECK_ID_MAX. intros. bytes_ok_tac. Qed.

Lemma header_decode_encoded c :
  0 <= c <= LZMA_CHECK_ID_MAX ->
  lzma_stream_header_decode
    (lzma_header_magic ++ [0; c] ++ write32le (lzma_crc32 [0; c] 0)) =
  Ok {| version := 0; backward_size := LZMA_VLI_UNKNOWN; check := c |}.
Proof.
  intros Hc. unfold lzma_stream_header_decode.
  set (crc := lzma_crc32 [0; c] 0).
  change (slice 0 6 _) with lzma_header_magic.
  rewrite bool_decide_eq_true_2 by reflexivity. cbn [negb].
  change (slice 6 LZMA_STREAM_FLAGS_SIZE _) with [0; c]. fold crc.
  change (from (6 + LZMA_STREAM_FLAGS_SIZE) _) with (write32le crc).
  change (from 6 _) with (0 :: c :: write32le crc).
  rewrite <- (app_nil_r (write32le crc)) at 1.
  rewrite read32le_write32le by now apply crc_of_bytes_u32, check_bytes.
  rewrite Z.eqb_refl. cbn [negb].
  destruct (flags_roundtrip {| version := 0; backward_size := 0; check := c |} (write32le crc) Hc)
    as [_ E]. cbn [check] in E. now rewrite E.
Qed.

Lemma footer_decode_encoded (size crc c : Z) :
  0 <= c <= LZMA_CHECK_ID_MAX -> is_u32 size ->
  crc = lzma_crc32 (write32le size ++ [0; c]) 0 ->
  lzma_stream_footer_decode (write32le crc ++ write32le size ++ [0; c] ++ lzma_footer_magic) =
  Ok {| version := 0; backward_size := u64 ((size + 1) * 4); check := c |}.
Proof.
  intros Hc Hs Hcrc. unfold lzma_stream_footer_decode.
  change (slice (4 * 2 + LZMA_STREAM_FLAGS_SIZE) 2 _) with lzma_footer_magic.
  rewrite bool_decide_eq_true_2 by reflexivity. cbn [negb].
  change (slice 4 (4 + LZMA_STREAM_FLAGS_SIZE) _) with (write32le size ++ [0; c]).
  rewrite <- Hcrc. rewrite read32le_write32le.
  2: { rewrite Hcrc. apply crc_of_bytes_u32, Forall_app_2;
       [apply write32le_bytes|now apply check_bytes]. }
  rewrite Z.eqb_refl. cbn [negb].
  change (from (4 * 2) _) with (0 :: c :: lzma_footer_magic).
  destruct (flags_roundtrip {| version := 0; backward_size := 0; check := c |}
    lzma_footer_magic Hc) as [_ E]. cbn [check] in E. rewrite E.
  change (from 4 _) with (write32le size ++ [0; c] ++ lzma_footer_magic).
  now rewrite read32le_write32le.
Qed.

(** The 12 bytes of a buffer that is exactly as long as a header. *)
Lemma twelve_bytes (l : bytes) :
  length l = 12%nat ->
  exists a0 a1 a2 a3 a4 a5 b0 b1 c0 c1 c2 c3,
    l = [a0; a1; a2; a3; a4; a5; b0; b1; c0; c1; c2; c3].
Proof.
  intros Hl. do 12 (destruct l as [|? l]; [discriminate|]).
  destruct l; [|discriminate]. repeat eexists.
Qed.

Lemma header_decode_inv input o :
  bytes_ok input -> length input = 12%nat -> lzma_stream_header_decode input = Ok o ->
  version o = 0 /\ backward_size o = LZMA_VLI_UNKNOWN /\ 0 <= check o <= LZMA_CHECK_ID_MAX /\
  lzma_stream_header_encode o = Ok input.
Proof.
  intros Hb Hl. destruct (twelve_bytes input Hl)
    as (a0 & a1 & a2 & a3 & a4 & a5 & b0 & b1 & c0 & c1 & c2 & c3 & ->).
  unfold lzma_stream_header_decode.
  change (slice 0 6 _) with [a0; a1; a2; a3; a4; a5].
  change (slice 6 LZMA_STREAM_FLAGS_SIZE _) with [b0; b1].
  change (from (6 + LZMA_STREAM_FLAGS_SIZE) _) with [c0; c1; c2; c3].
  change (from 6 _) with [b0; b1; c0; c1; c2; c3].
  case_bool_decide as Hmagic; cbn [negb]; [|discriminate].
  destruct (Z.eqb_spec (lzma_crc32 [b0; b1] 0) (read32le [c0; c1; c2; c3])) as [Hcrc|];
    cbn [negb]; [|discriminate].
  destruct (stream_flags_decode _) as [c|] eqn:Hf; [|discriminate].
  intros [= <-]. cbn [version backward_size check].
  do 6 apply Forall_inv_tail in Hb. pose proof (Forall_inv (Forall_inv_tail Hb)) as Hb1.
  destruct (flags_canonical _ _ _ _ Hb1 Hf) as (-> & -> & Hc).
  do 2 apply Forall_inv_tail in Hb.
  split_and!; try reflexivity; try apply Hc.
  rewrite header_encode_ok by (cbn; auto). cbn [check].
  rewrite Hcrc, write32le_read32le by assumption. now rewrite <- Hmagic.
Qed.

Lemma footer_decode_inv input o :
  bytes_ok input -> length input = 12%nat -> lzma_stream_footer_decode input = Ok o ->
  version o = 0 /\ is_backward_size_valid o = true /\ 0 <= check o <= LZMA_CHECK_ID_MAX /\
  lzma_stream_footer_encode o = Ok input.
Proof.
  intros Hb Hl. destruct (twelve_bytes input Hl)
    as (a0 & a1 & a2 & a3 & s0 & s1 & s2 & s3 & b0 & b1 & m0 & m1 & ->).
  unfold lzma_stream_footer_decode.
  change (slice (4 * 2 + LZMA_STREAM_FLAGS_SIZE) 2 _) with [m0; m1].
  change (slice 4 (4 + LZMA_STREAM_FLAGS_SIZE) _) with ([s0; s1; s2; s3] ++ [b0; b1]).
  change (from (4 * 2) _) with [b0; b1; m0; m1].
  change (from 4 _) with ([s0; s1; s2; s3] ++ [b0; b1; m0; m1]).
  case_bool_decide as Hmagic; cbn [negb]; [|discriminate].
  destruct (Z.eqb_spec (lzma_crc32 ([s0; s1; s2; s3] ++ [b0; b1]) 0)
    (read32le [a0; a1; a2; a3; s0; s1; s2; s3; b0; b1; m0; m1])) as [Hcrc|];
    cbn [negb]; [|discriminate].
  change (read32le [a0; a1; a2; a3; s0; s1; s2; s3; b0; b1; m0; m1])
    with (read32le [a0; a1; a2; a3]) in Hcrc.
  destruct (stream_flags_decode _) as [c|] eqn:Hf; [|discriminate].
  intros [= <-]. cbn [version backward_size check].
  change (bytes_ok ([a0; a1; a2; a3] ++ [s0; s1; s2; s3] ++ [b0; b1; m0; m1])) in Hb.
  apply Forall_app in Hb as [Ha Hb]. apply Forall_app in Hb as [Hs Hb].
  pose proof (Forall_inv (Forall_inv_tail Hb)) as Hb1.
  destruct (flags_canonical _ _ _ _ Hb1 Hf) as (-> & -> & Hc).
  change (read32le [s0; s1; s2; s3; 0; c; m0; m1]) with (read32le [s0; s1; s2; s3]). set (size := read32le [s0; s1; s2; s3]) in *.
  assert (is_u32 size) as Hsize by (apply read32le_range; [assumption|simpl; lia]).
  unfold is_u32 in Hsize. rewrite u64_small by (unfold is_u64; lia).
  assert (is_backward_size_valid
    {| version := 0; backward_size := (size + 1) * 4; check := c |} = true) as Hv.
  { unfold is_backward_size_valid, LZMA_BACKWARD_SIZE_MIN, LZMA_BACKWARD_SIZE_MAX.
    cbn [backward_size]. change 3 with (2 ^ 2 - 1). rewrite land_low by lia.
    change (2 ^ 2) with 4. rewrite Z.mod_mul by lia. cbn. lia. }
  split_and!; try reflexivity; try apply Hc; [exact Hv|].
  rewrite footer_encode_ok by (cbn; auto). cbn [check backward_size].
  rewrite Z.div_mul, Z.add_simpl_r, u32_small by (unfold is_u32; lia).
  unfold size at 1 2. rewrite !write32le_read32le by assumption.
  rewrite Hcrc, write32le_read32le by assumption. now rewrite <- Hmagic.
Qed.

End HeaderFooter.

(** ** Properties *)

(** C26: a Stream Header or Stream Footer the encoder writes is decoded to the
    options it was made from (the header does not carry the Backward Size),
    and the two decoded structures of one Stream compare as equal. *)
Theorem stream_flags_roundtrip o :
  version o = 0 -> 0 <= check o <= LZMA_CHECK_ID_MAX -> is_backward_size_valid o = true ->
  exists header footer h f,
    lzma_stream_header_encode o = Ok header /\ zlen header = LZMA_STREAM_HEADER_SIZE /\
    lzma_stream_footer_encode o = Ok footer /\ zlen footer = LZMA_STREAM_HEADER_SIZE /\
    lzma_stream_header_decode header = Ok h /\ lzma_stream_footer_decode footer = Ok f /\
    h = {| version := 0; backward_size := LZMA_VLI_UNKNOWN; check := check o |} /\ f = o /\
    lzma_stream_flags_compare h f = LZMA_OK.
Proof.
  intros Hv Hc Hb. pose proof Hb as Hb'. unfold is_backward_size_valid in Hb'. b2p.
  unfold LZMA_BACKWARD_SIZE_MIN, LZMA_BACKWARD_SIZE_MAX in *.
  assert (backward_size o mod 4 = 0) as Hmod.
  { change 4 with (2 ^ 2). rewrite <- land_low by lia. assumption. }
  set (size := backward_size o / 4 - 1). assert (is_u32 size) as Hs by (unfold is_u32, size; dlia).
  eexists _, _, _, _. split_and!; [now apply header_encode_ok|reflexivity
    |now apply footer_encode_ok|reflexivity|now apply header_decode_encoded
    | |reflexivity|reflexivity|].
  - fold size. rewrite u32_small by assumption.
    rewrite (footer_decode_encoded size _ (check o)) by auto.
    destruct o as [v bs c]. cbn [version backward_size check] in *. subst v. do 2 f_equal.
    unfold size. rewrite u64_small; [dlia|]. unfold is_u64. dlia.
  - unfold lzma_stream_flags_compare. cbn [version backward_size check]. rewrite Hv.
    destruct (check_byte _ Hc) as (_ & _ & _ & ->). rewrite !Z.eqb_refl. reflexivity.
Qed.

Lemma stream_flags_roundtrip_witness :
  exists footer, lzma_stream_footer_encode {| version := 0; backward_size := 8; check := 1 |} = Ok footer /\
    lzma_stream_footer_decode footer = Ok {| version := 0; backward_size := 8; check := 1 |}.
Proof.
  destruct (stream_flags_roundtrip {| version := 0; backward_size := 8; check := 1 |})
    as (hd & ft & h & f & _ & _ & Hf & _ & _ & Hd & _ & -> & _);
    [reflexivity|cbn; unfold LZMA_CHECK_ID_MAX; lia|reflexivity|].
  exists ft. split; assumption.
Defined.

(** the decoders accept nothing but what the encoders write: 12 bytes that
    decode successfully are the encoding of the decoded options, so every
    corruption of magic, flags, size or CRC32 that does not give another
    encoding is reported. *)
Theorem stream_flags_canonical input o :
  bytes_ok input -> length input = 12%nat ->
  (lzma_stream_header_decode input = Ok o ->
    version o = 0 /\ backward_size o = LZMA_VLI_UNKNOWN /\
    0 <= check o <= LZMA_CHECK_ID_MAX /\ lzma_stream_header_encode o = Ok input) /\
  (lzma_stream_footer_decode input = Ok o ->
    version o = 0 /\ is_backward_size_valid o = true /\
    0 <= check o <= LZMA_CHECK_ID_MAX /\ lzma_stream_footer_encode o = Ok input).
Proof. intros Hb Hl. split; [now apply header_decode_inv|now apply footer_decode_inv]. Qed.

Lemma stream_flags_canonical_witness :
  lzma_stream_header_encode {| version := 0; backward_size := LZMA_VLI_UNKNOWN; check := 4 |} =
  Ok [0xFD; 0x37; 0x7A; 0x58; 0x5A; 0x00; 0x00; 0x04; 0xE6; 0xD6; 0xB4; 0x46].
Proof.
  apply (stream_flags_canonical
    [0xFD; 0x37; 0x7A; 0x58; 0x5A; 0x00; 0x00; 0x04; 0xE6; 0xD6; 0xB4; 0x46]);
    [bytes_ok_tac|reflexivity|vm_compute; reflexivity].
Defined.
