(* ===== verification/FastPos.v ===== *)
(** * Distance slots

    [lib/archive/xz/src/liblzma/lzma/fastpos.h] with the table of
    [fastpos_table.c] and its generator [fastpos_tablegen.c].  A distance is
    coded by a slot, which holds its highest two bits, and the bits below
    them.  [get_dist_slot] finds the slot with a table of [2^13] entries;
    [dist_slot] is what the comment of the header says it computes. *)

From S2P Require Import Prelude.

Definition FASTPOS_BITS : Z := 13.

(** The table, as written in [fastpos_table.c]. *)
Definition lzma_fastpos : list Z := [
  0;1;2;3;4;4;5;5;6;6;6;6;7;7;7;7;
  8;8;8;8;8;8;8;8;9;9;9;9;9;9;9;9;
  10;10;10;10;10;10;10;10;10;10;10;10;10;10;10;10;
  11;11;11;11;11;11;11;11;11;11;11;11;11;11;11;11;
  12;12;12;12;12;12;12;12;12;12;12;12;12;12;12;12;
  12;12;12;12;12;12;12;12;12;12;12;12;12;12;12;12;
  13;13;13;13;13;13;13;13;13;13;13;13;13;13;13;13;
  13;13;13;13;13;13;13;13;13;13;13;13;13;13;13;13;
  14;14;14;14;14;14;14;14;14;14;14;14;14;14;14;14;
  14;14;14;14;14;14;14;14;14;14;14;14;14;14;14;14;
  14;14;14;14;14;14;14;14;14;14;14;14;14;14;14;14;
  14;14;14;14;14;14;14;14;14;14;14;14;14;14;14;14;
  15;15;15;15;15;15;15;15;15;15;15;15;15;15;15;15;
  15;15;15;15;15;15;15;15;15;15;15;15;15;15;15;15;
  15;15;15;15;15;15;15;15;15;15;15;15;15;15;15;15;
  15;15;15;15;15;15;15;15;15;15;15;15;15;15;15;15;
  16;16;16;16;16;16;16;16;16;16;16;16;16;16;16;16;
  16;16;16;16;16;16;16;16;16;16;16;16;16;16;16;16;
  16;16;16;16;16;16;16;16;16;16;16;16;16;16;16;16;
  16;16;16;16;16;16;16;16;16;16;16;16;16;16;16;16;
  16;16;16;16;16;16;16;16;16;16;16;16;16;16;16;16;
  16;16;16;16;16;16;16;16;16;16;16;16;16;16;16;16;
  16;16;16;16;16;16;16;16;16;16;16;16;16;16;16;16;
  16;16;16;16;16;16;16;16;16;16;16;16;16;16;16;16;
  17;17;17;17;17;17;17;17;17;17;17;17;17;17;17;17;
  17;17;17;17;17;17;17;17;17;17;17;17;17;17;17;17;
  17;17;17;17;17;17;17;17;17;17;17;17;17;17;17;17;
  17;17;17;17;17;17;17;17;17;17;17;17;17;17;17;17;
  17;17;17;17;17;17;17;17;17;17;17;17;17;17;17;17;
  17;17;17;17;17;17;17;17;17;17;17;17;17;17;17;17;
  17;17;17;17;17;17;17;17;17;17;17;17;17;17;17;17;
  17;17;17;17;17;17;17;17;17;17;17;17;17;17;17;17;
  18;18;18;18;18;18;18;18;18;18;18;18;18;18;18;18;
  18;18;18;18;18;18;18;18;18;18;18;18;18;18;18;18;
  18;18;18;18;18;18;18;18;18;18;18;18;18;18;18;18;
  18;18;18;18;18;18;18;18;18;18;18;18;18;18;18;18;
  18;18;18;18;18;18;18;18;18;18;18;18;18;18;18;18;
  18;18;18;18;18;18;18;18;18;18;18;18;18;18;18;18;
  18;18;18;18;18;18;18;18;18;18;18;18;18;18;18;18;
  18;18;18;18;18;18;18;18;18;18;18;18;18;18;18;18;
  18;18;18;18;18;18;18;18;18;18;18;18;18;18;18;18;
  18;18;18;18;18;18;18;18;18;18;18;18;18;18;18;18;
  18;18;18;18;18;18;18;18;18;18;18;18;18;18;18;18;
  18;18;18;18;18;18;18;18;18;18;18;18;18;18;18;18;
  18;18;18;18;18;18;18;18;18;18;18;18;18;18;18;18;
  18;18;18;18;18;18;18;18;18;18;18;18;18;18;18;18;
  18;18;18;18;18;18;18;18;18;18;18;18;18;18;18;18;
  18;18;18;18;18;18;18;18;18;18;18;18;18;18;18;18;
  19;19;19;19;19;19;19;19;19;19;19;19;19;19;19;19;
  19;19;19;19;19;19;19;19;19;19;19;19;19;19;19;19;
  19;19;19;19;19;19;19;19;19;19;19;19;19;19;19;19;
  19;19;19;19;19;19;19;19;19;19;19;19;19;19;19;19;
  19;19;19;19;19;19;19;19;19;19;19;19;19;19;19;19;
  19;19;19;19;19;19;19;19;19;19;19;19;19;19;19;19;
  19;19;19;19;19;19;19;19;19;19;19;19;19;19;19;19;
  19;19;19;19;19;19;19;19;19;19;19;19;19;19;19;19;
  19;19;19;19;19;19;19;19;19;19;19;19;19;19;19;19;
  19;19;19;19;19;19;19;19;19;19;19;19;19;19;19;19;
  19;19;19;19;19;19;19;19;19;19;19;19;19;19;19;19;
  19;19;19;19;19;19;19;19;19;19;19;19;19;19;19;19;
  19;19;19;19;19;19;19;19;19;19;19;19;19;19;19;19;
  19;19;19;19;19;19;19;19;19;19;19;19;19;19;19;19;
  19;19;19;19;19;19;19;19;19;19;19;19;19;19;19;19;
  19;19;19;19;19;19;19;19;19;19;19;19;19;19;19;19;
  20;20;20;20;20;20;20;20;20;20;20;20;20;20;20;20;
  20;20;20;20;20;20;20;20;20;20;20;20;20;20;20;20;
  20;20;20;20;20;20;20;20;20;20;20;20;20;20;20;20;
  20;20;20;20;20;20;20;20;20;20;20;20;20;20;20;20;
  20;20;20;20;20;20;20;20;20;20;20;20;20;20;20;20;
  20;20;20;20;20;20;20;20;20;20;20;20;20;20;20;20;
  20;20;20;20;20;20;20;20;20;20;20;20;20;20;20;20;
  20;20;20;20;20;20;20;20;20;20;20;20;20;20;20;20;
  20;20;20;20;20;20;20;20;20;20;20;20;20;20;20;20;
  20;20;20;20;20;20;20;20;20;20;20;20;20;20;20;20;
  20;20;20;20;20;20;20;20;20;20;20;20;20;20;20;20;
  20;20;20;20;20;20;20;20;20;20;20;20;20;20;20;20;
  20;20;20;20;20;20;20;20;20;20;20;20;20;20;20;20;
  20;20;20;20;20;20;20;20;20;20;20;20;20;20;20;20;
  20;20;20;20;20;20;20;20;20;20;20;20;20;20;20;20;
  20;20;20;20;20;20;20;20;20;20;20;20;20;20;20;20;
  20;20;20;20;20;20;20;20;20;20;20;20;20;20;20;20;
  20;20;20;20;20;20;20;20;20;20;20;20;20;20;20;20;
  20;20;20;20;20;20;20;20;20;20;20;20;20;20;20;20;
  20;20;20;20;20;20;20;20;20;20;20;20;20;20;20;20;
  20;20;20;20;20;20;20;20;20;20;20;20;20;20;20;20;
  20;20;20;20;20;20;20;20;20;20;20;20;20;20;20;20;
  20;20;20;20;20;20;20;20;20;20;20;20;20;20;20;20;
  20;20;20;20;20;20;20;20;20;20;20;20;20;20;20;20;
  20;20;20;20;20;20;20;20;20;20;20;20;20;20;20;20;
  20;20;20;20;20;20;20;20;20;20;20;20;20;20;20;20;
  20;20;20;20;20;20;20;20;20;20;20;20;20;20;20;20;
  20;20;20;20;20;20;20;20;20;20;20;20;20;20;20;20;
  20;20;20;20;20;20;20;20;20;20;20;20;20;20;20;20;
  20;20;20;20;20;20;20;20;20;20;20;20;20;20;20;20;
  20;20;20;20;20;20;20;20;20;20;20;20;20;20;20;20;
  20;20;20;20;20;20;20;20;20;20;20;20;20;20;20;20;
  21;21;21;21;21;21;21;21;21;21;21;21;21;21;21;21;
  21;21;21;21;21;21;21;21;21;21;21;21;21;21;21;21;
  21;21;21;21;21;21;21;21;21;21;21;21;21;21;21;21;
  21;21;21;21;21;21;21;21;21;21;21;21;21;21;21;21;
  21;21;21;21;21;21;21;21;21;21;21;21;21;21;21;21;
  21;21;21;21;21;21;21;21;21;21;21;21;21;21;21;21;
  21;21;21;21;21;21;21;21;21;21;21;21;21;21;21;21;
  21;21;21;21;21;21;21;21;21;21;21;21;21;21;21;21;
  21;21;21;21;21;21;21;21;21;21;21;21;21;21;21;21;
  21;21;21;21;21;21;21;21;21;21;21;21;21;21;21;21;
  21;21;21;21;21;21;21;21;21;21;21;21;21;21;21;21;
  21;21;21;21;21;21;21;21;21;21;21;21;21;21;21;21;
  21;21;21;21;21;21;21;21;21;21;21;21;21;21;21;21;
  21;21;21;21;21;21;21;21;21;21;21;21;21;21;21;21;
  21;21;21;21;21;21;21;21;21;21;21;21;21;21;21;21;
  21;21;21;21;21;21;21;21;21;21;21;21;21;21;21;21;
  21;21;21;21;21;21;21;21;21;21;21;21;21;21;21;21;
  21;21;21;21;21;21;21;21;21;21;21;21;21;21;21;21;
  21;21;21;21;21;21;21;21;21;21;21;21;21;21;21;21;
  21;21;21;21;21;21;21;21;21;21;21;21;21;21;21;21;
  21;21;21;21;21;21;21;21;21;21;21;21;21;21;21;21;
  21;21;21;21;21;21;21;21;21;21;21;21;21;21;21;21;
  21;21;21;21;21;21;21;21;21;21;21;21;21;21;21;21;
  21;21;21;21;21;21;21;21;21;21;21;21;21;21;21;21;
  21;21;21;21;21;21;21;21;21;21;21;21;21;21;21;21;
  21;21;21;21;21;21;21;21;21;21;21;21;21;21;21;21;
  21;21;21;21;21;21;21;21;21;21;21;21;21;21;21;21;
  21;21;21;21;21;21;21;21;21;21;21;21;21;21;21;21;
  21;21;21;21;21;21;21;21;21;21;21;21;21;21;21;21;
  21;21;21;21;21;21;21;21;21;21;21;21;21;21;21;21;
  21;21;21;21;21;21;21;21;21;21;21;21;21;21;21;21;
  21;21;21;21;21;21;21;21;21;21;21;21;21;21;21;21;
  22;22;22;22;22;22;22;22;22;22;22;22;22;22;22;22;
  22;22;22;22;22;22;22;22;22;22;22;22;22;22;22;22;
  22;22;22;22;22;22;22;22;22;22;22;22;22;22;22;22;
  22;22;22;22;22;22;22;22;22;22;22;22;22;22;22;22;
  22;22;22;22;22;22;22;22;22;22;22;22;22;22;22;22;
  22;22;22;22;22;22;22;22;22;22;22;22;22;22;22;22;
  22;22;22;22;22;22;22;22;22;22;22;22;22;22;22;22;
  22;22;22;22;22;22;22;22;22;22;22;22;22;22;22;22;
  22;22;22;22;22;22;22;22;22;22;22;22;22;22;22;22;
  22;22;22;22;22;22;22;22;22;22;22;22;22;22;22;22;
  22;22;22;22;22;22;22;22;22;22;22;22;22;22;22;22;
  22;22;22;22;22;22;22;22;22;22;22;22;22;22;22;22;
  22;22;22;22;22;22;22;22;22;22;22;22;22;22;22;22;
  22;22;22;22;22;22;22;22;22;22;22;22;22;22;22;22;
  22;22;22;22;22;22;22;22;22;22;22;22;22;22;22;22;
  22;22;22;22;22;22;22;22;22;22;22;22;22;22;22;22;
  22;22;22;22;22;22;22;22;22;22;22;22;22;22;22;22;
  22;22;22;22;22;22;22;22;22;22;22;22;22;22;22;22;
  22;22;22;22;22;22;22;22;22;22;22;22;22;22;22;22;
  22;22;22;22;22;22;22;22;22;22;22;22;22;22;22;22;
  22;22;22;22;22;22;22;22;22;22;22;22;22;22;22;22;
  22;22;22;22;22;22;22;22;22;22;22;22;22;22;22;22;
  22;22;22;22;22;22;22;22;22;22;22;22;22;22;22;22;
  22;22;22;22;22;22;22;22;22;22;22;22;22;22;22;22;
  22;22;22;22;22;22;22;22;22;22;22;22;22;22;22;22;
  22;22;22;22;22;22;22;22;22;22;22;22;22;22;22;22;
  22;22;22;22;22;22;22;22;22;22;22;22;22;22;22;22;
  22;22;22;22;22;22;22;22;22;22;22;22;22;22;22;22;
  22;22;22;22;22;22;22;22;22;22;22;22;22;22;22;22;
  22;22;22;22;22;22;22;22;22;22;22;22;22;22;22;22;
  22;22;22;22;22;22;22;22;22;22;22;22;22;22;22;22;
  22;22;22;22;22;22;22;22;22;22;22;22;22;22;22;22;
  22;22;22;22;22;22;22;22;22;22;22;22;22;22;22;22;
  22;22;22;22;22;22;22;22;22;22;22;22;22;22;22;22;
  22;22;22;22;22;22;22;22;22;22;22;22;22;22;22;22;
  22;22;22;22;22;22;22;22;22;22;22;22;22;22;22;22;
  22;22;22;22;22;22;22;22;22;22;22;22;22;22;22;22;
  22;22;22;22;22;22;22;22;22;22;22;22;22;22;22;22;
  22;22;22;22;22;22;22;22;22;22;22;22;22;22;22;22;
  22;22;22;22;22;22;22;22;22;22;22;22;22;22;22;22;
  22;22;22;22;22;22;22;22;22;22;22;22;22;22;22;22;
  22;22;22;22;22;22;22;22;22;22;22;22;22;22;22;22;
  22;22;22;22;22;22;22;22;22;22;22;22;22;22;22;22;
  22;22;22;22;22;22;22;22;22;22;22;22;22;22;22;22;
  22;22;22;22;22;22;22;22;22;22;22;22;22;22;22;22;
  22;22;22;22;22;22;22;22;22;22;22;22;22;22;22;22;
  22;22;22;22;22;22;22;22;22;22;22;22;22;22;22;22;
  22;22;22;22;22;22;22;22;22;22;22;22;22;22;22;22;
  22;22;22;22;22;22;22;22;22;22;22;22;22;22;22;22;
  22;22;22;22;22;22;22;22;22;22;22;22;22;22;22;22;
  22;22;22;22;22;22;22;22;22;22;22;22;22;22;22;22;
  22;22;22;22;22;22;22;22;22;22;22;22;22;22;22;22;
  22;22;22;22;22;22;22;22;22;22;22;22;22;22;22;22;
  22;22;22;22;22;22;22;22;22;22;22;22;22;22;22;22;
  22;22;22;22;22;22;22;22;22;22;22;22;22;22;22;22;
  22;22;22;22;22;22;22;22;22;22;22;22;22;22;22;22;
  22;22;22;22;22;22;22;22;22;22;22;22;22;22;22;22;
  22;22;22;22;22;22;22;22;22;22;22;22;22;22;22;22;
  22;22;22;22;22;22;22;22;22;22;22;22;22;22;22;22;
  22;22;22;22;22;22;22;22;22;22;22;22;22;22;22;22;
  22;22;22;22;22;22;22;22;22;22;22;22;22;22;22;22;
  22;22;22;22;22;22;22;22;22;22;22;22;22;22;22;22;
  22;22;22;22;22;22;22;22;22;22;22;22;22;22;22;22;
  22;22;22;22;22;22;22;22;22;22;22;22;22;22;22;22;
  23;23;23;23;23;23;23;23;23;23;23;23;23;23;23;23;
  23;23;23;23;23;23;23;23;23;23;23;23;23;23;23;23;
  23;23;23;23;23;23;23;23;23;23;23;23;23;23;23;23;
  23;23;23;23;23;23;23;23;23;23;23;23;23;23;23;23;
  23;23;23;23;23;23;23;23;23;23;23;23;23;23;23;23;
  23;23;23;23;23;23;23;23;23;23;23;23;23;23;23;23;
  23;23;23;23;23;23;23;23;23;23;23;23;23;23;23;23;
  23;23;23;23;23;23;23;23;23;23;23;23;23;23;23;23;
  23;23;23;23;23;23;23;23;23;23;23;23;23;23;23;23;
  23;23;23;23;23;23;23;23;23;23;23;23;23;23;23;23;
  23;23;23;23;23;23;23;23;23;23;23;23;23;23;23;23;
  23;23;23;23;23;23;23;23;23;23;23;23;23;23;23;23;
  23;23;23;23;23;23;23;23;23;23;23;23;23;23;23;23;
  23;23;23;23;23;23;23;23;23;23;23;23;23;23;23;23;
  23;23;23;23;23;23;23;23;23;23;23;23;23;23;23;23;
  23;23;23;23;23;23;23;23;23;23;23;23;23;23;23;23;
  23;23;23;23;23;23;23;23;23;23;23;23;23;23;23;23;
  23;23;23;23;23;23;23;23;23;23;23;23;23;23;23;23;
  23;23;23;23;23;23;23;23;23;23;23;23;23;23;23;23;
  23;23;23;23;23;23;23;23;23;23;23;23;23;23;23;23;
  23;23;23;23;23;23;23;23;23;23;23;23;23;23;23;23;
  23;23;23;23;23;23;23;23;23;23;23;23;23;23;23;23;
  23;23;23;23;23;23;23;23;23;23;23;23;23;23;23;23;
  23;23;23;23;23;23;23;23;23;23;23;23;23;23;23;23;
  23;23;23;23;23;23;23;23;23;23;23;23;23;23;23;23;
  23;23;23;23;23;23;23;23;23;23;23;23;23;23;23;23;
  23;23;23;23;23;23;23;23;23;23;23;23;23;23;23;23;
  23;23;23;23;23;23;23;23;23;23;23;23;23;23;23;23;
  23;23;23;23;23;23;23;23;23;23;23;23;23;23;23;23;
  23;23;23;23;23;23;23;23;23;23;23;23;23;23;23;23;
  23;23;23;23;23;23;23;23;23;23;23;23;23;23;23;23;
  23;23;23;23;23;23;23;23;23;23;23;23;23;23;23;23;
  23;23;23;23;23;23;23;23;23;23;23;23;23;23;23;23;
  23;23;23;23;23;23;23;23;23;23;23;23;23;23;23;23;
  23;23;23;23;23;23;23;23;23;23;23;23;23;23;23;23;
  23;23;23;23;23;23;23;23;23;23;23;23;23;23;23;23;
  23;23;23;23;23;23;23;23;23;23;23;23;23;23;23;23;
  23;23;23;23;23;23;23;23;23;23;23;23;23;23;23;23;
  23;23;23;23;23;23;23;23;23;23;23;23;23;23;23;23;
  23;23;23;23;23;23;23;23;23;23;23;23;23;23;23;23;
  23;23;23;23;23;23;23;23;23;23;23;23;23;23;23;23;
  23;23;23;23;23;23;23;23;23;23;23;23;23;23;23;23;
  23;23;23;23;23;23;23;23;23;23;23;23;23;23;23;23;
  23;23;23;23;23;23;23;23;23;23;23;23;23;23;23;23;
  23;23;23;23;23;23;23;23;23;23;23;23;23;23;23;23;
  23;23;23;23;23;23;23;23;23;23;23;23;23;23;23;23;
  23;23;23;23;23;23;23;23;23;23;23;23;23;23;23;23;
  23;23;23;23;23;23;23;23;23;23;23;23;23;23;23;23;
  23;23;23;23;23;23;23;23;23;23;23;23;23;23;23;23;
  23;23;23;23;23;23;23;23;23;23;23;23;23;23;23;23;
  23;23;23;23;23;23;23;23;23;23;23;23;23;23;23;23;
  23;23;23;23;23;23;23;23;23;23;23;23;23;23;23;23;
  23;23;23;23;23;23;23;23;23;23;23;23;23;23;23;23;
  23;23;23;23;23;23;23;23;23;23;23;23;23;23;23;23;
  23;23;23;23;23;23;23;23;23;23;23;23;23;23;23;23;
  23;23;23;23;23;23;23;23;23;23;23;23;23;23;23;23;
  23;23;23;23;23;23;23;23;23;23;23;23;23;23;23;23;
  23;23;23;23;23;23;23;23;23;23;23;23;23;23;23;23;
  23;23;23;23;23;23;23;23;23;23;23;23;23;23;23;23;
  23;23;23;23;23;23;23;23;23;23;23;23;23;23;23;23;
  23;23;23;23;23;23;23;23;23;23;23;23;23;23;23;23;
  23;23;23;23;23;23;23;23;23;23;23;23;23;23;23;23;
  23;23;23;23;23;23;23;23;23;23;23;23;23;23;23;23;
  23;23;23;23;23;23;23;23;23;23;23;23;23;23;23;23;
  24;24;24;24;24;24;24;24;24;24;24;24;24;24;24;24;
  24;24;24;24;24;24;24;24;24;24;24;24;24;24;24;24;
  24;24;24;24;24;24;24;24;24;24;24;24;24;24;24;24;
  24;24;24;24;24;24;24;24;24;24;24;24;24;24;24;24;
  24;24;24;24;24;24;24;24;24;24;24;24;24;24;24;24;
  24;24;24;24;24;24;24;24;24;24;24;24;24;24;24;24;
  24;24;24;24;24;24;24;24;24;24;24;24;24;24;24;24;
  24;24;24;24;24;24;24;24;24;24;24;24;24;24;24;24;
  24;24;24;24;24;24;24;24;24;24;24;24;24;24;24;24;
  24;24;24;24;24;24;24;24;24;24;24;24;24;24;24;24;
  24;24;24;24;24;24;24;24;24;24;24;24;24;24;24;24;
  24;24;24;24;24;24;24;24;24;24;24;24;24;24;24;24;
  24;24;24;24;24;24;24;24;24;24;24;24;24;24;24;24;
  24;24;24;24;24;24;24;24;24;24;24;24;24;24;24;24;
  24;24;24;24;24;24;24;24;24;24;24;24;24;24;24;24;
  24;24;24;24;24;24;24;24;24;24;24;24;24;24;24;24;
  24;24;24;24;24;24;24;24;24;24;24;24;24;24;24;24;
  24;24;24;24;24;24;24;24;24;24;24;24;24;24;24;24;
  24;24;24;24;24;24;24;24;24;24;24;24;24;24;24;24;
  24;24;24;24;24;24;24;24;24;24;24;24;24;24;24;24;
  24;24;24;24;24;24;24;24;24;24;24;24;24;24;24;24;
  24;24;24;24;24;24;24;24;24;24;24;24;24;24;24;24;
  24;24;24;24;24;24;24;24;24;24;24;24;24;24;24;24;
  24;24;24;24;24;24;24;24;24;24;24;24;24;24;24;24;
  24;24;24;24;24;24;24;24;24;24;24;24;24;24;24;24;
  24;24;24;24;24;24;24;24;24;24;24;24;24;24;24;24;
  24;24;24;24;24;24;24;24;24;24;24;24;24;24;24;24;
  24;24;24;24;24;24;24;24;24;24;24;24;24;24;24;24;
  24;24;24;24;24;24;24;24;24;24;24;24;24;24;24;24;
  24;24;24;24;24;24;24;24;24;24;24;24;24;24;24;24;
  24;24;24;24;24;24;24;24;24;24;24;24;24;24;24;24;
  24;24;24;24;24;24;24;24;24;24;24;24;24;24;24;24;
  24;24;24;24;24;24;24;24;24;24;24;24;24;24;24;24;
  24;24;24;24;24;24;24;24;24;24;24;24;24;24;24;24;
  24;24;24;24;24;24;24;24;24;24;24;24;24;24;24;24;
  24;24;24;24;24;24;24;24;24;24;24;24;24;24;24;24;
  24;24;24;24;24;24;24;24;24;24;24;24;24;24;24;24;
  24;24;24;24;24;24;24;24;24;24;24;24;24;24;24;24;
  24;24;24;24;24;24;24;24;24;24;24;24;24;24;24;24;
  24;24;24;24;24;24;24;24;24;24;24;24;24;24;24;24;
  24;24;24;24;24;24;24;24;24;24;24;24;24;24;24;24;
  24;24;24;24;24;24;24;24;24;24;24;24;24;24;24;24;
  24;24;24;24;24;24;24;24;24;24;24;24;24;24;24;24;
  24;24;24;24;24;24;24;24;24;24;24;24;24;24;24;24;
  24;24;24;24;24;24;24;24;24;24;24;24;24;24;24;24;
  24;24;24;24;24;24;24;24;24;24;24;24;24;24;24;24;
  24;24;24;24;24;24;24;24;24;24;24;24;24;24;24;24;
  24;24;24;24;24;24;24;24;24;24;24;24;24;24;24;24;
  24;24;24;24;24;24;24;24;24;24;24;24;24;24;24;24;
  24;24;24;24;24;24;24;24;24;24;24;24;24;24;24;24;
  24;24;24;24;24;24;24;24;24;24;24;24;24;24;24;24;
  24;24;24;24;24;24;24;24;24;24;24;24;24;24;24;24;
  24;24;24;24;24;24;24;24;24;24;24;24;24;24;24;24;
  24;24;24;24;24;24;24;24;24;24;24;24;24;24;24;24;
  24;24;24;24;24;24;24;24;24;24;24;24;24;24;24;24;
  24;24;24;24;24;24;24;24;24;24;24;24;24;24;24;24;
  24;24;24;24;24;24;24;24;24;24;24;24;24;24;24;24;
  24;24;24;24;24;24;24;24;24;24;24;24;24;24;24;24;
  24;24;24;24;24;24;24;24;24;24;24;24;24;24;24;24;
  24;24;24;24;24;24;24;24;24;24;24;24;24;24;24;24;
  24;24;24;24;24;24;24;24;24;24;24;24;24;24;24;24;
  24;24;24;24;24;24;24;24;24;24;24;24;24;24;24;24;
  24;24;24;24;24;24;24;24;24;24;24;24;24;24;24;24;
  24;24;24;24;24;24;24;24;24;24;24;24;24;24;24;24;
  24;24;24;24;24;24;24;24;24;24;24;24;24;24;24;24;
  24;24;24;24;24;24;24;24;24;24;24;24;24;24;24;24;
  24;24;24;24;24;24;24;24;24;24;24;24;24;24;24;24;
  24;24;24;24;24;24;24;24;24;24;24;24;24;24;24;24;
  24;24;24;24;24;24;24;24;24;24;24;24;24;24;24;24;
  24;24;24;24;24;24;24;24;24;24;24;24;24;24;24;24;
  24;24;24;24;24;24;24;24;24;24;24;24;24;24;24;24;
  24;24;24;24;24;24;24;24;24;24;24;24;24;24;24;24;
  24;24;24;24;24;24;24;24;24;24;24;24;24;24;24;24;
  24;24;24;24;24;24;24;24;24;24;24;24;24;24;24;24;
  24;24;24;24;24;24;24;24;24;24;24;24;24;24;24;24;
  24;24;24;24;24;24;24;24;24;24;24;24;24;24;24;24;
  24;24;24;24;24;24;24;24;24;24;24;24;24;24;24;24;
  24;24;24;24;24;24;24;24;24;24;24;24;24;24;24;24;
  24;24;24;24;24;24;24;24;24;24;24;24;24;24;24;24;
  24;24;24;24;24;24;24;24;24;24;24;24;24;24;24;24;
  24;24;24;24;24;24;24;24;24;24;24;24;24;24;24;24;
  24;24;24;24;24;24;24;24;24;24;24;24;24;24;24;24;
  24;24;24;24;24;24;24;24;24;24;24;24;24;24;24;24;
  24;24;24;24;24;24;24;24;24;24;24;24;24;24;24;24;
  24;24;24;24;24;24;24;24;24;24;24;24;24;24;24;24;
  24;24;24;24;24;24;24;24;24;24;24;24;24;24;24;24;
  24;24;24;24;24;24;24;24;24;24;24;24;24;24;24;24;
  24;24;24;24;24;24;24;24;24;24;24;24;24;24;24;24;
  24;24;24;24;24;24;24;24;24;24;24;24;24;24;24;24;
  24;24;24;24;24;24;24;24;24;24;24;24;24;24;24;24;
  24;24;24;24;24;24;24;24;24;24;24;24;24;24;24;24;
  24;24;24;24;24;24;24;24;24;24;24;24;24;24;24;24;
  24;24;24;24;24;24;24;24;24;24;24;24;24;24;24;24;
  24;24;24;24;24;24;24;24;24;24;24;24;24;24;24;24;
  24;24;24;24;24;24;24;24;24;24;24;24;24;24;24;24;
  24;24;24;24;24;24;24;24;24;24;24;24;24;24;24;24;
  24;24;24;24;24;24;24;24;24;24;24;24;24;24;24;24;
  24;24;24;24;24;24;24;24;24;24;24;24;24;24;24;24;
  24;24;24;24;24;24;24;24;24;24;24;24;24;24;24;24;
  24;24;24;24;24;24;24;24;24;24;24;24;24;24;24;24;
  24;24;24;24;24;24;24;24;24;24;24;24;24;24;24;24;
  24;24;24;24;24;24;24;24;24;24;24;24;24;24;24;24;
  24;24;24;24;24;24;24;24;24;24;24;24;24;24;24;24;
  24;24;24;24;24;24;24;24;24;24;24;24;24;24;24;24;
  24;24;24;24;24;24;24;24;24;24;24;24;24;24;24;24;
  24;24;24;24;24;24;24;24;24;24;24;24;24;24;24;24;
  24;24;24;24;24;24;24;24;24;24;24;24;24;24;24;24;
  24;24;24;24;24;24;24;24;24;24;24;24;24;24;24;24;
  24;24;24;24;24;24;24;24;24;24;24;24;24;24;24;24;
  24;24;24;24;24;24;24;24;24;24;24;24;24;24;24;24;
  24;24;24;24;24;24;24;24;24;24;24;24;24;24;24;24;
  24;24;24;24;24;24;24;24;24;24;24;24;24;24;24;24;
  24;24;24;24;24;24;24;24;24;24;24;24;24;24;24;24;
  24;24;24;24;24;24;24;24;24;24;24;24;24;24;24;24;
  24;24;24;24;24;24;24;24;24;24;24;24;24;24;24;24;
  24;24;24;24;24;24;24;24;24;24;24;24;24;24;24;24;
  24;24;24;24;24;24;24;24;24;24;24;24;24;24;24;24;
  24;24;24;24;24;24;24;24;24;24;24;24;24;24;24;24;
  24;24;24;24;24;24;24;24;24;24;24;24;24;24;24;24;
  24;24;24;24;24;24;24;24;24;24;24;24;24;24;24;24;
  24;24;24;24;24;24;24;24;24;24;24;24;24;24;24;24;
  24;24;24;24;24;24;24;24;24;24;24;24;24;24;24;24;
  24;24;24;24;24;24;24;24;24;24;24;24;24;24;24;24;
  24;24;24;24;24;24;24;24;24;24;24;24;24;24;24;24;
  24;24;24;24;24;24;24;24;24;24;24;24;24;24;24;24;
  24;24;24;24;24;24;24;24;24;24;24;24;24;24;24;24;
  24;24;24;24;24;24;24;24;24;24;24;24;24;24;24;24;
  24;24;24;24;24;24;24;24;24;24;24;24;24;24;24;24;
  25;25;25;25;25;25;25;25;25;25;25;25;25;25;25;25;
  25;25;25;25;25;25;25;25;25;25;25;25;25;25;25;25;
  25;25;25;25;25;25;25;25;25;25;25;25;25;25;25;25;
  25;25;25;25;25;25;25;25;25;25;25;25;25;25;25;25;
  25;25;25;25;25;25;25;25;25;25;25;25;25;25;25;25;
  25;25;25;25;25;25;25;25;25;25;25;25;25;25;25;25;
  25;25;25;25;25;25;25;25;25;25;25;25;25;25;25;25;
  25;25;25;25;25;25;25;25;25;25;25;25;25;25;25;25;
  25;25;25;25;25;25;25;25;25;25;25;25;25;25;25;25;
  25;25;25;25;25;25;25;25;25;25;25;25;25;25;25;25;
  25;25;25;25;25;25;25;25;25;25;25;25;25;25;25;25;
  25;25;25;25;25;25;25;25;25;25;25;25;25;25;25;25;
  25;25;25;25;25;25;25;25;25;25;25;25;25;25;25;25;
  25;25;25;25;25;25;25;25;25;25;25;25;25;25;25;25;
  25;25;25;25;25;25;25;25;25;25;25;25;25;25;25;25;
  25;25;25;25;25;25;25;25;25;25;25;25;25;25;25;25;
  25;25;25;25;25;25;25;25;25;25;25;25;25;25;25;25;
  25;25;25;25;25;25;25;25;25;25;25;25;25;25;25;25;
  25;25;25;25;25;25;25;25;25;25;25;25;25;25;25;25;
  25;25;25;25;25;25;25;25;25;25;25;25;25;25;25;25;
  25;25;25;25;25;25;25;25;25;25;25;25;25;25;25;25;
  25;25;25;25;25;25;25;25;25;25;25;25;25;25;25;25;
  25;25;25;25;25;25;25;25;25;25;25;25;25;25;25;25;
  25;25;25;25;25;25;25;25;25;25;25;25;25;25;25;25;
  25;25;25;25;25;25;25;25;25;25;25;25;25;25;25;25;
  25;25;25;25;25;25;25;25;25;25;25;25;25;25;25;25;
  25;25;25;25;25;25;25;25;25;25;25;25;25;25;25;25;
  25;25;25;25;25;25;25;25;25;25;25;25;25;25;25;25;
  25;25;25;25;25;25;25;25;25;25;25;25;25;25;25;25;
  25;25;25;25;25;25;25;25;25;25;25;25;25;25;25;25;
  25;25;25;25;25;25;25;25;25;25;25;25;25;25;25;25;
  25;25;25;25;25;25;25;25;25;25;25;25;25;25;25;25;
  25;25;25;25;25;25;25;25;25;25;25;25;25;25;25;25;
  25;25;25;25;25;25;25;25;25;25;25;25;25;25;25;25;
  25;25;25;25;25;25;25;25;25;25;25;25;25;25;25;25;
  25;25;25;25;25;25;25;25;25;25;25;25;25;25;25;25;
  25;25;25;25;25;25;25;25;25;25;25;25;25;25;25;25;
  25;25;25;25;25;25;25;25;25;25;25;25;25;25;25;25;
  25;25;25;25;25;25;25;25;25;25;25;25;25;25;25;25;
  25;25;25;25;25;25;25;25;25;25;25;25;25;25;25;25;
  25;25;25;25;25;25;25;25;25;25;25;25;25;25;25;25;
  25;25;25;25;25;25;25;25;25;25;25;25;25;25;25;25;
  25;25;25;25;25;25;25;25;25;25;25;25;25;25;25;25;
  25;25;25;25;25;25;25;25;25;25;25;25;25;25;25;25;
  25;25;25;25;25;25;25;25;25;25;25;25;25;25;25;25;
  25;25;25;25;25;25;25;25;25;25;25;25;25;25;25;25;
  25;25;25;25;25;25;25;25;25;25;25;25;25;25;25;25;
  25;25;25;25;25;25;25;25;25;25;25;25;25;25;25;25;
  25;25;25;25;25;25;25;25;25;25;25;25;25;25;25;25;
  25;25;25;25;25;25;25;25;25;25;25;25;25;25;25;25;
  25;25;25;25;25;25;25;25;25;25;25;25;25;25;25;25;
  25;25;25;25;25;25;25;25;25;25;25;25;25;25;25;25;
  25;25;25;25;25;25;25;25;25;25;25;25;25;25;25;25;
  25;25;25;25;25;25;25;25;25;25;25;25;25;25;25;25;
  25;25;25;25;25;25;25;25;25;25;25;25;25;25;25;25;
  25;25;25;25;25;25;25;25;25;25;25;25;25;25;25;25;
  25;25;25;25;25;25;25;25;25;25;25;25;25;25;25;25;
  25;25;25;25;25;25;25;25;25;25;25;25;25;25;25;25;
  25;25;25;25;25;25;25;25;25;25;25;25;25;25;25;25;
  25;25;25;25;25;25;25;25;25;25;25;25;25;25;25;25;
  25;25;25;25;25;25;25;25;25;25;25;25;25;25;25;25;
  25;25;25;25;25;25;25;25;25;25;25;25;25;25;25;25;
  25;25;25;25;25;25;25;25;25;25;25;25;25;25;25;25;
  25;25;25;25;25;25;25;25;25;25;25;25;25;25;25;25;
  25;25;25;25;25;25;25;25;25;25;25;25;25;25;25;25;
  25;25;25;25;25;25;25;25;25;25;25;25;25;25;25;25;
  25;25;25;25;25;25;25;25;25;25;25;25;25;25;25;25;
  25;25;25;25;25;25;25;25;25;25;25;25;25;25;25;25;
  25;25;25;25;25;25;25;25;25;25;25;25;25;25;25;25;
  25;25;25;25;25;25;25;25;25;25;25;25;25;25;25;25;
  25;25;25;25;25;25;25;25;25;25;25;25;25;25;25;25;
  25;25;25;25;25;25;25;25;25;25;25;25;25;25;25;25;
  25;25;25;25;25;25;25;25;25;25;25;25;25;25;25;25;
  25;25;25;25;25;25;25;25;25;25;25;25;25;25;25;25;
  25;25;25;25;25;25;25;25;25;25;25;25;25;25;25;25;
  25;25;25;25;25;25;25;25;25;25;25;25;25;25;25;25;
  25;25;25;25;25;25;25;25;25;25;25;25;25;25;25;25;
  25;25;25;25;25;25;25;25;25;25;25;25;25;25;25;25;
  25;25;25;25;25;25;25;25;25;25;25;25;25;25;25;25;
  25;25;25;25;25;25;25;25;25;25;25;25;25;25;25;25;
  25;25;25;25;25;25;25;25;25;25;25;25;25;25;25;25;
  25;25;25;25;25;25;25;25;25;25;25;25;25;25;25;25;
  25;25;25;25;25;25;25;25;25;25;25;25;25;25;25;25;
  25;25;25;25;25;25;25;25;25;25;25;25;25;25;25;25;
  25;25;25;25;25;25;25;25;25;25;25;25;25;25;25;25;
  25;25;25;25;25;25;25;25;25;25;25;25;25;25;25;25;
  25;25;25;25;25;25;25;25;25;25;25;25;25;25;25;25;
  25;25;25;25;25;25;25;25;25;25;25;25;25;25;25;25;
  25;25;25;25;25;25;25;25;25;25;25;25;25;25;25;25;
  25;25;25;25;25;25;25;25;25;25;25;25;25;25;25;25;
  25;25;25;25;25;25;25;25;25;25;25;25;25;25;25;25;
  25;25;25;25;25;25;25;25;25;25;25;25;25;25;25;25;
  25;25;25;25;25;25;25;25;25;25;25;25;25;25;25;25;
  25;25;25;25;25;25;25;25;25;25;25;25;25;25;25;25;
  25;25;25;25;25;25;25;25;25;25;25;25;25;25;25;25;
  25;25;25;25;25;25;25;25;25;25;25;25;25;25;25;25;
  25;25;25;25;25;25;25;25;25;25;25;25;25;25;25;25;
  25;25;25;25;25;25;25;25;25;25;25;25;25;25;25;25;
  25;25;25;25;25;25;25;25;25;25;25;25;25;25;25;25;
  25;25;25;25;25;25;25;25;25;25;25;25;25;25;25;25;
  25;25;25;25;25;25;25;25;25;25;25;25;25;25;25;25;
  25;25;25;25;25;25;25;25;25;25;25;25;25;25;25;25;
  25;25;25;25;25;25;25;25;25;25;25;25;25;25;25;25;
  25;25;25;25;25;25;25;25;25;25;25;25;25;25;25;25;
  25;25;25;25;25;25;25;25;25;25;25;25;25;25;25;25;
  25;25;25;25;25;25;25;25;25;25;25;25;25;25;25;25;
  25;25;25;25;25;25;25;25;25;25;25;25;25;25;25;25;
  25;25;25;25;25;25;25;25;25;25;25;25;25;25;25;25;
  25;25;25;25;25;25;25;25;25;25;25;25;25;25;25;25;
  25;25;25;25;25;25;25;25;25;25;25;25;25;25;25;25;
  25;25;25;25;25;25;25;25;25;25;25;25;25;25;25;25;
  25;25;25;25;25;25;25;25;25;25;25;25;25;25;25;25;
  25;25;25;25;25;25;25;25;25;25;25;25;25;25;25;25;
  25;25;25;25;25;25;25;25;25;25;25;25;25;25;25;25;
  25;25;25;25;25;25;25;25;25;25;25;25;25;25;25;25;
  25;25;25;25;25;25;25;25;25;25;25;25;25;25;25;25;
  25;25;25;25;25;25;25;25;25;25;25;25;25;25;25;25;
  25;25;25;25;25;25;25;25;25;25;25;25;25;25;25;25;
  25;25;25;25;25;25;25;25;25;25;25;25;25;25;25;25;
  25;25;25;25;25;25;25;25;25;25;25;25;25;25;25;25;
  25;25;25;25;25;25;25;25;25;25;25;25;25;25;25;25;
  25;25;25;25;25;25;25;25;25;25;25;25;25;25;25;25;
  25;25;25;25;25;25;25;25;25;25;25;25;25;25;25;25;
  25;25;25;25;25;25;25;25;25;25;25;25;25;25;25;25;
  25;25;25;25;25;25;25;25;25;25;25;25;25;25;25;25;
  25;25;25;25;25;25;25;25;25;25;25;25;25;25;25;25;
  25;25;25;25;25;25;25;25;25;25;25;25;25;25;25;25;
  25;25;25;25;25;25;25;25;25;25;25;25;25;25;25;25
].

(** ** The generator: [main] of [fastpos_tablegen.c]

    The table is filled from index 2 on, slot by slot: [slot_fast] is stored
    [k] times in a row. *)

Definition fastpos_tablegen : list Z :=
  let fast_slots := 2 * FASTPOS_BITS in
  [0; 1] ++
  flat_map (fun slot_fast =>
      let k := Z.shiftl 1 (Z.shiftr slot_fast 1 - 1) in
      repeat slot_fast (Z.to_nat k))
    (seqZ 2 (fast_slots - 2)).

(** ** The macros and [get_dist_slot] *)

Definition fastpos_shift (extra n : Z) : Z := extra + n * (FASTPOS_BITS - 1).

Definition fastpos_limit (extra n : Z) : Z :=
  Z.shiftl 1 (FASTPOS_BITS + fastpos_shift extra n).

Definition fastpos_result (dist extra n : Z) : Z :=
  nth (Z.to_nat (Z.shiftr dist (fastpos_shift extra n))) lzma_fastpos 0
  + 2 * fastpos_shift extra n.

Definition get_dist_slot (dist : Z) : Z :=
  if dist <? fastpos_limit 0 0 then nth (Z.to_nat dist) lzma_fastpos 0
  else if dist <? fastpos_limit 0 1 then fastpos_result dist 0 1
  else fastpos_result dist 0 2.

(** [get_dist_slot_2] of the table version, with
    [FULL_DISTANCES_BITS = 7] ([lzma_common.h]). *)
Definition FULL_DISTANCES_BITS : Z := 7.

Definition get_dist_slot_2 (dist : Z) : Z :=
  if dist <? fastpos_limit (FULL_DISTANCES_BITS - 1) 0
  then fastpos_result dist (FULL_DISTANCES_BITS - 1) 0
  else if dist <? fastpos_limit (FULL_DISTANCES_BITS - 1) 1
  then fastpos_result dist (FULL_DISTANCES_BITS - 1) 1
  else fastpos_result dist (FULL_DISTANCES_BITS - 1) 2.

(** The [HAVE_SMALL] version computes the slot from the position of the
    highest set bit ([bsr32]). *)
Definition bsr32 (n : Z) : Z := Z.log2 n.

Definition dist_slot (dist : Z) : Z :=
  if dist <=? 4 then dist
  else
    let i := bsr32 dist in
    (i + i) + Z.land (Z.shiftr dist (i - 1)) 1.

(** ** The table *)

Lemma fastpos_generated : lzma_fastpos = fastpos_tablegen.
Proof. vm_compute. reflexivity. Qed.

Lemma fastpos_slots : lzma_fastpos = map dist_slot (seqZ 0 8192).
Proof. vm_compute. reflexivity. Qed.

Lemma fastpos_lookup d : 0 <= d < 8192 -> nth (Z.to_nat d) lzma_fastpos 0 = dist_slot d.
Proof.
  intros Hd. rewrite fastpos_slots. apply nth_lookup_Some.
  change (map dist_slot) with (fmap (M := list) dist_slot).
  rewrite list_lookup_fmap, lookup_seqZ_lt by lia. cbn [fmap option_fmap option_map].
  do 2 f_equal. lia.
Qed.

(** The formula also gives the slots 2, 3 and 4. *)
Lemma dist_slot_formula d :
  2 <= d -> dist_slot d = 2 * Z.log2 d + Z.land (Z.shiftr d (Z.log2 d - 1)) 1.
Proof.
  intros Hd. unfold dist_slot, bsr32. case_if; b2p; [|lia].
  assert (d = 2 \/ d = 3 \/ d = 4) as [-> | [-> | ->]] by lia; reflexivity.
Qed.

(** Dropping [k] low bits of a distance lowers its slot by [2 k]. *)
Lemma dist_slot_shift d k :
  0 <= k -> 2 <= Z.shiftr d k -> dist_slot d = dist_slot (Z.shiftr d k) + 2 * k.
Proof.
  intros Hk H. pose proof (Z.pow_pos_nonneg 2 k ltac:(lia) Hk).
  assert (2 <= d) as Hd.
  { rewrite Z.shiftr_div_pow2 in H by lia. pose proof (Z.mul_div_le d (2 ^ k)). nia. }
  rewrite !dist_slot_formula by lia.
  pose proof (Z.log2_pos (Z.shiftr d k) ltac:(lia)) as Hl. rewrite Z.log2_shiftr in * by lia.
  rewrite Z.max_r by lia. rewrite Z.shiftr_shiftr by lia.
  replace (k + (Z.log2 d - k - 1)) with (Z.log2 d - 1) by lia. lia.
Qed.

Lemma shiftr_bounds d s a b :
  0 <= s -> a * 2 ^ s <= d < b * 2 ^ s -> a <= Z.shiftr d s < b.
Proof.
  intros Hs H. rewrite Z.shiftr_div_pow2 by lia. pose proof (Z.pow_pos_nonneg 2 s).
  split; [apply Z.div_le_lower_bound|apply Z.div_lt_upper_bound]; lia.
Qed.

(** One look-up of the macros, [s] being the shift. *)
Lemma fastpos_result_ok d s :
  0 <= s -> 2 * 2 ^ s <= d < 8192 * 2 ^ s ->
  nth (Z.to_nat (Z.shiftr d s)) lzma_fastpos 0 + 2 * s = dist_slot d.
Proof.
  intros Hs Hd. pose proof (shiftr_bounds d s 2 8192 Hs Hd).
  rewrite fastpos_lookup, <- dist_slot_shift by lia. reflexivity.
Qed.

Lemma get_dist_slot_spec d : is_u32 d -> get_dist_slot d = dist_slot d.
Proof.
  unfold is_u32, get_dist_slot, fastpos_result. intros Hd.
  change (fastpos_limit 0 0) with 8192. change (fastpos_limit 0 1) with 33554432.
  change (fastpos_shift 0 1) with 12. change (fastpos_shift 0 2) with 24.
  case_if; b2p; [now apply fastpos_lookup|].
  case_if; b2p; apply fastpos_result_ok; lia.
Qed.

Lemma get_dist_slot_2_spec d : 128 <= d < 4294967296 -> get_dist_slot_2 d = dist_slot d.
Proof.
  unfold get_dist_slot_2, fastpos_result, FULL_DISTANCES_BITS. intros Hd.
  change (fastpos_limit (7 - 1) 0) with 524288. change (fastpos_limit (7 - 1) 1) with 2147483648.
  change (fastpos_shift (7 - 1) 0) with 6. change (fastpos_shift (7 - 1) 1) with 18.
  change (fastpos_shift (7 - 1) 2) with 30.
  case_if; b2p; [|case_if; b2p]; apply fastpos_result_ok; lia.
Qed.

(** The slot's first distance and the number of bits below the two it keeps:
    the decoder's view of a slot ([lzma_decoder.c], [SEQ_DIST]). *)
Lemma dist_slot_pow2 n : 1 <= n -> dist_slot (2 ^ n) = 2 * n.
Proof.
  intros. assert (2 ^ n = 2 * 2 ^ (n - 1)) as E
    by (rewrite <- Z.pow_succ_r by lia; f_equal; lia).
  pose proof (Z.pow_pos_nonneg 2 (n - 1)).
  rewrite dist_slot_formula, Z.log2_pow2, E, Z.shiftr_div_pow2, Z.div_mul by lia.
  change (Z.land 2 1) with 0. lia.
Qed.

Lemma dist_slot_3pow2 n : 1 <= n -> dist_slot (2 ^ n + 2 ^ (n - 1)) = 2 * n + 1.
Proof.
  intros. assert (2 ^ n = 2 * 2 ^ (n - 1)) as E
    by (rewrite <- Z.pow_succ_r by lia; f_equal; lia).
  pose proof (Z.pow_pos_nonneg 2 (n - 1)).
  rewrite dist_slot_formula by lia. rewrite (Z.log2_unique _ n) by (rewrite ?Z.pow_succ_r; lia).
  rewrite E, Z.shiftr_div_pow2 by lia.
  replace (2 * 2 ^ (n - 1) + 2 ^ (n - 1)) with (3 * 2 ^ (n - 1)) by lia.
  rewrite Z.div_mul by lia. reflexivity.
Qed.

(** ** Property *)

(** both table look-ups agree, on every distance their callers may pass,
    with the definition by the position of the highest bit, and the table in
    the repository is the output of its generator. *)
Theorem get_dist_slot_correct :
  lzma_fastpos = fastpos_tablegen /\
  (forall d, is_u32 d -> get_dist_slot d = dist_slot d) /\
  (forall d, 128 <= d < 4294967296 -> get_dist_slot_2 d = dist_slot d).
Proof. split_and!; [apply fastpos_generated|apply get_dist_slot_spec|apply get_dist_slot_2_spec]. Qed.

Lemma get_dist_slot_correct_witness : get_dist_slot 4294967295 = 63 /\ get_dist_slot_2 200 = 15.
Proof.
  destruct get_dist_slot_correct as (_ & H1 & H2).
  split; [rewrite H1|rewrite H2]; [reflexivity|unfold is_u32; lia|reflexivity|lia].
Defined.
