(* ===== verification/FilterProps.v ===== *)
(** * Filter properties of the .xz container

    The options of the filters and the Filter Properties fields that store
    them: [simple/simple_encoder.c], [simple/simple_decoder.c],
    [delta/delta_encoder.c], [delta/delta_decoder.c], [lzma/lzma_encoder.c],
    [lzma/lzma_decoder.c], [lzma/lzma2_encoder.c], [lzma/lzma2_decoder.c] and
    [lzma/lzma_encoder_presets.c] of [lib/archive/xz/src/liblzma].

    The decoders allocate the structure they fill.  [mem] is what
    [lzma_alloc] gives for an [lzma_options_lzma]: [None] when the allocation
    fails, otherwise the contents of the fresh memory, which the decoders
    overwrite in part. *)

From S2P Require Import Prelude FastPos.

(** ** Options ([api/lzma/lzma12.h], [bcj.h], [delta.h]) *)

Definition LZMA_DICT_SIZE_MIN : Z := 4096.
Definition LZMA_LCLP_MAX : Z := 4.
Definition LZMA_PB_MAX : Z := 4.
Definition LZMA_LC_DEFAULT : Z := 3.
Definition LZMA_LP_DEFAULT : Z := 0.
Definition LZMA_PB_DEFAULT : Z := 2.
Definition LZMA_MODE_FAST : Z := 1.
Definition LZMA_MODE_NORMAL : Z := 2.
Definition LZMA_MF_HC3 : Z := 0x03.
Definition LZMA_MF_HC4 : Z := 0x04.
Definition LZMA_MF_BT4 : Z := 0x14.

Record lzma_options_lzma := {
  dict_size : Z;
  preset_dict : option bytes;
  preset_dict_size : Z;
  lc : Z;
  lp : Z;
  pb : Z;
  mode : Z;
  nice_len : Z;
  mf : Z;
  depth : Z;
  ext_flags : Z;
  ext_size_low : Z;
  ext_size_high : Z;
}.

Definition LZMA_DELTA_TYPE_BYTE : Z := 0.
Definition LZMA_DELTA_DIST_MIN : Z := 1.
Definition LZMA_DELTA_DIST_MAX : Z := 256.

(** What the [void *options] member of an [lzma_filter] may point to. *)
Inductive filter_options :=
  | OptNull
  | OptBcj (start_offset : Z)
  | OptDelta (type dist : Z)
  | OptLzma (o : lzma_options_lzma).

(** The casts of the filter-specific functions.  Reading a structure of another
    type is undefined in C; the model reads a null pointer then, and the
    theorems are about options of the filter's own type. *)
Definition as_bcj (o : filter_options) : option Z :=
  match o with OptBcj start_offset => Some start_offset | _ => None end.
Definition as_delta (o : filter_options) : option (Z * Z) :=
  match o with OptDelta type dist => Some (type, dist) | _ => None end.
Definition as_lzma (o : filter_options) : option lzma_options_lzma :=
  match o with OptLzma o => Some o | _ => None end.

(** ** Branch/Call/Jump filters *)

Definition lzma_simple_props_size (options : filter_options) : res Z :=
  match as_bcj options with
  | None => Ok 0
  | Some start_offset => Ok (if start_offset =? 0 then 0 else 4)
  end.

Definition lzma_simple_props_encode (options : filter_options) : res bytes :=
  match as_bcj options with
  | None => Ok []
  | Some start_offset =>
      if start_offset =? 0 then Ok [] else Ok (write32le start_offset)
  end.

(** ** Delta *)

(** [UINT64_MAX] for invalid options, [sizeof(lzma_delta_coder)], which depends
    on the platform, otherwise. *)
Definition lzma_delta_coder_memusage (sizeof_lzma_delta_coder : Z) (options : filter_options) : Z :=
  match as_delta options with
  | None => UINT64_MAX
  | Some (type, dist) =>
      if negb (type =? LZMA_DELTA_TYPE_BYTE) || (dist <? LZMA_DELTA_DIST_MIN)
         || (dist >? LZMA_DELTA_DIST_MAX)
      then UINT64_MAX else sizeof_lzma_delta_coder
  end.

(** ** LZMA1 and LZMA2 *)

Definition is_lclppb_valid (o : lzma_options_lzma) : bool :=
  (lc o <=? LZMA_LCLP_MAX) && (lp o <=? LZMA_LCLP_MAX)
  && (u32 (lc o + lp o) <=? LZMA_LCLP_MAX) && (pb o <=? LZMA_PB_MAX).

(** [None]: the function returned [true], an error. *)
Definition lzma_lzma_lclppb_encode (o : lzma_options_lzma) : option Z :=
  if negb (is_lclppb_valid o) then None
  else Some (u8 ((pb o * 5 + lp o) * 9 + lc o)).

Definition lzma_lzma_lclppb_decode (o : lzma_options_lzma) (byte : Z) : option lzma_options_lzma :=
  if byte >? (4 * 5 + 4) * 9 + 8 then None
  else
    let pb' := byte / (9 * 5) in
    let byte := u8 (byte - pb' * 9 * 5) in
    let lp' := byte / 9 in
    let lc' := byte - lp' * 9 in
    if lc' + lp' >? LZMA_LCLP_MAX then None
    else Some {| dict_size := dict_size o; preset_dict := preset_dict o;
                 preset_dict_size := preset_dict_size o; lc := lc'; lp := lp'; pb := pb';
                 mode := mode o; nice_len := nice_len o; mf := mf o; depth := depth o;
                 ext_flags := ext_flags o; ext_size_low := ext_size_low o;
                 ext_size_high := ext_size_high o |}.

(** The assignments both decoders end with. *)
Definition set_dict (o : lzma_options_lzma) (size : Z) : lzma_options_lzma :=
  {| dict_size := size; preset_dict := None; preset_dict_size := 0;
     lc := lc o; lp := lp o; pb := pb o; mode := mode o; nice_len := nice_len o;
     mf := mf o; depth := depth o; ext_flags := ext_flags o;
     ext_size_low := ext_size_low o; ext_size_high := ext_size_high o |}.

Definition lzma_lzma_props_encode (options : filter_options) : res bytes :=
  match as_lzma options with
  | None => Err LZMA_PROG_ERROR
  | Some opt =>
      match lzma_lzma_lclppb_encode opt with
      | None => Err LZMA_PROG_ERROR
      | Some byte => Ok (byte :: write32le (dict_size opt))
      end
  end.

(** The rounding up of [lzma_lzma2_props_encode]: fill the bits below the two
    highest ones. *)
Definition round_up_dict (d : Z) : Z :=
  let d := Z.lor d (Z.shiftr d 2) in
  let d := Z.lor d (Z.shiftr d 3) in
  let d := Z.lor d (Z.shiftr d 4) in
  let d := Z.lor d (Z.shiftr d 8) in
  Z.lor d (Z.shiftr d 16).

Definition lzma_lzma2_props_encode (options : filter_options) : res bytes :=
  match as_lzma options with
  | None => Err LZMA_PROG_ERROR
  | Some opt =>
      let d := Z.max (dict_size opt) LZMA_DICT_SIZE_MIN in
      let d := round_up_dict (u32 (d - 1)) in
      if d =? UINT32_MAX then Ok [40]
      else Ok [u8 (get_dist_slot (u32 (d + 1)) - 24)]
  end.

(** [opt->dict_size] from the byte of the field. *)
Definition lzma2_dict_size (b : Z) : Z :=
  if b =? 40 then UINT32_MAX
  else u32 (Z.shiftl (Z.lor 2 (Z.land b 1)) (b / 2 + 11)).

(** ** Decoders *)

Section Decoders.

Variable mem : option lzma_options_lzma.

Definition lzma_simple_props_decode (props : bytes) : res filter_options :=
  if zlen props =? 0 then Ok OptNull
  else if negb (zlen props =? 4) then Err LZMA_OPTIONS_ERROR
  else
    match mem with
    | None => Err LZMA_MEM_ERROR
    | Some _ =>
        let start_offset := read32le props in
        if start_offset =? 0 then Ok OptNull else Ok (OptBcj start_offset)
    end.

Definition lzma_delta_props_decode (props : bytes) : res filter_options :=
  if negb (zlen props =? 1) then Err LZMA_OPTIONS_ERROR
  else
    match mem with
    | None => Err LZMA_MEM_ERROR
    | Some _ => Ok (OptDelta LZMA_DELTA_TYPE_BYTE (byte_at props 0 + 1))
    end.

Definition lzma_lzma_props_decode (props : bytes) : res filter_options :=
  if negb (zlen props =? 5) then Err LZMA_OPTIONS_ERROR
  else
    match mem with
    | None => Err LZMA_MEM_ERROR
    | Some o =>
        match lzma_lzma_lclppb_decode o (byte_at props 0) with
        | None => Err LZMA_OPTIONS_ERROR
        | Some o => Ok (OptLzma (set_dict o (read32le (from 1 props))))
        end
    end.

Definition lzma_lzma2_props_decode (props : bytes) : res filter_options :=
  if negb (zlen props =? 1) then Err LZMA_OPTIONS_ERROR
  else if negb (Z.land (byte_at props 0) 0xC0 =? 0) then Err LZMA_OPTIONS_ERROR
  else if byte_at props 0 >? 40 then Err LZMA_OPTIONS_ERROR
  else
    match mem with
    | None => Err LZMA_MEM_ERROR
    | Some o => Ok (OptLzma (set_dict o (lzma2_dict_size (byte_at props 0))))
    end.

End Decoders.

Definition lzma_delta_props_encode (options : filter_options) : res bytes :=
  if lzma_delta_coder_memusage 1 options =? UINT64_MAX then Err LZMA_PROG_ERROR
  else
    match as_delta options with
    | None => Err LZMA_PROG_ERROR
    | Some (_, dist) => Ok [u8 (dist - LZMA_DELTA_DIST_MIN)]
    end.

(** ** Presets: [lzma_lzma_preset] *)

Definition LZMA_PRESET_LEVEL_MASK : Z := 0x1F.
Definition LZMA_PRESET_EXTREME : Z := Z.shiftl 1 31.

Definition dict_pow2 : list Z := [18; 20; 21; 22; 22; 23; 23; 24; 25; 26].
Definition depths : list Z := [4; 8; 24; 48].

(** [None]: the function returned [true], the preset is not supported. *)
Definition lzma_lzma_preset (o : lzma_options_lzma) (preset : Z) : option lzma_options_lzma :=
  let level := Z.land preset LZMA_PRESET_LEVEL_MASK in
  let flags := Z.land preset (u32 (Z.lnot LZMA_PRESET_LEVEL_MASK)) in
  if (level >? 9) || negb (Z.land flags (u32 (Z.lnot LZMA_PRESET_EXTREME)) =? 0) then None
  else
    let '(mode', mf', nice_len', depth') :=
      if level <=? 3 then
        (LZMA_MODE_FAST, (if level =? 0 then LZMA_MF_HC3 else LZMA_MF_HC4),
         (if level <=? 1 then 128 else 273), nth (Z.to_nat level) depths 0)
      else
        (LZMA_MODE_NORMAL, LZMA_MF_BT4,
         (if level =? 4 then 16 else if level =? 5 then 32 else 64), 0) in
    let '(mode', mf', nice_len', depth') :=
      if negb (Z.land flags LZMA_PRESET_EXTREME =? 0) then
        if (level =? 3) || (level =? 5)
        then (LZMA_MODE_NORMAL, LZMA_MF_BT4, 192, 0)
        else (LZMA_MODE_NORMAL, LZMA_MF_BT4, 273, 512)
      else (mode', mf', nice_len', depth') in
    Some {| dict_size := Z.shiftl 1 (nth (Z.to_nat level) dict_pow2 0);
            preset_dict := None; preset_dict_size := 0;
            lc := LZMA_LC_DEFAULT; lp := LZMA_LP_DEFAULT; pb := LZMA_PB_DEFAULT;
            mode := mode'; nice_len := nice_len'; mf := mf'; depth := depth';
            ext_flags := ext_flags o; ext_size_low := ext_size_low o;
            ext_size_high := ext_size_high o |}.

(** ** Rounding the dictionary size up *)

Section RoundUp.

(** [y] has bit [n] as its highest one, its bit [n - 1] is [h], and the bits
    [n - j] with [j] in [js] are set. *)
Definition filled (n : Z) (h : bool) (js : list Z) (y : Z) : Prop :=
  (forall i, n < i -> Z.testbit y i = false) /\ Z.testbit y (n - 1) = h /\
  Forall (fun j => j <= n -> Z.testbit y (n - j) = true) js.

Lemma filled_step n h js y k :
  2 <= k -> 1 <= n -> filled n h js y -> filled n h (js ++ map (Z.add k) js) (Z.lor y (Z.shiftr y k)).
Proof.
  intros Hk Hn (Hhigh & Hh & Hjs). split_and!.
  - intros i Hi. destruct (Z.leb_spec 0 i); [|apply Z.testbit_neg_r; lia].
    autorewrite with bitwise. rewrite !Hhigh by lia. reflexivity.
  - autorewrite with bitwise. rewrite Hh, (Hhigh (n - 1 + k)) by lia. apply orb_false_r.
  - rewrite Forall_forall in Hjs. apply Forall_forall. intros j Hj Hjn.
    destruct (Z.leb_spec 0 (n - j)); [|lia]. autorewrite with bitwise.
    apply elem_of_app in Hj as [Hj|Hj].
    + rewrite (Hjs j Hj Hjn). reflexivity.
    + apply list_elem_of_In, in_map_iff in Hj as (j' & <- & Hj).
      apply list_elem_of_In in Hj. replace (n - (k + j') + k) with (n - j') by lia.
      rewrite (Hjs j' Hj) by lia. apply orb_true_r.
Qed.

Lemma filled_start n x :
  1 <= n -> 2 ^ n <= x < 2 ^ (n + 1) -> filled n (Z.testbit x (n - 1)) [0] x.
Proof.
  intros Hn Hx. assert (Z.log2 x = n) by (apply Z.log2_unique; rewrite ?Z.add_1_r in *; lia).
  split_and!; [|reflexivity|].
  - intros i Hi. apply Z.bits_above_log2; [|lia]. pose proof (Z.pow_nonneg 2 n). lia.
  - constructor; [|constructor]. intros _. rewrite Z.sub_0_r. subst n. apply Z.bit_log2.
    pose proof (Z.log2_nonneg x). destruct (Z.leb_spec x 0); [rewrite Z.log2_nonpos in *|]; lia.
Qed.

Lemma round_up_dict_filled n x :
  1 <= n -> 2 ^ n <= x < 2 ^ (n + 1) ->
  exists js, filled n (Z.testbit x (n - 1)) js (round_up_dict x) /\
    0 ∈ js /\ forall j, 2 <= j <= 31 -> j ∈ js.
Proof.
  intros Hn Hx. eexists. split.
  - unfold round_up_dict. do 5 (apply filled_step; [lia|lia|]). now apply filled_start.
  - split; [apply list_elem_of_In; simpl; auto|]. intros j Hj.
    set (js := _ ++ _).
    assert (forallb (fun k => existsb (Z.eqb (Z.of_nat k)) js) (seq 2 30) = true) as Hall
      by (vm_compute; reflexivity).
    rewrite forallb_forall in Hall. specialize (Hall (Z.to_nat j)).
    rewrite existsb_exists in Hall. destruct Hall as (k & Hin & Heq); [apply in_seq; lia|].
    b2p. rewrite Z2Nat.id in Heq by lia. subst k. now apply list_elem_of_In.
Qed.

(** The next [2^n - 1] or [2^n + 2^(n-1) - 1]. *)
Lemma round_up_dict_spec n x :
  1 <= n <= 31 -> 2 ^ n <= x < 2 ^ (n + 1) ->
  round_up_dict x =
    if x <? 2 ^ n + 2 ^ (n - 1) then 2 ^ n + (2 ^ (n - 1) - 1) else 2 ^ (n + 1) - 1.
Proof.
  intros Hn Hx. destruct (round_up_dict_filled n x) as (js & (Hhigh & Hh & Hjs) & H0 & Hin); [lia|lia|].
  rewrite Forall_forall in Hjs.
  assert (2 ^ n = 2 * 2 ^ (n - 1)) as E by (rewrite <- Z.pow_succ_r by lia; f_equal; lia).
  assert (2 ^ (n + 1) = 4 * 2 ^ (n - 1)) as E2
    by (change 4 with (2 ^ 2); rewrite <- Z.pow_add_r by lia; f_equal; lia).
  pose proof (Z.pow_pos_nonneg 2 (n - 1) ltac:(lia) ltac:(lia)).
  assert (Z.testbit x (n - 1) = negb (x <? 2 ^ n + 2 ^ (n - 1))) as Hbit.
  { rewrite Z.testbit_odd, Z.shiftr_div_pow2 by lia. rewrite E, E2 in *.
    destruct (Z.ltb_spec x (2 * 2 ^ (n - 1) + 2 ^ (n - 1))).
    - replace (x / 2 ^ (n - 1)) with 2 by (apply Z.div_unique with (x - 2 * 2 ^ (n - 1)); lia).
      reflexivity.
    - replace (x / 2 ^ (n - 1)) with 3 by (apply Z.div_unique with (x - 3 * 2 ^ (n - 1)); lia).
      reflexivity. }
  assert (forall i, 0 <= i < n - 1 -> Z.testbit (round_up_dict x) i = true) as Hlow.
  { intros i Hi. replace i with (n - (n - i)) by lia. apply Hjs; [apply Hin|]; lia. }
  assert (Z.testbit (round_up_dict x) n = true) as Htop.
  { specialize (Hjs 0 H0 ltac:(lia)). now rewrite Z.sub_0_r in Hjs. }
  rewrite Hbit in Hh. zbits i Hi.
  destruct (Z.ltb_spec x (2 ^ n + 2 ^ (n - 1))); cbn [negb] in Hh.
  - replace (2 ^ (n - 1) - 1) with (Z.ones (n - 1)) by (rewrite Z.ones_equiv; lia).
    rewrite E, <- lor_shifted, <- E by (rewrite ?Z.ones_equiv; lia).
    rewrite Z.lor_spec, Z.pow2_bits_eqb, Z.testbit_ones_nonneg by lia.
    destruct (Z.ltb_spec i (n - 1)); [now rewrite Hlow, orb_true_r by lia|].
    destruct (Z.eqb_spec n i) as [<-|]; [now rewrite Htop|].
    destruct (Z.eq_dec i (n - 1)) as [->|]; [now rewrite Hh|apply Hhigh; lia].
  - replace (2 ^ (n + 1) - 1) with (Z.ones (n + 1)) by (rewrite Z.ones_equiv; lia).
    rewrite Z.testbit_ones_nonneg by lia.
    destruct (Z.ltb_spec i (n + 1)); [|apply Hhigh; lia].
    destruct (Z.eq_dec i n) as [->|]; [assumption|].
    destruct (Z.eq_dec i (n - 1)) as [->|]; [assumption|apply Hlow; lia].
Qed.

End RoundUp.

(** ** LZMA2 Filter Properties *)

Section Lzma2Props.

(** A statement about a small range, decided by running it. *)
Lemma lzma2_byte_sweep (P : Z -> bool) :
  forallb (fun n => P (Z.of_nat n)) (seq 0 41) = true -> forall b, 0 <= b <= 40 -> P b = true.
Proof.
  intros Hall b Hb. rewrite forallb_forall in Hall.
  rewrite <- (Z2Nat.id b) by lia. apply Hall, in_seq. lia.
Qed.

(** [lzma2_dict_size] skips no representable size: the one after [b] is the
    least above it. *)
Lemma lzma2_dict_size_mono b b' :
  0 <= b <= 40 -> 0 <= b' <= 40 -> (lzma2_dict_size b <= lzma2_dict_size b' <-> b <= b').
Proof.
  intros Hb Hb'.
  assert (eqb (lzma2_dict_size b <=? lzma2_dict_size b') (b <=? b') = true) as H.
  { revert b' Hb'. apply (lzma2_byte_sweep (fun b' => eqb (lzma2_dict_size b <=? lzma2_dict_size b') (b <=? b'))).
    revert b Hb. apply (lzma2_byte_sweep (fun b => forallb (fun n =>
      eqb (lzma2_dict_size b <=? lzma2_dict_size (Z.of_nat n)) (b <=? Z.of_nat n)) (seq 0 41))).
    vm_compute. reflexivity. }
  apply eqb_prop in H. destruct (Z.leb_spec b b'); b2p; lia.
Qed.

Lemma lzma2_dict_size_range b : 0 <= b <= 40 -> 4096 <= lzma2_dict_size b <= UINT32_MAX.
Proof.
  intros Hb.
  assert (((4096 <=? lzma2_dict_size b) && (lzma2_dict_size b <=? UINT32_MAX)) = true) as H.
  { revert b Hb. apply (lzma2_byte_sweep
      (fun b => (4096 <=? lzma2_dict_size b) && (lzma2_dict_size b <=? UINT32_MAX))).
    vm_compute. reflexivity. }
  b2p. lia.
Qed.

(** The sizes [2^n] and [2^n + 2^(n-1)]. *)
Lemma lzma2_dict_size_pow2 n : 12 <= n <= 31 -> lzma2_dict_size (2 * n - 24) = 2 ^ n.
Proof.
  intros Hn. unfold lzma2_dict_size. bfalse (2 * n - 24 =? 40).
  replace (2 * n - 24) with ((n - 12) * 2) by lia. rewrite Z.div_mul by lia.
  change (Z.land ((n - 12) * 2) 1) with (Z.land ((n - 12) * 2) (2 ^ 1 - 1)).
  rewrite land_low, Z.mod_mul by lia. change (Z.lor 2 0) with (2 ^ 1).
  rewrite Z.shiftl_mul_pow2, <- Z.pow_add_r by lia.
  replace (1 + (n - 12 + 11)) with n by lia. apply u32_small. unfold is_u32.
  pose proof (Z.pow_le_mono_r 2 n 31). lia.
Qed.

Lemma lzma2_dict_size_3pow2 n :
  12 <= n <= 31 -> lzma2_dict_size (2 * n - 23) = 2 ^ n + 2 ^ (n - 1).
Proof.
  intros Hn. unfold lzma2_dict_size. bfalse (2 * n - 23 =? 40).
  replace (2 * n - 23) with (1 + (n - 12) * 2) by lia. rewrite Z.div_add by lia.
  change (Z.land (1 + (n - 12) * 2) 1) with (Z.land (1 + (n - 12) * 2) (2 ^ 1 - 1)).
  rewrite land_low, Z.mod_add by lia. change (Z.lor 2 (1 mod 2 ^ 1)) with 3.
  change (1 / 2) with 0. rewrite Z.shiftl_mul_pow2 by lia.
  replace (0 + (n - 12) + 11) with (n - 1) by lia.
  assert (2 ^ n = 2 * 2 ^ (n - 1)) by (rewrite <- Z.pow_succ_r by lia; f_equal; lia).
  rewrite u32_small; [lia|]. unfold is_u32. pose proof (Z.pow_le_mono_r 2 (n - 1) 30). lia.
Qed.

(** The byte the encoder stores for a dictionary of [size] bytes. *)
Lemma lzma2_encode_byte o :
  is_u32 (dict_size o) ->
  exists b, lzma_lzma2_props_encode (OptLzma o) = Ok [b] /\ 0 <= b <= 40 /\
    Z.max (dict_size o) LZMA_DICT_SIZE_MIN <= lzma2_dict_size b /\
    (0 < b -> lzma2_dict_size (b - 1) < Z.max (dict_size o) LZMA_DICT_SIZE_MIN).
Proof.
  unfold is_u32. intros Ho. unfold lzma_lzma2_props_encode. cbn [as_lzma].
  set (D := Z.max (dict_size o) LZMA_DICT_SIZE_MIN).
  assert (4096 <= D < 4294967296) as HD by (unfold D, LZMA_DICT_SIZE_MIN; lia).
  clearbody D. rewrite (u32_small (D - 1)) by (unfold is_u32; lia).
  pose (n := Z.log2 (D - 1)).
  pose proof (Z.log2_spec (D - 1) ltac:(lia)) as Hn. fold n in Hn. rewrite <- Z.add_1_r in Hn.
  assert (11 <= n <= 31) as Hr.
  { split; [apply Z.log2_le_pow2; lia|]. apply Z.lt_succ_r, Z.log2_lt_pow2; lia. }
  clearbody n. rewrite (round_up_dict_spec n) by lia.
  assert (2 ^ n = 2 * 2 ^ (n - 1)) as E by (rewrite <- Z.pow_succ_r by lia; f_equal; lia).
  assert (2 ^ (n + 1) = 2 * 2 ^ n) as E2 by (rewrite <- Z.pow_succ_r by lia; f_equal; lia).
  pose proof (Z.pow_le_mono_r 2 n 31 ltac:(lia) ltac:(lia)) as Hmax.
  pose proof (Z.pow_le_mono_r 2 10 (n - 1) ltac:(lia) ltac:(lia)) as Hmin.
  destruct (Z.ltb_spec (D - 1) (2 ^ n + 2 ^ (n - 1))).
  - (* the two highest bits are 10 *)
    assert (12 <= n) as Hn12.
    { destruct (Z.eq_dec n 11) as [->|]; [|lia]. change (2 ^ 11) with 2048 in *.
      change (2 ^ (11 - 1)) with 1024 in *. lia. }
    unfold UINT32_MAX. bfalse (2 ^ n + (2 ^ (n - 1) - 1) =? 4294967295).
    exists (2 * n - 23). rewrite u32_small by (unfold is_u32; lia).
    rewrite get_dist_slot_spec by (unfold is_u32; lia).
    replace (2 ^ n + (2 ^ (n - 1) - 1) + 1) with (2 ^ n + 2 ^ (n - 1)) by lia.
    rewrite dist_slot_3pow2, u8_small by (unfold is_byte; lia).
    rewrite lzma2_dict_size_3pow2 by lia. split_and!; try lia; [do 2 f_equal; lia|].
    replace (2 * n - 23 - 1) with (2 * n - 24) by lia. rewrite lzma2_dict_size_pow2 by lia. lia.
  - (* 11 *)
    destruct (Z.eqb_spec (2 ^ (n + 1) - 1) UINT32_MAX) as [H32|H32].
    + assert (n = 31) as -> by (apply (Z.pow_inj_r 2); unfold UINT32_MAX in *; lia).
      exists 40. change (lzma2_dict_size 40) with UINT32_MAX.
      change (lzma2_dict_size (40 - 1)) with 3221225472. unfold UINT32_MAX.
      change (2 ^ 31) with 2147483648 in *. change (2 ^ (31 - 1)) with 1073741824 in *.
      split_and!; try lia. reflexivity.
    + assert (n <= 30) as Hn30.
      { destruct (Z.eq_dec n 31) as [->|]; [|lia]. exfalso. apply H32. reflexivity. }
      pose proof (Z.pow_le_mono_r 2 n 30 ltac:(lia) ltac:(lia)) as Hmax'.
      exists (2 * n - 22). rewrite u32_small by (unfold is_u32; lia).
      rewrite get_dist_slot_spec by (unfold is_u32; lia). rewrite Z.sub_add, dist_slot_pow2 by lia.
      rewrite u8_small by (unfold is_byte; lia).
      replace (2 * n - 22) with (2 * (n + 1) - 24) by lia.
      rewrite lzma2_dict_size_pow2 by lia. split_and!; try lia; [do 2 f_equal; lia|].
      intros Hpos. replace (2 * (n + 1) - 24 - 1) with (2 * n - 23) by lia.
      rewrite lzma2_dict_size_3pow2 by lia. lia.
Qed.

(** The stored byte is the one of the size that the decoder reads back. *)
Lemma lzma2_encode_decoded o b :
  0 <= b <= 40 -> dict_size o = lzma2_dict_size b -> lzma_lzma2_props_encode (OptLzma o) = Ok [b].
Proof.
  intros Hb Hd. pose proof (lzma2_dict_size_range b Hb) as Hr. unfold UINT32_MAX in Hr.
  destruct (lzma2_encode_byte o) as (b' & -> & Hb' & Hge & Hlt); [unfold is_u32; lia|].
  rewrite Hd in *. rewrite Z.max_l in * by (unfold LZMA_DICT_SIZE_MIN; lia).
  apply (lzma2_dict_size_mono b b' Hb Hb') in Hge. destruct (Z.eq_dec b' b) as [->|]; [reflexivity|].
  assert (b <= b' - 1) as Hle by lia.
  apply (lzma2_dict_size_mono b (b' - 1) Hb ltac:(lia)) in Hle.
  specialize (Hlt ltac:(lia)). lia.
Qed.

Lemma lzma2_decode_byte m b :
  0 <= b <= 40 ->
  lzma_lzma2_props_decode (Some m) [b] = Ok (OptLzma (set_dict m (lzma2_dict_size b))).
Proof.
  intros Hb. unfold lzma_lzma2_props_decode. rewrite byte_at_0.
  change (negb (zlen [b] =? 1)) with false. cbn [negb].
  assert ((Z.land b 0xC0 =? 0) = true) as ->.
  { revert b Hb. apply (lzma2_byte_sweep (fun b => Z.land b 0xC0 =? 0)). reflexivity. }
  cbn [negb]. bfalse (b >? 40). reflexivity.
Qed.

End Lzma2Props.

(** ** LZMA1 Filter Properties *)

Section Lzma1Props.

Lemma lclppb_encode_decode m o :
  0 <= lc o -> 0 <= lp o -> 0 <= pb o -> is_lclppb_valid o = true ->
  exists byte, lzma_lzma_lclppb_encode o = Some byte /\ is_byte byte /\
    lzma_lzma_lclppb_decode m byte =
      Some {| dict_size := dict_size m; preset_dict := preset_dict m;
              preset_dict_size := preset_dict_size m; lc := lc o; lp := lp o; pb := pb o;
              mode := mode m; nice_len := nice_len m; mf := mf m; depth := depth m;
              ext_flags := ext_flags m; ext_size_low := ext_size_low m;
              ext_size_high := ext_size_high m |}.
Proof.
  intros Hlc Hlp Hpb Hv. unfold lzma_lzma_lclppb_encode. rewrite Hv. cbn [negb].
  unfold is_lclppb_valid, LZMA_LCLP_MAX, LZMA_PB_MAX in Hv. b2p.
  rewrite u32_small in * by (unfold is_u32; lia).
  set (byte := (pb o * 5 + lp o) * 9 + lc o). exists byte.
  assert (is_byte byte) as Hb by (unfold is_byte, byte; lia).
  rewrite u8_small by assumption. split_and!; [reflexivity|assumption|].
  unfold lzma_lzma_lclppb_decode, LZMA_LCLP_MAX. bfalse (byte >? (4 * 5 + 4) * 9 + 8).
  replace (byte / (9 * 5)) with (pb o) by (unfold byte; dlia).
  rewrite u8_small by (unfold is_byte, byte; lia).
  replace ((byte - pb o * 9 * 5) / 9) with (lp o) by (unfold byte; dlia).
  replace (byte - pb o * 9 * 5 - lp o * 9) with (lc o) by (unfold byte; lia).
  bfalse (lc o + lp o >? 4). reflexivity.
Qed.

(** The decoder accepts the bytes of valid options only, and they are encoded
    as that byte again. *)
Lemma lclppb_decode_canonical m byte o :
  is_byte byte -> lzma_lzma_lclppb_decode m byte = Some o ->
  0 <= lc o /\ 0 <= lp o /\ 0 <= pb o /\ is_lclppb_valid o = true /\
  lzma_lzma_lclppb_encode o = Some byte.
Proof.
  intros Hb H. unfold lzma_lzma_lclppb_decode in H.
  destruct (byte >? _) eqn:Hmax; [discriminate|].
  assert (byte <= 224) as Hle by lia. unfold is_byte in Hb.
  rewrite u8_small in H by (unfold is_byte; dlia).
  destruct (_ >? LZMA_LCLP_MAX) eqn:Hlclp; [discriminate|]. unfold LZMA_LCLP_MAX in Hlclp.
  injection H as <-. unfold lzma_lzma_lclppb_encode, is_lclppb_valid, LZMA_LCLP_MAX, LZMA_PB_MAX.
  cbn [lc lp pb]. rewrite u32_small by (unfold is_u32; dlia).
  match goal with |- context [negb ?b] => assert (b = true) as -> by
    (rewrite !andb_true_iff, !Z.leb_le; dlia) end.
  cbn [negb]. split_and!; try dlia; try reflexivity. rewrite u8_small by (unfold is_byte; dlia).
  f_equal. dlia.
Qed.

End Lzma1Props.

(** ** Presets *)

Section Presets.

(** The supported presets: levels 0 to 9, with or without the extreme flag. *)
Definition preset_supported (preset : Z) : Prop :=
  0 <= preset <= 9 \/ 2147483648 <= preset <= 2147483657.

Lemma preset_low_sweep (P : Z -> bool) (n : nat) :
  forallb (fun k => P (Z.of_nat k)) (seq 0 n) = true -> forall l, 0 <= l < Z.of_nat n -> P l = true.
Proof.
  intros Hall l Hl. rewrite forallb_forall in Hall.
  rewrite <- (Z2Nat.id l) by lia. apply Hall, in_seq. lia.
Qed.

(** The two fields of a preset. *)
Lemma preset_fields p :
  is_u32 p ->
  Z.land p LZMA_PRESET_LEVEL_MASK = p mod 32 /\
  Z.land p (u32 (Z.lnot LZMA_PRESET_LEVEL_MASK)) = p - p mod 32.
Proof.
  unfold is_u32. intros Hp. split; [now apply (land_low 5)|].
  unfold u32. change 4294967296 with (2 ^ 32). rewrite <- Z.land_ones by lia.
  rewrite Z.land_assoc, Z.land_ones by lia.
  change LZMA_PRESET_LEVEL_MASK with (2 ^ 5 - 1). rewrite land_high by lia.
  change (2 ^ 5) with 32. apply Z.mod_small. change (2 ^ 32) with 4294967296. dlia.
Qed.

(** Only the highest bit may be set in the flags. *)
Lemma preset_flags f :
  is_u32 f -> Z.land f (u32 (Z.lnot LZMA_PRESET_EXTREME)) = 0 <-> f = 0 \/ f = 2147483648.
Proof.
  unfold is_u32. intros Hf. change (u32 (Z.lnot LZMA_PRESET_EXTREME)) with (2 ^ 31 - 1).
  rewrite land_low by lia. change (2 ^ 31) with 2147483648. dlia.
Qed.

Lemma preset_unsupported o p :
  is_u32 p -> lzma_lzma_preset o p <> None -> preset_supported p.
Proof.
  intros Hp H. unfold lzma_lzma_preset in H. destruct (preset_fields p Hp) as [El Ef].
  rewrite El, Ef in H. unfold is_u32 in Hp.
  destruct (_ || _) eqn:E in H; [congruence|]. apply orb_false_iff in E as [E1 E2]. b2p.
  apply preset_flags in E2; [|unfold is_u32; dlia]. unfold preset_supported. dlia.
Qed.

(** What the options of a preset satisfy: the limits that the validation of
    the encoder checks, and the recommended ranges of [lzma12.h]. *)
Definition preset_options_ok (o : lzma_options_lzma) : bool :=
  is_lclppb_valid o && (2 ^ 18 <=? dict_size o) && (dict_size o <=? 2 ^ 26)
  && (4 <=? nice_len o) && (nice_len o <=? 273) && (depth o <=? 512)
  && ((mode o =? LZMA_MODE_FAST) && ((mf o =? LZMA_MF_HC3) || (mf o =? LZMA_MF_HC4))
      || (mode o =? LZMA_MODE_NORMAL) && (mf o =? LZMA_MF_BT4))
  && (preset_dict_size o =? 0).

Lemma preset_ok o p :
  preset_supported p ->
  exists o', lzma_lzma_preset o p = Some o' /\ preset_options_ok o' = true.
Proof.
  intros Hp.
  assert (match lzma_lzma_preset o p with Some o' => preset_options_ok o' | None => false end = true) as H.
  { destruct Hp as [Hp|Hp].
    - apply (preset_low_sweep (fun p => match lzma_lzma_preset o p with
        Some o' => preset_options_ok o' | None => false end) 10); [vm_compute; reflexivity|lia].
    - replace p with (2147483648 + (p - 2147483648)) by lia.
      apply (preset_low_sweep (fun p => match lzma_lzma_preset o (2147483648 + p) with
        Some o' => preset_options_ok o' | None => false end) 10); [vm_compute; reflexivity|lia]. }
  destruct (lzma_lzma_preset o p) as [o'|]; [eauto|discriminate].
Qed.

End Presets.

(** ** Properties *)

(** the LZMA2 dictionary size.  For every [dict_size] the encoder stores
    one byte, and the decoder reads from it a size that is at least as large,
    the smallest of the 41 sizes that are; a size it has read is stored as the
    same byte again. *)
Theorem lzma2_dict_size_roundtrip m o :
  is_u32 (dict_size o) ->
  exists b o',
    lzma_lzma2_props_encode (OptLzma o) = Ok [b] /\
    lzma_lzma2_props_decode (Some m) [b] = Ok (OptLzma o') /\
    Z.max (dict_size o) LZMA_DICT_SIZE_MIN <= dict_size o' /\
    (forall b' o'', is_byte b' -> lzma_lzma2_props_decode (Some m) [b'] = Ok (OptLzma o'') ->
      Z.max (dict_size o) LZMA_DICT_SIZE_MIN <= dict_size o'' -> dict_size o' <= dict_size o'') /\
    lzma_lzma2_props_encode (OptLzma o') = Ok [b].
Proof.
  intros Ho. destruct (lzma2_encode_byte o Ho) as (b & He & Hb & Hge & Hlt).
  exists b, (set_dict m (lzma2_dict_size b)). split_and!; auto using lzma2_decode_byte.
  - intros b' o'' Hb' Hd Hge'. unfold is_byte in Hb'. cbn [set_dict dict_size].
    destruct (Z.leb_spec b' 40) as [Hb40|Hb40].
    + rewrite lzma2_decode_byte in Hd by lia. injection Hd as <-. cbn [set_dict dict_size] in *.
      apply lzma2_dict_size_mono; [lia|lia|]. destruct (Z.leb_spec b b'); [assumption|].
      pose proof (proj2 (lzma2_dict_size_mono b' (b - 1) ltac:(lia) ltac:(lia))). lia.
    + unfold lzma_lzma2_props_decode in Hd. rewrite byte_at_0 in Hd.
      btrue (b' >? 40) in Hd. change (negb (zlen [b'] =? 1)) with false in Hd.
      destruct (negb _) in Hd; discriminate.
  - apply lzma2_encode_decoded; [assumption|reflexivity].
Qed.

Definition options_example : lzma_options_lzma :=
  {| dict_size := 5000; preset_dict := None; preset_dict_size := 0; lc := 3; lp := 0; pb := 2;
     mode := 2; nice_len := 64; mf := 20; depth := 0; ext_flags := 0; ext_size_low := 0;
     ext_size_high := 0 |}.

Lemma lzma2_dict_size_roundtrip_witness :
  exists b o', lzma_lzma2_props_encode (OptLzma options_example) = Ok [b] /\
    lzma_lzma2_props_decode (Some options_example) [b] = Ok (OptLzma o') /\ 5000 <= dict_size o'.
Proof.
  destruct (lzma2_dict_size_roundtrip options_example options_example)
    as (b & o' & He & Hd & Hge & _); [unfold is_u32; cbn; lia|].
  exists b, o'. split_and!; assumption.
Defined.

(** lc, lp and pb.  Options the encoder accepts are stored in a byte from
    which the decoder restores them, the encoder rejects all others, and every
    byte the decoder accepts is what the encoder stores for its result. *)
Theorem lclppb_roundtrip m o :
  0 <= lc o -> 0 <= lp o -> 0 <= pb o ->
  (is_lclppb_valid o = false -> lzma_lzma_lclppb_encode o = None) /\
  (is_lclppb_valid o = true ->
    exists byte o', lzma_lzma_lclppb_encode o = Some byte /\ is_byte byte /\
      lzma_lzma_lclppb_decode m byte = Some o' /\ lc o' = lc o /\ lp o' = lp o /\ pb o' = pb o) /\
  (forall byte o', is_byte byte -> lzma_lzma_lclppb_decode m byte = Some o' ->
    is_lclppb_valid o' = true /\ lzma_lzma_lclppb_encode o' = Some byte).
Proof.
  intros Hlc Hlp Hpb. split_and!.
  - intros H. unfold lzma_lzma_lclppb_encode. now rewrite H.
  - intros Hv. destruct (lclppb_encode_decode m o Hlc Hlp Hpb Hv) as (byte & He & Hb & Hd).
    exists byte. eexists. split_and!; try eassumption; reflexivity.
  - intros byte o' Hb Hd. destruct (lclppb_decode_canonical m byte o' Hb Hd) as (_ & _ & _ & ? & ?).
    now split.
Qed.

Lemma lclppb_roundtrip_witness :
  exists byte, lzma_lzma_lclppb_encode options_example = Some byte /\
    exists o', lzma_lzma_lclppb_decode options_example byte = Some o' /\ lc o' = 3.
Proof.
  destruct (lclppb_roundtrip options_example options_example) as (_ & H & _); [cbn; lia..|].
  destruct (H eq_refl) as (byte & o' & He & _ & Hd & Hlc & _). exists byte. split; [exact He|].
  exists o'. split; [exact Hd|exact Hlc].
Defined.

(** [lzma_lzma_preset] supports exactly the levels 0 to 9 with or without
    [LZMA_PRESET_EXTREME], and the options of each of them are within the
    limits the encoder validates. *)
Theorem preset_correct o p :
  is_u32 p ->
  (lzma_lzma_preset o p <> None <-> preset_supported p) /\
  (forall o', lzma_lzma_preset o p = Some o' -> preset_options_ok o' = true).
Proof.
  intros Hp. split.
  - split; [now apply preset_unsupported|]. intros Hs.
    destruct (preset_ok o p Hs) as (o' & -> & _). discriminate.
  - intros o' E. assert (lzma_lzma_preset o p <> None) as Hne by congruence.
    apply preset_unsupported in Hne; [|assumption].
    destruct (preset_ok o p Hne) as (o2 & E2 & Hok). congruence.
Qed.

Lemma preset_correct_witness : lzma_lzma_preset options_example 10 = None.
Proof.
  destruct (lzma_lzma_preset options_example 10) as [o|] eqn:E; [|reflexivity].
  exfalso. assert (lzma_lzma_preset options_example 10 <> None) as H by congruence.
  apply (preset_correct options_example 10) in H; [unfold preset_supported in H; lia|].
  unfold is_u32. lia.
Defined.
