(* ===== verification/FilterFlags.v ===== *)
(** * Filter Flags and filter chains of the .xz container

    [filter_encoder.c], [filter_decoder.c], [filter_flags_encoder.c],
    [filter_flags_decoder.c] and the chain validation of [filter_common.c], all
    of [lib/archive/xz/src/liblzma/common], in the configuration the build
    uses (every filter is compiled in, in both directions). *)

From S2P Require Import Prelude Vli FilterProps.

(** ** Filters ([api/lzma/filter.h]) *)

Definition LZMA_FILTERS_MAX : Z := 4.
Definition LZMA_FILTER_RESERVED_START : Z := 4611686018427387904.

Definition LZMA_FILTER_DELTA : Z := 0x03.
Definition LZMA_FILTER_X86 : Z := 0x04.
Definition LZMA_FILTER_POWERPC : Z := 0x05.
Definition LZMA_FILTER_IA64 : Z := 0x06.
Definition LZMA_FILTER_ARM : Z := 0x07.
Definition LZMA_FILTER_ARMTHUMB : Z := 0x08.
Definition LZMA_FILTER_SPARC : Z := 0x09.
Definition LZMA_FILTER_ARM64 : Z := 0x0A.
Definition LZMA_FILTER_RISCV : Z := 0x0B.
Definition LZMA_FILTER_LZMA2 : Z := 0x21.
Definition LZMA_FILTER_LZMA1 : Z := 0x4000000000000001.
Definition LZMA_FILTER_LZMA1EXT : Z := 0x4000000000000002.

Record lzma_filter := {
  filter_id : Z;
  options : filter_options;
}.

(** ** The encoders and the decoders *)

Record lzma_filter_encoder := {
  enc_id : Z;
  props_size_get : option (filter_options -> res Z);
  props_size_fixed : Z;
  props_encode : option (filter_options -> res bytes);
}.

Definition lzma_encoder_entry (id size : Z) (encode : filter_options -> res bytes) :=
  {| enc_id := id; props_size_get := None; props_size_fixed := size; props_encode := Some encode |}.

Definition simple_encoder_entry (id : Z) :=
  {| enc_id := id; props_size_get := Some lzma_simple_props_size; props_size_fixed := 0;
     props_encode := Some lzma_simple_props_encode |}.

Definition encoders : list lzma_filter_encoder :=
  [ lzma_encoder_entry LZMA_FILTER_LZMA1 5 lzma_lzma_props_encode;
    lzma_encoder_entry LZMA_FILTER_LZMA1EXT 5 lzma_lzma_props_encode;
    lzma_encoder_entry LZMA_FILTER_LZMA2 1 lzma_lzma2_props_encode;
    simple_encoder_entry LZMA_FILTER_X86;
    simple_encoder_entry LZMA_FILTER_POWERPC;
    simple_encoder_entry LZMA_FILTER_IA64;
    simple_encoder_entry LZMA_FILTER_ARM;
    simple_encoder_entry LZMA_FILTER_ARMTHUMB;
    simple_encoder_entry LZMA_FILTER_ARM64;
    simple_encoder_entry LZMA_FILTER_SPARC;
    simple_encoder_entry LZMA_FILTER_RISCV;
    lzma_encoder_entry LZMA_FILTER_DELTA 1 lzma_delta_props_encode ].

Definition encoder_find (id : Z) : option lzma_filter_encoder :=
  find (fun e => enc_id e =? id) encoders.

Definition lzma_filter_encoder_is_supported (id : Z) : bool :=
  match encoder_find id with Some _ => true | None => false end.

Definition lzma_properties_size (filter : lzma_filter) : res Z :=
  match encoder_find (filter_id filter) with
  | None =>
      if filter_id filter <=? LZMA_VLI_MAX then Err LZMA_OPTIONS_ERROR else Err LZMA_PROG_ERROR
  | Some fe =>
      match props_size_get fe with
      | None => Ok (props_size_fixed fe)
      | Some get => get (options filter)
      end
  end.

(** The bytes stored at [props]. *)
Definition lzma_properties_encode (filter : lzma_filter) : res bytes :=
  match encoder_find (filter_id filter) with
  | None => Err LZMA_PROG_ERROR
  | Some fe =>
      match props_encode fe with
      | None => Ok []
      | Some encode => encode (options filter)
      end
  end.

Section Decode.

(** The memory that [lzma_alloc] provides to the decoders of the properties. *)
Variable mem : option lzma_options_lzma.

Record lzma_filter_decoder := {
  dec_id : Z;
  props_decode : option (bytes -> res filter_options);
}.

Definition simple_decoder_entry (id : Z) :=
  {| dec_id := id; props_decode := Some (lzma_simple_props_decode mem) |}.

Definition decoders : list lzma_filter_decoder :=
  [ {| dec_id := LZMA_FILTER_LZMA1; props_decode := Some (lzma_lzma_props_decode mem) |};
    {| dec_id := LZMA_FILTER_LZMA1EXT; props_decode := Some (lzma_lzma_props_decode mem) |};
    {| dec_id := LZMA_FILTER_LZMA2; props_decode := Some (lzma_lzma2_props_decode mem) |};
    simple_decoder_entry LZMA_FILTER_X86;
    simple_decoder_entry LZMA_FILTER_POWERPC;
    simple_decoder_entry LZMA_FILTER_IA64;
    simple_decoder_entry LZMA_FILTER_ARM;
    simple_decoder_entry LZMA_FILTER_ARMTHUMB;
    simple_decoder_entry LZMA_FILTER_ARM64;
    simple_decoder_entry LZMA_FILTER_SPARC;
    simple_decoder_entry LZMA_FILTER_RISCV;
    {| dec_id := LZMA_FILTER_DELTA; props_decode := Some (lzma_delta_props_decode mem) |} ].

Definition decoder_find (id : Z) : option lzma_filter_decoder :=
  find (fun d => dec_id d =? id) decoders.

Definition lzma_filter_decoder_is_supported (id : Z) : bool :=
  match decoder_find id with Some _ => true | None => false end.

(** The options that the filter gets; it has none after an error. *)
Definition lzma_properties_decode (id : Z) (props : bytes) : res filter_options :=
  match decoder_find id with
  | None => Err LZMA_OPTIONS_ERROR
  | Some fd =>
      match props_decode fd with
      | None => if zlen props =? 0 then Ok OptNull else Err LZMA_OPTIONS_ERROR
      | Some decode => decode props
      end
  end.

(** [lzma_filter_flags_decode]: the filter and the input behind its flags. *)
Definition lzma_filter_flags_decode (input : bytes) : res (lzma_filter * bytes) :=
  let? (id, input) := vli_decode input in
  if id >=? LZMA_FILTER_RESERVED_START then Err LZMA_DATA_ERROR
  else
    let? (props_size, input) := vli_decode input in
    if zlen input <? props_size then Err LZMA_DATA_ERROR
    else
      let? opts := lzma_properties_decode id (slice 0 props_size input) in
      Ok ({| filter_id := id; options := opts |}, from props_size input).

End Decode.

(** ** Filter Flags, encoding *)

Definition lzma_filter_flags_size (filter : lzma_filter) : res Z :=
  if filter_id filter >=? LZMA_FILTER_RESERVED_START then Err LZMA_PROG_ERROR
  else
    let? size := lzma_properties_size filter in
    Ok (u32 (size + u32 (lzma_vli_size (filter_id filter) + lzma_vli_size size))).

(** [avail] is [out_size - *out_pos]; the result is the bytes stored. *)
Definition lzma_filter_flags_encode (filter : lzma_filter) (avail : nat) : res bytes :=
  if filter_id filter >=? LZMA_FILTER_RESERVED_START then Err LZMA_PROG_ERROR
  else
    let? id := vli_encode (filter_id filter) avail in
    let? props_size := lzma_properties_size filter in
    let? size := vli_encode props_size (avail - length id) in
    if zlen id + zlen size + props_size >? Z.of_nat avail then Err LZMA_PROG_ERROR
    else
      let? props := lzma_properties_encode filter in
      Ok (id ++ size ++ props).

(** ** Filter chains ([filter_common.c])

    A chain is an array terminated by the ID [LZMA_VLI_UNKNOWN]: here the list
    of the filters before the terminator. *)

Record filter_features := {
  feature_id : Z;
  non_last_ok : bool;
  last_ok : bool;
  changes_size : bool;
}.

Definition last_filter (id : Z) : filter_features :=
  {| feature_id := id; non_last_ok := false; last_ok := true; changes_size := true |}.
Definition non_last_filter (id : Z) : filter_features :=
  {| feature_id := id; non_last_ok := true; last_ok := false; changes_size := false |}.

Definition features : list filter_features :=
  [ last_filter LZMA_FILTER_LZMA1;
    last_filter LZMA_FILTER_LZMA1EXT;
    last_filter LZMA_FILTER_LZMA2;
    non_last_filter LZMA_FILTER_X86;
    non_last_filter LZMA_FILTER_POWERPC;
    non_last_filter LZMA_FILTER_IA64;
    non_last_filter LZMA_FILTER_ARM;
    non_last_filter LZMA_FILTER_ARMTHUMB;
    non_last_filter LZMA_FILTER_ARM64;
    non_last_filter LZMA_FILTER_SPARC;
    non_last_filter LZMA_FILTER_RISCV;
    non_last_filter LZMA_FILTER_DELTA ].

Definition feature_find (id : Z) : option filter_features :=
  find (fun f => feature_id f =? id) features.

(** The [do ... while] loop of [lzma_validate_chain]: [non_last_ok] is about
    the previous filter; the result is the flag [last_ok] of the last filter,
    the number of filters that change the size, and the length of the chain. *)
Fixpoint validate_loop (filters : list lzma_filter) (prev_non_last_ok prev_last_ok : bool)
    (changes_size_count i : Z) : res (bool * Z * Z) :=
  match filters with
  | [] => Ok (prev_last_ok, changes_size_count, i)
  | f :: rest =>
      match feature_find (filter_id f) with
      | None => Err LZMA_OPTIONS_ERROR
      | Some fe =>
          if negb prev_non_last_ok then Err LZMA_OPTIONS_ERROR
          else validate_loop rest (non_last_ok fe) (last_ok fe)
                 (changes_size_count + Z.b2z (changes_size fe)) (i + 1)
      end
  end.

(** [*count] when the chain is valid. *)
Definition lzma_validate_chain (filters : list lzma_filter) : res Z :=
  match filters with
  | [] => Err LZMA_PROG_ERROR
  | _ =>
      let? (last, changes, i) := validate_loop filters true false 0 0 in
      if (i >? LZMA_FILTERS_MAX) || negb last || (changes >? 3)
      then Err LZMA_OPTIONS_ERROR else Ok i
  end.

(** The loop of [lzma_filters_copy]; the allocations succeed. *)
Fixpoint filters_copy_loop (src : list lzma_filter) (i : Z) : res (list lzma_filter) :=
  match src with
  | [] => Ok []
  | f :: rest =>
      if i =? LZMA_FILTERS_MAX then Err LZMA_OPTIONS_ERROR
      else
        match options f, feature_find (filter_id f) with
        | OptNull, _ | _, Some _ =>
            let? dest := filters_copy_loop rest (i + 1) in Ok (f :: dest)
        | _, None => Err LZMA_OPTIONS_ERROR
        end
  end.

Definition lzma_filters_copy (src : list lzma_filter) : res (list lzma_filter) :=
  filters_copy_loop src 0.

Example x86_flags :
  lzma_filter_flags_encode {| filter_id := LZMA_FILTER_X86; options := OptBcj 4096 |} 20 =
  Ok [4; 4; 0; 16; 0; 0].
Proof. reflexivity. Qed.

Example chain_ex :
  lzma_validate_chain [{| filter_id := 4; options := OptNull |}; {| filter_id := 33; options := OptNull |}]
  = Ok 2.
Proof. reflexivity. Qed.

(** ** Options of the right type *)

Definition bcj_ids : list Z :=
  [ LZMA_FILTER_X86; LZMA_FILTER_POWERPC; LZMA_FILTER_IA64; LZMA_FILTER_ARM;
    LZMA_FILTER_ARMTHUMB; LZMA_FILTER_SPARC; LZMA_FILTER_ARM64; LZMA_FILTER_RISCV ].

(** The filter has options of its type whose values are within their limits:
    what the caller of the encoder has to provide. *)
Definition filter_ok (f : lzma_filter) : Prop :=
  match options f with
  | OptNull => filter_id f ∈ bcj_ids
  | OptBcj start_offset => filter_id f ∈ bcj_ids /\ is_u32 start_offset
  | OptDelta type dist =>
      filter_id f = LZMA_FILTER_DELTA /\ type = LZMA_DELTA_TYPE_BYTE /\
      LZMA_DELTA_DIST_MIN <= dist <= LZMA_DELTA_DIST_MAX
  | OptLzma o => filter_id f = LZMA_FILTER_LZMA2 /\ is_u32 (dict_size o)
  end.

Ltac props_tac :=
  split_and!; try assumption; try reflexivity; try lia; try (cbn; lia);
  try (unfold LZMA_FILTER_DELTA, LZMA_FILTER_LZMA2; lia); try apply Forall_nil_2;
  try apply write32le_bytes.

(** Membership in a concrete list. *)
Ltac in_tac :=
  unfold bcj_ids; repeat first [apply list_elem_of_here | apply list_elem_of_further].

Section Lemmas.

Lemma bcj_find m id :
  id ∈ bcj_ids ->
  encoder_find id = Some (simple_encoder_entry id) /\
  decoder_find m id = Some (simple_decoder_entry m id) /\
  feature_find id = Some (non_last_filter id) /\ 4 <= id <= 11.
Proof.
  intros H. unfold bcj_ids in H.
  repeat (apply elem_of_cons in H as [->|H]; [split_and!; (reflexivity || discriminate)|]).
  now apply not_elem_of_nil in H.
Qed.

Lemma properties_bcj m id start_offset :
  id ∈ bcj_ids -> is_u32 start_offset ->
  let f := {| filter_id := id; options := OptBcj start_offset |} in
  let props := if start_offset =? 0 then [] else write32le start_offset in
  lzma_properties_size f = Ok (zlen props) /\ lzma_properties_encode f = Ok props /\
  lzma_properties_decode (Some m) id props =
    Ok (if start_offset =? 0 then OptNull else OptBcj start_offset).
Proof.
  intros Hid Hs. cbn zeta. destruct (bcj_find (Some m) id Hid) as (He & Hd & _).
  unfold lzma_properties_size, lzma_properties_encode, lzma_properties_decode.
  cbn [filter_id]. rewrite He, Hd. cbn.
  unfold lzma_simple_props_size, lzma_simple_props_encode, lzma_simple_props_decode. cbn [as_bcj].
  destruct (Z.eqb_spec start_offset 0) as [->|Hne]; [split_and!; reflexivity|].
  split_and!; [reflexivity|reflexivity|].
  rewrite length_write32le. rewrite <- (app_nil_r (write32le start_offset)).
  rewrite read32le_write32le by assumption. now bfalse (start_offset =? 0).
Qed.

Lemma properties_null m id :
  id ∈ bcj_ids ->
  let f := {| filter_id := id; options := OptNull |} in
  lzma_properties_size f = Ok 0 /\ lzma_properties_encode f = Ok [] /\
  lzma_properties_decode m id [] = Ok OptNull.
Proof.
  intros Hid. cbn zeta. destruct (bcj_find m id Hid) as (He & Hd & _).
  unfold lzma_properties_size, lzma_properties_encode, lzma_properties_decode.
  cbn [filter_id]. rewrite He, Hd. split_and!; reflexivity.
Qed.

Lemma properties_delta m dist :
  LZMA_DELTA_DIST_MIN <= dist <= LZMA_DELTA_DIST_MAX ->
  let f := {| filter_id := LZMA_FILTER_DELTA; options := OptDelta LZMA_DELTA_TYPE_BYTE dist |} in
  lzma_properties_size f = Ok 1 /\ lzma_properties_encode f = Ok [dist - 1] /\
  lzma_properties_decode (Some m) LZMA_FILTER_DELTA [dist - 1] =
    Ok (OptDelta LZMA_DELTA_TYPE_BYTE dist).
Proof.
  unfold LZMA_DELTA_DIST_MIN, LZMA_DELTA_DIST_MAX. intros Hd. cbn zeta.
  split_and!; [reflexivity| |].
  - change (lzma_delta_props_encode (OptDelta LZMA_DELTA_TYPE_BYTE dist) = Ok [dist - 1]).
    unfold lzma_delta_props_encode, lzma_delta_coder_memusage. cbn [as_delta].
    unfold LZMA_DELTA_DIST_MIN, LZMA_DELTA_DIST_MAX.
    bfalse (dist <? 1). bfalse (dist >? 256). cbn.
    rewrite u8_small by (unfold is_byte; lia). reflexivity.
  - change (lzma_delta_props_decode (Some m) [dist - 1] = Ok (OptDelta LZMA_DELTA_TYPE_BYTE dist)).
    unfold lzma_delta_props_decode. rewrite byte_at_0, Z.sub_add. reflexivity.
Qed.

Lemma properties_lzma2 m o :
  is_u32 (dict_size o) ->
  exists b, 0 <= b <= 40 /\
  let f := {| filter_id := LZMA_FILTER_LZMA2; options := OptLzma o |} in
  lzma_properties_size f = Ok 1 /\ lzma_properties_encode f = Ok [b] /\
  lzma_properties_decode (Some m) LZMA_FILTER_LZMA2 [b] =
    Ok (OptLzma (set_dict m (lzma2_dict_size b))) /\
  Z.max (dict_size o) LZMA_DICT_SIZE_MIN <= lzma2_dict_size b.
Proof.
  intros Ho. destruct (lzma2_encode_byte o Ho) as (b & He & Hb & Hge & _).
  exists b. split; [assumption|]. cbn zeta. split_and!; [reflexivity|exact He| |exact Hge].
  change (lzma_lzma2_props_decode (Some m) [b] = Ok (OptLzma (set_dict m (lzma2_dict_size b)))).
  now apply lzma2_decode_byte.
Qed.

(** The options that the decoder gives for those the encoder stored: a zero
    start offset is not stored, and a dictionary size may grow. *)
Definition options_stored (m : lzma_options_lzma) (o o' : filter_options) : Prop :=
  match o with
  | OptNull | OptBcj 0 => o' = OptNull
  | OptBcj _ | OptDelta _ _ => o' = o
  | OptLzma o => exists size, o' = OptLzma (set_dict m size) /\ dict_size o <= size /\ is_u32 size
  end.

Lemma properties_roundtrip m f :
  filter_ok f ->
  exists props o',
    lzma_properties_size f = Ok (zlen props) /\ lzma_properties_encode f = Ok props /\
    zlen props <= 5 /\ bytes_ok props /\ 3 <= filter_id f <= 33 /\
    lzma_properties_decode (Some m) (filter_id f) props = Ok o' /\
    options_stored m (options f) o' /\
    filter_ok {| filter_id := filter_id f; options := o' |} /\
    lzma_properties_size {| filter_id := filter_id f; options := o' |} = Ok (zlen props) /\
    lzma_properties_encode {| filter_id := filter_id f; options := o' |} = Ok props.
Proof.
  destruct f as [id o]. unfold filter_ok. cbn [filter_id options]. destruct o as [|off|type dist|o].
  - intros Hid. destruct (properties_null (Some m) id Hid) as (Hs & He & Hd).
    destruct (bcj_find None id Hid) as (_ & _ & _ & Hr).
    exists [], OptNull. props_tac.
  - intros [Hid Ho]. destruct (properties_bcj m id off Hid Ho) as (Hs & He & Hd).
    destruct (properties_null (Some m) id Hid) as (Hs0 & He0 & Hd0).
    destruct (bcj_find None id Hid) as (_ & _ & _ & Hr). cbn zeta in *.
    destruct (Z.eqb_spec off 0) as [->|Hne].
    + exists [], OptNull. props_tac.
    + exists (write32le off), (OptBcj off). props_tac. destruct off; [lia|reflexivity..].
  - intros (-> & -> & Hdist). destruct (properties_delta m dist Hdist) as (Hs & He & Hd).
    cbn zeta in *. exists [dist - 1], (OptDelta LZMA_DELTA_TYPE_BYTE dist).
    props_tac.
    + unfold LZMA_DELTA_DIST_MIN, LZMA_DELTA_DIST_MAX in *. constructor; [unfold is_byte; lia|constructor].
  - intros (-> & Ho). destruct (properties_lzma2 m o Ho) as (b & Hb & Hs & He & Hd & Hge).
    pose proof (lzma2_dict_size_range b Hb) as Hr. unfold UINT32_MAX in Hr.
    exists [b], (OptLzma (set_dict m (lzma2_dict_size b))).
    props_tac.
    + constructor; [unfold is_byte; lia|constructor].
    + exists (lzma2_dict_size b). unfold is_u32. split_and!; [reflexivity|lia..].
    + unfold is_u32. cbn [set_dict dict_size]. lia.
    + change (lzma_lzma2_props_encode (OptLzma (set_dict m (lzma2_dict_size b))) = Ok [b]).
      now apply lzma2_encode_decoded.
Qed.

(** The flags of a valid filter, with all sizes. *)
Lemma filter_flags_encode_spec m f (avail : nat) n :
  filter_ok f -> lzma_filter_flags_size f = Ok n -> n <= Z.of_nat avail ->
  exists out o', lzma_filter_flags_encode f avail = Ok out /\ zlen out = n /\ bytes_ok out /\
    (forall rest, lzma_filter_flags_decode (Some m) (out ++ rest) =
      Ok ({| filter_id := filter_id f; options := o' |}, rest)) /\
    options_stored m (options f) o' /\
    filter_ok {| filter_id := filter_id f; options := o' |} /\
    lzma_filter_flags_size {| filter_id := filter_id f; options := o' |} = Ok n /\
    lzma_filter_flags_encode {| filter_id := filter_id f; options := o' |} avail = Ok out.
Proof.
  intros Hf. destruct (properties_roundtrip m f Hf)
    as (props & o' & Hs & He & Hl & Hb & Hid & Hd & Hst & Hok & Hs' & He').
  unfold lzma_filter_flags_size, LZMA_FILTER_RESERVED_START.
  bfalse (filter_id f >=? 4611686018427387904). rewrite Hs. cbn [res_bind].
  pose proof (vli_size_range (filter_id f)) as R1. pose proof (vli_size_range (zlen props)) as R2.
  unfold LZMA_VLI_MAX in R1, R2. specialize (R1 ltac:(lia)). specialize (R2 ltac:(lia)).
  rewrite (u32_small (lzma_vli_size _ + _)) by (unfold is_u32; lia).
  rewrite u32_small by (unfold is_u32; lia). intros [= <-] Havail.
  destruct (vli_encode_spec (filter_id f) avail) as (i & Ei & Li & Bi & Di); [unfold LZMA_VLI_MAX; lia|lia|].
  destruct (vli_encode_spec (zlen props) (avail - length i)) as (s & Es & Ls & Bs & Ds);
    [unfold LZMA_VLI_MAX; lia|lia|].
  assert (forall f', filter_id f' = filter_id f -> lzma_properties_size f' = Ok (zlen props) ->
    lzma_properties_encode f' = Ok props -> lzma_filter_flags_encode f' avail = Ok (i ++ s ++ props))
    as Henc.
  { intros f' Ef Esz Een. unfold lzma_filter_flags_encode, LZMA_FILTER_RESERVED_START. rewrite Ef.
    bfalse (filter_id f >=? 4611686018427387904). rewrite Ei. cbn [res_bind]. rewrite Esz. cbn [res_bind].
    rewrite Es. cbn [res_bind]. bfalse (zlen i + zlen s + zlen props >? Z.of_nat avail).
    now rewrite Een. }
  exists (i ++ s ++ props), o'. split_and!; auto.
  - rewrite !length_app. lia.
  - now repeat apply Forall_app_2.
  - intros rest. unfold lzma_filter_flags_decode. rewrite <- !app_assoc, Di. cbn [res_bind].
    unfold LZMA_FILTER_RESERVED_START. bfalse (filter_id f >=? 4611686018427387904).
    rewrite Ds. cbn [res_bind]. rewrite length_app.
    bfalse (Z.of_nat (length props + length rest) <? zlen props).
    replace (slice 0 (zlen props) (props ++ rest)) with props
      by (symmetry; apply (slice_app [] props rest); reflexivity).
    rewrite Hd. cbn [res_bind]. now rewrite from_app.
  - cbn [filter_id]. bfalse (filter_id f >=? 4611686018427387904). rewrite Hs'. cbn [res_bind].
    rewrite (u32_small (lzma_vli_size _ + _)), u32_small by (unfold is_u32; lia). reflexivity.
Qed.

Lemma filter_flags_size_ok f : filter_ok f -> exists n, lzma_filter_flags_size f = Ok n /\ 2 <= n <= 23.
Proof.
  intros Hf. destruct (properties_roundtrip options_example f Hf)
    as (props & o' & Hs & _ & Hl & _ & Hid & _).
  unfold lzma_filter_flags_size, LZMA_FILTER_RESERVED_START.
  bfalse (filter_id f >=? 4611686018427387904). rewrite Hs. cbn [res_bind].
  pose proof (vli_size_range (filter_id f)) as R1. pose proof (vli_size_range (zlen props)) as R2.
  unfold LZMA_VLI_MAX in R1, R2. specialize (R1 ltac:(lia)). specialize (R2 ltac:(lia)).
  rewrite (u32_small (lzma_vli_size _ + _)), u32_small by (unfold is_u32; lia).
  eexists. split; [reflexivity|lia].
Qed.

(** What the decoders of the properties accept. *)
Lemma simple_decode_sound m id props o :
  id ∈ bcj_ids -> bytes_ok props -> lzma_simple_props_decode (Some m) props = Ok o ->
  filter_ok {| filter_id := id; options := o |} /\
  forall n, lzma_properties_size {| filter_id := id; options := o |} = Ok n -> n <= zlen props.
Proof.
  intros Hid Hb H. destruct (bcj_find None id Hid) as (He & _).
  unfold lzma_simple_props_decode in H.
  unfold lzma_properties_size. cbn [filter_id]. rewrite He. cbn.
  destruct (Z.eqb_spec (zlen props) 0) as [E|E].
  - injection H as <-. split; [exact Hid|]. cbn. intros n [= <-]. lia.
  - destruct (Z.eqb_spec (zlen props) 4) as [E4|]; [|discriminate]. cbn [negb] in H.
    assert (is_u32 (read32le props)) by (apply read32le_range; [assumption|lia]).
    destruct (read32le props =? 0) eqn:E0; injection H as <-; (split; [done|]);
      cbn; rewrite ?E0; intros n [= <-]; lia.
Qed.

Lemma delta_decode_sound m props o :
  bytes_ok props -> lzma_delta_props_decode (Some m) props = Ok o ->
  filter_ok {| filter_id := LZMA_FILTER_DELTA; options := o |} /\ zlen props = 1.
Proof.
  intros Hb H. unfold lzma_delta_props_decode in H.
  destruct (Z.eqb_spec (zlen props) 1); [|discriminate]. cbn [negb] in H. injection H as <-.
  pose proof (byte_at_ok props 0 Hb) as B. unfold is_byte in B.
  split; [|assumption]. split_and!; [reflexivity..| |];
    unfold LZMA_DELTA_DIST_MIN, LZMA_DELTA_DIST_MAX; lia.
Qed.

Lemma lzma2_decode_sound m props o :
  bytes_ok props -> lzma_lzma2_props_decode (Some m) props = Ok o ->
  filter_ok {| filter_id := LZMA_FILTER_LZMA2; options := o |} /\ zlen props = 1.
Proof.
  intros Hb H. unfold lzma_lzma2_props_decode in H.
  destruct (Z.eqb_spec (zlen props) 1); [|discriminate]. cbn [negb] in H.
  case_if_in H; [discriminate|]. destruct (byte_at props 0 >? 40) eqn:E40; [discriminate|].
  injection H as <-. pose proof (byte_at_ok props 0 Hb) as B. unfold is_byte in B.
  pose proof (lzma2_dict_size_range (byte_at props 0) ltac:(lia)) as R. unfold UINT32_MAX in R.
  split; [|assumption]. split; [reflexivity|]. cbn [set_dict dict_size]. unfold is_u32. lia.
Qed.

Lemma properties_decode_sound m id props o :
  bytes_ok props -> lzma_properties_decode (Some m) id props = Ok o ->
  id < LZMA_FILTER_RESERVED_START ->
  filter_ok {| filter_id := id; options := o |} /\
  forall n, lzma_properties_size {| filter_id := id; options := o |} = Ok n -> n <= zlen props.
Proof.
  intros Hb H Hid. unfold lzma_properties_decode in H.
  destruct (decoder_find (Some m) id) as [fd|] eqn:Ef; [|discriminate].
  apply find_some in Ef as [Hin Heq]. b2p. subst id. cbn [decoders] in Hin.
  repeat (destruct Hin as [<-|Hin];
    [cbn [props_decode simple_decoder_entry dec_id] in *;
     first [ discriminate Hid
           | apply (simple_decode_sound m); [in_tac|assumption..]
           | apply delta_decode_sound in H as [? E]; [|assumption]; split; [assumption|]
           | apply lzma2_decode_sound in H as [? E]; [|assumption]; split; [assumption|] ]|]).
  - rewrite E. now intros n [= <-].
  - rewrite E. now intros n [= <-].
  - destruct Hin.
Qed.

Lemma vli_size_small v : 0 <= v < 128 -> lzma_vli_size v = 1.
Proof.
  intros Hv. assert (((128 <=? v) || (lzma_vli_size v =? 1)) = true) as H.
  { apply (byte_sweep (fun v => (128 <=? v) || (lzma_vli_size v =? 1))); [vm_compute; reflexivity|].
    unfold is_byte. lia. }
  apply orb_true_iff in H as [H|H]; b2p; lia.
Qed.

Lemma filter_flags_decode_inv m input f rest :
  bytes_ok input -> lzma_filter_flags_decode (Some m) input = Ok (f, rest) ->
  filter_ok f /\ bytes_ok rest /\ exists used n, input = used ++ rest /\
    lzma_filter_flags_size f = Ok n /\ n <= zlen used.
Proof.
  intros Hb H. unfold lzma_filter_flags_decode in H.
  apply res_bind_Ok in H as ([id input1] & E1 & H).
  destruct (vli_decode_canonical input id input1 Hb E1) as (R1 & u1 & -> & Enc1).
  destruct (id >=? _) eqn:Hid; [discriminate|].
  apply res_bind_Ok in H as ([sz input2] & E2 & H).
  apply Forall_app in Hb as [Hb1 Hb].
  destruct (vli_decode_canonical input1 sz input2 Hb E2) as (R2 & u2 & -> & Enc2).
  apply Forall_app in Hb as [Hb2 Hb]. destruct (zlen input2 <? sz) eqn:Hsz; [discriminate|]. b2p.
  apply res_bind_Ok in H as (o & E3 & [= <- <-]).
  assert (input2 = slice 0 sz input2 ++ from sz input2) as Esplit
    by (symmetry; apply take_drop).
  assert (zlen (slice 0 sz input2) = sz) as El.
  { unfold slice, from. rewrite drop_0, length_take. lia. }
  rewrite Esplit in Hb. apply Forall_app in Hb as [Hb3 Hb4].
  destruct (properties_decode_sound m id _ o Hb3 E3) as (Hok & Hn);
    [unfold LZMA_FILTER_RESERVED_START in *; lia|].
  split; [exact Hok|]. split; [exact Hb4|].
  destruct (properties_roundtrip m _ Hok) as (props & o' & Hs & _ & Hl & _ & Hr & _).
  cbn [filter_id] in Hr. specialize (Hn _ Hs).
  assert (lzma_vli_size id <= zlen u1) as L1.
  { destruct (vli_encode_spec id (Z.to_nat (Z.max 9 (zlen u1)))) as (o1 & Eo & Lo & _); [lia| |].
    - pose proof (vli_size_range id R1). lia.
    - rewrite Enc1 in Eo by lia. injection Eo as <-. lia. }
  assert (1 <= zlen u2) as L2.
  { destruct u2; [|cbn [length]; lia]. specialize (Enc2 0%nat ltac:(simpl; lia)). discriminate. }
  exists (u1 ++ u2 ++ slice 0 sz input2). eexists. split; [now rewrite <- !app_assoc, <- Esplit|].
  unfold lzma_filter_flags_size. cbn [filter_id]. unfold LZMA_FILTER_RESERVED_START in *.
  bfalse (id >=? 4611686018427387904). rewrite Hs.
  cbn [res_bind]. rewrite (vli_size_small (zlen props)) by lia. rewrite (vli_size_small id) by lia.
  rewrite (u32_small (1 + 1)), u32_small by (unfold is_u32; lia).
  split; [reflexivity|]. rewrite !length_app. rewrite (vli_size_small id) in L1 by lia. lia.
Qed.

End Lemmas.

(** ** Chains *)

Section Chains.

(** The filters that may be the last one, and those that may precede it. *)
Definition last_ids : list Z := [LZMA_FILTER_LZMA1; LZMA_FILTER_LZMA1EXT; LZMA_FILTER_LZMA2].
Definition non_last_ids : list Z := LZMA_FILTER_DELTA :: bcj_ids.

Definition chain_ok (filters : list lzma_filter) : Prop :=
  exists pre last, filters = pre ++ [last] /\ zlen pre < LZMA_FILTERS_MAX /\
    Forall (fun f => filter_id f ∈ non_last_ids) pre /\ filter_id last ∈ last_ids.

Lemma feature_find_spec id fe :
  feature_find id = Some fe ->
  (id ∈ last_ids /\ fe = last_filter id) \/ (id ∈ non_last_ids /\ fe = non_last_filter id).
Proof.
  intros H. apply find_some in H as [Hin Heq]. b2p. subst id. cbn [features] in Hin.
  repeat (destruct Hin as [<-|Hin];
    [first [left; split; [unfold last_ids; in_tac; fail|reflexivity] | right; split; [unfold non_last_ids; in_tac|reflexivity]]|]).
  destruct Hin.
Qed.

Lemma feature_find_last id : id ∈ last_ids -> feature_find id = Some (last_filter id).
Proof.
  intros H. unfold last_ids in H. repeat (apply elem_of_cons in H as [->|H]; [reflexivity|]).
  now apply not_elem_of_nil in H.
Qed.

Lemma feature_find_non_last id : id ∈ non_last_ids -> feature_find id = Some (non_last_filter id).
Proof.
  intros H. unfold non_last_ids, bcj_ids in H.
  repeat (apply elem_of_cons in H as [->|H]; [reflexivity|]).
  now apply not_elem_of_nil in H.
Qed.

(** Nothing may follow a filter that is not a non-last one. *)
Lemma validate_loop_stop rest l c i r :
  validate_loop rest false l c i = Ok r -> rest = [] /\ r = (l, c, i).
Proof.
  destruct rest as [|f rest]; cbn [validate_loop]; [now intros [= <-]|].
  destruct (feature_find _); discriminate.
Qed.

Lemma validate_loop_inv fs : forall l c i l' c' i',
  validate_loop fs true l c i = Ok (l', c', i') ->
  i' = i + zlen fs /\
  ((l' = l /\ fs = [] /\ c' = c) \/ (l' = false /\ c' = c) \/
   (l' = true /\ c' = c + 1 /\ exists pre last, fs = pre ++ [last] /\
     Forall (fun f => filter_id f ∈ non_last_ids) pre /\ filter_id last ∈ last_ids)).
Proof.
  induction fs as [|f fs IH]; intros l c i l' c' i'; cbn [validate_loop].
  - intros [= <- <- <-]. split; [simpl; lia|auto].
  - destruct (feature_find (filter_id f)) as [fe|] eqn:Ef; [|discriminate]. cbn [negb].
    apply feature_find_spec in Ef as [[Hid ->]|[Hid ->]]; cbn.
    + intros H. apply validate_loop_stop in H as [-> [= -> -> ->]]. split; [simpl; lia|].
      right; right. split_and!; [reflexivity..|]. exists [], f. auto.
    + intros H. apply IH in H as [-> H]. split; [simpl length; lia|].
      destruct H as [(-> & -> & ->)|[(-> & ->)|(-> & -> & pre & last & -> & Hp & Hl)]].
      * right; left. split; [reflexivity|lia].
      * right; left. split; [reflexivity|lia].
      * right; right. split_and!; [reflexivity|lia|]. exists (f :: pre), last. auto.
Qed.

Lemma validate_loop_ok pre last : forall l c i,
  Forall (fun f => filter_id f ∈ non_last_ids) pre -> filter_id last ∈ last_ids ->
  validate_loop (pre ++ [last]) true l c i = Ok (true, c + 1, i + zlen pre + 1).
Proof.
  induction pre as [|f pre IH]; intros l c i Hp Hl; cbn [validate_loop app].
  - rewrite feature_find_last by assumption. cbn. do 2 f_equal. lia.
  - apply Forall_cons in Hp as [Hf Hp]. rewrite feature_find_non_last by assumption. cbn [negb].
    cbn [non_last_filter non_last_ok last_ok changes_size Z.b2z]. rewrite IH by assumption.
    do 2 f_equal; [f_equal; lia|simpl length; lia].
Qed.

End Chains.

(** ** Properties *)

(** Filter Flags.  The flags of a filter whose options are within their
    limits take the bytes that [lzma_filter_flags_size] announces, and
    decoding them gives the filter back (a start offset of zero is not stored,
    an LZMA2 dictionary may become larger); what was decoded is encoded as the
    same bytes again. *)
Theorem filter_flags_roundtrip m f (avail : nat) n :
  filter_ok f -> lzma_filter_flags_size f = Ok n -> n <= Z.of_nat avail ->
  exists out o', lzma_filter_flags_encode f avail = Ok out /\ zlen out = n /\ bytes_ok out /\
    (forall rest, lzma_filter_flags_decode (Some m) (out ++ rest) =
      Ok ({| filter_id := filter_id f; options := o' |}, rest)) /\
    options_stored m (options f) o' /\
    lzma_filter_flags_encode {| filter_id := filter_id f; options := o' |} avail = Ok out.
Proof.
  intros Hf Hs Ha. destruct (filter_flags_encode_spec m f avail n Hf Hs Ha)
    as (out & o' & He & Hl & Hb & Hd & Hst & _ & _ & He').
  exists out, o'. now split_and!.
Qed.

Lemma filter_flags_roundtrip_witness :
  exists out, lzma_filter_flags_encode {| filter_id := LZMA_FILTER_ARM; options := OptBcj 8 |} 10 = Ok out /\
    zlen out = 6.
Proof.
  destruct (filter_flags_roundtrip options_example {| filter_id := LZMA_FILTER_ARM; options := OptBcj 8 |} 10 6)
    as (out & o' & He & Hl & _).
  - split; [in_tac|unfold is_u32; lia].
  - vm_compute. reflexivity.
  - lia.
  - exists out. now split.
Defined.

(** the decoder of Filter Flags is safe on any input: a filter it accepts
    has options of the type its coder expects, within their limits, the flags
    it read are no shorter than the ones the encoder writes for that filter,
    and exactly the consumed bytes are skipped; it reports [LZMA_DATA_ERROR]
    for a reserved ID and for properties longer than the input,
    [LZMA_OPTIONS_ERROR] for an unknown filter. *)
Theorem filter_flags_decode_safe m input :
  bytes_ok input ->
  (forall f rest, lzma_filter_flags_decode (Some m) input = Ok (f, rest) ->
    filter_ok f /\ exists used n, input = used ++ rest /\
      lzma_filter_flags_size f = Ok n /\ n <= zlen used) /\
  (forall id input1 size input2, vli_decode input = Ok (id, input1) ->
    (LZMA_FILTER_RESERVED_START <= id -> lzma_filter_flags_decode (Some m) input = Err LZMA_DATA_ERROR) /\
    (id < LZMA_FILTER_RESERVED_START -> vli_decode input1 = Ok (size, input2) ->
      (zlen input2 < size -> lzma_filter_flags_decode (Some m) input = Err LZMA_DATA_ERROR) /\
      (size <= zlen input2 -> id ∉ LZMA_FILTER_LZMA2 :: non_last_ids ->
        lzma_filter_flags_decode (Some m) input = Err LZMA_OPTIONS_ERROR))).
Proof.
  intros Hb. split.
  - intros f rest H. destruct (filter_flags_decode_inv m input f rest Hb H) as (? & _ & ?). now split.
  - intros id input1 size input2 E1. unfold lzma_filter_flags_decode. rewrite E1. cbn [res_bind].
    split; [intros; now btrue (id >=? LZMA_FILTER_RESERVED_START)|].
    intros Hid E2. bfalse (id >=? LZMA_FILTER_RESERVED_START). rewrite E2. cbn [res_bind].
    split; intros Hsz; [now btrue (zlen input2 <? size)|]. bfalse (zlen input2 <? size). intros Hnot.
    unfold lzma_properties_decode. destruct (decoder_find (Some m) id) as [fd|] eqn:Ef; [|reflexivity].
    exfalso. apply find_some in Ef as [Hin Heq]. b2p. subst id. cbn [decoders] in Hin.
    repeat (destruct Hin as [<-|Hin]; [first [discriminate Hid | apply Hnot; unfold non_last_ids; in_tac]|]).
    destruct Hin.
Qed.

Lemma filter_flags_decode_safe_witness :
  lzma_filter_flags_decode (Some options_example) [0x0C; 0] = Err LZMA_OPTIONS_ERROR.
Proof.
  destruct (filter_flags_decode_safe options_example [0x0C; 0]) as [_ H]; [bytes_ok_tac|].
  apply (H 12 [0] 0 []); [reflexivity|reflexivity|reflexivity|reflexivity|].
  intros Hin. repeat (apply elem_of_cons in Hin as [Hin|Hin]; [discriminate|]).
  now apply not_elem_of_nil in Hin.
Defined.

(** C27: [lzma_validate_chain] accepts exactly the chains of one to four
    filters that end in an LZMA filter and have only BCJ and Delta filters
    before it, and returns their length. *)
Theorem validate_chain_spec filters n :
  lzma_validate_chain filters = Ok n <-> chain_ok filters /\ n = zlen filters.
Proof.
  split.
  - intros H. destruct filters as [|f fs]; [discriminate|]. unfold lzma_validate_chain in H.
    apply res_bind_Ok in H as ([[l c] i] & E & H). apply validate_loop_inv in E as [-> E].
    destruct (_ || _) eqn:Eb in H; [discriminate|]. injection H as <-.
    apply orb_false_iff in Eb as [Eb _]. apply orb_false_iff in Eb as [Ei El]. b2p. subst l.
    split; [|cbn [length]; lia]. destruct E as [(? & ? & _)|[(? & _)|(_ & _ & pre & last & Es & Hp & Hl)]]; [discriminate..|].
    exists pre, last. split_and!; try assumption. rewrite Es in Ei. rewrite length_app in Ei.
    cbn [length] in Ei. unfold LZMA_FILTERS_MAX in *. lia.
  - intros [(pre & last & -> & Hlen & Hp & Hl) ->]. unfold lzma_validate_chain.
    destruct (pre ++ [last]) as [|f fs] eqn:E; [now destruct pre|]. rewrite <- E.
    rewrite validate_loop_ok by assumption. cbn [res_bind negb]. rewrite length_app. simpl length.
    unfold LZMA_FILTERS_MAX in *. bfalse (0 + zlen pre + 1 >? 4). cbn. f_equal. lia.
Qed.

Lemma validate_chain_spec_witness :
  chain_ok [ {| filter_id := LZMA_FILTER_X86; options := OptNull |};
             {| filter_id := LZMA_FILTER_LZMA2; options := OptNull |} ].
Proof. apply (validate_chain_spec _ 2). vm_compute. reflexivity. Defined.
