(* ===== verification/BlockHeader.v ===== *)
(** * Block Headers of the .xz container

    [block_util.c], [block_header_encoder.c] and [block_header_decoder.c] of
    [lib/archive/xz/src/liblzma/common]: the sizes of a Block and the header
    in front of it. *)

From S2P Require Import Prelude Crc Vli Check FilterProps FilterFlags.

(** ** [index.h] *)

Definition UNPADDED_SIZE_MIN : Z := 5.
Definition UNPADDED_SIZE_MAX : Z := Z.land LZMA_VLI_MAX (Z.lnot 3).

Definition vli_ceil4 (vli : Z) : Z := Z.land (u64 (vli + 3)) (u64 (Z.lnot 3)).

(** ** [lzma_block] ([api/lzma/block.h]) *)

Definition LZMA_BLOCK_HEADER_SIZE_MIN : Z := 8.
Definition LZMA_BLOCK_HEADER_SIZE_MAX : Z := 1024.

Definition lzma_block_header_size_decode (b : Z) : Z := (b + 1) * 4.

(** [filters] is the array before its terminator. *)
Record lzma_block := {
  block_version : Z;
  header_size : Z;
  block_check : Z;
  compressed_size : Z;
  uncompressed_size : Z;
  filters : list lzma_filter;
  ignore_check : bool;
}.

(** ** Sizes: [block_util.c] *)

Definition lzma_block_unpadded_size (block : lzma_block) : Z :=
  if (block_version block >? 1)
     || (header_size block <? LZMA_BLOCK_HEADER_SIZE_MIN)
     || (header_size block >? LZMA_BLOCK_HEADER_SIZE_MAX)
     || negb (Z.land (header_size block) 3 =? 0)
     || negb (lzma_vli_is_valid (compressed_size block))
     || (compressed_size block =? 0)
     || (block_check block >? LZMA_CHECK_ID_MAX) then 0
  else if compressed_size block =? LZMA_VLI_UNKNOWN then LZMA_VLI_UNKNOWN
  else
    let unpadded_size :=
      u64 (compressed_size block + header_size block + lzma_check_size (block_check block)) in
    if unpadded_size >? UNPADDED_SIZE_MAX then 0 else unpadded_size.

Definition set_compressed_size (block : lzma_block) (size : Z) : lzma_block :=
  {| block_version := block_version block; header_size := header_size block;
     block_check := block_check block; compressed_size := size;
     uncompressed_size := uncompressed_size block; filters := filters block;
     ignore_check := ignore_check block |}.

Definition lzma_block_compressed_size (block : lzma_block) (unpadded_size : Z) : res lzma_block :=
  if lzma_block_unpadded_size block =? 0 then Err LZMA_PROG_ERROR
  else
    let container_size := u32 (header_size block + lzma_check_size (block_check block)) in
    if unpadded_size <=? container_size then Err LZMA_DATA_ERROR
    else
      let size := u64 (unpadded_size - container_size) in
      if negb (compressed_size block =? LZMA_VLI_UNKNOWN) && negb (compressed_size block =? size)
      then Err LZMA_DATA_ERROR
      else Ok (set_compressed_size block size).

Definition lzma_block_total_size (block : lzma_block) : Z :=
  let unpadded_size := lzma_block_unpadded_size block in
  if negb (unpadded_size =? LZMA_VLI_UNKNOWN) then vli_ceil4 unpadded_size else unpadded_size.

(** ** [lzma_block_header_size] *)

(** The size of an optional field; zero when it is not present. *)
Definition header_compressed_size (v : Z) : res Z :=
  if v =? LZMA_VLI_UNKNOWN then Ok 0
  else
    let add := lzma_vli_size v in
    if (add =? 0) || (v =? 0) then Err LZMA_PROG_ERROR else Ok add.

Definition header_uncompressed_size (v : Z) : res Z :=
  if v =? LZMA_VLI_UNKNOWN then Ok 0
  else
    let add := lzma_vli_size v in
    if add =? 0 then Err LZMA_PROG_ERROR else Ok add.

(** The loop over the filters; [i] is the index, [size] the running sum. *)
Fixpoint filters_size_loop (filters : list lzma_filter) (i size : Z) : res Z :=
  match filters with
  | [] => Ok size
  | f :: rest =>
      if i =? LZMA_FILTERS_MAX then Err LZMA_PROG_ERROR
      else
        let? add := lzma_filter_flags_size f in
        filters_size_loop rest (i + 1) (u32 (size + add))
  end.

Definition set_header_size (block : lzma_block) (size : Z) : lzma_block :=
  {| block_version := block_version block; header_size := size;
     block_check := block_check block; compressed_size := compressed_size block;
     uncompressed_size := uncompressed_size block; filters := filters block;
     ignore_check := ignore_check block |}.

Definition lzma_block_header_size (block : lzma_block) : res lzma_block :=
  if block_version block >? 1 then Err LZMA_OPTIONS_ERROR
  else
    let size := 1 + 1 + 4 in
    let? add := header_compressed_size (compressed_size block) in
    let size := u32 (size + add) in
    let? add := header_uncompressed_size (uncompressed_size block) in
    let size := u32 (size + add) in
    match filters block with
    | [] => Err LZMA_PROG_ERROR
    | _ =>
        let? size := filters_size_loop (filters block) 0 size in
        Ok (set_header_size block (Z.land (u32 (size + 3)) (u32 (Z.lnot 3))))
    end.

(** ** [lzma_block_header_encode] *)

(** An optional field: the bytes stored and the bit of the Block Flags. *)
Definition encode_optional (v flag : Z) (avail : nat) : res (bytes * Z) :=
  if v =? LZMA_VLI_UNKNOWN then Ok ([], 0)
  else let? out := vli_encode v avail in Ok (out, flag).

(** The [do ... while] loop over the filters; [avail] is
    [out_size - out_pos]. *)
Fixpoint filters_encode_loop (filters : list lzma_filter) (filter_count : Z) (avail : nat)
    : res bytes :=
  match filters with
  | [] => Ok []
  | f :: rest =>
      if filter_count =? LZMA_FILTERS_MAX then Err LZMA_PROG_ERROR
      else
        let? out := lzma_filter_flags_encode f avail in
        let? outs := filters_encode_loop rest (filter_count + 1) (avail - length out) in
        Ok (out ++ outs)
  end.

Definition lzma_block_header_encode (block : lzma_block) : res bytes :=
  if (lzma_block_unpadded_size block =? 0) || negb (lzma_vli_is_valid (uncompressed_size block))
  then Err LZMA_PROG_ERROR
  else
    let out_size := header_size block - 4 in
    let avail := Z.to_nat (out_size - 2) in
    let? (c, flag_c) := encode_optional (compressed_size block) 0x40 avail in
    let avail := (avail - length c)%nat in
    let? (u, flag_u) := encode_optional (uncompressed_size block) 0x80 avail in
    let avail := (avail - length u)%nat in
    match filters block with
    | [] => Err LZMA_PROG_ERROR
    | _ =>
        let? fs := filters_encode_loop (filters block) 0 avail in
        let flags := Z.lor (Z.lor (Z.lor 0 flag_c) flag_u) (zlen (filters block) - 1) in
        let padding := repeat 0 (avail - length fs)%nat in
        let out := [u8 (out_size / 4); flags] ++ c ++ u ++ fs ++ padding in
        Ok (out ++ write32le (lzma_crc32 out 0))
    end.

(** ** [lzma_block_header_decode] *)

Section Decode.

(** The memory that [lzma_alloc] provides for filter options. *)
Variable mem : option lzma_options_lzma.

Fixpoint filters_decode_loop (n : nat) (input : bytes) : res (list lzma_filter * bytes) :=
  match n with
  | O => Ok ([], input)
  | S n =>
      let? (f, input) := lzma_filter_flags_decode mem input in
      let? (fs, input) := filters_decode_loop n input in
      Ok (f :: fs, input)
  end.

(** [block] provides [version], [header_size] and [check]; the other members
    are set.  The filters are cleared when the header is not accepted. *)
Definition lzma_block_header_decode (block : lzma_block) (input : bytes) : res lzma_block :=
  let version := if block_version block >? 1 then 1 else block_version block in
  if negb (lzma_block_header_size_decode (byte_at input 0) =? header_size block)
     || (block_check block >? LZMA_CHECK_ID_MAX) then Err LZMA_PROG_ERROR
  else
    let in_size := header_size block - 4 in
    if negb (lzma_crc32 (slice 0 in_size input) 0 =? read32le (from in_size input))
    then Err LZMA_DATA_ERROR
    else if negb (Z.land (byte_at input 1) 0x3C =? 0) then Err LZMA_OPTIONS_ERROR
    else
      let flags := byte_at input 1 in
      let block_with c u fs :=
        {| block_version := version; header_size := header_size block;
           block_check := block_check block; compressed_size := c; uncompressed_size := u;
           filters := fs; ignore_check := false |} in
      let rest := slice 2 (in_size - 2) input in
      let? (c, rest) :=
        if negb (Z.land flags 0x40 =? 0) then
          let? (c, rest) := vli_decode rest in
          if lzma_block_unpadded_size (block_with c (uncompressed_size block) []) =? 0
          then Err LZMA_DATA_ERROR else Ok (c, rest)
        else Ok (LZMA_VLI_UNKNOWN, rest) in
      let? (u, rest) :=
        if negb (Z.land flags 0x80 =? 0) then vli_decode rest else Ok (LZMA_VLI_UNKNOWN, rest) in
      let filter_count := Z.land flags 3 + 1 in
      let? (fs, rest) := filters_decode_loop (Z.to_nat filter_count) rest in
      if forallb (Z.eqb 0) rest then Ok (block_with c u fs) else Err LZMA_OPTIONS_ERROR.

End Decode.

(** The header of a Block as [xz] writes it: LZMA2 with a dictionary of 8 MiB,
    both sizes unknown. *)
Definition block_example : lzma_block :=
  {| block_version := 0; header_size := 12; block_check := LZMA_CHECK_CRC64;
     compressed_size := LZMA_VLI_UNKNOWN; uncompressed_size := LZMA_VLI_UNKNOWN;
     filters := [ {| filter_id := LZMA_FILTER_LZMA2;
                     options := OptLzma (set_dict options_example 8388608) |} ];
     ignore_check := false |}.

Example block_header_ex :
  lzma_block_header_encode block_example =
  Ok [0x02; 0x00; 0x21; 0x01; 0x16; 0x00; 0x00; 0x00; 0x74; 0x2F; 0xE5; 0xA3].
Proof. vm_compute. reflexivity. Qed.

Example block_header_size_ex : lzma_block_header_size block_example = Ok block_example.
Proof. vm_compute. reflexivity. Qed.

#[local] Opaque lzma_crc32.

(** ** Lemmas *)

Section Sizes.

(** What the validation of [lzma_block_unpadded_size] means. *)
Definition block_sizes_ok (b : lzma_block) : Prop :=
  block_version b <= 1 /\ 8 <= header_size b <= 1024 /\ header_size b mod 4 = 0 /\
  block_check b <= LZMA_CHECK_ID_MAX /\ compressed_size b <> 0 /\
  lzma_vli_is_valid (compressed_size b) = true /\
  (compressed_size b <> LZMA_VLI_UNKNOWN ->
    u64 (compressed_size b + header_size b + lzma_check_size (block_check b)) <= UNPADDED_SIZE_MAX).

Lemma unpadded_size_spec b :
  0 <= compressed_size b -> 0 <= block_check b ->
  (lzma_block_unpadded_size b <> 0 <-> block_sizes_ok b) /\
  (block_sizes_ok b -> lzma_block_unpadded_size b =
    if compressed_size b =? LZMA_VLI_UNKNOWN then LZMA_VLI_UNKNOWN
    else compressed_size b + header_size b + lzma_check_size (block_check b)).
Proof.
  intros Hc0 Hk0. unfold block_sizes_ok, lzma_block_unpadded_size.
  change 3 with (2 ^ 2 - 1). rewrite land_low by lia. change (2 ^ 2) with 4.
  unfold LZMA_BLOCK_HEADER_SIZE_MIN, LZMA_BLOCK_HEADER_SIZE_MAX, LZMA_VLI_UNKNOWN, UINT64_MAX.
  match goal with |- context [if ?t then 0 else _] => destruct t eqn:E end.
  - split; [split; [intros []; reflexivity|]|].
    + intros (H1 & H2 & H3 & H4 & H5 & H6 & _). exfalso.
      rewrite !orb_true_iff, !negb_true_iff in E. rewrite H6 in E.
      destruct E as [[[[[[E|E]|E]|E]|E]|E]|E]; try discriminate; b2p; try lia; try congruence.
    + intros (H1 & H2 & H3 & H4 & H5 & H6 & _). exfalso.
      rewrite !orb_true_iff, !negb_true_iff in E. rewrite H6 in E.
      destruct E as [[[[[[E|E]|E]|E]|E]|E]|E]; try discriminate; b2p; try lia; try congruence.
  - b2p. pose proof (lzma_check_size_range (block_check b) ltac:(lia)) as Hcs.
    match goal with H : lzma_vli_is_valid _ = true |- _ => rename H into Hvalid end.
    pose proof Hvalid as Hvalid'. unfold lzma_vli_is_valid in Hvalid'. apply orb_true_iff in Hvalid'.
    unfold LZMA_VLI_MAX, LZMA_VLI_UNKNOWN, UINT64_MAX in Hvalid'.
    destruct (Z.eqb_spec (compressed_size b) 18446744073709551615) as [Hu|Hu].
    + split; [|reflexivity]. split; [|lia]. intros _. split_and!; try assumption; try lia.
    + rewrite u64_small by (unfold is_u64; destruct Hvalid'; b2p; lia).
      change UNPADDED_SIZE_MAX with 9223372036854775804. case_if; b2p.
      * split; [|lia]. split; [lia|]. lia.
      * split; [|reflexivity]. split; [|lia]. intros _. split_and!; try assumption; try lia.
Qed.

Lemma unknown_spec v : lzma_vli_is_valid v = true -> v <> LZMA_VLI_UNKNOWN -> v <= LZMA_VLI_MAX.
Proof. unfold lzma_vli_is_valid. intros H Hn. apply orb_true_iff in H as [H|H]; b2p; lia. Qed.

End Sizes.

Section Filters.

(** A decoded filter stands for the one that was encoded. *)
Definition filter_stored (m : lzma_options_lzma) (f f' : lzma_filter) : Prop :=
  filter_id f' = filter_id f /\ options_stored m (options f) (options f').

Lemma filters_roundtrip m fs : Forall filter_ok fs -> forall i, i + zlen fs <= LZMA_FILTERS_MAX ->
  exists n, 2 * zlen fs <= n <= 23 * zlen fs /\
    (forall size, 0 <= size -> size + 23 * zlen fs < 4294967296 ->
      filters_size_loop fs i size = Ok (size + n)) /\
    (forall avail : nat, n <= Z.of_nat avail ->
      exists out fs', filters_encode_loop fs i avail = Ok out /\ zlen out = n /\ bytes_ok out /\
        (forall rest, filters_decode_loop (Some m) (length fs) (out ++ rest) = Ok (fs', rest)) /\
        Forall2 (filter_stored m) fs fs').
Proof.
  unfold LZMA_FILTERS_MAX. induction fs as [|f fs IH]; intros Hok i Hi.
  - exists 0. split_and!; try (cbn; lia); [intros; cbn; f_equal; lia|].
    intros avail _. exists [], []. split_and!; constructor.
  - apply Forall_cons in Hok as [Hf Hok]. cbn [length] in *.
    destruct (filter_flags_size_ok f Hf) as (k & Hk & Rk).
    destruct (IH Hok (i + 1)) as (n & Rn & Hn & Henc); [lia|]. exists (k + n). split_and!; try lia.
    + intros size Hs Hsn. cbn [filters_size_loop]. unfold LZMA_FILTERS_MAX. bfalse (i =? 4).
      rewrite Hk. cbn [res_bind]. rewrite u32_small by (unfold is_u32; lia).
      rewrite Hn by lia. f_equal. lia.
    + intros avail Ha. cbn [filters_encode_loop]. unfold LZMA_FILTERS_MAX. bfalse (i =? 4).
      destruct (filter_flags_encode_spec m f avail k Hf Hk)
        as (o1 & opt & E1 & L1 & B1 & D1 & S1 & _); [lia|].
      destruct (Henc (avail - length o1)%nat) as (o2 & fs' & E2 & L2 & B2 & D2 & S2); [lia|].
      rewrite E1. cbn [res_bind]. rewrite E2. cbn [res_bind].
      exists (o1 ++ o2), ({| filter_id := filter_id f; options := opt |} :: fs').
      split_and!; [reflexivity|rewrite length_app; lia|now apply Forall_app_2| |].
      * intros rest. cbn [filters_decode_loop]. rewrite <- app_assoc, D1. cbn [res_bind].
        rewrite D2. reflexivity.
      * constructor; [now split|assumption].
Qed.

(** What the decoder of the filters accepts. *)
Lemma filters_decode_sound m n : forall input fs rest,
  bytes_ok input -> filters_decode_loop (Some m) n input = Ok (fs, rest) ->
  length fs = n /\ Forall filter_ok fs /\ bytes_ok rest.
Proof.
  induction n as [|n IH]; intros input fs rest Hb; cbn [filters_decode_loop].
  - intros [= <- <-]. auto.
  - intros H. apply res_bind_Ok in H as ([f in1] & E1 & H).
    destruct (filter_flags_decode_inv m input f in1 Hb E1) as (Hf & Hb1 & _).
    apply res_bind_Ok in H as ([fs1 in2] & E2 & [= <- <-]).
    destruct (IH in1 fs1 in2 Hb1 E2) as (<- & Hfs & Hb2). split_and!; auto.
Qed.

End Filters.

Section RoundTrip.

(** The bytes of an optional field. *)
Definition optional_size (v : Z) : Z := if v =? LZMA_VLI_UNKNOWN then 0 else lzma_vli_size v.

Lemma optional_size_range v :
  0 <= v -> lzma_vli_is_valid v = true -> 0 <= optional_size v <= 9.
Proof. intros. unfold optional_size. case_if; [lia|]. now apply vli_size_range_any. Qed.

Lemma optional_roundtrip v flag (avail : nat) :
  0 <= v -> lzma_vli_is_valid v = true -> optional_size v <= Z.of_nat avail ->
  exists out, encode_optional v flag avail =
      Ok (out, if v =? LZMA_VLI_UNKNOWN then 0 else flag) /\
    zlen out = optional_size v /\ bytes_ok out /\
    (forall rest, if v =? LZMA_VLI_UNKNOWN then out = [] else vli_decode (out ++ rest) = Ok (v, rest)).
Proof.
  intros Hv Hvalid Ha. unfold encode_optional, optional_size in *.
  destruct (Z.eqb_spec v LZMA_VLI_UNKNOWN) as [E|E].
  - exists []. split_and!; auto.
  - pose proof (unknown_spec v Hvalid E).
    destruct (vli_encode_spec v avail) as (out & -> & L & B & D); [lia|lia|].
    exists out. cbn. split_and!; auto.
Qed.

(** The size that [lzma_block_header_size] sets, [n] being the size of the
    Filter Flags. *)
Lemma block_header_size_spec b n :
  block_version b <= 1 -> 0 <= compressed_size b -> 0 <= uncompressed_size b ->
  lzma_vli_is_valid (compressed_size b) = true -> compressed_size b <> 0 ->
  lzma_vli_is_valid (uncompressed_size b) = true -> filters b <> [] ->
  (forall size, 0 <= size <= 24 -> filters_size_loop (filters b) 0 size = Ok (size + n)) ->
  2 <= n <= 92 ->
  let total := 6 + optional_size (compressed_size b) + optional_size (uncompressed_size b) + n in
  lzma_block_header_size b = Ok (set_header_size b (total + 3 - (total + 3) mod 4)).
Proof.
  intros Hver Hc Hu Vc Vc0 Vu Hne Hfs Hn total. unfold lzma_block_header_size.
  bfalse (block_version b >? 1).
  pose proof (optional_size_range _ Hc Vc) as Rc. pose proof (optional_size_range _ Hu Vu) as Ru.
  assert (header_compressed_size (compressed_size b) = Ok (optional_size (compressed_size b))) as ->.
  { unfold header_compressed_size, optional_size. destruct (Z.eqb_spec (compressed_size b) LZMA_VLI_UNKNOWN) as [|E];
      [reflexivity|]. pose proof (unknown_spec _ Vc E). pose proof (vli_size_range (compressed_size b) ltac:(lia)).
    bfalse (lzma_vli_size (compressed_size b) =? 0). bfalse (compressed_size b =? 0). reflexivity. }
  assert (header_uncompressed_size (uncompressed_size b) = Ok (optional_size (uncompressed_size b))) as ->.
  { unfold header_uncompressed_size, optional_size. destruct (Z.eqb_spec (uncompressed_size b) LZMA_VLI_UNKNOWN) as [|E];
      [reflexivity|]. pose proof (unknown_spec _ Vu E). pose proof (vli_size_range (uncompressed_size b) ltac:(lia)).
    bfalse (lzma_vli_size (uncompressed_size b) =? 0). reflexivity. }
  cbn [res_bind]. rewrite (u32_small (1 + 1 + 4 + _)) by (unfold is_u32; lia).
  rewrite (u32_small (1 + 1 + 4 + _ + _)) by (unfold is_u32; lia).
  destruct (filters b) as [|f fs] eqn:Ef; [congruence|]. rewrite Hfs by lia. cbn [res_bind].
  rewrite (u32_small (_ + 3)) by (unfold is_u32; lia).
  do 2 f_equal. replace (1 + 1 + 4 + _ + _ + n) with total by (unfold total; lia).
  unfold u32. change 4294967296 with (2 ^ 32). rewrite <- Z.land_ones, Z.land_assoc, Z.land_ones by lia.
  change 3 with (2 ^ 2 - 1) at 2. rewrite land_high by lia. change (2 ^ 2) with 4.
  apply Z.mod_small. change (2 ^ 32) with 4294967296. unfold total. dlia.
Qed.

(** The Block Flags and what the decoder tests in them. *)
Lemma block_flags_bits (uc uu : bool) n :
  1 <= n <= 4 ->
  let flags := Z.lor (Z.lor (Z.lor 0 (if uc then 0 else 0x40)) (if uu then 0 else 0x80)) (n - 1) in
  is_byte flags /\ Z.land flags 0x3C = 0 /\ (Z.land flags 0x40 =? 0) = uc /\
  (Z.land flags 0x80 =? 0) = uu /\ Z.land flags 3 + 1 = n.
Proof.
  intros Hn. assert (n = 1 \/ n = 2 \/ n = 3 \/ n = 4) as [-> | [-> | [-> | ->]]] by lia;
    destruct uc, uu; cbn zeta; split_and!;
    first [reflexivity | vm_compute; congruence | vm_compute; split; congruence].
Qed.

Lemma forallb_zero_repeat n : forallb (Z.eqb 0) (repeat 0 n) = true.
Proof. induction n; auto. Qed.

(** The parts of an encoded header. *)
Lemma block_header_encode_spec m b n :
  block_sizes_ok b -> 0 <= compressed_size b -> 0 <= uncompressed_size b -> 0 <= block_check b ->
  lzma_vli_is_valid (uncompressed_size b) = true -> 1 <= zlen (filters b) ->
  6 + optional_size (compressed_size b) + optional_size (uncompressed_size b) + n <= header_size b ->
  (forall avail : nat, n <= Z.of_nat avail ->
    exists out fs', filters_encode_loop (filters b) 0 avail = Ok out /\ zlen out = n /\ bytes_ok out /\
      (forall rest, filters_decode_loop (Some m) (length (filters b)) (out ++ rest) = Ok (fs', rest)) /\
      Forall2 (filter_stored m) (filters b) fs') ->
  exists c u fs fs' k,
    let flags := Z.lor (Z.lor (Z.lor 0 (if compressed_size b =? LZMA_VLI_UNKNOWN then 0 else 0x40))
      (if uncompressed_size b =? LZMA_VLI_UNKNOWN then 0 else 0x80)) (zlen (filters b) - 1) in
    let body := [header_size b / 4 - 1; flags] ++ c ++ u ++ fs ++ repeat 0 k in
    lzma_block_header_encode b = Ok (body ++ write32le (lzma_crc32 body 0)) /\
    zlen body = header_size b - 4 /\ bytes_ok (c ++ u ++ fs) /\
    (forall rest, if compressed_size b =? LZMA_VLI_UNKNOWN then c = []
      else vli_decode (c ++ rest) = Ok (compressed_size b, rest)) /\
    (forall rest, if uncompressed_size b =? LZMA_VLI_UNKNOWN then u = []
      else vli_decode (u ++ rest) = Ok (uncompressed_size b, rest)) /\
    (forall rest, filters_decode_loop (Some m) (length (filters b)) (fs ++ rest) = Ok (fs', rest)) /\
    Forall2 (filter_stored m) (filters b) fs'.
Proof.
  intros Hok Hc Hu Hk Vu Hn1 Hsize Hfs.
  destruct (unpadded_size_spec b Hc Hk) as [[_ Hnz] _]. specialize (Hnz Hok).
  destruct Hok as (_ & Hhs & Hmod & _ & _ & Vc & _).
  destruct (optional_roundtrip (compressed_size b) 0x40 (Z.to_nat (header_size b - 4 - 2)) Hc Vc)
    as (c & Ec & Lc & Bc & Dc).
  { pose proof (optional_size_range _ Hu Vu). destruct (Hfs (Z.to_nat n)) as (o & _ & _ & ? & _); lia. }
  destruct (optional_roundtrip (uncompressed_size b) 0x80
    (Z.to_nat (header_size b - 4 - 2) - length c) Hu Vu) as (u & Eu & Lu & Bu & Du).
  { destruct (Hfs (Z.to_nat n)) as (o & _ & _ & ? & _); lia. }
  destruct (Hfs (Z.to_nat (header_size b - 4 - 2) - length c - length u)%nat)
    as (fs & fs' & Ef & Lf & Bf & Df & Sf); [lia|].
  exists c, u, fs, fs', (Z.to_nat (header_size b - 4 - 2) - length c - length u - length fs)%nat.
  cbv zeta. split_and!; try assumption.
  - unfold lzma_block_header_encode. bfalse (lzma_block_unpadded_size b =? 0). rewrite Vu. cbn [negb orb].
    rewrite Ec. cbn [res_bind]. rewrite Eu. cbn [res_bind].
    destruct (filters b) as [|f0 fl] eqn:Efl; [cbn in Hn1; lia|]. rewrite Ef. cbn [res_bind].
    replace (u8 ((header_size b - 4) / 4)) with (header_size b / 4 - 1)
      by (rewrite u8_small by (unfold is_byte; dlia); dlia).
    reflexivity.
  - cbn [app length]. rewrite !length_app, repeat_length. lia.
  - now repeat apply Forall_app_2.
Qed.

Lemma block_header_decode_spec m b b' c u fs fs' k rest :
  block_sizes_ok b -> 0 <= block_version b -> 0 <= compressed_size b -> 0 <= uncompressed_size b ->
  0 <= block_check b -> 1 <= zlen (filters b) <= 4 ->
  block_version b' = block_version b -> header_size b' = header_size b -> block_check b' = block_check b ->
  let flags := Z.lor (Z.lor (Z.lor 0 (if compressed_size b =? LZMA_VLI_UNKNOWN then 0 else 0x40))
    (if uncompressed_size b =? LZMA_VLI_UNKNOWN then 0 else 0x80)) (zlen (filters b) - 1) in
  let body := [header_size b / 4 - 1; flags] ++ c ++ u ++ fs ++ repeat 0 k in
  zlen body = header_size b - 4 -> bytes_ok (c ++ u ++ fs) ->
  (forall rest, if compressed_size b =? LZMA_VLI_UNKNOWN then c = []
    else vli_decode (c ++ rest) = Ok (compressed_size b, rest)) ->
  (forall rest, if uncompressed_size b =? LZMA_VLI_UNKNOWN then u = []
    else vli_decode (u ++ rest) = Ok (uncompressed_size b, rest)) ->
  (forall rest, filters_decode_loop (Some m) (length (filters b)) (fs ++ rest) = Ok (fs', rest)) ->
  bytes_ok body /\
  lzma_block_header_decode (Some m) b' (body ++ write32le (lzma_crc32 body 0) ++ rest) =
    Ok {| block_version := block_version b; header_size := header_size b;
          block_check := block_check b; compressed_size := compressed_size b;
          uncompressed_size := uncompressed_size b; filters := fs'; ignore_check := false |}.
Proof.
  intros Hok Hver Hc Hu Hk Hn Ev Eh Ek flags body Lb Bb Dc Du Df.
  destruct (block_flags_bits (compressed_size b =? LZMA_VLI_UNKNOWN)
    (uncompressed_size b =? LZMA_VLI_UNKNOWN) (zlen (filters b)) Hn) as (Bfl & F3C & F40 & F80 & F3).
  fold flags in Bfl, F3C, F40, F80, F3.
  pose proof (unpadded_size_spec b Hc Hk) as [[_ Hnz] _]. specialize (Hnz Hok).
  pose proof Hok as (Hv1 & Hhs & Hmod & Hkm & _).
  assert (bytes_ok body) as Hbb.
  { unfold body. constructor; [unfold is_byte; dlia|]. constructor; [exact Bfl|].
    cbn [app]. rewrite !app_assoc. apply Forall_app_2; [now rewrite <- app_assoc|].
    apply Forall_forall. intros x Hx. apply list_elem_of_In, repeat_spec in Hx as ->. unfold is_byte; lia. }
  split; [exact Hbb|]. unfold lzma_block_header_decode.
  set (input := body ++ _). rewrite Ev, Eh, Ek.
  bfalse (block_version b >? 1).
  change (byte_at input 0) with (header_size b / 4 - 1). change (byte_at input 1) with flags.
  unfold lzma_block_header_size_decode.
  replace ((header_size b / 4 - 1 + 1) * 4) with (header_size b) by dlia. rewrite Z.eqb_refl.
  bfalse (block_check b >? LZMA_CHECK_ID_MAX).
  cbn [negb orb].
  assert (slice 0 (header_size b - 4) input = body) as ->
    by (apply (slice_app [] body); [reflexivity|lia]).
  assert (from (header_size b - 4) input = write32le (lzma_crc32 body 0) ++ rest) as ->
    by (apply from_app; lia).
  assert (is_u32 (lzma_crc32 body 0)) by (apply lzma_crc32_u32; [assumption|unfold is_u32; lia]).
  rewrite read32le_write32le by assumption. rewrite Z.eqb_refl. cbn [negb]. rewrite F3C, F40, F80, F3.
  change (negb (0 =? 0)) with false. cbn [negb].
  assert (slice 2 (header_size b - 4 - 2) input = c ++ u ++ fs ++ repeat 0 k) as ->.
  { apply (slice_app [header_size b / 4 - 1; flags]); [reflexivity|].
    unfold body in Lb. cbn [app length] in Lb. lia. }
  clear Lb Bb. clearbody flags.
  assert ((if negb (compressed_size b =? LZMA_VLI_UNKNOWN)
     then let? (c, rest) := vli_decode (c ++ u ++ fs ++ repeat 0 k) in
       if lzma_block_unpadded_size
         {| block_version := block_version b; header_size := header_size b;
            block_check := block_check b; compressed_size := c;
            uncompressed_size := uncompressed_size b'; filters := []; ignore_check := false |} =? 0
       then Err LZMA_DATA_ERROR else Ok (c, rest)
     else Ok (LZMA_VLI_UNKNOWN, c ++ u ++ fs ++ repeat 0 k)) =
    Ok (compressed_size b, u ++ fs ++ repeat 0 k)) as ->.
  { specialize (Dc (u ++ fs ++ repeat 0 k)).
    destruct (Z.eqb_spec (compressed_size b) LZMA_VLI_UNKNOWN) as [E|E]; cbn [negb].
    - rewrite Dc, E. reflexivity.
    - rewrite Dc. cbn [res_bind].
      change (lzma_block_unpadded_size _) with (lzma_block_unpadded_size b).
      now bfalse (lzma_block_unpadded_size b =? 0). }
  cbn [res_bind].
  assert ((if negb (uncompressed_size b =? LZMA_VLI_UNKNOWN)
     then vli_decode (u ++ fs ++ repeat 0 k)
     else Ok (LZMA_VLI_UNKNOWN, u ++ fs ++ repeat 0 k)) =
    Ok (uncompressed_size b, fs ++ repeat 0 k)) as ->.
  { specialize (Du (fs ++ repeat 0 k)).
    destruct (Z.eqb_spec (uncompressed_size b) LZMA_VLI_UNKNOWN) as [E|E]; cbn [negb];
      rewrite Du; [now rewrite E|reflexivity]. }
  cbn [res_bind]. rewrite Nat2Z.id, Df. cbn [res_bind]. now rewrite forallb_zero_repeat.
Qed.

(** What the decoder accepts. *)
Lemma block_header_decode_sound m b input b' :
  bytes_ok input -> 0 <= block_version b ->
  lzma_block_header_decode (Some m) b input = Ok b' ->
  block_version b' <= 1 /\ header_size b' = header_size b /\ block_check b' = block_check b /\
  (compressed_size b' = LZMA_VLI_UNKNOWN \/ (lzma_block_unpadded_size b' <> 0 /\
     0 < compressed_size b' <= LZMA_VLI_MAX)) /\
  lzma_vli_is_valid (uncompressed_size b') = true /\
  1 <= zlen (filters b') <= LZMA_FILTERS_MAX /\ Forall filter_ok (filters b').
Proof.
  intros Hb Hver H. unfold lzma_block_header_decode in H.
  case_if_in H; [discriminate|]. case_if_in H; [discriminate|]. case_if_in H; [discriminate|].
  set (flags := byte_at input 1) in *.
  apply res_bind_Ok in H as ([c rest1] & Ec & H). apply res_bind_Ok in H as ([u rest2] & Eu & H).
  apply res_bind_Ok in H as ([fs rest3] & Ef & H). case_if_in H; [|discriminate]. injection H as <-.
  assert (bytes_ok rest1 /\ (c = LZMA_VLI_UNKNOWN \/ (0 < c <= LZMA_VLI_MAX /\
    lzma_block_unpadded_size {| block_version := if block_version b >? 1 then 1 else block_version b;
      header_size := header_size b; block_check := block_check b; compressed_size := c;
      uncompressed_size := uncompressed_size b; filters := []; ignore_check := false |} <> 0)))
    as [Hb1 Hc].
  { assert (bytes_ok (slice 2 (header_size b - 4 - 2) input)) as Hb0
      by (now apply Forall_take, Forall_drop).
    destruct (Z.land flags 0x40 =? 0); cbn [negb] in Ec.
    - injection Ec as <- <-. auto.
    - apply res_bind_Ok in Ec as ([c' r'] & Ev & Ec). case_if_in Ec; [discriminate|].
      injection Ec as <- <-. destruct (vli_decode_canonical _ _ _ Hb0 Ev) as (Rc & used & Er & _).
      rewrite Er in Hb0. apply Forall_app in Hb0 as [_ Hb0]. split; [assumption|]. right. b2p.
      split; [|assumption]. destruct (Z.eq_dec c' 0) as [->|]; [|lia].
      exfalso. match goal with H : lzma_block_unpadded_size _ <> 0 |- _ => apply H end.
      unfold lzma_block_unpadded_size. cbn [compressed_size Z.eqb]. now rewrite !orb_true_r. }
  assert (bytes_ok rest2 /\ lzma_vli_is_valid u = true) as [Hb2 Hu].
  { destruct (Z.land flags 0x80 =? 0); cbn [negb] in Eu.
    - injection Eu as <- <-. auto.
    - destruct (vli_decode_canonical _ _ _ Hb1 Eu) as (Ru & used & Er & _). rewrite Er in Hb1.
      apply Forall_app in Hb1 as [_ Hb1]. split; [assumption|]. unfold lzma_vli_is_valid.
      now btrue (u <=? LZMA_VLI_MAX). }
  destruct (filters_decode_sound m _ _ _ _ Hb2 Ef) as (Hlen & Hok & _).
  cbn [block_version header_size block_check compressed_size uncompressed_size filters].
  split_and!; try reflexivity; try assumption.
  - case_if; b2p; lia.
  - destruct Hc as [Hc|[Hc Hn]]; [now left|right]. split; [exact Hn|exact Hc].
  - rewrite Hlen. change 3 with (2 ^ 2 - 1). rewrite land_low by lia. change (2 ^ 2) with 4.
    unfold flags. dlia.
  - rewrite Hlen. change 3 with (2 ^ 2 - 1). rewrite land_low by lia. change (2 ^ 2) with 4.
    unfold LZMA_FILTERS_MAX, flags. dlia.
Qed.

(** The bytes and the filters do not depend on the structure that is decoded to. *)
Lemma header_roundtrip m b b0 :
  0 <= block_version b -> 0 <= block_check b -> 0 <= compressed_size b -> 0 <= uncompressed_size b ->
  1 <= zlen (filters b) <= LZMA_FILTERS_MAX -> Forall filter_ok (filters b) ->
  lzma_block_unpadded_size b <> 0 -> lzma_vli_is_valid (uncompressed_size b) = true ->
  lzma_block_header_size b = Ok b0 -> header_size b0 <= header_size b ->
  exists out fs', lzma_block_header_encode b = Ok out /\ zlen out = header_size b /\ bytes_ok out /\
    Forall2 (filter_stored m) (filters b) fs' /\
    forall b' rest, block_version b' = block_version b -> header_size b' = header_size b -> block_check b' = block_check b ->
      lzma_block_header_decode (Some m) b' (out ++ rest) =
      Ok {| block_version := block_version b; header_size := header_size b;
            block_check := block_check b; compressed_size := compressed_size b;
            uncompressed_size := uncompressed_size b; filters := fs'; ignore_check := false |}.
Proof.
  intros Hver Hk Hc Hu Hn Hfs Hnz Vu Hs Hle. unfold LZMA_FILTERS_MAX in Hn.
  destruct (unpadded_size_spec b Hc Hk) as [[Hok _] _]. specialize (Hok Hnz).
  pose proof Hok as (Hv1 & Hhs & Hmod & _ & Vc0 & Vc & _).
  destruct (filters_roundtrip m (filters b) Hfs 0) as (n & Rn & Hsz & Henc); [unfold LZMA_FILTERS_MAX; lia|].
  rewrite (block_header_size_spec b n) in Hs; try assumption; try lia.
  2: { intros E. rewrite E in Hn. cbn in Hn. lia. }
  2: { intros size R. apply Hsz; lia. }
  injection Hs as <-. cbn [set_header_size header_size] in Hle.
  destruct (block_header_encode_spec m b n) as (c & u & fs & fs' & k & E & L & B & Dc & Du & Df & S);
    try assumption; try lia; [dlia|].
  pose proof (fun b' rest Ev Eh Ek => block_header_decode_spec m b b' c u fs fs' k rest
    Hok Hver Hc Hu Hk Hn Ev Eh Ek L B Dc Du Df) as Hdec. cbv zeta in Hdec.
  eexists _, fs'. split; [exact E|]. destruct (Hdec b [] eq_refl eq_refl eq_refl) as [Hb _]. split_and!.
  - rewrite length_app, length_write32le. lia.
  - apply Forall_app_2; [exact Hb|apply write32le_bytes].
  - exact S.
  - intros b' rest Ev Eh Ek. rewrite <- app_assoc. now apply Hdec.
Qed.

End RoundTrip.

(** ** Properties *)

(** C28: Block Headers.  A header whose members are valid and whose size is at
    least the one that [lzma_block_header_size] computes is encoded in exactly
    [header_size] bytes, and decoding these bytes gives the sizes and the
    filters back. *)
Theorem block_header_roundtrip m b b0 b' :
  0 <= block_version b -> 0 <= block_check b -> 0 <= compressed_size b -> 0 <= uncompressed_size b ->
  1 <= zlen (filters b) <= LZMA_FILTERS_MAX -> Forall filter_ok (filters b) ->
  lzma_block_unpadded_size b <> 0 -> lzma_vli_is_valid (uncompressed_size b) = true ->
  lzma_block_header_size b = Ok b0 -> header_size b0 <= header_size b ->
  block_version b' = block_version b -> header_size b' = header_size b ->
  block_check b' = block_check b ->
  exists out fs', lzma_block_header_encode b = Ok out /\ zlen out = header_size b /\ bytes_ok out /\
    Forall2 (filter_stored m) (filters b) fs' /\
    forall rest, lzma_block_header_decode (Some m) b' (out ++ rest) =
      Ok {| block_version := block_version b; header_size := header_size b;
            block_check := block_check b; compressed_size := compressed_size b;
            uncompressed_size := uncompressed_size b; filters := fs'; ignore_check := false |}.
Proof.
  intros Hver Hk Hc Hu Hn Hfs Hnz Vu Hs Hle Ev Eh Ek.
  destruct (header_roundtrip m b b0 Hver Hk Hc Hu Hn Hfs Hnz Vu Hs Hle) as (out & fs' & H1 & H2 & H3 & H4 & H5).
  exists out, fs'. split_and!; auto.
Qed.

Lemma block_header_roundtrip_witness :
  exists out, lzma_block_header_encode block_example = Ok out /\ zlen out = 12.
Proof.
  destruct (block_header_roundtrip options_example block_example block_example block_example)
    as (out & fs' & E & L & _); try reflexivity; try (cbn; unfold LZMA_VLI_UNKNOWN, UINT64_MAX; lia).
  - cbn. unfold LZMA_CHECK_CRC64. lia.
  - cbn. unfold LZMA_FILTERS_MAX. lia.
  - repeat constructor. cbn. unfold is_u32. lia.
  - vm_compute. discriminate.
  - exists out. now split.
Defined.

(** C29: the decoder of Block Headers is safe on any buffer of the announced
    size: the members of a Block it accepts satisfy what the rest of the
    decoder relies on (sizes that are valid, a non-zero Compressed Size whose
    Block fits in a valid Stream, one to four filters with options of their
    type); a wrong size byte is [LZMA_PROG_ERROR], a CRC32 mismatch
    [LZMA_DATA_ERROR], reserved flags [LZMA_OPTIONS_ERROR], in this order. *)
Theorem block_header_decode_safe m b input :
  bytes_ok input -> 0 <= block_version b -> 0 <= block_check b -> header_size b <= zlen input ->
  (forall b', lzma_block_header_decode (Some m) b input = Ok b' ->
    block_version b' <= 1 /\ header_size b' = header_size b /\ block_check b' = block_check b /\
    (compressed_size b' = LZMA_VLI_UNKNOWN \/ (lzma_block_unpadded_size b' <> 0 /\
       0 < compressed_size b' <= LZMA_VLI_MAX)) /\
    lzma_vli_is_valid (uncompressed_size b') = true /\
    1 <= zlen (filters b') <= LZMA_FILTERS_MAX /\ Forall filter_ok (filters b')) /\
  (header_size b <> (byte_at input 0 + 1) * 4 ->
    lzma_block_header_decode (Some m) b input = Err LZMA_PROG_ERROR) /\
  (header_size b = (byte_at input 0 + 1) * 4 -> block_check b <= LZMA_CHECK_ID_MAX ->
    let in_size := header_size b - 4 in
    (lzma_crc32 (slice 0 in_size input) 0 <> read32le (from in_size input) ->
      lzma_block_header_decode (Some m) b input = Err LZMA_DATA_ERROR) /\
    (lzma_crc32 (slice 0 in_size input) 0 = read32le (from in_size input) ->
      Z.land (byte_at input 1) 0x3C <> 0 ->
      lzma_block_header_decode (Some m) b input = Err LZMA_OPTIONS_ERROR)).
Proof.
  intros Hb Hver Hk Hlen. split; [|split].
  - intros b'. now apply block_header_decode_sound.
  - intros Hne. unfold lzma_block_header_decode, lzma_block_header_size_decode.
    bfalse ((byte_at input 0 + 1) * 4 =? header_size b). reflexivity.
  - intros Heq Hkm in_size. unfold lzma_block_header_decode, lzma_block_header_size_decode.
    btrue ((byte_at input 0 + 1) * 4 =? header_size b). bfalse (block_check b >? LZMA_CHECK_ID_MAX).
    cbn [negb orb]. fold in_size. split; intros Hcrc.
    + now bfalse (lzma_crc32 (slice 0 in_size input) 0 =? read32le (from in_size input)).
    + intros Hflags. btrue (lzma_crc32 (slice 0 in_size input) 0 =? read32le (from in_size input)).
      cbn [negb]. now bfalse (Z.land (byte_at input 1) 0x3C =? 0).
Qed.

Lemma block_header_decode_safe_witness :
  lzma_block_header_decode (Some options_example) block_example (repeat 2 12) = Err LZMA_DATA_ERROR.
Proof.
  destruct (block_header_decode_safe options_example block_example (repeat 2 12)) as (_ & _ & H).
  - cbn [repeat]. bytes_ok_tac.
  - cbn. lia.
  - cbn. unfold LZMA_CHECK_CRC64. lia.
  - cbn. lia.
  - apply H; [reflexivity|cbn; unfold LZMA_CHECK_CRC64, LZMA_CHECK_ID_MAX; lia|].
    vm_compute. discriminate.
Defined.

(** the sizes of a Block agree with each other.  When its Compressed Size
    is known, the Unpadded Size is the sum of its three parts, it is between
    [UNPADDED_SIZE_MIN] and [UNPADDED_SIZE_MAX], the total size rounds it up to
    a multiple of four without overflow, and [lzma_block_compressed_size]
    computes the Compressed Size back from it; from any other Unpadded Size it
    reports an error. *)
Theorem block_sizes_agree b unpadded :
  0 <= block_check b -> 0 <= compressed_size b -> compressed_size b <> LZMA_VLI_UNKNOWN ->
  lzma_block_unpadded_size b <> 0 -> is_u64 unpadded ->
  let size := lzma_block_unpadded_size b in
  size = compressed_size b + header_size b + lzma_check_size (block_check b) /\
  UNPADDED_SIZE_MIN <= size <= UNPADDED_SIZE_MAX /\
  lzma_block_total_size b = (size + 3) / 4 * 4 /\ lzma_block_total_size b <= LZMA_VLI_MAX /\
  (unpadded = size -> lzma_block_compressed_size b unpadded = Ok b) /\
  (unpadded <> size -> lzma_block_compressed_size b unpadded = Err LZMA_DATA_ERROR).
Proof.
  intros Hk Hc Hcu Hnz Hun size.
  destruct (unpadded_size_spec b Hc Hk) as [[Hok _] Hval]. specialize (Hok Hnz).
  specialize (Hval Hok). fold size in Hval, Hnz. bfalse (compressed_size b =? LZMA_VLI_UNKNOWN) in Hval.
  destruct Hok as (_ & Hhs & Hmod & Hkm & Hc0 & Vc & Hmax). specialize (Hmax Hcu).
  pose proof (lzma_check_size_range (block_check b) ltac:(lia)) as Hcs.
  pose proof (unknown_spec _ Vc Hcu) as Hc63. unfold LZMA_VLI_MAX in Hc63.
  rewrite u64_small in Hmax by (unfold is_u64; lia).
  assert (size <= 9223372036854775804) as Hsm by (rewrite Hval; exact Hmax).
  assert (lzma_block_total_size b = (size + 3) / 4 * 4) as Htot.
  { unfold lzma_block_total_size. fold size. unfold LZMA_VLI_UNKNOWN, UINT64_MAX.
    bfalse (size =? 18446744073709551615). cbn [negb]. unfold vli_ceil4.
    rewrite u64_small by (unfold is_u64; lia).
    unfold u64. change 18446744073709551616 with (2 ^ 64).
    rewrite <- Z.land_ones, Z.land_assoc, Z.land_ones by lia.
    change 3 with (2 ^ 2 - 1) at 2. rewrite land_high by lia. change (2 ^ 2) with 4.
    rewrite Z.mod_small by (change (2 ^ 64) with 18446744073709551616; dlia). dlia. }
  rewrite Htot. unfold UNPADDED_SIZE_MIN, LZMA_VLI_MAX. change UNPADDED_SIZE_MAX with 9223372036854775804.
  split; [exact Hval|]. split; [lia|]. split; [reflexivity|]. split; [dlia|]. split.
  - intros ->. unfold lzma_block_compressed_size. fold size. bfalse (size =? 0).
    rewrite u32_small by (unfold is_u32; lia).
    bfalse (size <=? header_size b + lzma_check_size (block_check b)).
    rewrite u64_small by (unfold is_u64; lia).
    replace (size - (header_size b + lzma_check_size (block_check b))) with (compressed_size b) by lia.
    rewrite Z.eqb_refl. cbn [negb]. rewrite andb_false_r. now destruct b.
  - intros Hne. unfold lzma_block_compressed_size. fold size. bfalse (size =? 0).
    rewrite u32_small by (unfold is_u32; lia). unfold is_u64 in Hun.
    destruct (Z.leb_spec unpadded (header_size b + lzma_check_size (block_check b))); [reflexivity|].
    rewrite u64_small by (unfold is_u64; lia).
    bfalse (compressed_size b =? LZMA_VLI_UNKNOWN).
    now bfalse (compressed_size b =? unpadded - (header_size b + lzma_check_size (block_check b))).
Qed.

Lemma block_sizes_agree_witness :
  let b := set_compressed_size block_example 100 in
  lzma_block_unpadded_size b = 120 /\ lzma_block_compressed_size b 121 = Err LZMA_DATA_ERROR.
Proof.
  destruct (block_sizes_agree (set_compressed_size block_example 100) 121)
    as (Hs & _ & _ & _ & _ & Hne).
  - cbn. unfold LZMA_CHECK_CRC64. lia.
  - cbn. lia.
  - cbn. unfold LZMA_VLI_UNKNOWN, UINT64_MAX. lia.
  - vm_compute. discriminate.
  - unfold is_u64. lia.
  - split; [exact Hs|apply Hne; vm_compute; discriminate].
Defined.
