(* ===== verification/IndexHash.v ===== *)
(** * Index: its encoder and the validation with a hash

    [index_encoder.c] and [index_hash.c] of [lib/archive/xz/src/liblzma/common],
    with the size computations of [index.h].  Both coders are state machines
    that stop when their buffer is exhausted and resume at the next call; the
    decoder does not store the Records, it compares sums and SHA-256 hashes of
    the Records with those of the Blocks that were decoded. *)

From S2P Require Import Prelude Crc Vli Sha256 Check StreamFlags BlockHeader.

(** ** Sizes ([index.h]) *)

Definition INDEX_INDICATOR : Z := 0.

Definition index_size_unpadded (count index_list_size : Z) : Z :=
  u64 (1 + lzma_vli_size count + index_list_size + 4).

Definition index_size (count index_list_size : Z) : Z :=
  vli_ceil4 (index_size_unpadded count index_list_size).

Definition index_stream_size (blocks_size count index_list_size : Z) : Z :=
  u64 (LZMA_STREAM_HEADER_SIZE + blocks_size + index_size count index_list_size
       + LZMA_STREAM_HEADER_SIZE).

(** ** State of [lzma_index_hash] *)

Record lzma_index_hash_info := {
  blocks_size : Z;
  info_uncompressed_size : Z;
  count : Z;
  index_list_size : Z;
  info_check : lzma_check_state;
}.

Inductive index_sequence :=
  | SEQ_BLOCK | SEQ_COUNT | SEQ_UNPADDED | SEQ_UNCOMPRESSED
  | SEQ_PADDING_INIT | SEQ_PADDING | SEQ_CRC32.

Record lzma_index_hash := {
  sequence : index_sequence;
  blocks : lzma_index_hash_info;
  records : lzma_index_hash_info;
  remaining : Z;
  rec_unpadded_size : Z;
  rec_uncompressed_size : Z;
  pos : Z;
  crc32 : Z;
}.

(** Assignments to single members. *)
Definition set_sequence (h : lzma_index_hash) (s : index_sequence) : lzma_index_hash :=
  {| sequence := s; blocks := blocks h; records := records h; remaining := remaining h;
     rec_unpadded_size := rec_unpadded_size h; rec_uncompressed_size := rec_uncompressed_size h;
     pos := pos h; crc32 := crc32 h |}.
Definition set_pos (h : lzma_index_hash) (p : Z) : lzma_index_hash :=
  {| sequence := sequence h; blocks := blocks h; records := records h; remaining := remaining h;
     rec_unpadded_size := rec_unpadded_size h; rec_uncompressed_size := rec_uncompressed_size h;
     pos := p; crc32 := crc32 h |}.
Definition set_crc32 (h : lzma_index_hash) (c : Z) : lzma_index_hash :=
  {| sequence := sequence h; blocks := blocks h; records := records h; remaining := remaining h;
     rec_unpadded_size := rec_unpadded_size h; rec_uncompressed_size := rec_uncompressed_size h;
     pos := pos h; crc32 := c |}.
Definition set_remaining (h : lzma_index_hash) (r : Z) : lzma_index_hash :=
  {| sequence := sequence h; blocks := blocks h; records := records h; remaining := r;
     rec_unpadded_size := rec_unpadded_size h; rec_uncompressed_size := rec_uncompressed_size h;
     pos := pos h; crc32 := crc32 h |}.
Definition set_blocks (h : lzma_index_hash) (i : lzma_index_hash_info) : lzma_index_hash :=
  {| sequence := sequence h; blocks := i; records := records h; remaining := remaining h;
     rec_unpadded_size := rec_unpadded_size h; rec_uncompressed_size := rec_uncompressed_size h;
     pos := pos h; crc32 := crc32 h |}.
Definition set_records (h : lzma_index_hash) (i : lzma_index_hash_info) : lzma_index_hash :=
  {| sequence := sequence h; blocks := blocks h; records := i; remaining := remaining h;
     rec_unpadded_size := rec_unpadded_size h; rec_uncompressed_size := rec_uncompressed_size h;
     pos := pos h; crc32 := crc32 h |}.

(** ** Initialisation and the Blocks *)

Definition info_init (i : lzma_index_hash_info) : lzma_index_hash_info :=
  {| blocks_size := 0; info_uncompressed_size := 0; count := 0; index_list_size := 0;
     info_check := lzma_check_init (info_check i) LZMA_CHECK_SHA256 |}.

(** [h] is the memory of the structure: an old one or what was allocated; the
    function does not initialise [remaining]. *)
Definition lzma_index_hash_init (h : lzma_index_hash) : lzma_index_hash :=
  {| sequence := SEQ_BLOCK; blocks := info_init (blocks h); records := info_init (records h);
     remaining := remaining h; rec_unpadded_size := 0; rec_uncompressed_size := 0;
     pos := 0; crc32 := 0 |}.

Definition lzma_index_hash_size (h : lzma_index_hash) : Z :=
  index_size (count (blocks h)) (index_list_size (blocks h)).

(** [sizes] as bytes, on a little endian machine. *)
Definition hash_append (i : lzma_index_hash_info) (unpadded_size uncompressed_size : Z)
    : lzma_index_hash_info :=
  {| blocks_size := u64 (blocks_size i + vli_ceil4 unpadded_size);
     info_uncompressed_size := u64 (info_uncompressed_size i + uncompressed_size);
     count := u64 (count i + 1);
     index_list_size :=
       u64 (index_list_size i + u32 (lzma_vli_size unpadded_size + lzma_vli_size uncompressed_size));
     info_check := lzma_check_update (info_check i) LZMA_CHECK_SHA256
       (write64le unpadded_size ++ write64le uncompressed_size) |}.

Definition sequence_is_block (s : index_sequence) : bool :=
  match s with SEQ_BLOCK => true | _ => false end.

(** The return code and the state, which is updated before the limits are
    checked. *)
Definition lzma_index_hash_append (h : lzma_index_hash) (unpadded_size uncompressed_size : Z)
    : lzma_ret * lzma_index_hash :=
  if negb (sequence_is_block (sequence h))
     || (unpadded_size <? UNPADDED_SIZE_MIN) || (unpadded_size >? UNPADDED_SIZE_MAX)
     || (uncompressed_size >? LZMA_VLI_MAX) then (LZMA_PROG_ERROR, h)
  else
    let b := hash_append (blocks h) unpadded_size uncompressed_size in
    let h := set_blocks h b in
    if (blocks_size b >? LZMA_VLI_MAX) || (info_uncompressed_size b >? LZMA_VLI_MAX)
       || (index_size (count b) (index_list_size b) >? LZMA_BACKWARD_SIZE_MAX)
       || (index_stream_size (blocks_size b) (count b) (index_list_size b) >? LZMA_VLI_MAX)
    then (LZMA_DATA_ERROR, h) else (LZMA_OK, h).

(** ** [lzma_index_hash_decode] *)

Definition sizes_differ (h : lzma_index_hash) : bool :=
  negb (blocks_size (blocks h) =? blocks_size (records h))
  || negb (info_uncompressed_size (blocks h) =? info_uncompressed_size (records h))
  || negb (index_list_size (blocks h) =? index_list_size (records h)).

Definition sizes_exceeded (h : lzma_index_hash) : bool :=
  (blocks_size (blocks h) <? blocks_size (records h))
  || (info_uncompressed_size (blocks h) <? info_uncompressed_size (records h))
  || (index_list_size (blocks h) <? index_list_size (records h)).

Definition finish_info (i : lzma_index_hash_info) : lzma_index_hash_info :=
  {| blocks_size := blocks_size i; info_uncompressed_size := info_uncompressed_size i;
     count := count i; index_list_size := index_list_size i;
     info_check := lzma_check_finish (info_check i) LZMA_CHECK_SHA256 |}.

Definition info_digest (i : lzma_index_hash_info) : bytes :=
  slice 0 (lzma_check_size LZMA_CHECK_SHA256) (chk_buffer (info_check i)).

(** The [do ... while] loop of [SEQ_CRC32]; it returns from the function. *)
Fixpoint crc32_loop (h : lzma_index_hash) (input : bytes) : lzma_ret * lzma_index_hash * bytes :=
  match input with
  | [] => (LZMA_OK, h, [])
  | b :: input =>
      if negb (Z.land (Z.shiftr (crc32 h) (pos h * 8)) 0xFF =? b) then (LZMA_DATA_ERROR, h, input)
      else
        let h := set_pos h (pos h + 1) in
        if pos h <? 4 then crc32_loop h input else (LZMA_STREAM_END, h, input)
  end.

(** What an iteration of the main loop does: go on, leave with [goto out],
    which updates the CRC32, or return at once. *)
Inductive index_step :=
  | StepNext (h : lzma_index_hash) (input : bytes)
  | StepOut (ret : lzma_ret) (h : lzma_index_hash) (input : bytes)
  | StepReturn (ret : lzma_ret) (h : lzma_index_hash) (input : bytes).

(** [SEQ_PADDING] and, by fall through, [SEQ_CRC32].  [used] is what this call
    has read before this iteration. *)
Definition step_padding (h : lzma_index_hash) (used input : bytes) : index_step :=
  if pos h >? 0 then
    let h := set_pos h (pos h - 1) in
    match input with
    | [] => StepNext h []
    | b :: input => if negb (b =? 0) then StepReturn LZMA_DATA_ERROR h input else StepNext h input
    end
  else if sizes_differ h then StepReturn LZMA_DATA_ERROR h input
  else
    let h := set_blocks h (finish_info (blocks h)) in
    let h := set_records h (finish_info (records h)) in
    if negb (bool_decide (info_digest (blocks h) = info_digest (records h)))
    then StepReturn LZMA_DATA_ERROR h input
    else
      let h := set_crc32 h (lzma_crc32 used (crc32 h)) in
      let h := set_sequence h SEQ_CRC32 in
      let '(ret, h, input) := crc32_loop h input in StepReturn ret h input.

Definition decode_step (h : lzma_index_hash) (used input : bytes) : index_step :=
  match sequence h with
  | SEQ_BLOCK =>
      match input with
      | [] => StepNext h []
      | b :: input =>
          if negb (b =? INDEX_INDICATOR) then StepReturn LZMA_DATA_ERROR h input
          else StepNext (set_sequence h SEQ_COUNT) input
      end
  | SEQ_COUNT =>
      match lzma_vli_decode (remaining h) (Some (pos h)) input with
      | (LZMA_STREAM_END, v, p, input) =>
          let h := set_remaining h v in
          if negb (v =? count (blocks h)) then StepReturn LZMA_DATA_ERROR (set_pos h p) input
          else StepNext (set_sequence (set_pos h 0)
                 (if v =? 0 then SEQ_PADDING_INIT else SEQ_UNPADDED)) input
      | (ret, v, p, input) => StepOut ret (set_pos (set_remaining h v) p) input
      end
  | SEQ_UNPADDED =>
      let with_size v := {| sequence := sequence h; blocks := blocks h; records := records h;
        remaining := remaining h; rec_unpadded_size := v;
        rec_uncompressed_size := rec_uncompressed_size h; pos := pos h; crc32 := crc32 h |} in
      match lzma_vli_decode (rec_unpadded_size h) (Some (pos h)) input with
      | (LZMA_STREAM_END, v, p, input) =>
          let h := set_pos (with_size v) 0 in
          if (v <? UNPADDED_SIZE_MIN) || (v >? UNPADDED_SIZE_MAX)
          then StepReturn LZMA_DATA_ERROR h input
          else StepNext (set_sequence h SEQ_UNCOMPRESSED) input
      | (ret, v, p, input) => StepOut ret (set_pos (with_size v) p) input
      end
  | SEQ_UNCOMPRESSED =>
      let with_size v := {| sequence := sequence h; blocks := blocks h; records := records h;
        remaining := remaining h; rec_unpadded_size := rec_unpadded_size h;
        rec_uncompressed_size := v; pos := pos h; crc32 := crc32 h |} in
      match lzma_vli_decode (rec_uncompressed_size h) (Some (pos h)) input with
      | (LZMA_STREAM_END, v, p, input) =>
          let h := set_pos (with_size v) 0 in
          let h := set_records h (hash_append (records h) (rec_unpadded_size h) v) in
          if sizes_exceeded h then StepReturn LZMA_DATA_ERROR h input
          else
            let h := set_remaining h (u64 (remaining h - 1)) in
            StepNext (set_sequence h (if remaining h =? 0 then SEQ_PADDING_INIT else SEQ_UNPADDED))
              input
      | (ret, v, p, input) => StepOut ret (set_pos (with_size v) p) input
      end
  | SEQ_PADDING_INIT =>
      let p := Z.land (u64 (4 - index_size_unpadded (count (records h)) (index_list_size (records h)))) 3 in
      step_padding (set_sequence (set_pos h p) SEQ_PADDING) used input
  | SEQ_PADDING => step_padding h used input
  | SEQ_CRC32 =>
      let '(ret, h, input) := crc32_loop h input in StepReturn ret h input
  end.

(** The end of the function, at [out]. *)
Definition index_out (ret : lzma_ret) (h : lzma_index_hash) (used rest : bytes)
    : lzma_ret * lzma_index_hash * bytes :=
  (ret, (match used with [] => h | _ => set_crc32 h (lzma_crc32 used (crc32 h)) end), rest).

(** The bytes of [input] before its suffix [rest]. *)
Definition consumed (input rest : bytes) : bytes := take (length input - length rest) input.

(** The [while] loop.  Every iteration that goes on has read a byte, so that
    the length of the input is enough [fuel]. *)
Fixpoint decode_loop (fuel : nat) (h : lzma_index_hash) (used input : bytes)
    : lzma_ret * lzma_index_hash * bytes :=
  match input, fuel with
  | [], _ | _, O => index_out LZMA_OK h used input
  | _, S fuel =>
      match decode_step h used input with
      | StepNext h rest => decode_loop fuel h (used ++ consumed input rest) rest
      | StepOut ret h rest => index_out ret h (used ++ consumed input rest) rest
      | StepReturn ret h rest => (ret, h, rest)
      end
  end.

(** The return code, the new state and the input that was not read. *)
Definition lzma_index_hash_decode (h : lzma_index_hash) (input : bytes)
    : lzma_ret * lzma_index_hash * bytes :=
  match input with
  | [] => (LZMA_BUF_ERROR, h, [])
  | _ => decode_loop (length input) h [] input
  end.

(** ** [index_encode]

    The [lzma_index] is given by its Records (Unpadded Size, Uncompressed Size)
    in the order in which the iterator visits the Blocks.  [iter] holds the
    Records that [lzma_index_iter_next] has not visited, [iter_block] the
    current one. *)

Inductive index_enc_sequence :=
  | ENC_INDICATOR | ENC_COUNT | ENC_UNPADDED | ENC_UNCOMPRESSED | ENC_NEXT
  | ENC_PADDING | ENC_CRC32.

Record lzma_index_coder := {
  enc_sequence : index_enc_sequence;
  enc_index : list (Z * Z);
  iter : list (Z * Z);
  iter_block : Z * Z;
  enc_pos : Z;
  enc_crc32 : Z;
}.

Definition records_list_size (index : list (Z * Z)) : Z :=
  fold_left (fun n r => n + (lzma_vli_size r.1 + lzma_vli_size r.2)) index 0.

Definition lzma_index_padding_size (index : list (Z * Z)) : Z :=
  Z.land (u64 (4 - index_size_unpadded (zlen index) (records_list_size index))) 3.

Definition index_encoder_reset (index : list (Z * Z)) : lzma_index_coder :=
  {| enc_sequence := ENC_INDICATOR; enc_index := index; iter := index; iter_block := (0, 0);
     enc_pos := 0; enc_crc32 := 0 |}.

Definition enc_at (c : lzma_index_coder) (s : index_enc_sequence) (p : Z) : lzma_index_coder :=
  {| enc_sequence := s; enc_index := enc_index c; iter := iter c; iter_block := iter_block c;
     enc_pos := p; enc_crc32 := enc_crc32 c |}.

Definition enc_set_crc32 (c : lzma_index_coder) (crc : Z) : lzma_index_coder :=
  {| enc_sequence := enc_sequence c; enc_index := enc_index c; iter := iter c;
     iter_block := iter_block c; enc_pos := enc_pos c; enc_crc32 := crc |}.

(** The [do ... while] loop of [SEQ_CRC32]. *)
Fixpoint enc_crc32_loop (c : lzma_index_coder) (avail : nat) : lzma_ret * lzma_index_coder * bytes :=
  match avail with
  | O => (LZMA_OK, c, [])
  | S avail =>
      let b := Z.land (Z.shiftr (enc_crc32 c) (enc_pos c * 8)) 0xFF in
      let c := enc_at c (enc_sequence c) (enc_pos c + 1) in
      if enc_pos c <? 4 then
        let '(ret, c, out) := enc_crc32_loop c avail in (ret, c, b :: out)
      else (LZMA_STREAM_END, c, [b])
  end.

(** An iteration of the main loop: the bytes it stores and how it ends. *)
Inductive encode_result :=
  | EncNext (c : lzma_index_coder) (out : bytes)
  | EncOut (ret : lzma_ret) (c : lzma_index_coder) (out : bytes)
  | EncReturn (ret : lzma_ret) (c : lzma_index_coder) (out : bytes).

(** The encoding of one size; [next] is the state that follows. *)
Definition encode_size (c : lzma_index_coder) (size : Z) (next : index_enc_sequence) (avail : nat)
    : encode_result :=
  match lzma_vli_encode size (Some (enc_pos c)) avail with
  | (LZMA_STREAM_END, out, _) => EncNext (enc_at c next 0) out
  | (ret, out, p) => EncOut ret (enc_at c (enc_sequence c) p) out
  end.

(** [done] is what this call has stored before this iteration. *)
Definition encode_step (c : lzma_index_coder) (done : bytes) (avail : nat) : encode_result :=
  match enc_sequence c with
  | ENC_INDICATOR => EncNext (enc_at c ENC_COUNT (enc_pos c)) [INDEX_INDICATOR]
  | ENC_COUNT => encode_size c (zlen (enc_index c)) ENC_NEXT avail
  | ENC_NEXT =>
      match iter c with
      | [] => EncNext (enc_at c ENC_PADDING (lzma_index_padding_size (enc_index c))) []
      | r :: rest =>
          let c := {| enc_sequence := ENC_UNPADDED; enc_index := enc_index c; iter := rest;
                      iter_block := r; enc_pos := enc_pos c; enc_crc32 := enc_crc32 c |} in
          encode_size c (iter_block c).1 ENC_UNCOMPRESSED avail
      end
  | ENC_UNPADDED => encode_size c (iter_block c).1 ENC_UNCOMPRESSED avail
  | ENC_UNCOMPRESSED => encode_size c (iter_block c).2 ENC_NEXT avail
  | ENC_PADDING =>
      if enc_pos c >? 0 then EncNext (enc_at c ENC_PADDING (enc_pos c - 1)) [0x00]
      else
        let c := enc_set_crc32 c (lzma_crc32 done (enc_crc32 c)) in
        let '(ret, c, out) := enc_crc32_loop (enc_at c ENC_CRC32 (enc_pos c)) avail in
        EncReturn ret c out
  | ENC_CRC32 => let '(ret, c, out) := enc_crc32_loop c avail in EncReturn ret c out
  end.

Definition enc_out (ret : lzma_ret) (c : lzma_index_coder) (done : bytes)
    : lzma_ret * lzma_index_coder * bytes :=
  (ret, (match done with [] => c | _ => enc_set_crc32 c (lzma_crc32 done (enc_crc32 c)) end), done).

(** The [while] loop; [avail] is [out_size - *out_pos].  Only the iteration
    that leaves [SEQ_NEXT] for [SEQ_PADDING] stores nothing, so that one more
    than [avail] is enough [fuel]. *)
Fixpoint encode_loop (fuel : nat) (c : lzma_index_coder) (done : bytes) (avail : nat)
    : lzma_ret * lzma_index_coder * bytes :=
  match avail, fuel with
  | O, _ | _, O => enc_out LZMA_OK c done
  | _, S fuel =>
      match encode_step c done avail with
      | EncNext c out => encode_loop fuel c (done ++ out) (avail - length out)
      | EncOut ret c out => enc_out ret c (done ++ out)
      | EncReturn ret c out => (ret, c, done ++ out)
      end
  end.

Definition index_encode (c : lzma_index_coder) (avail : nat) : lzma_ret * lzma_index_coder * bytes :=
  encode_loop (S avail) c [] avail.

(** [lzma_index_buffer_encode] *)
Definition lzma_index_buffer_encode (index : list (Z * Z)) (avail : nat) : res bytes :=
  if Z.of_nat avail <? index_size (zlen index) (records_list_size index) then Err LZMA_BUF_ERROR
  else
    match index_encode (index_encoder_reset index) avail with
    | (LZMA_STREAM_END, _, out) => Ok out
    | _ => Err LZMA_PROG_ERROR
    end.

(** Adding the Blocks one by one, all of them accepted. *)
Fixpoint append_all (h : lzma_index_hash) (index : list (Z * Z)) : option lzma_index_hash :=
  match index with
  | [] => Some h
  | (u, c) :: rest =>
      match lzma_index_hash_append h u c with
      | (LZMA_OK, h) => append_all h rest
      | _ => None
      end
  end.

Definition info_example : lzma_index_hash_info :=
  {| blocks_size := 1; info_uncompressed_size := 2; count := 3; index_list_size := 4;
     info_check := check_state_example |}.

Definition hash_example : lzma_index_hash :=
  {| sequence := SEQ_CRC32; blocks := info_example; records := info_example; remaining := 5;
     rec_unpadded_size := 6; rec_uncompressed_size := 7; pos := 8; crc32 := 9 |}.

Example index_encode_ex :
  lzma_index_buffer_encode [(100, 300)] 100 =
  Ok [0x00; 0x01; 0x64; 0xAC; 0x02; 0x00; 0x00; 0x00; 0x8D; 0x23; 0xEE; 0x4F].
Proof. vm_compute. reflexivity. Qed.

#[local] Opaque lzma_crc32 lzma_vli_decode lzma_vli_encode lzma_vli_size lzma_check_update
  lzma_check_finish Fips.sha256_ref vli_bytes.

(** ** The Index field *)

(** The bytes of the Index of the given Records: what the file format
    specifies. *)
Definition record_bytes (r : Z * Z) : bytes := vli_bytes r.1 ++ vli_bytes r.2.

Definition index_body (index : list (Z * Z)) : bytes :=
  [INDEX_INDICATOR] ++ vli_bytes (zlen index) ++ flat_map record_bytes index ++
  repeat 0 (Z.to_nat (lzma_index_padding_size index)).

Definition index_bytes (index : list (Z * Z)) : bytes :=
  index_body index ++ write32le (lzma_crc32 (index_body index) 0).

(** A Record that the format allows. *)
Definition record_ok (r : Z * Z) : Prop :=
  UNPADDED_SIZE_MIN <= r.1 <= UNPADDED_SIZE_MAX /\ 0 <= r.2 <= LZMA_VLI_MAX.

(** The sums that are kept, without the wrap-around. *)
Definition total_blocks (index : list (Z * Z)) : Z :=
  fold_left (fun n r => n + vli_ceil4 r.1) index 0.
Definition total_uncompressed (index : list (Z * Z)) : Z :=
  fold_left (fun n r => n + r.2) index 0.

(** The size of the Index field. *)
Definition index_field_size (index : list (Z * Z)) : Z :=
  (1 + lzma_vli_size (zlen index) + records_list_size index + 4 + 3) / 4 * 4.

(** The limits of a Stream: those of its sizes and of the Backward Size. *)
Definition index_limits (index : list (Z * Z)) : Prop :=
  total_blocks index <= LZMA_VLI_MAX /\ total_uncompressed index <= LZMA_VLI_MAX /\
  index_field_size index <= LZMA_BACKWARD_SIZE_MAX /\
  LZMA_STREAM_HEADER_SIZE + total_blocks index + index_field_size index + LZMA_STREAM_HEADER_SIZE
    <= LZMA_VLI_MAX.

(** ** Lemmas: sums *)

Section Sums.

Lemma fold_add {A} (f : A -> Z) l : forall n,
  fold_left (fun n r => n + f r) l n = n + fold_left (fun n r => n + f r) l 0.
Proof.
  induction l as [|x l IH]; intros n; cbn [fold_left]; [lia|].
  rewrite IH, (IH (0 + f x)). lia.
Qed.

Lemma fold_add_app {A} (f : A -> Z) l1 l2 :
  fold_left (fun n r => n + f r) (l1 ++ l2) 0 =
  fold_left (fun n r => n + f r) l1 0 + fold_left (fun n r => n + f r) l2 0.
Proof. rewrite fold_left_app. apply fold_add. Qed.

Lemma fold_add_nonneg {A} (f : A -> Z) l :
  Forall (fun x => 0 <= f x) l -> 0 <= fold_left (fun n r => n + f r) l 0.
Proof.
  induction 1 as [|x l Hx H IH]; cbn [fold_left]; [lia|]. rewrite fold_add. lia.
Qed.

Lemma vli_ceil4_spec v : 0 <= v <= UNPADDED_SIZE_MAX -> vli_ceil4 v = (v + 3) / 4 * 4.
Proof.
  intros Hv. change UNPADDED_SIZE_MAX with 9223372036854775804 in Hv. unfold vli_ceil4.
  rewrite (u64_small (v + 3)) by (unfold is_u64; lia).
  unfold u64. change 18446744073709551616 with (2 ^ 64).
  rewrite <- Z.land_ones, Z.land_assoc, Z.land_ones by lia.
  change 3 with (2 ^ 2 - 1) at 2. rewrite land_high by lia. change (2 ^ 2) with 4.
  rewrite Z.mod_small by (change (2 ^ 64) with 18446744073709551616; dlia). dlia.
Qed.

Lemma record_ok_ceil r : record_ok r -> r.1 <= vli_ceil4 r.1 <= r.1 + 3.
Proof.
  intros [H _]. change UNPADDED_SIZE_MAX with 9223372036854775804 in H. unfold UNPADDED_SIZE_MIN in H.
  rewrite vli_ceil4_spec by (change UNPADDED_SIZE_MAX with 9223372036854775804; lia). dlia.
Qed.

Lemma record_ok_sizes r :
  record_ok r -> 1 <= lzma_vli_size r.1 <= 9 /\ 1 <= lzma_vli_size r.2 <= 9.
Proof.
  intros [H1 H2]. change UNPADDED_SIZE_MAX with 9223372036854775804 in H1. unfold UNPADDED_SIZE_MIN in H1.
  split; apply vli_size_range; unfold LZMA_VLI_MAX in *; lia.
Qed.

Lemma totals_nonneg index :
  Forall record_ok index ->
  0 <= total_blocks index /\ 0 <= total_uncompressed index /\
  2 * zlen index <= records_list_size index <= 18 * zlen index.
Proof.
  intros H. split; [|split].
  - apply fold_add_nonneg. eapply Forall_impl; [exact H|]. intros r Hr. pose proof (record_ok_ceil r Hr).
    destruct Hr as [[Hr _] _]. unfold UNPADDED_SIZE_MIN in Hr. lia.
  - apply fold_add_nonneg. eapply Forall_impl; [exact H|]. intros r [_ Hr]. lia.
  - unfold records_list_size. induction H as [|r l Hr H IH]; cbn [fold_left length]; [lia|].
    rewrite fold_add. pose proof (record_ok_sizes r Hr). lia.
Qed.

Lemma totals_snoc index r :
  total_blocks (index ++ [r]) = total_blocks index + vli_ceil4 r.1 /\
  total_uncompressed (index ++ [r]) = total_uncompressed index + r.2 /\
  records_list_size (index ++ [r]) = records_list_size index + (lzma_vli_size r.1 + lzma_vli_size r.2) /\
  zlen (index ++ [r]) = zlen index + 1.
Proof.
  unfold total_blocks, total_uncompressed, records_list_size. rewrite !fold_add_app, length_app.
  cbn [fold_left length]. lia.
Qed.

Lemma totals_prefix index1 index2 :
  Forall record_ok (index1 ++ index2) ->
  total_blocks index1 <= total_blocks (index1 ++ index2) /\
  total_uncompressed index1 <= total_uncompressed (index1 ++ index2) /\
  records_list_size index1 <= records_list_size (index1 ++ index2).
Proof.
  intros H. apply Forall_app in H as [_ H]. destruct (totals_nonneg index2 H) as (H1 & H2 & H3).
  unfold total_blocks, total_uncompressed, records_list_size in *. rewrite !fold_add_app. lia.
Qed.

End Sums.

(** ** Lemmas: the Blocks *)

Section Blocks.

(** The information about the Records of [index]. *)
Definition info_of (index : list (Z * Z)) (i : lzma_index_hash_info) : lzma_index_hash_info :=
  fold_left (fun i r => hash_append i r.1 r.2) index (info_init i).

Lemma info_of_snoc index r i : info_of (index ++ [r]) i = hash_append (info_of index i) r.1 r.2.
Proof. unfold info_of. now rewrite fold_left_app. Qed.

Lemma info_of_sums index i :
  Forall record_ok index -> total_blocks index < 18446744073709551616 ->
  total_uncompressed index < 18446744073709551616 -> records_list_size index < 18446744073709551616 ->
  blocks_size (info_of index i) = total_blocks index /\
  info_uncompressed_size (info_of index i) = total_uncompressed index /\
  count (info_of index i) = zlen index /\
  index_list_size (info_of index i) = records_list_size index.
Proof.
  induction index as [|r index IH] using rev_ind; intros Hok Hb Hu Hl; [now split_and!|].
  pose proof (totals_prefix index [r] Hok) as Hp. pose proof (totals_nonneg _ Hok) as Hn.
  pose proof Hok as Hok'. apply Forall_app in Hok' as [Hok1 Hr]. apply Forall_cons in Hr as [Hr _].
  pose proof (totals_nonneg _ Hok1) as Hn1.
  destruct (IH Hok1) as (E1 & E2 & E3 & E4); try lia.
  destruct (totals_snoc index r) as (T1 & T2 & T3 & T4). rewrite T1, T2, T3, T4 in *.
  rewrite info_of_snoc. cbn [hash_append blocks_size info_uncompressed_size count index_list_size].
  rewrite E1, E2, E3, E4. pose proof (record_ok_sizes r Hr). pose proof (record_ok_ceil r Hr).
  destruct Hr as [Hr1 Hr2].
  rewrite (u32_small (_ + _)) by (unfold is_u32; lia).
  rewrite !u64_small by (unfold is_u64; lia). now split_and!.
Qed.

Lemma index_size_spec n size :
  0 <= n -> 0 <= size <= 9223372036854775000 ->
  index_size n size = (1 + lzma_vli_size n + size + 4 + 3) / 4 * 4.
Proof.
  intros Hn Hs. pose proof (vli_size_range_any n Hn). unfold index_size, index_size_unpadded.
  rewrite u64_small by (unfold is_u64; lia). apply vli_ceil4_spec.
  change UNPADDED_SIZE_MAX with 9223372036854775804. lia.
Qed.

Lemma index_limits_bounds index :
  Forall record_ok index -> index_limits index ->
  zlen index <= 17179869184 /\ records_list_size index <= 17179869184.
Proof.
  intros Hok (_ & _ & Hs & _). pose proof (totals_nonneg _ Hok) as (_ & _ & Hl).
  unfold index_field_size, LZMA_BACKWARD_SIZE_MAX in Hs.
  pose proof (vli_size_range_any (zlen index) ltac:(lia)). dlia.
Qed.

(** A Block is accepted when its Record is valid and the limits still hold. *)
Lemma append_spec h i index r :
  sequence h = SEQ_BLOCK -> blocks h = info_of index i ->
  Forall record_ok index -> index_limits index -> 0 <= r.1 < 18446744073709551616 -> 0 <= r.2 < 18446744073709551616 ->
  lzma_index_hash_append h r.1 r.2 =
    if decide (record_ok r) then
      (if decide (index_limits (index ++ [r])) then LZMA_OK else LZMA_DATA_ERROR,
       set_blocks h (info_of (index ++ [r]) i))
    else (LZMA_PROG_ERROR, h).
Proof.
  intros Hseq Hbl Hok Hlim Hr1 Hr2. unfold lzma_index_hash_append. rewrite Hseq, Hbl.
  cbn [sequence_is_block negb orb]. destruct (decide (record_ok r)) as [Hr|Hr].
  2: { match goal with |- (if ?t then _ else _) = _ => destruct t eqn:E end; [reflexivity|].
       b2p. exfalso. apply Hr. split; lia. }
  pose proof Hr as [Hr1' Hr2'].
  bfalse (r.1 <? UNPADDED_SIZE_MIN). bfalse (r.1 >? UNPADDED_SIZE_MAX). bfalse (r.2 >? LZMA_VLI_MAX).
  cbn [orb]. rewrite <- info_of_snoc.
  pose proof (index_limits_bounds index Hok Hlim) as [Bn Bl].
  pose proof (totals_nonneg index Hok) as (N1 & N2 & N3).
  destruct (totals_snoc index r) as (T1 & T2 & T3 & T4).
  pose proof (record_ok_sizes r Hr). pose proof (record_ok_ceil r Hr).
  destruct Hlim as (L1 & L2 & L3 & L4). unfold LZMA_VLI_MAX in *.
  change UNPADDED_SIZE_MAX with 9223372036854775804 in *.
  destruct (info_of_sums (index ++ [r]) i) as (E1 & E2 & E3 & E4); try lia.
  { apply Forall_app_2; [assumption|]. now constructor. }
  rewrite E1, E2, E3, E4. rewrite index_size_spec by lia. unfold index_stream_size.
  rewrite index_size_spec by lia. fold (index_field_size (index ++ [r])).
  assert (index_field_size (index ++ [r]) <= 17179869300) as F.
  { unfold index_field_size. pose proof (vli_size_range_any (zlen (index ++ [r])) ltac:(lia)). dlia. }
  unfold LZMA_STREAM_HEADER_SIZE in *.
  assert (0 <= index_field_size (index ++ [r])).
  { unfold index_field_size. pose proof (vli_size_range_any (zlen (index ++ [r])) ltac:(lia)). dlia. }
  match goal with |- (if ?t then _ else _) = _ => destruct t eqn:E end;
    destruct (decide (index_limits (index ++ [r]))) as [D|D]; try reflexivity; exfalso;
    unfold index_limits, LZMA_VLI_MAX, LZMA_STREAM_HEADER_SIZE in D.
  - destruct D as (D1 & D2 & D3 & D4). rewrite u64_small in E by (unfold is_u64; lia).
    rewrite !orb_true_iff in E. destruct_or! E; b2p; lia.
  - apply D. b2p. rewrite u64_small in * by (unfold is_u64; lia). split_and!; lia.
Qed.

(** All Blocks of a Stream are accepted together. *)
Lemma append_all_spec index : forall pre h i h',
  sequence h = SEQ_BLOCK -> blocks h = info_of pre i -> Forall record_ok pre -> index_limits pre ->
  Forall (fun r => is_u64 r.1 /\ is_u64 r.2) index ->
  append_all h index = Some h' ->
  Forall record_ok (pre ++ index) /\ index_limits (pre ++ index) /\
  h' = set_blocks h (info_of (pre ++ index) i).
Proof.
  induction index as [|[u c] index IH]; intros pre h i h' Hs Hb Hok Hlim H64; cbn [append_all].
  - intros [= <-]. rewrite app_nil_r. split_and!; try assumption. rewrite <- Hb. now destruct h.
  - apply Forall_cons in H64 as [[Hu Hc] H64].
    pose proof (append_spec h i pre (u, c) Hs Hb Hok Hlim Hu Hc) as E. cbn [fst snd] in E. rewrite E.
    destruct (decide (record_ok (u, c))) as [Hr|]; [|discriminate].
    destruct (decide (index_limits (pre ++ [(u, c)]))) as [Hl|]; [|discriminate]. intros H.
    apply (IH (pre ++ [(u, c)]) _ i) in H; try assumption; try reflexivity.
    + rewrite <- app_assoc in H. destruct H as (H1 & H2 & ->). split_and!; try assumption. reflexivity.
    + apply Forall_app_2; [assumption|]. now constructor.
Qed.

(** The digest is the SHA-256 of the Records. *)
Definition record_words (r : Z * Z) : bytes := write64le r.1 ++ write64le r.2.

Lemma info_of_check index i :
  info_check (info_of index i) =
  fold_left (fun c buf => lzma_check_update c LZMA_CHECK_SHA256 buf) (map record_words index)
    (lzma_check_init (info_check i) LZMA_CHECK_SHA256).
Proof.
  induction index as [|r index IH] using rev_ind; [reflexivity|].
  rewrite info_of_snoc, map_app, fold_left_app. cbn [hash_append info_check]. now rewrite IH.
Qed.

Lemma record_words_ok index : Forall bytes_ok (map record_words index).
Proof.
  apply Forall_forall. intros x Hx. apply list_elem_of_In, in_map_iff in Hx as (r & <- & _).
  unfold record_words, write64le. repeat apply Forall_app_2; apply write32le_bytes.
Qed.

Lemma info_digest_spec index i :
  length (chk_buffer (info_check i)) = 64%nat ->
  info_digest (finish_info (info_of index i)) = Fips.sha256_ref (flat_map record_words index).
Proof.
  intros Hl. unfold info_digest, finish_info. cbn [info_check]. rewrite info_of_check.
  destruct (check_field_ref (info_check i) LZMA_CHECK_SHA256 (map record_words index)) as [E _];
    [unfold LZMA_CHECK_SHA256; lia|reflexivity|assumption|apply record_words_ok|].
  unfold check_field in E. rewrite E. rewrite flat_map_concat_map. reflexivity.
Qed.

End Blocks.

(** ** Lemmas: the phases of the decoder *)

(** Compute the members of a state. *)
Ltac hash_cbn :=
  cbn [sequence blocks records remaining rec_unpadded_size rec_uncompressed_size pos crc32
       set_sequence set_pos set_records set_remaining set_crc32 set_blocks].

Ltac hash_cbn_in H :=
  cbn [sequence blocks records remaining rec_unpadded_size rec_uncompressed_size pos crc32
       set_sequence set_pos set_records set_remaining set_crc32 set_blocks] in H.

Section Decoder.

(** Whatever enough fuel is given, what the loop returns satisfies [P]. *)
Definition loop_returns (h : lzma_index_hash) (used input : bytes)
    (P : lzma_ret * lzma_index_hash * bytes -> Prop) : Prop :=
  forall fuel, (length input <= fuel)%nat -> P (decode_loop fuel h used input).

Lemma loop_next h h' used input rest P :
  decode_step h used input = StepNext h' rest -> (length rest < length input)%nat ->
  loop_returns h' (used ++ consumed input rest) rest P -> loop_returns h used input P.
Proof.
  intros E Hl H fuel Hf. destruct input as [|b input]; [cbn in Hl; lia|].
  destruct fuel as [|fuel]; [cbn in Hf; lia|]. cbn [decode_loop]. rewrite E.
  apply H. cbn [length] in *. lia.
Qed.

Lemma loop_return h used b input ret h' rest (P : _ -> Prop) :
  decode_step h used (b :: input) = StepReturn ret h' rest -> P (ret, h', rest) ->
  loop_returns h used (b :: input) P.
Proof.
  intros E HP fuel Hf. destruct fuel as [|fuel]; [cbn in Hf; lia|]. cbn [decode_loop]. now rewrite E.
Qed.

Lemma consumed_app a b : consumed (a ++ b) b = a.
Proof. unfold consumed. rewrite length_app, Nat.add_sub. apply take_app_length. Qed.

(** Going back from a loop that reached the end of the Index. *)
Lemma loop_inv fuel h used input hf rest :
  decode_loop fuel h used input = (LZMA_STREAM_END, hf, rest) ->
  input <> [] /\
  ((exists fuel' h' rest', decode_step h used input = StepNext h' rest' /\
     decode_loop fuel' h' (used ++ consumed input rest') rest' = (LZMA_STREAM_END, hf, rest)) \/
   (exists h' rest', decode_step h used input = StepOut LZMA_STREAM_END h' rest') \/
   decode_step h used input = StepReturn LZMA_STREAM_END hf rest).
Proof.
  destruct input as [|b input]; [destruct fuel; discriminate|].
  destruct fuel as [|fuel]; [discriminate|]. intros H. split; [discriminate|]. cbn [decode_loop] in H.
  destruct (decode_step h used (b :: input)) as [h' r'|ret h' r'|ret h' r'].
  - left. eauto.
  - right; left. unfold index_out in H. injection H as -> _ _. eauto.
  - right; right. congruence.
Qed.

(** The state while Records are read: those of [pre] have been. *)
Definition reading (s : index_sequence) (index pre : list (Z * Z)) (i j : lzma_index_hash_info)
    (rem u c p crc : Z) : lzma_index_hash :=
  {| sequence := s; blocks := info_of index i; records := info_of pre j; remaining := rem;
     rec_unpadded_size := u; rec_uncompressed_size := c; pos := p; crc32 := crc |}.

(** The Records read so far do not exceed the Blocks. *)
Definition within (index pre : list (Z * Z)) : Prop :=
  Forall record_ok index /\ index_limits index /\ Forall record_ok pre /\
  total_blocks pre <= total_blocks index /\ total_uncompressed pre <= total_uncompressed index /\
  records_list_size pre <= records_list_size index.

Lemma within_sums index pre i j :
  within index pre ->
  blocks_size (info_of index i) = total_blocks index /\
  info_uncompressed_size (info_of index i) = total_uncompressed index /\
  count (info_of index i) = zlen index /\ index_list_size (info_of index i) = records_list_size index /\
  blocks_size (info_of pre j) = total_blocks pre /\
  info_uncompressed_size (info_of pre j) = total_uncompressed pre /\
  count (info_of pre j) = zlen pre /\ index_list_size (info_of pre j) = records_list_size pre.
Proof.
  intros (Hi & Hl & Hp & H1 & H2 & H3). pose proof (index_limits_bounds index Hi Hl) as [_ B].
  destruct Hl as (L1 & L2 & _). unfold LZMA_VLI_MAX in *.
  destruct (info_of_sums index i Hi) as (E1 & E2 & E3 & E4); [lia..|].
  destruct (info_of_sums pre j Hp) as (F1 & F2 & F3 & F4); [lia..|]. now split_and!.
Qed.

(** Adding a Record, without wrap-around. *)
Lemma within_snoc_sums index pre r j :
  within index pre -> record_ok r ->
  blocks_size (info_of (pre ++ [r]) j) = total_blocks (pre ++ [r]) /\
  info_uncompressed_size (info_of (pre ++ [r]) j) = total_uncompressed (pre ++ [r]) /\
  index_list_size (info_of (pre ++ [r]) j) = records_list_size (pre ++ [r]).
Proof.
  intros (Hi & Hl & Hp & H1 & H2 & H3) Hr. pose proof (index_limits_bounds index Hi Hl) as [_ B].
  destruct Hl as (L1 & L2 & _). destruct (totals_snoc pre r) as (T1 & T2 & T3 & T4).
  pose proof (record_ok_sizes r Hr). pose proof (record_ok_ceil r Hr). pose proof Hr as [R1 R2].
  unfold LZMA_VLI_MAX in *. change UNPADDED_SIZE_MAX with 9223372036854775804 in *.
  destruct (info_of_sums (pre ++ [r]) j) as (F1 & F2 & F3 & F4); [apply Forall_app_2; auto|lia..|].
  now split_and!.
Qed.

Lemma record_vli r : record_ok r -> 0 <= r.1 <= LZMA_VLI_MAX /\ 0 <= r.2 <= LZMA_VLI_MAX.
Proof.
  intros [H1 H2]. change UNPADDED_SIZE_MAX with 9223372036854775804 in H1.
  unfold UNPADDED_SIZE_MIN, LZMA_VLI_MAX in *. lia.
Qed.

(** One Record. *)
Lemma read_record index pre r i j rem u c crc used tail res :
  within index (pre ++ [r]) -> within index pre -> record_ok r -> 1 <= rem < 18446744073709551616 ->
  loop_returns (reading (if rem - 1 =? 0 then SEQ_PADDING_INIT else SEQ_UNPADDED) index (pre ++ [r]) i j
    (rem - 1) r.1 r.2 0 crc) (used ++ record_bytes r) tail res ->
  loop_returns (reading SEQ_UNPADDED index pre i j rem u c 0 crc) used (record_bytes r ++ tail) res.
Proof.
  intros Hw' Hw Hr Hrem H. destruct (record_vli r Hr) as [V1 V2].
  pose proof (vli_size_range r.1 V1) as S1. pose proof (vli_size_range r.2 V2) as S2.
  destruct (vli_bytes_ok r.1 9 V1) as (L1 & _ & _ & D1); [lia|].
  destruct (vli_bytes_ok r.2 9 V2) as (L2 & _ & _ & D2); [lia|].
  unfold record_bytes in *. rewrite <- app_assoc.
  eapply loop_next.
  - unfold decode_step, reading. cbn [sequence rec_unpadded_size pos]. rewrite D1.
    destruct Hr as [[R1 R1'] _]. bfalse (r.1 <? UNPADDED_SIZE_MIN). bfalse (r.1 >? UNPADDED_SIZE_MAX).
    reflexivity.
  - rewrite !length_app. lia.
  - rewrite consumed_app. eapply loop_next.
    + unfold decode_step. hash_cbn. rewrite D2. rewrite <- info_of_snoc.
      unfold sizes_exceeded. hash_cbn.
      destruct (within_sums index (pre ++ [r]) i j Hw') as (-> & -> & _ & -> & -> & -> & _ & ->).
      destruct Hw' as (_ & _ & _ & W1 & W2 & W3).
      bfalse (total_blocks index <? total_blocks (pre ++ [r])).
      bfalse (total_uncompressed index <? total_uncompressed (pre ++ [r])).
      bfalse (records_list_size index <? records_list_size (pre ++ [r])). cbn [orb].
      rewrite u64_small by (unfold is_u64; lia). reflexivity.
    + rewrite !length_app. lia.
    + rewrite consumed_app, <- app_assoc. exact H.
Qed.

(** The List of Records. *)
Lemma read_records recs : forall index pre i j u c crc used tail res,
  recs <> [] -> within index (pre ++ recs) ->
  (forall u c, loop_returns (reading SEQ_PADDING_INIT index (pre ++ recs) i j 0 u c 0 crc)
    (used ++ flat_map record_bytes recs) tail res) ->
  loop_returns (reading SEQ_UNPADDED index pre i j (zlen recs) u c 0 crc) used
    (flat_map record_bytes recs ++ tail) res.
Proof.
  induction recs as [|r recs IH]; intros index pre i j u c crc used tail res Hne Hw H; [congruence|].
  assert (Forall record_ok (pre ++ r :: recs)) as Hok by apply Hw.
  pose proof (index_limits_bounds index ltac:(apply Hw) ltac:(apply Hw)) as [_ Bl].
  assert (zlen (pre ++ r :: recs) <= 17179869184) as Bn.
  { destruct Hw as (_ & _ & _ & _ & _ & W3). pose proof (totals_nonneg _ Hok). lia. }
  assert (forall l1 l2, pre ++ r :: recs = l1 ++ l2 -> within index l1) as Hpre.
  { intros l1 l2 E. destruct Hw as (W1 & W2 & _ & W4 & W5 & W6). rewrite E in *.
    destruct (totals_prefix l1 l2 Hok) as (P1 & P2 & P3).
    split_and!; try assumption; try lia. apply Forall_app in Hok as [Hok _]. exact Hok. }
  cbn [flat_map]. rewrite <- app_assoc. rewrite length_app in Bn. cbn [length] in Bn |- *.
  apply read_record.
  - apply (Hpre _ recs). now rewrite <- app_assoc.
  - now apply (Hpre _ (r :: recs)).
  - apply Forall_app in Hok as [_ Hok]. now apply Forall_cons in Hok as [? _].
  - lia.
  - destruct recs as [|r2 recs].
    + cbn [app flat_map] in *. change (Z.of_nat 1 - 1) with 0. cbn [Z.eqb].
      rewrite app_nil_r in H. apply H.
    + cbn [length] in *. bfalse (Z.of_nat (S (S (length recs))) - 1 =? 0).
      replace (Z.of_nat (S (S (length recs))) - 1) with (zlen (r2 :: recs)) by (cbn [length]; lia).
      apply IH; [discriminate| |].
      * now rewrite <- app_assoc.
      * intros u' c'. rewrite <- !app_assoc. apply H.
Qed.

(** Index Padding. *)
Lemma read_padding n : forall h used tail res,
  sequence h = SEQ_PADDING -> pos h = Z.of_nat n ->
  loop_returns (set_pos h 0) (used ++ repeat 0 n) tail res ->
  loop_returns h used (repeat 0 n ++ tail) res.
Proof.
  induction n as [|n IH]; intros h used tail res Hs Hp H.
  - cbn [repeat app] in *. rewrite app_nil_r in H. replace h with (set_pos h 0); [assumption|].
    destruct h. cbn in *. now rewrite Hp.
  - cbn [repeat app]. eapply loop_next.
    + unfold decode_step. rewrite Hs. unfold step_padding. btrue (pos h >? 0). reflexivity.
    + cbn [length]. lia.
    + change (0 :: repeat 0 n ++ tail) with ([0] ++ (repeat 0 n ++ tail)). rewrite consumed_app.
      apply IH; [assumption|cbn; lia|]. rewrite <- app_assoc. exact H.
Qed.

(** The first byte of the padding is read in the iteration that computes its
    size. *)
Lemma padding_init h used b input :
  sequence h = SEQ_PADDING_INIT ->
  decode_step h used (b :: input) =
  decode_step (set_sequence (set_pos h (Z.land (u64 (4 - index_size_unpadded (count (records h))
    (index_list_size (records h)))) 3)) SEQ_PADDING) used (b :: input).
Proof. intros E. unfold decode_step. now rewrite E. Qed.

Lemma land_FF x : Z.land x 0xFF = u8 x.
Proof. apply (land_low 8). lia. Qed.

(** The CRC32 field. *)
Ltac crc32_cbn Hp :=
  cbn [crc32_loop]; rewrite ?Hp; hash_cbn; rewrite ?land_FF;
  change (0 + 1) with 1; change (1 + 1) with 2; change (2 + 1) with 3; change (3 + 1) with 4;
  change (0 * 8) with 0; change (1 * 8) with 8; change (2 * 8) with 16; change (3 * 8) with 24;
  change (1 <? 4) with true; change (2 <? 4) with true; change (3 <? 4) with true;
  change (4 <? 4) with false; rewrite ?Z.shiftr_0_r.

Lemma crc32_loop_ok h rest :
  pos h = 0 -> crc32_loop h (write32le (crc32 h) ++ rest) = (LZMA_STREAM_END, set_pos h 4, rest).
Proof.
  intros Hp. unfold write32le. cbn [app]. crc32_cbn Hp. rewrite !Z.eqb_refl. reflexivity.
Qed.

Lemma crc32_loop_inv h input h' rest :
  pos h = 0 -> crc32_loop h input = (LZMA_STREAM_END, h', rest) ->
  input = write32le (crc32 h) ++ rest /\ h' = set_pos h 4.
Proof.
  intros Hp. do 4 (destruct input as [|? input];
    [crc32_cbn Hp; intros H; repeat (case_if_in H; try discriminate); discriminate|]).
  crc32_cbn Hp. unfold write32le.
  generalize (u8 (crc32 h)) (u8 (crc32 h ≫ 8)) (u8 (crc32 h ≫ 16)) (u8 (crc32 h ≫ 24)).
  intros b0 b1 b2 b3.
  destruct (Z.eqb_spec b0 z) as [->|]; cbn [negb]; [|discriminate].
  destruct (Z.eqb_spec b1 z0) as [->|]; cbn [negb]; [|discriminate].
  destruct (Z.eqb_spec b2 z1) as [->|]; cbn [negb]; [|discriminate].
  destruct (Z.eqb_spec b3 z2) as [->|]; cbn [negb]; [|discriminate].
  intros E. injection E as <- <-. split; reflexivity.
Qed.

(** The end of the Index is reached, [rest] is not read. *)
Definition ends (rest : bytes) (r : lzma_ret * lzma_index_hash * bytes) : Prop :=
  exists h', r = (LZMA_STREAM_END, h', rest).

(** From the padding to the end. *)
Lemma read_end index i j u c used rest :
  within index index ->
  length (chk_buffer (info_check i)) = 64%nat -> length (chk_buffer (info_check j)) = 64%nat ->
  let pad := repeat 0 (Z.to_nat (lzma_index_padding_size index)) in
  loop_returns (reading SEQ_PADDING_INIT index index i j 0 u c 0 0) used
    (pad ++ write32le (lzma_crc32 (used ++ pad) 0) ++ rest) (ends rest).
Proof.
  intros Hw Li Lj pad.
  destruct (within_sums index index i j Hw) as (S1 & S2 & S3 & S4 & S5 & S6 & S7 & S8).
  set (h1 := reading SEQ_PADDING index index i j 0 u c (lzma_index_padding_size index) 0).
  assert (forall b input, decode_step (reading SEQ_PADDING_INIT index index i j 0 u c 0 0) used (b :: input)
    = decode_step h1 used (b :: input)) as Hinit.
  { intros b input. rewrite padding_init by reflexivity. unfold h1, reading. hash_cbn.
    rewrite S7, S8. reflexivity. }
  assert (0 <= lzma_index_padding_size index) as Hpad.
  { unfold lzma_index_padding_size. apply Z.land_nonneg. lia. }
  assert (loop_returns h1 used
    (pad ++ write32le (lzma_crc32 (used ++ pad) 0) ++ rest) (ends rest)) as H.
  { apply read_padding; [reflexivity|cbn; lia|]. fold pad.
    change (set_pos h1 0) with (reading SEQ_PADDING index index i j 0 u c 0 0).
    set (h3 := {| sequence := SEQ_CRC32; blocks := finish_info (info_of index i);
      records := finish_info (info_of index j); remaining := 0; rec_unpadded_size := u;
      rec_uncompressed_size := c; pos := 0; crc32 := lzma_crc32 (used ++ pad) 0 |}).
    assert (decode_step (reading SEQ_PADDING index index i j 0 u c 0 0) (used ++ pad)
      (write32le (lzma_crc32 (used ++ pad) 0) ++ rest) =
      StepReturn LZMA_STREAM_END (set_pos h3 4) rest) as E.
    { unfold decode_step, reading. hash_cbn. unfold step_padding, sizes_differ. hash_cbn.
      rewrite S1, S2, S4, S5, S6, S8, !Z.eqb_refl. change (0 >? 0) with false. cbn [negb orb].
      rewrite !info_digest_spec by assumption. rewrite bool_decide_eq_true_2 by reflexivity. cbn [negb].
      fold h3. rewrite (crc32_loop_ok h3) by reflexivity. reflexivity. }
    eapply loop_return; [exact E|]. now eexists. }
  intros fuel Hf. specialize (H fuel Hf).
  destruct (pad ++ _) as [|b input] eqn:Ein; [destruct pad; discriminate|].
  destruct fuel as [|fuel]; [cbn in Hf; lia|]. cbn [decode_loop] in *. now rewrite Hinit.
Qed.

(** The state before the Index is read. *)
Definition ready (h : lzma_index_hash) (index : list (Z * Z)) (i j : lzma_index_hash_info) : Prop :=
  exists rem u c, h = reading SEQ_BLOCK index [] i j rem u c 0 0.

Lemma within_refl index :
  Forall record_ok index -> index_limits index -> within index index.
Proof. intros. split_and!; try assumption; lia. Qed.

Lemma decode_accepts h index i j rest :
  ready h index i j -> Forall record_ok index -> index_limits index ->
  length (chk_buffer (info_check i)) = 64%nat -> length (chk_buffer (info_check j)) = 64%nat ->
  exists h', lzma_index_hash_decode h (index_bytes index ++ rest) = (LZMA_STREAM_END, h', rest).
Proof.
  intros (rem & u & c & ->) Hok Hlim Li Lj. pose proof (within_refl index Hok Hlim) as Hw.
  pose proof (index_limits_bounds index Hok Hlim) as [Bn Bl].
  destruct (within_sums index index i j Hw) as (_ & _ & S3 & _).
  assert (0 <= zlen index <= LZMA_VLI_MAX) as Vn by (unfold LZMA_VLI_MAX; lia).
  pose proof (vli_size_range (zlen index) Vn) as Sz.
  destruct (vli_bytes_ok (zlen index) 9 Vn) as (L & _ & _ & D); [lia|].
  assert (forall u c, loop_returns
    (reading (if zlen index =? 0 then SEQ_PADDING_INIT else SEQ_UNPADDED) index [] i j (zlen index) u c 0 0)
    ([INDEX_INDICATOR] ++ vli_bytes (zlen index))
    (flat_map record_bytes index ++ repeat 0 (Z.to_nat (lzma_index_padding_size index)) ++
     write32le (lzma_crc32 (index_body index) 0) ++ rest) (ends rest)) as H.
  { intros u' c'.
    pose proof (fun u c => read_end index i j u c
      (([INDEX_INDICATOR] ++ vli_bytes (zlen index)) ++ flat_map record_bytes index) rest Hw Li Lj) as He.
    cbv zeta in He. rewrite <- !app_assoc in He. unfold index_body.
    destruct (decide (index = [])) as [->|Hne]; [exact (He u' c')|].
    assert (zlen index <> 0) by (destruct index; [congruence|cbn [length]; lia]).
    bfalse (zlen index =? 0).
    apply read_records; [exact Hne|exact Hw|]. intros u2 c2. rewrite <- app_assoc. apply He. }
  unfold lzma_index_hash_decode.
  destruct (index_bytes index ++ rest) as [|b input] eqn:Ein; [discriminate|]. rewrite <- Ein. clear b input Ein.
  enough (loop_returns (reading SEQ_BLOCK index [] i j rem u c 0 0) [] (index_bytes index ++ rest)
    (ends rest)) as HR by (apply HR; lia).
  unfold index_bytes. unfold index_body at 1. rewrite <- !app_assoc.
  match goal with |- loop_returns _ _ ([INDEX_INDICATOR] ++ ?x) _ =>
    eapply (loop_next _ (reading SEQ_COUNT index [] i j rem u c 0 0) [] _ x) end.
  - reflexivity.
  - rewrite !length_app. cbn [length]. lia.
  - rewrite consumed_app. eapply loop_next.
    + unfold decode_step, reading. hash_cbn. rewrite D, S3, Z.eqb_refl. cbn [negb]. hash_cbn. reflexivity.
    + rewrite !length_app. lia.
    + rewrite consumed_app. apply H.
Qed.

(** *** Going back from the end of the Index *)

Lemma inv_unpadded index pre i j rem u c crc used input fuel hf rest :
  bytes_ok input ->
  decode_loop fuel (reading SEQ_UNPADDED index pre i j rem u c 0 crc) used input = (LZMA_STREAM_END, hf, rest) ->
  exists v tail fuel', input = vli_bytes v ++ tail /\ bytes_ok tail /\
    UNPADDED_SIZE_MIN <= v <= UNPADDED_SIZE_MAX /\
    decode_loop fuel' (reading SEQ_UNCOMPRESSED index pre i j rem v c 0 crc) (used ++ vli_bytes v) tail =
      (LZMA_STREAM_END, hf, rest).
Proof.
  intros Hb H. apply loop_inv in H as [_ H]. unfold decode_step, reading in H. hash_cbn_in H.
  destruct (lzma_vli_decode u (Some 0) input) as [[[ret v] p] tail] eqn:E.
  destruct ret; try (destruct H as [(? & ? & ? & ? & _)| [(? & ? & ?)| HX]]; discriminate).
  destruct (vli_decode_multi_canonical _ _ _ _ _ Hb E) as [Hv ->].
  case_if_in H; [destruct H as [(? & ? & ? & ? & _)| [(? & ? & ?)| HX]]; discriminate|]. b2p.
  destruct H as [(fuel' & h' & r' & [= <- <-] & H)| [(? & ? & ?)| HX]]; [|discriminate..].
  rewrite consumed_app in H. apply Forall_app in Hb as [_ Hb].
  exists v, tail, fuel'. split_and!; auto.
Qed.

Lemma inv_uncompressed index pre i j rem u c crc used input fuel hf rest :
  bytes_ok input -> within index pre -> UNPADDED_SIZE_MIN <= u <= UNPADDED_SIZE_MAX ->
  1 <= rem < 18446744073709551616 ->
  decode_loop fuel (reading SEQ_UNCOMPRESSED index pre i j rem u c 0 crc) used input = (LZMA_STREAM_END, hf, rest) ->
  exists v tail fuel', input = vli_bytes v ++ tail /\ bytes_ok tail /\
    within index (pre ++ [(u, v)]) /\
    decode_loop fuel' (reading (if rem - 1 =? 0 then SEQ_PADDING_INIT else SEQ_UNPADDED) index
      (pre ++ [(u, v)]) i j (rem - 1) u v 0 crc) (used ++ vli_bytes v) tail = (LZMA_STREAM_END, hf, rest).
Proof.
  intros Hb Hw Hu Hrem H. apply loop_inv in H as [_ H]. unfold decode_step, reading in H. hash_cbn_in H.
  destruct (lzma_vli_decode c (Some 0) input) as [[[ret v] p] tail] eqn:E.
  destruct ret; try (destruct H as [(? & ? & ? & ? & _)| [(? & ? & ?)| HX]]; discriminate).
  destruct (vli_decode_multi_canonical _ _ _ _ _ Hb E) as [Hv ->].
  assert (record_ok (u, v)) as Hr by (now split).
  pose proof (info_of_snoc pre (u, v) j) as Es. cbn [fst snd] in Es. rewrite <- Es in H.
  unfold sizes_exceeded in H. hash_cbn_in H.
  destruct (within_sums index pre i j Hw) as (E1 & E2 & _ & E4 & _).
  destruct (within_snoc_sums index pre (u, v) j Hw Hr) as (F1 & F2 & F4).
  rewrite E1, E2, E4, F1, F2, F4 in H.
  case_if_in H; [destruct H as [(? & ? & ? & ? & _)| [(? & ? & ?)| HX]]; discriminate|]. b2p.
  rewrite u64_small in H by (unfold is_u64; lia).
  destruct H as [(fuel' & h' & r' & [= <- <-] & H)| [(? & ? & ?)| HX]]; [|discriminate..].
  rewrite consumed_app in H. apply Forall_app in Hb as [_ Hb].
  exists v, tail, fuel'. split_and!; auto.
  destruct Hw as (W1 & W2 & W3 & _). split_and!; try assumption.
  apply Forall_app_2; [assumption|]. now constructor.
Qed.

Lemma inv_records n : forall index pre i j u c crc used input fuel hf rest,
  bytes_ok input -> within index pre -> Z.of_nat (S n) < 18446744073709551616 ->
  decode_loop fuel (reading SEQ_UNPADDED index pre i j (Z.of_nat (S n)) u c 0 crc) used input =
    (LZMA_STREAM_END, hf, rest) ->
  exists recs tail fuel' u' c', length recs = S n /\ within index (pre ++ recs) /\
    input = flat_map record_bytes recs ++ tail /\ bytes_ok tail /\
    decode_loop fuel' (reading SEQ_PADDING_INIT index (pre ++ recs) i j 0 u' c' 0 crc)
      (used ++ flat_map record_bytes recs) tail = (LZMA_STREAM_END, hf, rest).
Proof.
  induction n as [|n IH]; intros index pre i j u c crc used input fuel hf rest Hb Hw Hn H;
    destruct (inv_unpadded _ _ _ _ _ _ _ _ _ _ _ _ _ Hb H) as (v1 & t1 & f1 & -> & Hb1 & Hv1 & H1);
    match type of Hn with Z.of_nat ?m < _ =>
      assert (1 <= Z.of_nat m < 18446744073709551616) as Hrem by lia end;
    destruct (inv_uncompressed _ _ _ _ _ _ _ _ _ _ _ _ _ Hb1 Hw Hv1 Hrem H1)
      as (v2 & t2 & f2 & -> & Hb2 & Hw2 & H2).
  - change (Z.of_nat 1 - 1) with 0 in H2. cbn [Z.eqb] in H2.
    exists [(v1, v2)], t2, f2, v1, v2. split_and!; try assumption; try reflexivity.
    + cbn [flat_map]. unfold record_bytes. cbn [fst snd]. now rewrite app_nil_r, <- app_assoc.
    + cbn [flat_map]. unfold record_bytes. cbn [fst snd]. rewrite app_nil_r, app_assoc. exact H2.
  - bfalse (Z.of_nat (S (S n)) - 1 =? 0) in H2.
    replace (Z.of_nat (S (S n)) - 1) with (Z.of_nat (S n)) in H2 by lia.
    assert (Z.of_nat (S n) < 18446744073709551616) as Hn' by lia.
    destruct (IH _ _ _ _ _ _ _ _ _ _ _ _ Hb2 Hw2 Hn' H2)
      as (recs & tail & fuel' & u' & c' & Hl & Hw' & -> & Hbt & H').
    exists ((v1, v2) :: recs), tail, fuel', u', c'. rewrite <- app_assoc in Hw', H'. cbn [app] in Hw', H'.
    split_and!; try assumption.
    + cbn [length]. lia.
    + cbn [flat_map]. change (record_bytes (v1, v2)) with (vli_bytes v1 ++ vli_bytes v2).
      rewrite <- !app_assoc. reflexivity.
    + cbn [flat_map]. change (record_bytes (v1, v2)) with (vli_bytes v1 ++ vli_bytes v2).
      replace (used ++ (vli_bytes v1 ++ vli_bytes v2) ++ flat_map record_bytes recs)
        with (((used ++ vli_bytes v1) ++ vli_bytes v2) ++ flat_map record_bytes recs)
        by (now rewrite <- !app_assoc).
      exact H'.
Qed.

Lemma inv_padding n : forall h used input fuel hf rest,
  sequence h = SEQ_PADDING -> pos h = Z.of_nat n ->
  decode_loop fuel h used input = (LZMA_STREAM_END, hf, rest) ->
  exists tail fuel', input = repeat 0 n ++ tail /\
    decode_loop fuel' (set_pos h 0) (used ++ repeat 0 n) tail = (LZMA_STREAM_END, hf, rest).
Proof.
  induction n as [|n IH]; intros h used input fuel hf rest Hs Hp H.
  - exists input, fuel. split; [reflexivity|]. cbn [repeat]. rewrite app_nil_r, <- H. f_equal.
    destruct h. cbn in *. now rewrite Hp.
  - apply loop_inv in H as [Hne H]. destruct input as [|b input]; [congruence|].
    unfold decode_step in H. rewrite Hs in H. unfold step_padding in H. btrue (pos h >? 0) in H.
    destruct (Z.eqb_spec b 0) as [->|]; cbn [negb] in H;
      [|destruct H as [(? & ? & ? & ? & _)| [(? & ? & ?)| HX]]; discriminate].
    destruct H as [(fuel' & h' & r' & [= <- <-] & H)| [(? & ? & ?)| HX]]; [|discriminate..].
    change (0 :: input) with ([0] ++ input) in *. rewrite consumed_app in H.
    apply IH in H as (tail & fuel2 & -> & H); [|exact Hs|hash_cbn; lia].
    exists tail, fuel2. split; [reflexivity|]. rewrite <- app_assoc in H. exact H.
Qed.

Lemma inv_end index pre i j u c used input fuel hf rest :
  within index pre ->
  length (chk_buffer (info_check i)) = 64%nat -> length (chk_buffer (info_check j)) = 64%nat ->
  decode_loop fuel (reading SEQ_PADDING_INIT index pre i j 0 u c 0 0) used input =
    (LZMA_STREAM_END, hf, rest) ->
  let pad := repeat 0 (Z.to_nat (lzma_index_padding_size pre)) in
  input = pad ++ write32le (lzma_crc32 (used ++ pad) 0) ++ rest /\
  total_blocks pre = total_blocks index /\ total_uncompressed pre = total_uncompressed index /\
  records_list_size pre = records_list_size index /\
  Fips.sha256_ref (flat_map record_words pre) = Fips.sha256_ref (flat_map record_words index).
Proof.
  intros Hw Li Lj H pad.
  destruct (within_sums index pre i j Hw) as (S1 & S2 & S3 & S4 & S5 & S6 & S7 & S8).
  assert (0 <= lzma_index_padding_size pre) as Hpad.
  { unfold lzma_index_padding_size. apply Z.land_nonneg. lia. }
  assert (decode_loop fuel (reading SEQ_PADDING index pre i j 0 u c (lzma_index_padding_size pre) 0) used input
    = (LZMA_STREAM_END, hf, rest)) as H1.
  { rewrite <- H. destruct input as [|b input]; [destruct fuel; discriminate|].
    destruct fuel as [|fuel]; [discriminate|]. cbn [decode_loop].
    rewrite (padding_init (reading SEQ_PADDING_INIT index pre i j 0 u c 0 0)) by reflexivity.
    unfold reading. hash_cbn. rewrite S7, S8. reflexivity. }
  clear H. apply (inv_padding (Z.to_nat (lzma_index_padding_size pre))) in H1 as (tail & fuel' & -> & H);
    [|reflexivity|unfold reading; hash_cbn; lia]. fold pad in H |- *.
  change (set_pos (reading SEQ_PADDING index pre i j 0 u c (lzma_index_padding_size pre) 0) 0)
    with (reading SEQ_PADDING index pre i j 0 u c 0 0) in H.
  apply loop_inv in H as [_ H]. unfold decode_step, reading in H. hash_cbn_in H.
  unfold step_padding, sizes_differ in H. hash_cbn_in H. change (0 >? 0) with false in H. cbv iota in H.
  rewrite S1, S2, S4, S5, S6, S8 in H.
  case_if_in H; [destruct H as [(? & ? & ? & ? & _)| [(? & ? & ?)| HX]]; discriminate|]. b2p.
  rewrite !info_digest_spec in H by assumption.
  case_if_in H; [destruct H as [(? & ? & ? & ? & _)| [(? & ? & ?)| HX]]; discriminate|].
  match goal with E : negb _ = false |- _ => apply negb_false_iff, bool_decide_eq_true in E; rename E into Ed end.
  destruct (crc32_loop _ tail) as [[ret hf'] rest'] eqn:Ec.
  destruct H as [(? & ? & ? & ? & _)| [(? & ? & ?)|H]]; [discriminate..|]. injection H as -> -> ->.
  apply crc32_loop_inv in Ec as [-> _]; [|reflexivity]. split_and!; auto.
Qed.

(** Whatever the decoder accepts is the Index of Records with the sums and the
    hash of the Blocks. *)
Lemma decode_sound h index i j input hf rest :
  ready h index i j -> Forall record_ok index -> index_limits index ->
  length (chk_buffer (info_check i)) = 64%nat -> length (chk_buffer (info_check j)) = 64%nat ->
  bytes_ok input -> lzma_index_hash_decode h input = (LZMA_STREAM_END, hf, rest) ->
  exists index', input = index_bytes index' ++ rest /\ Forall record_ok index' /\
    length index' = length index /\
    total_blocks index' = total_blocks index /\ total_uncompressed index' = total_uncompressed index /\
    records_list_size index' = records_list_size index /\
    Fips.sha256_ref (flat_map record_words index') = Fips.sha256_ref (flat_map record_words index).
Proof.
  intros (rem & u & c & ->) Hok Hlim Li Lj Hb H.
  assert (within index []) as Hw.
  { pose proof (totals_nonneg index Hok). split_and!; try assumption; try constructor;
      cbn [total_blocks total_uncompressed records_list_size fold_left]; lia. }
  pose proof (index_limits_bounds index Hok Hlim) as [Bn Bl].
  destruct (within_sums index [] i j Hw) as (_ & _ & S3 & _).
  unfold lzma_index_hash_decode in H. destruct input as [|b input]; [discriminate|].
  apply loop_inv in H as [_ H]. unfold decode_step at 1 2 3, reading in H. hash_cbn_in H.
  destruct (Z.eqb_spec b INDEX_INDICATOR) as [->|]; cbn [negb] in H;
    [|destruct H as [(? & ? & ? & ? & _)| [(? & ? & ?)| HX]]; discriminate].
  destruct H as [(fuel1 & h1 & r1 & [= <- <-] & H)| [(? & ? & ?)| HX]]; [|discriminate..].
  change (INDEX_INDICATOR :: input) with ([INDEX_INDICATOR] ++ input) in *. rewrite consumed_app in H.
  apply Forall_app in Hb as [_ Hb]. apply loop_inv in H as [_ H]. unfold decode_step at 1 2 3 in H. hash_cbn_in H.
  destruct (lzma_vli_decode rem (Some 0) input) as [[[ret v] p] tail] eqn:E.
  destruct ret; try (destruct H as [(? & ? & ? & ? & _)| [(? & ? & ?)| HX]]; discriminate).
  destruct (vli_decode_multi_canonical _ _ _ _ _ Hb E) as [Hv ->].
  rewrite S3 in H. destruct (Z.eqb_spec v (zlen index)) as [->|]; cbn [negb] in H;
    [|destruct H as [(? & ? & ? & ? & _)| [(? & ? & ?)| HX]]; discriminate].
  destruct H as [(fuel2 & h2 & r2 & [= <- <-] & H)| [(? & ? & ?)| HX]]; [|discriminate..].
  rewrite consumed_app in H. apply Forall_app in Hb as [_ Hb].
  match type of H with decode_loop _ (set_sequence _ ?s) _ _ = _ =>
    change (decode_loop fuel2 (reading s index [] i j (zlen index) u c 0 0)
      ([INDEX_INDICATOR] ++ vli_bytes (zlen index)) tail = (LZMA_STREAM_END, hf, rest)) in H end.
  assert (exists recs tail' fuel' u' c', length recs = length index /\ within index recs /\
    tail = flat_map record_bytes recs ++ tail' /\
    decode_loop fuel' (reading SEQ_PADDING_INIT index recs i j 0 u' c' 0 0)
      (([INDEX_INDICATOR] ++ vli_bytes (zlen index)) ++ flat_map record_bytes recs) tail' =
      (LZMA_STREAM_END, hf, rest)) as (recs & tail' & fuel' & u' & c' & Hl & Hw' & -> & H').
  { destruct (length index) as [|n] eqn:En.
    - exists [], tail, fuel2, u, c. split_and!; try reflexivity; try apply Hw.
      cbn [flat_map]. rewrite app_nil_r. exact H.
    - bfalse (Z.of_nat (S n) =? 0) in H.
      destruct (inv_records n index [] i j u c 0 _ _ _ _ _ Hb Hw ltac:(lia) H)
        as (recs & tail' & fuel' & u' & c' & H1 & H2 & H3 & _ & H4). eauto 10. }
  destruct (inv_end index recs i j u' c' _ _ _ _ _ Hw' Li Lj H') as (-> & T1 & T2 & T3 & T4).
  exists recs. split_and!; try assumption; [|apply Hw'].
  unfold index_bytes, index_body. rewrite Hl, <- !app_assoc. reflexivity.
Qed.

End Decoder.

(** ** Lemmas: the encoder *)

Ltac enc_cbn := cbn [enc_sequence enc_index iter iter_block enc_pos enc_crc32 enc_at enc_set_crc32].

Section Encoder.

(** The iterations that may follow without storing a byte. *)
Definition need (c : lzma_index_coder) : nat :=
  match enc_sequence c with ENC_PADDING | ENC_CRC32 => 0 | _ => 1 end.

(** Whatever enough fuel is given, the loop stores [out] after [done] and
    reaches the end. *)
Definition emits (c : lzma_index_coder) (done : bytes) (out : bytes) (extra : nat) : Prop :=
  forall fuel, (length out + extra + need c <= fuel)%nat ->
  exists c', encode_loop fuel c done (length out + extra) = (LZMA_STREAM_END, c', done ++ out).

Lemma emits_next c c' done out1 out2 extra :
  out2 <> [] ->
  encode_step c done (length (out1 ++ out2) + extra) = EncNext c' out1 ->
  (need c' < length out1 + need c)%nat ->
  emits c' (done ++ out1) out2 extra -> emits c done (out1 ++ out2) extra.
Proof.
  intros Hne E Hn H fuel Hf. rewrite length_app in *. destruct out2 as [|b out2]; [congruence|].
  destruct fuel as [|fuel]; [cbn in Hf; lia|].
  destruct (length out1 + length (b :: out2) + extra)%nat as [|avail] eqn:Ea; [cbn in Ea; lia|].
  cbn [encode_loop]. rewrite E.
  replace (S avail - length out1)%nat with (length (b :: out2) + extra)%nat by lia.
  destruct (H fuel ltac:(lia)) as [c2 ->]. exists c2. now rewrite <- app_assoc.
Qed.

Lemma encode_size_ok c v next avail :
  enc_pos c = 0 -> 0 <= v <= LZMA_VLI_MAX -> lzma_vli_size v <= Z.of_nat avail ->
  encode_size c v next avail = EncNext (enc_at c next 0) (vli_bytes v).
Proof.
  intros Hp Hv Ha. destruct (vli_bytes_ok v avail Hv Ha) as (_ & _ & E & _).
  unfold encode_size. now rewrite Hp, E.
Qed.

Lemma enc_crc32_ok c extra :
  enc_pos c = 0 -> exists c', enc_crc32_loop c (4 + extra) = (LZMA_STREAM_END, c', write32le (enc_crc32 c)).
Proof.
  intros Hp. cbn [Nat.add enc_crc32_loop]. enc_cbn. rewrite Hp, !land_FF. eexists.
  cbn [Z.add Z.mul Z.ltb Z.compare Pos.compare Pos.compare_cont Pos.add Pos.succ Pos.mul].
  unfold write32le. rewrite Z.shiftr_0_r. reflexivity.
Qed.

Lemma emit_padding n : forall c done extra,
  enc_sequence c = ENC_PADDING -> enc_pos c = Z.of_nat n ->
  emits c done (repeat 0 n ++ write32le (lzma_crc32 (done ++ repeat 0 n) (enc_crc32 c))) extra.
Proof.
  induction n as [|n IH]; intros c done extra Hs Hp.
  - cbn [repeat app]. rewrite app_nil_r. intros fuel Hf.
    set (c0 := enc_at (enc_set_crc32 c (lzma_crc32 done (enc_crc32 c))) ENC_CRC32 (enc_pos c)).
    destruct (enc_crc32_ok c0 extra Hp) as [c' E].
    exists c'. destruct fuel as [|fuel]; [cbn in Hf; lia|].
    change (length (write32le (lzma_crc32 done (enc_crc32 c))) + extra)%nat with (S (3 + extra)).
    cbn [encode_loop]. unfold encode_step. rewrite Hs. bfalse (enc_pos c >? 0).
    change (enc_at (enc_set_crc32 c (lzma_crc32 done (enc_crc32 c))) ENC_CRC32
      (enc_pos (enc_set_crc32 c (lzma_crc32 done (enc_crc32 c))))) with c0.
    change (S (3 + extra)) with (4 + extra)%nat. rewrite E. reflexivity.
  - change (repeat 0 (S n) ++ write32le (lzma_crc32 (done ++ repeat 0 (S n)) (enc_crc32 c)))
      with ([0] ++ repeat 0 n ++ write32le (lzma_crc32 (done ++ [0] ++ repeat 0 n) (enc_crc32 c))).
    rewrite (app_assoc done). eapply emits_next.
    + destruct n; discriminate.
    + unfold encode_step. rewrite Hs. btrue (enc_pos c >? 0). reflexivity.
    + unfold need. rewrite Hs. cbn. lia.
    + apply (IH (enc_at c ENC_PADDING (enc_pos c - 1))); [reflexivity|]. enc_cbn. lia.
Qed.

Lemma emit_records index recs : forall c done extra,
  enc_sequence c = ENC_NEXT -> enc_pos c = 0 -> enc_crc32 c = 0 -> enc_index c = index -> iter c = recs ->
  Forall record_ok recs ->
  let tail := flat_map record_bytes recs ++ repeat 0 (Z.to_nat (lzma_index_padding_size index)) in
  emits c done (tail ++ write32le (lzma_crc32 (done ++ tail) 0)) extra.
Proof.
  induction recs as [|r recs IH]; intros c done extra Hs Hp Hc Hi Hr Hok tail.
  - subst tail. cbn [flat_map]. rewrite app_nil_l.
    assert (0 <= lzma_index_padding_size index) by (apply Z.land_nonneg; lia).
    eapply (emits_next _ _ _ []).
    + destruct (repeat _ _); discriminate.
    + unfold encode_step. rewrite Hs, Hr, Hi. reflexivity.
    + unfold need. rewrite Hs. cbn. lia.
    + rewrite app_nil_r.
      pose proof (emit_padding (Z.to_nat (lzma_index_padding_size index))
        (enc_at c ENC_PADDING (lzma_index_padding_size index)) done extra eq_refl) as Hx.
      cbn [enc_at enc_crc32 enc_pos] in Hx. rewrite Hc in Hx. apply Hx. lia.
  - apply Forall_cons in Hok as [Hr1 Hok]. destruct (record_vli r Hr1) as [V1 V2].
    destruct (record_ok_sizes r Hr1) as [S1 S2].
    destruct (vli_bytes_ok r.1 9 V1 ltac:(lia)) as (L1 & _).
    destruct (vli_bytes_ok r.2 9 V2 ltac:(lia)) as (L2 & _).
    set (tail' := flat_map record_bytes recs ++ repeat 0 (Z.to_nat (lzma_index_padding_size index))).
    assert (tail = vli_bytes r.1 ++ vli_bytes r.2 ++ tail') as ->.
    { subst tail tail'. cbn [flat_map]. unfold record_bytes at 1. now rewrite <- !app_assoc. }
    rewrite <- !app_assoc. eapply emits_next.
    + destruct (vli_bytes r.2), tail'; discriminate.
    + unfold encode_step. rewrite Hs, Hr. enc_cbn. apply encode_size_ok; [exact Hp|exact V1|].
      rewrite length_app. lia.
    + unfold need at 2. rewrite Hs. unfold need. enc_cbn. lia.
    + rewrite (app_assoc done). eapply emits_next.
      * destruct tail'; discriminate.
      * unfold encode_step. enc_cbn. apply encode_size_ok; [reflexivity|exact V2|].
        rewrite length_app. lia.
      * unfold need. enc_cbn. lia.
      * rewrite (app_assoc (done ++ _)). apply IH; try assumption; reflexivity.
Qed.

Lemma index_encode_ok index extra :
  Forall record_ok index -> zlen index <= LZMA_VLI_MAX ->
  exists c', index_encode (index_encoder_reset index) (length (index_bytes index) + extra) =
    (LZMA_STREAM_END, c', index_bytes index).
Proof.
  intros Hok Hn. assert (0 <= zlen index <= LZMA_VLI_MAX) as Hv by lia.
  pose proof (vli_size_range _ Hv) as Hs.
  destruct (vli_bytes_ok (zlen index) 9 Hv ltac:(lia)) as (L & _).
  enough (emits (index_encoder_reset index) [] (index_bytes index) extra) as H.
  { apply H. cbn. lia. }
  unfold index_bytes, index_body. rewrite <- app_assoc. eapply emits_next.
  - destruct (vli_bytes (zlen index)), (flat_map record_bytes index), (repeat _ _); discriminate.
  - reflexivity.
  - cbn. lia.
  - rewrite <- (app_assoc (vli_bytes _)). eapply emits_next.
    + destruct (flat_map record_bytes index), (repeat _ _); discriminate.
    + unfold encode_step. enc_cbn. apply encode_size_ok; [reflexivity|exact Hv|]. rewrite length_app. cbn [enc_index]. lia.
    + unfold need. enc_cbn. cbn. lia.
    + rewrite app_nil_l, (app_assoc [INDEX_INDICATOR] (vli_bytes _)).
      apply emit_records; try reflexivity. exact Hok.
Qed.

Lemma length_records_bytes index :
  Forall record_ok index -> zlen (flat_map record_bytes index) = records_list_size index.
Proof.
  unfold records_list_size. induction 1 as [|r l Hr H IH]; [reflexivity|].
  cbn [flat_map fold_left]. rewrite fold_add, length_app. unfold record_bytes at 1. rewrite length_app.
  destruct (record_vli r Hr) as [V1 V2]. destruct (record_ok_sizes r Hr) as [S1 S2].
  destruct (vli_bytes_ok r.1 9 V1 ltac:(lia)) as (L1 & _).
  destruct (vli_bytes_ok r.2 9 V2 ltac:(lia)) as (L2 & _). lia.
Qed.

(** The size of the encoded Index is what [lzma_index_size] computes. *)
Lemma length_index_bytes index :
  Forall record_ok index -> index_limits index ->
  zlen (index_bytes index) = index_field_size index /\
  index_size (zlen index) (records_list_size index) = index_field_size index.
Proof.
  intros Hok Hlim. pose proof (index_limits_bounds index Hok Hlim) as [Bn Bl].
  pose proof (totals_nonneg index Hok) as (_ & _ & N3).
  assert (0 <= zlen index <= LZMA_VLI_MAX) as Hv by (unfold LZMA_VLI_MAX; lia).
  pose proof (vli_size_range _ Hv) as Hs.
  destruct (vli_bytes_ok (zlen index) 9 Hv ltac:(lia)) as (L & _).
  split; [|apply index_size_spec; lia].
  unfold index_bytes, index_body, index_field_size, lzma_index_padding_size, index_size_unpadded.
  rewrite !length_app, repeat_length. cbn [length write32le].
  rewrite !Nat2Z.inj_add, L, length_records_bytes by assumption.
  rewrite (u64_small (1 + _ + _ + _)) by (unfold is_u64; lia).
  change 3 with (2 ^ 2 - 1) at 1. rewrite land_low by lia. unfold u64. change (2 ^ 2) with 4.
  rewrite Z2Nat.id by dlia. dlia.
Qed.

Lemma buffer_encode_spec index avail :
  Forall record_ok index -> index_limits index ->
  lzma_index_buffer_encode index avail =
    if decide (zlen (index_bytes index) <= Z.of_nat avail) then Ok (index_bytes index)
    else Err LZMA_BUF_ERROR.
Proof.
  intros Hok Hlim. destruct (length_index_bytes index Hok Hlim) as [E1 E2].
  unfold lzma_index_buffer_encode. rewrite E2, <- E1.
  destruct (decide (zlen (index_bytes index) <= Z.of_nat avail)) as [H|H].
  - bfalse (Z.of_nat avail <? zlen (index_bytes index)).
    pose proof (index_limits_bounds index Hok Hlim) as [Bn _].
    destruct (index_encode_ok index (avail - length (index_bytes index)) Hok ltac:(unfold LZMA_VLI_MAX; lia)) as [c' E].
    replace (length (index_bytes index) + _)%nat with avail in E by lia. now rewrite E.
  - btrue (Z.of_nat avail <? zlen (index_bytes index)). reflexivity.
Qed.

End Encoder.

(** ** Properties *)

Section Properties.

Lemma limits_nil : index_limits [].
Proof. vm_compute. split_and!; discriminate. Qed.

Lemma append_all_ready h index h1 :
  Forall (fun r => is_u64 r.1 /\ is_u64 r.2) index ->
  append_all (lzma_index_hash_init h) index = Some h1 ->
  ready h1 index (blocks h) (records h) /\ Forall record_ok index /\ index_limits index.
Proof.
  intros H64 H.
  destruct (append_all_spec index [] (lzma_index_hash_init h) (blocks h) h1) as (H1 & H2 & ->); try assumption;
    [reflexivity|reflexivity|constructor|apply limits_nil|].
  split_and!; try assumption. exists (remaining h), 0, 0. reflexivity.
Qed.

Lemma limits_eq index index' :
  length index' = length index -> total_blocks index' = total_blocks index ->
  total_uncompressed index' = total_uncompressed index ->
  records_list_size index' = records_list_size index -> index_limits index -> index_limits index'.
Proof.
  intros E1 E2 E3 E4. unfold index_limits, index_field_size. now rewrite E1, E2, E3, E4.
Qed.

(** after the Blocks [pre] have been accepted, [lzma_index_hash_append]
    accepts one more exactly when its sizes are valid and no limit of a Stream
    is exceeded: the sizes of all Blocks, the uncompressed size, the Index and
    with it the Backward Size, the Stream.  Otherwise it reports a programming
    or a data error. *)
Theorem index_hash_append_spec h0 pre h unpadded_size uncompressed_size :
  Forall (fun r => is_u64 r.1 /\ is_u64 r.2) pre ->
  append_all (lzma_index_hash_init h0) pre = Some h ->
  is_u64 unpadded_size -> is_u64 uncompressed_size ->
  fst (lzma_index_hash_append h unpadded_size uncompressed_size) =
    if decide (record_ok (unpadded_size, uncompressed_size)) then
      if decide (index_limits (pre ++ [(unpadded_size, uncompressed_size)])) then LZMA_OK
      else LZMA_DATA_ERROR
    else LZMA_PROG_ERROR.
Proof.
  intros H64 H Hu Hc. destruct (append_all_ready h0 pre h H64 H) as ((rem & u & c & ->) & Hok & Hlim).
  pose proof (append_spec (reading SEQ_BLOCK pre [] (blocks h0) (records h0) rem u c 0 0) (blocks h0) pre
    (unpadded_size, uncompressed_size) eq_refl eq_refl Hok Hlim Hu Hc) as E. cbn [fst snd] in E. rewrite E.
  destruct (decide _); reflexivity.
Qed.

Lemma index_hash_append_spec_witness :
  fst (lzma_index_hash_append (default hash_example
    (append_all (lzma_index_hash_init hash_example) [(100, 300); (33, 7)]))
    4 (2 ^ 63)) = LZMA_PROG_ERROR.
Proof.
  destruct (append_all (lzma_index_hash_init hash_example) [(100, 300); (33, 7)]) as [h|] eqn:E;
    [|vm_compute in E; discriminate].
  change (default hash_example (Some h)) with h.
  rewrite (index_hash_append_spec hash_example [(100, 300); (33, 7)] h 4 (2 ^ 63)).
  - destruct (decide _) as [[_ H]|]; [vm_compute in H; destruct H; congruence|reflexivity].
  - repeat constructor; cbn; lia.
  - exact E.
  - unfold is_u64. lia.
  - unfold is_u64. lia.
Defined.

(** the Index that [lzma_index_buffer_encode] produces for the Records of
    the Blocks that were added to a hash is accepted by
    [lzma_index_hash_decode], which stops right behind it.  The encoder fails
    only for lack of space, of which it needs what [lzma_index_size] returns. *)
Theorem index_roundtrip h0 index h (avail : nat) rest :
  Forall (fun r => is_u64 r.1 /\ is_u64 r.2) index ->
  length (chk_buffer (info_check (blocks h0))) = 64%nat ->
  length (chk_buffer (info_check (records h0))) = 64%nat ->
  append_all (lzma_index_hash_init h0) index = Some h ->
  if decide (lzma_index_hash_size h <= Z.of_nat avail) then
    exists out h', lzma_index_buffer_encode index avail = Ok out /\
      zlen out = lzma_index_hash_size h /\
      lzma_index_hash_decode h (out ++ rest) = (LZMA_STREAM_END, h', rest)
  else lzma_index_buffer_encode index avail = Err LZMA_BUF_ERROR.
Proof.
  intros H64 Li Lj H. destruct (append_all_ready h0 index h H64 H) as (Hr & Hok & Hlim).
  destruct (length_index_bytes index Hok Hlim) as [E1 E2].
  assert (lzma_index_hash_size h = index_field_size index) as Es.
  { destruct Hr as (rem & u & c & ->). unfold lzma_index_hash_size. cbn [reading blocks].
    destruct (within_sums index index (blocks h0) (records h0) (within_refl index Hok Hlim))
      as (_ & _ & -> & -> & _). exact E2. }
  rewrite Es, <- E1, buffer_encode_spec by assumption.
  destruct (decide _) as [Ha|Ha]; [|reflexivity].
  destruct (decode_accepts h index _ _ rest Hr Hok Hlim Li Lj) as [h' Hd]. eauto.
Qed.

Lemma index_roundtrip_witness :
  exists h out h', append_all (lzma_index_hash_init hash_example) [(100, 300); (33, 7)] = Some h /\
    lzma_index_buffer_encode [(100, 300); (33, 7)] 12 = Ok out /\
    lzma_index_hash_decode h (out ++ [0x59]) = (LZMA_STREAM_END, h', [0x59]).
Proof.
  destruct (append_all (lzma_index_hash_init hash_example) [(100, 300); (33, 7)]) as [h|] eqn:E;
    [|vm_compute in E; discriminate].
  pose proof (index_roundtrip hash_example [(100, 300); (33, 7)] h 12 [0x59]) as H.
  specialize (H ltac:(repeat constructor; cbn; lia) eq_refl eq_refl E).
  assert (lzma_index_hash_size h = 12) as Es.
  { assert (Some (lzma_index_hash_size h) = Some 12) as Hs; [|congruence].
    change (Some (lzma_index_hash_size h)) with (lzma_index_hash_size <$> Some h). rewrite <- E.
    vm_compute. reflexivity. }
  rewrite Es in H. destruct (decide _) as [_|Hn]; [|exfalso; apply Hn; lia].
  destruct H as (out & h' & H1 & _ & H2). exists h, out, h'. split_and!; [reflexivity|exact H1|exact H2].
Defined.

(** C12: an Index is accepted only if it is, byte for byte, what the encoder
    produces for as many Records as Blocks were decoded, with the same sums of
    sizes and the same SHA-256 hash of the Records. *)
Theorem index_hash_sound h0 index h input h' rest :
  Forall (fun r => is_u64 r.1 /\ is_u64 r.2) index ->
  length (chk_buffer (info_check (blocks h0))) = 64%nat ->
  length (chk_buffer (info_check (records h0))) = 64%nat ->
  append_all (lzma_index_hash_init h0) index = Some h ->
  bytes_ok input -> lzma_index_hash_decode h input = (LZMA_STREAM_END, h', rest) ->
  exists index' out, input = out ++ rest /\
    (forall avail : nat, lzma_index_hash_size h <= Z.of_nat avail ->
       lzma_index_buffer_encode index' avail = Ok out) /\
    length index' = length index /\
    total_blocks index' = total_blocks index /\ total_uncompressed index' = total_uncompressed index /\
    Fips.sha256_ref (flat_map record_words index') = Fips.sha256_ref (flat_map record_words index).
Proof.
  intros H64 Li Lj H Hb Hd. destruct (append_all_ready h0 index h H64 H) as (Hr & Hok & Hlim).
  destruct (decode_sound h index _ _ input h' rest Hr Hok Hlim Li Lj Hb Hd)
    as (index' & -> & Hok' & E1 & E2 & E3 & E4 & E5).
  pose proof (limits_eq index index' E1 E2 E3 E4 Hlim) as Hlim'.
  exists index', (index_bytes index'). split_and!; try assumption; try reflexivity.
  intros avail Ha. rewrite buffer_encode_spec by assumption.
  destruct (decide _) as [|Hn]; [reflexivity|]. exfalso. apply Hn.
  destruct (length_index_bytes index' Hok' Hlim') as [-> _].
  destruct (length_index_bytes index Hok Hlim) as [_ E].
  enough (lzma_index_hash_size h = index_field_size index) as Es.
  { rewrite Es in Ha. revert Ha. unfold index_field_size. now rewrite E1, E4. }
  destruct Hr as (rem & u & c & ->). unfold lzma_index_hash_size. cbn [reading blocks].
  destruct (within_sums index index (blocks h0) (records h0) (within_refl index Hok Hlim))
    as (_ & _ & -> & -> & _). exact E.
Qed.

Lemma index_hash_sound_witness :
  exists h h' rest index',
    append_all (lzma_index_hash_init hash_example) [(100, 300)] = Some h /\
    lzma_index_hash_decode h [0x00; 0x01; 0x64; 0xAC; 0x02; 0x00; 0x00; 0x00; 0x8D; 0x23; 0xEE; 0x4F; 0x59]
      = (LZMA_STREAM_END, h', rest) /\
    lzma_index_buffer_encode index' 12 =
      Ok [0x00; 0x01; 0x64; 0xAC; 0x02; 0x00; 0x00; 0x00; 0x8D; 0x23; 0xEE; 0x4F].
Proof.
  destruct (append_all (lzma_index_hash_init hash_example) [(100, 300)]) as [h|] eqn:E;
    [|vm_compute in E; discriminate].
  set (input := [0x00; 0x01; 0x64; 0xAC; 0x02; 0x00; 0x00; 0x00; 0x8D; 0x23; 0xEE; 0x4F; 0x59]).
  assert (Some (lzma_index_hash_size h) = Some 12 /\
    Some (let '(ret, _, rest) := lzma_index_hash_decode h input in (ret, rest)) =
    Some (LZMA_STREAM_END, [0x59])) as [Es Ed].
  { split.
    - change (Some (lzma_index_hash_size h)) with (lzma_index_hash_size <$> Some h). rewrite <- E.
      vm_compute. reflexivity.
    - change (Some (let '(ret, _, rest) := lzma_index_hash_decode h input in (ret, rest))) with
        ((fun h => let '(ret, _, rest) := lzma_index_hash_decode h input in (ret, rest)) <$> Some h).
      rewrite <- E. vm_compute. reflexivity. }
  injection Es as Es. destruct (lzma_index_hash_decode h input) as [[ret h'] rest] eqn:D.
  injection Ed as -> ->.
  destruct (index_hash_sound hash_example [(100, 300)] h input h' [0x59]) as (index' & out & Hi & He & _);
    [repeat constructor; cbn; lia|reflexivity|reflexivity|exact E|unfold input; bytes_ok_tac|exact D|].
  exists h, h', [0x59], index'. split_and!; [reflexivity|exact D|].
  rewrite (He 12%nat) by lia. f_equal. unfold input in Hi.
  symmetry in Hi. apply (app_inj_2 out [0x00; 0x01; 0x64; 0xAC; 0x02; 0x00; 0x00; 0x00; 0x8D; 0x23; 0xEE; 0x4F] [0x59] [0x59]) in Hi;
    [apply Hi|reflexivity].
Defined.

End Properties.
