(* ===== verification/Coder.v ===== *)
(** * Coders and the public entry point

    The function table of [lzma_next_coder] in
    [lib/archive/xz/src/liblzma/common/common.h] is the typeclass [Coder]; what
    the coders promise to the code that calls them is [CoderLaws].  The wrapper
    between the public API and the coders, [lzma_code] of [common.c], is a
    state machine that restricts how an application may use them. *)

From S2P Require Import Prelude.

(** ** Interface *)

Inductive lzma_action :=
  | LZMA_RUN | LZMA_SYNC_FLUSH | LZMA_FULL_FLUSH | LZMA_FINISH | LZMA_FULL_BARRIER.

#[export] Instance lzma_action_eq_dec : EqDecision lzma_action.
Proof. solve_decision. Defined.

(** [lzma_next_coder.code]: [input] are the [in_size - *in_pos] bytes at
    [in + *in_pos], [avail] is [out_size - *out_pos].  The result is the return
    code, the new state of the coder, the bytes stored and the input that was
    not consumed. *)
Class Coder (S : Type) :=
  code : S -> bytes -> nat -> lzma_action -> lzma_ret * S * bytes * bytes.

(** A coder stays within its buffers and stores bytes. *)
Class CoderLaws (S : Type) {C : Coder S} := {
  code_within (c : S) input avail action :
    let '(_, _, out, rest) := code c input avail action in
    (length out <= avail)%nat /\ exists used, input = used ++ rest;
  code_bytes (c : S) input avail action :
    bytes_ok input ->
    let '(_, _, out, rest) := code c input avail action in bytes_ok out;
}.

(** [lzma_bufcpy]: the bytes copied and the input that is left. *)
Definition lzma_bufcpy (input : bytes) (avail : nat) : bytes * bytes :=
  let copy_size := Nat.min (length input) avail in (take copy_size input, drop copy_size input).

(** ** [lzma_stream] *)

Inductive isequence :=
  | ISEQ_RUN | ISEQ_SYNC_FLUSH | ISEQ_FULL_FLUSH | ISEQ_FINISH | ISEQ_FULL_BARRIER
  | ISEQ_END | ISEQ_ERROR.

#[export] Instance isequence_eq_dec : EqDecision isequence.
Proof. solve_decision. Defined.

(** [next] is [None] when [next.code] is [NULL]. *)
Record lzma_internal (S : Type) := {
  next : option S;
  iseq : isequence;
  internal_avail_in : nat;
  supported_actions : lzma_action -> bool;
  allow_buf_error : bool;
}.
Arguments next {S} _.
Arguments iseq {S} _.
Arguments internal_avail_in {S} _.
Arguments supported_actions {S} _.
Arguments allow_buf_error {S} _.

(** [next_in] holds the [avail_in] bytes of the input buffer; the pointers
    matter only as far as they can be [NULL].  [reserved] tells that all the
    reserved members are zero or [NULL]. *)
Record lzma_stream (S : Type) := {
  next_in_null : bool;
  next_in : bytes;
  total_in : Z;
  next_out_null : bool;
  avail_out : nat;
  total_out : Z;
  internal : option (lzma_internal S);
  reserved : bool;
}.
Arguments next_in_null {S} _.
Arguments next_in {S} _.
Arguments total_in {S} _.
Arguments next_out_null {S} _.
Arguments avail_out {S} _.
Arguments total_out {S} _.
Arguments internal {S} _.
Arguments reserved {S} _.

Definition set_internal {S} (strm : lzma_stream S) (i : lzma_internal S) : lzma_stream S :=
  {| next_in_null := next_in_null strm; next_in := next_in strm; total_in := total_in strm;
     next_out_null := next_out_null strm; avail_out := avail_out strm; total_out := total_out strm;
     internal := Some i; reserved := reserved strm |}.

Definition set_iseq {S} (i : lzma_internal S) (s : isequence) : lzma_internal S :=
  {| next := next i; iseq := s; internal_avail_in := internal_avail_in i;
     supported_actions := supported_actions i; allow_buf_error := allow_buf_error i |}.

Definition set_allow_buf_error {S} (i : lzma_internal S) (b : bool) : lzma_internal S :=
  {| next := next i; iseq := iseq i; internal_avail_in := internal_avail_in i;
     supported_actions := supported_actions i; allow_buf_error := b |}.

(** [lzma_strm_init]; [alloc] tells whether the allocation succeeds. *)
Definition lzma_strm_init {S} (strm : lzma_stream S) (alloc : bool) : res (lzma_stream S) :=
  let reset (i : option (lzma_internal S)) : lzma_internal S :=
    {| next := i ≫= next; iseq := ISEQ_RUN;
       internal_avail_in := default 0%nat (internal_avail_in <$> i);
       supported_actions := fun _ => false; allow_buf_error := false |} in
  if bool_decide (internal strm = None) && negb alloc then Err LZMA_MEM_ERROR
  else Ok {| next_in_null := next_in_null strm; next_in := next_in strm; total_in := 0;
             next_out_null := next_out_null strm; avail_out := avail_out strm; total_out := 0;
             internal := Some (reset (internal strm)); reserved := reserved strm |}.

(** ** [lzma_code] *)

Definition LZMA_ACTION_MAX : Z := 4.

(** The value of an [enum lzma_action] that the application passes. *)
Definition action_of (action : Z) : option lzma_action :=
  if (action <? 0) || (action >? LZMA_ACTION_MAX) then None
  else nth_error [LZMA_RUN; LZMA_SYNC_FLUSH; LZMA_FULL_FLUSH; LZMA_FINISH; LZMA_FULL_BARRIER]
         (Z.to_nat action).

(** The first [switch]: the state in which the coder is called, or the value
    to return at once. *)
Definition admit_action (s : isequence) (same_avail : bool) (action : lzma_action)
    : isequence + lzma_ret :=
  let must (a : lzma_action) : isequence + lzma_ret :=
    if negb (bool_decide (action = a)) || negb same_avail then inr LZMA_PROG_ERROR else inl s in
  match s with
  | ISEQ_RUN =>
      inl match action with
          | LZMA_RUN => ISEQ_RUN
          | LZMA_SYNC_FLUSH => ISEQ_SYNC_FLUSH
          | LZMA_FULL_FLUSH => ISEQ_FULL_FLUSH
          | LZMA_FINISH => ISEQ_FINISH
          | LZMA_FULL_BARRIER => ISEQ_FULL_BARRIER
          end
  | ISEQ_SYNC_FLUSH => must LZMA_SYNC_FLUSH
  | ISEQ_FULL_FLUSH => must LZMA_FULL_FLUSH
  | ISEQ_FINISH => must LZMA_FINISH
  | ISEQ_FULL_BARRIER => must LZMA_FULL_BARRIER
  | ISEQ_END => inr LZMA_STREAM_END
  | ISEQ_ERROR => inr LZMA_PROG_ERROR
  end.

(** The second [switch]: what is returned and the state to keep.  [stall]
    tells that no input was read and no output written. *)
Definition finish_call {S} (i : lzma_internal S) (ret : lzma_ret) (stall : bool)
    : lzma_ret * lzma_internal S :=
  match ret with
  | LZMA_OK =>
      if stall then
        if allow_buf_error i then (LZMA_BUF_ERROR, i) else (LZMA_OK, set_allow_buf_error i true)
      else (LZMA_OK, set_allow_buf_error i false)
  | LZMA_TIMED_OUT => (LZMA_OK, set_allow_buf_error i false)
  | LZMA_SEEK_NEEDED =>
      let i := set_allow_buf_error i false in
      (LZMA_SEEK_NEEDED, if bool_decide (iseq i = ISEQ_FINISH) then set_iseq i ISEQ_RUN else i)
  | LZMA_STREAM_END =>
      let i := set_iseq i match iseq i with
                          | ISEQ_SYNC_FLUSH | ISEQ_FULL_FLUSH | ISEQ_FULL_BARRIER => ISEQ_RUN
                          | _ => ISEQ_END
                          end in
      (LZMA_STREAM_END, set_allow_buf_error i false)
  | LZMA_NO_CHECK | LZMA_UNSUPPORTED_CHECK | LZMA_GET_CHECK | LZMA_MEMLIMIT_ERROR =>
      (ret, set_allow_buf_error i false)
  | _ => (ret, set_iseq i ISEQ_ERROR)
  end.

(** The return code, the stream and the bytes stored at [next_out]. *)
Definition lzma_code {S} {C : Coder S} (strm : lzma_stream S) (action : Z)
    : lzma_ret * lzma_stream S * bytes :=
  match internal strm, action_of action with
  | Some i, Some a =>
      match next i with
      | Some c =>
          if (next_in_null strm && negb (length (next_in strm) =? 0)%nat)
             || (next_out_null strm && negb (avail_out strm =? 0)%nat)
             || negb (supported_actions i a) then (LZMA_PROG_ERROR, strm, [])
          else if negb (reserved strm) then (LZMA_OPTIONS_ERROR, strm, [])
          else
            match admit_action (iseq i) (internal_avail_in i =? length (next_in strm))%nat a with
            | inr ret => (ret, strm, [])
            | inl s =>
                let '(ret, c, out, rest) := code c (next_in strm) (avail_out strm) a in
                let in_pos := (length (next_in strm) - length rest)%nat in
                let out_pos := length out in
                let i := {| next := Some c; iseq := s; internal_avail_in := length rest;
                            supported_actions := supported_actions i;
                            allow_buf_error := allow_buf_error i |} in
                let '(ret, i) := finish_call i ret ((out_pos =? 0) && (in_pos =? 0))%nat in
                (ret,
                 {| next_in_null := next_in_null strm; next_in := rest;
                    total_in := u64 (total_in strm + Z.of_nat in_pos);
                    next_out_null := next_out_null strm; avail_out := (avail_out strm - out_pos)%nat;
                    total_out := u64 (total_out strm + Z.of_nat out_pos);
                    internal := Some i; reserved := reserved strm |}, out)
            end
      | None => (LZMA_PROG_ERROR, strm, [])
      end
  | _, _ => (LZMA_PROG_ERROR, strm, [])
  end.

(** Successive calls of a coder: the return codes with the input left over,
    and all the bytes that were stored. *)
Record coder_call := { cc_input : bytes; cc_avail : nat; cc_action : lzma_action }.

Fixpoint run_coder {S} {C : Coder S} (c : S) (calls : list coder_call)
    : S * list (lzma_ret * bytes) * bytes :=
  match calls with
  | [] => (c, [], [])
  | k :: calls =>
      let '(ret, c, out, rest) := code c (cc_input k) (cc_avail k) (cc_action k) in
      let '(c, rets, more) := run_coder c calls in (c, (ret, rest) :: rets, out ++ more)
  end.

Lemma run_coder_app {S} {C : Coder S} calls1 calls2 : forall c : S,
  run_coder c (calls1 ++ calls2) =
  let '(c1, rets1, out1) := run_coder c calls1 in
  let '(c2, rets2, out2) := run_coder c1 calls2 in (c2, rets1 ++ rets2, out1 ++ out2).
Proof.
  induction calls1 as [|k calls1 IH]; intros c; cbn [app run_coder].
  - now destruct (run_coder c calls2) as [[? ?] ?].
  - destruct (code c _ _ _) as [[[ret c1] out] rest]. rewrite IH.
    destruct (run_coder c1 calls1) as [[c2 rets1] out1], (run_coder c2 calls2) as [[c3 rets2] out2].
    now rewrite <- app_assoc.
Qed.

Lemma run_coder_length {S} {C : Coder S} calls : forall c : S,
  length (snd (fst (run_coder c calls))) = length calls.
Proof.
  induction calls as [|k calls IH]; intros c; cbn [run_coder]; [reflexivity|].
  destruct (code c _ _ _) as [[[ret c1] out] rest]. specialize (IH c1).
  destruct (run_coder c1 calls) as [[c2 rets1] out1]. cbn in *. now rewrite IH.
Qed.

(** ** Applications

    An application supplies buffers and calls [lzma_code] again and again.  The
    coder is observed through a log of its calls. *)

Record app_call := {
  call_in_null : bool;
  call_in : bytes;
  call_out_null : bool;
  call_avail : nat;
  call_action : Z;
}.

Definition supply {S} (strm : lzma_stream S) (call : app_call) : lzma_stream S :=
  {| next_in_null := call_in_null call; next_in := call_in call; total_in := total_in strm;
     next_out_null := call_out_null call; avail_out := call_avail call; total_out := total_out strm;
     internal := internal strm; reserved := reserved strm |}.

Definition app_step {S} {C : Coder S} (strm : lzma_stream S) (call : app_call) : lzma_stream S :=
  snd (fst (lzma_code (supply strm call) (call_action call))).

Definition app_run {S} {C : Coder S} (strm : lzma_stream S) (calls : list app_call) : lzma_stream S :=
  fold_left app_step calls strm.

(** A call of the coder: the sizes of the input before and after, of the
    output, and the return code. *)
Record entry := {
  e_action : lzma_action;
  e_in : nat;
  e_left : nat;
  e_out : nat;
  e_ret : lzma_ret;
}.

Definition logged {S} (C : Coder S) : Coder (S * list entry) :=
  fun '(c, log) input avail action =>
    let '(ret, c, out, rest) := code c input avail action in
    let e := {| e_action := action; e_in := length input; e_left := length rest;
                e_out := length out; e_ret := ret |} in
    (ret, (c, log ++ [e]), out, rest).

(** Errors after which the coder must not be used. *)
Definition fatal (r : lzma_ret) : bool :=
  match r with
  | LZMA_OK | LZMA_TIMED_OUT | LZMA_SEEK_NEEDED | LZMA_STREAM_END | LZMA_NO_CHECK
  | LZMA_UNSUPPORTED_CHECK | LZMA_GET_CHECK | LZMA_MEMLIMIT_ERROR => false
  | _ => true
  end.

Definition flush (a : lzma_action) : bool :=
  match a with LZMA_SYNC_FLUSH | LZMA_FULL_FLUSH | LZMA_FULL_BARRIER => true | _ => false end.

(** The action of [e] is not finished. *)
Definition pending (e : entry) : bool :=
  negb (fatal (e_ret e)) && negb (bool_decide (e_ret e = LZMA_STREAM_END)) &&
  (flush (e_action e)
   || bool_decide (e_action e = LZMA_FINISH) && negb (bool_decide (e_ret e = LZMA_SEEK_NEEDED))).

(** The coder has nothing more to do. *)
Definition ended (e : entry) : bool :=
  bool_decide (e_ret e = LZMA_STREAM_END) && negb (flush (e_action e)).

Definition stalled (e : entry) : bool :=
  bool_decide (e_ret e = LZMA_OK) && (e_out e =? 0)%nat && (e_in e - e_left e =? 0)%nat.

(** What the coders rely on between two calls. *)
Definition follows (e1 e2 : entry) : Prop :=
  fatal (e_ret e1) = false /\ ended e1 = false /\
  (pending e1 = true -> e_action e2 = e_action e1 /\ e_in e2 = e_left e1).

Definition protocol (log : list entry) : Prop :=
  forall l1 e1 e2 l2, log = l1 ++ e1 :: e2 :: l2 -> follows e1 e2.

(** What [lzma_code] returns for the call [e] of the coder after those of
    [log]. *)
Definition reported (log : list entry) (e : entry) : lzma_ret :=
  match e_ret e with
  | LZMA_OK => if stalled e && from_option stalled false (last log) then LZMA_BUF_ERROR else LZMA_OK
  | LZMA_TIMED_OUT => LZMA_OK
  | ret => ret
  end.

Definition consumed_of (log : list entry) : Z :=
  fold_right (fun e n => Z.of_nat (e_in e - e_left e) + n) 0 log.
Definition produced_of (log : list entry) : Z := fold_right (fun e n => Z.of_nat (e_out e) + n) 0 log.

(** ** Lemmas *)

Section Protocol.
Context {S : Type} {C : Coder S}.

Lemma consumed_of_snoc log e : consumed_of (log ++ [e]) = consumed_of log + Z.of_nat (e_in e - e_left e).
Proof. unfold consumed_of. rewrite fold_right_app. induction log as [|x log IH]; cbn in *; lia. Qed.

Lemma produced_of_snoc log e : produced_of (log ++ [e]) = produced_of log + Z.of_nat (e_out e).
Proof. unfold produced_of. rewrite fold_right_app. induction log as [|x log IH]; cbn in *; lia. Qed.

Lemma protocol_snoc log e :
  protocol log -> (forall e1, last log = Some e1 -> follows e1 e) -> protocol (log ++ [e]).
Proof.
  intros Hp Hl l1 e1 e2 l2 E. destruct l2 as [|e3 l2 _] using rev_ind.
  - change (l1 ++ [e1; e2]) with (l1 ++ [e1] ++ [e2]) in E. rewrite app_assoc in E.
    apply app_inj_tail in E as [-> ->]. apply Hl. apply last_snoc.
  - rewrite !app_comm_cons, app_assoc in E. apply app_inj_tail in E as [-> _].
    now apply (Hp l1 e1 e2 l2).
Qed.

(** The state after the call [e]. *)
Definition iseq_after (e : entry) : isequence :=
  if fatal (e_ret e) then ISEQ_ERROR
  else if ended e then ISEQ_END
  else if pending e then
    match e_action e with
    | LZMA_RUN => ISEQ_RUN | LZMA_SYNC_FLUSH => ISEQ_SYNC_FLUSH | LZMA_FULL_FLUSH => ISEQ_FULL_FLUSH
    | LZMA_FINISH => ISEQ_FINISH | LZMA_FULL_BARRIER => ISEQ_FULL_BARRIER
    end
  else ISEQ_RUN.

(** The state of the wrapper reflects the last call of the coder. *)
Definition wrapper_inv (supported : lzma_action -> bool) (strm : lzma_stream (S * list entry))
    (log : list entry) : Prop :=
  protocol log /\ Forall (fun e => supported (e_action e) = true) log /\
  total_in strm = u64 (consumed_of log) /\ total_out strm = u64 (produced_of log) /\
  exists i c, internal strm = Some i /\ next i = Some (c, log) /\ supported_actions i = supported /\
    match last log with
    | None => iseq i = ISEQ_RUN /\ allow_buf_error i = false
    | Some e => iseq i = iseq_after e /\ internal_avail_in i = e_left e /\
        (fatal (e_ret e) = false -> allow_buf_error i = stalled e)
    end.

Lemma u64_add_l a b : u64 (u64 a + b) = u64 (a + b).
Proof. unfold u64. now rewrite Zplus_mod_idemp_l. Qed.

(** A call that is admitted obeys the protocol. *)
Lemma admit_follows e same a s n :
  admit_action (iseq_after e) same a = inl s -> same = (e_left e =? n)%nat ->
  fatal (e_ret e) = false /\ ended e = false /\
  (pending e = true -> a = e_action e /\ n = e_left e).
Proof.
  unfold iseq_after, admit_action. intros H ->.
  destruct (fatal (e_ret e)); [discriminate|]. destruct (ended e); [discriminate|].
  do 2 (split; [reflexivity|]). intros Hp. rewrite Hp in H.
  destruct (Nat.eqb_spec (e_left e) n); unfold pending in Hp; destruct (e_action e) eqn:Ea, a; cbn in H; try discriminate;
    try (split; congruence); rewrite ?andb_false_r in Hp; cbn in Hp; rewrite ?andb_false_r in Hp; discriminate.
Qed.

(** The state in which the coder is called tells the action. *)
Lemma admit_state s same a s' :
  admit_action s same a = inl s' ->
  s' = match a with
       | LZMA_RUN => ISEQ_RUN | LZMA_SYNC_FLUSH => ISEQ_SYNC_FLUSH | LZMA_FULL_FLUSH => ISEQ_FULL_FLUSH
       | LZMA_FINISH => ISEQ_FINISH | LZMA_FULL_BARRIER => ISEQ_FULL_BARRIER
       end.
Proof.
  unfold admit_action. destruct s, a, same; vm_compute; congruence.
Qed.

(** One call of the coder. *)
Lemma finish_call_after (i : lzma_internal (S * list entry)) e stall :
  iseq i = match e_action e with
           | LZMA_RUN => ISEQ_RUN | LZMA_SYNC_FLUSH => ISEQ_SYNC_FLUSH | LZMA_FULL_FLUSH => ISEQ_FULL_FLUSH
           | LZMA_FINISH => ISEQ_FINISH | LZMA_FULL_BARRIER => ISEQ_FULL_BARRIER
           end ->
  stall = ((e_out e =? 0) && (e_in e - e_left e =? 0))%nat ->
  let '(ret, i') := finish_call i (e_ret e) stall in
  next i' = next i /\ supported_actions i' = supported_actions i /\
  internal_avail_in i' = internal_avail_in i /\ iseq i' = iseq_after e /\
  (fatal (e_ret e) = false -> allow_buf_error i' = stalled e) /\
  ret = match e_ret e with
        | LZMA_OK => if stalled e && allow_buf_error i then LZMA_BUF_ERROR else LZMA_OK
        | LZMA_TIMED_OUT => LZMA_OK
        | ret => ret
        end.
Proof.
  intros Hs ->. unfold iseq_after, ended, pending, stalled, finish_call. destruct i as [n q av sup ab].
  cbn [iseq allow_buf_error] in *.
  destruct (e_ret e), (e_action e); subst q; cbn -[Nat.eqb Nat.sub];
    destruct (e_out e =? 0)%nat, (e_in e - e_left e =? 0)%nat, ab; cbn; split_and!; reflexivity || congruence || discriminate.
Qed.

(** What a call of [lzma_code] does. *)
Lemma lzma_code_spec supported strm log call :
  wrapper_inv supported strm log ->
  let '(ret, strm', out) := lzma_code (C := logged C) (supply strm call) (call_action call) in
  (strm' = supply strm call /\ out = [] /\
   (ret = LZMA_PROG_ERROR \/ ret = LZMA_OPTIONS_ERROR \/ ret = LZMA_STREAM_END)) \/
  (exists e, wrapper_inv supported strm' (log ++ [e]) /\ e_in e = length (call_in call) /\
     length (next_in strm') = e_left e /\ length out = e_out e /\ ret = reported log e).
Proof.
  intros (Hp & Hsup & Hti & Hto & i & c & Hi & Hn & Hs & Hl). unfold lzma_code.
  cbn [supply internal next_in_null next_in next_out_null avail_out reserved total_in total_out].
  rewrite Hi. destruct (action_of (call_action call)) as [a|]; [|left; auto].
  rewrite Hn. case_if; [left; auto|]. case_if; [left; auto|].
  destruct (admit_action (iseq i) _ a) as [s|r] eqn:Ea.
  2: { left. split_and!; try reflexivity. unfold admit_action in Ea. destruct (iseq i), a;
       repeat case_if_in Ea; try discriminate; injection Ea as <-; auto. }
  change (code (c, log) (call_in call) (call_avail call) a)
    with (logged C (c, log) (call_in call) (call_avail call) a).
  unfold logged at 1. destruct (code c (call_in call) (call_avail call) a) as [[[r c'] out] rest] eqn:Ec.
  set (e := {| e_action := a; e_in := length (call_in call); e_left := length rest;
               e_out := length out; e_ret := r |}).
  match goal with |- context [finish_call ?i' ?r' ?st'] =>
    pose proof (finish_call_after i' e st' (admit_state _ _ _ _ Ea) eq_refl) as Hf;
    change (e_ret e) with r' in Hf; destruct (finish_call i' r' st') as [ret i2] end.
  destruct Hf as (F1 & F2 & F3 & F4 & F5 & F6). right. exists e.
  assert (follows_last : forall e1, last log = Some e1 -> follows e1 e).
  { intros e1 He. rewrite He in Hl. destruct Hl as (L1 & L2 & L3). rewrite L1, L2 in Ea.
    destruct (admit_follows e1 _ a s (length (call_in call)) Ea eq_refl) as (A1 & A2 & A3).
    split_and!; auto. }
  split; [|split; [reflexivity|split; [reflexivity|split; [reflexivity|]]]].
  - unfold wrapper_inv. split; [now apply protocol_snoc|split; [|split; [|split]]].
    + apply Forall_app_2; [assumption|]. constructor; [|constructor]. cbn [e_action e]. b2p. congruence.
    + cbn [total_in]. rewrite consumed_of_snoc, Hti, u64_add_l. reflexivity.
    + cbn [total_out]. rewrite produced_of_snoc, Hto, u64_add_l. reflexivity.
    + cbn [internal]. exists i2, c'. rewrite F1, F2, last_snoc. cbn [next supported_actions].
      split_and!; try reflexivity; assumption.
  - rewrite F6. unfold reported. change (e_ret e) with r. destruct r; try reflexivity.
    cbn [allow_buf_error]. destruct (last log) as [e1|] eqn:E1; cbn [from_option].
    + destruct (follows_last e1 eq_refl) as (A1 & _). destruct Hl as (_ & _ & ->); [|assumption]. reflexivity.
    + destruct Hl as [_ ->]. reflexivity.
Qed.

(** The log of a stream. *)
Definition stream_log (strm : lzma_stream (S * list entry)) : list entry :=
  match internal strm ≫= next with Some (_, log) => log | None => [] end.

Lemma stream_log_inv supported strm log : wrapper_inv supported strm log -> stream_log strm = log.
Proof. intros (_ & _ & _ & _ & i & c & Hi & Hn & _). unfold stream_log. rewrite Hi. cbn. now rewrite Hn. Qed.

Lemma wrapper_supply supported strm log call :
  wrapper_inv supported strm log -> wrapper_inv supported (supply strm call) log.
Proof. exact id. Qed.

Lemma app_run_inv supported calls : forall strm log,
  wrapper_inv supported strm log ->
  exists log', wrapper_inv supported (app_run (C := logged C) strm calls) (log ++ log').
Proof.
  induction calls as [|call calls IH]; intros strm log H; cbn [app_run fold_left].
  - exists []. now rewrite app_nil_r.
  - pose proof (lzma_code_spec supported strm log call H) as Hs. unfold app_step at 2.
    destruct (lzma_code (supply strm call) (call_action call)) as [[ret strm'] out]. cbn [fst snd].
    destruct Hs as [(-> & _)|(e & H' & _)].
    + apply IH. now apply wrapper_supply.
    + destruct (IH strm' (log ++ [e]) H') as [log' Hl]. exists (e :: log').
      rewrite <- app_assoc in Hl. exact Hl.
Qed.

End Protocol.

(** ** Properties *)

Section Properties.
Context {S : Type} {C : Coder S}.

(** A stream that an initialiser such as [lzma_index_encoder] has set up with
    the coder [c]. *)
Definition initialised (strm : lzma_stream (S * list entry)) (c : S)
    (supported : lzma_action -> bool) : lzma_stream (S * list entry) :=
  set_internal strm
    {| next := Some (c, []); iseq := ISEQ_RUN; internal_avail_in := 0;
       supported_actions := supported; allow_buf_error := false |}.

Lemma initialised_inv strm c supported :
  total_in strm = 0 -> total_out strm = 0 -> wrapper_inv supported (initialised strm c supported) [].
Proof.
  intros Hi Ho. split; [intros [|? [|? ?]]; discriminate|]. split; [constructor|].
  unfold initialised. cbn [total_in total_out set_internal internal]. rewrite Hi, Ho.
  split_and!; try reflexivity. do 2 eexists. now split_and!.
Qed.

(** C14: whatever an application does with a stream, the coder behind
    [lzma_code] is only called as coders expect it: never again after a fatal
    error or the end of the stream, and after [LZMA_SYNC_FLUSH],
    [LZMA_FULL_FLUSH], [LZMA_FULL_BARRIER] or [LZMA_FINISH] with the same action
    and exactly the input that was left, until the action is finished.  Only
    supported actions are used, and the totals count what was coded. *)
Theorem lzma_code_protocol (strm : lzma_stream (S * list entry)) c supported calls :
  total_in strm = 0 -> total_out strm = 0 ->
  let strm' := app_run (C := logged C) (initialised strm c supported) calls in
  protocol (stream_log strm') /\
  Forall (fun e => supported (e_action e) = true) (stream_log strm') /\
  total_in strm' = u64 (consumed_of (stream_log strm')) /\
  total_out strm' = u64 (produced_of (stream_log strm')).
Proof.
  intros Hi Ho strm'. destruct (app_run_inv supported calls _ _ (initialised_inv strm c supported Hi Ho))
    as [log H]. fold strm' in H. rewrite (stream_log_inv _ _ _ H). now destruct H as (H1 & H2 & H3 & H4 & _).
Qed.

(** a call of [lzma_code] either leaves the stream alone and returns
    [LZMA_PROG_ERROR], [LZMA_OPTIONS_ERROR] or [LZMA_STREAM_END], or calls the
    coder once and returns its code, except that a time-out is reported as
    [LZMA_OK] and that [LZMA_BUF_ERROR] is returned when this call of the coder
    and the one before it made no progress. *)
Theorem lzma_code_result (strm : lzma_stream (S * list entry)) c supported calls call :
  total_in strm = 0 -> total_out strm = 0 ->
  let strm' := app_run (C := logged C) (initialised strm c supported) calls in
  let '(ret, strm2, out) := lzma_code (C := logged C) (supply strm' call) (call_action call) in
  (strm2 = supply strm' call /\ out = [] /\
   (ret = LZMA_PROG_ERROR \/ ret = LZMA_OPTIONS_ERROR \/ ret = LZMA_STREAM_END)) \/
  (exists e, stream_log strm2 = stream_log strm' ++ [e] /\
     e_in e = length (call_in call) /\ length (next_in strm2) = e_left e /\ length out = e_out e /\
     ret = reported (stream_log strm') e).
Proof.
  intros Hi Ho strm'. destruct (app_run_inv supported calls _ _ (initialised_inv strm c supported Hi Ho))
    as [log H]. fold strm' in H. pose proof (lzma_code_spec supported strm' _ call H) as Hs.
  destruct (lzma_code (supply strm' call) (call_action call)) as [[ret strm2] out].
  destruct Hs as [Hs|(e & H1 & H2 & H3 & H4 & H5)]; [now left|]. right. exists e.
  rewrite (stream_log_inv _ _ _ H1), (stream_log_inv _ _ _ H). now split_and!.
Qed.

End Properties.

(** ** A concrete coder

    It copies its input and ends the stream when it was told to finish. *)
Definition copy_code : Coder unit :=
  fun c input avail action =>
    let '(out, rest) := lzma_bufcpy input avail in
    (if bool_decide (action = LZMA_FINISH) && bool_decide (rest = []) then LZMA_STREAM_END else LZMA_OK,
     c, out, rest).

#[export] Instance copy_laws : CoderLaws unit (C := copy_code).
Proof.
  split.
  - intros c input avail action. cbn. split; [rewrite length_take; lia|]. eexists. symmetry. apply take_drop.
  - intros c input avail action H. cbn. now apply Forall_take.
Qed.

Definition stream_example : lzma_stream (unit * list entry) :=
  {| next_in_null := false; next_in := []; total_in := 0; next_out_null := false; avail_out := 0;
     total_out := 0; internal := None; reserved := true |}.

Definition call_example (input : bytes) (avail : nat) (action : Z) : app_call :=
  {| call_in_null := false; call_in := input; call_out_null := false; call_avail := avail;
     call_action := action |}.

Lemma lzma_code_protocol_witness :
  total_out (app_run (C := logged copy_code)
    (initialised stream_example tt (fun a => bool_decide (a = LZMA_RUN) || bool_decide (a = LZMA_FINISH)))
    [call_example [1; 2; 3] 2 0; call_example [3; 4] 1 3; call_example [4; 5] 9 3; call_example [4] 9 3;
     call_example [5] 9 0]) = 4.
Proof.
  match goal with |- total_out (app_run (initialised _ _ ?s) ?calls) = _ =>
    destruct (lzma_code_protocol (C := copy_code) stream_example tt s calls eq_refl eq_refl) as (_ & _ & _ & H) end.
  etransitivity; [exact H|]. vm_compute. reflexivity.
Defined.

Lemma lzma_code_result_witness :
  exists log e, reported log e = LZMA_BUF_ERROR /\ stalled e = true.
Proof.
  pose proof (lzma_code_result (C := copy_code) stream_example tt (fun _ => true) [call_example [1] 0 0]
    (call_example [1] 0 0) eq_refl eq_refl) as H. cbv zeta in H.
  destruct (lzma_code _ _) as [[ret strm2] out] eqn:E. vm_compute in E. injection E as <- <- <-.
  destruct H as [(_ & _ & [H|[H|H]])|(e & H1 & _ & _ & _ & H)]; try discriminate.
  vm_compute in H1. injection H1 as <-. do 2 eexists. split; [exact (eq_sym H)|reflexivity].
Defined.
