(* ===== verification/Delta.v ===== *)
(** * The Delta filter

    [lib/archive/xz/src/liblzma/delta]: [delta_common.c], [delta_encoder.c] and
    [delta_decoder.c].  The filter keeps the last 256 bytes of the original data
    in a ring buffer that it fills downwards; the coder is the same for every
    way in which the data is cut into calls. *)

From S2P Require Import Prelude FilterProps Coder.

(** ** State ([delta_private.h]) *)

(** [delta_next] is the next coder of the chain, [None] when [next.code] is
    [NULL]. *)
Record lzma_delta_coder (T : Type) := {
  delta_next : option T;
  distance : Z;
  pos : Z;
  history : bytes;
}.
Arguments delta_next {T} _.
Arguments distance {T} _.
Arguments pos {T} _.
Arguments history {T} _.

Section Coders.
Context {T : Type} {C : Coder T}.

(** [lzma_delta_coder_init].  [old] is the coder that [next->coder] already
    holds, [alloc] the outcome of the allocation; [next_filter_init] is
    [lzma_next_filter_init] on the rest of the chain, which gets the next coder
    that is there, none for a new coder. *)
Definition lzma_delta_coder_init (old : option (lzma_delta_coder T)) (alloc : bool)
    (options : filter_options) (next_filter_init : option T -> res (option T))
    : res (lzma_delta_coder T) :=
  if bool_decide (old = None) && negb alloc then Err LZMA_MEM_ERROR
  else if lzma_delta_coder_memusage 1 options =? UINT64_MAX then Err LZMA_OPTIONS_ERROR
  else
    match as_delta options with
    | None => Err LZMA_OPTIONS_ERROR
    | Some (_, dist) =>
        let? n := next_filter_init (old ≫= delta_next) in
        Ok {| delta_next := n; distance := dist; pos := 0; history := replicate (Z.to_nat LZMA_DELTA_DIST_MAX) 0 |}
    end.

(** [history[(distance + pos) & 0xFF]] *)
Definition delta_tmp (coder : lzma_delta_coder T) : Z :=
  byte_at (history coder) (Z.land (distance coder + pos coder) 0xFF).

(** [history[pos-- & 0xFF] = b], where [pos] is a [uint8_t]. *)
Definition delta_push (coder : lzma_delta_coder T) (b : Z) : lzma_delta_coder T :=
  {| delta_next := delta_next coder; distance := distance coder; pos := u8 (pos coder - 1);
     history := <[Z.to_nat (Z.land (pos coder) 0xFF) := b]> (history coder) |}.

Definition set_next (coder : lzma_delta_coder T) (n : option T) : lzma_delta_coder T :=
  {| delta_next := n; distance := distance coder; pos := pos coder; history := history coder |}.

(** The bytes stored in [out]. *)
Fixpoint copy_and_encode (coder : lzma_delta_coder T) (input : bytes) : lzma_delta_coder T * bytes :=
  match input with
  | [] => (coder, [])
  | b :: input =>
      let tmp := delta_tmp coder in
      let coder := delta_push coder b in
      let '(coder, out) := copy_and_encode coder input in (coder, u8 (b - tmp) :: out)
  end.

(** The loops on a buffer that is changed in place, from the index [i] on. *)
Fixpoint encode_in_place_loop (n i : nat) (coder : lzma_delta_coder T) (buffer : bytes)
    : lzma_delta_coder T * bytes :=
  match n with
  | O => (coder, buffer)
  | S n =>
      let tmp := delta_tmp coder in
      let coder := delta_push coder (nth i buffer 0) in
      encode_in_place_loop n (i + 1) coder (<[i := u8 (nth i buffer 0 - tmp)]> buffer)
  end.

Definition encode_in_place (coder : lzma_delta_coder T) (buffer : bytes) : lzma_delta_coder T * bytes :=
  encode_in_place_loop (length buffer) 0 coder buffer.

Fixpoint decode_buffer_loop (n i : nat) (coder : lzma_delta_coder T) (buffer : bytes)
    : lzma_delta_coder T * bytes :=
  match n with
  | O => (coder, buffer)
  | S n =>
      let buffer := <[i := u8 (nth i buffer 0 + delta_tmp coder)]> buffer in
      let coder := delta_push coder (nth i buffer 0) in
      decode_buffer_loop n (i + 1) coder buffer
  end.

Definition decode_buffer (coder : lzma_delta_coder T) (buffer : bytes) : lzma_delta_coder T * bytes :=
  decode_buffer_loop (length buffer) 0 coder buffer.

Definition delta_encode : Coder (lzma_delta_coder T) :=
  fun coder input avail action =>
    match delta_next coder with
    | None =>
        let size := Nat.min (length input) avail in
        let '(coder, out) := copy_and_encode coder (take size input) in
        let rest := drop size input in
        (if negb (bool_decide (action = LZMA_RUN)) && bool_decide (rest = [])
         then LZMA_STREAM_END else LZMA_OK, coder, out, rest)
    | Some n =>
        let '(ret, n, out, rest) := code n input avail action in
        let '(coder, out) := encode_in_place (set_next coder (Some n)) out in
        (ret, coder, out, rest)
    end.

#[export] Existing Instance delta_encode.

(** The decoder is never the last of a chain; [next.code] is not [NULL]. *)
Definition delta_decode : Coder (lzma_delta_coder T) :=
  fun coder input avail action =>
    match delta_next coder with
    | None => (LZMA_PROG_ERROR, coder, [], input)
    | Some n =>
        let '(ret, n, out, rest) := code n input avail action in
        let '(coder, out) := decode_buffer (set_next coder (Some n)) out in
        (ret, coder, out, rest)
    end.

End Coders.

(** ** Specification

    Every byte minus the one [dist] places before it; there are zeros before
    the data. *)
Definition delta_spec (dist : Z) (data : bytes) : bytes :=
  map (fun i => u8 (byte_at data i - (if i <? dist then 0 else byte_at data (i - dist))))
    (seqZ 0 (zlen data)).

Example delta_ex :
  option_map (fun c : lzma_delta_coder unit => snd (copy_and_encode c [10; 20; 30; 5]))
    (match lzma_delta_coder_init None true (OptDelta LZMA_DELTA_TYPE_BYTE 2) (fun n => Ok n) with
     | Ok c => Some c | Err _ => None end) = Some [10; 20; 20; 241].
Proof. vm_compute. reflexivity. Qed.

(** ** Lemmas *)

Section Ring.
Context {T : Type} {C : Coder T}.
Implicit Types coder : lzma_delta_coder T.

(** The ring buffer holds the most recent bytes of [past], which starts with
    the last one. *)
Definition ring coder (past : bytes) : Prop :=
  length (history coder) = 256%nat /\ 0 <= pos coder < 256 /\
  forall k, 1 <= k <= 256 -> byte_at (history coder) (Z.land (pos coder + k) 0xFF) = byte_at past (k - 1).

Lemma land_ff x : Z.land x 0xFF = x mod 256.
Proof. apply (land_low 8). lia. Qed.

Lemma ring_tmp coder past :
  ring coder past -> 1 <= distance coder <= 256 -> delta_tmp coder = byte_at past (distance coder - 1).
Proof. intros (_ & _ & H) Hd. unfold delta_tmp. rewrite Z.add_comm. now apply H. Qed.

Lemma nth_insert (l : bytes) i j b :
  (i < length l)%nat -> nth j (<[i := b]> l) 0 = if decide (i = j) then b else nth j l 0.
Proof.
  intros Hi. rewrite !nth_lookup. destruct (decide (i = j)) as [->|Hn].
  - now rewrite list_lookup_insert_eq.
  - now rewrite list_lookup_insert_ne.
Qed.

Lemma ring_push coder past b : ring coder past -> ring (delta_push coder b) (b :: past).
Proof.
  intros (Hl & Hp & H). unfold ring, delta_push. cbn [history pos].
  rewrite length_insert. split; [assumption|]. split; [apply u8_range|]. intros k Hk.
  rewrite !land_ff in *. unfold byte_at. rewrite nth_insert by (rewrite Hl; dlia). unfold u8. destruct (decide _) as [E|E].
  - assert (k = 1) as -> by dlia. reflexivity.
  - assert (k <> 1) as Hk1 by (intros ->; apply E; f_equal; dlia).
    specialize (H (k - 1) ltac:(lia)). unfold byte_at in H.
    rewrite land_ff in H.
    replace (((pos coder - 1) mod 256 + k) mod 256) with ((pos coder + (k - 1)) mod 256) by dlia.
    rewrite H. replace (Z.to_nat (k - 1)) with (S (Z.to_nat (k - 1 - 1))) by lia. reflexivity.
Qed.

Lemma ring_init old alloc options next_init coder :
  lzma_delta_coder_init old alloc options next_init = Ok coder ->
  ring coder [] /\ 1 <= distance coder <= 256 /\ exists type, as_delta options = Some (type, distance coder).
Proof.
  unfold lzma_delta_coder_init, lzma_delta_coder_memusage. case_if; [discriminate|].
  destruct (as_delta options) as [[type dist]|]; [|discriminate].
  case_if; [discriminate|]. destruct (next_init _) as [n|]; [|discriminate]. cbn [res_bind].
  pose proof (length_replicate (Z.to_nat LZMA_DELTA_DIST_MAX) 0) as Hlen.
  pose proof (fun i x H => proj1 (proj1 (lookup_replicate (Z.to_nat LZMA_DELTA_DIST_MAX) 0 x i) H)) as Hzero.
  set (h := replicate _ _) in *. clearbody h. intros [= <-].
  assert (1 <= dist <= 256) as Hd.
  { destruct (negb _ || _ || _) eqn:E in Heqb0; [discriminate|]. b2p.
    unfold LZMA_DELTA_DIST_MIN, LZMA_DELTA_DIST_MAX in *. lia. }
  split; [|split; [assumption|now exists type]].
  split; [exact Hlen|]. split; [cbn; lia|]. intros k Hk. cbn [history pos].
  unfold byte_at. rewrite (nth_lookup h), (nth_lookup []), lookup_nil. cbn [default from_option].
  destruct (h !! _) as [x|] eqn:E; [|reflexivity]. symmetry. exact (eq_sym (Hzero _ _ E)).
Qed.

End Ring.

Section Filter.
Context {T : Type} {C : Coder T}.
Implicit Types coder : lzma_delta_coder T.

(** The filter after [past], the last byte first. *)
Fixpoint delta_go (dist : Z) (past data : bytes) : bytes :=
  match data with
  | [] => []
  | b :: data => u8 (b - byte_at past (dist - 1)) :: delta_go dist (b :: past) data
  end.

Fixpoint undelta_go (dist : Z) (past data : bytes) : bytes :=
  match data with
  | [] => []
  | x :: data => let b := u8 (x + byte_at past (dist - 1)) in b :: undelta_go dist (b :: past) data
  end.

Lemma delta_go_app dist a : forall past b,
  delta_go dist past (a ++ b) = delta_go dist past a ++ delta_go dist (rev a ++ past) b.
Proof.
  induction a as [|x a IH]; intros past b; [reflexivity|]. cbn [app delta_go rev].
  rewrite IH, <- !app_assoc. reflexivity.
Qed.

Lemma undelta_go_app dist a : forall past b,
  undelta_go dist past (a ++ b) =
  undelta_go dist past a ++ undelta_go dist (rev (undelta_go dist past a) ++ past) b.
Proof.
  induction a as [|x a IH]; intros past b; [reflexivity|]. cbn [app undelta_go rev].
  rewrite IH, <- !app_assoc. reflexivity.
Qed.

Lemma undelta_delta dist data : forall past,
  bytes_ok data -> undelta_go dist past (delta_go dist past data) = data.
Proof.
  induction data as [|b data IH]; intros past H; [reflexivity|]. apply Forall_cons in H as [Hb H].
  cbn [delta_go undelta_go].
  replace (u8 (u8 (b - byte_at past (dist - 1)) + byte_at past (dist - 1))) with b.
  - now rewrite IH.
  - unfold u8, is_byte in *. rewrite Zplus_mod_idemp_l, Z.mod_small by lia. lia.
Qed.

Lemma length_delta_go dist data : forall past, length (delta_go dist past data) = length data.
Proof. induction data as [|b data IH]; intros past; cbn; auto. Qed.

(** The recursive form and the specification. *)
Lemma delta_go_spec dist data : 1 <= dist -> delta_go dist [] data = delta_spec dist data.
Proof.
  intros Hd. induction data as [|b data IH] using rev_ind; [reflexivity|].
  rewrite delta_go_app, IH, app_nil_r. unfold delta_spec. rewrite length_app, Nat2Z.inj_add.
  cbn [length delta_go]. change (Z.of_nat 1) with 1. rewrite seqZ_app by lia. rewrite map_app.
  f_equal.
  - apply map_ext_in. intros i Hi. apply list_elem_of_In, elem_of_seqZ in Hi.
    unfold byte_at. rewrite !(app_nth1 data [b]) by lia. reflexivity.
  - rewrite Z.add_0_l. change (seqZ (zlen data) 1) with [0 + zlen data]. cbn [map].
    rewrite Z.add_0_l. unfold byte_at. rewrite (app_nth2 data [b]) by lia.
    replace (Z.to_nat (zlen data) - length data)%nat with 0%nat by lia. cbn [nth]. do 2 f_equal. f_equal.
    destruct (Z.ltb_spec (zlen data) dist).
    + apply nth_overflow. rewrite length_rev. lia.
    + rewrite rev_nth, app_nth1 by lia. f_equal. lia.
Qed.

Lemma insert_mid (done : bytes) x b data : <[length done := x]> (done ++ b :: data) = done ++ x :: data.
Proof. induction done as [|y done IH]; cbn; [reflexivity|]. f_equal. exact IH. Qed.

(** The loop in place computes the same as the one that copies. *)
Lemma encode_in_place_loop_spec data : forall coder done,
  encode_in_place_loop (length data) (length done) coder (done ++ data) =
  (fst (copy_and_encode coder data), done ++ snd (copy_and_encode coder data)).
Proof.
  induction data as [|b data IH]; intros coder done; [reflexivity|].
  cbn [length encode_in_place_loop copy_and_encode].
  rewrite (app_nth2 done), Nat.sub_diag by lia. cbn [nth].
  rewrite insert_mid.
  specialize (IH (delta_push coder b) (done ++ [u8 (b - delta_tmp coder)])).
  rewrite length_app in IH. cbn [length] in IH. rewrite <- app_assoc in IH. cbn [app] in IH.
  rewrite IH.
  destruct (copy_and_encode _ data) as [c out]. cbn [fst snd]. now rewrite <- app_assoc.
Qed.

Lemma encode_in_place_spec coder data : encode_in_place coder data = copy_and_encode coder data.
Proof.
  unfold encode_in_place. pose proof (encode_in_place_loop_spec data coder []) as H.
  cbn [length app] in H. rewrite H.
  now destruct (copy_and_encode coder data).
Qed.

Lemma copy_and_encode_spec data : forall coder past,
  ring coder past -> 1 <= distance coder <= 256 ->
  let '(coder', out) := copy_and_encode coder data in
  out = delta_go (distance coder) past data /\ ring coder' (rev data ++ past) /\
  distance coder' = distance coder /\ delta_next coder' = delta_next coder.
Proof.
  induction data as [|b data IH]; intros coder past Hr Hd; cbn [copy_and_encode]; [now split_and!|].
  specialize (IH (delta_push coder b) (b :: past) (ring_push coder past b Hr) Hd).
  destruct (copy_and_encode _ data) as [c out]. destruct IH as (-> & H & E1 & E2).
  cbn [rev]. rewrite <- app_assoc. cbn [app delta_go]. rewrite (ring_tmp coder past Hr Hd). now split_and!.
Qed.

Lemma decode_buffer_loop_spec data : forall coder past done,
  ring coder past -> 1 <= distance coder <= 256 ->
  let '(coder', out) := decode_buffer_loop (length data) (length done) coder (done ++ data) in
  let orig := undelta_go (distance coder) past data in
  out = done ++ orig /\ ring coder' (rev orig ++ past) /\
  distance coder' = distance coder /\ delta_next coder' = delta_next coder.
Proof.
  induction data as [|b data IH]; intros coder past done Hr Hd; [now split_and!|].
  cbn [length decode_buffer_loop undelta_go].
  rewrite (app_nth2 done), Nat.sub_diag by lia. cbn [nth].
  rewrite insert_mid.
  rewrite (app_nth2 done), Nat.sub_diag by lia. cbn [nth].
  rewrite (ring_tmp coder past Hr Hd). set (x := u8 (b + byte_at past (distance coder - 1))).
  specialize (IH (delta_push coder x) (x :: past) (done ++ [x]) (ring_push coder past x Hr) Hd).
  rewrite length_app in IH. cbn [length] in IH. rewrite <- app_assoc in IH. cbn [app] in IH.
  destruct (decode_buffer_loop _ _ _ _) as [c out]. cbv zeta in IH. destruct IH as (-> & H & E1 & E2).
  cbn [distance delta_push] in *. cbn [rev]. rewrite <- !app_assoc. cbn [app]. now split_and!.
Qed.

Lemma decode_buffer_spec data coder past :
  ring coder past -> 1 <= distance coder <= 256 ->
  let '(coder', out) := decode_buffer coder data in
  out = undelta_go (distance coder) past data /\ ring coder' (rev out ++ past) /\
  distance coder' = distance coder /\ delta_next coder' = delta_next coder.
Proof.
  intros Hr Hd. pose proof (decode_buffer_loop_spec data coder past [] Hr Hd) as H.
  unfold decode_buffer. cbn [length app] in H. destruct (decode_buffer_loop _ _ _ _) as [c out].
  cbv zeta in H. now destruct H as (-> & H).
Qed.

Lemma ring_next coder past n : ring coder past -> ring (set_next coder n) past.
Proof. exact id. Qed.

(** *** Sequences of calls *)

(** The input that the calls consumed. *)
Definition consumed_input (calls : list coder_call) (rets : list (lzma_ret * bytes)) : bytes :=
  concat (zip_with (fun k r => take (length (cc_input k) - length r.2) (cc_input k)) calls rets).

Lemma run_encoder_first calls : forall coder past,
  ring coder past -> 1 <= distance coder <= 256 -> delta_next coder = None ->
  let '(_, rets, out) := run_coder coder calls in
  out = delta_go (distance coder) past (consumed_input calls rets).
Proof.
  induction calls as [|k calls IH]; intros coder past Hr Hd Hn; cbn [run_coder]; [reflexivity|].
  unfold code, delta_encode at 1. rewrite Hn.
  pose proof (copy_and_encode_spec (take (Nat.min (length (cc_input k)) (cc_avail k)) (cc_input k)) coder past Hr Hd) as H.
  destruct (copy_and_encode _ _) as [c1 out1]. destruct H as (-> & Hr1 & E1 & E2).
  specialize (IH c1 _ Hr1 ltac:(lia) ltac:(congruence)).
  destruct (run_coder c1 calls) as [[c2 rets] more]. rewrite IH, E1.
  unfold consumed_input. cbn [zip_with concat snd]. rewrite delta_go_app. rewrite length_drop.
  replace (length (cc_input k) - (length (cc_input k) - Nat.min (length (cc_input k)) (cc_avail k)))%nat
    with (Nat.min (length (cc_input k)) (cc_avail k)) by lia. reflexivity.
Qed.

Lemma run_encoder_chain calls : forall coder past n,
  ring coder past -> 1 <= distance coder <= 256 -> delta_next coder = Some n ->
  let '(_, rets, out) := run_coder coder calls in
  let '(_, rets', data) := run_coder n calls in
  rets = rets' /\ out = delta_go (distance coder) past data.
Proof.
  induction calls as [|k calls IH]; intros coder past n Hr Hd Hn; cbn [run_coder]; [now split|].
  unfold code at 1, delta_encode at 1. rewrite Hn.
  destruct (code n _ _ _) as [[[ret n1] data1] rest]. rewrite encode_in_place_spec.
  pose proof (copy_and_encode_spec data1 (set_next coder (Some n1)) past (ring_next _ _ _ Hr) Hd) as H.
  destruct (copy_and_encode _ _) as [c1 out1]. destruct H as (-> & Hr1 & E1 & E2).
  cbn [distance set_next delta_next] in E1, E2. specialize (IH c1 _ n1 Hr1 ltac:(lia) E2).
  destruct (run_coder c1 calls) as [[c2 rets] more], (run_coder n1 calls) as [[n2 rets'] more'].
  destruct IH as [-> ->]. now rewrite delta_go_app, E1.
Qed.

Lemma run_decoder_chain calls : forall coder past n,
  ring coder past -> 1 <= distance coder <= 256 -> delta_next coder = Some n ->
  let '(_, rets, out) := run_coder (C := delta_decode) coder calls in
  let '(_, rets', data) := run_coder n calls in
  rets = rets' /\ out = undelta_go (distance coder) past data.
Proof.
  induction calls as [|k calls IH]; intros coder past n Hr Hd Hn; cbn [run_coder]; [now split|].
  unfold code at 1, delta_decode at 1. rewrite Hn.
  destruct (code n _ _ _) as [[[ret n1] data1] rest].
  pose proof (decode_buffer_spec data1 (set_next coder (Some n1)) past (ring_next _ _ _ Hr) Hd) as H.
  destruct (decode_buffer _ _) as [c1 out1]. destruct H as (-> & Hr1 & E1 & E2).
  cbn [distance set_next delta_next] in *. specialize (IH c1 _ n1 Hr1 ltac:(lia) E2).
  destruct (run_coder c1 calls) as [[c2 rets] more], (run_coder n1 calls) as [[n2 rets'] more'].
  destruct IH as [-> ->]. now rewrite undelta_go_app, E1.
Qed.

End Filter.

(** ** Properties *)

Section Properties.
Context {T : Type} {C : Coder T}.

(** however the data is cut into calls, the Delta encoder replaces every
    byte of the data with its difference to the byte [dist] places before it;
    the data is its input when it is the first filter of the encoder's chain and
    otherwise the output of the next coder, whose return codes it passes on. *)
Theorem delta_encode_correct old alloc type dist next_init (coder : lzma_delta_coder T) calls :
  lzma_delta_coder_init old alloc (OptDelta type dist) next_init = Ok coder ->
  let '(_, rets, out) := run_coder coder calls in
  match delta_next coder with
  | None => out = delta_spec dist (consumed_input calls rets)
  | Some n => let '(_, rets', data) := run_coder n calls in rets = rets' /\ out = delta_spec dist data
  end.
Proof.
  intros H. destruct (ring_init _ _ _ _ _ H) as (Hr & Hd & ty & [= <- E]).
  pose proof (run_encoder_first calls coder [] Hr Hd) as H1.
  pose proof (fun n => run_encoder_chain calls coder [] n Hr Hd) as H2.
  destruct (run_coder coder calls) as [[c rets] out]. rewrite E.
  destruct (delta_next coder) as [n|].
  - specialize (H2 n eq_refl). destruct (run_coder n calls) as [[n' rets'] data].
    now rewrite <- delta_go_spec by lia.
  - rewrite <- delta_go_spec by lia. now apply H1.
Qed.

(** the Delta decoder restores the data from the output of the next coder,
    if that yields what the encoder made of it, and passes on its return codes;
    the calls need not be those of the encoder. *)
Theorem delta_roundtrip old alloc type dist next_init (coder : lzma_delta_coder T) n calls data :
  lzma_delta_coder_init old alloc (OptDelta type dist) next_init = Ok coder ->
  delta_next coder = Some n -> bytes_ok data ->
  snd (run_coder n calls) = delta_spec dist data ->
  snd (run_coder (C := delta_decode) coder calls) = data /\
  snd (fst (run_coder (C := delta_decode) coder calls)) = snd (fst (run_coder n calls)).
Proof.
  intros H Hn Hb Hs. destruct (ring_init _ _ _ _ _ H) as (Hr & Hd & ty & [= <- E]).
  pose proof (run_decoder_chain calls coder [] n Hr Hd Hn) as H1.
  destruct (run_coder coder calls) as [[c rets] out], (run_coder n calls) as [[n' rets'] data'].
  cbn [fst snd] in *. destruct H1 as [-> ->]. subst data'. rewrite E, <- delta_go_spec by lia.
  now rewrite undelta_delta.
Qed.

End Properties.

Definition delta_coder_example (n : option unit) : lzma_delta_coder unit :=
  {| delta_next := n; distance := 2; pos := 0; history := replicate (Z.to_nat LZMA_DELTA_DIST_MAX) 0 |}.

Definition calls_example (data : bytes) : list coder_call :=
  [{| cc_input := take 3 data; cc_avail := 9; cc_action := LZMA_RUN |};
   {| cc_input := drop 3 data; cc_avail := 9; cc_action := LZMA_FINISH |}].

Lemma delta_encode_correct_witness :
  snd (run_coder (C := delta_encode (C := copy_code)) (delta_coder_example (Some tt))
    (calls_example [10; 20; 30; 5; 255])) = delta_spec 2 [10; 20; 30; 5; 255].
Proof.
  pose proof (delta_encode_correct (C := copy_code) None true LZMA_DELTA_TYPE_BYTE 2 (fun _ => Ok (Some tt))
    (delta_coder_example (Some tt)) (calls_example [10; 20; 30; 5; 255]) eq_refl) as H.
  destruct (run_coder (delta_coder_example (Some tt)) _) as [[c rets] out]. apply H.
Defined.

Lemma delta_roundtrip_witness :
  snd (run_coder (C := delta_decode (C := copy_code)) (delta_coder_example (Some tt))
    (calls_example (delta_spec 2 [10; 20; 30; 5; 255]))) = [10; 20; 30; 5; 255].
Proof.
  apply (delta_roundtrip (C := copy_code) None true LZMA_DELTA_TYPE_BYTE 2 (fun _ => Ok (Some tt))
    (delta_coder_example (Some tt)) tt _ [10; 20; 30; 5; 255]); [reflexivity|reflexivity|bytes_ok_tac|reflexivity].
Defined.
