(* ===== verification/Bcj.v ===== *)
(** * Branch/Call/Jump filters: ARM, ARM-Thumb, ARM64, PowerPC, SPARC

    [lib/archive/xz/src/liblzma/simple]: the conversion functions of [arm.c],
    [armthumb.c], [arm64.c], [powerpc.c] and [sparc.c].  They turn the relative
    targets of branch instructions into absolute ones and back, in place.  The
    typeclass [SimpleFilter] is the [filter] function of [lzma_simple_coder];
    [FilterLaws] is what the generic coder of [simple_coder.c] relies on. *)

From S2P Require Import Prelude.

(** ** Interface *)

(** [filter simple now_pos is_encoder buffer] gives the state [simple], the
    buffer that was changed in place and how many of its bytes are final. *)
Class SimpleFilter (T : Type) :=
  filter : T -> Z -> bool -> bytes -> T * bytes * nat.

(** What the coder is told about a filter in [lzma_simple_coder_init]. *)
Class FilterParams (T : Type) := {
  unfiltered_max : nat;
  alignment : Z;
}.

(** The state of a filter in use, the position and the number of bytes for
    which the laws hold. *)
Class FilterLaws (T : Type) {F : SimpleFilter T} {P : FilterParams T} := {
  filter_inv : T -> Z -> Prop;
  size_ok : nat -> Prop;
  size_ok_le n m : (n <= m)%nat -> size_ok m -> size_ok n;
  filter_nil simple now_pos enc : filter simple now_pos enc [] = (simple, [], 0%nat);
  (** The buffer keeps its size, its bytes are bytes, at most
      [unfiltered_max - 1] bytes are not filtered and those are left alone. *)
  filter_frame simple now_pos enc buffer : bytes_ok buffer ->
    let '(_, out, n) := filter simple now_pos enc buffer in
    length out = length buffer /\ bytes_ok out /\ (n <= length buffer < n + unfiltered_max)%nat /\
    drop n out = drop n buffer;
  (** The state is kept well-formed. *)
  filter_keeps simple now_pos enc buffer :
    filter_inv simple now_pos -> bytes_ok buffer -> size_ok (length buffer) ->
    let '(simple', _, n) := filter simple now_pos enc buffer in
    filter_inv simple' (u32 (now_pos + Z.of_nat n));
  (** More data does not change what was final; the filter can go on from
      there. *)
  filter_app simple now_pos enc a b :
    filter_inv simple now_pos -> bytes_ok (a ++ b) -> size_ok (length (a ++ b)) ->
    let '(simple1, a', n) := filter simple now_pos enc a in
    let '(simple2, c, m) := filter simple1 (u32 (now_pos + Z.of_nat n)) enc (drop n a ++ b) in
    filter simple now_pos enc (a ++ b) = (simple2, take n a' ++ c, (n + m)%nat);
  (** Decoding reverts encoding. *)
  filter_roundtrip simple now_pos buffer :
    filter_inv simple now_pos -> bytes_ok buffer -> size_ok (length buffer) ->
    let '(simple1, out, n) := filter simple now_pos true buffer in
    filter simple now_pos false out = (simple1, buffer, n);
}.

(** ** The conversion of one instruction

    Each function gets the address [now_pos + i] of the instruction as a 32-bit
    integer and the bytes from [buffer + i] on. *)

(** [dest] of most filters; [add] is the distance of the base of the relative
    target from the instruction. *)
Definition convert (is_encoder : bool) (pc add src : Z) : Z :=
  if is_encoder then u32 (pc + add + src) else u32 (src - u32 (pc + add)).

Definition arm_instr (is_encoder : bool) (pc b0 b1 b2 b3 : Z) : bytes :=
  if b3 =? 0xEB then
    let src := Z.lor (Z.lor (Z.shiftl b2 16) (Z.shiftl b1 8)) b0 in
    let src := u32 (Z.shiftl src 2) in
    let dest := Z.shiftr (convert is_encoder pc 8 src) 2 in
    [u8 dest; u8 (Z.shiftr dest 8); u8 (Z.shiftr dest 16); b3]
  else [b0; b1; b2; b3].

Definition armthumb_match (b1 b3 : Z) : bool :=
  (Z.land b1 0xF8 =? 0xF0) && (Z.land b3 0xF8 =? 0xF8).

Definition armthumb_instr (is_encoder : bool) (pc b0 b1 b2 b3 : Z) : bytes :=
  let src := Z.lor (Z.lor (Z.lor (Z.shiftl (Z.land b1 7) 19) (Z.shiftl b0 11))
                          (Z.shiftl (Z.land b3 7) 8)) b2 in
  let src := u32 (Z.shiftl src 1) in
  let dest := Z.shiftr (convert is_encoder pc 4 src) 1 in
  [u8 (Z.shiftr dest 11); Z.lor 0xF0 (Z.land (Z.shiftr dest 19) 0x7);
   u8 dest; Z.lor 0xF8 (Z.land (Z.shiftr dest 8) 0x7)].

Definition powerpc_instr (is_encoder : bool) (pc b0 b1 b2 b3 : Z) : bytes :=
  if (Z.shiftr b0 2 =? 0x12) && (Z.land b3 3 =? 1) then
    let src := Z.lor (Z.lor (Z.lor (Z.shiftl (Z.land b0 3) 24) (Z.shiftl b1 16)) (Z.shiftl b2 8))
                     (Z.land b3 (Z.lnot 3)) in
    let dest := convert is_encoder pc 0 src in
    [Z.lor 0x48 (Z.land (Z.shiftr dest 24) 0x03); u8 (Z.shiftr dest 16); u8 (Z.shiftr dest 8);
     u8 (Z.lor (Z.land b3 0x03) dest)]
  else [b0; b1; b2; b3].

Definition sparc_instr (is_encoder : bool) (pc b0 b1 b2 b3 : Z) : bytes :=
  if ((b0 =? 0x40) && (Z.land b1 0xC0 =? 0x00)) || ((b0 =? 0x7F) && (Z.land b1 0xC0 =? 0xC0)) then
    let src := Z.lor (Z.lor (Z.lor (Z.shiftl b0 24) (Z.shiftl b1 16)) (Z.shiftl b2 8)) b3 in
    let src := u32 (Z.shiftl src 2) in
    let dest := Z.shiftr (convert is_encoder pc 0 src) 2 in
    let dest := Z.lor (Z.lor (Z.land (u32 (Z.shiftl (u32 (0 - Z.land (Z.shiftr dest 22) 1)) 22)) 0x3FFFFFFF)
                             (Z.land dest 0x3FFFFF)) 0x40000000 in
    [u8 (Z.shiftr dest 24); u8 (Z.shiftr dest 16); u8 (Z.shiftr dest 8); u8 dest]
  else [b0; b1; b2; b3].

(** The address as it is added: [0U - pc] when decoding. *)
Definition arm64_pc (is_encoder : bool) (pc : Z) : Z := if is_encoder then pc else u32 (0 - pc).

Definition arm64_word (is_encoder : bool) (pc instr : Z) : Z :=
  if Z.shiftr instr 26 =? 0x25 then
    Z.lor 0x94000000 (Z.land (u32 (instr + arm64_pc is_encoder (Z.shiftr pc 2))) 0x03FFFFFF)
  else if Z.land instr 0x9F000000 =? 0x90000000 then
    let src := Z.lor (Z.land (Z.shiftr instr 29) 3) (Z.land (Z.shiftr instr 3) 0x001FFFFC) in
    if negb (Z.land (u32 (src + 0x00020000)) 0x001C0000 =? 0) then instr
    else
      let instr := Z.land instr 0x9000001F in
      let dest := u32 (src + arm64_pc is_encoder (Z.shiftr pc 12)) in
      let instr := Z.lor instr (u32 (Z.shiftl (Z.land dest 3) 29)) in
      let instr := Z.lor instr (u32 (Z.shiftl (Z.land dest 0x0003FFFC) 3)) in
      Z.lor instr (Z.land (u32 (0 - Z.land dest 0x00020000)) 0x00E00000)
  else instr.

Definition arm64_instr (is_encoder : bool) (pc b0 b1 b2 b3 : Z) : bytes :=
  write32le (arm64_word is_encoder pc (read32le [b0; b1; b2; b3])).

(** ** The loops *)

Definition instruction := bool -> Z -> Z -> Z -> Z -> Z -> bytes.

(** [for (i = 0; i < size; i += 4)] where [size] is a multiple of four: the
    bytes after the last complete instruction are not touched. *)
Fixpoint words_loop (f : instruction) (is_encoder : bool) (now_pos i : Z) (buffer : bytes) : bytes :=
  match buffer with
  | b0 :: b1 :: b2 :: b3 :: rest =>
      f is_encoder (u32 (now_pos + u32 i)) b0 b1 b2 b3 ++ words_loop f is_encoder now_pos (i + 4) rest
  | _ => buffer
  end.

(** A filter that has no state and handles one word after the other. *)
Definition words_code (f : instruction) (simple : unit) (now_pos : Z) (is_encoder : bool) (buffer : bytes)
    : unit * bytes * nat :=
  let size := Z.to_nat (Z.land (zlen buffer) (Z.lnot 3)) in
  (simple, words_loop f is_encoder now_pos 0 buffer, size).

Definition arm_code : SimpleFilter unit := words_code arm_instr.
Definition arm64_code : SimpleFilter unit := words_code arm64_instr.
Definition powerpc_code : SimpleFilter unit := words_code powerpc_instr.
Definition sparc_code : SimpleFilter unit := words_code sparc_instr.

(** The index moves by two, or by four behind a converted instruction; the loop
    ends when fewer than four bytes are left. *)
Fixpoint armthumb_loop (is_encoder : bool) (now_pos : Z) (i : nat) (buffer : bytes) : bytes * nat :=
  match buffer with
  | b0 :: b1 :: tl =>
      match tl with
      | b2 :: b3 :: rest =>
          if armthumb_match b1 b3 then
            let '(out, j) := armthumb_loop is_encoder now_pos (i + 4) rest in
            (armthumb_instr is_encoder (u32 (now_pos + u32 (Z.of_nat i))) b0 b1 b2 b3 ++ out, j)
          else
            let '(out, j) := armthumb_loop is_encoder now_pos (i + 2) tl in (b0 :: b1 :: out, j)
      | _ => (buffer, i)
      end
  | _ => (buffer, i)
  end.

Definition armthumb_code : SimpleFilter unit := fun simple now_pos is_encoder buffer =>
  let '(out, i) := armthumb_loop is_encoder now_pos 0 buffer in (simple, out, i).

Example arm_ex :
  arm_code tt 0x8000 true [0x10; 0x00; 0x00; 0xEB; 1; 2; 3] = (tt, [0x12; 0x20; 0x00; 0xEB; 1; 2; 3], 4%nat).
Proof. vm_compute. reflexivity. Qed.

(** ** Lemmas: targets *)

Section Targets.

(** The field [y] of a multiple of [2 ^ k]. *)
Lemma field_of k w x y :
  0 <= k -> 0 <= w -> k + w <= 32 -> x = 2 ^ k * y -> u32 x / 2 ^ k mod 2 ^ w = y mod 2 ^ w.
Proof.
  intros Hk Hw Hkw ->. unfold u32. change 4294967296 with (2 ^ 32).
  replace 32 with (k + (32 - k)) by lia. rewrite Z.pow_add_r by lia.
  rewrite Z.mul_mod_distr_l by (apply Z.pow_nonzero; lia).
  rewrite Z.mul_comm, Z.div_mul by (apply Z.pow_nonzero; lia).
  apply Z.mod_mod_divide.
  exists (2 ^ (32 - k - w)). rewrite <- Z.pow_add_r by lia. f_equal. lia.
Qed.

(** The target of a branch as a [w]-bit field in units of [2 ^ k] bytes. *)
Lemma convert_encode k w pc add s :
  0 <= k -> 0 <= w -> k + w <= 32 -> (pc + add) mod 2 ^ k = 0 ->
  convert true pc add (s * 2 ^ k) / 2 ^ k mod 2 ^ w = (s + (pc + add) / 2 ^ k) mod 2 ^ w.
Proof.
  intros Hk Hw Hkw Ha. unfold convert. apply field_of; try assumption.
  pose proof (Z.div_mod (pc + add) (2 ^ k) ltac:(apply Z.pow_nonzero; lia)). nia.
Qed.

Lemma convert_decode k w pc add s :
  0 <= k -> 0 <= w -> k + w <= 32 -> (pc + add) mod 2 ^ k = 0 ->
  convert false pc add (s * 2 ^ k) / 2 ^ k mod 2 ^ w = (s - (pc + add) / 2 ^ k) mod 2 ^ w.
Proof.
  intros Hk Hw Hkw Ha. unfold convert.
  assert (u32 (s * 2 ^ k - u32 (pc + add)) = u32 (s * 2 ^ k - (pc + add))) as ->.
  { unfold u32. now rewrite Zminus_mod_idemp_r. }
  apply field_of; try assumption.
  pose proof (Z.div_mod (pc + add) (2 ^ k) ltac:(apply Z.pow_nonzero; lia)). nia.
Qed.

Lemma convert_roundtrip k w pc add s :
  0 <= k -> 0 <= w -> k + w <= 32 -> (pc + add) mod 2 ^ k = 0 -> 0 <= s < 2 ^ w ->
  convert false pc add (convert true pc add (s * 2 ^ k) / 2 ^ k mod 2 ^ w * 2 ^ k) / 2 ^ k mod 2 ^ w = s.
Proof.
  intros Hk Hw Hkw Ha Hs. rewrite convert_decode, convert_encode by assumption.
  rewrite Zminus_mod_idemp_l. replace (s + _ - _) with s by lia. now apply Z.mod_small.
Qed.

End Targets.

(** ** Lemmas: one instruction *)

(** Four bytes become four bytes. *)
Definition four_bytes (f : instruction) : Prop :=
  forall enc pc b0 b1 b2 b3, bytes_ok [b0; b1; b2; b3] ->
  exists c0 c1 c2 c3, f enc pc b0 b1 b2 b3 = [c0; c1; c2; c3] /\ bytes_ok [c0; c1; c2; c3].

(** At an address that is a multiple of [2 ^ k] decoding reverts encoding. *)
Definition reversible (k : Z) (f : instruction) : Prop :=
  forall pc b0 b1 b2 b3, pc mod 2 ^ k = 0 -> bytes_ok [b0; b1; b2; b3] ->
  forall c0 c1 c2 c3, f true pc b0 b1 b2 b3 = [c0; c1; c2; c3] ->
  f false pc c0 c1 c2 c3 = [b0; b1; b2; b3].

Ltac four_tac H := do 4 eexists; split; [reflexivity|]; repeat (apply Forall_cons_2; [|]); try apply Forall_nil_2;
  try apply is_byte_u8; auto.

Section Instructions.

(** The bytes of a 24-bit field. *)
Lemma split24 d b0 b1 b2 :
  0 <= b0 < 256 -> 0 <= b1 < 256 -> 0 <= b2 < 256 ->
  d mod 2 ^ 24 = b0 + 256 * b1 + 65536 * b2 ->
  u8 d = b0 /\ u8 (d / 2 ^ 8) = b1 /\ u8 (d / 2 ^ 16) = b2.
Proof.
  unfold u8. change (2 ^ 8) with 256; change (2 ^ 16) with 65536; change (2 ^ 24) with 16777216. dlia.
Qed.

Lemma join24 d : u8 d + 256 * u8 (d / 2 ^ 8) + 65536 * u8 (d / 2 ^ 16) = d mod 2 ^ 24.
Proof.
  unfold u8. change (2 ^ 8) with 256; change (2 ^ 16) with 65536; change (2 ^ 24) with 16777216. dlia.
Qed.

Lemma arm_four : four_bytes arm_instr.
Proof.
  intros enc pc b0 b1 b2 b3 H. pose proof H as H'. repeat (apply Forall_cons in H' as [? H']).
  unfold arm_instr. case_if; four_tac H.
Qed.

Lemma arm_reversible : reversible 2 arm_instr.
Proof.
  intros pc b0 b1 b2 b3 Ha H c0 c1 c2 c3. repeat (apply Forall_cons in H as [? H]). clear H.
  unfold arm_instr. destruct (Z.eqb_spec b3 0xEB) as [->|Hn].
  2: { intros [= <- <- <- <-]. now rewrite (proj2 (Z.eqb_neq b3 0xEB) Hn). }
  unfold is_byte in *.
  assert (forall b0 b1 b2, 0 <= b0 < 256 -> 0 <= b1 < 256 -> 0 <= b2 < 256 ->
    u32 (Z.shiftl (Z.lor (Z.lor (Z.shiftl b2 16) (Z.shiftl b1 8)) b0) 2) = (b0 + 256 * b1 + 65536 * b2) * 2 ^ 2) as Hsrc.
  { intros x y z Hx Hy Hz. rewrite !Z.shiftl_mul_pow2 by lia.
    rewrite (lor_shifted 16 z (y * 2 ^ 8)) by lia.
    replace (z * 2 ^ 16 + y * 2 ^ 8) with ((z * 256 + y) * 2 ^ 8) by lia. rewrite (lor_shifted 8) by lia.
    rewrite u32_small by (unfold is_u32; lia). lia. }
  rewrite !Hsrc by assumption. rewrite !Z.shiftr_div_pow2 by lia.
  set (s := b0 + 256 * b1 + 65536 * b2). assert (0 <= s < 2 ^ 24) as Hs by (subst s; lia).
  pose proof (convert_roundtrip 2 24 pc 8 s ltac:(lia) ltac:(lia) ltac:(lia) ltac:(change (2 ^ 2) with 4 in *; dlia) Hs) as Hr.
  set (d := convert true pc 8 (s * 2 ^ 2) / 2 ^ 2) in *. intros E. injection E as <- <- <- <-.
  rewrite Z.eqb_refl. rewrite Hsrc by apply u8_range.
  rewrite join24.
  set (e := convert false pc 8 (d mod 2 ^ 24 * 2 ^ 2) / 2 ^ 2) in *.
  now destruct (split24 e b0 b1 b2) as (-> & -> & ->).
Qed.

(** Bit fields of a byte, decided by running through the values. *)
Lemma byte_fields b : is_byte b ->
  Z.land b 7 = b mod 8 /\ Z.land b 3 = b mod 4 /\ Z.land b (Z.lnot 3) = b / 4 * 4 /\
  (Z.land b 0xF8 = 0xF0 -> b = 0xF0 + b mod 8) /\ (Z.land b 0xF8 = 0xF8 -> b = 0xF8 + b mod 8) /\
  (Z.shiftr b 2 = 0x12 -> b = 0x48 + b mod 4) /\ (Z.land b 0xC0 = 0 -> b < 64) /\
  (Z.land b 0xC0 = 0xC0 -> 192 <= b).
Proof.
  intros Hb. pose proof (byte_sweep (fun b =>
    (Z.land b 7 =? b mod 8) && (Z.land b 3 =? b mod 4) && (Z.land b (Z.lnot 3) =? b / 4 * 4) &&
    implb (Z.land b 0xF8 =? 0xF0) (b =? 0xF0 + b mod 8) && implb (Z.land b 0xF8 =? 0xF8) (b =? 0xF8 + b mod 8) &&
    implb (Z.shiftr b 2 =? 0x12) (b =? 0x48 + b mod 4) && implb (Z.land b 0xC0 =? 0) (b <? 64) &&
    implb (Z.land b 0xC0 =? 0xC0) (192 <=? b)) eq_refl b Hb) as H. cbv beta in H.
  rewrite !andb_true_iff in H. destruct H as [[[[[[[H1 H2] H3] H4] H5] H6] H7] H8].
  apply Z.eqb_eq in H1, H2, H3. split_and!; try assumption; intros E.
  all: match goal with |- ?g => idtac end.
  - rewrite E in H4. cbn in H4. lia.
  - rewrite E in H5. cbn in H5. lia.
  - rewrite E in H6. cbn in H6. lia.
  - rewrite E in H7. cbn in H7. lia.
  - rewrite E in H8. cbn in H8. lia.
Qed.

Lemma lor_land7 x : Z.lor 0xF0 (Z.land x 7) = 0xF0 + x mod 8 /\ Z.lor 0xF8 (Z.land x 7) = 0xF8 + x mod 8.
Proof.
  change 7 with (2 ^ 3 - 1). rewrite land_low by lia. pose proof (Z.mod_pos_bound x (2 ^ 3) ltac:(lia)).
  change 0xF0 with (30 * 2 ^ 3). change 0xF8 with (31 * 2 ^ 3).
  rewrite !lor_shifted by lia. split; reflexivity.
Qed.

Lemma armthumb_src b0 b1 b2 b3 :
  bytes_ok [b0; b1; b2; b3] ->
  u32 (Z.shiftl (Z.lor (Z.lor (Z.lor (Z.shiftl (Z.land b1 7) 19) (Z.shiftl b0 11))
    (Z.shiftl (Z.land b3 7) 8)) b2) 1) = (b1 mod 8 * 524288 + b0 * 2048 + b3 mod 8 * 256 + b2) * 2 ^ 1.
Proof.
  intros H. repeat (apply Forall_cons in H as [? H]). clear H.
  destruct (byte_fields b1 ltac:(assumption)) as [-> _]. destruct (byte_fields b3 ltac:(assumption)) as [-> _].
  unfold is_byte in *. rewrite !Z.shiftl_mul_pow2 by lia.
  pose proof (Z.mod_pos_bound b1 8 ltac:(lia)). pose proof (Z.mod_pos_bound b3 8 ltac:(lia)).
  rewrite (lor_shifted 19 (b1 mod 8) (b0 * 2 ^ 11)) by lia.
  replace (b1 mod 8 * 2 ^ 19 + b0 * 2 ^ 11) with ((b1 mod 8 * 256 + b0) * 2 ^ 11) by lia.
  rewrite (lor_shifted 11) by lia.
  replace ((b1 mod 8 * 256 + b0) * 2 ^ 11 + b3 mod 8 * 2 ^ 8)
    with (((b1 mod 8 * 256 + b0) * 8 + b3 mod 8) * 2 ^ 8) by lia.
  rewrite (lor_shifted 8) by lia. rewrite u32_small by (unfold is_u32; lia). lia.
Qed.

Lemma armthumb_four enc pc b0 b1 b2 b3 :
  exists c0 c1 c2 c3, armthumb_instr enc pc b0 b1 b2 b3 = [c0; c1; c2; c3] /\ bytes_ok [c0; c1; c2; c3] /\
  armthumb_match c1 c3 = true.
Proof.
  unfold armthumb_instr, armthumb_match.
  match goal with |- context [Z.shiftr ?d 19] => generalize d end. intros d.
  destruct (lor_land7 (Z.shiftr d 19)) as [-> _]. destruct (lor_land7 (Z.shiftr d 8)) as [_ ->].
  pose proof (Z.mod_pos_bound (Z.shiftr d 19) 8 ltac:(lia)). pose proof (Z.mod_pos_bound (Z.shiftr d 8) 8 ltac:(lia)).
  do 4 eexists. split; [reflexivity|]. split.
  - repeat (apply Forall_cons_2); try apply is_byte_u8; try apply Forall_nil_2; unfold is_byte; lia.
  - change 0xF8 with (Z.land 255 (Z.lnot (2 ^ 3 - 1))) at 1. apply andb_true_iff.
    assert (forall m, 0 <= m < 8 -> (Z.land (240 + m) 0xF8 =? 0xF0) = true /\ (Z.land (248 + m) 0xF8 =? 0xF8) = true) as Hm.
    { intros m Hm. assert (m = 0 \/ m = 1 \/ m = 2 \/ m = 3 \/ m = 4 \/ m = 5 \/ m = 6 \/ m = 7) as D by lia.
      destruct_or! D; subst m; split; reflexivity. }
    split; apply Hm; assumption.
Qed.

Lemma armthumb_reversible pc b0 b1 b2 b3 c0 c1 c2 c3 :
  pc mod 2 ^ 1 = 0 -> bytes_ok [b0; b1; b2; b3] -> armthumb_match b1 b3 = true ->
  armthumb_instr true pc b0 b1 b2 b3 = [c0; c1; c2; c3] ->
  armthumb_instr false pc c0 c1 c2 c3 = [b0; b1; b2; b3].
Proof.
  intros Ha H Hm E. destruct (armthumb_four true pc b0 b1 b2 b3) as (d0 & d1 & d2 & d3 & E' & Hd & _).
  assert (bytes_ok [c0; c1; c2; c3]) as Hc by congruence. clear d0 d1 d2 d3 E' Hd.
  unfold armthumb_instr in E |- *. rewrite armthumb_src in E |- * by assumption.
  rewrite !Z.shiftr_div_pow2 in E |- * by lia.
  set (s := b1 mod 8 * 524288 + b0 * 2048 + b3 mod 8 * 256 + b2) in *.
  unfold armthumb_match in Hm. b2p. repeat (apply Forall_cons in H as [? H]). clear H.
  destruct (byte_fields b1 ltac:(assumption)) as (_ & _ & _ & F1 & _).
  destruct (byte_fields b3 ltac:(assumption)) as (_ & _ & _ & _ & F3 & _).
  specialize (F1 ltac:(assumption)). specialize (F3 ltac:(assumption)). unfold is_byte in *.
  pose proof (Z.mod_pos_bound b1 8 ltac:(lia)). pose proof (Z.mod_pos_bound b3 8 ltac:(lia)).
  pose proof (convert_roundtrip 1 22 pc 4 s ltac:(lia) ltac:(lia) ltac:(lia)
    ltac:(change (2 ^ 1) with 2 in *; dlia) ltac:(subst s; lia)) as Hr.
  set (d := convert true pc 4 (s * 2 ^ 1) / 2 ^ 1) in *.
  destruct (lor_land7 (d / 2 ^ 19)) as [L1 _]. destruct (lor_land7 (d / 2 ^ 8)) as [_ L3].
  rewrite L1, L3 in E. injection E as <- <- <- <-.
  set (s' := (240 + (d / 2 ^ 19) mod 8) mod 8 * 524288 + u8 (d / 2 ^ 11) * 2048 +
    (248 + (d / 2 ^ 8) mod 8) mod 8 * 256 + u8 d).
  assert (s' = d mod 2 ^ 22) as ->.
  { subst s'. unfold u8. clearbody d. clear.
    change (2 ^ 19) with 524288. change (2 ^ 11) with 2048. change (2 ^ 8) with 256. change (2 ^ 22) with 4194304. dlia. }
  set (e := convert false pc 4 (d mod 2 ^ 22 * 2 ^ 1) / 2 ^ 1) in *.
  destruct (lor_land7 (e / 2 ^ 19)) as [-> _]. destruct (lor_land7 (e / 2 ^ 8)) as [_ ->].
  clearbody e. subst s. unfold u8. clear - Hr F1 F3 H0 H1 H3 H5 H4 H2 H6.
  change (2 ^ 19) with 524288. change (2 ^ 11) with 2048. change (2 ^ 8) with 256. change (2 ^ 22) with 4194304 in *.
  repeat f_equal; dlia.
Qed.

(** The target keeps the alignment. *)
Lemma convert_aligned enc k pc s :
  0 <= k <= 32 -> pc mod 2 ^ k = 0 -> convert enc pc 0 (s * 2 ^ k) mod 2 ^ k = 0.
Proof.
  intros Hk Ha.
  assert (forall x, u32 x mod 2 ^ k = x mod 2 ^ k) as Hu.
  { intros x. unfold u32. change 4294967296 with (2 ^ 32). apply Z.mod_mod_divide.
    exists (2 ^ (32 - k)). rewrite <- Z.pow_add_r by lia. f_equal. lia. }
  unfold convert. destruct enc; rewrite Hu, Z.add_0_r.
  - rewrite Zplus_mod, Ha, Z.mod_mul by (apply Z.pow_nonzero; lia). reflexivity.
  - rewrite Zminus_mod, Hu, Ha, Z.mod_mul by (apply Z.pow_nonzero; lia). reflexivity.
Qed.

Lemma powerpc_src b0 b1 b2 b3 :
  bytes_ok [b0; b1; b2; b3] ->
  Z.lor (Z.lor (Z.lor (Z.shiftl (Z.land b0 3) 24) (Z.shiftl b1 16)) (Z.shiftl b2 8)) (Z.land b3 (Z.lnot 3)) =
  (b0 mod 4 * 4194304 + b1 * 16384 + b2 * 64 + b3 / 4) * 2 ^ 2.
Proof.
  intros H. repeat (apply Forall_cons in H as [? H]). clear H.
  destruct (byte_fields b0 ltac:(assumption)) as (_ & -> & _). destruct (byte_fields b3 ltac:(assumption)) as (_ & _ & -> & _).
  unfold is_byte in *. rewrite !Z.shiftl_mul_pow2 by lia. pose proof (Z.mod_pos_bound b0 4 ltac:(lia)).
  assert (0 <= b3 / 4 * 4 < 256) by dlia.
  rewrite (lor_shifted 24) by lia.
  replace (b0 mod 4 * 2 ^ 24 + b1 * 2 ^ 16) with ((b0 mod 4 * 256 + b1) * 2 ^ 16) by lia.
  rewrite (lor_shifted 16) by lia.
  replace ((b0 mod 4 * 256 + b1) * 2 ^ 16 + b2 * 2 ^ 8)
    with (((b0 mod 4 * 256 + b1) * 256 + b2) * 2 ^ 8) by lia.
  rewrite (lor_shifted 8) by lia. lia.
Qed.

Lemma lor_land3 x : Z.lor 0x48 (Z.land x 0x03) = 0x48 + x mod 4.
Proof.
  change 3 with (2 ^ 2 - 1). rewrite land_low by lia. pose proof (Z.mod_pos_bound x (2 ^ 2) ltac:(lia)).
  change 0x48 with (18 * 2 ^ 2). rewrite lor_shifted by lia. reflexivity.
Qed.

Lemma powerpc_four : four_bytes powerpc_instr.
Proof.
  intros enc pc b0 b1 b2 b3 H. unfold powerpc_instr. case_if.
  - repeat (apply Forall_cons in H as [? H]). rewrite lor_land3.
    match goal with |- context [convert ?e ?p ?k ?x] => generalize (convert e p k x) end. intros d.
    do 4 eexists. split; [reflexivity|].
    repeat (apply Forall_cons_2); try apply is_byte_u8; try apply Forall_nil_2.
    pose proof (Z.mod_pos_bound (Z.shiftr d 24) 4 ltac:(lia)). unfold is_byte. lia.
  - do 4 eexists. split; [reflexivity|exact H].
Qed.

Lemma powerpc_word d m :
  d mod 4 = 0 -> 0 <= m < 4 ->
  d / 4 mod 16777216 =
  (72 + (d / 16777216) mod 4) mod 4 * 4194304 + u8 (d / 65536) * 16384 + u8 (d / 256) * 64 + u8 (m + d) / 4.
Proof.
  intros Hd Hm. unfold u8.
  assert ((m + d) mod 256 / 4 = (d / 4) mod 64) as -> by dlia.
  replace (d / 16777216) with (d / 4 / 4194304) by dlia. replace (d / 65536) with (d / 4 / 16384) by dlia.
  replace (d / 256) with (d / 4 / 64) by dlia. generalize (d / 4). clear. intros q. dlia.
Qed.

Lemma powerpc_bytes e m0 b1 b2 b3 :
  e mod 4 = 0 -> 0 <= m0 < 4 -> 0 <= b1 < 256 -> 0 <= b2 < 256 -> 0 <= b3 < 256 ->
  e / 4 mod 16777216 = m0 * 4194304 + b1 * 16384 + b2 * 64 + b3 / 4 ->
  (e / 16777216) mod 4 = m0 /\ u8 (e / 65536) = b1 /\ u8 (e / 256) = b2 /\ u8 (b3 mod 4 + e) = b3.
Proof.
  intros Hd Hm H1 H2 H3 H. unfold u8.
  replace (e / 16777216) with (e / 4 / 4194304) by dlia. replace (e / 65536) with (e / 4 / 16384) by dlia.
  replace (e / 256) with (e / 4 / 64) by dlia.
  assert ((b3 mod 4 + e) mod 256 = b3 mod 4 + 4 * ((e / 4) mod 64)) as -> by dlia.
  generalize dependent (e / 4). clear e Hd. intros q Hq. assert (0 <= b3 / 4 < 64) by dlia.
  pose proof (Z.div_mod b3 4 ltac:(lia)). generalize dependent (b3 / 4). intros t Ht1 Ht2 Ht.
  split_and!; dlia.
Qed.

Lemma powerpc_reversible : reversible 2 powerpc_instr.
Proof.
  intros pc b0 b1 b2 b3 Ha H c0 c1 c2 c3 E.
  assert (bytes_ok [c0; c1; c2; c3]) as Hc.
  { destruct (powerpc_four true pc b0 b1 b2 b3 H) as (? & ? & ? & ? & E' & Hc). congruence. }
  unfold powerpc_instr in E. destruct (_ && _) eqn:Hm.
  2: { injection E as <- <- <- <-. unfold powerpc_instr. now rewrite Hm. }
  b2p. rewrite powerpc_src in E by assumption. unfold powerpc_instr. rewrite (powerpc_src c0 c1 c2 c3) by assumption.
  apply Forall_cons in H as [B0 H]. apply Forall_cons in H as [B1 H]. apply Forall_cons in H as [B2 H].
  apply Forall_cons in H as [B3 _].
  destruct (byte_fields b0 ltac:(assumption)) as (_ & _ & _ & _ & _ & F0 & _). specialize (F0 ltac:(assumption)).
  destruct (byte_fields b3 ltac:(assumption)) as (_ & F3 & _). rewrite F3 in *.
  set (s := b0 mod 4 * 4194304 + b1 * 16384 + b2 * 64 + b3 / 4) in *. unfold is_byte in *.
  pose proof (Z.mod_pos_bound b0 4 ltac:(lia)) as M0. pose proof (Z.mod_pos_bound b3 4 ltac:(lia)) as M3.
  assert (0 <= s < 2 ^ 24) as Hs by (subst s; dlia).
  pose proof (convert_roundtrip 2 24 pc 0 s ltac:(lia) ltac:(lia) ltac:(lia) ltac:(rewrite Z.add_0_r; exact Ha) Hs) as Hr.
  pose proof (convert_aligned true 2 pc s ltac:(lia) Ha) as Hal.
  set (d := convert true pc 0 (s * 2 ^ 2)) in *.
  assert (forall m d, 0 <= m < 4 -> d mod 4 = 0 -> Z.lor m d = m + d) as Hlor.
  { intros m x Hm Hx. replace x with (x / 4 * 2 ^ 2) by (change (2 ^ 2) with 4; dlia).
    rewrite lor_shifted_l by lia. lia. }
  rewrite lor_land3, Hlor in E by assumption. rewrite !Z.shiftr_div_pow2 in E by lia.
  injection E as <- <- <- <-.
  rewrite !Z.shiftr_div_pow2 by lia. rewrite (proj1 (proj2 (byte_fields (u8 _) ltac:(auto)))).
  replace ((72 + (d / 2 ^ 24) mod 4) / 2 ^ 2 =? 18) with true
    by (symmetry; apply Z.eqb_eq; change (2 ^ 2) with 4; clear; dlia).
  change (2 ^ 2) with 4 in *. change (2 ^ 24) with 16777216 in *.
  change (2 ^ 16) with 65536. change (2 ^ 8) with 256.
  replace (u8 (b3 mod 4 + d) mod 4) with (b3 mod 4) by (unfold u8; clear - Hal; dlia).
  replace (b3 mod 4 =? 1) with true by (symmetry; apply Z.eqb_eq; lia). cbn [andb]. cbv iota.
  replace ((72 + (d / 16777216) mod 4) mod 4 * 4194304 + u8 (d / 65536) * 16384 + u8 (d / 256) * 64 +
    u8 (b3 mod 4 + d) / 4) with (d / 4 mod 16777216) by (apply powerpc_word; assumption).
  pose proof (convert_aligned false 2 pc (d / 4 mod 16777216) ltac:(lia) Ha) as Hal2.
  change (2 ^ 2) with 4 in Hal2.
  set (e := convert false pc 0 (d / 4 mod 16777216 * 4)) in *. clearbody e.
  rewrite lor_land3, Hlor by assumption.
  destruct (powerpc_bytes e (b0 mod 4) b1 b2 b3) as (E0 & E1 & E2 & E3); try assumption.
  rewrite E0, E1, E2, E3, <- F0. reflexivity.
Qed.

(** The word of a SPARC call with the 23-bit signed displacement [t]. *)
Definition sparc_word (t : Z) : Z :=
  0x40000000 + (if t / 4194304 =? 0 then 0 else 0x3FC00000) + t mod 4194304.

Definition be_bytes (w : Z) : bytes :=
  [u8 (Z.shiftr w 24); u8 (Z.shiftr w 16); u8 (Z.shiftr w 8); u8 w].

Definition sparc_match (b0 b1 : Z) : bool :=
  ((b0 =? 0x40) && (Z.land b1 0xC0 =? 0x00)) || ((b0 =? 0x7F) && (Z.land b1 0xC0 =? 0xC0)).

Lemma sparc_src b0 b1 b2 b3 :
  bytes_ok [b0; b1; b2; b3] ->
  Z.lor (Z.lor (Z.lor (Z.shiftl b0 24) (Z.shiftl b1 16)) (Z.shiftl b2 8)) b3 =
  b0 * 16777216 + b1 * 65536 + b2 * 256 + b3.
Proof.
  intros H. repeat (apply Forall_cons in H as [? H]). clear H. unfold is_byte in *.
  rewrite !Z.shiftl_mul_pow2 by lia. rewrite (lor_shifted 24) by lia.
  replace (b0 * 2 ^ 24 + b1 * 2 ^ 16) with ((b0 * 256 + b1) * 2 ^ 16) by lia. rewrite (lor_shifted 16) by lia.
  replace ((b0 * 256 + b1) * 2 ^ 16 + b2 * 2 ^ 8) with (((b0 * 256 + b1) * 256 + b2) * 2 ^ 8) by lia.
  rewrite (lor_shifted 8) by lia. lia.
Qed.

(** The sign bit is copied to the bits above it. *)
Lemma sparc_dest d :
  0 <= d < 1073741824 ->
  Z.lor (Z.lor (Z.land (u32 (Z.shiftl (u32 (0 - Z.land (Z.shiftr d 22) 1)) 22)) 0x3FFFFFFF)
    (Z.land d 0x3FFFFF)) 0x40000000 = sparc_word (d mod 2 ^ 23).
Proof.
  intros Hd. unfold sparc_word.
  assert (Z.land (Z.shiftr d 22) 1 = d mod 2 ^ 23 / 4194304) as ->.
  { change 1 with (2 ^ 1 - 1). rewrite land_low, Z.shiftr_div_pow2 by lia.
    change (2 ^ 1) with 2. change (2 ^ 22) with 4194304. change (2 ^ 23) with 8388608. dlia. }
  assert (Z.land d 0x3FFFFF = d mod 2 ^ 23 mod 4194304) as ->.
  { change 0x3FFFFF with (2 ^ 22 - 1). rewrite land_low by lia.
    change (2 ^ 22) with 4194304. change (2 ^ 23) with 8388608. dlia. }
  assert (0 <= d mod 2 ^ 23 / 4194304 <= 1) as Hb by (change (2 ^ 23) with 8388608; dlia).
  pose proof (Z.mod_pos_bound (d mod 2 ^ 23) 4194304 ltac:(lia)) as Hx.
  generalize dependent (d mod 2 ^ 23 mod 4194304). intros x Hx.
  assert (d mod 2 ^ 23 / 4194304 = 0 \/ d mod 2 ^ 23 / 4194304 = 1) as [-> | ->] by lia.
  - change (Z.land _ 0x3FFFFFFF) with 0. rewrite Z.lor_0_l. change 0x40000000 with (256 * 2 ^ 22).
    rewrite lor_shifted_l by lia. cbn [Z.eqb]. lia.
  - change (Z.land _ 0x3FFFFFFF) with (255 * 2 ^ 22). rewrite lor_shifted by lia.
    replace (Z.lor (255 * 2 ^ 22 + x) 0x40000000) with (Z.lor (1 * 2 ^ 30) (255 * 2 ^ 22 + x)) by apply Z.lor_comm.
    rewrite lor_shifted by lia. cbn [Z.eqb]. lia.
Qed.

Lemma sparc_match_word b0 b1 b2 b3 :
  bytes_ok [b0; b1; b2; b3] -> sparc_match b0 b1 = true ->
  let w := b0 * 16777216 + b1 * 65536 + b2 * 256 + b3 in sparc_word (w mod 2 ^ 23) = w.
Proof.
  intros H Hm w. repeat (apply Forall_cons in H as [? H]). clear H.
  destruct (byte_fields b1 ltac:(assumption)) as (_ & _ & _ & _ & _ & _ & F0 & F1). unfold is_byte in *.
  unfold sparc_match in Hm. apply orb_true_iff in Hm. unfold sparc_word. change (2 ^ 23) with 8388608.
  destruct Hm as [Hm|Hm]; b2p; subst b0.
  - specialize (F0 ltac:(assumption)). subst w. rewrite (proj2 (Z.eqb_eq _ 0)) by dlia. dlia.
  - specialize (F1 ltac:(assumption)). subst w. rewrite (proj2 (Z.eqb_neq _ 0)) by dlia. dlia.
Qed.

Lemma sparc_word_match t :
  0 <= t < 2 ^ 23 -> sparc_match (u8 (Z.shiftr (sparc_word t) 24)) (u8 (Z.shiftr (sparc_word t) 16)) = true.
Proof.
  intros Ht. change (2 ^ 23) with 8388608 in Ht. unfold sparc_word, sparc_match. rewrite !Z.shiftr_div_pow2 by lia.
  change (2 ^ 24) with 16777216. change (2 ^ 16) with 65536. unfold u8.
  assert (forall b, is_byte b -> b < 64 -> Z.land b 0xC0 = 0) as L.
  { intros b Hb Hlt. pose proof (byte_sweep (fun b => implb (b <? 64) (Z.land b 0xC0 =? 0)) eq_refl b Hb) as S.
    cbv beta in S. rewrite (proj2 (Z.ltb_lt b 64) Hlt) in S. now apply Z.eqb_eq in S. }
  assert (forall b, is_byte b -> 192 <= b -> Z.land b 0xC0 = 0xC0) as U.
  { intros b Hb Hlt. pose proof (byte_sweep (fun b => implb (192 <=? b) (Z.land b 0xC0 =? 0xC0)) eq_refl b Hb) as S.
    cbv beta in S. rewrite (proj2 (Z.leb_le 192 b) Hlt) in S. now apply Z.eqb_eq in S. }
  unfold is_byte in *. apply orb_true_iff. destruct (Z.eqb_spec (t / 4194304) 0).
  - left. apply andb_true_iff. split; apply Z.eqb_eq; [dlia|]. apply L; dlia.
  - right. apply andb_true_iff. split; apply Z.eqb_eq; [dlia|]. apply U; dlia.
Qed.

Lemma sparc_instr_spec enc pc b0 b1 b2 b3 :
  bytes_ok [b0; b1; b2; b3] -> pc mod 2 ^ 2 = 0 -> sparc_match b0 b1 = true ->
  let w := b0 * 16777216 + b1 * 65536 + b2 * 256 + b3 in
  sparc_instr enc pc b0 b1 b2 b3 =
  be_bytes (sparc_word ((if enc then w + pc / 2 ^ 2 else w - pc / 2 ^ 2) mod 2 ^ 23)).
Proof.
  intros H Ha Hm w. unfold sparc_instr. fold (sparc_match b0 b1). rewrite Hm, (sparc_src b0 b1 b2 b3 H). fold w.
  assert (0 <= w) as Hw.
  { repeat (apply Forall_cons in H as [? H]). unfold is_byte in *. subst w. lia. }
  assert (u32 (Z.shiftl w 2) = w mod 2 ^ 30 * 2 ^ 2) as ->.
  { rewrite Z.shiftl_mul_pow2 by lia. unfold u32. change 4294967296 with (2 ^ 30 * 2 ^ 2).
    now rewrite Z.mul_mod_distr_r by lia. }
  set (d := Z.shiftr (convert enc pc 0 (w mod 2 ^ 30 * 2 ^ 2)) 2).
  assert (0 <= d < 1073741824) as Hd.
  { subst d. rewrite Z.shiftr_div_pow2 by lia. change (2 ^ 2) with 4.
    assert (0 <= convert enc pc 0 (w mod 2 ^ 30 * 4) < 4294967296) by (unfold convert; destruct enc; apply u32_range).
    dlia. }
  rewrite (sparc_dest d Hd). unfold be_bytes. fold (be_bytes (sparc_word (d mod 2 ^ 23))).
  assert (d mod 2 ^ 23 = (if enc then w + pc / 2 ^ 2 else w - pc / 2 ^ 2) mod 2 ^ 23) as ->; [|reflexivity].
  subst d. rewrite Z.shiftr_div_pow2 by lia.
  assert (w mod 2 ^ 30 mod 2 ^ 23 = w mod 2 ^ 23) as Hmm.
  { apply Z.mod_mod_divide. now exists (2 ^ 7). }
  destruct enc; [rewrite convert_encode|rewrite convert_decode]; rewrite ?Z.add_0_r; try lia; try assumption.
  - rewrite <- Zplus_mod_idemp_l, Hmm. apply Zplus_mod_idemp_l.
  - rewrite <- Zminus_mod_idemp_l, Hmm. apply Zminus_mod_idemp_l.
Qed.

Lemma be_bytes_word b0 b1 b2 b3 :
  bytes_ok [b0; b1; b2; b3] ->
  be_bytes (b0 * 16777216 + b1 * 65536 + b2 * 256 + b3) = [b0; b1; b2; b3].
Proof.
  intros H. repeat (apply Forall_cons in H as [? H]). clear H. unfold is_byte, be_bytes, u8 in *.
  rewrite !Z.shiftr_div_pow2 by lia.
  change (2 ^ 24) with 16777216. change (2 ^ 16) with 65536. change (2 ^ 8) with 256. repeat f_equal; dlia.
Qed.

Lemma sparc_four : four_bytes sparc_instr.
Proof.
  intros enc pc b0 b1 b2 b3 H. unfold sparc_instr. case_if; [four_tac H|do 4 eexists; now split].
Qed.

Lemma sparc_reversible : reversible 2 sparc_instr.
Proof.
  intros pc b0 b1 b2 b3 Ha H c0 c1 c2 c3 E. destruct (sparc_match b0 b1) eqn:Hm.
  2: { unfold sparc_instr in E. fold (sparc_match b0 b1) in E. rewrite Hm in E. injection E as <- <- <- <-.
       unfold sparc_instr. fold (sparc_match b0 b1). now rewrite Hm. }
  rewrite (sparc_instr_spec true pc b0 b1 b2 b3 H Ha Hm) in E.
  set (w := b0 * 16777216 + b1 * 65536 + b2 * 256 + b3) in *. set (t := (w + pc / 2 ^ 2) mod 2 ^ 23) in *.
  assert (0 <= t < 2 ^ 23) as Ht by (apply Z.mod_pos_bound; lia).
  pose proof (sparc_word_match t Ht) as Hm'. unfold be_bytes in E. injection E as <- <- <- <-.
  rewrite sparc_instr_spec; try assumption; [|repeat apply Forall_cons_2; auto using Forall_nil_2].
  assert (0 <= sparc_word t < 4294967296) as Hw.
  { unfold sparc_word. destruct (t / 4194304 =? 0); dlia. }
  assert (u8 (Z.shiftr (sparc_word t) 24) * 16777216 + u8 (Z.shiftr (sparc_word t) 16) * 65536 +
    u8 (Z.shiftr (sparc_word t) 8) * 256 + u8 (sparc_word t) = sparc_word t) as ->.
  { rewrite !Z.shiftr_div_pow2 by lia. unfold u8.
    change (2 ^ 24) with 16777216. change (2 ^ 16) with 65536. change (2 ^ 8) with 256. dlia. }
  assert (sparc_word t mod 2 ^ 23 = t) as Hs.
  { unfold sparc_word. change (2 ^ 23) with 8388608 in *. destruct (Z.eqb_spec (t / 4194304) 0); dlia. }
  rewrite <- Zminus_mod_idemp_l, Hs. subst t. rewrite Zminus_mod_idemp_l.
  replace (w + pc / 2 ^ 2 - pc / 2 ^ 2) with w by lia. subst w. rewrite sparc_match_word by assumption.
  now apply be_bytes_word.
Qed.

(** The word of an ARM64 ADRP instruction. *)
Definition adrp (lo hi rd : Z) : Z := 9 * 2 ^ 28 + lo * 2 ^ 29 + hi * 2 ^ 5 + rd.

(** The displacement of an ADRP instruction that is converted: 18 bits with the
    sign, extended to 21 bits. *)
Definition adrp_sext (t : Z) : Z := t + (if t / 2 ^ 17 =? 0 then 0 else 7 * 2 ^ 18).

Definition adrp_of (t rd : Z) : Z := adrp (adrp_sext t mod 4) (adrp_sext t / 4) rd.

Lemma adrp_inv i :
  0 <= i < 2 ^ 32 -> Z.land i 0x9F000000 = 0x90000000 ->
  exists lo hi rd, 0 <= lo < 4 /\ 0 <= hi < 2 ^ 19 /\ 0 <= rd < 2 ^ 5 /\ i = adrp lo hi rd.
Proof.
  intros Hi H. change 0x9F000000 with (Z.lor ((2 ^ 1 - 1) * 2 ^ 31) ((2 ^ 5 - 1) * 2 ^ 24)) in H.
  rewrite Z.land_lor_distr_r, !land_field in H by lia.
  pose proof (Z.mod_pos_bound (i / 2 ^ 24) (2 ^ 5) ltac:(lia)) as Hm.
  rewrite lor_shifted in H by (revert Hm; generalize ((i / 2 ^ 24) mod 2 ^ 5); lia).
  exists ((i / 2 ^ 29) mod 4), ((i / 2 ^ 5) mod 2 ^ 19), (i mod 2 ^ 5).
  split; [apply Z.mod_pos_bound; lia|]. split; [apply Z.mod_pos_bound; lia|]. split; [apply Z.mod_pos_bound; lia|].
  unfold adrp. change (2 ^ 32) with 4294967296 in *. change (2 ^ 31) with 2147483648 in *.
  change (2 ^ 29) with 536870912 in *. change (2 ^ 28) with 268435456. change (2 ^ 24) with 16777216 in *.
  change (2 ^ 19) with 524288. change (2 ^ 5) with 32 in *. change (2 ^ 1) with 2 in *. clear - Hi H.
  assert (i / 2147483648 = 1 /\ (i / 16777216) mod 32 = 16) as [H1 H2] by dlia. clear H. dlia.
Qed.

Lemma adrp_src lo hi rd :
  0 <= lo < 4 -> 0 <= hi < 2 ^ 19 -> 0 <= rd < 2 ^ 5 ->
  let i := adrp lo hi rd in
  (Z.shiftr i 26 =? 0x25) = false /\ (Z.land i 0x9F000000 =? 0x90000000) = true /\
  Z.lor (Z.land (Z.shiftr i 29) 3) (Z.land (Z.shiftr i 3) 0x001FFFFC) = lo + 4 * hi /\
  Z.land i 0x9000001F = 9 * 2 ^ 28 + rd.
Proof.
  intros Hlo Hhi Hrd i. subst i.
  assert (0 <= adrp lo hi rd < 4294967296) as Hb by (unfold adrp; lia).
  rewrite !Z.shiftr_div_pow2 by lia.
  change 0x9F000000 with (Z.lor ((2 ^ 1 - 1) * 2 ^ 31) ((2 ^ 5 - 1) * 2 ^ 24)).
  change 0x9000001F with (Z.lor ((2 ^ 1 - 1) * 2 ^ 31) (Z.lor ((2 ^ 1 - 1) * 2 ^ 28) ((2 ^ 5 - 1) * 2 ^ 0))).
  change 0x001FFFFC with ((2 ^ 19 - 1) * 2 ^ 2). change 3 with ((2 ^ 2 - 1) * 2 ^ 0) at 1.
  rewrite !Z.land_lor_distr_r, !land_field by lia.
  assert (adrp lo hi rd / 2 ^ 31 = 1 /\ (adrp lo hi rd / 2 ^ 24) mod 2 ^ 5 = 16 /\
    (adrp lo hi rd / 2 ^ 28) mod 2 ^ 1 = 1 /\ adrp lo hi rd mod 2 ^ 5 = rd /\
    (adrp lo hi rd / 2 ^ 29) mod 2 ^ 2 = lo /\ (adrp lo hi rd / 2 ^ 3 / 2 ^ 2) mod 2 ^ 19 = hi /\
    (adrp lo hi rd / 2 ^ 26) mod 8 = 4) as (E1 & E2 & E3 & E4 & E5 & E6 & E7).
  { unfold adrp in *. rewrite !Z.div_div by lia. change (2 ^ 3 * 2 ^ 2) with 32.
    change (2 ^ 31) with 2147483648 in *. change (2 ^ 29) with 536870912 in *. change (2 ^ 28) with 268435456 in *.
    change (2 ^ 26) with 67108864. change (2 ^ 24) with 16777216 in *. change (2 ^ 19) with 524288 in *.
    change (2 ^ 5) with 32 in *. change (2 ^ 1) with 2 in *. change (2 ^ 2) with 4. clear Hb. split_and!; dlia. }
  rewrite !Z.div_1_r, E1, E2, E3, E4, E5, E6. split_and!.
  - apply Z.eqb_neq. intros E. rewrite E in E7. discriminate.
  - reflexivity.
  - change (2 ^ 0) with 1. rewrite Z.mul_1_r, lor_shifted_l by lia. lia.
  - change (2 ^ 0) with 1. rewrite Z.mul_1_r. change (1 mod 2 ^ 1) with 1.
    rewrite (lor_shifted 28) by lia. rewrite lor_shifted by lia. lia.
Qed.

Lemma arm64_pc_mod enc pc k :
  0 <= k <= 32 -> arm64_pc enc pc mod 2 ^ k = (if enc then pc else - pc) mod 2 ^ k.
Proof.
  intros Hk. unfold arm64_pc. destruct enc; [reflexivity|]. unfold u32. change 4294967296 with (2 ^ 32).
  apply Z.mod_mod_divide. exists (2 ^ (32 - k)). rewrite <- Z.pow_add_r by lia. f_equal. lia.
Qed.

(** [u32] does not matter for the lower bits. *)
Lemma u32_mod x k : 0 <= k <= 32 -> u32 x mod 2 ^ k = x mod 2 ^ k.
Proof.
  intros Hk. unfold u32. change 4294967296 with (2 ^ 32). apply Z.mod_mod_divide.
  exists (2 ^ (32 - k)). rewrite <- Z.pow_add_r by lia. f_equal. lia.
Qed.

Lemma arm64_bl_spec enc pc s :
  0 <= s < 2 ^ 26 ->
  arm64_word enc pc (37 * 2 ^ 26 + s) =
  37 * 2 ^ 26 + (s + if enc then Z.shiftr pc 2 else - Z.shiftr pc 2) mod 2 ^ 26.
Proof.
  intros Hs. unfold arm64_word. rewrite !Z.shiftr_div_pow2 by lia.
  replace ((37 * 2 ^ 26 + s) / 2 ^ 26) with 37 by (change (2 ^ 26) with 67108864 in *; dlia).
  change (37 =? 0x25) with true. cbv iota.
  change 0x03FFFFFF with (2 ^ 26 - 1). rewrite land_low, u32_mod by lia.
  change 0x94000000 with (37 * 2 ^ 26). rewrite lor_shifted; [f_equal|lia|apply Z.mod_pos_bound; lia].
  rewrite Zplus_mod, arm64_pc_mod by lia. rewrite <- Zplus_mod.
  replace (37 * 2 ^ 26 + s + (if enc then pc / 2 ^ 2 else - (pc / 2 ^ 2)))
    with ((s + if enc then pc / 2 ^ 2 else - (pc / 2 ^ 2)) + 37 * 2 ^ 26) by lia.
  apply Z.mod_add. lia.
Qed.

Lemma adrp_sext_range t : 0 <= t < 2 ^ 18 ->
  0 <= adrp_sext t < 2 ^ 21 /\ adrp_sext t mod 2 ^ 18 = t /\ (adrp_sext t + 2 ^ 17) / 2 ^ 18 mod 8 = 0.
Proof.
  intros Ht. unfold adrp_sext. change (2 ^ 21) with 2097152. change (2 ^ 18) with 262144 in *.
  change (2 ^ 17) with 131072. destruct (Z.eqb_spec (t / 131072) 0); split_and!; dlia.
Qed.

Lemma adrp_in_range src : 0 <= src < 2 ^ 21 -> (src + 2 ^ 17) / 2 ^ 18 mod 8 = 0 ->
  adrp_sext (src mod 2 ^ 18) = src.
Proof.
  intros Hs H. unfold adrp_sext. change (2 ^ 21) with 2097152 in *. change (2 ^ 18) with 262144 in *.
  change (2 ^ 17) with 131072 in *. destruct (Z.eqb_spec (src mod 262144 / 131072) 0); dlia.
Qed.

(** Putting the displacement back into the word. *)
Lemma adrp_store dest rd :
  0 <= dest -> 0 <= rd < 2 ^ 5 ->
  Z.lor (Z.lor (Z.lor (9 * 2 ^ 28 + rd) (u32 (Z.shiftl (Z.land dest 3) 29)))
    (u32 (Z.shiftl (Z.land dest 0x0003FFFC) 3)))
    (Z.land (u32 (0 - Z.land dest 0x00020000)) 0x00E00000) = adrp_of (dest mod 2 ^ 18) rd.
Proof.
  intros Hd Hrd. change 0x00020000 with ((2 ^ 1 - 1) * 2 ^ 17). change 0x0003FFFC with ((2 ^ 16 - 1) * 2 ^ 2).
  change 3 with (2 ^ 2 - 1) at 1. rewrite !land_field, land_low by lia. rewrite !Z.shiftl_mul_pow2 by lia.
  set (t := dest mod 2 ^ 18).
  assert (dest mod 2 ^ 2 = t mod 4 /\ (dest / 2 ^ 2) mod 2 ^ 16 = t / 4 /\ (dest / 2 ^ 17) mod 2 ^ 1 = t / 2 ^ 17)
    as (-> & -> & ->).
  { subst t. change (2 ^ 2) with 4. change (2 ^ 18) with 262144. change (2 ^ 17) with 131072.
    change (2 ^ 16) with 65536. change (2 ^ 1) with 2. clear. split_and!; dlia. }
  assert (0 <= t < 2 ^ 18) as Ht by (apply Z.mod_pos_bound; lia). clearbody t. clear dest Hd.
  assert (0 <= t mod 4 < 4 /\ 0 <= t / 4 < 2 ^ 16) as [H1 H2] by (change (2 ^ 18) with 262144 in *; change (2 ^ 16) with 65536; dlia).
  rewrite !u32_small by (unfold is_u32; lia).
  replace (9 * 2 ^ 28 + rd) with (1 * 2 ^ 31 + (2 ^ 28 + rd)) by lia.
  rewrite (lor_mid 29 31) by lia.
  replace (1 * 2 ^ 31 + t mod 4 * 2 ^ 29 + (2 ^ 28 + rd)) with ((9 + 2 * (t mod 4)) * 2 ^ 28 + rd) by lia.
  replace (t / 4 * 2 ^ 2 * 2 ^ 3) with (t / 4 * 2 ^ 5) by lia. rewrite (lor_mid 5 28) by lia.
  unfold adrp_of, adrp, adrp_sext.
  assert (t / 2 ^ 17 = 0 \/ t / 2 ^ 17 = 1) as [E|E].
  { change (2 ^ 17) with 131072. change (2 ^ 18) with 262144 in Ht. dlia. }
  - rewrite E. change (Z.land (u32 _) 0x00E00000) with 0. rewrite Z.lor_0_r. cbn [Z.eqb]. rewrite Z.add_0_r. lia.
  - rewrite E. change (Z.land (u32 _) 0x00E00000) with (7 * 2 ^ 21). cbn [Z.eqb].
    replace ((9 + 2 * (t mod 4)) * 2 ^ 28 + t / 4 * 2 ^ 5 + rd) with ((9 + 2 * (t mod 4)) * 2 ^ 28 + (t / 4 * 2 ^ 5 + rd)) by lia.
    rewrite (lor_mid 21 28) by lia.
    replace ((t + 7 * 2 ^ 18) mod 4) with (t mod 4) by (change (2 ^ 18) with 262144; clear; dlia).
    replace ((t + 7 * 2 ^ 18) / 4) with (t / 4 + 7 * 2 ^ 16) by (change (2 ^ 18) with 262144; change (2 ^ 16) with 65536; clear; dlia).
    lia.
Qed.

Lemma arm64_adrp_spec enc pc lo hi rd :
  0 <= lo < 4 -> 0 <= hi < 2 ^ 19 -> 0 <= rd < 2 ^ 5 ->
  let src := lo + 4 * hi in
  arm64_word enc pc (adrp lo hi rd) =
  if (src + 2 ^ 17) / 2 ^ 18 mod 8 =? 0 then
    adrp_of ((src + if enc then Z.shiftr pc 12 else - Z.shiftr pc 12) mod 2 ^ 18) rd
  else adrp lo hi rd.
Proof.
  intros Hlo Hhi Hrd src. destruct (adrp_src lo hi rd Hlo Hhi Hrd) as (E1 & E2 & E3 & E4).
  unfold arm64_word. rewrite E1, E2, E3, E4. fold src.
  assert (0 <= src < 2 ^ 21) as Hs by (subst src; lia).
  rewrite (u32_small (src + _)) by (unfold is_u32; lia).
  change 0x001C0000 with ((2 ^ 3 - 1) * 2 ^ 18). change 0x00020000 with (2 ^ 17) at 1.
  rewrite land_field by lia. change (2 ^ 3) with 8.
  assert (forall x, (x * 2 ^ 18 =? 0) = (x =? 0)) as ->
    by (intros x; destruct (Z.eqb_spec x 0), (Z.eqb_spec (x * 2 ^ 18) 0); reflexivity || lia).
  destruct (_ =? 0); cbn [negb]; [|reflexivity]. rewrite adrp_store by (try apply u32_range; assumption).
  f_equal. rewrite u32_mod by lia. rewrite Zplus_mod, arm64_pc_mod by lia. now rewrite <- Zplus_mod.
Qed.

Lemma adrp_of_bounds t rd :
  0 <= t < 2 ^ 18 -> 0 <= rd < 2 ^ 5 ->
  0 <= adrp_sext t mod 4 < 4 /\ 0 <= adrp_sext t / 4 < 2 ^ 19 /\ is_u32 (adrp_of t rd) /\
  adrp_sext t mod 4 + 4 * (adrp_sext t / 4) = adrp_sext t.
Proof.
  intros Ht Hr. destruct (adrp_sext_range t Ht) as (B & _ & _).
  assert (0 <= adrp_sext t mod 4 < 4) by (apply Z.mod_pos_bound; lia).
  assert (0 <= adrp_sext t / 4 < 2 ^ 19) by (change (2 ^ 21) with 2097152 in B; change (2 ^ 19) with 524288; dlia).
  pose proof (Z.div_mod (adrp_sext t) 4 ltac:(lia)).
  split_and!; try lia. unfold adrp_of, adrp, is_u32. lia.
Qed.

Lemma arm64_word_range enc pc i : is_u32 i -> is_u32 (arm64_word enc pc i).
Proof.
  intros Hi. unfold is_u32 in Hi. destruct (Z.eqb_spec (Z.shiftr i 26) 0x25) as [E|E].
  - rewrite Z.shiftr_div_pow2 in E by lia. pose proof (Z.div_mod i (2 ^ 26) ltac:(lia)) as D. rewrite E in D.
    rewrite D, Z.mul_comm, arm64_bl_spec by (apply Z.mod_pos_bound; lia).
    match goal with |- is_u32 (_ + ?x mod _) => pose proof (Z.mod_pos_bound x (2 ^ 26) ltac:(lia)) end.
    unfold is_u32. lia.
  - destruct (Z.eqb_spec (Z.land i 0x9F000000) 0x90000000) as [E2|E2].
    + destruct (adrp_inv i Hi E2) as (lo & hi & rd & Hlo & Hhi & Hrd & ->). rewrite arm64_adrp_spec by assumption.
      case_if; [|assumption]. apply adrp_of_bounds; [apply Z.mod_pos_bound; lia|assumption].
    + unfold arm64_word. rewrite (proj2 (Z.eqb_neq _ _) E), (proj2 (Z.eqb_neq _ _) E2). exact Hi.
Qed.

Lemma arm64_word_roundtrip pc i :
  is_u32 i -> arm64_word false pc (arm64_word true pc i) = i.
Proof.
  intros Hi. unfold is_u32 in Hi. destruct (Z.eqb_spec (Z.shiftr i 26) 0x25) as [E|E].
  - rewrite Z.shiftr_div_pow2 in E by lia. pose proof (Z.div_mod i (2 ^ 26) ltac:(lia)) as D. rewrite E in D.
    pose proof (Z.mod_pos_bound i (2 ^ 26) ltac:(lia)) as B. rewrite D at 1. rewrite (Z.mul_comm (2 ^ 26)).
    rewrite arm64_bl_spec by assumption. rewrite arm64_bl_spec by (apply Z.mod_pos_bound; lia).
    rewrite Zplus_mod_idemp_l. replace (i mod 2 ^ 26 + Z.shiftr pc 2 + - Z.shiftr pc 2) with (i mod 2 ^ 26) by lia.
    rewrite Z.mod_mod by lia. lia.
  - destruct (Z.eqb_spec (Z.land i 0x9F000000) 0x90000000) as [E2|E2].
    + destruct (adrp_inv i Hi E2) as (lo & hi & rd & Hlo & Hhi & Hrd & ->). rewrite (arm64_adrp_spec true) by assumption.
      set (src := lo + 4 * hi). assert (0 <= src < 2 ^ 21) as Hs by (subst src; lia).
      destruct (Z.eqb_spec ((src + 2 ^ 17) / 2 ^ 18 mod 8) 0) as [Er|Er].
      2: { rewrite arm64_adrp_spec by assumption. fold src. now rewrite (proj2 (Z.eqb_neq _ _) Er). }
      set (t := (src + Z.shiftr pc 12) mod 2 ^ 18). assert (0 <= t < 2 ^ 18) as Ht by (apply Z.mod_pos_bound; lia).
      destruct (adrp_of_bounds t rd Ht Hrd) as (B1 & B2 & _ & B4). destruct (adrp_sext_range t Ht) as (C1 & C2 & C3).
      unfold adrp_of at 1. rewrite arm64_adrp_spec by assumption. rewrite B4, C3. cbn [Z.eqb].
      rewrite <- Zplus_mod_idemp_l, C2. subst t. rewrite Zplus_mod_idemp_l.
      replace (src + Z.shiftr pc 12 + - Z.shiftr pc 12) with src by lia.
      unfold adrp_of. rewrite (adrp_in_range src Hs Er).
      replace (src mod 4) with lo by (subst src; dlia). replace (src / 4) with hi by (subst src; dlia). reflexivity.
    + assert (arm64_word true pc i = i) as ->;
        unfold arm64_word; now rewrite (proj2 (Z.eqb_neq _ _) E), (proj2 (Z.eqb_neq _ _) E2).
Qed.

Lemma arm64_four : four_bytes arm64_instr.
Proof.
  intros enc pc b0 b1 b2 b3 H. unfold arm64_instr. set (w := arm64_word _ _ _). clearbody w.
  do 4 eexists. split; [reflexivity|]. apply write32le_bytes.
Qed.

Lemma arm64_reversible : reversible 2 arm64_instr.
Proof.
  intros pc b0 b1 b2 b3 Ha H c0 c1 c2 c3 E. unfold arm64_instr in *.
  assert (is_u32 (read32le [b0; b1; b2; b3])) as Hi by (apply read32le_range; [assumption|cbn; lia]).
  pose proof (read32le_write32le _ [] (arm64_word_range true pc _ Hi)) as R. rewrite E in R.
  change ([c0; c1; c2; c3] ++ []) with [c0; c1; c2; c3] in R. rewrite R, arm64_word_roundtrip by assumption.
  now apply write32le_read32le.
Qed.

End Instructions.

(** ** Lemmas: the loops *)

Section Words.
Variable f : instruction.
Hypothesis Hfour : four_bytes f.
Hypothesis Hrev : reversible 2 f.

(** The bytes from the address [now_pos + i] on. *)
Lemma words_shift enc now_pos buffer : forall i,
  words_loop f enc now_pos i buffer = words_loop f enc (u32 (now_pos + i)) 0 buffer.
Proof using Type.
  enough (forall n buffer, (length buffer <= n)%nat -> forall i j,
    words_loop f enc now_pos (i + j) buffer = words_loop f enc (u32 (now_pos + i)) j buffer) as H.
  { intros i. rewrite <- (Z.add_0_r i) at 1. now apply (H (length buffer)). }
  clear. induction n as [|n IH]; intros buffer Hn i j; [destruct buffer; [reflexivity|cbn in Hn; lia]|].
  do 4 (destruct buffer as [|? buffer]; [reflexivity|]). cbn [words_loop length] in *.
  rewrite <- Z.add_assoc, IH by lia. do 2 f_equal. unfold u32.
  rewrite !Zplus_mod_idemp_r, Zplus_mod_idemp_l. f_equal. lia.
Qed.

Lemma words_size (buffer : bytes) :
  let n := Z.to_nat (Z.land (zlen buffer) (Z.lnot 3)) in
  Z.of_nat n mod 4 = 0 /\ (n <= length buffer < n + 4)%nat.
Proof using Type.
  intros n. subst n. change 3 with (2 ^ 2 - 1). rewrite land_high by lia. change (2 ^ 2) with 4.
  rewrite Z2Nat.id by dlia. split; [dlia|]. dlia.
Qed.

(** Groups of four bytes, then fewer than four. *)
Inductive groups : bytes -> Prop :=
  | groups_nil : groups []
  | groups_cons b0 b1 b2 b3 rest : groups rest -> groups (b0 :: b1 :: b2 :: b3 :: rest).

Lemma groups_split n : forall buffer, (4 * n <= length buffer)%nat ->
  exists a b, buffer = a ++ b /\ groups a /\ length a = (4 * n)%nat.
Proof using Type.
  clear. induction n as [|n IH]; intros buffer Hl; [exists [], buffer; now repeat constructor|].
  do 4 (destruct buffer as [|? buffer]; [cbn in Hl; lia|]).
  destruct (IH buffer) as (a & b & -> & Ha & Hn); [cbn in Hl; lia|].
  eexists (_ :: _ :: _ :: _ :: a), b. split; [reflexivity|]. split; [now constructor|]. cbn [length]. lia.
Qed.

Lemma buffer_groups (buffer : bytes) :
  exists a b, buffer = a ++ b /\ groups a /\ (length b < 4)%nat /\
    length a = Z.to_nat (Z.land (zlen buffer) (Z.lnot 3)).
Proof using Type.
  destruct (words_size buffer) as [Hm Hl]. set (n := Z.to_nat _) in *.
  assert (n = 4 * (n / 4))%nat as En.
  { clearbody n. rewrite <- (Nat2Z.id (n / 4)), Nat2Z.inj_div. dlia. }
  destruct (groups_split (n / 4) buffer ltac:(lia)) as (a & b & -> & Ha & Hn). exists a, b.
  rewrite length_app in Hl. clearbody n. split_and!; [reflexivity|assumption|lia|lia].
Qed.

Lemma words_short enc now_pos i b : (length b < 4)%nat -> words_loop f enc now_pos i b = b.
Proof using Type. do 4 (destruct b as [|? b]; [reflexivity|]). cbn. lia. Qed.

Lemma words_app enc now_pos a b : groups a -> bytes_ok a -> forall i,
  words_loop f enc now_pos i (a ++ b) =
  words_loop f enc now_pos i a ++ words_loop f enc now_pos (i + zlen a) b.
Proof using Type.
  induction 1 as [|b0 b1 b2 b3 rest H IH]; intros Hb i.
  - cbn [app words_loop length]. f_equal. lia.
  - do 4 (apply Forall_cons in Hb as [? Hb]). cbn [app words_loop length].
    rewrite IH by assumption. rewrite <- app_assoc. do 3 f_equal. lia.
Qed.

Lemma words_ok enc now_pos a : groups a -> bytes_ok a -> forall i,
  length (words_loop f enc now_pos i a) = length a /\ bytes_ok (words_loop f enc now_pos i a) /\
  groups (words_loop f enc now_pos i a).
Proof using Hfour.
  induction 1 as [|b0 b1 b2 b3 rest H IH]; intros Hb i.
  - cbn. repeat constructor.
  - assert (bytes_ok [b0; b1; b2; b3] /\ bytes_ok rest) as [H4 Hr] by (apply Forall_app; exact Hb).
    cbn [words_loop]. destruct (Hfour enc (u32 (now_pos + u32 i)) b0 b1 b2 b3 H4) as (c0 & c1 & c2 & c3 & -> & Hc).
    destruct (IH Hr (i + 4)) as (L & B & G). cbn [app length]. rewrite L. split_and!; try reflexivity.
    + change (bytes_ok ([c0; c1; c2; c3] ++ words_loop f enc now_pos (i + 4) rest)). now apply Forall_app.
    + now constructor.
Qed.

Lemma words_roundtrip now_pos a : now_pos mod 4 = 0 -> groups a -> bytes_ok a -> forall i, i mod 4 = 0 ->
  words_loop f false now_pos i (words_loop f true now_pos i a) = a.
Proof using Hfour Hrev.
  intros Hp. induction 1 as [|b0 b1 b2 b3 rest H IH]; intros Hb i Hi; [reflexivity|].
  assert (bytes_ok [b0; b1; b2; b3] /\ bytes_ok rest) as [H4 Hr] by (apply Forall_app; exact Hb).
  cbn [words_loop]. set (pc := u32 (now_pos + u32 i)).
  destruct (Hfour true pc b0 b1 b2 b3 H4) as (c0 & c1 & c2 & c3 & E & Hc). rewrite E. cbn [app words_loop].
  fold pc. rewrite (Hrev pc b0 b1 b2 b3) with (c0 := c0) (c1 := c1) (c2 := c2) (c3 := c3); try assumption.
  - cbn [app]. rewrite IH by (assumption || dlia). reflexivity.
  - subst pc. change (2 ^ 2) with 4. unfold u32. dlia.
Qed.

Lemma words_code_split simple enc now_pos (buffer : bytes) :
  bytes_ok buffer ->
  exists a b, buffer = a ++ b /\ groups a /\ (length b < 4)%nat /\ bytes_ok a /\ bytes_ok b /\
    words_code f simple now_pos enc buffer = (simple, words_loop f enc now_pos 0 a ++ b, length a).
Proof using Type.
  intros H. destruct (buffer_groups buffer) as (a & b & E & Ha & Hb & Hl). exists a, b.
  pose proof H as H'. rewrite E in H'. apply Forall_app in H' as [Ba Bb]. split_and!; try assumption.
  unfold words_code. rewrite <- Hl, E, words_app, (words_short _ _ _ b) by assumption. reflexivity.
Qed.

Lemma words_code_groups simple enc now_pos a b :
  groups a -> (length b < 4)%nat -> bytes_ok a ->
  words_code f simple now_pos enc (a ++ b) = (simple, words_loop f enc now_pos 0 a ++ b, length a).
Proof using Type.
  intros Ha Hb Ba. unfold words_code. rewrite words_app, (words_short _ _ _ b) by assumption. f_equal.
  assert (Z.of_nat (length a) mod 4 = 0) as Hm.
  { clear Ba. induction Ha as [|? ? ? ? ? Ha IH]; [reflexivity|]. cbn [length]. dlia. }
  change 3 with (2 ^ 2 - 1). rewrite land_high by lia. change (2 ^ 2) with 4. rewrite length_app. dlia.
Qed.

Definition words_params : FilterParams unit := {| unfiltered_max := 4; alignment := 4 |}.

Lemma words_laws : FilterLaws unit (F := words_code f) (P := words_params).
Proof using Hfour Hrev.
  unshelve econstructor.
  - exact (fun _ now_pos => now_pos mod 4 = 0).
  - exact (fun _ => True).
  - auto.
  - reflexivity.
  - intros simple now_pos enc buffer H.
    destruct (words_code_split simple enc now_pos buffer H) as (a & b & -> & Ha & Hb & Ba & Bb & E).
    unfold filter. rewrite E. destruct (words_ok enc now_pos a Ha Ba 0) as (L & B & _).
    rewrite !length_app, L. split; [lia|]. split; [now apply Forall_app|].
    split; [change (@unfiltered_max unit words_params) with 4%nat; lia|]. rewrite <- L at 1. now rewrite !drop_app_length.
  - intros simple now_pos enc buffer Hp H _.
    destruct (words_code_split simple enc now_pos buffer H) as (a & b & -> & Ha & Hb & Ba & Bb & E).
    unfold filter. rewrite E. assert (zlen a mod 4 = 0).
    { clear - Ha. induction Ha as [|? ? ? ? ? Ha IH]; [reflexivity|]. cbn [length]. dlia. }
    cbv beta in *. unfold u32. dlia.
  - intros simple now_pos enc a b Hp H _. apply Forall_app in H as [Ha Hb].
    destruct (words_code_split simple enc now_pos a Ha) as (a1 & a2 & -> & G1 & L2 & B1 & B2 & E).
    unfold filter. rewrite E. destruct (words_ok enc now_pos a1 G1 B1 0) as (L1 & _ & _).
    rewrite drop_app_length, <- L1, take_app_length, L1.
    destruct (words_code_split simple enc (u32 (now_pos + zlen a1)) (a2 ++ b)) as (c1 & c2 & Ec & G2 & L3 & B3 & B4 & E2);
      [now apply Forall_app|].
    rewrite E2. rewrite <- app_assoc, Ec, app_assoc.
    rewrite words_code_groups.
    + rewrite words_app by assumption. rewrite Z.add_0_l, (words_shift enc now_pos c1).
      rewrite length_app, <- app_assoc. reflexivity.
    + clear - G1 G2. induction G1; cbn; [assumption|now constructor].
    + assumption.
    + now apply Forall_app.
  - intros simple now_pos buffer Hp H _.
    destruct (words_code_split simple true now_pos buffer H) as (a & b & -> & Ha & Hb & Ba & Bb & E).
    unfold filter. rewrite E. destruct (words_ok true now_pos a Ha Ba 0) as (L & B & G).
    rewrite words_code_groups, words_roundtrip by assumption || reflexivity. now rewrite L.
Defined.

End Words.

(** *** ARM-Thumb *)

Section Thumb.

Definition thumb_step (enc : bool) (now_pos : Z) (i : nat) (buffer : bytes) : option (bytes * bytes * nat) :=
  match buffer with
  | b0 :: b1 :: b2 :: b3 :: rest =>
      Some (if armthumb_match b1 b3
            then (armthumb_instr enc (u32 (now_pos + u32 (Z.of_nat i))) b0 b1 b2 b3, rest, (i + 4)%nat)
            else ([b0; b1], b2 :: b3 :: rest, (i + 2)%nat))
  | _ => None
  end.

Lemma thumb_loop_step enc now_pos i buffer :
  armthumb_loop enc now_pos i buffer =
  match thumb_step enc now_pos i buffer with
  | Some (out1, rest, j) => let '(out, k) := armthumb_loop enc now_pos j rest in (out1 ++ out, k)
  | None => (buffer, i)
  end.
Proof.
  destruct buffer as [|b0 [|b1 [|b2 [|b3 rest]]]]; try reflexivity.
  cbn [armthumb_loop thumb_step]. destruct (armthumb_match b1 b3); reflexivity.
Qed.

(** One step on [a ++ b] is one on [a], if [a] is long enough. *)
Lemma thumb_step_inv enc now_pos i buffer out1 rest j :
  bytes_ok buffer -> thumb_step enc now_pos i buffer = Some (out1, rest, j) ->
  exists used, buffer = used ++ rest /\ length out1 = length used /\ j = (i + length used)%nat /\
    (1 <= length used)%nat /\ bytes_ok rest /\ bytes_ok out1 /\
    (forall b, thumb_step enc now_pos i (buffer ++ b) = Some (out1, rest ++ b, j)).
Proof.
  intros H. destruct buffer as [|b0 [|b1 [|b2 [|b3 rest']]]]; try discriminate. cbn [thumb_step app].
  assert (bytes_ok [b0; b1; b2; b3] /\ bytes_ok rest') as [H4 Hr] by (apply Forall_app; exact H).
  destruct (armthumb_match b1 b3); intros E.
  - destruct (armthumb_four enc (u32 (now_pos + u32 (Z.of_nat i))) b0 b1 b2 b3) as (c0 & c1 & c2 & c3 & Ei & Hc & _).
    rewrite Ei in *. injection E as <- <- <-. exists [b0; b1; b2; b3]. cbn [length]. split_and!; auto; lia.
  - injection E as <- <- <-. exists [b0; b1]. cbn [length].
    assert (bytes_ok [b0; b1] /\ bytes_ok (b2 :: b3 :: rest')) as [H2 H2'] by (apply Forall_app; exact H).
    split_and!; auto; lia.
Qed.

Lemma thumb_ind (P : nat -> bytes -> Prop) enc now_pos :
  (forall i b, bytes_ok b -> thumb_step enc now_pos i b = None -> P i b) ->
  (forall i b out1 rest j, bytes_ok b -> thumb_step enc now_pos i b = Some (out1, rest, j) -> P j rest -> P i b) ->
  forall b i, bytes_ok b -> P i b.
Proof.
  intros H0 H1. enough (forall n b i, (length b <= n)%nat -> bytes_ok b -> P i b) as H.
  { intros b i. now apply (H (length b)). }
  induction n as [|n IH]; intros b i Hl Hb.
  - apply H0; [assumption|]. destruct b; [reflexivity|cbn in Hl; lia].
  - destruct (thumb_step enc now_pos i b) as [[[out1 rest] j]|] eqn:E; [|now apply H0].
    apply (H1 i b out1 rest j Hb E). destruct (thumb_step_inv _ _ _ _ _ _ _ Hb E) as (used & -> & _ & _ & Hu & Hr & _).
    apply IH; [rewrite length_app in Hl; lia|assumption].
Qed.

Lemma thumb_none enc now_pos i b : thumb_step enc now_pos i b = None -> (length b < 4)%nat.
Proof. destruct b as [|b0 [|b1 [|b2 [|b3 rest]]]]; cbn; try discriminate; lia. Qed.

Lemma thumb_frame enc now_pos : forall b i, bytes_ok b ->
  let '(out, k) := armthumb_loop enc now_pos i b in
  length out = length b /\ bytes_ok out /\ (i <= k)%nat /\ (k - i <= length b < k - i + 4)%nat /\
  drop (k - i) out = drop (k - i) b.
Proof.
  apply (thumb_ind (fun i b => let '(out, k) := armthumb_loop enc now_pos i b in
    length out = length b /\ bytes_ok out /\ (i <= k)%nat /\ (k - i <= length b < k - i + 4)%nat /\
    drop (k - i) out = drop (k - i) b) enc now_pos).
  - intros i b Hb E. rewrite thumb_loop_step, E. apply thumb_none in E. split_and!; auto; lia.
  - intros i b out1 rest j Hb E IH. rewrite thumb_loop_step, E.
    destruct (thumb_step_inv _ _ _ _ _ _ _ Hb E) as (used & -> & L & -> & Hu & Hr & Ho & _).
    destruct (armthumb_loop _ _ _ rest) as [out k]. destruct IH as (I1 & I2 & I3 & I4 & I5).
    rewrite !length_app, I1, L. split_and!; try lia; [now apply Forall_app|].
    replace (k - i)%nat with (length used + (k - (i + length used)))%nat by lia.
    rewrite <- L at 1. rewrite !drop_app_add'; [|reflexivity|reflexivity]. exact I5.
Qed.

(** The loop on more data goes on from where it stopped. *)
Lemma thumb_app enc now_pos tl : forall a i, bytes_ok a ->
  armthumb_loop enc now_pos i (a ++ tl) =
  let '(a', k) := armthumb_loop enc now_pos i a in
  let '(c, m) := armthumb_loop enc now_pos k (drop (k - i) a ++ tl) in (take (k - i) a' ++ c, m).
Proof.
  apply (thumb_ind (fun i a => armthumb_loop enc now_pos i (a ++ tl) =
    let '(a', k) := armthumb_loop enc now_pos i a in
    let '(c, m) := armthumb_loop enc now_pos k (drop (k - i) a ++ tl) in (take (k - i) a' ++ c, m)) enc now_pos).
  - intros i a Ha E. rewrite (thumb_loop_step _ _ _ a), E, Nat.sub_diag. rewrite drop_0, take_0.
    now destruct (armthumb_loop _ _ _ (a ++ tl)).
  - intros i a out1 rest j Ha E IH. rewrite (thumb_loop_step _ _ _ a), E.
    destruct (thumb_step_inv _ _ _ _ _ _ _ Ha E) as (used & -> & L & -> & Hu & Hr & Ho & Happ).
    rewrite thumb_loop_step, Happ, IH.
    pose proof (thumb_frame enc now_pos rest (i + length used) Hr) as Hf.
    destruct (armthumb_loop _ _ _ rest) as [out k]. destruct Hf as (_ & _ & Hk & _).
    replace (k - i)%nat with (length used + (k - (i + length used)))%nat by lia.
    rewrite drop_app_add'; [|reflexivity]. rewrite (take_app_add' out1) by congruence.
    destruct (armthumb_loop _ _ k _) as [c m]. now rewrite <- app_assoc.
Qed.

Lemma thumb_shift enc now_pos d : forall b i, bytes_ok b ->
  armthumb_loop enc now_pos (d + i) b =
  let '(out, k) := armthumb_loop enc (u32 (now_pos + Z.of_nat d)) i b in (out, (d + k)%nat).
Proof.
  assert (forall i b, thumb_step enc now_pos (d + i) b =
    match thumb_step enc (u32 (now_pos + Z.of_nat d)) i b with
    | Some (o, r, j) => Some (o, r, (d + j)%nat) | None => None end) as Hs.
  { intros i b. destruct b as [|b0 [|b1 [|b2 [|b3 rest]]]]; try reflexivity. cbn [thumb_step].
    replace (u32 (u32 (now_pos + Z.of_nat d) + u32 (Z.of_nat i))) with (u32 (now_pos + u32 (Z.of_nat (d + i)))).
    - destruct (armthumb_match b1 b3); do 2 f_equal; lia.
    - unfold u32. rewrite !Zplus_mod_idemp_r, Zplus_mod_idemp_l. f_equal. lia. }
  intros b i. revert b i. apply (thumb_ind (fun i b => armthumb_loop enc now_pos (d + i) b =
    let '(out, k) := armthumb_loop enc (u32 (now_pos + Z.of_nat d)) i b in (out, (d + k)%nat)) enc (u32 (now_pos + Z.of_nat d))).
  - intros i b Hb E. rewrite thumb_loop_step, (thumb_loop_step _ _ i), Hs, E. reflexivity.
  - intros i b out1 rest j Hb E IH. rewrite thumb_loop_step, (thumb_loop_step _ _ i), Hs, E, IH.
    now destruct (armthumb_loop _ _ j rest).
Qed.

Lemma thumb_aligned enc now_pos : forall b i, bytes_ok b ->
  Z.of_nat (snd (armthumb_loop enc now_pos i b)) mod 2 = Z.of_nat i mod 2.
Proof.
  apply (thumb_ind (fun i b => Z.of_nat (snd (armthumb_loop enc now_pos i b)) mod 2 = Z.of_nat i mod 2) enc now_pos).
  - intros i b Hb E. now rewrite thumb_loop_step, E.
  - intros i b out1 rest j Hb E IH. rewrite thumb_loop_step, E.
    assert (Z.of_nat j mod 2 = Z.of_nat i mod 2) as Hj.
    { destruct b as [|b0 [|b1 [|b2 [|b3 r]]]]; try discriminate. cbn [thumb_step] in E.
      destruct (armthumb_match b1 b3); injection E as _ _ <-; dlia. }
    destruct (armthumb_loop _ _ j rest). cbn [snd] in *. congruence.
Qed.

(** The bits of the second byte that tell an instruction are kept. *)
Definition same_mark (b out : bytes) : Prop :=
  match b, out with
  | _ :: b1 :: _, _ :: c1 :: _ => Z.land c1 0xF8 = Z.land b1 0xF8
  | _, _ => True
  end.

Lemma thumb_roundtrip now_pos : now_pos mod 2 = 0 -> forall b i, bytes_ok b ->
  Z.of_nat i mod 2 = 0 ->
  let '(out, k) := armthumb_loop true now_pos i b in
  armthumb_loop false now_pos i out = (b, k) /\ length out = length b /\ same_mark b out.
Proof.
  intros Hp. apply (thumb_ind (fun i b => Z.of_nat i mod 2 = 0 ->
    let '(out, k) := armthumb_loop true now_pos i b in
    armthumb_loop false now_pos i out = (b, k) /\ length out = length b /\ same_mark b out) true now_pos).
  - intros i b Hb E Hi. rewrite thumb_loop_step, E. apply thumb_none in E. split_and!; try reflexivity.
    + destruct b as [|b0 [|b1 [|b2 [|b3 rest]]]]; try reflexivity. cbn in E. lia.
    + unfold same_mark. now destruct b as [|b0 [|b1 rest]].
  - intros i b out1 rest j Hb E IH Hi. rewrite thumb_loop_step, E.
    destruct b as [|b0 [|b1 [|b2 [|b3 r]]]]; try discriminate. cbn [thumb_step] in E.
    assert (bytes_ok [b0; b1; b2; b3] /\ bytes_ok r) as [H4 Hr] by (apply Forall_app; exact Hb).
    destruct (armthumb_match b1 b3) eqn:Hm; injection E as <- <- <-;
      specialize (IH ltac:(dlia)); destruct (armthumb_loop true _ _ _) as [out k]; destruct IH as (I1 & I2 & I3).
    + set (pc := u32 (now_pos + u32 (Z.of_nat i))).
      destruct (armthumb_four true pc b0 b1 b2 b3) as (c0 & c1 & c2 & c3 & Ei & Hc & Hcm). rewrite Ei.
      cbn [app]. rewrite thumb_loop_step. cbn [thumb_step]. rewrite Hcm, I1. fold pc.
      rewrite (armthumb_reversible pc b0 b1 b2 b3 c0 c1 c2 c3); try assumption.
      2: { subst pc. change (2 ^ 1) with 2. unfold u32. dlia. }
      split_and!; [reflexivity|cbn [length]; lia|]. unfold same_mark, armthumb_match in *. b2p. congruence.
    + destruct out as [|c2 [|c3 out]]; cbn [length] in I2; try lia. unfold same_mark in I3. cbn [app].
      rewrite thumb_loop_step. cbn [thumb_step].
      replace (armthumb_match b1 c3) with false by (unfold armthumb_match in *; now rewrite I3).
      rewrite I1. split_and!; [reflexivity|cbn [length]; lia|reflexivity].
Qed.

Definition armthumb_params : FilterParams unit := {| unfiltered_max := 4; alignment := 2 |}.

Lemma armthumb_laws : FilterLaws unit (F := armthumb_code) (P := armthumb_params).
Proof.
  unshelve econstructor.
  - exact (fun _ now_pos => now_pos mod 2 = 0).
  - exact (fun _ => True).
  - auto.
  - reflexivity.
  - intros simple now_pos enc buffer H. unfold filter, armthumb_code.
    pose proof (thumb_frame enc now_pos buffer 0 H) as Hf. destruct (armthumb_loop _ _ _ _) as [out k].
    destruct Hf as (F1 & F2 & _ & F4 & F5). rewrite Nat.sub_0_r in *.
    split_and!; try assumption; change (@unfiltered_max unit armthumb_params) with 4%nat; lia.
  - intros simple now_pos enc buffer Hp H _. unfold filter, armthumb_code.
    pose proof (thumb_aligned enc now_pos buffer 0 H) as Hk. destruct (armthumb_loop _ _ _ _) as [out k].
    cbn [snd] in Hk. cbv beta in *. unfold u32. dlia.
  - intros simple now_pos enc a b Hp H _. apply Forall_app in H as [Ha Hb]. unfold filter, armthumb_code.
    rewrite (thumb_app enc now_pos b a 0 Ha). destruct (armthumb_loop enc now_pos 0 a) as [a' k]. rewrite Nat.sub_0_r.
    pose proof (thumb_shift enc now_pos k (drop k a ++ b) 0) as Hs. rewrite Nat.add_0_r in Hs.
    rewrite Hs by (apply Forall_app_2; [now apply Forall_drop|assumption]).
    now destruct (armthumb_loop enc (u32 _) 0 _) as [c m].
  - intros simple now_pos buffer Hp H _. unfold filter, armthumb_code.
    pose proof (thumb_roundtrip now_pos Hp buffer 0 H eq_refl) as Hr.
    destruct (armthumb_loop true now_pos 0 buffer) as [out k]. destruct Hr as (-> & _). reflexivity.
Defined.

End Thumb.

(** *** The filters keep their promises *)

Definition arm_laws : FilterLaws unit (F := arm_code) (P := words_params) :=
  words_laws arm_instr arm_four arm_reversible.
Definition arm64_laws : FilterLaws unit (F := arm64_code) (P := words_params) :=
  words_laws arm64_instr arm64_four arm64_reversible.
Definition powerpc_laws : FilterLaws unit (F := powerpc_code) (P := words_params) :=
  words_laws powerpc_instr powerpc_four powerpc_reversible.
Definition sparc_laws : FilterLaws unit (F := sparc_code) (P := words_params) :=
  words_laws sparc_instr sparc_four sparc_reversible.
