(* ===== verification/SimpleCoder.v ===== *)
(** * The generic coder of the Branch/Call/Jump filters

    [lib/archive/xz/src/liblzma/simple/simple_coder.c].  A filter can convert an
    instruction only when all of its bytes are there; the coder keeps the bytes
    that it could not filter yet in a small buffer and filters most of the data
    in the output buffer of the application.  The result is that of the filter
    on the whole data, for every way in which it is cut into calls. *)

From S2P Require Import Prelude Coder Bcj.

(** ** State ([simple_private.h])

    [sc_next] is [None] when [next.code] is [NULL].  [buffer] holds the first
    [size] bytes of the temporary buffer, those behind are never read. *)
Record lzma_simple_coder (T U : Type) := {
  sc_next : option U;
  end_was_reached : bool;
  is_encoder : bool;
  simple : T;
  now_pos : Z;
  allocated : nat;
  sc_pos : nat;
  filtered : nat;
  buffer : bytes;
}.
Arguments sc_next {T U} _.
Arguments end_was_reached {T U} _.
Arguments is_encoder {T U} _.
Arguments simple {T U} _.
Arguments now_pos {T U} _.
Arguments allocated {T U} _.
Arguments sc_pos {T U} _.
Arguments filtered {T U} _.
Arguments buffer {T U} _.

Section Coder.
Context {T U : Type} {F : SimpleFilter T} {P : FilterParams T} {C : Coder U}.
Abbreviation coder := (lzma_simple_coder T U).

(** The member [size]. *)
Definition sc_size (c : coder) : nat := length (buffer c).

Definition set_buffer (c : coder) (p f : nat) (b : bytes) : coder :=
  {| sc_next := sc_next c; end_was_reached := end_was_reached c; is_encoder := is_encoder c;
     simple := simple c; now_pos := now_pos c; allocated := allocated c; sc_pos := p; filtered := f;
     buffer := b |}.

Definition set_source (c : coder) (n : option U) (e : bool) : coder :=
  {| sc_next := n; end_was_reached := e; is_encoder := is_encoder c; simple := simple c;
     now_pos := now_pos c; allocated := allocated c; sc_pos := sc_pos c; filtered := filtered c;
     buffer := buffer c |}.

(** [lzma_simple_coder_init].  [old] is the coder that [next->coder] holds,
    [new_simple] the filter-specific data of a new coder, [alloc] the outcome of
    the allocations; [start_offset] is that of the options, if there are any;
    [next_filter_init] is [lzma_next_filter_init] on the rest of the chain. *)
Definition lzma_simple_coder_init (old : option coder) (new_simple : T) (alloc : bool)
    (start_offset : option Z) (enc : bool) (next_filter_init : option U -> res (option U)) : res coder :=
  if bool_decide (is_Some old) || alloc then
    let pos := default 0 start_offset in
    if bool_decide (is_Some start_offset) && negb (Z.land pos (alignment - 1) =? 0) then Err LZMA_OPTIONS_ERROR
    else
      let? n := next_filter_init (old ≫= sc_next) in
      Ok {| sc_next := n; end_was_reached := false; is_encoder := enc;
            simple := default new_simple (simple <$> old); now_pos := pos;
            allocated := default (2 * unfiltered_max)%nat (allocated <$> old);
            sc_pos := 0; filtered := 0; buffer := [] |}
  else Err LZMA_MEM_ERROR.

(** [copy_or_code]: the return code, the coder, the bytes stored and the input
    that is left. *)
Definition copy_or_code (c : coder) (input : bytes) (avail : nat) (action : lzma_action)
    : lzma_ret * coder * bytes * bytes :=
  match sc_next c with
  | None =>
      let '(out, rest) := lzma_bufcpy input avail in
      (LZMA_OK, set_source c None (is_encoder c && bool_decide (action = LZMA_FINISH) && bool_decide (rest = [])
                                   || end_was_reached c), out, rest)
  | Some n =>
      let '(ret, n, out, rest) := code n input avail action in
      match ret with
      | LZMA_STREAM_END => (LZMA_OK, set_source c (Some n) true, out, rest)
      | _ => (ret, set_source c (Some n) (end_was_reached c), out, rest)
      end
  end.

(** [call_filter]: the filtered buffer and how many of its bytes are final. *)
Definition call_filter (c : coder) (data : bytes) : coder * bytes * nat :=
  let '(s, data, n) := filter (simple c) (now_pos c) (is_encoder c) data in
  ({| sc_next := sc_next c; end_was_reached := end_was_reached c; is_encoder := is_encoder c;
      simple := s; now_pos := u32 (now_pos c + Z.of_nat n); allocated := allocated c;
      sc_pos := sc_pos c; filtered := filtered c; buffer := buffer c |}, data, n).

(** The filter is not called when there is no data. *)
Definition filter_any (c : coder) (data : bytes) : coder * bytes * nat :=
  match data with [] => (c, [], 0%nat) | _ => call_filter c data end.

(** The part of [simple_code] that works in the output buffer of the caller:
    the bytes of [buffer] that are not filtered are flushed to it and followed
    by new data. *)
Definition code_in_out (c : coder) (input : bytes) (out_avail : nat) (action : lzma_action)
    : lzma_ret * coder * bytes * bytes :=
  let old := drop (sc_pos c) (buffer c) in
  let '(ret, c, more, rest) := copy_or_code c input (out_avail - length old) action in
  match ret with
  | LZMA_OK =>
      let '(c, data, n) := filter_any c (old ++ more) in
      if end_was_reached c then (LZMA_OK, set_buffer c 0 (filtered c) [], data, rest)
      else (LZMA_OK, set_buffer c 0 (filtered c) (drop n data), take n data, rest)
  | _ => (ret, c, old ++ more, rest)
  end.

(** The part that fills the temporary buffer and flushes what was filtered. *)
Definition code_in_buffer (c : coder) (input : bytes) (out_avail : nat) (action : lzma_action)
    : lzma_ret * coder * bytes * bytes :=
  let '(ret, c, more, rest) := copy_or_code c input (allocated c - sc_size c) action in
  let c := set_buffer c (sc_pos c) (filtered c) (buffer c ++ more) in
  match ret with
  | LZMA_OK =>
      let '(c, data, n) := call_filter c (buffer c) in
      let n := if end_was_reached c then length data else n in
      let '(out, _) := lzma_bufcpy (drop (sc_pos c) (take n data)) out_avail in
      (LZMA_OK, set_buffer c (sc_pos c + length out) n data, out, rest)
  | _ => (ret, c, [], rest)
  end.

(** More data goes to the output buffer if there is more room than unfiltered
    data; otherwise that data is moved to the start of the buffer. *)
Definition code_first (c : coder) (input : bytes) (out_avail : nat) (action : lzma_action)
    : lzma_ret * coder * bytes * bytes :=
  let buf_avail := (sc_size c - sc_pos c)%nat in
  if ((buf_avail <? out_avail) || (buf_avail =? 0))%nat then code_in_out c input out_avail action
  else if (0 <? sc_pos c)%nat
  then (LZMA_OK, set_buffer c 0 (filtered c) (drop (sc_pos c) (buffer c)), [], input)
  else (LZMA_OK, c, [], input).

(** The rest of [simple_code], with no filtered data in the buffer. *)
Definition code_more (c : coder) (input : bytes) (out_avail : nat) (action : lzma_action)
    : lzma_ret * coder * bytes * bytes :=
  let '(ret, c, out, rest) := code_first c input out_avail action in
  match ret with
  | LZMA_OK =>
      let '(ret, c, out, rest) :=
        if (0 <? sc_size c)%nat then
          let '(ret, c, out2, rest) := code_in_buffer c rest (out_avail - length out) action in
          (ret, c, out ++ out2, rest)
        else (LZMA_OK, c, out, rest) in
      match ret with
      | LZMA_OK =>
          (if end_was_reached c && (sc_pos c =? sc_size c)%nat then LZMA_STREAM_END else LZMA_OK,
           c, out, rest)
      | _ => (ret, c, out, rest)
      end
  | _ => (ret, c, out, rest)
  end.

Definition simple_code : Coder coder := fun c input avail action =>
  if bool_decide (action = LZMA_SYNC_FLUSH) then (LZMA_OPTIONS_ERROR, c, [], input)
  else if (sc_pos c <? filtered c)%nat then
    let '(out, _) := lzma_bufcpy (drop (sc_pos c) (take (filtered c) (buffer c))) avail in
    let c := set_buffer c (sc_pos c + length out) (filtered c) (buffer c) in
    if (sc_pos c <? filtered c)%nat then (LZMA_OK, c, out, input)
    else if end_was_reached c then (LZMA_STREAM_END, c, out, input)
    else
      let '(ret, c, more, rest) :=
        code_more (set_buffer c (sc_pos c) 0 (buffer c)) input (avail - length out) action in
      (ret, c, out ++ more, rest)
  else code_more (set_buffer c (sc_pos c) 0 (buffer c)) input avail action.

End Coder.
#[export] Existing Instance simple_code.

(** ** Where the data comes from

    The next coder is observed through a record of all that it produced. *)
Definition recorded {U} (C : Coder U) : Coder (U * bytes) :=
  fun '(n, data) input avail action =>
    let '(ret, n, out, rest) := code n input avail action in (ret, (n, data ++ out), out, rest).

(** The data that a filter was given: the output of the next coder or, when
    there is none, the input that was consumed. *)
Definition source_data {T U} (c : lzma_simple_coder T (U * bytes)) (calls : list coder_call)
    (rets : list (lzma_ret * bytes)) : bytes :=
  match sc_next c with
  | Some (_, data) => data
  | None => concat (zip_with (fun k r => take (length (cc_input k) - length r.2) (cc_input k)) calls rets)
  end.

(** ** Lemmas *)

Section Refinement.
Context {T U : Type} {F : SimpleFilter T} {P : FilterParams T} {L : FilterLaws T}
  {C : Coder U} {CL : CoderLaws U}.
Abbreviation coder := (lzma_simple_coder T (U * bytes)).

(** The filter started with [s0] at the position [p0]. *)
Variable s0 : T.
Variable p0 : Z.
Hypothesis Hs0 : filter_inv s0 p0.

(** [new] is the data that [c'] got and [c] had not. *)
Definition supplies (c c' : coder) (input rest new : bytes) : Prop :=
  match sc_next c with
  | None => sc_next c' = None /\ input = new ++ rest
  | Some (_, data) => exists n, sc_next c' = Some (n, data ++ new)
  end.

Lemma supplies_trans c1 c2 c3 input rest1 rest2 new1 new2 :
  supplies c1 c2 input rest1 new1 -> supplies c2 c3 rest1 rest2 new2 ->
  supplies c1 c3 input rest2 (new1 ++ new2).
Proof using Type.
  unfold supplies. destruct (sc_next c1) as [[n1 d1]|].
  - intros [n2 ->] [n3 ->]. exists n3. now rewrite app_assoc.
  - intros [-> ->] [-> ->]. split; [reflexivity|]. now rewrite app_assoc.
Qed.

Lemma supplies_unique c1 c2 input rest new new' :
  supplies c1 c2 input rest new -> supplies c1 c2 input rest new' -> new' = new.
Proof using Type.
  unfold supplies. destruct (sc_next c1) as [[n d]|].
  - intros [n2 E2] [n3 E3]. rewrite E2 in E3. injection E3 as _ E3. now apply app_inv_head in E3.
  - intros [_ E2] [_ E3]. rewrite E2 in E3. now apply app_inv_tail in E3.
Qed.

Lemma supplies_nil c c' input : sc_next c' = sc_next c -> supplies c c' input input [].
Proof using Type.
  unfold supplies. intros ->. destruct (sc_next c) as [[n d]|]; [exists n; now rewrite app_nil_r|now split].
Qed.

Lemma supplies_next c1 c2 c1' c2' input rest new :
  supplies c1 c2 input rest new -> sc_next c1' = sc_next c1 -> sc_next c2' = sc_next c2 ->
  supplies c1' c2' input rest new.
Proof using Type. unfold supplies. now intros H -> ->. Qed.

Lemma copy_or_code_spec (c : coder) input avail action c' out rest :
  copy_or_code (C := recorded C) c input avail action = (LZMA_OK, c', out, rest) -> bytes_ok input ->
  (exists n e, c' = set_source c n e /\ (end_was_reached c = true -> e = true)) /\
  (length out <= avail)%nat /\ bytes_ok out /\ bytes_ok rest /\ supplies c c' input rest out.
Proof using CL.
  intros H Hb. unfold copy_or_code in H. unfold supplies. destruct (sc_next c) as [[n data]|].
  - unfold code, recorded in H. pose proof (code_within n input avail action) as Hw.
    pose proof (code_bytes n input avail action Hb) as Ho.
    unfold code at 1 in H. unfold code in Hw, Ho. destruct (C n input avail action) as [[[ret n'] o] r].
    destruct Hw as [Hl [used ->]]. apply Forall_app in Hb as [_ Hb].
    destruct ret; try discriminate; injection H as <- <- <-; split_and!; try assumption; eauto; cbn; eauto.
  - destruct (lzma_bufcpy input avail) as [o r] eqn:E. injection H as <- <- <-.
    unfold lzma_bufcpy in E. injection E as <- <-. split_and!.
    + do 2 eexists. split; [reflexivity|]. intros ->. apply orb_true_r.
    + rewrite length_take. lia.
    + now apply Forall_take.
    + now apply Forall_drop.
    + reflexivity.
    + symmetry. apply take_drop.
Qed.

(** What is known about the filter on the data [D]. *)
Definition filter_of (enc : bool) (D : bytes) : T * bytes * nat := filter s0 p0 enc D.

Lemma filter_of_frame enc D : bytes_ok D ->
  let '(_, X, n) := filter_of enc D in
  length X = length D /\ (n <= length D < n + unfiltered_max)%nat /\ drop n X = drop n D /\ bytes_ok X.
Proof using L.
  intros H. pose proof (filter_frame s0 p0 enc D H) as Hf. unfold filter_of.
  destruct (filter s0 p0 enc D) as [[s X] n]. now destruct Hf as (? & ? & ? & ?).
Qed.

(** The coder has filtered [D] as far as possible. *)
Definition at_data (c : coder) (D : bytes) : Prop :=
  let '(s, _, n) := filter_of (is_encoder c) D in
  simple c = s /\ now_pos c = u32 (p0 + Z.of_nat n).

Lemma call_filter_spec (c : coder) D new :
  at_data c D -> bytes_ok (D ++ new) -> size_ok (length (D ++ new)) ->
  let '(_, X, n) := filter_of (is_encoder c) D in
  let '(c', data, m) := call_filter c (drop n D ++ new) in
  at_data c' (D ++ new) /\ is_encoder c' = is_encoder c /\ end_was_reached c' = end_was_reached c /\
  sc_next c' = sc_next c /\ buffer c' = buffer c /\ allocated c' = allocated c /\
  sc_pos c' = sc_pos c /\ filtered c' = filtered c /\
  snd (fst (filter_of (is_encoder c) (D ++ new))) = take n X ++ data /\
  snd (filter_of (is_encoder c) (D ++ new)) = (n + m)%nat /\
  length data = length (drop n D ++ new) /\ (m <= length data < m + unfiltered_max)%nat /\
  drop m data = drop (n + m) (D ++ new).
Proof using Hs0.
  intros Ha Hb Hs. unfold at_data, filter_of in *.
  pose proof (filter_app s0 p0 (is_encoder c) D new Hs0 Hb Hs) as Happ.
  apply Forall_app in Hb as [HbD Hbn]. pose proof (filter_frame s0 p0 (is_encoder c) D HbD) as Hf.
  destruct (filter s0 p0 (is_encoder c) D) as [[s X] n]. destruct Ha as [Es Ep]. destruct Hf as (F1 & F2 & F3 & F4).
  unfold call_filter. rewrite Es, Ep.
  pose proof (filter_frame s (u32 (p0 + Z.of_nat n)) (is_encoder c) (drop n D ++ new)) as Hf2.
  destruct (filter s _ _ (drop n D ++ new)) as [[s2 data] m].
  destruct Hf2 as (G1 & G2 & G3 & G4); [apply Forall_app_2; [now apply Forall_drop|assumption]|].
  cbn [is_encoder simple now_pos]. rewrite Happ. cbn [fst snd]. split_and!; try reflexivity; try lia.
  - unfold u32. rewrite Zplus_mod_idemp_l. f_equal. lia.
  - rewrite G4. rewrite <- drop_drop. f_equal. rewrite drop_app_le by lia. reflexivity.
Qed.

Lemma filter_any_frame (c : coder) data :
  let '(c', _, _) := filter_any c data in
  sc_next c' = sc_next c /\ end_was_reached c' = end_was_reached c /\ is_encoder c' = is_encoder c.
Proof using Type.
  unfold filter_any. destruct data; [now split_and!|]. unfold call_filter.
  destruct (filter _ _ _ _) as [[? ?] ?]. now split_and!.
Qed.

Lemma filter_any_spec (c : coder) D new :
  at_data c D -> bytes_ok (D ++ new) -> size_ok (length (D ++ new)) ->
  let '(_, X, n) := filter_of (is_encoder c) D in
  let '(c', data, m) := filter_any c (drop n D ++ new) in
  at_data c' (D ++ new) /\ buffer c' = buffer c /\ allocated c' = allocated c /\
  sc_pos c' = sc_pos c /\ filtered c' = filtered c /\
  snd (fst (filter_of (is_encoder c) (D ++ new))) = take n X ++ data /\
  snd (filter_of (is_encoder c) (D ++ new)) = (n + m)%nat /\
  length data = length (drop n D ++ new) /\ (m <= length data < m + unfiltered_max)%nat /\
  drop m data = drop (n + m) (D ++ new).
Proof using Hs0.
  intros Ha Hb Hs. pose proof (call_filter_spec c D new Ha Hb Hs) as H.
  pose proof (filter_of_frame (is_encoder c) D) as Hfr.
  destruct (filter_of (is_encoder c) D) as [[s X] n] eqn:EF. unfold filter_any.
  destruct (drop n D ++ new) as [|b data] eqn:Ed.
  - destruct (Hfr ltac:(now apply Forall_app in Hb as [? _])) as (F1 & F2 & F3 & F4).
    destruct (drop n D) eqn:Edr; [|discriminate]. cbn in Ed. subst new. rewrite app_nil_r in *.
    rewrite EF. cbn [fst snd].
    assert (n = length D) as Hn by (apply (f_equal length) in Edr; rewrite length_drop in Edr; cbn in Edr; lia).
    rewrite Nat.add_0_r, app_nil_r, Edr. cbn [length]. split_and!; try reflexivity; try lia; try assumption.
    rewrite take_ge by lia. reflexivity.
  - destruct (call_filter c (b :: data)) as [[c' data'] m]. now destruct H as (?&?&?&?&?&?&?&?&?&?&?&?&?).
Qed.

(** Between two calls, and inside a call when the buffer holds no filtered data
    ([filtered] is 0 then and [sc_pos] is where the unfiltered data starts). *)
Definition unfiltered (c : coder) (D O : bytes) : Prop :=
  let '(_, X, n) := filter_of (is_encoder c) D in
  bytes_ok D /\ at_data c D /\ end_was_reached c = false /\
  (sc_pos c <= sc_size c <= allocated c)%nat /\ (unfiltered_max <= allocated c)%nat /\
  filtered c = 0%nat /\ O = take n X /\ drop (sc_pos c) (buffer c) = drop n D.

Definition flushing (c : coder) (D O : bytes) : Prop :=
  let '(_, X, n) := filter_of (is_encoder c) D in
  bytes_ok D /\ (sc_pos c <= filtered c <= sc_size c)%nat /\ (sc_size c <= allocated c)%nat /\
  (unfiltered_max <= allocated c)%nat /\
  if end_was_reached c then O ++ drop (sc_pos c) (buffer c) = X /\ filtered c = sc_size c
  else at_data c D /\ O ++ drop (sc_pos c) (take (filtered c) (buffer c)) = take n X /\
       drop (filtered c) (buffer c) = drop n D.

(** The end: everything was written. *)
Definition finished (c : coder) (D O : bytes) : Prop :=
  bytes_ok D /\ end_was_reached c = true /\ O = snd (fst (filter_of (is_encoder c) D)) /\
  sc_pos c = sc_size c /\ filtered c = sc_size c /\ (sc_size c <= allocated c)%nat /\
  (unfiltered_max <= allocated c)%nat.

Lemma finished_flushing c D O : finished c D O -> flushing c D O.
Proof using Type.
  unfold finished, flushing. destruct (filter_of (is_encoder c) D) as [[s X] n].
  intros (Hb & -> & -> & Hp & Hf & Hs & Hu). cbn [fst snd]. split_and!; try assumption; try lia.
  rewrite Hp. unfold sc_size. now rewrite drop_all, app_nil_r.
Qed.

Lemma unfiltered_flushing c D O : unfiltered c D O -> sc_pos c = 0%nat -> flushing c D O.
Proof using Type.
  unfold unfiltered, flushing. destruct (filter_of (is_encoder c) D) as [[s X] n].
  intros (Hb & Ha & -> & Hp & Hu & Hf & -> & Hd) H0. rewrite Hf, H0 in *. split_and!; try assumption; try lia.
  now rewrite take_0, drop_nil, app_nil_r.
Qed.

Lemma bufcpy_fst (l : bytes) avail :
  fst (lzma_bufcpy l avail) = take (length (fst (lzma_bufcpy l avail))) l /\
  (length (fst (lzma_bufcpy l avail)) <= length l)%nat.
Proof using Type.
  cbn [lzma_bufcpy fst]. rewrite length_take.
  replace (Nat.min (Nat.min (length l) avail) (length l)) with (Nat.min (length l) avail) by lia.
  split; [reflexivity|lia].
Qed.

(** What a part of [simple_code] does with the new data [new]. *)
Definition step_ok (c c' : coder) (input rest D O out : bytes) (Q : coder -> bytes -> bytes -> Prop) : Prop :=
  exists new, supplies c c' input rest new /\ bytes_ok rest /\
    (size_ok (length (D ++ new)) -> Q c' (D ++ new) (O ++ out) /\ is_encoder c' = is_encoder c).

Lemma at_data_set_source c D n e : at_data c D -> at_data (set_source c n e) D.
Proof using Type. exact id. Qed.

(** The data is either at its end or in the buffer from its start on. *)
Definition settled (c : coder) (D O : bytes) : Prop :=
  (finished c D O /\ sc_size c = 0%nat) \/ (unfiltered c D O /\ sc_pos c = 0%nat).

Lemma code_in_out_spec c D O input avail action c' out rest :
  unfiltered c D O -> bytes_ok input ->
  code_in_out (C := recorded C) c input avail action = (LZMA_OK, c', out, rest) ->
  step_ok c c' input rest D O out settled.
Proof using Hs0 CL.
  intros Hu Hb H. unfold code_in_out in H.
  destruct (copy_or_code c input _ action) as [[[ret c1] more] rest1] eqn:Ec.
  destruct ret; try discriminate.
  destruct (copy_or_code_spec _ _ _ _ _ _ _ Ec Hb) as ((n1 & e & -> & He) & _ & Hm & Hr & Hsup). clear Ec.
  unfold unfiltered in Hu. pose proof (filter_of_frame (is_encoder c) D) as Hfr.
  destruct (filter_of (is_encoder c) D) as [[s X] n] eqn:EF.
  destruct Hu as (HD & Ha & Hend & Hp & Hal & Hf & -> & Hd). destruct (Hfr HD) as (F1 & F2 & F3 & F4).
  rewrite Hd in H.
  assert (bytes_ok (D ++ more)) as HDm by (now apply Forall_app).
  destruct (filter_any (set_source c n1 e) (drop n D ++ more)) as [[c2 data] m] eqn:Ef.
  pose proof (filter_any_frame (set_source c n1 e) (drop n D ++ more)) as Hc2. rewrite Ef in Hc2.
  destruct Hc2 as (N2 & E2 & I2). cbn [sc_next end_was_reached is_encoder set_source] in *.
  exists more.
  destruct (end_was_reached c2) eqn:Ee; injection H as <- <- <-;
    (split; [eapply supplies_next; [exact Hsup|reflexivity|exact N2]|split; [exact Hr|]]; intros Hs;
     split; [|exact I2]);
    pose proof (filter_any_spec (set_source c n1 e) D more (at_data_set_source _ _ _ _ Ha) HDm Hs) as Hc;
    cbn [is_encoder set_source] in Hc; rewrite EF, Ef in Hc;
    destruct Hc as (A1 & A5 & A6 & A7 & A8 & A9 & A10 & A11 & A12 & A13);
    cbn [buffer allocated sc_pos filtered set_source] in *.
  - left. split; [|reflexivity]. unfold finished, sc_size.
    cbn [is_encoder set_buffer end_was_reached sc_pos filtered allocated buffer length]. rewrite I2, A9, A8, A6, Hf.
    split_and!; try assumption; try lia; reflexivity.
  - right. split; [|reflexivity]. unfold unfiltered, sc_size.
    cbn [is_encoder set_buffer end_was_reached sc_pos filtered allocated buffer]. rewrite I2, A8, A6.
    destruct (filter_of (is_encoder c) (D ++ more)) as [[s2 X2] n2] eqn:EF2. cbn [fst snd] in A9, A10. subst X2 n2.
    rewrite length_drop, drop_0. split_and!; try assumption; try lia.
    rewrite take_app_add'; [reflexivity|rewrite length_take; lia].
Qed.

Lemma code_in_buffer_spec c D O input avail action c' out rest :
  unfiltered c D O -> sc_pos c = 0%nat -> bytes_ok input ->
  code_in_buffer (C := recorded C) c input avail action = (LZMA_OK, c', out, rest) ->
  step_ok c c' input rest D O out flushing.
Proof using Hs0 CL.
  intros Hu H0 Hb H. unfold code_in_buffer in H.
  destruct (copy_or_code c input _ action) as [[[ret c1] more] rest1] eqn:Ec.
  destruct ret; try (destruct (call_filter _ _) as [[? ?] ?]; discriminate); try discriminate.
  destruct (copy_or_code_spec _ _ _ _ _ _ _ Ec Hb) as ((n1 & e & -> & He) & Hlm & Hm & Hr & Hsup). clear Ec.
  unfold unfiltered in Hu. pose proof (filter_of_frame (is_encoder c) D) as Hfr.
  destruct (filter_of (is_encoder c) D) as [[s X] n] eqn:EF.
  destruct Hu as (HD & Ha & Hend & Hp & Hal & Hf & -> & Hd). destruct (Hfr HD) as (F1 & F2 & F3 & F4).
  rewrite H0, drop_0 in Hd. cbn [sc_pos filtered buffer set_source set_buffer] in H. rewrite Hd in H.
  assert (bytes_ok (D ++ more)) as HDm by (now apply Forall_app).
  set (c1 := set_buffer _ _ _ (drop n D ++ more)) in H.
  destruct (call_filter c1 (drop n D ++ more)) as [[c2 data] m] eqn:Ef.
  assert (sc_next c2 = n1 /\ end_was_reached c2 = e /\ is_encoder c2 = is_encoder c) as (N2 & E2 & I2).
  { unfold call_filter in Ef. destruct (filter _ _ _ _) as [[? ?] ?]. injection Ef as <- _ _. now split_and!. }
  destruct (lzma_bufcpy _ avail) as [o r] eqn:Eb. injection H as <- <- <-. exists more.
  split; [eapply supplies_next; [exact Hsup|reflexivity|exact N2]|split; [exact Hr|]]. intros Hs. split; [|exact I2].
  pose proof (call_filter_spec c1 D more Ha HDm Hs) as Hc.
  assert (is_encoder c1 = is_encoder c) as Hi by reflexivity. rewrite Hi, EF, Ef in Hc.
  destruct Hc as (A1 & A2 & A3 & A4 & A5 & A6 & A7 & A8 & A9 & A10 & A11 & A12 & A13).
  assert (sc_pos c1 = 0%nat /\ allocated c1 = allocated c) as [P1 P2] by (split; [exact H0|reflexivity]).
  rewrite A7, P1, drop_0 in Eb. rewrite A7, P1, Nat.add_0_l.
  set (k := if end_was_reached c2 then length data else m) in *.
  assert (length data <= allocated c)%nat as Hla.
  { assert (sc_size c = length (drop n D)) as Hsz by (unfold sc_size; now rewrite Hd).
    rewrite length_app in A11. lia. }
  assert (k <= length data)%nat as Hk by (subst k; destruct (end_was_reached c2); lia).
  destruct (bufcpy_fst (take k data) avail) as [Ho Hl2]. rewrite Eb in Ho, Hl2. cbn [fst] in Ho, Hl2.
  rewrite length_take in Hl2.
  clear Eb.
  unfold flushing, sc_size. cbn [is_encoder set_buffer sc_pos filtered buffer allocated end_was_reached].
  rewrite I2, A6, P2.
  destruct (filter_of (is_encoder c) (D ++ more)) as [[s2 X2] n2] eqn:EF2. cbn [fst snd] in A9, A10. subst X2 n2.
  split_and!; try assumption; try lia.
  destruct (end_was_reached c2) eqn:Ee; subst k.
  - split; [|reflexivity]. rewrite <- app_assoc. f_equal. rewrite Ho at 1. rewrite firstn_all. apply take_drop.
  - split; [exact A1|]. split; [|exact A13].
    rewrite <- app_assoc. rewrite Ho at 1. rewrite take_drop.
    rewrite take_app_add' by (rewrite length_take; lia). reflexivity.
Qed.

(** The return code tells whether the end was written. *)
Definition code_post (ret : lzma_ret) (c : coder) (D O : bytes) : Prop :=
  flushing c D O /\
  (ret = LZMA_STREAM_END -> O = snd (fst (filter_of (is_encoder c) D))) /\
  (ret = LZMA_OK -> end_was_reached c = true -> (sc_pos c < filtered c)%nat).

Lemma code_post_end c D O :
  flushing c D O ->
  code_post (if end_was_reached c && (sc_pos c =? sc_size c)%nat then LZMA_STREAM_END else LZMA_OK) c D O.
Proof using Type.
  intros H. split; [exact H|]. unfold flushing in H. destruct (filter_of (is_encoder c) D) as [[s X] n].
  destruct H as (_ & Hp & Hs & _ & H). destruct (end_was_reached c); cbn [andb].
  - destruct H as [H Hf]. destruct (Nat.eqb_spec (sc_pos c) (sc_size c)) as [E|E].
    + split; [|discriminate]. intros _. rewrite E in H. unfold sc_size in H. rewrite drop_all, app_nil_r in H. exact H.
    + split; [discriminate|]. intros _ _. lia.
  - split; discriminate.
Qed.

Lemma step_ok_post c c' input rest D O out (Q : coder -> bytes -> bytes -> Prop) ret :
  step_ok c c' input rest D O out Q ->
  (forall D O, Q c' D O -> code_post ret c' D O) -> step_ok c c' input rest D O out (code_post ret).
Proof using Type.
  intros (new & H1 & H2 & H3) HQ. exists new. split; [exact H1|]. split; [exact H2|].
  intros Hs. destruct (H3 Hs) as [Hq He]. split; [now apply HQ|exact He].
Qed.

Lemma step_ok_trans c1 c2 c3 input rest1 rest2 D O out1 out2 Q1 Q2 :
  step_ok c1 c2 input rest1 D O out1 Q1 ->
  (forall D O, Q1 c2 D O -> step_ok c2 c3 rest1 rest2 D O out2 Q2) ->
  (exists new, supplies c2 c3 rest1 rest2 new /\ bytes_ok rest2) ->
  step_ok c1 c3 input rest2 D O (out1 ++ out2) Q2.
Proof using L.
  intros (new1 & S1 & B1 & H1) H2 (new2 & S2 & B2).
  exists (new1 ++ new2). split; [eapply supplies_trans; eassumption|]. split; [exact B2|].
  intros Hs. rewrite !app_assoc in *.
  destruct H1 as [Hq He]; [eapply size_ok_le; [|exact Hs]; rewrite !length_app; lia|].
  destruct (H2 _ _ Hq) as (new2' & S2' & _ & H4).
  assert (new2' = new2) as -> by (eapply supplies_unique; eassumption).
  destruct (H4 Hs) as [Hq2 He2]. split; [exact Hq2|congruence].
Qed.

(** A step that takes no data. *)
Lemma step_ok_stay (c c' : coder) input D O out (Q : coder -> bytes -> bytes -> Prop) :
  sc_next c' = sc_next c -> is_encoder c' = is_encoder c -> bytes_ok input ->
  (size_ok (length D) -> Q c' D (O ++ out)) -> step_ok c c' input input D O out Q.
Proof using Type.
  intros Hn He Hb HQ. exists []. split; [now apply supplies_nil|]. split; [exact Hb|].
  rewrite app_nil_r. intros Hs. split; [now apply HQ|exact He].
Qed.

Lemma code_in_buffer_supplies (c c' : coder) input avail action out rest :
  code_in_buffer (C := recorded C) c input avail action = (LZMA_OK, c', out, rest) -> bytes_ok input ->
  exists new, supplies c c' input rest new /\ bytes_ok rest.
Proof using CL.
  intros H Hb. unfold code_in_buffer in H.
  destruct (copy_or_code c input _ action) as [[[ret c1] more] rest1] eqn:Ec.
  destruct ret; try discriminate.
  destruct (copy_or_code_spec _ _ _ _ _ _ _ Ec Hb) as ((n1 & e & -> & _) & _ & _ & Hr & Hsup).
  unfold call_filter in H. destruct (filter _ _ _ _) as [[s data] m]. injection H as <- _ <-.
  exists more. split; [|exact Hr]. eapply supplies_next; [exact Hsup|reflexivity|reflexivity].
Qed.

(** The last part of [code_more], from a settled state. *)
Lemma code_rest_spec c D O input avail action ret c' out rest :
  settled c D O -> bytes_ok input ->
  (let '(ret, c, out, rest) :=
     if (0 <? sc_size c)%nat then code_in_buffer (C := recorded C) c input avail action
     else (LZMA_OK, c, [], input) in
   match ret with
   | LZMA_OK => (if end_was_reached c && (sc_pos c =? sc_size c)%nat then LZMA_STREAM_END else LZMA_OK, c, out, rest)
   | _ => (ret, c, out, rest)
   end) = (ret, c', out, rest) ->
  ret = LZMA_OK \/ ret = LZMA_STREAM_END ->
  step_ok c c' input rest D O out (code_post ret).
Proof using Hs0 CL.
  intros Hs Hb H Hret. destruct (Nat.ltb_spec 0 (sc_size c)) as [Hz|Hz].
  - destruct Hs as [[_ Hz0]|[Hu H0]]; [lia|].
    destruct (code_in_buffer c input avail action) as [[[r c1] o] rs] eqn:Ec.
    assert (r = LZMA_OK) as ->.
    { unfold code_in_buffer in Ec. destruct (copy_or_code _ _ _ _) as [[[r1 ?] ?] ?] eqn:Ecc.
      assert (r1 <> LZMA_STREAM_END) as Hne.
      { unfold copy_or_code in Ecc. destruct (sc_next c) as [nn|].
        - destruct (code nn _ _ _) as [[[[] ?] ?] ?]; congruence.
        - destruct (lzma_bufcpy _ _). congruence. }
      destruct r1; try congruence; try (destruct (call_filter _ _) as [[? ?] ?]; destruct (lzma_bufcpy _ _); congruence);
        injection Ec as <- <- <- <-; injection H as <- _ _ _; destruct Hret; discriminate. }
    injection H as <- <- <- <-.
    eapply step_ok_post; [eapply code_in_buffer_spec; eassumption|]. intros D' O'. apply code_post_end.
  - injection H as <- <- <- <-. apply step_ok_stay; try reflexivity; [assumption|]. intros _. rewrite app_nil_r.
    apply code_post_end. destruct Hs as [[Hf _]|[Hu H0]]; [now apply finished_flushing|now apply unfiltered_flushing].
Qed.

Lemma copy_or_code_not_end (c c' : coder) input avail action out rest :
  copy_or_code (C := recorded C) c input avail action <> (LZMA_STREAM_END, c', out, rest).
Proof using Type.
  unfold copy_or_code. destruct (sc_next c) as [n|].
  - destruct (code n _ _ _) as [[[[] ?] ?] ?]; congruence.
  - destruct (lzma_bufcpy _ _). congruence.
Qed.

(** The two parts that code do not return [LZMA_STREAM_END]. *)
Lemma code_in_out_not_end (c c' : coder) input avail action out rest :
  code_in_out (C := recorded C) c input avail action <> (LZMA_STREAM_END, c', out, rest).
Proof using Type.
  unfold code_in_out. destruct (copy_or_code _ _ _ _) as [[[r c1] o] rs] eqn:E.
  destruct r; try discriminate.
  - destruct (filter_any _ _) as [[? ?] ?]. destruct (end_was_reached _); discriminate.
  - now apply copy_or_code_not_end in E.
Qed.

Lemma code_in_buffer_not_end (c c' : coder) input avail action out rest :
  code_in_buffer (C := recorded C) c input avail action <> (LZMA_STREAM_END, c', out, rest).
Proof using Type.
  unfold code_in_buffer. destruct (copy_or_code _ _ _ _) as [[[r c1] o] rs] eqn:Ec.
  destruct r; try discriminate; [|now apply copy_or_code_not_end in Ec].
  destruct (call_filter _ _) as [[? ?] ?]. destruct (lzma_bufcpy _ _). discriminate.
Qed.

Lemma code_first_supplies (c c' : coder) input avail action out rest :
  bytes_ok input -> code_first (C := recorded C) c input avail action = (LZMA_OK, c', out, rest) ->
  exists new, supplies c c' input rest new /\ bytes_ok rest.
Proof using CL.
  intros Hb H. unfold code_first in H. case_if_in H.
  - unfold code_in_out in H. destruct (copy_or_code c input _ action) as [[[r c1] more] rest1] eqn:Ec.
    destruct r; try discriminate.
    destruct (copy_or_code_spec _ _ _ _ _ _ _ Ec Hb) as ((n1 & e & -> & _) & _ & _ & Hr & Hsup).
    pose proof (filter_any_frame (set_source c n1 e) (drop (sc_pos c) (buffer c) ++ more)) as Hfr.
    destruct (filter_any _ _) as [[c2 data] m]. destruct Hfr as (N2 & _ & _). exists more.
    case_if_in H; injection H as <- _ <-; (split; [|exact Hr]); (eapply supplies_next; [exact Hsup|reflexivity|exact N2]).
  - case_if_in H; injection H as <- _ <-; exists []; (split; [now apply supplies_nil|assumption]).
Qed.

Lemma code_first_spec c D O input avail action c' out rest :
  unfiltered c D O -> bytes_ok input ->
  code_first (C := recorded C) c input avail action = (LZMA_OK, c', out, rest) ->
  step_ok c c' input rest D O out settled.
Proof using Hs0 CL.
  intros Hu Hb H. unfold code_first in H.
  case_if_in H; [eapply code_in_out_spec; eassumption|].
  case_if_in H; injection H as <- <- <-; apply step_ok_stay; try reflexivity; try assumption; intros _;
    rewrite app_nil_r; right.
  - split; [|reflexivity]. unfold unfiltered, sc_size in *.
    cbn [is_encoder set_buffer end_was_reached sc_pos filtered allocated buffer].
    destruct (filter_of (is_encoder c) D) as [[s X] n]. rewrite drop_0, length_drop.
    destruct Hu as (H1 & H2 & H3 & H4 & H5 & H6 & H7 & H8). split_and!; try assumption; lia.
  - split; [exact Hu|]. apply Nat.ltb_ge in Heqb0. lia.
Qed.

Lemma code_more_spec c D O input avail action ret c' out rest :
  unfiltered c D O -> bytes_ok input ->
  code_more (C := recorded C) c input avail action = (ret, c', out, rest) ->
  ret = LZMA_OK \/ ret = LZMA_STREAM_END -> step_ok c c' input rest D O out (code_post ret).
Proof using Hs0 CL.
  intros Hu Hb H Hret. unfold code_more in H.
  destruct (code_first c input avail action) as [[[r1 c1] out1] rest1] eqn:E1.
  destruct r1; try (injection H as <- <- <- <-; destruct Hret; discriminate).
  2: { exfalso. unfold code_first in E1. case_if_in E1; [now apply code_in_out_not_end in E1|].
       case_if_in E1; discriminate. }
  pose proof (code_first_spec _ _ _ _ _ _ _ _ _ Hu Hb E1) as S1.
  assert (bytes_ok rest1) as Hb1 by (destruct S1 as (? & _ & ? & _); assumption).
  set (part := if (0 <? sc_size c1)%nat then code_in_buffer (C := recorded C) c1 rest1 (avail - length out1) action
               else (LZMA_OK, c1, [], rest1)).
  assert (exists out2, out = out1 ++ out2 /\
    (let '(ret, c, out, rest) := part in
     match ret with
     | LZMA_OK => (if end_was_reached c && (sc_pos c =? sc_size c)%nat then LZMA_STREAM_END else LZMA_OK, c, out, rest)
     | _ => (ret, c, out, rest)
     end) = (ret, c', out2, rest)) as (out2 & -> & H2).
  { subst part. destruct (0 <? sc_size c1)%nat.
    - destruct (code_in_buffer c1 rest1 _ action) as [[[r2 c2] o2] rest2].
      destruct r2; injection H as <- <- <- <-; eexists; split; reflexivity.
    - injection H as <- <- <- <-. exists []. now rewrite app_nil_r. }
  eapply step_ok_trans; [exact S1| |].
  - intros D' O' Hset. eapply code_rest_spec; eassumption.
  - subst part. destruct (0 <? sc_size c1)%nat.
    + destruct (code_in_buffer c1 rest1 _ action) as [[[r2 c2] o2] rest2] eqn:E2.
      destruct r2; try (injection H2 as <- <- <- <-; destruct Hret; discriminate).
      * injection H2 as _ <- _ <-. eapply code_in_buffer_supplies; eassumption.
      * now apply code_in_buffer_not_end in E2.
    + injection H2 as _ <- _ <-. exists []. split; [now apply supplies_nil|assumption].
Qed.

Lemma code_more_supplies (c c' : coder) input avail action ret out rest :
  bytes_ok input -> code_more (C := recorded C) c input avail action = (ret, c', out, rest) ->
  ret = LZMA_OK \/ ret = LZMA_STREAM_END -> exists new, supplies c c' input rest new /\ bytes_ok rest.
Proof using CL.
  intros Hb H Hret. unfold code_more in H.
  destruct (code_first c input avail action) as [[[r1 c1] out1] rest1] eqn:E1.
  destruct r1; try (injection H as <- <- <- <-; destruct Hret; discriminate).
  2: { exfalso. unfold code_first in E1. case_if_in E1; [now apply code_in_out_not_end in E1|].
       case_if_in E1; discriminate. }
  destruct (code_first_supplies _ _ _ _ _ _ _ Hb E1) as (new1 & S1 & B1).
  destruct (0 <? sc_size c1)%nat.
  - destruct (code_in_buffer c1 rest1 _ action) as [[[r2 c2] o2] rest2] eqn:E2.
    destruct r2; try (injection H as <- <- <- <-; destruct Hret; discriminate).
    + injection H as _ <- _ <-. destruct (code_in_buffer_supplies _ _ _ _ _ _ _ E2 B1) as (new2 & S2 & B2).
      exists (new1 ++ new2). split; [eapply supplies_trans; eassumption|assumption].
    + now apply code_in_buffer_not_end in E2.
  - injection H as _ <- _ <-. eauto.
Qed.

Lemma simple_code_supplies (c c' : coder) input avail action ret out rest :
  bytes_ok input -> code (Coder := simple_code (C := recorded C)) c input avail action = (ret, c', out, rest) ->
  ret = LZMA_OK \/ ret = LZMA_STREAM_END -> exists new, supplies c c' input rest new /\ bytes_ok rest.
Proof using CL.
  intros Hb H Hret. unfold code, simple_code in H.
  assert (forall c0 a o, sc_next c0 = sc_next c ->
    (let '(ret, c, more, rest) := code_more (C := recorded C) c0 input a action in (ret, c, o ++ more, rest)) =
      (ret, c', out, rest) ->
    exists new, supplies c c' input rest new /\ bytes_ok rest) as Hmore.
  { intros c0 a o E E'. destruct (code_more c0 input a action) as [[[r c1] more] rest1] eqn:Em.
    injection E' as <- <- _ <-. destruct (code_more_supplies _ _ _ _ _ _ _ _ Hb Em Hret) as (new & S & B).
    exists new. split; [|exact B]. eapply supplies_next; [exact S|now rewrite E|reflexivity]. }
  case_if_in H; [injection H as <- _ _ _; destruct Hret; discriminate|].
  case_if_in H.
  - destruct (lzma_bufcpy _ avail) as [o r].
    case_if_in H; [injection H as _ <- _ <-; exists []; now split; [apply supplies_nil|]|].
    case_if_in H; [injection H as _ <- _ <-; exists []; now split; [apply supplies_nil|]|].
    eapply Hmore; [|exact H]. reflexivity.
  - destruct (code_more _ input avail action) as [[[r c1] more] rest1] eqn:Em. injection H as -> -> -> ->.
    destruct (code_more_supplies _ _ _ _ _ _ _ _ Hb Em Hret) as (new & S & B). exists new. split; [|exact B].
    eapply supplies_next; [exact S|reflexivity|reflexivity].
Qed.

Lemma simple_code_spec c D O input avail action ret c' out rest :
  flushing c D O -> (end_was_reached c = true -> (sc_pos c < filtered c)%nat) -> bytes_ok input ->
  code (Coder := simple_code (C := recorded C)) c input avail action = (ret, c', out, rest) ->
  ret = LZMA_OK \/ ret = LZMA_STREAM_END -> step_ok c c' input rest D O out (code_post ret).
Proof using Hs0 CL.
  intros Hf Hact Hb H Hret. unfold code, simple_code in H.
  case_if_in H; [injection H as <- _ _ _; destruct Hret; discriminate|]. clear Heqb.
  pose proof Hf as Hf'. unfold flushing in Hf'.
  destruct (filter_of (is_encoder c) D) as [[s X] n] eqn:EF.
  destruct Hf' as (HD & Hp & Hsz & Hu & Hinv).
  destruct (Nat.ltb_spec (sc_pos c) (filtered c)) as [Hlt|Hge].
  - destruct (lzma_bufcpy _ avail) as [o r] eqn:Eb.
    destruct (bufcpy_fst (drop (sc_pos c) (take (filtered c) (buffer c))) avail) as [Ho Hl].
    rewrite Eb in Ho, Hl. cbn [fst] in Ho, Hl. rewrite length_drop, length_take in Hl. unfold sc_size in *.
    assert (flushing (set_buffer c (sc_pos c + length o) (filtered c) (buffer c)) D (O ++ o)) as Hf2.
    { unfold flushing, sc_size. cbn [is_encoder set_buffer sc_pos filtered buffer allocated end_was_reached].
      rewrite EF. split_and!; try assumption; try lia. destruct (end_was_reached c).
      - destruct Hinv as [<- Hfz]. split; [|exact Hfz]. rewrite <- drop_drop, <- app_assoc. f_equal.
        rewrite Hfz, firstn_all in Ho. rewrite Ho at 1. apply take_drop.
      - destruct Hinv as (I1 & <- & I3). split; [exact I1|split; [|exact I3]].
        rewrite <- drop_drop, <- app_assoc. f_equal. rewrite Ho at 1. apply take_drop. }
    cbn [sc_pos filtered set_buffer end_was_reached] in H.
    destruct (Nat.ltb_spec (sc_pos c + length o) (filtered c)) as [Hlt2|Hge2].
    + injection H as <- <- <- <-. apply step_ok_stay; try reflexivity; [assumption|]. intros _.
      split; [exact Hf2|]. split; [discriminate|]. intros _ _. exact Hlt2.
    + destruct (end_was_reached c) eqn:Ee.
      * injection H as <- <- <- <-. apply step_ok_stay; try reflexivity; [assumption|]. intros _.
        split; [exact Hf2|]. split; [|discriminate]. intros _. cbn [is_encoder set_buffer].
        unfold flushing in Hf2. cbn [is_encoder set_buffer sc_pos filtered buffer end_was_reached] in Hf2.
        rewrite EF, Ee in *. cbn [fst snd]. destruct Hf2 as (_ & Hp2 & _ & _ & <- & Hfz).
        unfold sc_size in Hfz. cbn [buffer set_buffer] in Hfz. rewrite drop_ge by lia. now rewrite app_nil_r.
      * destruct (code_more _ input _ action) as [[[r1 c1] more] rest1] eqn:Em. injection H as <- <- <- <-.
        change (o ++ more) with (o ++ more). 
        eapply (step_ok_trans c (set_buffer c (sc_pos c + length o) 0 (buffer c)) c1 input input rest1 D O o more
          (fun c D O => unfiltered c D O)).
        -- apply step_ok_stay; try reflexivity; [assumption|]. intros _.
           unfold flushing in Hf2. unfold unfiltered, sc_size in *.
           cbn [is_encoder set_buffer sc_pos filtered buffer allocated end_was_reached] in *.
           rewrite EF, Ee in *. destruct Hf2 as (_ & Hp2 & _ & _ & I1 & I2 & I3). destruct Hinv as (_ & I4 & _).
           assert (sc_pos c + length o = filtered c)%nat as Hpf by lia. rewrite Hpf in *.
           split_and!; try assumption; try lia; try reflexivity.
           rewrite <- I2. rewrite drop_ge by (rewrite length_take; lia). now rewrite app_nil_r.
        -- intros D' O' Hun. eapply code_more_spec; eassumption.
        -- eapply code_more_supplies; eassumption.
  - assert (end_was_reached c = false) as Ee by (destruct (end_was_reached c); [specialize (Hact eq_refl); lia|reflexivity]).
    rewrite Ee in Hinv. destruct Hinv as (I1 & I2 & I3). unfold sc_size in *.
    destruct (code_more_spec (set_buffer c (sc_pos c) 0 (buffer c)) D O input avail action ret c' out rest)
      as (new & S & B & Q); try assumption.
    + unfold unfiltered, sc_size. cbn [is_encoder set_buffer sc_pos filtered buffer allocated end_was_reached].
      rewrite EF. assert (sc_pos c = filtered c) as Hpf by lia. rewrite Hpf in *.
      split_and!; try assumption; try lia; try reflexivity.
      rewrite <- I2. rewrite drop_ge by (rewrite length_take; lia). now rewrite app_nil_r.
    + exists new. split; [|split; [exact B|exact Q]]. eapply supplies_next; [exact S|reflexivity|reflexivity].
Qed.

(** *** Sequences of calls *)

(** The state that [lzma_simple_coder_init] sets up. *)
Definition started (c : coder) : Prop :=
  (sc_next c = None \/ exists n, sc_next c = Some (n, [])) /\ end_was_reached c = false /\
  simple c = s0 /\ now_pos c = u32 p0 /\ (unfiltered_max <= allocated c)%nat /\
  sc_pos c = 0%nat /\ filtered c = 0%nat /\ buffer c = [].

Lemma started_flushing c : started c -> flushing c [] [].
Proof using L.
  intros (_ & He & Hs & Hp & Hu & P0 & F0 & B0). unfold flushing, filter_of, at_data, filter_of, sc_size.
  rewrite filter_nil, He, P0, F0, B0. cbn [length take drop app]. split_and!; try lia; try reflexivity; try assumption.
  - constructor.
  - now rewrite Z.add_0_r.
Qed.

Lemma source_data_snoc (c1 c2 : coder) calls rets k ret rest new :
  length calls = length rets -> supplies c1 c2 (cc_input k) rest new ->
  source_data c2 (calls ++ [k]) (rets ++ [(ret, rest)]) = source_data c1 calls rets ++ new.
Proof using Type.
  intros Hl H. unfold source_data, supplies in *. destruct (sc_next c1) as [[n d]|].
  - destruct H as [n' ->]. reflexivity.
  - destruct H as [-> E]. rewrite zip_with_app, concat_app by assumption. f_equal.
    cbn [zip_with concat snd]. rewrite app_nil_r, E, length_app.
    replace (length new + length rest - length rest)%nat with (length new) by lia. apply take_app_length.
Qed.

Lemma run_inv c calls : started c -> Forall (fun k => bytes_ok (cc_input k)) calls ->
  let '(c', rets, out) := run_coder (C := simple_code (C := recorded C)) c calls in
  Forall (fun r => r.1 = LZMA_OK) rets ->
  let D := source_data c' calls rets in
  size_ok (length D) ->
  flushing c' D out /\ (end_was_reached c' = true -> (sc_pos c' < filtered c')%nat) /\
  is_encoder c' = is_encoder c.
Proof using Hs0 CL.
  intros Hst. induction calls as [|k calls IH] using rev_ind; intros Hin.
  - cbn [run_coder]. intros _ _. split; [|split; [|reflexivity]].
    + unfold source_data. destruct (proj1 Hst) as [->|[n ->]]; now apply started_flushing.
    + destruct Hst as (_ & -> & _). discriminate.
  - apply Forall_app in Hin as [Hin Hk]. apply Forall_cons in Hk as [Hk _]. specialize (IH Hin).
    pose proof (run_coder_length (C := simple_code (C := recorded C)) calls c) as Hlen.
    rewrite run_coder_app. destruct (run_coder c calls) as [[c1 rets] out1]. cbn [fst snd] in Hlen.
    cbn [run_coder]. destruct (code c1 _ _ _) as [[[ret c2] out2] rest] eqn:E. rewrite app_nil_r.
    intros Hrets Hs. apply Forall_app in Hrets as [Hrets Hr]. apply Forall_cons in Hr as [Hr _]. cbn [fst] in Hr.
    specialize (IH Hrets). cbv zeta in IH. subst ret.
    destruct (simple_code_supplies c1 c2 _ _ _ _ _ _ Hk E (or_introl eq_refl)) as (new & Hsup & _).
    rewrite (source_data_snoc c1 c2 calls rets k LZMA_OK rest new (eq_sym Hlen) Hsup) in *.
    destruct IH as (I1 & I2 & I3); [eapply size_ok_le; [|exact Hs]; rewrite length_app; lia|].
    destruct (simple_code_spec c1 _ out1 _ _ _ _ _ _ _ I1 I2 Hk E (or_introl eq_refl)) as (new' & Hsup' & _ & HQ).
    assert (new' = new) as -> by (eapply supplies_unique; eassumption).
    destruct (HQ Hs) as [(Q1 & _ & Q3) Q4]. split; [exact Q1|]. split; [now apply Q3|congruence].
Qed.

Lemma flushing_bounds c D O :
  flushing c D O ->
  let X := snd (fst (filter_of (is_encoder c) D)) in
  O `prefix_of` X /\ (length D <= length O + allocated c)%nat.
Proof using L.
  unfold flushing. pose proof (filter_of_frame (is_encoder c) D) as Hf.
  destruct (filter_of (is_encoder c) D) as [[s X] n]. cbn [fst snd].
  intros (HD & Hp & Hsz & Hu & H). destruct (Hf HD) as (F1 & F2 & F3 & F4). unfold sc_size in *.
  destruct (end_was_reached c).
  - destruct H as [<- _]. split; [now eexists|]. rewrite <- F1, length_app, length_drop. lia.
  - destruct H as (_ & H & Hd). split.
    + exists (drop (sc_pos c) (take (filtered c) (buffer c)) ++ drop n X). now rewrite app_assoc, H, take_drop.
    + apply (f_equal length) in H, Hd. rewrite length_app, length_drop, !length_take in H. rewrite !length_drop in Hd. lia.
Qed.

End Refinement.

(** *** The size of the buffer does not change *)

Section Allocated.
Context {T U : Type} {F : SimpleFilter T} {P : FilterParams T} {C : Coder U}.

Lemma copy_or_code_allocated (c : lzma_simple_coder T U) input avail action :
  allocated (snd (fst (fst (copy_or_code c input avail action)))) = allocated c.
Proof.
  unfold copy_or_code. destruct (sc_next c) as [n|].
  - destruct (code n _ _ _) as [[[[] ?] ?] ?]; reflexivity.
  - destruct (lzma_bufcpy _ _). reflexivity.
Qed.

Lemma call_filter_allocated (c : lzma_simple_coder T U) data :
  allocated (fst (fst (call_filter c data))) = allocated c.
Proof. unfold call_filter. now destruct (filter _ _ _ _) as [[? ?] ?]. Qed.

Lemma code_in_out_allocated (c : lzma_simple_coder T U) input avail action :
  allocated (snd (fst (fst (code_in_out c input avail action)))) = allocated c.
Proof.
  unfold code_in_out. pose proof (copy_or_code_allocated c input (avail - length (drop (sc_pos c) (buffer c))) action) as H.
  destruct (copy_or_code _ _ _ _) as [[[r c1] o] rs]. cbn [fst snd] in H. destruct r; try exact H.
  unfold filter_any. destruct (_ ++ o) as [|b l]; [destruct (end_was_reached c1); exact H|].
  pose proof (call_filter_allocated c1 (b :: l)) as H2. destruct (call_filter _ _) as [[c2 d] m]. cbn [fst] in H2.
  destruct (end_was_reached c2); cbn; congruence.
Qed.

Lemma code_in_buffer_allocated (c : lzma_simple_coder T U) input avail action :
  allocated (snd (fst (fst (code_in_buffer c input avail action)))) = allocated c.
Proof.
  unfold code_in_buffer. pose proof (copy_or_code_allocated c input (allocated c - sc_size c) action) as H.
  destruct (copy_or_code _ _ _ _) as [[[r c1] o] rs]. cbn [fst snd] in H. destruct r; try exact H.
  pose proof (call_filter_allocated (set_buffer c1 (sc_pos c1) (filtered c1) (buffer c1 ++ o))
    (buffer (set_buffer c1 (sc_pos c1) (filtered c1) (buffer c1 ++ o)))) as H2.
  destruct (call_filter _ _) as [[c2 d] m]. cbn [fst] in H2.
  destruct (lzma_bufcpy _ _). cbn. rewrite H2. exact H.
Qed.

Lemma code_more_allocated (c : lzma_simple_coder T U) input avail action :
  allocated (snd (fst (fst (code_more c input avail action)))) = allocated c.
Proof.
  unfold code_more.
  assert (allocated (snd (fst (fst (code_first c input avail action)))) = allocated c) as H.
  { unfold code_first. case_if; [apply code_in_out_allocated|]. case_if; reflexivity. }
  destruct (code_first c input avail action) as [[[r c1] o] rs].
  cbn [fst snd] in H. destruct r; try exact H.
  pose proof (code_in_buffer_allocated c1 rs (avail - length o) action) as H2.
  destruct (0 <? sc_size c1)%nat; [|exact H].
  destruct (code_in_buffer c1 rs _ action) as [[[r2 c2] o2] rs2]. cbn [fst snd] in H2.
  destruct r2; cbn; congruence.
Qed.

Lemma code_allocated (c : lzma_simple_coder T U) input avail action :
  allocated (snd (fst (fst (code (Coder := simple_code) c input avail action)))) = allocated c.
Proof.
  unfold code, simple_code. case_if; [reflexivity|]. case_if.
  - destruct (lzma_bufcpy _ _) as [o r]. case_if; [reflexivity|]. case_if; [reflexivity|].
    match goal with |- context [code_more ?a ?b ?d ?e] => pose proof (code_more_allocated a b d e) as H;
      destruct (code_more a b d e) as [[[r2 c2] o2] rs2] end. exact H.
  - match goal with |- context [code_more ?a ?b ?d ?e] => exact (code_more_allocated a b d e) end.
Qed.

Lemma run_allocated calls : forall c : lzma_simple_coder T U,
  allocated (fst (fst (run_coder (C := simple_code) c calls))) = allocated c.
Proof.
  induction calls as [|k calls IH]; intros c; cbn [run_coder]; [reflexivity|].
  pose proof (code_allocated c (cc_input k) (cc_avail k) (cc_action k)) as H.
  destruct (code c _ _ _) as [[[ret c1] out] rest]. specialize (IH c1). cbn [fst snd] in H.
  destruct (run_coder c1 calls) as [[c2 rets1] out1]. cbn [fst] in *. congruence.
Qed.

End Allocated.

(** ** Properties *)

Section Properties.
Context {T U : Type} {F : SimpleFilter T} {P : FilterParams T} {L : FilterLaws T}
  {C : Coder U} {CL : CoderLaws U}.
Abbreviation coder := (lzma_simple_coder T (U * bytes)).

(** A coder fresh from [lzma_simple_coder_init], whose next coder has not
    produced anything yet. *)
Definition fresh (c : coder) (s0 : T) (start_offset : option Z) (enc : bool) : Prop :=
  (exists next_init, lzma_simple_coder_init None s0 true start_offset enc next_init = Ok c) /\
  (sc_next c = None \/ exists n, sc_next c = Some (n, [])).

(** A run that is in order: [LZMA_OK] up to the last return code. *)
Definition run_returns (rets : list (lzma_ret * bytes)) (ret : lzma_ret) : Prop :=
  exists rets' rest, rets = rets' ++ [(ret, rest)] /\ Forall (fun r => r.1 = LZMA_OK) rets'.

Lemma fresh_started c s0 start_offset enc :
  fresh c s0 start_offset enc -> is_u32 (default 0 start_offset) ->
  started s0 (default 0 start_offset) c /\ is_encoder c = enc /\ allocated c = (2 * unfiltered_max)%nat.
Proof using Type.
  intros [[ni H] Hn] H32. unfold lzma_simple_coder_init in H. cbn [orb] in H.
  destruct (bool_decide _ || true); [|discriminate]. case_if_in H; [discriminate|].
  destruct (ni _) as [n|]; [|discriminate]. cbn [res_bind] in H. injection H as <-.
  cbn [sc_next end_was_reached is_encoder simple now_pos allocated sc_pos filtered buffer default fmap option_fmap option_map] in *.
  split; [|split; [reflexivity|cbn; lia]]. unfold started.
  cbn [sc_next end_was_reached simple now_pos allocated sc_pos filtered buffer].
  split_and!; try reflexivity; [exact Hn|symmetry; now apply u32_small|lia].
Qed.

Lemma run_spec s0 start_offset enc (c c' : coder) calls rets out ret :
  filter_inv s0 (default 0 start_offset) -> is_u32 (default 0 start_offset) -> fresh c s0 start_offset enc ->
  Forall (fun k => bytes_ok (cc_input k)) calls ->
  run_coder (C := simple_code (C := recorded C)) c calls = (c', rets, out) ->
  run_returns rets ret -> ret = LZMA_OK \/ ret = LZMA_STREAM_END ->
  let data := source_data c' calls rets in size_ok (length data) ->
  let X := snd (fst (filter s0 (default 0 start_offset) enc data)) in
  bytes_ok data /\ out `prefix_of` X /\ (length data <= length out + 2 * unfiltered_max)%nat /\
  (ret = LZMA_STREAM_END -> out = X).
Proof using CL.
  intros Hi H32 Hfresh Hb Hrun (rets' & rest & -> & Hok) Hret data Hs X.
  destruct (fresh_started _ _ _ _ Hfresh H32) as (Hst & He & Hal).
  induction calls as [|k calls _] using rev_ind.
  { cbn [run_coder] in Hrun. destruct rets'; discriminate. }
  apply Forall_app in Hb as [Hb Hk]. apply Forall_cons in Hk as [Hk _].
  pose proof (run_inv s0 _ Hi c calls Hst Hb) as Hinv.
  pose proof (run_coder_length (C := simple_code (C := recorded C)) calls c) as Hlen.
  pose proof (run_allocated (C := recorded C) calls c) as Hall.
  rewrite run_coder_app in Hrun. destruct (run_coder c calls) as [[c1 rets1] out1]. cbn [fst snd] in Hlen, Hall.
  cbn [run_coder] in Hrun. destruct (code c1 _ _ _) as [[[ret2 c2] out2] rest2] eqn:E. rewrite app_nil_r in Hrun.
  injection Hrun as <- Hr <-. apply app_inj_tail in Hr as [-> [= -> ->]]. subst data.
  destruct (simple_code_supplies c1 c2 _ _ _ _ _ _ Hk E Hret) as (new & Hsup & _).
  specialize (Hinv Hok). cbv zeta in Hinv. subst X.
  rewrite (source_data_snoc c1 c2 calls rets' k ret rest new (eq_sym Hlen) Hsup) in *.
  destruct Hinv as (I1 & I2 & I3); [eapply size_ok_le; [|exact Hs]; rewrite length_app; lia|].
  destruct (simple_code_spec s0 _ Hi c1 _ out1 _ _ _ _ _ _ _ I1 I2 Hk E Hret) as (new' & Hsup' & _ & HQ).
  assert (new' = new) as -> by (eapply supplies_unique; eassumption).
  destruct (HQ Hs) as [(Q1 & Q2 & _) Q4].
  pose proof (flushing_bounds s0 _ c2 _ _ Q1) as [B1 B2].
  rewrite Q4, I3, He in *. unfold filter_of in *. split_and!; try assumption.
  - unfold flushing in Q1. destruct (filter_of _ _ _ _) as [[? ?] ?]. apply Q1.
  - pose proof (code_allocated (C := recorded C) c1 (cc_input k) (cc_avail k) (cc_action k)) as Ha. rewrite E in Ha. cbn [fst snd] in Ha. lia.
Qed.

(** C11: refinement of the filter on the whole data.  While the calls of a BCJ
    coder return [LZMA_OK], what they wrote is a prefix of the filtered data, and
    no more than twice [unfiltered_max] bytes are held back; when
    [LZMA_STREAM_END] is returned, the whole filtered data was written.  It does
    not matter how input, output and the output of the next coder are cut. *)
Theorem simple_code_refines s0 start_offset enc (c c' : coder) calls rets out ret :
  filter_inv s0 (default 0 start_offset) -> is_u32 (default 0 start_offset) -> fresh c s0 start_offset enc ->
  Forall (fun k => bytes_ok (cc_input k)) calls ->
  run_coder (C := simple_code (C := recorded C)) c calls = (c', rets, out) ->
  run_returns rets ret -> ret = LZMA_OK \/ ret = LZMA_STREAM_END ->
  let data := source_data c' calls rets in size_ok (length data) ->
  let '(_, X, _) := filter s0 (default 0 start_offset) enc data in
  out `prefix_of` X /\ (length data <= length out + 2 * unfiltered_max)%nat /\
  (ret = LZMA_STREAM_END -> out = X).
Proof using CL.
  intros H1 H2 H3 H4 H5 H6 H7 data Hs. pose proof (run_spec s0 start_offset enc c c' calls rets out ret H1 H2 H3 H4 H5 H6 H7 Hs) as H.
  fold data in H. destruct (filter _ _ _ data) as [[s X] n]. apply H.
Qed.

(** C30: a BCJ decoder restores the data that went through the BCJ encoder, if
    the next coder of the decoder delivers what the encoder wrote; the calls of
    the two need not correspond. *)
Theorem simple_code_roundtrip s0 start_offset (ce ce' cd cd' : coder) calls calls' rets rets' out data :
  filter_inv s0 (default 0 start_offset) -> is_u32 (default 0 start_offset) ->
  fresh ce s0 start_offset true -> fresh cd s0 start_offset false ->
  Forall (fun k => bytes_ok (cc_input k)) calls -> Forall (fun k => bytes_ok (cc_input k)) calls' ->
  run_coder (C := simple_code (C := recorded C)) ce calls = (ce', rets, out) ->
  run_returns rets LZMA_STREAM_END -> size_ok (length (source_data ce' calls rets)) ->
  run_coder (C := simple_code (C := recorded C)) cd calls' = (cd', rets', data) ->
  run_returns rets' LZMA_STREAM_END -> source_data cd' calls' rets' = out ->
  data = source_data ce' calls rets.
Proof using CL.
  intros Hi H32 He Hd Hb Hb' Hre Hte Hs Hrd Htd Hsrc.
  destruct (run_spec s0 start_offset true ce ce' calls rets out LZMA_STREAM_END Hi H32 He Hb Hre Hte (or_intror eq_refl) Hs)
    as (HD & _ & _ & HX). specialize (HX eq_refl). set (orig := source_data ce' calls rets) in *.
  pose proof (filter_roundtrip s0 _ orig Hi HD Hs) as Hr.
  pose proof (filter_frame s0 (default 0 start_offset) true orig HD) as Hf.
  destruct (filter s0 (default 0 start_offset) true orig) as [[s1 X] n]. cbn [fst snd] in HX. subst X.
  destruct Hf as (Hl & _). 
  destruct (run_spec s0 start_offset false cd cd' calls' rets' data LZMA_STREAM_END Hi H32 Hd Hb' Hrd Htd (or_intror eq_refl))
    as (_ & _ & _ & HX); [now rewrite Hsrc, Hl|]. specialize (HX eq_refl). rewrite Hsrc, Hr in HX. exact HX.
Qed.

End Properties.

(** ** Witnesses: the ARM filter *)

Definition arm_coder_example (n : option unit) (enc : bool) : lzma_simple_coder unit (unit * bytes) :=
  {| sc_next := option_map (fun n => (n, [])) n; end_was_reached := false; is_encoder := enc; simple := tt;
     now_pos := 4096; allocated := 8; sc_pos := 0; filtered := 0; buffer := [] |}.

Lemma arm_fresh n enc :
  fresh (P := words_params) (arm_coder_example n enc) tt (Some 4096) enc.
Proof.
  split; [exists (fun _ => Ok (option_map (fun n => (n, [])) n)); reflexivity|].
  destruct n; [right; eexists; reflexivity|now left].
Defined.

(** The output space is small, so that the calls stop inside of instructions. *)
Definition arm_calls (data : bytes) : list coder_call :=
  [{| cc_input := take 6 data; cc_avail := 3; cc_action := LZMA_RUN |};
   {| cc_input := drop 6 data; cc_avail := 5; cc_action := LZMA_FINISH |};
   {| cc_input := drop 8 data; cc_avail := 9; cc_action := LZMA_FINISH |}].

Definition arm_data : bytes := [0x10; 0x00; 0x00; 0xEB; 1; 2; 0x20; 0x00; 0x00; 0xEB; 3].

Lemma simple_code_refines_witness :
  let '(c', rets, out) := run_coder (C := simple_code (F := arm_code) (C := recorded copy_code))
    (arm_coder_example (Some tt) true) (arm_calls arm_data) in
  let '(_, X, _) := arm_code tt 4096 true (source_data c' (arm_calls arm_data) rets) in out = X.
Proof.
  destruct (run_coder _ _) as [[c' rets] out] eqn:E.
  pose proof (simple_code_refines (F := arm_code) (P := words_params) (L := arm_laws) (C := copy_code) tt (Some 4096) true
    (arm_coder_example (Some tt) true) c' (arm_calls arm_data) rets out LZMA_STREAM_END eq_refl
    ltac:(unfold is_u32; cbn; lia) (arm_fresh _ _)
    ltac:(repeat constructor; unfold is_byte; lia) E) as H.
  assert (run_returns rets LZMA_STREAM_END) as Hr.
  { vm_compute in E. injection E as _ <- _. eexists [_; _], _. split; [reflexivity|]. repeat constructor. }
  specialize (H Hr (or_intror eq_refl) I). unfold filter in H. change (default 0 (Some 4096)) with 4096 in H.
  destruct (arm_code tt 4096 true _) as [[s X] n]. now apply H.
Defined.

Definition arm_encoded : bytes :=
  let '(_, X, _) := arm_code tt 4096 true arm_data in X.

Lemma arm_calls_bytes data : Forall is_byte data -> Forall (fun k => Forall is_byte (cc_input k)) (arm_calls data).
Proof. intros H. unfold arm_calls. repeat constructor; cbn [cc_input]; auto using Forall_take, Forall_drop. Qed.

Lemma arm_encoded_bytes : Forall is_byte arm_encoded.
Proof. unfold arm_encoded, arm_data. vm_compute. repeat constructor; discriminate. Qed.

Lemma simple_code_roundtrip_witness :
  snd (run_coder (C := simple_code (F := arm_code) (C := recorded copy_code)) (arm_coder_example (Some tt) false)
    (arm_calls arm_encoded)) = arm_data.
Proof.
  destruct (run_coder (C := simple_code (F := arm_code) (C := recorded copy_code))
    (arm_coder_example (Some tt) true) (arm_calls arm_data)) as [[ce' rets] out] eqn:Ee.
  destruct (run_coder (C := simple_code (F := arm_code) (C := recorded copy_code))
    (arm_coder_example (Some tt) false) (arm_calls arm_encoded)) as [[cd' rets'] data] eqn:Ed.
  cbn [snd].
  pose proof (simple_code_roundtrip (F := arm_code) (P := words_params) (L := arm_laws) (C := copy_code) tt (Some 4096)
    (arm_coder_example (Some tt) true) ce' (arm_coder_example (Some tt) false) cd' (arm_calls arm_data)
    (arm_calls arm_encoded) rets rets' out data eq_refl ltac:(unfold is_u32; cbn; lia) (arm_fresh _ _) (arm_fresh _ _)
    ltac:(repeat constructor; unfold is_byte; lia)
    (arm_calls_bytes _ arm_encoded_bytes) Ee) as H.
  vm_compute in Ee, Ed. injection Ee as <- <- <-. injection Ed as <- <- <-.
  etransitivity; [apply H|vm_compute; reflexivity].
  - eexists [_; _], _. split; [reflexivity|]. repeat constructor.
  - exact I.
  - reflexivity.
  - eexists [_; _], _. split; [reflexivity|]. repeat constructor.
  - vm_compute. reflexivity.
Defined.
