(* ===== verification/CxxString.v ===== *)
(** * C++ standard library: strings and numbers

    The operations of [std::string_view] and [<charconv>] that the archive code
    of [lib/archive] uses, on strings of [char] given as lists of byte values,
    and their laws. *)

From S2P Require Import Prelude.
From Stdlib Require Import Ascii String.
From stdpp Require Import list.
Import (notations) ListNotations.

Open Scope Z_scope.

(** ** Literals *)

Fixpoint str (s : string) : bytes :=
  match s with
  | EmptyString => []
  | String.String c s => Z.of_nat (nat_of_ascii c) :: str s
  end.

(** ** Searching: [find], [memchr], [starts_with], [ends_with] *)

Fixpoint find_byte (c : Z) (s : bytes) : option nat :=
  match s with
  | [] => None
  | d :: s => if d =? c then Some 0%nat else option_map Datatypes.S (find_byte c s)
  end.

Definition starts_with (p s : bytes) : bool := bool_decide (take (length p) s = p).
Definition ends_with (p s : bytes) : bool :=
  (length p <=? length s)%nat && bool_decide (drop (length s - length p) s = p).
Definition contains (c : Z) (s : bytes) : bool := bool_decide (find_byte c s <> None).

(** ** [std::from_chars]

    [lo] and [hi] are the limits of the integer type; the result is [None] for
    [invalid_argument] and [result_out_of_range], in which cases the value is
    left as it was.  A minus sign is recognised for signed types. *)

Definition is_digit (base c : Z) : bool := (48 <=? c) && (c <? 48 + base).

Fixpoint span_digits (base : Z) (s : bytes) : bytes :=
  match s with
  | [] => []
  | c :: s => if is_digit base c then c :: span_digits base s else []
  end.

Definition digits_value (base : Z) (ds : bytes) : Z := fold_left (fun v c => v * base + (c - 48)) ds 0.

Definition from_chars (lo hi base : Z) (s : bytes) : option Z :=
  let minus := match s with c :: _ => (c =? 45) && (lo <? 0) | [] => false end in
  match span_digits base (if minus then tail s else s) with
  | [] => None
  | ds =>
      let v := if minus then - digits_value base ds else digits_value base ds in
      if (lo <=? v) && (v <=? hi) then Some v else None
  end.

Definition INT32_MIN : Z := -2147483648.
Definition INT32_MAX : Z := 2147483647.
Definition i32 (x : Z) : Z := let y := u32 x in if y <? 2147483648 then y else y - 4294967296.

Definition from_chars_i64 (base : Z) (s : bytes) : option Z := from_chars INT64_MIN INT64_MAX base s.
Definition from_chars_int (s : bytes) : option Z := from_chars INT32_MIN INT32_MAX 10 s.

Example from_chars_ex :
  from_chars_i64 8 (str "0000644 ") = Some 420 /\ from_chars_i64 10 (str "-12.5") = Some (-12) /\
  from_chars_i64 8 (str " 644") = None /\ from_chars_int (str "2147483648") = None.
Proof. vm_compute. auto. Qed.

(** ** Laws *)

Lemma find_byte_Some c s n :
  find_byte c s = Some n -> s = take n s ++ (c :: drop (Datatypes.S n) s) /\ (c ∉ take n s) /\ (n < length s)%nat.
Proof.
  revert n. induction s as [|d s IH]; intros n H; [discriminate|]. cbn [find_byte] in H.
  destruct (Z.eqb_spec d c) as [->|Hd].
  - injection H as <-. cbn. rewrite drop_0. repeat split; [apply not_elem_of_nil|lia].
  - destruct (find_byte c s) as [m|]; [|discriminate]. injection H as <-.
    destruct (IH m eq_refl) as (E & Hn & Hl). cbn [take drop app length]. rewrite <- E at 1.
    rewrite not_elem_of_cons. repeat split; auto; lia.
Qed.

Lemma find_byte_None c s : find_byte c s = None <-> c ∉ s.
Proof.
  induction s as [|d s IH]; cbn [find_byte]; [split; [intros; apply not_elem_of_nil|reflexivity]|].
  rewrite not_elem_of_cons. destruct (Z.eqb_spec d c) as [->|Hd]; [split; [discriminate|intros []; congruence]|].
  rewrite <- IH. destruct (find_byte c s); cbn; intuition congruence.
Qed.

Lemma find_byte_app c a b : c ∉ a -> find_byte c (a ++ c :: b) = Some (length a).
Proof.
  induction a as [|d a IH]; intros Ha; cbn [app find_byte length]; [now rewrite Z.eqb_refl|].
  apply not_elem_of_cons in Ha as [Hd Ha]. destruct (Z.eqb_spec d c); [congruence|]. now rewrite IH.
Qed.

Lemma contains_spec c s : contains c s = false <-> c ∉ s.
Proof.
  unfold contains. rewrite bool_decide_eq_false, <- find_byte_None. destruct (find_byte c s); intuition congruence.
Qed.

Lemma span_digits_app base ds rest :
  Forall (fun c => is_digit base c = true) ds ->
  match rest with c :: _ => is_digit base c = false | [] => True end ->
  span_digits base (ds ++ rest) = ds.
Proof.
  induction 1 as [|c ds Hc _ IH]; intros Hr; cbn [app span_digits].
  - destruct rest as [|c rest]; [reflexivity|]. cbn [span_digits]. now rewrite Hr.
  - now rewrite Hc, IH.
Qed.

(** A number written with digits is read back, up to the first character that
    is no digit. *)
Lemma from_chars_digits lo hi base ds rest :
  0 < base <= 10 -> ds <> [] -> Forall (fun c => is_digit base c = true) ds ->
  match rest with c :: _ => is_digit base c = false | [] => True end ->
  lo <= digits_value base ds <= hi -> from_chars lo hi base (ds ++ rest) = Some (digits_value base ds).
Proof.
  intros Hb Hne Hds Hr Hv. unfold from_chars.
  assert (match ds ++ rest with c :: _ => (c =? 45) && (lo <? 0) | [] => false end = false) as Hm.
  { destruct Hds as [|c ds Hc]; [done|]. cbn [app]. unfold is_digit in Hc. b2p. bfalse (c =? 45). reflexivity. }
  rewrite Hm, span_digits_app by assumption. destruct ds as [|c ds]; [done|].
  btrue (lo <=? digits_value base (c :: ds)). btrue (digits_value base (c :: ds) <=? hi). reflexivity.
Qed.

Lemma from_chars_range lo hi base s v : from_chars lo hi base s = Some v -> lo <= v <= hi.
Proof.
  unfold from_chars. intros H. destruct (span_digits _ _); [discriminate|]. case_if_in H; [|discriminate].
  injection H as <-. b2p. lia.
Qed.

Lemma digits_value_snoc base ds c : digits_value base (ds ++ [c]) = digits_value base ds * base + (c - 48).
Proof. unfold digits_value. now rewrite fold_left_app. Qed.

(** ** Digits of a number, most significant first *)

Fixpoint digits (base : Z) (w : nat) (n : Z) : bytes :=
  match w with
  | O => []
  | Datatypes.S w => digits base w (n / base) ++ [48 + n mod base]
  end.

Lemma length_digits base w n : length (digits base w n) = w.
Proof. revert n. induction w as [|w IH]; intros n; [reflexivity|]. cbn [digits]. rewrite length_app, IH. cbn. lia. Qed.

Lemma digits_ok base w n : 0 < base -> Forall (fun c => is_digit base c = true) (digits base w n).
Proof.
  intros Hb. revert n. induction w as [|w IH]; intros n; cbn [digits]; [constructor|].
  apply Forall_app. split; [apply IH|]. constructor; [|constructor]. unfold is_digit.
  pose proof (Z.mod_pos_bound n base Hb). btrue (48 <=? 48 + n mod base). btrue (48 + n mod base <? 48 + base). reflexivity.
Qed.

Lemma value_digits base w n : 0 < base -> 0 <= n < base ^ Z.of_nat w -> digits_value base (digits base w n) = n.
Proof.
  intros Hb. revert n. induction w as [|w IH]; intros n Hn; cbn [digits].
  - cbn in *. lia.
  - rewrite digits_value_snoc, IH; [pose proof (Z.div_mod n base); lia|].
    rewrite Nat2Z.inj_succ, Z.pow_succ_r in Hn by lia. split; [apply Z.div_pos; lia|].
    apply Z.div_lt_upper_bound; lia.
Qed.
