(* ===== verification/TarHeader.v ===== *)
(** * Tar headers: [lib/archive/tar/format.cc], [tarinternal.hpp], [tar.hpp]

    The 512-byte header block: its fields, the numbers and strings in them, the
    checksum, the detection of the format and the entry they describe. *)

From S2P Require Import Prelude CxxString.
From Stdlib Require Import String.
From stdpp Require Import list gmap.
Import (notations) ListNotations.

Open Scope Z_scope.

(** ** Layout

    A header is its 512 bytes, because the code reads the same block as an
    [ustar_header], a [star_header] and a [gnutar_header]. *)

Definition blockSize : Z := 512.

Definition hdr_name (b : bytes) : bytes := slice 0 100 b.
Definition hdr_mode (b : bytes) : bytes := slice 100 8 b.
Definition hdr_uid (b : bytes) : bytes := slice 108 8 b.
Definition hdr_gid (b : bytes) : bytes := slice 116 8 b.
Definition hdr_size (b : bytes) : bytes := slice 124 12 b.
Definition hdr_mtime (b : bytes) : bytes := slice 136 12 b.
Definition hdr_chksum (b : bytes) : bytes := slice 148 8 b.
Definition hdr_typeflag (b : bytes) : Z := byte_at b 156.
Definition hdr_linkname (b : bytes) : bytes := slice 157 100 b.
Definition hdr_magic (b : bytes) : bytes := slice 257 6 b.
Definition hdr_version (b : bytes) : bytes := slice 263 2 b.
Definition hdr_uname (b : bytes) : bytes := slice 265 32 b.
Definition hdr_gname (b : bytes) : bytes := slice 297 32 b.
Definition hdr_devmajor (b : bytes) : bytes := slice 329 8 b.
Definition hdr_devminor (b : bytes) : bytes := slice 337 8 b.
Definition hdr_prefix (b : bytes) : bytes := slice 345 155 b.

Definition star_prefix (b : bytes) : bytes := slice 345 131 b.
Definition star_atime (b : bytes) : bytes := slice 476 12 b.
Definition star_ctime (b : bytes) : bytes := slice 488 12 b.
Definition star_trailer (b : bytes) : bytes := slice 500 4 b.

Definition gnu_atime (b : bytes) : bytes := slice 345 12 b.
Definition gnu_ctime (b : bytes) : bytes := slice 357 12 b.

Definition magicGNU : bytes := str "ustar ".
Definition versionGNU : bytes := [32; 0].
Definition magicUSTAR : bytes := str "ustar" ++ [0].
Definition trailerSTAR : bytes := str "tar" ++ [0].

(** [tar_format_t] is a set of flags. *)
Definition FormatUnknown : Z := 0.
Definition FormatV7 : Z := 1.
Definition FormatUSTAR : Z := 2.
Definition FormatPAX : Z := 4.
Definition FormatGNU : Z := 8.
Definition FormatSTAR : Z := 16.

Definition TypeReg : Z := 48.
Definition TypeRegA : Z := 0.
Definition TypeLink : Z := 49.
Definition TypeSymlink : Z := 50.
Definition TypeChar : Z := 51.
Definition TypeBlock : Z := 52.
Definition TypeDir : Z := 53.
Definition TypeFifo : Z := 54.
Definition TypeXHeader : Z := 120.
Definition TypeXGlobalHeader : Z := 103.
Definition TypeGNULongName : Z := 76.
Definition TypeGNULongLink : Z := 75.

(** ** Strings and numbers *)

Definition parseString (data : bytes) : bytes :=
  match find_byte 0 data with
  | None => data
  | Some n => take n data
  end.

Definition parseNumeric8 (p : bytes) : Z := default 0 (from_chars_i64 8 p).
Definition parseNumeric10 (p : bytes) : Z := default 0 (from_chars_i64 10 p).

(** The [while (char_cnt > sizeof(int64_t))] loop; [c] is [*p] and [rest] the
    bytes after it, so that [char_cnt] is [length rest + 1].  [None] is the
    overflow the loop returns on. *)
Fixpoint skip_high (neg c : Z) (rest : bytes) : option (Z * bytes) :=
  match rest with
  | [] => Some (c, [])
  | d :: rest' =>
      if (8 <? length rest + 1)%nat then if negb (c =? neg) then None else skip_high neg d rest'
      else Some (c, rest)
  end.

(** [while (--char_cnt > 0)] and the last step. *)
Fixpoint accumulate (l c : Z) (rest : bytes) : Z :=
  let l := Z.lor (u64 (Z.shiftl l 8)) c in
  match rest with
  | [] => l
  | d :: rest => accumulate l d rest
  end.

Definition parseNumeric256 (p : bytes) : Z :=
  let c := byte_at p 0 in
  let negative := negb (Z.land c 0x40 =? 0) in
  let neg := if negative then 0xff else 0 in
  let c := if negative then Z.lor c 0x80 else Z.land c 0x7f in
  let l := if negative then UINT64_MAX else 0 in
  let limit := if negative then INT64_MIN else INT64_MAX in
  match skip_high neg c (tail p) with
  | None => limit
  | Some (c, rest) =>
      if negb (Z.land (Z.lxor c neg) 0x80 =? 0) then limit else i64 (accumulate l c rest)
  end.

Definition parseNumeric (p : bytes) : Z :=
  if negb (Z.land (byte_at p 0) 0x80 =? 0) then parseNumeric256 p else parseNumeric8 p.

(** ** Checksum *)

Definition chksum_char (c : Z) : bool := (c =? 32) || (c =? 0) || negb ((c <? 48) || (c >? 55)).

Definition int8 (c : Z) : Z := if c <? 128 then c else c - 256.

(** The sums of unsigned and of signed bytes from byte [i] on; the checksum
    field counts as spaces. *)
Fixpoint header_sums (i : nat) (p : bytes) (check scheck : Z) : Z * Z :=
  match p with
  | [] => (check, scheck)
  | c :: p =>
      let c := if (148 <=? i)%nat && (i <? 156)%nat then 32 else c in
      header_sums (i + 1) p (check + c) (scheck + int8 c)
  end.

Definition IsChecksumEqual (hdr : bytes) : bool :=
  if negb (forallb chksum_char (hdr_chksum hdr)) then false
  else
    let sum := parseNumeric (hdr_chksum hdr) in
    let '(check, scheck) := header_sums 0 hdr 0 0 in
    (check =? sum) || (scheck =? sum).

Definition getFormat (hdr : bytes) : Z :=
  if negb (IsChecksumEqual hdr) then FormatUnknown
  else if bool_decide (hdr_magic hdr = magicUSTAR) then
    if bool_decide (star_trailer hdr = trailerSTAR) then FormatSTAR else Z.lor FormatUSTAR FormatPAX
  else if bool_decide (hdr_magic hdr = magicGNU) && bool_decide (hdr_version hdr = versionGNU) then FormatGNU
  else FormatV7.

Definition isZeroBlock (th : bytes) : bool := forallb (fun c => c =? 0) th.

(** ** Entries *)

Abbreviation Xmap := (gmap (list Z) (list Z)).

(** [bela::Time]: seconds and quarters of a nanosecond. *)
Record Time := { rep_hi : Z; rep_lo : Z }.

Definition FromUnix (s ns : Z) : Time := {| rep_hi := s; rep_lo := u32 (u32 ns * 4) |}.

Record Header := {
  Name : bytes;
  LinkName : bytes;
  Uname : bytes;
  Gname : bytes;
  Size : Z;
  SparseSize : Z;
  Mode : Z;
  ModTime : Time;
  AccessTime : Time;
  ChangeTime : Time;
  Devmajor : Z;
  Devminor : Z;
  Xattrs : Xmap;
  PAXRecords : Xmap;
  UID : Z;
  GID : Z;
  Format : Z;
  Typeflag : Z;
}.

Definition zero_time : Time := {| rep_hi := 0; rep_lo := 0 |}.

(** The part of [readHeader] after the block was read and found not to be zero;
    [None] is the error of an unknown format. *)
Definition header_of_block (hdr : bytes) : option Header :=
  let format := getFormat hdr in
  if format =? FormatUnknown then None
  else
    let later := format >? FormatV7 in
    let ustar := later && negb (Z.land format (Z.lor FormatUSTAR FormatPAX) =? 0) in
    let star := later && negb ustar && negb (Z.land format FormatSTAR =? 0) in
    let gnu := later && negb ustar && negb star && negb (Z.land format FormatGNU =? 0) in
    let prefix := if ustar then parseString (hdr_prefix hdr)
                  else if star then parseString (star_prefix hdr) else [] in
    let time_of star_field gnu_field :=
      if star then FromUnix (parseNumeric star_field) 0
      else if gnu && negb (byte_at gnu_field 0 =? 0) then FromUnix (parseNumeric gnu_field) 0 else zero_time in
    let name := parseString (hdr_name hdr) in
    Some {|
      Name := match prefix with [] => name | _ => prefix ++ [47] ++ name end;
      LinkName := parseString (hdr_linkname hdr);
      Uname := if later then parseString (hdr_uname hdr) else [];
      Gname := if later then parseString (hdr_gname hdr) else [];
      Size := parseNumeric (hdr_size hdr);
      SparseSize := 0;
      Mode := parseNumeric (hdr_mode hdr);
      ModTime := FromUnix (parseNumeric (hdr_mtime hdr)) 0;
      AccessTime := time_of (star_atime hdr) (gnu_atime hdr);
      ChangeTime := time_of (star_ctime hdr) (gnu_ctime hdr);
      Devmajor := if later then parseNumeric (hdr_devmajor hdr) else 0;
      Devminor := if later then parseNumeric (hdr_devminor hdr) else 0;
      Xattrs := ∅;
      PAXRecords := ∅;
      UID := i32 (parseNumeric (hdr_uid hdr));
      GID := i32 (parseNumeric (hdr_gid hdr));
      Format := format;
      Typeflag := hdr_typeflag hdr;
    |}.

(** ** File modes: [Header::FileMode] with the bits of [bela::os::FileMode] *)

Definition ModeDir : Z := 2147483648.
Definition ModeSymlink : Z := 134217728.
Definition ModeDevice : Z := 67108864.
Definition ModeNamedPipe : Z := 33554432.
Definition ModeSocket : Z := 16777216.
Definition ModeSetuid : Z := 8388608.
Definition ModeSetgid : Z := 4194304.
Definition ModeCharDevice : Z := 4194304.
Definition ModeSticky : Z := 1048576.
Definition ModePerm : Z := 511.

Definition or_if (b : bool) (m mode : Z) : Z := if b then Z.lor mode m else mode.

Definition FileMode (h : Header) : Z :=
  let bit m := negb (Z.land (Mode h) m =? 0) in
  let mode := Z.land (u32 (Mode h)) ModePerm in
  let mode := or_if (bit 2048) ModeSetuid mode in
  let mode := or_if (bit 1024) ModeSetgid mode in
  let mode := or_if (bit 512) ModeSticky mode in
  let m := Z.land (u32 (Mode h)) (u32 (Z.lnot 4095)) in
  let mode :=
    if m =? 16384 then Z.lor mode ModeDir
    else if m =? 4096 then Z.lor mode ModeNamedPipe
    else if m =? 40960 then Z.lor mode ModeSymlink
    else if m =? 24576 then Z.lor mode ModeDevice
    else if m =? 8192 then Z.lor (Z.lor mode ModeDevice) ModeCharDevice
    else if m =? 49152 then Z.lor mode ModeSocket else mode in
  if Typeflag h =? TypeSymlink then Z.lor mode ModeSymlink
  else if Typeflag h =? TypeChar then Z.lor (Z.lor mode ModeDevice) ModeCharDevice
  else if Typeflag h =? TypeBlock then Z.lor mode ModeDevice
  else if Typeflag h =? TypeDir then Z.lor mode ModeDir
  else if Typeflag h =? TypeFifo then Z.lor mode ModeNamedPipe else mode.

Definition IsDir (h : Header) : bool := Typeflag h =? TypeDir.
Definition IsRegular (h : Header) : bool := (Typeflag h =? TypeReg) || (Typeflag h =? TypeRegA).
Definition IsSymlink (h : Header) : bool := Typeflag h =? TypeSymlink.

Example parse_numeric_ex :
  parseNumeric (str "0000644 ") = 420 /\ parseNumeric [128; 0; 0; 0; 0; 0; 1; 0] = 256 /\
  parseNumeric [255; 255; 255; 255; 255; 255; 255; 254] = -2 /\
  parseNumeric [128; 1; 0; 0; 0; 0; 0; 0; 0; 0; 0; 0] = INT64_MAX /\
  parseNumeric [192; 0; 0; 0; 0; 0; 0; 0; 0; 0; 0; 0] = INT64_MIN.
Proof. vm_compute. auto. Qed.

(** ** Base-256 numbers

    [base256] is the value a field means: the big endian two's complement number
    without the high-order bit. *)

Fixpoint be_value (p : bytes) : Z :=
  match p with
  | [] => 0
  | c :: p => c * 256 ^ zlen p + be_value p
  end.

Definition base256 (p : bytes) : Z :=
  let n := 8 * zlen p - 1 in
  let u := be_value p mod 2 ^ n in
  if u <? 2 ^ (n - 1) then u else u - 2 ^ n.

Definition clamp64 (v : Z) : Z := Z.max INT64_MIN (Z.min INT64_MAX v).

Lemma be_value_range p : bytes_ok p -> 0 <= be_value p < 256 ^ zlen p.
Proof.
  induction 1 as [|c p Hc _ IH]; cbn [be_value length]; [cbn; lia|]. unfold is_byte in Hc.
  rewrite Nat2Z.inj_succ, Z.pow_succ_r by lia. nia.
Qed.

Lemma pow256_le n m : (n <= m)%nat -> 256 ^ Z.of_nat n <= 256 ^ Z.of_nat m.
Proof. intros. apply Z.pow_le_mono_r; lia. Qed.

Lemma skip_high_spec (s : bool) rest : bytes_ok rest -> forall c, is_byte c -> (7 <= length rest)%nat ->
  let v := be_value (c :: rest) - (if s then 256 ^ (zlen rest + 1) else 0) in
  match skip_high (if s then 0xff else 0) c rest with
  | None => clamp64 v = (if s then INT64_MIN else INT64_MAX)
  | Some (c', rest') => is_byte c' /\ bytes_ok rest' /\ length rest' = 7%nat /\
      v = be_value (c' :: rest') - (if s then 256 ^ 8 else 0)
  end.
Proof.
  induction 1 as [|d rest Hd Hrest IH]; intros c Hc Hl; [cbn in Hl; lia|]. cbv zeta in *.
  cbn [skip_high]. cbn [length] in Hl. destruct (Nat.ltb_spec 8 (length (d :: rest) + 1)) as [H8|H8]; cbn [length] in H8.
  - destruct (Z.eqb_spec c (if s then 0xff else 0)) as [->|Hne]; cbn [negb].
    + specialize (IH d Hd ltac:(lia)). cbn [be_value length] in *.
      replace (Z.of_nat (Datatypes.S (length rest)) + 1) with (Z.succ (Z.succ (zlen rest))) in * by lia.
      replace (Z.of_nat (Datatypes.S (length rest))) with (Z.succ (zlen rest)) in * by lia.
      replace (zlen rest + 1) with (Z.succ (zlen rest)) in * by lia.
      rewrite !Z.pow_succ_r in * by lia. destruct (skip_high _ d rest) as [[c' rest']|].
      * destruct IH as (I1 & I2 & I3 & I4). split_and!; try assumption. destruct s; lia.
      * rewrite <- IH. f_equal. destruct s; lia.
    + cbn [be_value length]. pose proof (be_value_range (d :: rest) ltac:(now constructor)) as Hr. cbn [be_value length] in Hr.
      set (r := d * 256 ^ zlen rest + be_value rest) in *.
      pose proof (pow256_le 8 (Datatypes.S (length rest)) ltac:(lia)) as Hp.
      replace (Z.of_nat (Datatypes.S (length rest)) + 1) with (Z.succ (Z.of_nat (Datatypes.S (length rest)))) by lia.
      rewrite Z.pow_succ_r by lia. set (q := 256 ^ Z.of_nat (Datatypes.S (length rest))) in *.
      change (256 ^ Z.of_nat 8) with 18446744073709551616 in Hp. unfold clamp64, INT64_MIN, INT64_MAX, is_byte in *.
      destruct s; nia.
  - cbn [length] in *. split_and!; auto; try lia. replace (Z.of_nat (Datatypes.S (length rest)) + 1) with 8 by lia. reflexivity.
Qed.

Lemma u64_idem_mul x k y : u64 (u64 x * k + y) = u64 (x * k + y).
Proof. unfold u64. rewrite Zplus_mod, Zmult_mod_idemp_l, <- Zplus_mod. reflexivity. Qed.

Lemma shift_in l c : is_byte c -> Z.lor (u64 (Z.shiftl l 8)) c = u64 (l * 256 + c).
Proof.
  intros Hc. rewrite Z.shiftl_mul_pow2 by lia. change (2 ^ 8) with 256. unfold is_byte in Hc.
  assert (u64 (l * 256) = u64 (l * 256) / 256 * 2 ^ 8) as -> by (unfold u64; change (2 ^ 8) with 256; dlia).
  rewrite lor_shifted by lia. unfold u64. change (2 ^ 8) with 256. dlia.
Qed.

Lemma accumulate_spec rest : bytes_ok rest -> forall l c, is_byte c ->
  accumulate l c rest = u64 (l * 256 ^ (zlen rest + 1) + be_value (c :: rest)).
Proof.
  induction 1 as [|d rest Hd _ IH]; intros l c Hc; cbn [accumulate]; rewrite shift_in by assumption.
  - cbn. f_equal. lia.
  - rewrite IH, u64_idem_mul by assumption. f_equal. cbn [be_value length].
    replace (Z.of_nat (Datatypes.S (length rest)) + 1) with (Z.succ (zlen rest + 1)) by lia.
    replace (Z.of_nat (Datatypes.S (length rest))) with (zlen rest + 1) by lia.
    rewrite (Z.pow_succ_r 256 (zlen rest + 1)) by lia. lia.
Qed.

(** The sign and the first byte extended to 8 bits. *)
Lemma base256_first b : is_byte b ->
  let negative := negb (Z.land b 0x40 =? 0) in
  let c := if negative then Z.lor b 0x80 else Z.land b 0x7f in
  is_byte c /\ c = b mod 128 + (if negative then 128 else 0) /\ negative = (64 <=? b mod 128).
Proof.
  intros Hb. cbv zeta.
  assert (forall b, is_byte b -> (if negb (Z.land b 0x40 =? 0)
      then (Z.lor b 0x80 =? b mod 128 + 128) && (64 <=? b mod 128)
      else (Z.land b 0x7f =? b mod 128) && (b mod 128 <? 64)) = true) as H.
  { apply byte_sweep. vm_compute. reflexivity. }
  specialize (H b Hb). unfold is_byte. pose proof (Z.mod_pos_bound b 128 ltac:(lia)).
  destruct (negb _); b2p; split_and!; try lia; bool_lia.
Qed.

Lemma base256_cons b p : is_byte b -> bytes_ok p -> (1 <= length p)%nat ->
  let negative := 64 <=? b mod 128 in
  base256 (b :: p) = be_value ((b mod 128 + if negative then 128 else 0) :: p) - (if negative then 256 ^ (zlen p + 1) else 0).
Proof.
  intros Hb Hp Hl. cbv zeta. unfold base256. cbn [be_value length].
  replace (8 * Z.of_nat (Datatypes.S (length p)) - 1) with (7 + 8 * zlen p) by lia.
  replace (7 + 8 * zlen p - 1) with (6 + 8 * zlen p) by lia.
  rewrite !Z.pow_add_r, !Z.pow_mul_r by lia. change (2 ^ 8) with 256. change (2 ^ 7) with 128. change (2 ^ 6) with 64.
  change (256 ^ 1) with 256. pose proof (be_value_range p Hp) as Hr. set (q := 256 ^ zlen p) in *. unfold is_byte in Hb.
  assert ((b * q + be_value p) mod (128 * q) = b mod 128 * q + be_value p) as ->.
  { symmetry. apply (Z.mod_unique _ _ (b / 128)); [pose proof (Z.mod_pos_bound b 128); nia|].
    pose proof (Z.div_mod b 128). nia. }
  destruct (Z.leb_spec 64 (b mod 128)).
  - rewrite (proj2 (Z.ltb_ge _ _)) by nia. lia.
  - rewrite (proj2 (Z.ltb_lt _ _)) by nia. lia.
Qed.

Lemma sign_byte (s : bool) c : is_byte c ->
  (Z.land (Z.lxor c (if s then 0xff else 0)) 0x80 =? 0) = (if s then 128 <=? c else c <? 128).
Proof.
  intros Hc. apply Bool.eqb_prop. revert c Hc. apply byte_sweep. destruct s; vm_compute; reflexivity.
Qed.

Lemma parseNumeric256_correct p : bytes_ok p -> (8 <= length p)%nat -> parseNumeric256 p = clamp64 (base256 p).
Proof.
  intros Hp Hl. destruct Hp as [|b p Hb Hp]; [cbn in Hl; lia|]. cbn [length] in Hl.
  destruct (base256_first b Hb) as (F1 & F2 & F3). cbv zeta in *. unfold parseNumeric256.
  change (byte_at (b :: p) 0) with b. cbn [tail]. rewrite F3 in *. rewrite base256_cons by (assumption || lia).
  cbv zeta. rewrite <- F2. set (s := 64 <=? b mod 128) in *. set (c := if s then Z.lor b 0x80 else _) in *. clearbody s c.
  pose proof (skip_high_spec s p Hp c F1 ltac:(lia)) as Hs. cbv zeta in Hs.
  destruct (skip_high (if s then 0xff else 0) c p) as [[c' rest']|]; [|symmetry; exact Hs].
  destruct Hs as (S1 & S2 & S3 & ->). rewrite sign_byte, accumulate_spec by assumption.
  pose proof (be_value_range (c' :: rest') ltac:(now constructor)) as Hr. cbn [be_value length] in Hr |- *. rewrite S3 in *.
  pose proof (be_value_range rest' S2) as Hr'. rewrite S3 in Hr'.
  change (Z.of_nat 7 + 1) with 8. change (Z.of_nat 8) with 8 in *. change (Z.of_nat 7) with 7 in *.
  change (256 ^ 7) with 72057594037927936 in *. change (256 ^ 8) with 18446744073709551616 in *.
  set (r := be_value rest') in *. clearbody r. unfold is_byte in S1.
  assert (u64 ((if s then UINT64_MAX else 0) * 18446744073709551616 + (c' * 72057594037927936 + r)) = c' * 72057594037927936 + r) as ->.
  { unfold u64. rewrite Z.add_comm, Z.mod_add by lia. apply Z.mod_small. lia. }
  unfold i64, clamp64, INT64_MAX, INT64_MIN. rewrite (u64_small (_ + r)) by (unfold is_u64; lia). destruct s; cbn [negb].
  - destruct (Z.leb_spec 128 c'); cbn [negb]; [bfalse (c' * 72057594037927936 + r <? 9223372036854775808)|]; lia.
  - destruct (Z.ltb_spec c' 128); cbn [negb]; [btrue (c' * 72057594037927936 + r <? 9223372036854775808)|]; lia.
Qed.

(** C31: the base-256 numbers of GNU tar and star.  A numeric field whose high
    bit is set is read as the two's complement number without that bit,
    saturated to [int64_t]; no field overflows. *)
Theorem parse_numeric_saturates p : bytes_ok p -> (8 <= length p)%nat -> 128 <= byte_at p 0 ->
  parseNumeric p = clamp64 (base256 p).
Proof.
  intros Hp Hl Hb. unfold parseNumeric. pose proof (byte_at_ok p 0 Hp) as Hc.
  rewrite <- (Z.lxor_0_r (byte_at p 0)), (sign_byte false) by assumption.
  rewrite (proj2 (Z.ltb_ge _ _)) by lia. now apply parseNumeric256_correct.
Qed.

(** ** The checksum *)

Definition in_chksum (k : nat) : Prop := (148 <= k < 156)%nat.

Lemma int8_mod c : exists q, int8 c = c + 256 * q.
Proof. unfold int8. case_if; [exists 0|exists (-1)]; lia. Qed.

(** The two sums are the same modulo 256. *)
Lemma header_sums_mod p : forall i c s, (exists q, s = c + 256 * q) ->
  let '(c', s') := header_sums i p c s in exists q, s' = c' + 256 * q.
Proof.
  induction p as [|b p IH]; intros i c s [q ->]; cbn [header_sums]; [now exists q|].
  apply IH. destruct (int8_mod (if (148 <=? i)%nat && (i <? 156)%nat then 32 else b)) as [r ->]. exists (q + r). lia.
Qed.

Lemma header_sums_insert p x : forall i c s k, (k < length p)%nat -> ~ in_chksum (i + k) ->
  header_sums i (<[k := x]> p) c s =
  (fst (header_sums i p c s) + (x - nth k p 0), snd (header_sums i p c s) + (int8 x - int8 (nth k p 0))).
Proof.
  assert (Hadd : forall p i c s dc ds, header_sums i p (c + dc) (s + ds) =
    (fst (header_sums i p c s) + dc, snd (header_sums i p c s) + ds)).
  { clear. induction p as [|b p IH]; intros i c s dc ds; cbn [header_sums]; [reflexivity|].
    rewrite <- IH. f_equal; lia. }
  induction p as [|b p IH]; intros i c s [|k] Hk Hi; cbn [length] in Hk; try lia.
  - change (<[0%nat := x]> (b :: p)) with (x :: p). cbn [header_sums nth].
    destruct (_ && _)%bool eqn:E; [apply andb_true_iff in E as [E1 E2]; apply Nat.leb_le in E1; apply Nat.ltb_lt in E2;
      unfold in_chksum in Hi; lia|].
    rewrite <- Hadd. f_equal; lia.
  - change (<[Datatypes.S k := x]> (b :: p)) with (b :: <[k := x]> p). cbn [header_sums nth]. apply IH; [lia|].
    now replace (i + 1 + k)%nat with (i + Datatypes.S k)%nat by lia.
Qed.

Lemma slice_insert h k x o n : 0 <= o -> 0 <= n -> ~ (o <= Z.of_nat k < o + n) -> slice o n (<[k := x]> h) = slice o n h.
Proof.
  intros Ho Hn Hk. unfold slice, from. destruct (decide (k < Z.to_nat o)%nat).
  - now rewrite drop_insert_lt.
  - rewrite drop_insert_ge, take_insert_ge by lia. reflexivity.
Qed.

Lemma checksum_detects h k x : length h = 512%nat -> bytes_ok h -> IsChecksumEqual h = true ->
  (k < 512)%nat -> ~ in_chksum k -> is_byte x -> x <> nth k h 0 -> IsChecksumEqual (<[k := x]> h) = false.
Proof.
  intros Hl Hh Hok Hk Hf Hx Hne. unfold IsChecksumEqual, hdr_chksum in *. unfold in_chksum in Hf.
  rewrite slice_insert by lia. destruct (negb _) eqn:Ec; [discriminate|].
  rewrite header_sums_insert by (unfold in_chksum; cbn [Nat.add]; lia).
  pose proof (header_sums_mod h 0 0 0 ltac:(exists 0; lia)) as Hm. destruct (header_sums 0 h 0 0) as [c s].
  destruct Hm as [q ->]. cbn [fst snd]. destruct (int8_mod x) as [r1 ->]. destruct (int8_mod (nth k h 0)) as [r2 ->].
  assert (is_byte (nth k h 0)) as Hb.
  { pose proof (byte_at_ok h (Z.of_nat k) Hh) as H. unfold byte_at in H. now rewrite Nat2Z.id in H. }
  unfold is_byte in *. set (v := parseNumeric _) in *. set (y := nth k h 0) in *. clearbody v y.
  apply orb_true_iff in Hok. apply orb_false_iff. split; apply Z.eqb_neq; destruct Hok as [H|H]; b2p; lia.
Qed.

(** C32: damaged headers.  A tar header whose checksum is right is no longer
    taken for a tar header, in any format, after one of its bytes outside the
    checksum field was changed; reading the sum with signed or with unsigned
    bytes does not weaken this. *)
Theorem header_corruption_detected h k x : length h = 512%nat -> bytes_ok h -> getFormat h <> FormatUnknown ->
  (k < 512)%nat -> ~ in_chksum k -> is_byte x -> x <> nth k h 0 -> getFormat (<[k := x]> h) = FormatUnknown.
Proof.
  intros Hl Hh Hok Hk Hf Hx Hne. unfold getFormat in *. rewrite checksum_detects; auto.
  destruct (IsChecksumEqual h); [reflexivity|]. now cbn in Hok.
Qed.

(** ** Writing a header

    The POSIX ustar layout of the comment in [tar.hpp], as a writer produces it:
    octal numbers with leading zeros and a NUL, strings padded with NUL, the
    checksum as six octal digits, NUL and space. *)

Record ustar := {
  u_name : bytes; u_mode : Z; u_uid : Z; u_gid : Z; u_size : Z; u_mtime : Z; u_typeflag : Z; u_linkname : bytes;
  u_uname : bytes; u_gname : bytes; u_devmajor : Z; u_devminor : Z; u_prefix : bytes;
}.

Definition pad0 (n : nat) (s : bytes) : bytes := s ++ repeat 0 (n - length s).
Definition octal (w : nat) (n : Z) : bytes := digits 8 w n ++ [0].

Definition ustar_fields (u : ustar) (chksum : bytes) : list (list Z) :=
  [pad0 100 (u_name u); octal 7 (u_mode u); octal 7 (u_uid u); octal 7 (u_gid u); octal 11 (u_size u);
   octal 11 (u_mtime u); chksum; [u_typeflag u]; pad0 100 (u_linkname u); magicUSTAR; [48; 48];
   pad0 32 (u_uname u); pad0 32 (u_gname u); octal 7 (u_devmajor u); octal 7 (u_devminor u);
   pad0 155 (u_prefix u); repeat 0 4; repeat 0 8].

Definition ustar_sum (u : ustar) : Z := fst (header_sums 0 (concat (ustar_fields u (repeat 32 8))) 0 0).

Definition ustar_block (u : ustar) : bytes := concat (ustar_fields u (digits 8 6 (ustar_sum u) ++ [0; 32])).

Definition field_string (n : nat) (s : bytes) : Prop := bytes_ok s /\ (length s <= n)%nat /\ 0 ∉ s.
Definition field_octal (w : nat) (v : Z) : Prop := 0 <= v < 8 ^ Z.of_nat w.

Definition ustar_ok (u : ustar) : Prop :=
  field_string 100 (u_name u) /\ field_string 100 (u_linkname u) /\ field_string 32 (u_uname u) /\
  field_string 32 (u_gname u) /\ field_string 155 (u_prefix u) /\
  field_octal 7 (u_mode u) /\ field_octal 7 (u_uid u) /\ field_octal 7 (u_gid u) /\ field_octal 11 (u_size u) /\
  field_octal 11 (u_mtime u) /\ field_octal 7 (u_devmajor u) /\ field_octal 7 (u_devminor u) /\ is_byte (u_typeflag u).

Lemma byte_at_slice b o : 0 <= o -> byte_at b o = byte_at (slice o 1 b) 0.
Proof.
  intros Ho. unfold byte_at, slice, from. change (Z.to_nat 0) with 0%nat. change (Z.to_nat 1) with 1%nat.
  generalize (Z.to_nat o) as n. intros n. revert b. induction n as [|n IH]; intros [|x b]; try reflexivity. apply IH.
Qed.

Lemma slice_concat (fs : list (list Z)) i f o n :
  fs !! i = Some f -> o = zlen (concat (take i fs)) -> n = zlen f -> slice o n (concat fs) = f.
Proof.
  intros Hi -> ->. rewrite <- (take_drop_middle fs i f Hi) at 2. rewrite concat_app. cbn [concat]. now apply slice_app.
Qed.

Lemma length_pad0 n s : (length s <= n)%nat -> length (pad0 n s) = n.
Proof. intros. unfold pad0. rewrite length_app, repeat_length. lia. Qed.

Lemma length_octal w n : length (octal w n) = Datatypes.S w.
Proof. unfold octal. rewrite length_app, length_digits. cbn. lia. Qed.

Lemma parseString_pad0 n s : 0 ∉ s -> parseString (pad0 n s) = s.
Proof.
  intros H. unfold parseString, pad0. destruct (n - length s)%nat as [|k]; cbn [repeat].
  - rewrite app_nil_r, (proj2 (find_byte_None 0 s)) by assumption. reflexivity.
  - rewrite find_byte_app by assumption. now rewrite take_app_length.
Qed.

Lemma parseNumeric_digits w n rest : (0 < w)%nat -> field_octal w n -> (w <= 21)%nat ->
  match rest with c :: _ => is_digit 8 c = false | [] => True end -> parseNumeric (digits 8 w n ++ rest) = n.
Proof.
  intros Hw Hn H21 Hr. pose proof (digits_ok 8 w n ltac:(lia)) as Hd. unfold parseNumeric.
  assert (negb (Z.land (byte_at (digits 8 w n ++ rest) 0) 0x80 =? 0) = false) as ->.
  { pose proof (length_digits 8 w n). destruct Hd as [|c ds Hc _]; [cbn in *; lia|]. change (byte_at ((c :: ds) ++ rest) 0) with c.
    unfold is_digit in Hc. b2p. rewrite <- (Z.lxor_0_r c), (sign_byte false) by (unfold is_byte; lia). now rewrite (proj2 (Z.ltb_lt _ _)) by lia. }
  unfold parseNumeric8, from_chars_i64. unfold field_octal in Hn.
  assert (8 ^ Z.of_nat w <= 8 ^ 21) by (apply Z.pow_le_mono_r; lia). change (8 ^ 21) with 9223372036854775808 in *.
  rewrite from_chars_digits; rewrite ?value_digits; try assumption; try lia; try reflexivity.
  - intros E. pose proof (length_digits 8 w n) as H1. rewrite E in H1. cbn in H1. lia.
  - unfold INT64_MIN, INT64_MAX. lia.
Qed.

Lemma parseNumeric_octal w n : (0 < w <= 21)%nat -> field_octal w n -> parseNumeric (octal w n) = n.
Proof. intros. apply parseNumeric_digits; (assumption || lia || reflexivity). Qed.

Lemma header_sums_app a : forall i b c s,
  header_sums i (a ++ b) c s = let '(c', s') := header_sums i a c s in header_sums (i + length a) b c' s'.
Proof.
  induction a as [|x a IH]; intros i b c s; cbn [app header_sums length]; [now rewrite Nat.add_0_r|].
  rewrite IH. now replace (i + 1 + length a)%nat with (i + Datatypes.S (length a))%nat by lia.
Qed.

Lemma header_sums_field f f' c s : length f = 8%nat -> length f' = 8%nat ->
  header_sums 148 f c s = header_sums 148 f' c s.
Proof.
  intros H H'. do 8 (destruct f as [|? f]; [discriminate|]; destruct f' as [|? f']; [discriminate|]).
  destruct f, f'; try discriminate. reflexivity.
Qed.

Lemma header_sums_range p : bytes_ok p -> forall i c s, c <= fst (header_sums i p c s) <= c + 255 * zlen p.
Proof.
  induction 1 as [|b p Hb _ IH]; intros i c s; cbn [header_sums length]; [cbn [fst]; lia|].
  set (d := if (_ && _)%bool then 32 else b). assert (0 <= d <= 255) by (unfold d, is_byte in *; case_if; lia).
  specialize (IH (i + 1)%nat (c + d) (s + int8 d)). lia.
Qed.

Lemma octal_bytes w n : bytes_ok (octal w n).
Proof.
  unfold octal. apply Forall_app. split; [|constructor; [unfold is_byte; lia|constructor]].
  eapply Forall_impl; [apply digits_ok; lia|]. intros c Hc. unfold is_digit, is_byte in *. cbn beta in Hc. b2p. lia.
Qed.

Lemma pad0_bytes n s : bytes_ok s -> bytes_ok (pad0 n s).
Proof. intros. apply Forall_app. split; [assumption|]. apply Forall_forall; intros x Hx; apply list_elem_of_In, repeat_spec in Hx; subst; unfold is_byte; lia. Qed.

Section Written.
Context (u : ustar) (Hu : ustar_ok u).

Lemma ustar_layout : exists a z, length a = 148%nat /\ length z = 356%nat /\ bytes_ok a /\ bytes_ok z /\
  forall chksum, concat (ustar_fields u chksum) = a ++ chksum ++ z.
Proof using Hu.
  destruct Hu as ((? & ? & _) & (? & ? & _) & (? & ? & _) & (? & ? & _) & (? & ? & _) & _ & _ & _ & _ & _ & _ & _ & ?).
  exists (concat (take 6 (ustar_fields u []))), (concat (drop 7 (ustar_fields u []))).
  unfold ustar_fields. cbn [take drop concat]. rewrite !length_app, !length_pad0, !length_octal by lia. cbn [length].
  split_and!; try reflexivity.
  - rewrite !Forall_app. split_and!; auto using pad0_bytes, octal_bytes.
  - rewrite !Forall_app. split_and!; auto using pad0_bytes, octal_bytes; vm_compute; repeat constructor; discriminate.
  - intros chksum. now rewrite <- !app_assoc.
Qed.

Lemma ustar_checksum : length (ustar_block u) = 512%nat /\ bytes_ok (ustar_block u) /\ IsChecksumEqual (ustar_block u) = true.
Proof using Hu.
  destruct ustar_layout as (a & z & Ha & Hz & Ba & Bz & E). unfold ustar_block. rewrite E.
  assert (Hsum : 0 <= ustar_sum u < 8 ^ 6).
  { unfold ustar_sum. rewrite E. change (8 ^ 6) with 262144. set (p := a ++ repeat 32 8 ++ z).
    assert (bytes_ok p) as Hp by (unfold p; rewrite !Forall_app; split_and!; auto; vm_compute; repeat constructor; discriminate).
    pose proof (header_sums_range p Hp 0 0 0). assert (length p = 512%nat) by (unfold p; rewrite !length_app, Ha, Hz; reflexivity). lia. }
  assert (Hsums : header_sums 0 (a ++ (digits 8 6 (ustar_sum u) ++ [0; 32]) ++ z) 0 0 = header_sums 0 (a ++ repeat 32 8 ++ z) 0 0).
  { rewrite (header_sums_app a), (header_sums_app a). destruct (header_sums 0 a 0 0) as [c s]. rewrite !(header_sums_app _ _ z), Ha.
    rewrite (header_sums_field _ (repeat 32 8)) by (rewrite ?length_app, ?length_digits; reflexivity).
    rewrite length_app, length_digits. reflexivity. }
  assert (Hf : hdr_chksum (a ++ (digits 8 6 (ustar_sum u) ++ [0; 32]) ++ z) = digits 8 6 (ustar_sum u) ++ [0; 32]).
  { unfold hdr_chksum. apply slice_app; [lia|]. rewrite length_app, length_digits. reflexivity. }
  split_and!.
  - rewrite !length_app, length_digits, Ha, Hz. reflexivity.
  - rewrite !Forall_app. split_and!; auto; [|vm_compute; repeat constructor; discriminate].
    pose proof (octal_bytes 6 (ustar_sum u)) as Ho. unfold octal in Ho. now apply Forall_app in Ho as [Ho _].
  - unfold IsChecksumEqual. rewrite Hf, Hsums, parseNumeric_digits; [|lia|exact Hsum|lia|reflexivity].
    assert (forallb chksum_char (digits 8 6 (ustar_sum u) ++ [0; 32]) = true) as ->.
    { rewrite forallb_app. apply andb_true_iff. split; [|reflexivity]. apply forallb_forall. intros c Hc.
      pose proof (digits_ok 8 6 (ustar_sum u) ltac:(lia)) as Hd. rewrite Forall_forall in Hd. apply list_elem_of_In in Hc.
      specialize (Hd c Hc). cbn beta in Hd. unfold is_digit, chksum_char in *. b2p.
      rewrite (proj2 (Z.ltb_ge c 48)), Z.gtb_ltb, (proj2 (Z.ltb_ge 55 c)) by lia. now rewrite !orb_true_r. }
    cbn [negb]. unfold ustar_sum. rewrite E. destruct (header_sums 0 (a ++ repeat 32 8 ++ z) 0 0) as [c s]. cbn [fst].
    now rewrite Z.eqb_refl.
Qed.

Definition ustar_header : Header := {|
  Name := match u_prefix u with [] => u_name u | p => p ++ [47] ++ u_name u end;
  LinkName := u_linkname u; Uname := u_uname u; Gname := u_gname u;
  Size := u_size u; SparseSize := 0; Mode := u_mode u;
  ModTime := FromUnix (u_mtime u) 0; AccessTime := zero_time; ChangeTime := zero_time;
  Devmajor := u_devmajor u; Devminor := u_devminor u; Xattrs := ∅; PAXRecords := ∅;
  UID := u_uid u; GID := u_gid u; Format := Z.lor FormatUSTAR FormatPAX; Typeflag := u_typeflag u |}.

Lemma ustar_field i f o n : ustar_fields u (digits 8 6 (ustar_sum u) ++ [0; 32]) !! i = Some f ->
  o = zlen (concat (take i (ustar_fields u (digits 8 6 (ustar_sum u) ++ [0; 32])))) -> n = zlen f ->
  slice o n (ustar_block u) = f.
Proof using. apply slice_concat. Qed.

Ltac field_tac i :=
  erewrite (ustar_field i) by
    (reflexivity ||
     (unfold ustar_fields; cbn [take concat]; rewrite ?length_app, ?length_pad0, ?length_octal, ?length_digits by lia; reflexivity)).

Lemma ustar_fields_read :
  hdr_magic (ustar_block u) = magicUSTAR /\ star_trailer (ustar_block u) = repeat 0 4 /\
  hdr_typeflag (ustar_block u) = u_typeflag u /\
  parseString (hdr_name (ustar_block u)) = u_name u /\ parseString (hdr_linkname (ustar_block u)) = u_linkname u /\
  parseString (hdr_uname (ustar_block u)) = u_uname u /\ parseString (hdr_gname (ustar_block u)) = u_gname u /\
  parseString (hdr_prefix (ustar_block u)) = u_prefix u.
Proof using Hu.
  destruct Hu as ((? & ? & ?) & (? & ? & ?) & (? & ? & ?) & (? & ? & ?) & (? & ? & ?) & _).
  assert (hdr_typeflag (ustar_block u) = byte_at (slice 156 1 (ustar_block u)) 0) as ->.
  { apply (byte_at_slice _ 156). lia. }
  unfold hdr_magic, star_trailer, hdr_name, hdr_linkname, hdr_uname, hdr_gname, hdr_prefix.
  field_tac 9%nat. field_tac 16%nat. field_tac 7%nat. field_tac 0%nat. field_tac 8%nat. field_tac 11%nat. field_tac 12%nat. field_tac 15%nat.
  rewrite !parseString_pad0 by assumption. auto 10.
Qed.

Lemma ustar_numbers_read :
  parseNumeric (hdr_mode (ustar_block u)) = u_mode u /\ parseNumeric (hdr_uid (ustar_block u)) = u_uid u /\
  parseNumeric (hdr_gid (ustar_block u)) = u_gid u /\ parseNumeric (hdr_size (ustar_block u)) = u_size u /\
  parseNumeric (hdr_mtime (ustar_block u)) = u_mtime u /\ parseNumeric (hdr_devmajor (ustar_block u)) = u_devmajor u /\
  parseNumeric (hdr_devminor (ustar_block u)) = u_devminor u.
Proof using Hu.
  destruct Hu as ((? & ? & ?) & (? & ? & ?) & (? & ? & ?) & (? & ? & ?) & (? & ? & ?) & ? & ? & ? & ? & ? & ? & ? & _).
  unfold hdr_mode, hdr_uid, hdr_gid, hdr_size, hdr_mtime, hdr_devmajor, hdr_devminor.
  field_tac 1%nat. field_tac 2%nat. field_tac 3%nat. field_tac 4%nat. field_tac 5%nat. field_tac 13%nat. field_tac 14%nat.
  rewrite !parseNumeric_octal by (assumption || lia). auto 10.
Qed.

Lemma ustar_header_read : header_of_block (ustar_block u) = Some ustar_header.
Proof using Hu.
  destruct ustar_fields_read as (F1 & F2 & F3 & F4 & F5 & F6 & F7 & F8).
  destruct ustar_numbers_read as (N1 & N2 & N3 & N4 & N5 & N6 & N7).
  assert (getFormat (ustar_block u) = 6) as Hfmt.
  { unfold getFormat. rewrite (proj2 (proj2 ustar_checksum)), F1, F2, bool_decide_eq_true_2 by reflexivity. reflexivity. }
  unfold header_of_block, ustar_header. rewrite Hfmt. cbv zeta.
  change (6 =? FormatUnknown) with false. change (6 >? FormatV7) with true.
  change (negb (Z.land 6 (Z.lor FormatUSTAR FormatPAX) =? 0)) with true. cbn [andb negb].
  rewrite F3, F4, F5, F6, F7, F8, N1, N2, N3, N4, N5, N6, N7.
  destruct Hu as (_ & _ & _ & _ & _ & _ & H1 & H2 & _). unfold field_octal in *. change (8 ^ Z.of_nat 7) with 2097152 in *.
  unfold i32. rewrite !u32_small by (unfold is_u32; lia).
  rewrite !(proj2 (Z.ltb_lt _ _)) by lia. destruct (u_prefix u); reflexivity.
Qed.

End Written.

(** C33: header round trip.  The block a writer makes for an entry has 512
    bytes, is no end-of-archive block and is read back as that entry: name and
    prefix joined, numbers, type and owner unchanged. *)
Theorem ustar_header_roundtrip u : ustar_ok u ->
  length (ustar_block u) = 512%nat /\ isZeroBlock (ustar_block u) = false /\
  header_of_block (ustar_block u) = Some (ustar_header u).
Proof.
  intros Hu. split; [|split].
  - now apply ustar_checksum.
  - destruct (ustar_fields_read u Hu) as (Hm & _). unfold isZeroBlock. apply not_true_is_false. intros H.
    rewrite forallb_forall in H. assert (byte_at (ustar_block u) 257 = 117) as Hb.
    { rewrite byte_at_slice by lia. unfold hdr_magic in Hm. 
      replace (slice 257 1 (ustar_block u)) with (take 1 (slice 257 6 (ustar_block u))) by (unfold slice; now rewrite take_take).
      rewrite Hm. reflexivity. }
    unfold byte_at in Hb. destruct (nth_in_or_default (Z.to_nat 257) (ustar_block u) 0) as [Hin|E]; [|congruence].
    apply H in Hin. rewrite Hb in Hin. discriminate.
  - now apply ustar_header_read.
Qed.

(** ** Witnesses *)

Definition ustar_example : ustar := {|
  u_name := str "docs/readme.md"; u_mode := 420; u_uid := 1000; u_gid := 100; u_size := 11; u_mtime := 1700000000;
  u_typeflag := TypeReg; u_linkname := []; u_uname := str "user"; u_gname := str "users"; u_devmajor := 0;
  u_devminor := 0; u_prefix := str "baulk" |}.

Lemma ustar_example_ok : ustar_ok ustar_example.
Proof.
  unfold ustar_ok, field_string, field_octal, is_byte, ustar_example, TypeReg. cbn.
  repeat split; try lia; try (repeat constructor; unfold is_byte; lia);
    (apply find_byte_None; vm_compute; reflexivity).
Qed.

Lemma parse_numeric_saturates_witness :
  parseNumeric [128; 1; 0; 0; 0; 0; 0; 0; 0; 0; 0; 0] = clamp64 (2 ^ 80).
Proof.
  apply (parse_numeric_saturates [128; 1; 0; 0; 0; 0; 0; 0; 0; 0; 0; 0]).
  - repeat constructor; unfold is_byte; lia.
  - cbn. lia.
  - vm_compute. discriminate.
Defined.

Lemma header_corruption_detected_witness : getFormat (<[3%nat := 47]> (ustar_block ustar_example)) = FormatUnknown.
Proof.
  apply header_corruption_detected.
  - vm_compute. reflexivity.
  - apply (ustar_checksum ustar_example ustar_example_ok).
  - vm_compute. discriminate.
  - lia.
  - unfold in_chksum. lia.
  - unfold is_byte. lia.
  - vm_compute. discriminate.
Defined.

Lemma ustar_header_roundtrip_witness :
  option_map Name (header_of_block (ustar_block ustar_example)) = Some (str "baulk/docs/readme.md").
Proof.
  destruct (ustar_header_roundtrip ustar_example ustar_example_ok) as (_ & _ & ->). vm_compute. reflexivity.
Defined.
