(* ===== verification/TarPax.v ===== *)
(** * PAX records: [lib/archive/tar/format.cc] and [Reader::parsePAX]

    Extended headers: the records of an [x] or [g] entry, their merge into the
    header of the entry they describe, PAX times and sparse maps. *)

From Stdlib Require Import String.
From stdpp Require Import list gmap.
From S2P Require Import Prelude CxxString TarHeader.
Import (notations) ListNotations.

Open Scope Z_scope.

(** The error codes of [tar.hpp] and [archive.hpp], with those a reader makes. *)
Inductive tar_error :=
  | ErrNotTarFile
  | ErrEnded
  | ErrExtractGeneral
  | ErrAnotherWay
  | ErrCanceled
  | ErrSystem.

#[export] Instance tar_error_eq_dec : EqDecision tar_error.
Proof. solve_decision. Defined.

(** ** Assignments to one field of a [Header] *)

Definition set_Name (x : bytes) (h : Header) : Header := {|
  Name := x; LinkName := LinkName h; Uname := Uname h; Gname := Gname h; Size := Size h; SparseSize :=
  SparseSize h; Mode := Mode h; ModTime := ModTime h; AccessTime := AccessTime h; ChangeTime :=
  ChangeTime h; Devmajor := Devmajor h; Devminor := Devminor h; Xattrs := Xattrs h; PAXRecords :=
  PAXRecords h; UID := UID h; GID := GID h; Format := Format h; Typeflag := Typeflag h; |}.

Definition set_LinkName (x : bytes) (h : Header) : Header := {|
  Name := Name h; LinkName := x; Uname := Uname h; Gname := Gname h; Size := Size h; SparseSize :=
  SparseSize h; Mode := Mode h; ModTime := ModTime h; AccessTime := AccessTime h; ChangeTime :=
  ChangeTime h; Devmajor := Devmajor h; Devminor := Devminor h; Xattrs := Xattrs h; PAXRecords :=
  PAXRecords h; UID := UID h; GID := GID h; Format := Format h; Typeflag := Typeflag h; |}.

Definition set_Uname (x : bytes) (h : Header) : Header := {|
  Name := Name h; LinkName := LinkName h; Uname := x; Gname := Gname h; Size := Size h; SparseSize :=
  SparseSize h; Mode := Mode h; ModTime := ModTime h; AccessTime := AccessTime h; ChangeTime :=
  ChangeTime h; Devmajor := Devmajor h; Devminor := Devminor h; Xattrs := Xattrs h; PAXRecords :=
  PAXRecords h; UID := UID h; GID := GID h; Format := Format h; Typeflag := Typeflag h; |}.

Definition set_Gname (x : bytes) (h : Header) : Header := {|
  Name := Name h; LinkName := LinkName h; Uname := Uname h; Gname := x; Size := Size h; SparseSize :=
  SparseSize h; Mode := Mode h; ModTime := ModTime h; AccessTime := AccessTime h; ChangeTime :=
  ChangeTime h; Devmajor := Devmajor h; Devminor := Devminor h; Xattrs := Xattrs h; PAXRecords :=
  PAXRecords h; UID := UID h; GID := GID h; Format := Format h; Typeflag := Typeflag h; |}.

Definition set_Size (x : Z) (h : Header) : Header := {|
  Name := Name h; LinkName := LinkName h; Uname := Uname h; Gname := Gname h; Size := x; SparseSize :=
  SparseSize h; Mode := Mode h; ModTime := ModTime h; AccessTime := AccessTime h; ChangeTime :=
  ChangeTime h; Devmajor := Devmajor h; Devminor := Devminor h; Xattrs := Xattrs h; PAXRecords :=
  PAXRecords h; UID := UID h; GID := GID h; Format := Format h; Typeflag := Typeflag h; |}.

Definition set_ModTime (x : Time) (h : Header) : Header := {|
  Name := Name h; LinkName := LinkName h; Uname := Uname h; Gname := Gname h; Size := Size h;
  SparseSize := SparseSize h; Mode := Mode h; ModTime := x; AccessTime := AccessTime h; ChangeTime :=
  ChangeTime h; Devmajor := Devmajor h; Devminor := Devminor h; Xattrs := Xattrs h; PAXRecords :=
  PAXRecords h; UID := UID h; GID := GID h; Format := Format h; Typeflag := Typeflag h; |}.

Definition set_AccessTime (x : Time) (h : Header) : Header := {|
  Name := Name h; LinkName := LinkName h; Uname := Uname h; Gname := Gname h; Size := Size h;
  SparseSize := SparseSize h; Mode := Mode h; ModTime := ModTime h; AccessTime := x; ChangeTime :=
  ChangeTime h; Devmajor := Devmajor h; Devminor := Devminor h; Xattrs := Xattrs h; PAXRecords :=
  PAXRecords h; UID := UID h; GID := GID h; Format := Format h; Typeflag := Typeflag h; |}.

Definition set_ChangeTime (x : Time) (h : Header) : Header := {|
  Name := Name h; LinkName := LinkName h; Uname := Uname h; Gname := Gname h; Size := Size h;
  SparseSize := SparseSize h; Mode := Mode h; ModTime := ModTime h; AccessTime := AccessTime h;
  ChangeTime := x; Devmajor := Devmajor h; Devminor := Devminor h; Xattrs := Xattrs h; PAXRecords :=
  PAXRecords h; UID := UID h; GID := GID h; Format := Format h; Typeflag := Typeflag h; |}.

Definition set_Xattrs (x : Xmap) (h : Header) : Header := {|
  Name := Name h; LinkName := LinkName h; Uname := Uname h; Gname := Gname h; Size := Size h;
  SparseSize := SparseSize h; Mode := Mode h; ModTime := ModTime h; AccessTime := AccessTime h;
  ChangeTime := ChangeTime h; Devmajor := Devmajor h; Devminor := Devminor h; Xattrs := x; PAXRecords
  := PAXRecords h; UID := UID h; GID := GID h; Format := Format h; Typeflag := Typeflag h; |}.

Definition set_PAXRecords (x : Xmap) (h : Header) : Header := {|
  Name := Name h; LinkName := LinkName h; Uname := Uname h; Gname := Gname h; Size := Size h;
  SparseSize := SparseSize h; Mode := Mode h; ModTime := ModTime h; AccessTime := AccessTime h;
  ChangeTime := ChangeTime h; Devmajor := Devmajor h; Devminor := Devminor h; Xattrs := Xattrs h;
  PAXRecords := x; UID := UID h; GID := GID h; Format := Format h; Typeflag := Typeflag h; |}.

Definition set_UID (x : Z) (h : Header) : Header := {|
  Name := Name h; LinkName := LinkName h; Uname := Uname h; Gname := Gname h; Size := Size h;
  SparseSize := SparseSize h; Mode := Mode h; ModTime := ModTime h; AccessTime := AccessTime h;
  ChangeTime := ChangeTime h; Devmajor := Devmajor h; Devminor := Devminor h; Xattrs := Xattrs h;
  PAXRecords := PAXRecords h; UID := x; GID := GID h; Format := Format h; Typeflag := Typeflag h; |}.

Definition set_GID (x : Z) (h : Header) : Header := {|
  Name := Name h; LinkName := LinkName h; Uname := Uname h; Gname := Gname h; Size := Size h;
  SparseSize := SparseSize h; Mode := Mode h; ModTime := ModTime h; AccessTime := AccessTime h;
  ChangeTime := ChangeTime h; Devmajor := Devmajor h; Devminor := Devminor h; Xattrs := Xattrs h;
  PAXRecords := PAXRecords h; UID := UID h; GID := x; Format := Format h; Typeflag := Typeflag h; |}.

Definition set_Format (x : Z) (h : Header) : Header := {|
  Name := Name h; LinkName := LinkName h; Uname := Uname h; Gname := Gname h; Size := Size h;
  SparseSize := SparseSize h; Mode := Mode h; ModTime := ModTime h; AccessTime := AccessTime h;
  ChangeTime := ChangeTime h; Devmajor := Devmajor h; Devminor := Devminor h; Xattrs := Xattrs h;
  PAXRecords := PAXRecords h; UID := UID h; GID := GID h; Format := x; Typeflag := Typeflag h; |}.

Definition set_Typeflag (x : Z) (h : Header) : Header := {|
  Name := Name h; LinkName := LinkName h; Uname := Uname h; Gname := Gname h; Size := Size h;
  SparseSize := SparseSize h; Mode := Mode h; ModTime := ModTime h; AccessTime := AccessTime h;
  ChangeTime := ChangeTime h; Devmajor := Devmajor h; Devminor := Devminor h; Xattrs := Xattrs h;
  PAXRecords := PAXRecords h; UID := UID h; GID := GID h; Format := Format h; Typeflag := x; |}.

(** ** Keys *)

Definition paxPath : bytes := str "path".
Definition paxLinkpath : bytes := str "linkpath".
Definition paxSize : bytes := str "size".
Definition paxUid : bytes := str "uid".
Definition paxGid : bytes := str "gid".
Definition paxUname : bytes := str "uname".
Definition paxGname : bytes := str "gname".
Definition paxMtime : bytes := str "mtime".
Definition paxAtime : bytes := str "atime".
Definition paxCtime : bytes := str "ctime".
Definition paxSchilyXattr : bytes := str "SCHILY.xattr.".
Definition paxGNUSparseOffset : bytes := str "GNU.sparse.offset".
Definition paxGNUSparseNumBytes : bytes := str "GNU.sparse.numbytes".
Definition paxGNUSparseMap : bytes := str "GNU.sparse.map".

(** ** One record: ["%d %s=%s\n"] *)

Definition validPAXRecord (k v : bytes) : bool :=
  if bool_decide (k = []) || contains 61 k then false
  else if bool_decide (k = paxPath) || bool_decide (k = paxLinkpath) || bool_decide (k = paxUname)
          || bool_decide (k = paxGname)
  then negb (contains 0 v)
  else negb (contains 0 k).

(** The key, the value and what is left of [sv]. *)
Definition parsePAXRecord (sv : bytes) : option (bytes * bytes * bytes) :=
  match find_byte 32 sv with
  | None => None
  | Some pos =>
      match from_chars_int (take pos sv) with
      | None => None
      | Some n =>
          if u64 n >? zlen sv then None
          else if Z.of_nat pos >=? n then None
          else
            let rec := slice (Z.of_nat pos + 1) (n - Z.of_nat pos - 1) sv in
            if negb (ends_with [10] rec) then None
            else
              let rec := take (length rec - 1) rec in
              match find_byte 61 rec with
              | None => None
              | Some eq =>
                  let k := take eq rec in
                  let v := drop (eq + 1) rec in
                  if validPAXRecord k v then Some (k, v, from n sv) else None
              end
      end
  end.

(** ** All the records: [Reader::parsePAX] after the data was read *)

(** [flat_hash_map::emplace] keeps the value of a key that is there. *)
Definition emplace (k v : bytes) (m : Xmap) : Xmap :=
  match m !! k with Some _ => m | None => <[k := v]> m end.

Fixpoint StrJoin (sep : bytes) (pieces : list (list Z)) : bytes :=
  match pieces with
  | [] => []
  | [p] => p
  | p :: rest => p ++ sep ++ StrJoin sep rest
  end.

Definition sparse_key_ok (sparseMap : list (list Z)) (k v : bytes) : bool :=
  negb ((Nat.even (length sparseMap) && negb (bool_decide (k = paxGNUSparseOffset)))
        || (Nat.odd (length sparseMap) && negb (bool_decide (k = paxGNUSparseNumBytes))) || contains 46 v).

(** The loop takes at least one byte per round, so that [length sv] rounds are
    enough ([pax_loop_eq]). *)
Fixpoint pax_loop (fuel : nat) (sv : bytes) (sparseMap : list (list Z)) (paxHdrs : Xmap)
    : tar_error + list (list Z) * Xmap :=
  match sv, fuel with
  | [], _ => inr (sparseMap, paxHdrs)
  | _, O => inl ErrExtractGeneral
  | _, Datatypes.S fuel =>
      match parsePAXRecord sv with
      | None => inl ErrExtractGeneral
      | Some (k, v, sv) =>
          if bool_decide (k = paxGNUSparseOffset) || bool_decide (k = paxGNUSparseNumBytes) then
            if sparse_key_ok sparseMap k v then pax_loop fuel sv (sparseMap ++ [v]) paxHdrs else inl ErrNotTarFile
          else pax_loop fuel sv sparseMap (emplace k v paxHdrs)
      end
  end.

Definition parsePAX (sv : bytes) (paxHdrs : Xmap) : tar_error + Xmap :=
  match pax_loop (length sv) sv [] paxHdrs with
  | inl e => inl e
  | inr ([], m) => inr m
  | inr (sparseMap, m) => inr (emplace paxGNUSparseMap (StrJoin [44] sparseMap) m)
  end.

(** ** Times *)

Definition parsePAXTime (p : bytes) : option Time :=
  let '(ss, sn) := match find_byte 46 p with
                   | Some pos => (take pos p, drop (pos + 1) p)
                   | None => (p, [])
                   end in
  match from_chars_i64 10 ss with
  | None => None
  | Some sec =>
      match sn with
      | [] => Some (FromUnix sec 0)
      | _ => let nsec := default 0 (from_chars_i64 10 ss) in Some (FromUnix sec nsec)
      end
  end.

(** ** [mergePAX] *)

(** The order in which [gtl::flat_hash_map] visits its entries is not
    specified. *)
Class MapOrder := {
  visit : Xmap -> list (list Z * list Z);
  visit_perm m : visit m ≡ₚ map_to_list m;
}.

(** One round of the loop.  [false] is a [return false]; the error code may be
    set without one. *)
Definition merge_record (h : Header) (ec : option tar_error) (k v : bytes) : bool * Header * option tar_error :=
  let failed := (false, h, Some ErrExtractGeneral) in
  if bool_decide (v = []) then (true, h, ec)
  else if bool_decide (k = paxPath) then (true, set_Name v h, ec)
  else if bool_decide (k = paxLinkpath) then (true, set_LinkName v h, ec)
  else if bool_decide (k = paxUname) then (true, set_Uname v h, ec)
  else if bool_decide (k = paxGname) then (true, set_Gname v h, ec)
  else if bool_decide (k = paxUid) then
    match from_chars_i64 10 v with
    | None => (true, set_UID (i32 0) h, Some ErrExtractGeneral)
    | Some id => (true, set_UID (i32 id) h, ec)
    end
  else if bool_decide (k = paxGid) then
    match from_chars_i64 10 v with None => failed | Some id => (true, set_GID (i32 id) h, ec) end
  else if bool_decide (k = paxAtime) then
    match parsePAXTime v with None => failed | Some t => (true, set_AccessTime t h, ec) end
  else if bool_decide (k = paxMtime) then
    match parsePAXTime v with None => failed | Some t => (true, set_ModTime t h, ec) end
  else if bool_decide (k = paxCtime) then
    match parsePAXTime v with None => failed | Some t => (true, set_ChangeTime t h, ec) end
  else if bool_decide (k = paxSize) then
    match from_chars_i64 10 v with None => failed | Some size => (true, set_Size size h, ec) end
  else if starts_with paxSchilyXattr k then
    (true, set_Xattrs (emplace (drop (length paxSchilyXattr) k) v (Xattrs h)) h, ec)
  else (true, h, ec).

Fixpoint merge_loop (records : list (list Z * list Z)) (h : Header) (ec : option tar_error)
    : bool * Header * option tar_error :=
  match records with
  | [] => (true, h, ec)
  | (k, v) :: records =>
      match merge_record h ec k v with
      | (true, h, ec) => merge_loop records h ec
      | r => r
      end
  end.

Definition mergePAX `{MapOrder} (h : Header) (ec : option tar_error) (paxHdrs : Xmap)
    : bool * Header * option tar_error :=
  match merge_loop (visit paxHdrs) h ec with
  | (true, h, ec) => (true, set_PAXRecords paxHdrs h, ec)
  | r => r
  end.

(** ** Sparse files *)

Record sparseEntry := { Offset : Z; Length : Z }.
Definition endOffset (e : sparseEntry) : Z := Offset e + Length e.

Fixpoint validate_loop (spd : list sparseEntry) (size : Z) (pre : sparseEntry) : bool :=
  match spd with
  | [] => true
  | cur :: spd =>
      if (Offset cur <? 0) || (Length cur <? 0) then false
      else if Offset cur >? INT64_MAX - Length cur then false
      else if endOffset cur >? size then false
      else if endOffset pre >? Offset cur then false
      else validate_loop spd size cur
  end.

Definition validateSparseEntries (spd : list sparseEntry) (size : Z) : bool :=
  if size <? 0 then false else validate_loop spd size {| Offset := 0; Length := 0 |}.

Example pax_record_ex :
  parsePAXRecord (str "30 mtime=1321711775.951540960" ++ [10] ++ str "rest") =
  Some (str "mtime", str "1321711775.951540960", str "rest").
Proof. vm_compute. reflexivity. Qed.

(** ** Records and their text *)

(** [is_record r k v]: [r] is the text of the record, its decimal length first. *)
Definition is_record (r : bytes) (kv : list Z * list Z) : Prop :=
  exists len, r = len ++ 32 :: kv.1 ++ 61 :: kv.2 ++ [10] /\ (32 ∉ len) /\ from_chars_int len = Some (zlen r) /\
    validPAXRecord kv.1 kv.2 = true.

Lemma valid_key k v : validPAXRecord k v = true -> 61 ∉ k.
Proof.
  unfold validPAXRecord. destruct (_ || _)%bool eqn:E; [discriminate|]. intros _. b2p. now apply contains_spec.
Qed.

Lemma ends_with_snoc c s : ends_with [c] (s ++ [c]) = true.
Proof.
  unfold ends_with. rewrite length_app. cbn [length]. replace (length s + 1 - 1)%nat with (length s) by lia.
  rewrite drop_app_length, bool_decide_eq_true_2 by reflexivity. apply andb_true_iff. split; [apply Nat.leb_le; lia|reflexivity].
Qed.

Lemma ends_with_inv c s : ends_with [c] s = true -> exists t, s = t ++ [c].
Proof.
  unfold ends_with. intros H. apply andb_true_iff in H as [_ H]. apply bool_decide_eq_true in H.
  exists (take (length s - 1) s). cbn [length] in H. rewrite <- (take_drop (length s - 1) s) at 1. now rewrite H.
Qed.

Lemma app_cons_snoc (a b : bytes) x y : a ++ x :: b ++ [y] = (a ++ x :: b) ++ [y].
Proof. now rewrite <- app_assoc. Qed.

Lemma record_app (len k v rest : bytes) :
  (len ++ 32 :: k ++ 61 :: v ++ [10]) ++ rest = len ++ 32 :: (k ++ 61 :: v) ++ 10 :: rest.
Proof. repeat (rewrite <- !app_assoc; cbn [app]). reflexivity. Qed.

Lemma parse_record_complete r k v rest :
  is_record r (k, v) -> parsePAXRecord (r ++ rest) = Some (k, v, rest).
Proof.
  intros (len & Hr & Hsp & Hn & Hv). cbn [fst snd] in *. unfold parsePAXRecord. pose proof (from_chars_range _ _ _ _ _ Hn) as Hrange.
  assert (Hlen : zlen r = zlen len + 1 + (zlen (k ++ 61 :: v) + 1)).
  { rewrite Hr, (app_cons_snoc k v), app_cons_snoc, !length_app. cbn [length]. rewrite !length_app. cbn [length]. lia. }
  assert (E : r ++ rest = len ++ 32 :: (k ++ 61 :: v) ++ 10 :: rest) by (rewrite Hr; apply record_app).
  rewrite E at 1. rewrite find_byte_app by assumption. rewrite E at 1. rewrite take_app_length, Hn.
  unfold INT32_MIN, INT32_MAX in Hrange. rewrite (u64_small (zlen r)) by (unfold is_u64; lia).
  rewrite length_app, Z.gtb_ltb, (proj2 (Z.ltb_ge _ _)) by lia. rewrite Z.geb_leb, (proj2 (Z.leb_gt _ _)) by lia.
  assert (slice (zlen len + 1) (zlen r - zlen len - 1) (r ++ rest) = (k ++ 61 :: v) ++ [10]) as ->.
  { rewrite E. replace (len ++ 32 :: (k ++ 61 :: v) ++ 10 :: rest) with ((len ++ [32]) ++ ((k ++ 61 :: v) ++ [10]) ++ rest)
      by (repeat (rewrite <- !app_assoc; cbn [app]); reflexivity).
    apply slice_app; [rewrite length_app; cbn [length]; lia|]. rewrite Hlen, (length_app (_ ++ _)). cbn [length]. lia. }
  rewrite ends_with_snoc. cbn [negb]. rewrite length_app. cbn [length].
  replace (length (k ++ 61%Z :: v) + 1 - 1)%nat with (length (k ++ 61 :: v)) by lia. rewrite take_app_length.
  rewrite find_byte_app by (eapply valid_key; eassumption). rewrite take_app_length.
  assert (drop (length k + 1) (k ++ 61 :: v) = v) as ->.
  { replace (k ++ 61 :: v) with ((k ++ [61]) ++ v) by (rewrite <- app_assoc; reflexivity).
    replace (length k + 1)%nat with (length (k ++ [61])) by (rewrite length_app; reflexivity). apply drop_app_length. }
  rewrite Hv, from_app by reflexivity. reflexivity.
Qed.

Lemma parse_record_sound sv k v rest :
  parsePAXRecord sv = Some (k, v, rest) -> exists r, sv = r ++ rest /\ is_record r (k, v).
Proof.
  unfold parsePAXRecord. intros H. destruct (find_byte 32 sv) as [pos|] eqn:Ep; [|discriminate].
  destruct (find_byte_Some _ _ _ Ep) as (Esv & Hsp & Hpos).
  destruct (from_chars_int (take pos sv)) as [n|] eqn:En; [|discriminate].
  pose proof (from_chars_range _ _ _ _ _ En) as Hrange. unfold INT32_MIN, INT32_MAX in Hrange.
  destruct (u64 n >? zlen sv) eqn:H1; [discriminate|]. destruct (Z.of_nat pos >=? n) eqn:H2; [discriminate|].
  rewrite Z.gtb_ltb in H1. rewrite Z.geb_leb in H2. b2p. rewrite (u64_small n) in H1 by (unfold is_u64; lia).
  destruct (ends_with [10] _) eqn:He; [|discriminate]. cbn [negb] in H. apply ends_with_inv in He as [rec He].
  rewrite He in H. rewrite length_app in H. cbn [length] in H. replace (length rec + 1 - 1)%nat with (length rec) in H by lia.
  rewrite take_app_length in H. destruct (find_byte 61 rec) as [eq|] eqn:Eq; [|discriminate].
  destruct (find_byte_Some _ _ _ Eq) as (Erec & _ & _). rewrite Nat.add_1_r in H.
  destruct (validPAXRecord _ _) eqn:Hv; [|discriminate]. injection H as <- <- <-.
  assert (sv = take (Z.to_nat n) sv ++ from n sv) as Hsplit by (unfold from; now rewrite take_drop).
  exists (take (Z.to_nat n) sv). split; [exact Hsplit|]. exists (take pos sv). cbn [fst snd].
  assert (Hr : take (Z.to_nat n) sv = take pos sv ++ 32 :: rec ++ [10]).
  { rewrite <- He. unfold slice, from. rewrite Esv at 1. rewrite firstn_app, firstn_firstn, length_take.
    replace (Z.to_nat n `min` pos)%nat with pos by lia. f_equal. replace (pos `min` length sv)%nat with pos by lia.
    replace (Z.to_nat n - pos)%nat with (Datatypes.S (Z.to_nat (n - Z.of_nat pos - 1))) by lia. cbn [take].
    do 2 f_equal. f_equal. lia. }
  split_and!; try assumption.
  - rewrite Hr. f_equal. f_equal. rewrite Erec at 1. now rewrite <- app_assoc.
  - rewrite length_take, En. f_equal. lia.
Qed.

Lemma record_nonempty r kv : is_record r kv -> (1 <= length r)%nat.
Proof. intros (len & -> & _). rewrite length_app. cbn [length]. lia. Qed.

(** ** The loop of [parsePAX] *)

Lemma pax_loop_eq sv : forall fuel sparse m, (length sv <= fuel)%nat ->
  pax_loop fuel sv sparse m =
  match sv with
  | [] => inr (sparse, m)
  | _ =>
      match parsePAXRecord sv with
      | None => inl ErrExtractGeneral
      | Some (k, v, sv) =>
          if bool_decide (k = paxGNUSparseOffset) || bool_decide (k = paxGNUSparseNumBytes) then
            if sparse_key_ok sparse k v then pax_loop (length sv) sv (sparse ++ [v]) m else inl ErrNotTarFile
          else pax_loop (length sv) sv sparse (emplace k v m)
      end
  end.
Proof.
  induction sv as [sv IH] using (induction_ltof1 _ (@length Z)). unfold ltof in IH. intros fuel sparse m Hf.
  destruct sv as [|b sv']; [now destruct fuel|]. destruct fuel as [|fuel]; [cbn in Hf; lia|]. cbn [pax_loop].
  destruct (parsePAXRecord (b :: sv')) as [[[k v] rest]|] eqn:E; [|reflexivity].
  destruct (parse_record_sound _ _ _ _ E) as (r & Er & Hr). apply record_nonempty in Hr.
  assert (length (b :: sv') = length r + length rest)%nat as Hl by (rewrite Er; apply length_app).
  assert (forall s m', pax_loop fuel rest s m' = pax_loop (length rest) rest s m') as Hfuel.
  { intros s m'. rewrite !IH by lia. reflexivity. }
  now rewrite !Hfuel.
Qed.

Definition plain_key (k : bytes) : Prop := k <> paxGNUSparseOffset /\ k <> paxGNUSparseNumBytes.

Lemma pax_loop_records rs recs : Forall2 is_record rs recs -> Forall (fun kv => plain_key kv.1) recs ->
  forall sparse m, pax_loop (length (concat rs)) (concat rs) sparse m =
    inr (sparse, fold_left (fun m kv => emplace kv.1 kv.2 m) recs m).
Proof.
  induction 1 as [|r [k v] rs recs Hr _ IH]; intros Hk sparse m; [reflexivity|].
  apply Forall_cons in Hk as [[Hk1 Hk2] Hk]. cbn [fst snd concat fold_left] in *. rewrite pax_loop_eq by lia.
  rewrite (parse_record_complete r k v) by assumption. rewrite !bool_decide_eq_false_2 by assumption. cbn [orb].
  rewrite IH by assumption. apply record_nonempty in Hr. destruct r; [cbn in Hr; lia|]. reflexivity.
Qed.

Lemma emplace_lookup k v m k' :
  emplace k v m !! k' = match m !! k' with Some x => Some x | None => if decide (k' = k) then Some v else None end.
Proof.
  unfold emplace. destruct (m !! k) eqn:E; destruct (decide (k' = k)) as [->|Hne].
  - now rewrite E.
  - now destruct (m !! k').
  - now rewrite E, lookup_insert_eq.
  - rewrite lookup_insert_ne by congruence. now destruct (m !! k').
Qed.

(** The value of a key is the one of its first record. *)
Lemma emplace_all recs : forall m k',
  fold_left (fun m kv => emplace kv.1 kv.2 m) recs m !! k' =
  match m !! k' with Some x => Some x | None => (list_to_map recs : Xmap) !! k' end.
Proof.
  induction recs as [|[k v] recs IH]; intros m k'; cbn [fold_left fst snd].
  - rewrite list_to_map_nil, lookup_empty. now destruct (m !! k').
  - rewrite IH, emplace_lookup, list_to_map_cons. destruct (m !! k'); [reflexivity|].
    destruct (decide (k' = k)) as [->|Hne]; [now rewrite lookup_insert_eq|now rewrite lookup_insert_ne by congruence].
Qed.


(** ** [validateSparseEntries] *)

Definition entry_within (size : Z) (e : sparseEntry) : Prop := 0 <= Offset e /\ 0 <= Length e /\ endOffset e <= size.

(** The entries are regions of the file in increasing order that do not overlap. *)
Definition sparse_ok (spd : list sparseEntry) (size : Z) : Prop :=
  0 <= size /\ Forall (entry_within size) spd /\
  forall i a b, spd !! i = Some a -> spd !! Datatypes.S i = Some b -> endOffset a <= Offset b.

Lemma validate_loop_spec spd size : 0 <= size <= INT64_MAX -> forall pre, 0 <= endOffset pre ->
  validate_loop spd size pre = true <->
  Forall (entry_within size) spd /\ forall i a b, (pre :: spd) !! i = Some a -> spd !! i = Some b -> endOffset a <= Offset b.
Proof.
  intros Hs. induction spd as [|cur spd IH]; intros pre Hpre; cbn [validate_loop].
  - split; [split; [constructor|intros [|]; discriminate]|reflexivity].
  - rewrite Forall_cons. unfold INT64_MAX in *. unfold entry_within at 1. rewrite !Z.gtb_ltb.
    destruct (Z.ltb_spec (Offset cur) 0); [split; [discriminate|lia]|].
    destruct (Z.ltb_spec (Length cur) 0); [split; [discriminate|lia]|]. cbn [orb].
    destruct (Z.ltb_spec (9223372036854775807 - Length cur) (Offset cur)); [split; [discriminate|unfold endOffset; lia]|].
    destruct (Z.ltb_spec size (endOffset cur)); [split; [discriminate|lia]|].
    destruct (Z.ltb_spec (Offset cur) (endOffset pre)) as [Hp|Hp].
    + split; [discriminate|]. intros [_ Hadj]. specialize (Hadj 0%nat pre cur eq_refl eq_refl). lia.
    + rewrite IH by (unfold endOffset; lia). split.
      * intros [Hf Hadj]. split; [tauto|]. intros [|i] a b Ha Hb; cbn in Ha, Hb; [injection Ha as <-; injection Hb as <-; lia|].
        now apply (Hadj i).
      * intros [[_ Hf] Hadj]. split; [assumption|]. intros i a b Ha Hb. now apply (Hadj (Datatypes.S i)).
Qed.

(** The sparse map check accepts exactly the maps whose regions lie in the file,
    in order and without overlap; no sum overflows. *)
Lemma validate_sparse_spec spd size : size <= INT64_MAX ->
  validateSparseEntries spd size = true <-> sparse_ok spd size.
Proof.
  intros Hs. unfold validateSparseEntries, sparse_ok. destruct (Z.ltb_spec size 0); [split; [discriminate|lia]|].
  rewrite validate_loop_spec by (unfold endOffset; cbn [Offset Length]; lia). split.
  - intros [Hf Hadj]. split_and!; try assumption. intros i a b Ha Hb. apply (Hadj (Datatypes.S i)); assumption.
  - intros (_ & Hf & Hadj). split; [assumption|]. intros [|i] a b Ha Hb.
    + cbn in Ha. injection Ha as <-. apply Forall_lookup_1 with (i := 0%nat) (x := b) in Hf; [|assumption].
      unfold entry_within in Hf. unfold endOffset at 1. cbn [Offset Length]. lia.
    + now apply (Hadj i).
Qed.

(** ** [mergePAX]: what it does to each field

    [present m k]: the value of a record that is there and not empty. *)

Definition present (m : Xmap) (k : bytes) : option (list Z) :=
  match m !! k with Some [] => None | o => o end.

Definition is_number (k : bytes) : Prop := k = paxGid \/ k = paxSize.
Definition is_time (k : bytes) : Prop := k = paxAtime \/ k = paxMtime \/ k = paxCtime.

(** The record does not make [mergePAX] fail. *)
Definition record_ok (k v : bytes) : Prop :=
  v = [] \/ ((is_number k -> from_chars_i64 10 v <> None) /\ (is_time k -> parsePAXTime v <> None)).

#[export] Instance record_ok_dec k v : Decision (record_ok k v).
Proof. unfold record_ok, is_number, is_time. apply _. Defined.

Definition bad_uid (k v : bytes) : Prop := k = paxUid /\ v <> [] /\ from_chars_i64 10 v = None.

#[export] Instance bad_uid_dec k v : Decision (bad_uid k v).
Proof. unfold bad_uid. apply _. Defined.

Definition applied (h : Header) (kv : list Z * list Z) : Header := (merge_record h None kv.1 kv.2).1.2.
Definition noted (ec : option tar_error) (kv : list Z * list Z) : option tar_error :=
  if bool_decide (bad_uid kv.1 kv.2) then Some ErrExtractGeneral else ec.

(** Decide the tests of [merge_record] on a key that is known. *)
Ltac known_tests :=
  repeat match goal with
  | |- context [bool_decide (?a = ?b)] =>
      let r := eval vm_compute in (bool_decide (a = b)) in
      match r with true => idtac | false => idtac end; change (bool_decide (a = b)) with r
  end; cbn [andb orb negb].

Ltac key_tests :=
  rewrite ?(bool_decide_eq_true_2 (@nil Z = [])) by reflexivity; rewrite ?bool_decide_eq_false_2 by assumption; known_tests.

Ltac merge_cases k :=
  destruct (decide (k = paxPath)) as [->|?]; [|
  destruct (decide (k = paxLinkpath)) as [->|?]; [|
  destruct (decide (k = paxUname)) as [->|?]; [|
  destruct (decide (k = paxGname)) as [->|?]; [|
  destruct (decide (k = paxUid)) as [->|?]; [|
  destruct (decide (k = paxGid)) as [->|?]; [|
  destruct (decide (k = paxAtime)) as [->|?]; [|
  destruct (decide (k = paxMtime)) as [->|?]; [|
  destruct (decide (k = paxCtime)) as [->|?]; [|
  destruct (decide (k = paxSize)) as [->|?]]]]]]]]]]; key_tests.

(** No key is another key. *)
Ltac other_key := intros; exfalso; unfold is_number, is_time in *; destruct_or!; (congruence || (exfalso; vm_compute in *; discriminate)).

Lemma merge_record_cases h ec k v :
  merge_record h ec k v =
  if decide (record_ok k v) then (true, applied h (k, v), noted ec (k, v)) else (false, h, Some ErrExtractGeneral).
Proof.
  unfold applied, noted. cbn [fst snd].
  assert (Hbad : bool_decide (bad_uid k v) = bool_decide (k = paxUid) && negb (bool_decide (v = []))
                 && bool_decide (from_chars_i64 10 v = None)).
  { unfold bad_uid. repeat case_bool_decide; tauto. }
  rewrite Hbad. clear Hbad. unfold merge_record. destruct (decide (v = [])) as [->|Hv].
  { rewrite decide_True by (now left). rewrite !(bool_decide_eq_true_2 ([] = [])), andb_false_r by reflexivity. reflexivity. }
  rewrite !(bool_decide_eq_false_2 (v = [])) by assumption.
  destruct (decide (record_ok k v)) as [[?|[Hn Ht]]|Hno]; [congruence| |unfold record_ok in Hno]; 
    generalize dependent (parsePAXTime v); generalize dependent (from_chars_i64 10 v); intros num.
  - intros Hn time Ht. merge_cases k; try reflexivity; destruct num, time; try reflexivity;
      try (exfalso; apply Hn; [unfold is_number; tauto|reflexivity]);
      try (exfalso; apply Ht; [unfold is_time; tauto|reflexivity]); destruct (starts_with paxSchilyXattr k); reflexivity.
  - intros time Hno. apply Decidable.not_or in Hno as [_ Hno].
    merge_cases k; destruct num, time; try reflexivity; exfalso; apply Hno; split; (congruence || other_key).
Qed.

Definition all_ok (l : list (list Z * list Z)) : Prop := Forall (fun kv => record_ok kv.1 kv.2) l.

Lemma merge_loop_ok l : all_ok l -> forall h ec, merge_loop l h ec = (true, fold_left applied l h, fold_left noted l ec).
Proof.
  induction 1 as [|[k v] l Hok _ IH]; intros h ec; cbn [merge_loop fold_left]; [reflexivity|].
  rewrite merge_record_cases, decide_True by assumption. apply IH.
Qed.

Lemma merge_loop_fails l : ~ all_ok l -> forall h ec, exists h', merge_loop l h ec = (false, h', Some ErrExtractGeneral).
Proof.
  induction l as [|[k v] l IH]; intros Hno h ec; [destruct Hno; constructor|]. cbn [merge_loop]. rewrite merge_record_cases.
  destruct (decide (record_ok k v)) as [Hok|Hk]; [|eauto]. apply IH. intros H. apply Hno. now constructor.
Qed.

Definition fields_of (h h' : Header) (k v : bytes) : Prop :=
  Name h' = (if bool_decide (k = paxPath) then v else Name h) /\
  LinkName h' = (if bool_decide (k = paxLinkpath) then v else LinkName h) /\
  Uname h' = (if bool_decide (k = paxUname) then v else Uname h) /\
  Gname h' = (if bool_decide (k = paxGname) then v else Gname h) /\
  UID h' = (if bool_decide (k = paxUid) then i32 (default 0 (from_chars_i64 10 v)) else UID h) /\
  GID h' = (if bool_decide (k = paxGid) then i32 (default 0 (from_chars_i64 10 v)) else GID h) /\
  Size h' = (if bool_decide (k = paxSize) then default 0 (from_chars_i64 10 v) else Size h) /\
  AccessTime h' = (if bool_decide (k = paxAtime) then default zero_time (parsePAXTime v) else AccessTime h) /\
  ModTime h' = (if bool_decide (k = paxMtime) then default zero_time (parsePAXTime v) else ModTime h) /\
  ChangeTime h' = (if bool_decide (k = paxCtime) then default zero_time (parsePAXTime v) else ChangeTime h) /\
  Xattrs h' = (if starts_with paxSchilyXattr k then emplace (drop (length paxSchilyXattr) k) v (Xattrs h) else Xattrs h).

Definition same_rest (h h' : Header) : Prop :=
  SparseSize h' = SparseSize h /\ Mode h' = Mode h /\ Devmajor h' = Devmajor h /\ Devminor h' = Devminor h /\
  Format h' = Format h /\ Typeflag h' = Typeflag h.

Lemma applied_empty h k : applied h (k, []) = h.
Proof. unfold applied, merge_record. cbn [fst snd]. now rewrite bool_decide_eq_true_2. Qed.

Lemma applied_fields h k v : v <> [] -> record_ok k v -> fields_of h (applied h (k, v)) k v /\ same_rest h (applied h (k, v)).
Proof.
  intros Hv [->|[Hn Ht]]; [congruence|]. unfold applied, fields_of, same_rest, merge_record, starts_with. cbn [fst snd].
  rewrite (bool_decide_eq_false_2 (v = [])) by assumption.
  generalize dependent (parsePAXTime v). generalize dependent (from_chars_i64 10 v). intros num Hn time Ht.
  merge_cases k; destruct num, time; try (split_and!; reflexivity);
    try (exfalso; apply Hn; [unfold is_number; tauto|reflexivity]);
    try (exfalso; apply Ht; [unfold is_time; tauto|reflexivity]).
  all: destruct (bool_decide (take (length paxSchilyXattr) k = paxSchilyXattr)); split_and!; reflexivity.
Qed.

Definition value_in (l : list (list Z * list Z)) (k : bytes) : option (list Z) := present (list_to_map l) k.

(** A field that one key sets has the value of that key at the end. *)
Lemma fold_field {A} (f : Header -> A) (key : bytes) (upd : list Z -> A) l :
  (forall h k v, v <> [] -> record_ok k v -> f (applied h (k, v)) = if bool_decide (k = key) then upd v else f h) ->
  NoDup l.*1 -> all_ok l -> forall h,
  f (fold_left applied l h) = match value_in l key with Some v => upd v | None => f h end.
Proof.
  intros Hf. induction l as [|[k v] l IH]; intros Hnd Hok h; [reflexivity|].
  rewrite fmap_cons in Hnd. apply NoDup_cons in Hnd as [Hk Hnd]. apply Forall_cons in Hok as [Hkv Hok]. cbn [fst snd fold_left] in *.
  rewrite IH by assumption. unfold value_in, present. rewrite list_to_map_cons.
  destruct (decide (k = key)) as [->|Hne].
  - rewrite lookup_insert_eq, (not_elem_of_list_to_map_1 l key) by assumption.
    destruct v; [now rewrite applied_empty|]. rewrite Hf by (discriminate || assumption). now rewrite bool_decide_eq_true_2.
  - rewrite lookup_insert_ne by assumption.
    assert (f (applied h (k, v)) = f h) as ->; [|reflexivity].
    destruct v; [now rewrite applied_empty|]. rewrite Hf by (discriminate || assumption). now rewrite bool_decide_eq_false_2.
Qed.

Lemma starts_with_spec p s : starts_with p s = true <-> exists t, s = p ++ t /\ drop (length p) s = t.
Proof.
  unfold starts_with. rewrite bool_decide_eq_true. split.
  - intros H. exists (drop (length p) s). split; [|reflexivity]. rewrite <- H at 1. now rewrite take_drop.
  - intros (t & -> & _). now rewrite take_app_length.
Qed.

Lemma fold_xattrs l : NoDup l.*1 -> all_ok l -> forall h n,
  Xattrs (fold_left applied l h) !! n =
  match Xattrs h !! n with Some x => Some x | None => value_in l (paxSchilyXattr ++ n) end.
Proof.
  induction l as [|[k v] l IH]; intros Hnd Hok h n; cbn [fold_left]; [unfold value_in, present; cbn; now destruct (Xattrs h !! n)|].
  rewrite fmap_cons in Hnd. apply NoDup_cons in Hnd as [Hk Hnd]. apply Forall_cons in Hok as [Hkv Hok]. cbn [fst snd] in *.
  rewrite IH by assumption. unfold value_in, present. rewrite list_to_map_cons.
  destruct (decide (k = paxSchilyXattr ++ n)) as [->|Hne].
  - rewrite lookup_insert_eq, (not_elem_of_list_to_map_1 l _) by assumption. destruct v as [|c v].
    + rewrite applied_empty. now destruct (Xattrs h !! n).
    + destruct (applied_fields h (paxSchilyXattr ++ n) (c :: v) ltac:(discriminate) Hkv) as [(_ & _ & _ & _ & _ & _ & _ & _ & _ & _ & ->) _].
      rewrite (proj2 (starts_with_spec _ _)), drop_app_length, emplace_lookup by (exists n; split; [reflexivity|apply drop_app_length]).
      rewrite decide_True by reflexivity. now destruct (Xattrs h !! n).
  - rewrite lookup_insert_ne by assumption. destruct v as [|c v]; [now rewrite applied_empty|].
    destruct (applied_fields h k (c :: v) ltac:(discriminate) Hkv) as [(_ & _ & _ & _ & _ & _ & _ & _ & _ & _ & ->) _].
    destruct (starts_with paxSchilyXattr k) eqn:Es; [|reflexivity]. apply starts_with_spec in Es as (t & -> & ->).
    rewrite emplace_lookup, decide_False by congruence. now destruct (Xattrs h !! n).
Qed.

Lemma fold_rest l : all_ok l -> forall h, same_rest h (fold_left applied l h).
Proof.
  induction 1 as [|[k v] l Hkv _ IH]; intros h; cbn [fold_left]; [repeat split|]. cbn [fst snd] in *.
  assert (same_rest h (applied h (k, v))) as Hs.
  { destruct v as [|c v]; [rewrite applied_empty; repeat split|now apply applied_fields]. }
  unfold same_rest in *. specialize (IH (applied h (k, v))). intuition congruence.
Qed.

Lemma fold_noted l ec : fold_left noted l ec = if decide (Exists (fun kv => bad_uid kv.1 kv.2) l) then Some ErrExtractGeneral else ec.
Proof.
  revert ec. induction l as [|[k v] l IH]; intros ec; cbn [fold_left]; [now rewrite decide_False by (now rewrite Exists_nil)|].
  rewrite IH. unfold noted at 1. cbn [fst snd]. destruct (decide (Exists _ l)) as [H|H].
  - rewrite decide_True by (now right). reflexivity.
  - destruct (decide (bad_uid k v)) as [Hb|Hb].
    + rewrite bool_decide_eq_true_2, decide_True by (assumption || now left). reflexivity.
    + rewrite bool_decide_eq_false_2, decide_False by (assumption || (rewrite Exists_cons; tauto)). reflexivity.
Qed.

Definition or_else {A} (o : option (list Z)) (f : list Z -> A) (a : A) : A := match o with Some v => f v | None => a end.

(** The header after the records of [m]. *)
Definition merged (m : Xmap) (h h' : Header) : Prop :=
  Name h' = or_else (present m paxPath) id (Name h) /\
  LinkName h' = or_else (present m paxLinkpath) id (LinkName h) /\
  Uname h' = or_else (present m paxUname) id (Uname h) /\
  Gname h' = or_else (present m paxGname) id (Gname h) /\
  UID h' = or_else (present m paxUid) (fun v => i32 (default 0 (from_chars_i64 10 v))) (UID h) /\
  GID h' = or_else (present m paxGid) (fun v => i32 (default 0 (from_chars_i64 10 v))) (GID h) /\
  Size h' = or_else (present m paxSize) (fun v => default 0 (from_chars_i64 10 v)) (Size h) /\
  AccessTime h' = or_else (present m paxAtime) (fun v => default zero_time (parsePAXTime v)) (AccessTime h) /\
  ModTime h' = or_else (present m paxMtime) (fun v => default zero_time (parsePAXTime v)) (ModTime h) /\
  ChangeTime h' = or_else (present m paxCtime) (fun v => default zero_time (parsePAXTime v)) (ChangeTime h) /\
  (forall n, Xattrs h' !! n = match Xattrs h !! n with Some x => Some x | None => present m (paxSchilyXattr ++ n) end) /\
  PAXRecords h' = m /\ same_rest h h'.

Definition records_ok (m : Xmap) : Prop := map_Forall record_ok m.
Definition uid_ok (m : Xmap) : Prop := map_Forall (fun k v => ~ bad_uid k v) m.

Section Merge.
Context {V : MapOrder} (m : Xmap).

Lemma visit_nodup : NoDup (visit m).*1.
Proof. rewrite visit_perm. apply NoDup_fst_map_to_list. Qed.

Lemma visit_map : list_to_map (visit m) = m.
Proof. rewrite (list_to_map_proper _ (map_to_list m) visit_nodup (visit_perm m)). apply list_to_map_to_list. Qed.

Lemma in_visit k v : (k, v) ∈ visit m <-> m !! k = Some v.
Proof. now rewrite visit_perm, elem_of_map_to_list. Qed.

Lemma visit_ok : all_ok (visit m) <-> records_ok m.
Proof.
  unfold all_ok, records_ok. rewrite Forall_forall. split.
  - intros H k v Hkv. apply (H (k, v)). now apply in_visit.
  - intros H [k v] Hin. apply (H k v). now apply in_visit.
Qed.

Lemma visit_uid : ~ Exists (fun kv => bad_uid kv.1 kv.2) (visit m) <-> uid_ok m.
Proof.
  unfold uid_ok. rewrite Exists_exists. split.
  - intros H k v Hkv Hb. apply H. exists (k, v). split; [now apply in_visit|exact Hb].
  - intros H ([k v] & Hin & Hb). apply (H k v); [now apply in_visit|exact Hb].
Qed.

Lemma merged_visit h : records_ok m -> merged m h (set_PAXRecords m (fold_left applied (visit m) h)).
Proof.
  intros Hok. apply visit_ok in Hok. pose proof visit_nodup as Hnd.
  assert (Hv : forall k, value_in (visit m) k = present m k) by (intros k; unfold value_in; now rewrite visit_map).
  assert (Hf : forall {A} (f : Header -> A) key upd, (forall x, f (set_PAXRecords m x) = f x) ->
    (forall h k v, v <> [] -> record_ok k v -> f (applied h (k, v)) = if bool_decide (k = key) then upd v else f h) ->
    f (set_PAXRecords m (fold_left applied (visit m) h)) = or_else (present m key) upd (f h)).
  { intros A f key upd Hset Hstep. rewrite Hset, (fold_field f key upd _ Hstep Hnd Hok h), Hv. reflexivity. }
  unfold merged. split_and!; try (apply Hf; [reflexivity|]; intros h0 k v Hne Hkv; apply (applied_fields h0 k v Hne Hkv)).
  - intros n. change (Xattrs (set_PAXRecords m (fold_left applied (visit m) h))) with (Xattrs (fold_left applied (visit m) h)).
    now rewrite fold_xattrs, Hv.
  - reflexivity.
  - apply (fold_rest (visit m) Hok h).
Qed.

Lemma mergePAX_spec h ec :
  let '(ok, h', ec') := mergePAX h ec m in
  (records_ok m -> ok = true /\ merged m h h' /\ (uid_ok m -> ec' = ec) /\ (~ uid_ok m -> ec' = Some ErrExtractGeneral)) /\
  (~ records_ok m -> ok = false /\ ec' = Some ErrExtractGeneral).
Proof.
  unfold mergePAX. destruct (decide (all_ok (visit m))) as [Hok|Hno].
  - rewrite merge_loop_ok by assumption. pose proof (proj1 visit_ok Hok) as Hrec. split; [intros _|tauto].
    split_and!; [reflexivity|now apply merged_visit| |]; rewrite fold_noted, <- visit_uid.
    + intros H. now rewrite decide_False.
    + intros H. destruct (decide _) as [|Hn]; [reflexivity|]. now destruct H.
  - destruct (merge_loop_fails _ Hno h ec) as [h' ->]. rewrite <- visit_ok. split; [tauto|auto].
Qed.

End Merge.

(** extended headers.  In whatever order the records are visited, a record
    that is present and not empty replaces the field of its keyword and nothing
    else is changed, extended attributes are collected under their names and the
    records are kept; the merge fails exactly when a group id, size or time is
    not a number, while a malformed user id only leaves an error code behind. *)
Theorem merge_pax_spec {V : MapOrder} m h ec :
  let '(ok, h', ec') := mergePAX h ec m in
  (records_ok m -> ok = true /\ merged m h h' /\ (uid_ok m -> ec' = ec) /\ (~ uid_ok m -> ec' = Some ErrExtractGeneral)) /\
  (~ records_ok m -> ok = false /\ ec' = Some ErrExtractGeneral).
Proof. apply mergePAX_spec. Qed.

(** The fraction of a PAX time is not read: the nanoseconds are those of the
    seconds, whatever digits follow the point. *)
Lemma pax_time_fraction ss sn sec : 46 ∉ ss -> sn <> [] -> from_chars_i64 10 ss = Some sec ->
  parsePAXTime (ss ++ 46 :: sn) = Some (FromUnix sec sec).
Proof.
  intros Hss Hsn Hsec. unfold parsePAXTime. rewrite find_byte_app, take_app_length, Hsec by assumption.
  replace (ss ++ 46 :: sn) with ((ss ++ [46]) ++ sn) by (now rewrite <- app_assoc).
  replace (length ss + 1)%nat with (length (ss ++ [46])) by (rewrite length_app; reflexivity).
  rewrite drop_app_length. destruct sn; [congruence|reflexivity].
Qed.

(** ** Witnesses *)

Definition record_example : bytes := str "30 mtime=1321711775.951540960" ++ [10].
Definition record_example2 : bytes := str "11 path=a/b" ++ [10].

Lemma record_example_ok : is_record record_example (str "mtime", str "1321711775.951540960").
Proof.
  exists (str "30"). split_and!; try (vm_compute; reflexivity). apply find_byte_None. reflexivity.
Qed.


#[local] Instance sorted_order : MapOrder := {| visit := map_to_list; visit_perm m := Permutation_refl _ |}.

Definition header_example : Header := ustar_header ustar_example.
Definition pax_example : Xmap := list_to_map [(paxPath, str "a/b"); (paxSize, str "77"); (str "SCHILY.xattr.user.x", str "1")].

Lemma merge_pax_spec_witness :
  let '(ok, h', _) := mergePAX header_example None pax_example in ok = true /\ Name h' = str "a/b" /\ Size h' = 77.
Proof.
  pose proof (merge_pax_spec pax_example header_example None) as H. destruct (mergePAX _ _ _) as [[ok h'] ec'].
  destruct H as [H _]. destruct H as (-> & Hm & _).
  - unfold records_ok. apply (bool_decide_unpack (map_Forall record_ok pax_example)). vm_compute. exact I.
  - destruct Hm as (-> & _ & _ & _ & _ & _ & -> & _). repeat split.
Defined.
