(* ===== verification/Tar.v ===== *)
(** * The tar reader: [lib/archive/tar/tar.cc]

    [Reader::Next] over an [ExtractReader]: the meta entries that precede a file
    (GNU long names, PAX records), the position in the stream, and [FileReader]. *)

From Stdlib Require Import String.
From stdpp Require Import list gmap.
From S2P Require Import Prelude CxxString TarHeader TarPax.
Import (notations) ListNotations.

Open Scope Z_scope.

(** ** The interface [ExtractReader]

    [Read r len] is [None] where the C++ returns -1, otherwise the bytes that
    were read, none of them at the end of the data; [Discard] is false where it
    fails. *)
Class ExtractReader (R : Type) := {
  Read : R -> nat -> option (list Z) * R;
  Discard : R -> Z -> bool * R;
}.

(** What a client of a reader relies on, as long as no I/O error occurs. *)
Class ExtractReaderLaws (R : Type) {E : ExtractReader R} := {
  contents : R -> list Z;
  readable : R -> Prop;
  read_ok r len : readable r -> exists data r', Read r len = (Some data, r') /\ readable r' /\
    data ++ contents r' = contents r /\ (length data <= len)%nat /\ ((0 < len)%nat -> contents r <> [] -> data <> []);
  discard_ok r n : readable r -> 0 <= n -> exists r', Discard r n = (true, r') /\ readable r' /\
    contents r' = drop (Z.to_nat n) (contents r);
}.

Record Reader (R : Type) := {
  source : R;
  remainingSize : Z;
  paddingSize : Z;
  index : Z;
}.
Arguments source {R} _.
Arguments remainingSize {R} _.
Arguments paddingSize {R} _.
Arguments index {R} _.

(** [nullopt] with the error, or a header with the error code that is left. *)
Inductive next_result :=
  | NextError (e : tar_error)
  | NextHeader (h : Header) (ec : option tar_error).

Definition blockPadding (offset : Z) : Z := Z.land (- offset) (blockSize - 1).

Definition isHeaderOnlyType (flag : Z) : bool :=
  (flag =? TypeLink) || (flag =? TypeSymlink) || (flag =? TypeChar) || (flag =? TypeBlock) || (flag =? TypeDir)
  || (flag =? TypeFifo).

(** The padding, or the error of a negative size. *)
Definition handleRegularFile (h : Header) : option Z :=
  let nb := if isHeaderOnlyType (Typeflag h) then 0 else Size h in
  if nb <? 0 then None else Some (blockPadding nb).

Section Reading.
Context {R : Type} {E : ExtractReader R} {V : MapOrder}.

Definition set_source (st : Reader R) (r : R) : Reader R :=
  {| source := r; remainingSize := remainingSize st; paddingSize := paddingSize st; index := index st |}.
Definition set_padding (st : Reader R) (n : Z) : Reader R :=
  {| source := source st; remainingSize := remainingSize st; paddingSize := n; index := index st |}.

(** The loop reads at least one byte per round: [size] rounds are enough. *)
Fixpoint read_loop (fuel : nat) (r : R) (size : nat) (got : bytes) : (tar_error + list Z) * R :=
  if (size =? 0)%nat then (inr got, r)
  else
    match fuel with
    | O => (inl ErrEnded, r)
    | Datatypes.S fuel =>
        match Read r size with
        | (None, r) => (inl ErrSystem, r)
        | (Some [], r) => (inl ErrEnded, r)
        | (Some data, r) => read_loop fuel r (size - length data) (got ++ data)
        end
    end.

Definition ReadFull (st : Reader R) (size : Z) : (tar_error + list Z) * Reader R :=
  let '(res, r) := read_loop (Z.to_nat size) (source st) (Z.to_nat size) [] in (res, set_source st r).

Definition discard (st : Reader R) (n : Z) : bool * Reader R :=
  let '(ok, r) := Discard (source st) n in (ok, set_source st r).

Definition readHeader (st : Reader R) : (tar_error + Header) * Reader R :=
  match ReadFull st blockSize with
  | (inl e, st) => (inl e, st)
  | (inr hdr, st) =>
      if isZeroBlock hdr then
        match ReadFull st blockSize with
        | (inl e, st) => (inl e, st)
        | (inr hdr, st) => (inl (if isZeroBlock hdr then ErrEnded else ErrNotTarFile), st)
        end
      else
        match header_of_block hdr with
        | None => (inl ErrNotTarFile, st)
        | Some h => (inr h, st)
        end
  end.

(** What the meta entries read so far say about the next entry. *)
Record pending := { paxHdrs : Xmap; gnuLongName : list Z; gnuLongLink : list Z }.
Definition no_pending : pending := {| paxHdrs := ∅; gnuLongName := []; gnuLongLink := [] |}.

Inductive step_result :=
  | Done (res : next_result)
  | More (p : pending).

(** The header that is returned for a global extended header. *)
Definition global_header (h : Header) : Header := {|
  Name := Name h; LinkName := []; Uname := []; Gname := []; Size := 0; SparseSize := 0; Mode := 0;
  ModTime := zero_time; AccessTime := zero_time; ChangeTime := zero_time; Devmajor := 0; Devminor := 0;
  Xattrs := Xattrs h; PAXRecords := PAXRecords h; UID := 0; GID := 0; Format := Format h; Typeflag := Typeflag h |}.

(** An [x] or [g] entry. *)
Definition pax_entry (st : Reader R) (h : Header) (p : pending) (ec : option tar_error) : step_result * Reader R :=
  let h := set_Format (Z.land (Format h) FormatPAX) h in
  match ReadFull st (Size h) with
  | (inl e, st) => (Done (NextError e), st)
  | (inr data, st) =>
      match parsePAX data (paxHdrs p) with
      | inl e => (Done (NextError e), st)
      | inr m =>
          if Typeflag h =? TypeXGlobalHeader then
            let '(_, h, ec) := mergePAX h ec m in (Done (NextHeader (global_header h) ec), st)
          else (More {| paxHdrs := m; gnuLongName := gnuLongName p; gnuLongLink := gnuLongLink p |}, st)
      end
  end.

(** An [L] or [K] entry. *)
Definition gnu_entry (st : Reader R) (h : Header) (p : pending) : step_result * Reader R :=
  match ReadFull st (Size h) with
  | (inl e, st) => (Done (NextError e), st)
  | (inr data, st) =>
      if Typeflag h =? TypeGNULongName
      then (More {| paxHdrs := paxHdrs p; gnuLongName := parseString data; gnuLongLink := gnuLongLink p |}, st)
      else (More {| paxHdrs := paxHdrs p; gnuLongName := gnuLongName p; gnuLongLink := parseString data |}, st)
  end.

(** The fields that [Next] changes after the merge. *)
Definition finish_header (h : Header) (p : pending) : Header :=
  let h := match gnuLongName p with [] => h | n => set_Name n h end in
  let h := match gnuLongLink p with [] => h | n => set_LinkName n h end in
  if Typeflag h =? TypeRegA
  then set_Typeflag (if ends_with [47] (Name h) then TypeDir else TypeReg) h else h.

Definition file_entry (st : Reader R) (h : Header) (p : pending) (ec : option tar_error) : step_result * Reader R :=
  match mergePAX h ec (paxHdrs p) with
  | (false, _, ec) => (Done (NextError (default ErrSystem ec)), st)
  | (true, h, ec) =>
      let h := finish_header h p in
      match handleRegularFile h with
      | None => (Done (NextError ErrNotTarFile), st)
      | Some padding =>
          let h := if negb (Z.land (Format h) (Z.lor FormatUSTAR FormatPAX) =? 0) then set_Format FormatUSTAR h else h in
          (Done (NextHeader h ec),
           {| source := source st; remainingSize := Size h; paddingSize := padding; index := index st + 1 |})
      end
  end.

(** One round of the loop of [Next]. *)
Definition next_step (st : Reader R) (p : pending) (ec : option tar_error) : step_result * Reader R :=
  let fail e st := (Done (NextError e), st) in
  match discard st (remainingSize st) with
  | (false, st) => fail ErrSystem st
  | (true, st) =>
      match discard st (paddingSize st) with
      | (false, st) => fail ErrSystem st
      | (true, st) =>
          match readHeader st with
          | (inl e, st) => fail e st
          | (inr h, st) =>
              match handleRegularFile h with
              | None => fail ErrNotTarFile st
              | Some padding =>
                  let st := set_padding st padding in
                  if (Typeflag h =? TypeXHeader) || (Typeflag h =? TypeXGlobalHeader) then pax_entry st h p ec
                  else if (Typeflag h =? TypeGNULongName) || (Typeflag h =? TypeGNULongLink) then gnu_entry st h p
                  else file_entry st h p ec
              end
          end
      end
  end.

Fixpoint next_loop (fuel : nat) (st : Reader R) (p : pending) (ec : option tar_error)
    : option (next_result * Reader R) :=
  match fuel with
  | O => None
  | Datatypes.S fuel =>
      match next_step st p ec with
      | (Done res, st) => Some (res, st)
      | (More p, st) => next_loop fuel st p ec
      end
  end.

(** [Reader::Next]; [None] if the loop did not end within [fuel] rounds. *)
Definition Next (fuel : nat) (st : Reader R) (ec : option tar_error) : option (next_result * Reader R) :=
  next_loop fuel st no_pending ec.

(** [Reader::Read] *)
Definition Reader_Read (st : Reader R) (size : nat) : option (list Z) * Reader R :=
  match Read (source st) size with
  | (None, r) => (None, set_source st r)
  | (Some data, r) =>
      let n := zlen data in
      (Some data, {| source := r;
                     remainingSize := if (n >? 0) && (remainingSize st >? 0) then remainingSize st - n else remainingSize st;
                     paddingSize := paddingSize st; index := index st |})
  end.

End Reading.

Definition NewReader {R} (r : R) : Reader R := {| source := r; remainingSize := 0; paddingSize := 0; index := 0 |}.

(** ** [FileReader]

    The handle of the operating system: [ReadFile] on a file on disk reads up to
    the end of the file; the file pointer may be set past the end but not before
    the start. *)

Record OsFile := { file_data : list Z; file_pointer : Z }.

Definition ReadFile (f : OsFile) (len : nat) : list Z * OsFile :=
  let data := take len (from (file_pointer f) (file_data f)) in
  (data, {| file_data := file_data f; file_pointer := file_pointer f + zlen data |}).

Definition SetFilePointerEx (f : OsFile) (distance : Z) : option OsFile :=
  let p := file_pointer f + distance in
  if p <? 0 then None else Some {| file_data := file_data f; file_pointer := p |}.

Record FileReader := { fd : OsFile; position : Z }.

Definition FileReader_Read (r : FileReader) (len : nat) : option (list Z) * FileReader :=
  let '(data, f) := ReadFile (fd r) len in (Some data, {| fd := f; position := position r + zlen data |}).

Definition FileReader_Discard (r : FileReader) (len : Z) : bool * FileReader :=
  match SetFilePointerEx (fd r) len with
  | None => (false, r)
  | Some f => (true, {| fd := f; position := position r + len |})
  end.

#[export] Instance file_reader : ExtractReader FileReader :=
  {| Read := FileReader_Read; Discard := FileReader_Discard |}.

(** [FileReader::WriteTo] into a writer that takes everything: the bytes it got
    and [filesize] at the end; [None] if the loop is not over after [fuel]
    rounds. *)
Fixpoint WriteTo_loop (fuel : nat) (r : FileReader) (filesize : Z) (written : bytes) : option (list Z * FileReader) :=
  if negb (filesize >? 0) then Some (written, r)
  else
    match fuel with
    | O => None
    | Datatypes.S fuel =>
        let minsize := Z.min 8192 filesize in
        let '(data, f) := ReadFile (fd r) (Z.to_nat minsize) in
        WriteTo_loop fuel {| fd := f; position := position r + zlen data |} (filesize - zlen data) (written ++ data)
    end.

Definition open_file (data : bytes) : FileReader := {| fd := {| file_data := data; file_pointer := 0 |}; position := 0 |}.

(** [Reader::WriteTo] *)
Definition Reader_WriteTo (fuel : nat) (st : Reader FileReader) (filesize : Z) : option (list Z * Reader FileReader) :=
  match WriteTo_loop fuel (source st) filesize [] with
  | None => None
  | Some (written, r) =>
      Some (written, {| source := r;
                        remainingSize := if remainingSize st >? 0 then remainingSize st - zlen written else remainingSize st;
                        paddingSize := paddingSize st; index := index st |})
  end.

(** ** [Extractor::Extract] of [extractor.hpp]

    [create] stands for the file system: the error of checking the name, asking
    the filter and making the directory, link or file of a header, if there is
    one.  The result is the error code at the end and what was written. *)

Section Extract.
Context {V : MapOrder} (create : Header -> option tar_error) (ignore_error : bool).

Inductive extracted :=
  | Extracted (data : list Z)
  | ExtractFailed (e : tar_error).

Definition extract_entry (fuel : nat) (st : Reader FileReader) (h : Header) : option (extracted * Reader FileReader) :=
  match create h with
  | Some e => Some (ExtractFailed e, st)
  | None =>
      if IsDir h || IsSymlink h || negb (IsRegular h) then Some (Extracted [], st)
      else option_map (fun '(data, st) => (Extracted data, st)) (Reader_WriteTo fuel st (Size h))
  end.

Definition extract_result (index : Z) (ec : option tar_error) : option tar_error :=
  match ec with
  | Some ErrNotTarFile => Some (if index =? 0 then ErrAnotherWay else ErrNotTarFile)
  | Some ErrEnded => None
  | ec => ec
  end.

Fixpoint Extract (fuel : nat) (st : Reader FileReader) (ec : option tar_error) (done : list (Header * list Z))
    : option (option tar_error * list (Header * list Z)) :=
  match fuel with
  | O => None
  | Datatypes.S fuel =>
      match Next fuel st ec with
      | None => None
      | Some (NextError e, st) => Some (extract_result (index st) (Some e), done)
      | Some (NextHeader h ec, st) =>
          match extract_entry fuel st h with
          | None => None
          | Some (Extracted data, st) =>
              (* [WriteTo] clears the error code *)
              let ec := if IsRegular h then None else ec in
              Extract fuel st ec (done ++ [(h, data)])
          | Some (ExtractFailed e, st) =>
              if bool_decide (e = ErrCanceled) then Some (Some ErrCanceled, done)
              else if bool_decide (e = ErrNotTarFile) || bool_decide (e = ErrExtractGeneral) || negb ignore_error
              then Some (extract_result (index st) (Some e), done)
              else Extract fuel st (Some e) done
          end
      end
  end.

End Extract.

#[local] Instance map_order : MapOrder := {| visit := map_to_list; visit_perm m := Permutation_refl _ |}.

Example next_ex :
  option_map fst (Next 1 (NewReader (open_file (ustar_block ustar_example ++ repeat 7 512 ++ repeat 0 1024))) None) =
  Some (NextHeader (set_Format FormatUSTAR (ustar_header ustar_example)) None).
Proof. vm_compute. reflexivity. Qed.

(** ** Reading from a lawful reader *)

#[export] Instance file_reader_laws : ExtractReaderLaws FileReader.
Proof.
  unshelve econstructor.
  - exact (fun r => from (file_pointer (fd r)) (file_data (fd r))).
  - exact (fun r => 0 <= file_pointer (fd r)).
  - intros r len Hr. cbn beta in *. eexists _, _. split; [reflexivity|]. cbn [fd file_pointer file_data].
    set (c := from (file_pointer (fd r)) (file_data (fd r))).
    assert (from (file_pointer (fd r) + zlen (take len c)) (file_data (fd r)) = drop (length (take len c)) c) as ->.
    { unfold c, from. rewrite drop_drop. f_equal. lia. }
    split_and!; try lia.
    + rewrite length_take. destruct (decide (len <= length c)%nat).
      * rewrite Nat.min_l by lia. apply take_drop.
      * rewrite Nat.min_r, (take_ge c len), drop_all by lia. apply app_nil_r.
    + rewrite length_take. lia.
    + intros Hl Hc Hn. destruct c, len; [congruence..|lia|discriminate].
  - intros r n Hr Hn. cbn beta in *. unfold Discard, file_reader, FileReader_Discard, SetFilePointerEx.
    bfalse (file_pointer (fd r) + n <? 0). eexists. split; [reflexivity|]. cbn [fd file_pointer file_data]. split; [lia|].
    unfold from. rewrite drop_drop. f_equal. lia.
Defined.

Section Laws.
Context {R : Type} {E : ExtractReader R} {L : ExtractReaderLaws R} {V : MapOrder}.

Lemma read_loop_spec fuel : forall r size got, readable r -> (size <= fuel)%nat ->
  exists r', readable r' /\
  ((size <= length (contents r))%nat ->
     read_loop fuel r size got = (inr (got ++ take size (contents r)), r') /\ contents r' = drop size (contents r)) /\
  ((length (contents r) < size)%nat -> read_loop fuel r size got = (inl ErrEnded, r')).
Proof.
  induction fuel as [|fuel IH]; intros r size got Hr Hs; cbn [read_loop]; destruct (Nat.eqb_spec size 0) as [->|Hne].
  1, 3: exists r; rewrite take_0, drop_0, app_nil_r; split_and!; auto; lia.
  - lia.
  - destruct (read_ok r size Hr) as (data & r1 & -> & Hr1 & Hc & Hl & Hpos). destruct data as [|b data].
    + assert (contents r = []) as Hnil by (destruct (decide (contents r = [])); [assumption|exfalso; apply Hpos; [lia|assumption|reflexivity]]).
      exists r1. split_and!; [assumption| |reflexivity]. rewrite Hnil. cbn. lia.
    + set (d := b :: data) in *. assert (1 <= length d)%nat by (cbn; lia).
      destruct (IH r1 (size - length d)%nat (got ++ d) Hr1 ltac:(lia)) as (r' & I1 & I2 & I3). exists r'.
      rewrite <- Hc, length_app. split_and!; [assumption| |].
      * intros Hle. destruct I2 as [-> ->]; [lia|]. rewrite firstn_app, skipn_app, (take_ge d), (drop_ge d), <- app_assoc by lia. auto.
      * intros Hlt. apply I3. lia.
Qed.

(** What a successful [ReadFull] returns, and its only failure. *)
Lemma ReadFull_spec (st : Reader R) size : readable (source st) ->
  exists r', readable r' /\
  ((exists a, ReadFull st size = (inr a, set_source st r') /\ a ++ contents r' = contents (source st) /\ length a = Z.to_nat size)
   \/ (ReadFull st size = (inl ErrEnded, set_source st r') /\ zlen (contents (source st)) < size)).
Proof.
  intros Hr. unfold ReadFull.
  destruct (read_loop_spec (Z.to_nat size) (source st) (Z.to_nat size) [] Hr ltac:(lia)) as (r' & I1 & I2 & I3).
  exists r'. split; [assumption|]. destruct (le_lt_dec (Z.to_nat size) (length (contents (source st)))) as [Hle|Hlt].
  - left. destruct (I2 Hle) as [-> ->]. cbn [app]. eexists. split; [reflexivity|]. rewrite take_drop, length_take. split; [reflexivity|lia].
  - right. rewrite (I3 Hlt). split; [reflexivity|lia].
Qed.

Lemma ReadFull_ok (st : Reader R) size a b : readable (source st) -> contents (source st) = a ++ b -> zlen a = size ->
  exists r', ReadFull st size = (inr a, set_source st r') /\ readable r' /\ contents r' = b.
Proof.
  intros Hr Hc Hl. destruct (ReadFull_spec st size Hr) as (r' & Hr' & [(a' & E1 & E2 & E3)|[_ Hlt]]).
  - exists r'. rewrite E1. rewrite Hc in E2. apply app_inj_1 in E2 as [-> <-]; [auto|lia].
  - rewrite Hc, length_app in Hlt. lia.
Qed.

Lemma discard_prefix (st : Reader R) n a b : readable (source st) -> contents (source st) = a ++ b -> zlen a = n ->
  exists r', discard st n = (true, set_source st r') /\ readable r' /\ contents r' = b.
Proof.
  intros Hr Hc Hl. unfold discard. destruct (discard_ok (source st) n Hr ltac:(lia)) as (r' & -> & Hr' & Hc').
  exists r'. split_and!; auto. rewrite Hc', Hc, <- Hl, Nat2Z.id. apply drop_app_length.
Qed.

(** ** Texts of entries *)

Definition block_ok (b : bytes) (h : Header) : Prop :=
  length b = 512%nat /\ isZeroBlock b = false /\ header_of_block b = Some h.

(** A meta entry and what it adds. *)
Definition meta_entry (h : Header) (body : bytes) (p p' : pending) : Prop :=
  (Typeflag h = TypeXHeader /\ exists m, parsePAX body (paxHdrs p) = inr m /\
     p' = {| paxHdrs := m; gnuLongName := gnuLongName p; gnuLongLink := gnuLongLink p |}) \/
  (Typeflag h = TypeGNULongName /\
     p' = {| paxHdrs := paxHdrs p; gnuLongName := parseString body; gnuLongLink := gnuLongLink p |}) \/
  (Typeflag h = TypeGNULongLink /\
     p' = {| paxHdrs := paxHdrs p; gnuLongName := gnuLongName p; gnuLongLink := parseString body |}).

Inductive metas : list Z -> pending -> pending -> Prop :=
  | metas_nil p : metas [] p p
  | metas_cons block h body gap text p p1 p2 :
      block_ok block h -> meta_entry h body p p1 -> Size h = zlen body -> zlen gap = blockPadding (Size h) ->
      metas text p1 p2 -> metas (block ++ body ++ gap ++ text) p p2.

Definition ordinary (flag : Z) : Prop :=
  flag <> TypeXHeader /\ flag <> TypeXGlobalHeader /\ flag <> TypeGNULongName /\ flag <> TypeGNULongLink.

Definition final_format (h : Header) : Header :=
  if negb (Z.land (Format h) (Z.lor FormatUSTAR FormatPAX) =? 0) then set_Format FormatUSTAR h else h.

(** [block] is the header of the entry [h], given what the meta entries said. *)
Definition file_block (block : bytes) (p : pending) (h : Header) (ec : option tar_error) : Prop :=
  exists h0 h1, block_ok block h0 /\ ordinary (Typeflag h0) /\ is_Some (handleRegularFile h0) /\
    mergePAX h0 None (paxHdrs p) = (true, h1, ec) /\ h = final_format (finish_header h1 p).

Lemma blockPadding_mod n : blockPadding n = (- n) mod 512.
Proof. unfold blockPadding, blockSize. change (512 - 1) with (2 ^ 9 - 1). now rewrite land_low. Qed.

(** The padding fills up the last block. *)
Lemma blockPadding_spec n : 0 <= blockPadding n < 512 /\ (n + blockPadding n) mod 512 = 0.
Proof. rewrite blockPadding_mod. split; [apply Z.mod_pos_bound; lia|dlia]. Qed.

Lemma handle_nonneg h pd : handleRegularFile h = Some pd -> 0 <= pd.
Proof.
  unfold handleRegularFile. destruct (_ <? 0); [discriminate|]. intros [= <-]. apply blockPadding_spec.
Qed.

Lemma readHeader_ok (st : Reader R) block h b : readable (source st) -> contents (source st) = block ++ b -> block_ok block h ->
  exists r', readHeader st = (inr h, set_source st r') /\ readable r' /\ contents r' = b.
Proof.
  intros Hr Hc (Hl & Hz & Hh). destruct (ReadFull_ok st blockSize block b Hr Hc) as (r' & E1 & E2 & E3); [unfold blockSize; lia|].
  exists r'. unfold readHeader. rewrite E1, Hz, Hh. auto.
Qed.

Definition dispatch (st : Reader R) (h : Header) (p : pending) (ec : option tar_error) : step_result * Reader R :=
  if (Typeflag h =? TypeXHeader) || (Typeflag h =? TypeXGlobalHeader) then pax_entry st h p ec
  else if (Typeflag h =? TypeGNULongName) || (Typeflag h =? TypeGNULongLink) then gnu_entry st h p
  else file_entry st h p ec.

Lemma next_step_header (st : Reader R) unread gap block rest p ec h pd :
  readable (source st) -> contents (source st) = unread ++ gap ++ block ++ rest ->
  zlen unread = remainingSize st -> zlen gap = paddingSize st -> block_ok block h -> handleRegularFile h = Some pd ->
  exists r', readable r' /\ contents r' = rest /\
    next_step st p ec = dispatch (set_padding (set_source st r') pd) h p ec.
Proof.
  intros Hr Hc Hu Hg Hb Hp. unfold next_step.
  destruct (discard_prefix st _ unread _ Hr Hc Hu) as (r1 & -> & Hr1 & Hc1).
  destruct (discard_prefix (set_source st r1) (paddingSize st) gap _ Hr1 Hc1 Hg) as (r2 & E2 & Hr2 & Hc2).
  change (paddingSize (set_source st r1)) with (paddingSize st). rewrite E2.
  destruct (readHeader_ok (set_source (set_source st r1) r2) block h rest Hr2 Hc2 Hb) as (r3 & -> & Hr3 & Hc3).
  rewrite Hp. exists r3. auto.
Qed.

Lemma meta_padding h body p p1 : meta_entry h body p p1 -> Size h = zlen body ->
  handleRegularFile h = Some (blockPadding (Size h)) /\ Typeflag h <> TypeXGlobalHeader.
Proof.
  intros Hm Hs. assert (isHeaderOnlyType (Typeflag h) = false /\ Typeflag h <> TypeXGlobalHeader) as [Ht Hg].
  { destruct Hm as [[-> _]|[[-> _]|[-> _]]]; split; (reflexivity || (intros H; discriminate H)). }
  split; [|assumption]. unfold handleRegularFile. rewrite Ht. bfalse (Size h <? 0). reflexivity.
Qed.

(** A meta entry is one round of the loop. *)
Lemma next_step_meta (st : Reader R) unread gap block h body gap' rest p p1 ec :
  readable (source st) -> contents (source st) = unread ++ gap ++ block ++ body ++ gap' ++ rest ->
  zlen unread = remainingSize st -> zlen gap = paddingSize st ->
  block_ok block h -> meta_entry h body p p1 -> Size h = zlen body ->
  exists r', readable r' /\ contents r' = gap' ++ rest /\
    next_step st p ec = (More p1, set_padding (set_source st r') (blockPadding (Size h))).
Proof.
  intros Hr Hc Hu Hg Hb Hm Hs. destruct (meta_padding _ _ _ _ Hm Hs) as [Hp Hng].
  destruct (next_step_header st unread gap block _ p ec h _ Hr Hc Hu Hg Hb Hp) as (r1 & Hr1 & Hc1 & ->).
  set (st1 := set_padding (set_source st r1) _). unfold dispatch.
  destruct Hm as [(Ht & m & Em & ->)|[(Ht & ->)|(Ht & ->)]]; rewrite Ht; cbn [orb Z.eqb TypeXHeader TypeXGlobalHeader TypeGNULongName TypeGNULongLink Pos.eqb].
  - unfold pax_entry. cbn [Size set_Format]. destruct (ReadFull_ok st1 (Size h) body _ Hr1 Hc1 (eq_sym Hs)) as (r2 & -> & Hr2 & Hc2).
    rewrite Em. cbn [Typeflag set_Format]. rewrite Ht. cbn. exists r2. auto.
  - unfold gnu_entry. destruct (ReadFull_ok st1 (Size h) body _ Hr1 Hc1 (eq_sym Hs)) as (r2 & -> & Hr2 & Hc2).
    rewrite Ht. cbn. exists r2. auto.
  - unfold gnu_entry. destruct (ReadFull_ok st1 (Size h) body _ Hr1 Hc1 (eq_sym Hs)) as (r2 & -> & Hr2 & Hc2).
    rewrite Ht. cbn. exists r2. auto.
Qed.

(** The entry itself ends the loop. *)
Lemma next_step_file (st : Reader R) unread gap block rest p h ec pd :
  readable (source st) -> contents (source st) = unread ++ gap ++ block ++ rest ->
  zlen unread = remainingSize st -> zlen gap = paddingSize st ->
  file_block block p h ec -> handleRegularFile h = Some pd ->
  exists r', readable r' /\ contents r' = rest /\
    next_step st p None = (Done (NextHeader h ec),
      {| source := r'; remainingSize := Size h; paddingSize := pd; index := index st + 1 |}).
Proof.
  intros Hr Hc Hu Hg (h0 & h1 & Hb & (Ho1 & Ho2 & Ho3 & Ho4) & [pd0 Hp0] & Hm & ->) Hp.
  destruct (next_step_header st unread gap block _ p None h0 pd0 Hr Hc Hu Hg Hb Hp0) as (r1 & Hr1 & Hc1 & ->).
  exists r1. split_and!; try assumption. unfold dispatch, file_entry.
  rewrite !(proj2 (Z.eqb_neq _ _)) by assumption. cbn [orb]. rewrite Hm.
  assert (handleRegularFile (finish_header h1 p) = Some pd) as ->.
  { unfold final_format in Hp. case_if_in Hp; exact Hp. }
  unfold final_format. case_if; reflexivity.
Qed.

Lemma next_loop_entry e p0 p : metas e p0 p -> forall (st : Reader R) unread gap block rest h ec pd fuel,
  readable (source st) -> contents (source st) = unread ++ gap ++ e ++ block ++ rest ->
  zlen unread = remainingSize st -> zlen gap = paddingSize st -> e = [] \/ unread = [] ->
  file_block block p h ec -> handleRegularFile h = Some pd -> (length e < 512 * fuel)%nat ->
  exists r', readable r' /\ contents r' = rest /\
    next_loop fuel st p0 None = Some (NextHeader h ec,
      {| source := r'; remainingSize := Size h; paddingSize := pd; index := index st + 1 |}).
Proof.
  induction 1 as [p|mblock mh body mgap text p p1 p2 Hb Hm Hs Hg' _ IH];
    intros st unread gap block rest h ec pd fuel Hr Hc Hu Hg Hor Hf Hp Hfuel; (destruct fuel as [|fuel]; [lia|]); cbn [next_loop].
  - destruct (next_step_file st unread gap block rest p h ec pd Hr Hc Hu Hg Hf Hp) as (r' & Hr' & Hc' & ->). eauto.
  - destruct Hor as [Hnil| ->]; [apply app_eq_nil in Hnil as [-> _]; destruct Hb as [Hb _]; discriminate|].
    rewrite <- !app_assoc in Hc.
    destruct (next_step_meta st [] gap mblock mh body mgap (text ++ block ++ rest) p p1 None Hr Hc Hu Hg Hb Hm Hs) as (r1 & Hr1 & Hc1 & ->).
    destruct Hb as [Hlen _]. rewrite !length_app in Hfuel.
    apply (IH (set_padding (set_source st r1) (blockPadding (Size mh))) [] mgap block rest h ec pd fuel); auto; lia.
Qed.

(** ** Termination of [Next] *)

Lemma readHeader_shrinks (st : Reader R) h st' : readable (source st) -> readHeader st = (inr h, st') ->
  readable (source st') /\ remainingSize st' = remainingSize st /\ paddingSize st' = paddingSize st /\
  (length (contents (source st')) + 512 = length (contents (source st)))%nat.
Proof.
  intros Hr. unfold readHeader.
  destruct (ReadFull_spec st blockSize Hr) as (r1 & Hr1 & [(a & -> & Hc & Hl)|[-> _]]); [|discriminate].
  destruct (isZeroBlock a).
  - destruct (ReadFull _ _) as [[e|b] st2]; discriminate.
  - destruct (header_of_block a); [|discriminate]. intros [= _ <-]. cbn [source remainingSize paddingSize set_source].
    split_and!; auto. rewrite <- Hc, length_app, Hl. unfold blockSize. lia.
Qed.

Lemma discard_shrinks (st : Reader R) n st' : readable (source st) -> 0 <= n -> discard st n = (true, st') ->
  readable (source st') /\ remainingSize st' = remainingSize st /\ paddingSize st' = paddingSize st /\
  (length (contents (source st')) <= length (contents (source st)))%nat.
Proof.
  intros Hr Hn. unfold discard. destruct (discard_ok (source st) n Hr Hn) as (r' & -> & Hr' & Hc').
  intros [= <-]. cbn [source remainingSize paddingSize set_source]. split_and!; auto. rewrite Hc', length_drop. lia.
Qed.

Lemma entry_shrinks (st : Reader R) h p ec p' st' : readable (source st) ->
  dispatch st h p ec = (More p', st') ->
  readable (source st') /\ remainingSize st' = remainingSize st /\ paddingSize st' = paddingSize st /\
  (length (contents (source st')) <= length (contents (source st)))%nat.
Proof.
  intros Hr. unfold dispatch, pax_entry, gnu_entry, file_entry. cbn [Size set_Format].
  destruct (ReadFull_spec st (Size h) Hr) as (r1 & Hr1 & [(a & -> & Hc & Hl)|[-> _]]).
  - assert (length (contents r1) <= length (contents (source st)))%nat by (rewrite <- Hc, length_app; lia).
    destruct (_ || _)%bool.
    + destruct (parsePAX a _); [discriminate|]. destruct (Typeflag _ =? _); [destruct (mergePAX _ _ _) as [[??]?]; discriminate|].
      intros [= _ <-]. auto.
    + destruct (_ || _)%bool; [destruct (Typeflag h =? _); intros [= _ <-]; auto|].
      destruct (mergePAX _ _ _) as [[[|]?]?]; [destruct (handleRegularFile _)|]; discriminate.
  - destruct (_ || _)%bool; [discriminate|]. destruct (_ || _)%bool; [discriminate|].
    destruct (mergePAX _ _ _) as [[[|]?]?]; [destruct (handleRegularFile _)|]; discriminate.
Qed.

(** A round that does not end the loop reads a header. *)
Lemma next_step_shrinks (st : Reader R) p ec p' st' :
  readable (source st) -> 0 <= remainingSize st -> 0 <= paddingSize st -> next_step st p ec = (More p', st') ->
  readable (source st') /\ remainingSize st' = remainingSize st /\ 0 <= paddingSize st' /\
  (length (contents (source st')) + 512 <= length (contents (source st)))%nat.
Proof.
  intros Hr Hrem Hpad. unfold next_step.
  destruct (discard st (remainingSize st)) as [[|] st1] eqn:E1; [|discriminate].
  destruct (discard_shrinks _ _ _ Hr Hrem E1) as (Hr1 & Hm1 & Hp1 & Hl1). rewrite Hp1.
  destruct (discard st1 (paddingSize st)) as [[|] st2] eqn:E2; [|discriminate].
  destruct (discard_shrinks _ _ _ Hr1 Hpad E2) as (Hr2 & Hm2 & Hp2 & Hl2).
  destruct (readHeader st2) as [[e|h] st3] eqn:E3; [discriminate|].
  destruct (readHeader_shrinks _ _ _ Hr2 E3) as (Hr3 & Hm3 & Hp3 & Hl3).
  destruct (handleRegularFile h) as [pd|] eqn:Eh; [|discriminate]. intros E4.
  apply (entry_shrinks (set_padding st3 pd)) in E4 as (Hr4 & Hm4 & Hp4 & Hl4); [|assumption].
  cbn [source remainingSize paddingSize set_padding] in *. apply handle_nonneg in Eh. split_and!; auto; lia.
Qed.

Lemma next_loop_ends fuel : forall (st : Reader R) p ec,
  readable (source st) -> 0 <= remainingSize st -> 0 <= paddingSize st ->
  (length (contents (source st)) < 512 * fuel)%nat -> is_Some (next_loop fuel st p ec).
Proof.
  induction fuel as [|fuel IH]; intros st p ec Hr Hrem Hpad Hl; [lia|]. cbn [next_loop].
  destruct (next_step st p ec) as [[res|p'] st'] eqn:Es; [eauto|].
  destruct (next_step_shrinks _ _ _ _ _ Hr Hrem Hpad Es) as (Hr' & Hm & Hp & Hl'). apply IH; auto; lia.
Qed.

(** C35: [Next] terminates.  On data of [n] bytes the loop over the meta entries
    ends within [n / 512 + 1] rounds, whatever the data are, provided the reader
    is not asked to go back; every round that does not end it consumes a header. *)
Theorem next_terminates (st : Reader R) ec :
  readable (source st) -> 0 <= remainingSize st -> 0 <= paddingSize st ->
  is_Some (Next (length (contents (source st)) / 512 + 1) st ec).
Proof.
  intros Hr Hrem Hpad. apply next_loop_ends; auto.
  pose proof (Nat.div_mod_eq (length (contents (source st))) 512). pose proof (Nat.mod_upper_bound (length (contents (source st))) 512).
  lia.
Qed.

(** [Next] reads the next entry.  From where the last entry was left (with
    part of its data unread, or with all of it read), [Next] skips the padding,
    takes in the long names and PAX records that precede the entry, returns its
    header and stops at its data. *)
Theorem next_reads_entry (st : Reader R) unread gap e p block rest h ec pd fuel :
  readable (source st) -> contents (source st) = unread ++ gap ++ e ++ block ++ rest ->
  zlen unread = remainingSize st -> zlen gap = paddingSize st -> e = [] \/ unread = [] ->
  metas e no_pending p -> file_block block p h ec -> handleRegularFile h = Some pd -> (length e < 512 * fuel)%nat ->
  exists r', readable r' /\ contents r' = rest /\
    Next fuel st None = Some (NextHeader h ec,
      {| source := r'; remainingSize := Size h; paddingSize := pd; index := index st + 1 |}).
Proof. intros. eapply next_loop_entry; eassumption. Qed.

End Laws.

(** ** Extraction *)

(** [archive text es]: [text] is an archive with the entries [es], each with its
    data; it ends with two zero blocks. *)
Inductive archive {V : MapOrder} : list Z -> list (Header * list Z) -> Prop :=
  | archive_end text : archive (repeat 0 512 ++ repeat 0 512 ++ text) []
  | archive_entry e p block h body gap text es :
      metas e no_pending p -> file_block block p h None -> handleRegularFile h = Some (zlen gap) ->
      Size h = zlen body -> (IsRegular h = false -> body = []) -> archive text es ->
      archive (e ++ block ++ body ++ gap ++ text) ((h, body) :: es).

Lemma ReadFile_spec f len data rest : 0 <= file_pointer f -> from (file_pointer f) (file_data f) = data ++ rest ->
  (length data = len) ->
  ReadFile f len = (data, {| file_data := file_data f; file_pointer := file_pointer f + zlen data |}) /\
  from (file_pointer f + zlen data) (file_data f) = rest.
Proof.
  intros Hp Hc <-. unfold ReadFile. rewrite Hc, take_app_length. split; [reflexivity|].
  unfold from in *. rewrite Z2Nat.inj_add, Nat2Z.id, <- drop_drop, Hc by lia. apply drop_app_length.
Qed.

Lemma WriteTo_loop_ok fuel : forall r body rest w, readable r -> contents r = body ++ rest -> (length body < fuel)%nat ->
  exists r', WriteTo_loop fuel r (zlen body) w = Some (w ++ body, r') /\ readable r' /\ contents r' = rest.
Proof.
  induction fuel as [|fuel IH]; intros r body rest w Hr Hc Hl; [lia|]. cbn [WriteTo_loop].
  destruct body as [|b body]; [exists r; rewrite app_nil_r; auto|]. set (d := b :: body) in *.
  assert (1 <= length d)%nat by (cbn; lia). rewrite Z.gtb_ltb, (proj2 (Z.ltb_lt 0 _)) by lia. cbn [negb].
  set (n := Z.to_nat (Z.min 8192 (zlen d))). assert (1 <= n <= length d)%nat by lia.
  destruct (ReadFile_spec (fd r) n (take n d) (drop n d ++ rest) Hr) as [-> Hrest].
  { cbn in Hc. now rewrite app_assoc, take_drop. }
  { rewrite length_take. lia. }
  rewrite length_take, Nat.min_l in * by lia.
  destruct (IH {| fd := {| file_data := file_data (fd r); file_pointer := file_pointer (fd r) + Z.of_nat n |};
                  position := position r + Z.of_nat n |} (drop n d) rest (w ++ take n d)) as (r' & E & Hr' & Hc').
  - cbn in *. lia.
  - exact Hrest.
  - rewrite length_drop. lia.
  - exists r'. rewrite length_drop, Nat2Z.inj_sub in E by lia. rewrite E, <- app_assoc, take_drop. auto.
Qed.

(** The loop is not over while data is missing: on a file that was cut off it
    never ends, since a read at the end of the file is no error. *)
Lemma WriteTo_truncated_diverges fuel : forall r filesize w, readable r -> zlen (contents r) < filesize ->
  WriteTo_loop fuel r filesize w = None.
Proof.
  induction fuel as [|fuel IH]; intros r filesize w Hr Hl; cbn [WriteTo_loop];
    rewrite Z.gtb_ltb, (proj2 (Z.ltb_lt 0 _)) by lia; cbn [negb]; [reflexivity|].
  cbn in Hr, Hl. set (n := Z.to_nat (Z.min 8192 filesize)). set (c := from (file_pointer (fd r)) (file_data (fd r))) in *.
  destruct (ReadFile_spec (fd r) (length (take n c)) (take n c) (drop n c) Hr) as [_ Hrest]; [symmetry; apply take_drop|reflexivity|].
  unfold ReadFile. fold c. apply IH; cbn [readable contents file_reader_laws fd file_pointer file_data]; [lia|].
  fold c in Hrest. rewrite Hrest, length_drop, length_take. lia.
Qed.

Lemma zero_block : isZeroBlock (repeat 0 512) = true /\ length (repeat 0 512) = 512%nat.
Proof. vm_compute. auto. Qed.

Lemma next_step_end {V : MapOrder} (st : Reader FileReader) gap text p ec :
  readable (source st) -> contents (source st) = gap ++ repeat 0 512 ++ repeat 0 512 ++ text ->
  remainingSize st = 0 -> zlen gap = paddingSize st ->
  exists st', next_step st p ec = (Done (NextError ErrEnded), st').
Proof.
  intros Hr Hc Hrem Hg. unfold next_step. destruct zero_block as [Hz Hl].
  destruct (discard_prefix st (remainingSize st) [] _ Hr Hc ltac:(rewrite Hrem; reflexivity)) as (r1 & -> & Hr1 & Hc1).
  destruct (discard_prefix (set_source st r1) (paddingSize st) gap _ Hr1 Hc1 Hg) as (r2 & E2 & Hr2 & Hc2).
  change (paddingSize (set_source st r1)) with (paddingSize st). rewrite E2. unfold readHeader.
  generalize dependent (repeat 0 512). intros z Hc Hz Hl Hc1 Hc2.
  destruct (ReadFull_ok (set_source (set_source st r1) r2) blockSize z _ Hr2 Hc2) as (r3 & -> & Hr3 & Hc3); [unfold blockSize; lia|].
  rewrite Hz.
  destruct (ReadFull_ok (set_source (set_source (set_source st r1) r2) r3) blockSize z text Hr3 Hc3) as (r4 & -> & Hr4 & Hc4); [unfold blockSize; lia|].
  rewrite Hz. eauto.
Qed.

Lemma extract_entry_ok {V : MapOrder} fuel (st : Reader FileReader) h body rest :
  readable (source st) -> contents (source st) = body ++ rest -> remainingSize st = zlen body -> Size h = zlen body ->
  (IsRegular h = false -> body = []) -> (length body < fuel)%nat ->
  exists r', readable r' /\ contents r' = rest /\
    extract_entry (fun _ => None) fuel st h = Some (Extracted body,
      {| source := r'; remainingSize := 0; paddingSize := paddingSize st; index := index st |}).
Proof.
  intros Hr Hc Hrem Hs Hreg Hf. unfold extract_entry. destruct (IsDir h || IsSymlink h || negb (IsRegular h))%bool eqn:Ei.
  - assert (body = []) as ->.
    { apply Hreg. unfold IsDir, IsSymlink, IsRegular, TypeDir, TypeSymlink, TypeReg, TypeRegA in *.
      destruct (Z.eqb_spec (Typeflag h) 53) as [->|]; [reflexivity|]. destruct (Z.eqb_spec (Typeflag h) 50) as [->|]; [reflexivity|].
      cbn [orb] in Ei. now apply negb_true_iff in Ei. }
    exists (source st). split_and!; auto. change (zlen []) with 0 in Hrem. clear - Hrem. destruct st. cbn [remainingSize] in Hrem. now subst.
  - destruct (WriteTo_loop_ok fuel (source st) body rest [] Hr Hc Hf) as (r' & E & Hr' & Hc').
    exists r'. unfold Reader_WriteTo. rewrite Hs, E. cbn [app option_map]. split_and!; auto. rewrite Hrem.
    destruct (Z.gtb_spec (zlen body) 0); repeat f_equal; lia.
Qed.

Lemma extract_loop {V : MapOrder} ignore text es : archive text es ->
  forall (st : Reader FileReader) gap done fuel,
  readable (source st) -> contents (source st) = gap ++ text -> remainingSize st = 0 -> zlen gap = paddingSize st ->
  (length text < fuel)%nat -> Extract (fun _ => None) ignore fuel st None done = Some (None, done ++ es).
Proof.
  induction 1 as [text|e p block h body gap' text es He Hf Hp Hs Hreg _ IH]; intros st gap done fuel Hr Hc Hrem Hg Hfuel;
    (destruct fuel as [|fuel]; [lia|]); cbn [Extract].
  - destruct (next_step_end st gap text no_pending None Hr Hc Hrem Hg) as [st' E].
    destruct zero_block as [_ Hl]. rewrite !length_app, Hl in Hfuel. destruct fuel as [|fuel]; [lia|].
    unfold Next. cbn [next_loop]. rewrite E. cbn. now rewrite app_nil_r.
  - rewrite !length_app in Hfuel. assert (length block = 512%nat) as Hb by (destruct Hf as (h0 & h1 & (Hb & _) & _); exact Hb).
    destruct (next_loop_entry e no_pending p He st [] gap block (body ++ gap' ++ text) h None _ fuel Hr Hc (eq_sym Hrem) Hg
      (or_intror eq_refl) Hf Hp ltac:(lia)) as (r1 & Hr1 & Hc1 & E1).
    unfold Next. rewrite E1. 
    destruct (extract_entry_ok fuel {| source := r1; remainingSize := Size h; paddingSize := zlen gap'; index := index st + 1 |}
      h body (gap' ++ text) Hr1 Hc1 Hs Hs Hreg ltac:(lia)) as (r2 & Hr2 & Hc2 & ->).
    assert ((if IsRegular h then None else None) = (None : option tar_error)) as -> by now destruct (IsRegular h).
    rewrite (IH _ gap' _ fuel); auto; [now rewrite <- app_assoc|lia].
Qed.


(** ** What the reader does not handle *)

(** A directory whose size field is -512, with a right checksum. *)
Definition negative_dir : bytes :=
  let fields chksum :=
    [pad0 100 (str "d"); octal 7 493; octal 7 0; octal 7 0; repeat 255 10 ++ [254; 0]; octal 11 0; chksum; [TypeDir];
     pad0 100 []; magicUSTAR; [48; 48]; pad0 32 []; pad0 32 []; octal 7 0; octal 7 0; pad0 155 []; repeat 0 12] in
  concat (fields (digits 8 6 (fst (header_sums 0 (concat (fields (repeat 32 8))) 0 0)) ++ [0; 32])).

Definition negative_archive : bytes := negative_dir ++ repeat 0 1024.

(** After the header was read, with [i] entries seen. *)
Definition after_negative (i : Z) : Reader FileReader :=
  {| source := {| fd := {| file_data := negative_archive; file_pointer := 512 |}; position := 512 |};
     remainingSize := -512; paddingSize := 0; index := i |}.

Definition negative_header : Header := default (ustar_header ustar_example) (header_of_block negative_dir).

(** The size of an entry without data is not checked, and the reader goes back
    by it: [Next] returns the same directory again, for ever. *)
Lemma negative_size_repeats {V : MapOrder} : visit ∅ = [] -> forall i,
  Next 1 (NewReader (open_file negative_archive)) None = Some (NextHeader (final_format negative_header) None, after_negative 1) /\
  Next 1 (after_negative i) None = Some (NextHeader (final_format negative_header) None, after_negative (i + 1)).
Proof.
  intros Hv i.
  assert (Hm : forall h ec, mergePAX h ec (paxHdrs no_pending) = (true, set_PAXRecords ∅ h, ec)).
  { intros h ec. unfold mergePAX. change (paxHdrs no_pending) with (∅ : Xmap). now rewrite Hv. }
  assert (Hr : forall p rem k, p = 0 /\ rem = 0 \/ p = 512 /\ rem = -512 ->
    next_step {| source := {| fd := {| file_data := negative_archive; file_pointer := p |}; position := p |};
                 remainingSize := rem; paddingSize := 0; index := k |} no_pending None =
    (Done (NextHeader (final_format negative_header) None), after_negative (k + 1))).
  { intros p rem k Hp. pose (at_ p := {| source := {| fd := {| file_data := negative_archive; file_pointer := p |};
      position := p |}; remainingSize := rem; paddingSize := 0; index := k |}).
    change (next_step (at_ p) no_pending None = (Done (NextHeader (final_format negative_header) None), after_negative (k + 1))).
    unfold next_step. assert (discard (at_ p) (remainingSize (at_ p)) = (true, at_ 0)) as ->.
    { destruct Hp as [[-> ->]|[-> ->]]; vm_compute; reflexivity. }
    assert (discard (at_ 0) (paddingSize (at_ 0)) = (true, at_ 0)) as -> by (vm_compute; reflexivity).
    assert (readHeader (at_ 0) = (inr negative_header, at_ 512)) as -> by (vm_compute; reflexivity).
    change (handleRegularFile negative_header) with (Some 0).
    change (Typeflag negative_header) with TypeDir. cbn [Z.eqb Pos.eqb orb TypeDir TypeXHeader TypeXGlobalHeader TypeGNULongName TypeGNULongLink].
    unfold file_entry. rewrite Hm. reflexivity. }
  split; unfold Next; cbn [next_loop].
  - unfold NewReader, open_file. rewrite (Hr 0 0 0) by auto. reflexivity.
  - unfold after_negative at 1. rewrite (Hr 512 (-512) i) by auto. reflexivity.
Qed.

(** ** Examples and witnesses *)

Definition plain (name : bytes) (typeflag size : Z) : ustar := {|
  u_name := name; u_mode := 420; u_uid := 0; u_gid := 0; u_size := size; u_mtime := 0; u_typeflag := typeflag;
  u_linkname := []; u_uname := []; u_gname := []; u_devmajor := 0; u_devminor := 0; u_prefix := [] |}.

Definition long_name : bytes := str "a/very/long/name.txt".
Definition long_body : bytes := long_name ++ [0].
Definition long_gap : bytes := repeat 0 491.
Definition long_block : bytes := ustar_block (plain (str "././@LongLink") TypeGNULongName 21).
Definition long_text : bytes := long_block ++ long_body ++ long_gap ++ [].
Definition long_pending : pending := {| paxHdrs := ∅; gnuLongName := long_name; gnuLongLink := [] |}.

Definition file_body : bytes := str "hello world".
Definition file_gap : bytes := repeat 0 501.
Definition first_block : bytes := ustar_block (plain (str "first.txt") TypeReg 11).
Definition second_block : bytes := ustar_block (plain (str "a/very/lo") TypeReg 11).

Definition tar_example : bytes :=
  [] ++ first_block ++ file_body ++ file_gap ++
  (long_text ++ second_block ++ file_body ++ file_gap ++ (repeat 0 512 ++ repeat 0 512 ++ [])).

Definition first_header : Header := set_Format FormatUSTAR (ustar_header (plain (str "first.txt") TypeReg 11)).
Definition second_header : Header := set_Format FormatUSTAR (ustar_header (plain long_name TypeReg 11)).

(** The data of an entry that was not read are skipped again before the second
    header that follows: what comes after a long name is then not found. *)
Example unread_data_skipped_twice :
  match Next 4 (NewReader (open_file tar_example)) None with
  | Some (NextHeader h _, st) =>
      h = first_header /\ remainingSize st = 11 /\ option_map fst (Next 4 st None) = Some (NextError ErrNotTarFile)
  | _ => False
  end.
Proof. vm_compute. repeat split. Qed.

Lemma long_metas : metas long_text no_pending long_pending.
Proof.
  unfold long_text. apply (metas_cons _ (ustar_header (plain (str "././@LongLink") TypeGNULongName 21)) _ _ _ _ long_pending).
  - vm_compute. repeat split.
  - right. left. vm_compute. repeat split.
  - reflexivity.
  - vm_compute. reflexivity.
  - constructor.
Qed.

Lemma first_file : file_block first_block no_pending first_header None.
Proof.
  eexists (ustar_header (plain (str "first.txt") TypeReg 11)), _. split_and!.
  - vm_compute. repeat split.
  - repeat split; discriminate.
  - eexists. reflexivity.
  - vm_compute. reflexivity.
  - vm_compute. reflexivity.
Qed.

Lemma second_file : file_block second_block long_pending second_header None.
Proof.
  eexists (ustar_header (plain (str "a/very/lo") TypeReg 11)), _. split_and!.
  - vm_compute. repeat split.
  - repeat split; discriminate.
  - eexists. reflexivity.
  - vm_compute. reflexivity.
  - vm_compute. reflexivity.
Qed.

Definition reader_example : Reader FileReader := NewReader (open_file tar_example).

Lemma next_terminates_witness :
  is_Some (Next (length (contents (source reader_example)) / 512 + 1) reader_example None).
Proof.
  apply (next_terminates reader_example None).
  - unfold reader_example. cbn [source NewReader]. cbn. lia.
  - unfold reader_example. cbn [remainingSize NewReader]. lia.
  - unfold reader_example. cbn [paddingSize NewReader]. lia.
Defined.

Lemma next_reads_entry_witness :
  exists st, Next 3 {| source := open_file (drop 1024 tar_example); remainingSize := 0; paddingSize := 0; index := 1 |} None =
    Some (NextHeader second_header None, st) /\ index st = 2.
Proof.
  destruct (next_reads_entry {| source := open_file (drop 1024 tar_example); remainingSize := 0; paddingSize := 0; index := 1 |}
    [] [] long_text long_pending second_block (file_body ++ file_gap ++ (repeat 0 512 ++ repeat 0 512 ++ [])) second_header None
    501 3) as (r' & _ & _ & E).
  - cbn. lia.
  - vm_compute. reflexivity.
  - reflexivity.
  - reflexivity.
  - right. reflexivity.
  - exact long_metas.
  - exact second_file.
  - vm_compute. reflexivity.
  - apply Nat.ltb_lt. vm_compute. reflexivity.
  - eexists. split; [exact E|reflexivity].
Defined.

