(* ===== verification/ArchivePath.v ===== *)
(** * Names of archive entries: [lib/archive/ced.cc], [archive.cc]

    [is_harmful_path] and [JoinSanitizeFsPath], which decide where an entry is
    written, [PathStripExtension] and [FileDestination]. *)

From Stdlib Require Import String.
From stdpp Require Import list.
From S2P Require Import Prelude CxxString.
Import (notations) ListNotations.

Open Scope Z_scope.

(** ** Components of a path *)

Definition is_separator (c : Z) : bool := (c =? 92) || (c =? 47).

(** [StrSplit(s, ByAnyChar("\\/"))]: there is always one piece more than there
    are separators. *)
Fixpoint split_all (s : list Z) : list (list Z) :=
  match s with
  | [] => [[]]
  | c :: s =>
      if is_separator c then [] :: split_all s
      else match split_all s with
           | p :: ps => (c :: p) :: ps
           | [] => [[c]]
           end
  end.

Definition nonempty (p : list Z) : bool := match p with [] => false | _ => true end.

(** With [SkipEmpty()]. *)
Definition pieces (s : list Z) : list (list Z) := List.filter nonempty (split_all s).

Definition dot : list Z := str ".".
Definition dotdot : list Z := str "..".

(** ** [is_harmful_path] *)

Fixpoint harm_loop (paths : list (list Z)) (entries : Z) : bool :=
  match paths with
  | [] => entries <=? 0
  | p :: paths =>
      if bool_decide (p = dot) then harm_loop paths entries
      else if negb (bool_decide (p = dotdot)) then harm_loop paths (entries + 1)
      else if entries - 1 <? 0 then true else harm_loop paths (entries - 1)
  end.

Definition is_harmful_path (child_path : list Z) : bool := harm_loop (pieces child_path) 0.

(** ** [std::filesystem::path::operator/] on Windows

    A path is a root name (a drive, or a server), perhaps a root directory, and
    names.  [root_name_end] is the length of the root name. *)

Definition is_letter (c : Z) : bool := ((65 <=? c) && (c <=? 90)) || ((97 <=? c) && (c <=? 122)).

Definition has_drive_letter (p : list Z) : bool :=
  match p with c :: d :: _ => is_letter c && (d =? 58) | _ => false end.

(** The length of [p] up to the first separator. *)
Fixpoint name_length (p : list Z) : nat :=
  match p with
  | [] => 0
  | c :: p => if is_separator c then 0 else Datatypes.S (name_length p)
  end.

Definition is_slash_at (p : list Z) (i : nat) : bool := is_separator (nth i p 0).

Definition root_name_end (p : list Z) : nat :=
  if (length p <? 2)%nat then 0
  else if has_drive_letter p then 2
  else if negb (is_slash_at p 0) then 0
  else if (4 <=? length p)%nat && is_slash_at p 3 && ((length p =? 4)%nat || negb (is_slash_at p 4))
          && ((is_slash_at p 1 && ((nth 2 p 0 =? 63) || (nth 2 p 0 =? 46))) || ((nth 1 p 0 =? 63) && (nth 2 p 0 =? 63)))
  then 3
  else if (3 <=? length p)%nat && is_slash_at p 1 && negb (is_slash_at p 2) then 3 + name_length (drop 3 p)
  else 0.

Definition root_name (p : list Z) : list Z := take (root_name_end p) p.

Definition is_absolute (p : list Z) : bool :=
  if has_drive_letter p then (3 <=? length p)%nat && is_slash_at p 2 else (0 <? root_name_end p)%nat.

Definition path_append (this other : list Z) : list Z :=
  if is_absolute other then other
  else
    let n := root_name_end other in
    if (0 <? n)%nat && negb (bool_decide (root_name this = root_name other)) then other
    else if (n <? length other)%nat && is_slash_at other n then root_name this ++ drop n other
    else
      let my := root_name_end this in
      let sep :=
        if (my =? length this)%nat then
          (* a server without a share gets a separator, a drive does not *)
          if (3 <=? my)%nat then [92] else []
        else if is_slash_at this (length this - 1) then [] else [92] in
      this ++ sep ++ drop n other.

(** ** [JoinSanitizeFsPath]

    The conversion of names to wide characters ([MultiByteToWideChar], or UTF-8)
    is a parameter. *)

Definition excludeChars : list Z := [13; 10; 60; 62; 58; 34; 124; 42; 63].

Definition replace_char (c : Z) : Z :=
  if c =? 13 then 45
  else if (c =? 10) || (c =? 60) || (c =? 62) || (c =? 58) || (c =? 34) || (c =? 124) || (c =? 63) then 95
  else c.

Section Join.
Context (encode_into_native : list Z -> list Z).

Definition sanitized (child_path : list Z) : list Z :=
  let encoded := encode_into_native child_path in
  if existsb (fun c => bool_decide (c ∈ excludeChars)) encoded then map replace_char encoded else encoded.

Definition JoinSanitizeFsPath (root child_path : list Z) : option (list Z) :=
  if is_harmful_path child_path then None else Some (path_append root (sanitized child_path)).

End Join.

(** ** [PathStripExtension], [FileDestination] *)

Definition is_dot_or_separator (c : Z) : bool := is_separator c || (c =? 46).

(** The loop removes trailing dots and separators; [rev_p] is the path from its
    end, of which at least one character is left. *)
Fixpoint strip_trailing (rev_p : list Z) : list Z :=
  match rev_p with
  | [] => []
  | c :: rest =>
      match rest with
      | [] => rev_p
      | _ => if is_dot_or_separator c then strip_trailing rest else rev_p
      end
  end.

Definition ascii_lower (c : Z) : Z := if (65 <=? c) && (c <=? 90) then c + 32 else c.
Definition EndsWithIgnoreCase (text suffix : list Z) : bool :=
  (length suffix <=? length text)%nat
  && bool_decide (map ascii_lower (drop (length text - length suffix) text) = map ascii_lower suffix).

Definition extensions : list (list Z) :=
  [str ".tar.gz"; str ".tar.bz2"; str ".tar.xz"; str ".tar.zst"; str ".tar.zstd"; str ".tar.br"; str ".tar.lz4"].

(** [find_last_of]: the last position whose character satisfies [f]. *)
Fixpoint find_last (f : Z -> bool) (s : list Z) : option nat :=
  match s with
  | [] => None
  | c :: s =>
      match find_last f s with
      | Some n => Some (Datatypes.S n)
      | None => if f c then Some 0%nat else None
      end
  end.

Definition PathStripExtension (p : list Z) : list Z :=
  match p with
  | [] => str "."
  | _ =>
      let p := rev (strip_trailing (rev p)) in
      match find (fun e => EndsWithIgnoreCase p e) extensions with
      | Some e => take (length p - length e) p
      | None =>
          match find_last is_dot_or_separator p with
          | Some pos => if nth pos p 0 =? 46 then take pos p else p
          | None => p
          end
      end
  end.

Definition FileDestination (arfile : list Z) : list Z :=
  let d := PathStripExtension arfile in
  let ends_with_path_separator := match rev d with [] => false | c :: _ => is_separator c end in
  if negb (length d =? length arfile)%nat && negb ends_with_path_separator then d else arfile ++ str ".out".

Example path_ex :
  is_harmful_path (str "a/../b") = false /\ is_harmful_path (str "a/../../b") = true /\
  is_harmful_path (str "a/..") = true /\ is_harmful_path (str "..\b") = true /\
  path_append (str "C:\dest") (str "a/b") = str "C:\dest\a/b" /\
  path_append (str "C:\dest") (str "/a/b") = str "C:/a/b" /\
  path_append (str "C:\dest") (str "//server/share/b") = str "//server/share/b" /\
  path_append (str "C:") (str "b") = str "C:b".
Proof. vm_compute. repeat split. Qed.

Example destination_ex :
  FileDestination (str "C:\x\a.tar.GZ") = str "C:\x\a" /\ FileDestination (str "a.b\c") = str "a.b\c.out" /\
  FileDestination (str "x.zip..") = str "x".
Proof. vm_compute. repeat split. Qed.

(** ** Where a path leads

    [walk cwd ps]: the directory, as its names from the root of the file system,
    that is reached from [cwd] by the names [ps]; [..] leaves a directory. *)

Definition walk_step (cwd : list (list Z)) (p : list Z) : list (list Z) :=
  if bool_decide (p = dot) then cwd
  else if bool_decide (p = dotdot) then take (length cwd - 1) cwd else cwd ++ [p].

Definition walk (cwd ps : list (list Z)) : list (list Z) := fold_left walk_step ps cwd.

(** Every directory on the way lies in [dir], and the end is below it. *)
Definition stays_inside (dir ps : list (list Z)) : Prop :=
  (forall k, dir `prefix_of` walk dir (take k ps)) /\ walk dir ps <> dir.

Lemma walk_app cwd a b : walk cwd (a ++ b) = walk (walk cwd a) b.
Proof. apply fold_left_app. Qed.

Lemma harm_loop_spec dir ps : dir <> [] -> forall rel,
  harm_loop ps (zlen rel) = false <->
  (forall k, dir `prefix_of` walk (dir ++ rel) (take k ps)) /\ walk (dir ++ rel) ps <> dir.
Proof.
  intros Hdir. induction ps as [|p ps IH]; intros rel; cbn [harm_loop].
  - rewrite Z.leb_gt. split.
    + intros Hl. split; [intros k; rewrite take_nil; now exists rel|]. cbn. intros H.
      apply (f_equal length) in H. rewrite length_app in H. lia.
    + intros [_ H]. destruct rel; [rewrite app_nil_r in H; now destruct H|]. cbn [length]. lia.
  - assert (Hcons : forall cwd, (forall k, dir `prefix_of` walk cwd (take k (p :: ps))) <->
      dir `prefix_of` cwd /\ (forall k, dir `prefix_of` walk (walk_step cwd p) (take k ps))).
    { intros cwd. split; [intros H; split; [apply (H 0%nat)|intros k; apply (H (Datatypes.S k))]|].
      intros [H0 H] [|k]; [exact H0|apply H]. }
    rewrite Hcons. change (walk (dir ++ rel) (p :: ps)) with (walk (walk_step (dir ++ rel) p) ps).
    unfold walk_step. destruct (bool_decide (p = dot)).
    { rewrite IH. intuition. now exists rel. }
    destruct (bool_decide (p = dotdot)); cbn [negb].
    + destruct rel as [|x rel _] using rev_ind.
      * split; [discriminate|]. intros [[_ H] _]. exfalso. specialize (H 0%nat). rewrite take_0, app_nil_r in H.
        unfold walk in H. cbn [fold_left] in H.
        apply prefix_length in H. rewrite length_take in H. destruct dir; [congruence|cbn in H; lia].
      * rewrite length_app. cbn [length]. rewrite (proj2 (Z.ltb_ge _ _)) by lia.
        replace (Z.of_nat (length rel + 1) - 1) with (zlen rel) by lia. rewrite IH, app_assoc, length_app. cbn [length].
        replace (length (dir ++ rel) + 1 - 1)%nat with (length (dir ++ rel)) by lia. rewrite take_app_length.
        intuition. exists (rel ++ [x]). now rewrite app_assoc.
    + replace (zlen rel + 1) with (zlen (rel ++ [p])) by (rewrite length_app; cbn [length]; lia).
      rewrite IH, app_assoc. intuition. now exists rel.
Qed.

(** ** Pieces *)

Lemma split_all_app a c b : is_separator c = true -> split_all (a ++ c :: b) = split_all a ++ split_all b.
Proof.
  intros Hc. induction a as [|x a IH]; cbn [app split_all]; [now rewrite Hc|]. rewrite IH.
  destruct (is_separator x); [reflexivity|]. destruct (split_all a) eqn:E; [|reflexivity].
  destruct a; cbn in E; [discriminate|]. destruct (is_separator z); [discriminate|]. destruct (split_all a); discriminate.
Qed.

Lemma pieces_app a c b : is_separator c = true -> pieces (a ++ c :: b) = pieces a ++ pieces b.
Proof. intros Hc. unfold pieces. now rewrite split_all_app, List.filter_app. Qed.

Lemma separator_replace c : is_separator (replace_char c) = is_separator c.
Proof.
  unfold replace_char, is_separator. destruct (Z.eqb_spec c 13) as [->|_]; [reflexivity|].
  match goal with |- context [if ?b then 95 else c] => destruct b eqn:E end; [|reflexivity].
  rewrite !orb_true_iff, !Z.eqb_eq in E. destruct_or! E; subst; reflexivity.
Qed.

Lemma split_all_map s : split_all (map replace_char s) = map (map replace_char) (split_all s).
Proof.
  induction s as [|c s IH]; cbn [map split_all]; [reflexivity|]. rewrite separator_replace, IH.
  destruct (is_separator c); [reflexivity|]. destruct (split_all s); reflexivity.
Qed.

Lemma pieces_map s : pieces (map replace_char s) = map (map replace_char) (pieces s).
Proof.
  unfold pieces. rewrite split_all_map. induction (split_all s) as [|p ps IH]; [reflexivity|]. cbn [map List.filter].
  destruct p; cbn [nonempty map]; [exact IH|]. now rewrite IH.
Qed.

(** ** The name that is opened *)

(** The conversion keeps the structure of a name: separators are converted to
    separators, dots to dots. *)
Definition transparent (encode : list Z -> list Z) (s : list Z) : Prop :=
  pieces (encode s) = map encode (pieces s) /\
  Forall (fun p => (encode p = dot <-> p = dot) /\ (encode p = dotdot <-> p = dotdot)) (pieces s).

Lemma replace_dot p : map replace_char p = dot <-> p = dot.
Proof.
  split; [|intros ->; reflexivity]. destruct p as [|c [|d p]]; try discriminate. cbn. intros [= H].
  unfold replace_char in H. repeat (case_if_in H; [discriminate|]). now subst.
Qed.

Lemma replace_dotdot p : map replace_char p = dotdot <-> p = dotdot.
Proof.
  split; [|intros ->; reflexivity]. destruct p as [|c [|d [|e p]]]; try discriminate. cbn. intros [= H1 H2].
  unfold replace_char in *. repeat (case_if_in H1; [discriminate|]). repeat (case_if_in H2; [discriminate|]). now subst.
Qed.

(** Renaming the names that are neither [.] nor [..] changes nothing. *)
Lemma harm_loop_map f ps : Forall (fun p => (f p = dot <-> p = dot) /\ (f p = dotdot <-> p = dotdot)) ps ->
  forall n, harm_loop (map f ps) n = harm_loop ps n.
Proof.
  induction 1 as [|p ps [H1 H2] _ IH]; intros n; cbn [map harm_loop]; [reflexivity|].
  rewrite (bool_decide_ext _ _ H1), (bool_decide_ext _ _ H2), !IH. reflexivity.
Qed.

Lemma sanitized_harm encode s : transparent encode s -> harm_loop (pieces (sanitized encode s)) 0 = is_harmful_path s.
Proof.
  intros [Hp Hf]. unfold sanitized, is_harmful_path. destruct (existsb _ _); [rewrite pieces_map|]; rewrite Hp.
  - rewrite (harm_loop_map (map replace_char)) by (apply Forall_forall; intros; split; [apply replace_dot|apply replace_dotdot]).
    now apply harm_loop_map.
  - now apply harm_loop_map.
Qed.

(** A name that does not start with a separator, and has no drive. *)
Definition relative_name (s : list Z) : Prop :=
  match s with c :: _ => is_separator c = false | [] => True end /\ has_drive_letter s = false.

Lemma relative_root s : relative_name s -> root_name_end s = 0%nat.
Proof.
  intros [Hs Hd]. unfold root_name_end. rewrite Hd. destruct (length s <? 2)%nat; [reflexivity|].
  destruct s as [|c s]; [reflexivity|]. unfold is_slash_at. cbn [nth]. now rewrite Hs.
Qed.

Lemma append_relative root s : relative_name s -> s <> [] ->
  exists sep, path_append root s = root ++ sep ++ s /\
    (sep = [92] \/ sep = [] /\ ((length root < 3)%nat \/ is_slash_at root (length root - 1) = true)).
Proof.
  intros Hr Hne. pose proof (relative_root s Hr) as H0. unfold path_append, is_absolute. rewrite (proj2 Hr), H0.
  change (0 <? 0)%nat with false. cbn [andb].
  destruct s as [|c s]; [congruence|]. destruct Hr as [Hc _]. unfold is_slash_at at 1. cbn [nth]. rewrite Hc, andb_false_r, drop_0.
  destruct (Nat.eqb_spec (root_name_end root) (length root)) as [E|E].
  - destruct (Nat.leb_spec 3 (root_name_end root)); eexists; split; eauto. right. split; [reflexivity|left; lia].
  - destruct (is_slash_at root (length root - 1)) eqn:Es; eexists; split; eauto.
Qed.

Lemma short_not_absolute root : (length root < 3)%nat -> is_absolute root = false.
Proof.
  destruct root as [|a [|b [|c root]]]; intros Hl; cbn [length] in Hl; try lia; try reflexivity.
  unfold is_absolute. destruct (has_drive_letter [a; b]) eqn:Ed; [reflexivity|].
  unfold root_name_end. rewrite Ed. destruct (is_slash_at [a; b] 0); reflexivity.
Qed.

Lemma pieces_append root s : is_absolute root = true -> relative_name s -> s <> [] ->
  pieces (path_append root s) = pieces root ++ pieces s.
Proof.
  intros Ha Hr Hne. destruct (append_relative root s Hr Hne) as (sep & -> & [->|[-> [Hs|Hs]]]).
  - now apply pieces_app.
  - rewrite short_not_absolute in Ha by assumption. discriminate.
  - destruct root as [|c root _] using rev_ind; [discriminate|]. unfold is_slash_at in Hs. rewrite length_app in Hs. cbn [length] in Hs.
    replace (length root + 1 - 1)%nat with (length root) in Hs by lia. rewrite nth_middle in Hs.
    cbn [app]. rewrite <- app_assoc. cbn [app]. rewrite !pieces_app by assumption. now rewrite app_nil_r.
Qed.


(** ** What the check does not cover *)

(** A name that starts with one separator replaces the path of the destination:
    only its drive is kept. *)
Lemma absolute_name_escapes root c s : is_separator c = true -> (length s < 1)%nat \/ is_slash_at s 0 = false ->
  (nth 0 s 0 =? 63) = false -> path_append root (c :: s) = root_name root ++ c :: s.
Proof.
  intros Hc Hs Hq. assert (has_drive_letter (c :: s) = false) as Hd.
  { destruct s; [reflexivity|]. unfold has_drive_letter, is_letter, is_separator in *. apply orb_true_iff in Hc as [Hc|Hc]; b2p; subst; reflexivity. }
  assert (root_name_end (c :: s) = 0%nat) as H0.
  { unfold root_name_end. rewrite Hd. destruct (_ <? 2)%nat; [reflexivity|].
    unfold is_slash_at in *. cbn [nth]. rewrite Hc. cbn [negb]. destruct Hs as [Hs|Hs]; [destruct s; [|cbn in Hs; lia]; reflexivity|].
    change (nth 1 (c :: s) 0) with (nth 0 s 0). rewrite Hs, Hq. cbn [andb orb]. now rewrite ?andb_false_r. }
  unfold path_append, is_absolute. rewrite Hd, H0. change (0 <? 0)%nat with false. cbn [andb].
  unfold is_slash_at. cbn [nth length Nat.ltb Nat.leb drop]. rewrite Hc. reflexivity.
Qed.

Example absolute_entry : JoinSanitizeFsPath id (str "C:\dest") (str "/Windows/x.dll") = Some (str "C:/Windows/x.dll").
Proof. vm_compute. reflexivity. Qed.

Example server_entry : JoinSanitizeFsPath id (str "C:\dest") (str "//server/share/x") = Some (str "//server/share/x").
Proof. vm_compute. reflexivity. Qed.

(** A double-byte code page may use the code of the backslash as the second byte
    of a character (0x83 0x5C in Shift-JIS is U+30BD).  The check, which looks at
    the bytes, then counts a name too many. *)
Fixpoint shift_jis (s : list Z) : list Z :=
  match s with
  | 0x83 :: 0x5C :: s => 0x30BD :: shift_jis s
  | c :: s => c :: shift_jis s
  | [] => []
  end.

Example shift_jis_escapes :
  let child := [0x83; 0x5C] ++ str "a/../../x" in
  exists out, JoinSanitizeFsPath shift_jis (str "C:\dest") child = Some out /\ walk [] (pieces out) = [str "C:"; str "x"].
Proof. eexists. split; vm_compute; reflexivity. Qed.

(** [*] is among the characters that are looked for, but is not replaced. *)
Example star_is_kept : sanitized id (str "a*b?c") = str "a*b_c".
Proof. vm_compute. reflexivity. Qed.

(** ** [FileDestination]: the archive is not its own destination *)

Lemma strip_trailing_suffix s : exists t, s = t ++ strip_trailing s.
Proof.
  induction s as [|c s [t IH]]; [now exists []|]. cbn [strip_trailing]. destruct s as [|d s]; [now exists []|].
  destruct (is_dot_or_separator c); [|now exists []]. exists (c :: t). cbn [app]. now rewrite <- IH.
Qed.

Lemma PathStripExtension_prefix p : p <> [] -> PathStripExtension p `prefix_of` p.
Proof.
  intros Hp. unfold PathStripExtension. destruct p as [|c p']; [congruence|]. set (p := c :: p') in *.
  assert (rev (strip_trailing (rev p)) `prefix_of` p) as Hq.
  { destruct (strip_trailing_suffix (rev p)) as [t Ht]. exists (rev t).
    rewrite <- rev_app_distr, <- Ht. symmetry. apply rev_involutive. }
  set (q := rev (strip_trailing (rev p))) in *.
  assert (forall n, take n q `prefix_of` p) as Htake by (intros n; transitivity q; [apply prefix_take|assumption]).
  destruct (find _ _); [apply Htake|]. destruct (find_last _ _) as [pos|]; [|assumption]. case_if; [apply Htake|assumption].
Qed.

Lemma FileDestination_other arfile : arfile <> [] -> FileDestination arfile <> arfile.
Proof.
  intros Hne. unfold FileDestination. destruct (_ && _)%bool eqn:E.
  - apply andb_true_iff in E as [E _]. apply negb_true_iff, Nat.eqb_neq in E. congruence.
  - intros H. apply (f_equal length) in H. rewrite length_app in H. cbn in H. lia.
Qed.

