(* ===== verification/ArchiveFormat.v ===== *)
(** * Detection of archive formats: [lib/archive/format.cc]

    The magic numbers at the start of a file, the overlay of an executable, and
    the MIME types. *)

From Stdlib Require Import String.
From stdpp Require Import list.
From S2P Require Import Prelude CxxString StreamFlags TarHeader.
Import (notations) ListNotations.

Open Scope Z_scope.

Inductive file_format_t :=
  | none | epub | zip | tar | rar | gz | bz2 | zstd | _7z | xz | eot | crx | deb | lz | rpm | cab | msi | dmg | xar
  | wim | nsis | z | brotli | exe.

#[export] Instance file_format_eq_dec : EqDecision file_format_t.
Proof. solve_decision. Defined.

Definition mime_table : list (file_format_t * string) :=
  [(epub, "application/epub"); (zip, "application/zip"); (tar, "application/x-tar"); (rar, "application/vnd.rar");
   (gz, "application/gzip"); (bz2, "application/x-bzip2"); (zstd, "application/x-zstd");
   (_7z, "application/x-7z-compressed"); (xz, "application/x-xz"); (eot, "application/octet-stream");
   (crx, "application/x-google-chrome-extension"); (deb, "application/vnd.debian.binary-package");
   (lz, "application/x-lzip"); (rpm, "application/x-rpm"); (cab, "application/vnd.ms-cab-compressed");
   (msi, "application/x-msi"); (dmg, "application/x-apple-diskimage"); (xar, "application/x-xar");
   (wim, "application/x-ms-wim"); (z, "application/x-compress")]%string.

Definition FormatToMIME (t : file_format_t) : string :=
  match find (fun m => bool_decide (m.1 = t)) mime_table with
  | Some m => m.2
  | None => "application/octet-stream"%string
  end.

(** ** Magic numbers *)

Definition k7zSignature : bytes := [55; 122; 0xBC; 0xAF; 0x27; 0x1C].
Definition PEMagic : bytes := [80; 69; 0; 0].
Definition rarSignature : bytes := [0x52; 0x61; 0x72; 0x21; 0x1A; 0x07; 0x01; 0x00].
Definition rar4Signature : bytes := [0x52; 0x61; 0x72; 0x21; 0x1A; 0x07; 0x00].
Definition dmgSignature : bytes := str "koly".
Definition wimMagic : bytes := str "MSWIM" ++ [0; 0; 0].
Definition cabMagic : bytes := str "MSCF" ++ [0; 0; 0; 0].
Definition debMagic : bytes :=
  [0x21; 0x3C; 0x61; 0x72; 0x63; 0x68; 0x3E; 0x0A; 0x64; 0x65; 0x62; 0x69; 0x61; 0x6E; 0x2D; 0x62; 0x69; 0x6E; 0x61;
   0x72; 0x79].
Definition xzMagic : bytes := [0xFD; 0x37; 0x7A; 0x58; 0x5A; 0x00].
Definition gzMagic : bytes := [0x1F; 0x8B; 0x8].
Definition bz2Magic : bytes := [0x42; 0x5A; 0x68].
Definition lzMagic : bytes := [0x4C; 0x5A; 0x49; 0x50].
Definition nsisSignature : bytes := [0xEF; 0xBE; 0xAD; 0xDE] ++ str "NullsoftInst".
Definition msoleMagic : bytes := [0xD0; 0xCF; 0x11; 0xE0; 0xA1; 0xB1; 0x1A; 0xE1].

Definition is_zip_magic (buf : bytes) : bool :=
  let at_ := byte_at buf in
  (zlen buf >? 3) && (at_ 0 =? 0x50) && (at_ 1 =? 0x4B) && ((at_ 2 =? 0x3) || (at_ 2 =? 0x5) || (at_ 2 =? 0x7))
  && ((at_ 3 =? 0x4) || (at_ 3 =? 0x6) || (at_ 3 =? 0x8)).

(** [bytes_view::operator[]] gives [UINT8_MAX] outside the view; the size was
    checked here. *)
Definition is_msi_archive (bv : bytes) : bool :=
  let pair a b := (byte_at bv 512 =? a) && (byte_at bv 513 =? b) in
  if negb (starts_with msoleMagic bv) || (zlen bv <? 520) then false
  else if pair 0xEC 0xA5 then false
  else if pair 0x09 0x08 then false
  else if pair 0xA0 0x46 then false
  else true.

(** [bytes_view::cast_fromle<uint32_t>]: 0 if the view is too short. *)
Definition cast_fromle32 (bv : bytes) (offset : Z) : Z :=
  if offset + 4 >? zlen bv then 0 else read32le (from offset bv).

Definition subview (bv : bytes) (pos : Z) : bytes := if pos >=? zlen bv then [] else from pos bv.

Definition analyze_format_internal (bv : bytes) : file_format_t :=
  if is_zip_magic bv then zip
  else if starts_with xzMagic bv then xz
  else if starts_with gzMagic bv then gz
  else if starts_with bz2Magic bv then bz2
  else if starts_with lzMagic bv then lz
  else
    let zstdmagic := cast_fromle32 bv 0 in
    if (zstdmagic =? 0xFD2FB528) || (Z.land zstdmagic 0xFFFFFFF0 =? 0x184D2A50) then zstd
    else if starts_with (str "MZ") bv && (zlen bv >=? 0x3c + 4)
            && starts_with PEMagic (subview bv (read32le (from 0x3c bv))) then exe
    else if starts_with k7zSignature bv then _7z
    else if starts_with rarSignature bv || starts_with rar4Signature bv then rar
    else if starts_with wimMagic bv then wim
    else if starts_with cabMagic bv then cab
    else if starts_with dmgSignature bv then dmg
    else if starts_with debMagic bv then deb
    else if (zlen nsisSignature + 4 <=? zlen bv) && bool_decide (slice 4 (zlen nsisSignature) bv = nsisSignature) then nsis
    else if (zlen bv >=? 512) && negb (getFormat (slice 0 512 bv) =? FormatUnknown) then tar
    else if is_msi_archive bv then msi
    else none.

Definition magic_size : Z := 1024.

(** ** [CheckFormat]

    [overlay] is what [bela::pe::File] finds in an executable: the length and the
    offset of the data after its last section, [None] if it cannot be parsed.
    [fd.ReadAt] reads up to the end of the file.  The result is the format and
    the offset. *)
Section CheckFormat.
Context (overlay : bytes -> option (Z * Z)).

Definition CheckFormat (file : bytes) : option (file_format_t * Z) :=
  match analyze_format_internal (slice 0 magic_size file) with
  | exe =>
      match overlay file with
      | None => None
      | Some (len, offset) =>
          if len <? magic_size then Some (exe, 0)
          else
            match analyze_format_internal (slice offset magic_size file) with
            | none => Some (exe, offset)
            | nfmt => Some (nfmt, offset)
            end
      end
  | afmt => Some (afmt, 0)
  end.

End CheckFormat.

Example format_ex :
  analyze_format_internal (str "PK" ++ [3; 4]) = zip /\ analyze_format_internal [0x28; 0xB5; 0x2F; 0xFD; 0] = zstd /\
  analyze_format_internal (ustar_block ustar_example) = tar /\ analyze_format_internal [] = none /\
  FormatToMIME tar = "application/x-tar"%string /\ FormatToMIME exe = "application/octet-stream"%string.
Proof. vm_compute. repeat split. Qed.

(** ** Formats and their writers *)

Lemma starts_with_app p a rest : (length p <= length a)%nat -> starts_with p (a ++ rest) = starts_with p a.
Proof. intros H. unfold starts_with. now rewrite take_app_le. Qed.

(** What [lzma_stream_header_encode] writes is taken for an xz file. *)
Lemma xz_detected options out rest : lzma_stream_header_encode options = Ok out ->
  analyze_format_internal (out ++ rest) = xz.
Proof.
  unfold lzma_stream_header_encode. case_if; [discriminate|]. destruct (stream_flags_encode options) as [flags|]; [|discriminate].
  cbv zeta. generalize (flags ++ write32le (Crc.lzma_crc32 flags 0)). intros tl H.
  assert (out = lzma_header_magic ++ tl) as -> by congruence. unfold analyze_format_internal. change xzMagic with lzma_header_magic.
  assert (is_zip_magic ((lzma_header_magic ++ tl) ++ rest) = false) as ->.
  { unfold is_zip_magic. cbn [app lzma_header_magic]. change (byte_at (0xFD :: _) 0) with 0xFD. change (0xFD =? 0x50) with false.
    now rewrite !andb_false_r. }
  rewrite <- app_assoc, starts_with_app by lia. unfold starts_with. rewrite bool_decide_eq_true_2 by reflexivity. reflexivity.
Qed.

(** The only block of 512 bytes that is recognised by its checksum is a tar
    header that has none of the magic numbers at its start. *)
Lemma tar_detected bv : analyze_format_internal bv = tar -> (512 <= length bv)%nat /\ getFormat (slice 0 512 bv) <> FormatUnknown.
Proof.
  unfold analyze_format_internal. cbv zeta.
  repeat (case_if; [discriminate|]). case_if; [intros _|case_if; discriminate].
  match goal with H : (_ && _)%bool = true |- _ => apply andb_true_iff in H as [H1 H2] end.
  apply negb_true_iff, Z.eqb_neq in H2. rewrite Z.geb_leb in H1. b2p. split; [lia|assumption].
Qed.
