(* ===== verification/RangeCoder.v ===== *)
(** * The range coder

    [lib/archive/xz/src/liblzma/rangecoder]: [range_common.h], [range_encoder.h]
    and the C code of [range_decoder.h].  The encoder narrows an interval of
    integers with every symbol and writes the leading bytes of its lower end; a
    carry may still change bytes that were written as [cache] and pending [0xFF].
    The decoder follows the interval.  A probability is found at a pointer of
    some type [ptr] in a store. *)

From Stdlib Require Import ZArith Lia.
From stdpp Require Import gmap list.
From S2P Require Import Prelude.

(** ** Constants *)

Definition RC_SHIFT_BITS : Z := 8.
Definition RC_TOP_BITS : Z := 24.
Definition RC_TOP_VALUE : Z := Z.shiftl 1 RC_TOP_BITS.
Definition RC_BIT_MODEL_TOTAL_BITS : Z := 11.
Definition RC_BIT_MODEL_TOTAL : Z := Z.shiftl 1 RC_BIT_MODEL_TOTAL_BITS.
Definition RC_MOVE_BITS : Z := 5.

(** [prob += (RC_BIT_MODEL_TOTAL - prob) >> RC_MOVE_BITS] and
    [prob -= prob >> RC_MOVE_BITS], in [uint16_t]. *)
Definition prob_update (prob : Z) (bit : bool) : Z :=
  if bit then u16 (prob - Z.shiftr prob RC_MOVE_BITS)
  else u16 (prob + Z.shiftr (u32 (RC_BIT_MODEL_TOTAL - prob)) RC_MOVE_BITS).

Section Coders.
Context {ptr : Type} `{ptr_dec : EqDecision ptr} `{!Countable ptr}.

(** The memory that holds the probabilities. *)
Abbreviation probs := (gmap ptr Z).

Definition prob_at (P : probs) (p : ptr) : Z := default 0 (P !! p).

Definition bit_reset (P : probs) (p : ptr) : probs := <[p := Z.shiftr RC_BIT_MODEL_TOTAL 1]> P.

Definition update_prob (P : probs) (p : ptr) (bit : bool) : probs := <[p := prob_update (prob_at P p) bit]> P.

(** ** Encoder *)

(** [symbols] with the pointer of [probs] at the same index. *)
Inductive rc_symbol :=
  | RC_BIT (prob : ptr) (bit : bool)
  | RC_DIRECT (bit : bool)
  | RC_FLUSH.

(** [symbols] holds the [count] symbols that are waiting, from the beginning of
    the table; [pos] of them are encoded already. *)
Record lzma_range_encoder := mk_encoder {
  low : Z;
  cache_size : Z;
  range : Z;
  cache : Z;
  out_total : Z;
  symbols : list rc_symbol;
  pos : nat;
}.

Definition count (rc : lzma_range_encoder) : nat := length (symbols rc).

Definition rc_reset : lzma_range_encoder := mk_encoder 0 1 UINT32_MAX 0 0 [] 0.

Definition rc_forget (rc : lzma_range_encoder) : lzma_range_encoder :=
  mk_encoder (low rc) (cache_size rc) (range rc) (cache rc) (out_total rc) [] (pos rc).

Definition rc_queue (rc : lzma_range_encoder) (s : list rc_symbol) : lzma_range_encoder :=
  mk_encoder (low rc) (cache_size rc) (range rc) (cache rc) (out_total rc) (symbols rc ++ s) (pos rc).

Definition rc_bit (rc : lzma_range_encoder) (prob : ptr) (bit : bool) : lzma_range_encoder :=
  rc_queue rc [RC_BIT prob bit].

(** The loops below run [bit_count] times; [tree] is the array [probs]. *)
Fixpoint bittree_symbols (tree : Z -> ptr) (bit_count : nat) (symbol model_index : Z) : list rc_symbol :=
  match bit_count with
  | O => []
  | S bit_count =>
      let bit := Z.land (Z.shiftr symbol (Z.of_nat bit_count)) 1 in
      RC_BIT (tree model_index) (bit =? 1) ::
      bittree_symbols tree bit_count symbol (u32 (u32 (Z.shiftl model_index 1) + bit))
  end.

Definition rc_bittree (rc : lzma_range_encoder) (tree : Z -> ptr) (bit_count : nat) (symbol : Z) : lzma_range_encoder :=
  rc_queue rc (bittree_symbols tree bit_count symbol 1).

Fixpoint bittree_reverse_symbols (tree : Z -> ptr) (bit_count : nat) (symbol model_index : Z) : list rc_symbol :=
  match bit_count with
  | O => []
  | S bit_count =>
      let bit := Z.land symbol 1 in
      RC_BIT (tree model_index) (bit =? 1) ::
      bittree_reverse_symbols tree bit_count (Z.shiftr symbol 1) (u32 (u32 (Z.shiftl model_index 1) + bit))
  end.

Definition rc_bittree_reverse (rc : lzma_range_encoder) (tree : Z -> ptr) (bit_count : nat) (symbol : Z) :
  lzma_range_encoder := rc_queue rc (bittree_reverse_symbols tree bit_count symbol 1).

Fixpoint direct_symbols (value : Z) (bit_count : nat) : list rc_symbol :=
  match bit_count with
  | O => []
  | S bit_count => RC_DIRECT (Z.land (Z.shiftr value (Z.of_nat bit_count)) 1 =? 1) :: direct_symbols value bit_count
  end.

Definition rc_direct (rc : lzma_range_encoder) (value : Z) (bit_count : nat) : lzma_range_encoder :=
  rc_queue rc (direct_symbols value bit_count).

Definition flush_symbols : list rc_symbol := replicate 5 RC_FLUSH.
Definition rc_flush (rc : lzma_range_encoder) : lzma_range_encoder := rc_queue rc flush_symbols.

(** *** Output

    A function that writes gets [room], the number of bytes that are left in
    [out], and returns whether it stopped for lack of room, and what it wrote. *)

Definition set_low (rc : lzma_range_encoder) (l : Z) : lzma_range_encoder :=
  mk_encoder l (cache_size rc) (range rc) (cache rc) (out_total rc) (symbols rc) (pos rc).
Definition set_cache (rc : lzma_range_encoder) (n c : Z) : lzma_range_encoder :=
  mk_encoder (low rc) n (range rc) c (out_total rc) (symbols rc) (pos rc).
Definition set_range (rc : lzma_range_encoder) (r : Z) : lzma_range_encoder :=
  mk_encoder (low rc) (cache_size rc) r (cache rc) (out_total rc) (symbols rc) (pos rc).
Definition set_pos (rc : lzma_range_encoder) (n : nat) : lzma_range_encoder :=
  mk_encoder (low rc) (cache_size rc) (range rc) (cache rc) (out_total rc) (symbols rc) n.
Definition set_out_total (rc : lzma_range_encoder) (n : Z) : lzma_range_encoder :=
  mk_encoder (low rc) (cache_size rc) (range rc) (cache rc) n (symbols rc) (pos rc).

(** The loop of [rc_shift_low], which runs [cache_size] times. *)
Fixpoint shift_low_loop (n room : nat) (rc : lzma_range_encoder) : bool * lzma_range_encoder * bytes :=
  match n with
  | O => (false, rc, [])
  | S n =>
      match room with
      | O => (true, rc, [])
      | S room =>
          let byte := u8 (cache rc + u8 (Z.shiftr (low rc) 32)) in
          let rc := set_cache (set_out_total rc (u64 (out_total rc + 1))) (cache_size rc - 1) 0xFF in
          let '(full, rc, out) := shift_low_loop n room rc in
          (full, rc, byte :: out)
      end
  end.

Definition low_is_settled (l : Z) : bool := (u32 l <? 0xFF000000) || negb (u32 (Z.shiftr l 32) =? 0).

Definition shift_out (rc : lzma_range_encoder) : lzma_range_encoder :=
  set_low (set_cache rc (u64 (cache_size rc + 1)) (cache rc)) (Z.shiftl (Z.land (low rc) 0x00FFFFFF) RC_SHIFT_BITS).

Definition rc_shift_low (room : nat) (rc : lzma_range_encoder) : bool * lzma_range_encoder * bytes :=
  if low_is_settled (low rc) then
    let '(full, rc, out) := shift_low_loop (Z.to_nat (cache_size rc)) room rc in
    if full then (true, rc, out)
    else (false, shift_out (set_cache rc (cache_size rc) (Z.land (Z.shiftr (low rc) 24) 0xFF)), out)
  else (false, shift_out rc, []).

(** Normalization. *)
Definition rc_normalize_enc (room : nat) (rc : lzma_range_encoder) : bool * lzma_range_encoder * bytes :=
  if range rc <? RC_TOP_VALUE then
    let '(full, rc, out) := rc_shift_low room rc in
    if full then (true, rc, out) else (false, set_range rc (u32 (Z.shiftl (range rc) RC_SHIFT_BITS)), out)
  else (false, rc, []).

(** The four kinds of bits. *)
Definition encode_bit (P : probs) (rc : lzma_range_encoder) (s : rc_symbol) : probs * lzma_range_encoder :=
  match s with
  | RC_BIT p false =>
      (update_prob P p false, set_range rc (u32 (Z.shiftr (range rc) RC_BIT_MODEL_TOTAL_BITS * prob_at P p)))
  | RC_BIT p true =>
      let bound := u32 (prob_at P p * Z.shiftr (range rc) RC_BIT_MODEL_TOTAL_BITS) in
      (update_prob P p true, set_range (set_low rc (u64 (low rc + bound))) (u32 (range rc - bound)))
  | RC_DIRECT false => (P, set_range rc (Z.shiftr (range rc) 1))
  | RC_DIRECT true =>
      let r := Z.shiftr (range rc) 1 in
      (P, set_low (set_range rc r) (u64 (low rc + r)))
  | RC_FLUSH => (P, rc)
  end.

(** The loop of [case RC_FLUSH]: one call of [rc_shift_low] per remaining symbol. *)
Fixpoint flush_loop (todo : list rc_symbol) (room : nat) (rc : lzma_range_encoder) : bool * lzma_range_encoder * bytes :=
  match todo with
  | [] => (false, rc, [])
  | _ :: todo =>
      let '(full, rc, out) := rc_shift_low room rc in
      if full then (true, rc, out)
      else
        let '(full, rc, out') := flush_loop todo (room - length out) (set_pos rc (S (pos rc))) in
        (full, rc, out ++ out')
  end.

(** [rc_encode]; [todo] holds the symbols from [pos] on. *)
Fixpoint rc_encode_loop (todo : list rc_symbol) (room : nat) (P : probs) (rc : lzma_range_encoder) :
  bool * probs * lzma_range_encoder * bytes :=
  match todo with
  | [] => (false, P, mk_encoder (low rc) (cache_size rc) (range rc) (cache rc) (out_total rc) [] 0, [])
  | s :: todo' =>
      let '(full, rc, out) := rc_normalize_enc room rc in
      if full then (true, P, rc, out)
      else
        match s with
        | RC_FLUSH =>
            let '(full, rc, out') := flush_loop todo (room - length out) (set_range rc UINT32_MAX) in
            if full then (true, P, rc, out ++ out') else (false, P, rc_reset, out ++ out')
        | _ =>
            let '(P, rc) := encode_bit P rc s in
            let '(full, P, rc, out') := rc_encode_loop todo' (room - length out) P (set_pos rc (S (pos rc))) in
            (full, P, rc, out ++ out')
        end
  end.

Definition rc_encode (room : nat) (P : probs) (rc : lzma_range_encoder) : bool * probs * lzma_range_encoder * bytes :=
  rc_encode_loop (drop (pos rc) (symbols rc)) room P rc.

(** *** The size of the output, ahead of time

    [rc_encode_dummy] runs on copies of [low], [cache_size], [range], [cache] and
    [out_total] ([out_pos]) and of [pos], and does not change the probabilities.  [out_limit]
    is the size that the whole output may have. *)

Fixpoint shift_low_loop_dummy (n : nat) (out_limit : Z) (rc : lzma_range_encoder) : bool * lzma_range_encoder :=
  match n with
  | O => (false, rc)
  | S n =>
      if out_total rc =? out_limit then (true, rc)
      else
        shift_low_loop_dummy n out_limit (set_cache (set_out_total rc (u64 (out_total rc + 1))) (cache_size rc - 1) 0xFF)
  end.

Definition rc_shift_low_dummy (out_limit : Z) (rc : lzma_range_encoder) : bool * lzma_range_encoder :=
  if low_is_settled (low rc) then
    let '(full, rc) := shift_low_loop_dummy (Z.to_nat (cache_size rc)) out_limit rc in
    if full then (true, rc)
    else (false, shift_out (set_cache rc (cache_size rc) (Z.land (Z.shiftr (low rc) 24) 0xFF)))
  else (false, shift_out rc).

Fixpoint flush_loop_dummy (n : nat) (out_limit : Z) (rc : lzma_range_encoder) : bool :=
  match n with
  | O => false
  | S n =>
      let '(full, rc) := rc_shift_low_dummy out_limit rc in
      if full then true else flush_loop_dummy n out_limit rc
  end.

Fixpoint encode_loop_dummy (todo : list rc_symbol) (out_limit : Z) (P : probs) (rc : lzma_range_encoder) : bool :=
  let '(full, rc) :=
    if range rc <? RC_TOP_VALUE then
      let '(full, rc) := rc_shift_low_dummy out_limit rc in
      if full then (true, rc) else (false, set_range rc (u32 (Z.shiftl (range rc) RC_SHIFT_BITS)))
    else (false, rc) in
  if full then true
  else
    match todo with
    | [] => flush_loop_dummy 5 out_limit rc
    | s :: todo =>
        let rc := (encode_bit P rc s).2 in
        encode_loop_dummy todo out_limit P (set_pos rc (S (pos rc)))
    end.

Definition rc_encode_dummy (P : probs) (rc : lzma_range_encoder) (out_limit : Z) : bool :=
  encode_loop_dummy (drop (pos rc) (symbols rc)) out_limit P rc.

Definition rc_pending (rc : lzma_range_encoder) : Z := u64 (cache_size rc + 5 - 1).

(** ** Decoder *)

Record lzma_range_decoder := mk_decoder {
  drange : Z;
  code : Z;
  init_bytes_left : nat;
}.

Definition rc_reset_decoder : lzma_range_decoder := mk_decoder UINT32_MAX 0 5.

Definition rc_is_finished (rc : lzma_range_decoder) : bool := code rc =? 0.

(** [(code << 8) | byte] *)
Definition push_byte (code byte : Z) : Z := Z.lor (u32 (Z.shiftl code RC_SHIFT_BITS)) byte.

(** The functions get the input that is left and return what they leave. *)
Fixpoint read_init_loop (n : nat) (rc : lzma_range_decoder) (input : bytes) : lzma_ret * lzma_range_decoder * bytes :=
  match n with
  | O => (LZMA_STREAM_END, rc, input)
  | S n =>
      match input with
      | [] => (LZMA_OK, rc, input)
      | b :: rest =>
          if (init_bytes_left rc =? 5)%nat && negb (b =? 0) then (LZMA_DATA_ERROR, rc, input)
          else read_init_loop n (mk_decoder (drange rc) (push_byte (code rc) b) (init_bytes_left rc - 1)) rest
      end
  end.

Definition rc_read_init (rc : lzma_range_decoder) (input : bytes) : lzma_ret * lzma_range_decoder * bytes :=
  read_init_loop (init_bytes_left rc) rc input.

(** [None]: there is no more input; nothing has changed. *)
Definition rc_normalize_safe (rc : lzma_range_decoder) (input : bytes) : option (lzma_range_decoder * bytes) :=
  if drange rc <? RC_TOP_VALUE then
    match input with
    | [] => None
    | b :: rest =>
        Some (mk_decoder (u32 (Z.shiftl (drange rc) RC_SHIFT_BITS)) (push_byte (code rc) b) (init_bytes_left rc), rest)
    end
  else Some (rc, input).

(** [rc_if_0_safe] with [rc_update_0] and [rc_update_1]: the decoded bit. *)
Definition rc_bit_safe (P : probs) (p : ptr) (rc : lzma_range_decoder) (input : bytes) :
  option (bool * probs * lzma_range_decoder * bytes) :=
  match rc_normalize_safe rc input with
  | None => None
  | Some (rc, input) =>
      let bound := u32 (Z.shiftr (drange rc) RC_BIT_MODEL_TOTAL_BITS * prob_at P p) in
      if code rc <? bound then
        Some (false, update_prob P p false, mk_decoder bound (code rc) (init_bytes_left rc), input)
      else
        Some (true, update_prob P p true,
              mk_decoder (u32 (drange rc - bound)) (u32 (code rc - bound)) (init_bytes_left rc), input)
  end.

(** One round of [rc_direct_safe]. *)
Definition rc_direct_safe (dest : Z) (rc : lzma_range_decoder) (input : bytes) :
  option (Z * lzma_range_decoder * bytes) :=
  match rc_normalize_safe rc input with
  | None => None
  | Some (rc, input) =>
      let r := Z.shiftr (drange rc) 1 in
      let c := u32 (code rc - r) in
      let bound := u32 (0 - Z.shiftr c 31) in
      Some (u32 (u32 (Z.shiftl dest 1) + u32 (bound + 1)), mk_decoder r (u32 (c + Z.land r bound)) (init_bytes_left rc), input)
  end.

(** One round of [rc_direct]. *)
Definition rc_direct_fast (dest : Z) (rc : lzma_range_decoder) (input : bytes) :
  option (Z * lzma_range_decoder * bytes) :=
  let dest := u32 (u32 (Z.shiftl dest 1) + 1) in
  match rc_normalize_safe rc input with
  | None => None
  | Some (rc, input) =>
      let r := Z.shiftr (drange rc) 1 in
      let c := u32 (code rc - r) in
      let bound := u32 (0 - Z.shiftr c 31) in
      Some (u32 (dest + bound), mk_decoder r (u32 (c + Z.land r bound)) (init_bytes_left rc), input)
  end.

(** [rc_bit]: [symbol] collects the bits. *)
Definition push_bit (symbol : Z) (bit : bool) : Z :=
  if bit then u32 (u32 (Z.shiftl symbol 1) + 1) else u32 (Z.shiftl symbol 1).

(** [rc_bittree3], [rc_bittree6], [rc_bittree8] before [final_add]: [n] bits. *)
Fixpoint rc_bittree_decode (tree : Z -> ptr) (n : nat) (symbol : Z) (P : probs) (rc : lzma_range_decoder) (input : bytes) :
  option (Z * probs * lzma_range_decoder * bytes) :=
  match n with
  | O => Some (symbol, P, rc, input)
  | S n =>
      match rc_bit_safe P (tree symbol) rc input with
      | None => None
      | Some (bit, P, rc, input) => rc_bittree_decode tree n (push_bit symbol bit) P rc input
      end
  end.

(** ** Numbers

    The bytes that were written, the pending bytes and [low] are one number
    [num]; the symbols that follow select a number of the interval of length
    [range] that starts there. *)

Definition be_val (l : bytes) : Z := fold_left (fun a b => a * 256 + b) l 0.

Lemma fold_be l a : fold_left (fun a b => a * 256 + b) l a = a * 256 ^ zlen l + be_val l.
Proof.
  unfold be_val. revert a. induction l as [|b l IH]; intros a; cbn [fold_left length]; [lia|].
  rewrite IH, (IH (0 * 256 + b)). replace (Z.of_nat (Datatypes.S (length l))) with (zlen l + 1) by lia. rewrite Z.pow_add_r by lia. lia.
Qed.

Lemma be_val_app a b : be_val (a ++ b) = be_val a * 256 ^ zlen b + be_val b.
Proof. unfold be_val at 1. rewrite fold_left_app. apply fold_be. Qed.

Lemma be_val_cons b l : be_val (b :: l) = b * 256 ^ zlen l + be_val l.
Proof. change (b :: l) with ([b] ++ l). rewrite be_val_app. reflexivity. Qed.

Lemma be_val_bound l : bytes_ok l -> 0 <= be_val l < 256 ^ zlen l.
Proof.
  induction 1 as [|b l Hb Hl IH]; [cbn; lia|]. rewrite be_val_cons. cbn [length].
  replace (Z.of_nat (Datatypes.S (length l))) with (zlen l + 1) by lia. rewrite Z.pow_add_r by lia. unfold is_byte in Hb. nia.
Qed.

Lemma be_val_replicate n : be_val (replicate n 255) = 256 ^ Z.of_nat n - 1 /\ be_val (replicate n 0) = 0.
Proof.
  induction n as [|n [IH1 IH2]]; [split; reflexivity|]. cbn [replicate]. rewrite !be_val_cons, IH1, IH2, !length_replicate.
  replace (Z.of_nat (Datatypes.S n)) with (Z.of_nat n + 1) by lia. rewrite Z.pow_add_r by lia. lia.
Qed.

Definition pend (rc : lzma_range_encoder) : Z := (cache rc + 1) * 256 ^ (cache_size rc - 1) - 1.

Definition num (rc : lzma_range_encoder) (W : bytes) : Z :=
  (be_val W * 256 ^ cache_size rc + pend rc) * 4294967296 + low rc.

(** The encoder can hold every number of the interval: a carry never leaves the
    pending bytes. *)
Record encoder_ok (r : Z) (rc : lzma_range_encoder) : Prop := {
  ok_cache_size : 1 <= cache_size rc;
  ok_cache : is_byte (cache rc);
  ok_low : 0 <= low rc;
  ok_range : 1 <= r;
  ok_carry : low rc + r <= 8589934592;
  ok_pend : pend rc * 4294967296 + low rc + r <= 256 ^ cache_size rc * 4294967296;
}.

Lemma encoder_ok_mono r r' rc : encoder_ok r rc -> 1 <= r' <= r -> encoder_ok r' rc.
Proof. intros [] ?. constructor; try assumption; lia. Qed.

Lemma encoder_ok_reset : encoder_ok UINT32_MAX rc_reset.
Proof. constructor; [| unfold is_byte; split | | | |]; vm_compute; congruence. Qed.

(** *** Shifting a byte out of [low] *)

Lemma shift_low_loop_shape n : forall room rc rc' out, shift_low_loop n room rc = (false, rc', out) -> cache rc = 255 ->
  out = replicate n (u8 (255 + u8 (Z.shiftr (low rc) 32))) /\
  exists t, rc' = mk_encoder (low rc) (cache_size rc - Z.of_nat n) (range rc) 255 t (symbols rc) (pos rc).
Proof.
  induction n as [|n IH]; intros room rc rc' out; cbn [shift_low_loop].
  - intros [= <- <-] Hc. split; [reflexivity|]. exists (out_total rc). destruct rc; cbn in *. rewrite Hc. f_equal; lia.
  - destruct room as [|room]; [discriminate|]. destruct (shift_low_loop _ _ _) as [[f rc1] o1] eqn:E. intros [= -> <- <-] Hc.
    apply IH in E as (-> & t & ->); [|reflexivity]. split; [cbn [replicate]; now rewrite Hc|]. exists t. cbn. f_equal; lia.
Qed.

(** What [rc_shift_low] writes: the pending bytes, with the carry. *)
Lemma shift_low_loop_val room rc rc' out : encoder_ok 1 rc ->
  shift_low_loop (Z.to_nat (cache_size rc)) room rc = (false, rc', out) ->
  be_val out = pend rc + low rc / 4294967296 /\ zlen out = cache_size rc /\ bytes_ok out /\
  exists t, rc' = mk_encoder (low rc) 0 (range rc) 255 t (symbols rc) (pos rc).
Proof.
  intros [Hs Hc Hl _ Hcar Hp]. destruct (Z.to_nat (cache_size rc)) as [|n] eqn:En; [lia|]. cbn [shift_low_loop].
  destruct room as [|room]; [discriminate|]. destruct (shift_low_loop _ _ _) as [[f rc1] o1] eqn:E. intros [= -> <- <-].
  apply shift_low_loop_shape in E as (-> & t & ->); [|reflexivity]. cbn [low set_cache set_out_total].
  rewrite Z.shiftr_div_pow2 by lia. change (2 ^ 32) with 4294967296.
  assert (cache_size rc = Z.of_nat n + 1) as Hn by lia. unfold pend in *. rewrite Hn in *.
  replace (Z.of_nat n + 1 - 1) with (Z.of_nat n) in * by lia. rewrite Z.pow_add_r in Hp by lia. change (256 ^ 1) with 256 in Hp.
  pose proof (Z.pow_pos_nonneg 256 (Z.of_nat n) ltac:(lia) ltac:(lia)) as Hpow. unfold is_byte in Hc.
  assert (low rc / 4294967296 = 0 \/ low rc / 4294967296 = 1) as Hcase by (Z.div_mod_to_equations; lia).
  split_and!; [|cbn [length]; rewrite length_replicate; lia| |exists t; cbn; f_equal; lia].
  - rewrite be_val_cons, length_replicate. destruct (be_val_replicate n) as [H255 H0].
    destruct Hcase as [Hd|Hd]; rewrite Hd.
    + change (u8 (255 + u8 0)) with 255. rewrite H255. change (u8 0) with 0. rewrite Z.add_0_r, u8_small by assumption. lia.
    + change (u8 (255 + u8 1)) with 0. rewrite H0. change (u8 1) with 1. rewrite u8_small; [lia|]. unfold is_byte.
      assert (low rc >= 4294967296) by (Z.div_mod_to_equations; lia). nia.
  - constructor; [apply is_byte_u8|]. apply Forall_replicate, is_byte_u8.
Qed.

Lemma low_settled_spec l : 0 <= l < 8589934592 ->
  low_is_settled l = negb ((4278190080 <=? l) && (l <? 4294967296)).
Proof.
  intros Hl. unfold low_is_settled, u32. rewrite Z.shiftr_div_pow2 by lia. change (2 ^ 32) with 4294967296.
  destruct (Z.ltb_spec l 4294967296).
  - rewrite (Z.div_small l), (Z.mod_small l) by lia. change (0 mod 4294967296 =? 0) with true. rewrite orb_false_r, andb_true_r.
    now rewrite Z.ltb_antisym.
  - rewrite (Z.mod_small (l / _)) by (Z.div_mod_to_equations; lia). rewrite (proj2 (Z.eqb_neq (l / _) 0)) by (Z.div_mod_to_equations; lia).
    now rewrite orb_true_r, andb_false_r.
Qed.

Lemma shift_out_low l : 0 <= l -> Z.shiftl (Z.land l 0x00FFFFFF) RC_SHIFT_BITS = l mod 16777216 * 256.
Proof. intros. rewrite Z.shiftl_mul_pow2 by (unfold RC_SHIFT_BITS; lia). change 0x00FFFFFF with (2 ^ 24 - 1). now rewrite land_low. Qed.

(** [rc_shift_low] multiplies the number by 256. *)
Lemma rc_shift_low_spec r room rc rc' out W :
  encoder_ok r rc -> r <= 16777216 -> cache_size rc + 1 < 18446744073709551616 -> rc_shift_low room rc = (false, rc', out) ->
  encoder_ok (r * 256) rc' /\ num rc' (W ++ out) = num rc W * 256 /\ zlen out + cache_size rc' = cache_size rc + 1 /\
  bytes_ok out /\ range rc' = range rc /\ symbols rc' = symbols rc /\ pos rc' = pos rc.
Proof.
  intros Hok Hr Hsz. pose proof Hok as [Hs Hc Hl Hr1 Hcar Hp]. unfold rc_shift_low. rewrite low_settled_spec by lia.
  destruct (_ && _) eqn:Eset; cbn [negb].
  - apply andb_true_iff in Eset as [E1 E2]. apply Z.leb_le in E1. apply Z.ltb_lt in E2. intros [= <- <-].
    unfold num, pend in *. cbn [cache_size cache low range symbols pos shift_out set_low set_cache].
    rewrite shift_out_low, u64_small, app_nil_r by (unfold is_u64; lia). cbn [length].
    replace (cache_size rc + 1 - 1) with (cache_size rc - 1 + 1) by lia. rewrite !Z.pow_add_r by lia.
    replace (256 ^ cache_size rc) with (256 ^ (cache_size rc - 1) * 256) in *
      by (replace (cache_size rc) with (cache_size rc - 1 + 1) at 2 by lia; now rewrite Z.pow_add_r by lia).
    change (256 ^ 1) with 256. assert (low rc mod 16777216 = low rc - 4278190080) as -> by (Z.div_mod_to_equations; lia).
    split_and!; try lia; try reflexivity; [|constructor]. constructor; unfold pend; cbn [cache_size cache low range shift_out set_low set_cache];
      rewrite ?shift_out_low, ?u64_small by (unfold is_u64; lia); try assumption; try (Z.div_mod_to_equations; lia).
    replace (cache_size rc + 1 - 1) with (cache_size rc - 1 + 1) by lia. replace (cache_size rc + 1) with (cache_size rc - 1 + 1 + 1) by lia.
    rewrite !Z.pow_add_r by lia. change (256 ^ 1) with 256. Z.div_mod_to_equations; lia.
  - destruct (shift_low_loop _ _ _) as [[f rc1] o1] eqn:E. destruct f; [discriminate|]. intros [= <- <-].
    apply shift_low_loop_val in E as (Hv & Hlen & Hby & t & ->); [|apply (encoder_ok_mono r); [assumption|lia]].
    unfold num. rewrite be_val_app, Hv, Hlen.
    cbn [cache_size cache low range symbols pos shift_out set_low set_cache]. rewrite shift_out_low by assumption.
    rewrite Z.shiftr_div_pow2 by lia. change 0xFF with (2 ^ 8 - 1). rewrite land_low by lia. change (2 ^ 24) with 16777216. change (2 ^ 8) with 256.
    unfold pend. cbn [cache_size cache shift_out set_low set_cache]. change (u64 (0 + 1)) with 1. change (256 ^ 1) with 256. change (256 ^ (1 - 1)) with 1.
    set (l := low rc) in *. set (q := l / 16777216) in *.
    assert (l mod 16777216 = l - 16777216 * q) by (unfold q; Z.div_mod_to_equations; lia).
    assert (l / 4294967296 = q / 256) as Hq by (unfold q; rewrite Z.div_div by lia; reflexivity).
    assert (q mod 256 = q - 256 * (q / 256)) by (Z.div_mod_to_equations; lia).
    split_and!; try lia; try reflexivity; try assumption.
    constructor; unfold pend; cbn [cache_size cache low range shift_out set_low set_cache]; rewrite ?shift_out_low by assumption;
      try rewrite Z.shiftr_div_pow2 by lia; change 0xFF with (2 ^ 8 - 1); rewrite ?land_low by lia; change (2 ^ 24) with 16777216; change (2 ^ 8) with 256;
      change (u64 (0 + 1)) with 1; fold l; fold q; try lia.
    + unfold is_byte. Z.div_mod_to_equations; lia.
    + Z.div_mod_to_equations; lia.
    + Z.div_mod_to_equations; lia.
    + change (256 ^ 1) with 256. change (256 ^ (1 - 1)) with 1. apply andb_false_iff in Eset. rewrite Z.leb_gt, Z.ltb_ge in Eset.
      Z.div_mod_to_equations; lia.
Qed.

(** ** The interval of the final output *)

(** [F], all of the output, lies in the interval of length [r] at [num]. *)
Definition within (F : bytes) (r : Z) (rc : lzma_range_encoder) (W : bytes) : Prop :=
  exists k : nat, zlen F = zlen W + cache_size rc + 4 + Z.of_nat k /\
    num rc W * 256 ^ Z.of_nat k <= be_val F < (num rc W + r) * 256 ^ Z.of_nat k.

Lemma within_shift F r rc W rc' W' :
  num rc' W' = num rc W * 256 -> zlen W' + cache_size rc' = zlen W + cache_size rc + 1 ->
  within F (r * 256) rc' W' -> within F r rc W.
Proof.
  intros Hn Hl (k & Hk & Hv). exists (Datatypes.S k). rewrite Hn in Hv. split; [lia|].
  replace (Z.of_nat (Datatypes.S k)) with (Z.of_nat k + 1) by lia. rewrite Z.pow_add_r by lia. lia.
Qed.

Lemma within_narrow F r r' rc rc' W d :
  num rc' W = num rc W + d -> cache_size rc' = cache_size rc -> 0 <= d -> d + r' <= r ->
  within F r' rc' W -> within F r rc W.
Proof.
  intros Hn Hl Hd Hr (k & Hk & Hv). exists k. rewrite Hn in Hv. split; [lia|].
  pose proof (Z.pow_pos_nonneg 256 (Z.of_nat k) ltac:(lia) ltac:(lia)). nia.
Qed.

(** *** The steps of the encoder *)

(** The encoder between two symbols. *)
Record encoder_inv (rc : lzma_range_encoder) : Prop := {
  inv_ok : encoder_ok (range rc) rc;
  inv_range : 65536 <= range rc < 4294967296;
}.

Lemma encoder_inv_reset : encoder_inv rc_reset.
Proof. split; [apply encoder_ok_reset|vm_compute; split; congruence]. Qed.

Lemma RC_TOP : RC_TOP_VALUE = 16777216.
Proof. reflexivity. Qed.

Lemma rc_normalize_spec room rc rc' out W : encoder_inv rc -> cache_size rc + 1 < 18446744073709551616 ->
  rc_normalize_enc room rc = (false, rc', out) ->
  encoder_ok (range rc') rc' /\ 16777216 <= range rc' < 4294967296 /\ bytes_ok out /\
  zlen out + cache_size rc' <= cache_size rc + 1 /\ 
  (if range rc <? RC_TOP_VALUE
   then range rc' = range rc * 256 /\ num rc' (W ++ out) = num rc W * 256 /\ zlen out + cache_size rc' = cache_size rc + 1
   else rc' = rc /\ out = []).
Proof.
  intros [Hok Hr] Hc. unfold rc_normalize_enc. rewrite RC_TOP. destruct (Z.ltb_spec (range rc) 16777216) as [Hlt|Hge].
  - destruct (rc_shift_low room rc) as [[f rc1] o1] eqn:E. destruct f; [discriminate|]. intros [= <- <-].
    eapply (rc_shift_low_spec (range rc)) in E as (Hok1 & Hn & Hl & Hb & Hr1 & _); [|assumption..|lia|assumption].
    cbn [range set_range cache_size]. rewrite Hr1, Z.shiftl_mul_pow2 by (unfold RC_SHIFT_BITS; lia).
    change (2 ^ RC_SHIFT_BITS) with 256. rewrite u32_small by (unfold is_u32; lia).
    split_and!; try lia; try assumption; [|exact Hn]. destruct Hok1. constructor; assumption.
  - intros [= <- <-]. split_and!; try assumption; try reflexivity; try lia; [constructor|cbn [length]; lia].
Qed.

Lemma rc_normalize_within F room rc rc' out W : encoder_inv rc -> cache_size rc + 1 < 18446744073709551616 ->
  rc_normalize_enc room rc = (false, rc', out) -> within F (range rc') rc' (W ++ out) -> within F (range rc) rc W.
Proof.
  intros Hi Hc E Hw. eapply (rc_normalize_spec _ _ _ _ W) in E as (_ & _ & _ & _ & Hd); [|assumption..].
  destruct (_ <? _).
  - destruct Hd as (Hr & Hn & Hl). rewrite Hr in Hw. eapply within_shift; [exact Hn| |exact Hw]. rewrite length_app. lia.
  - destruct Hd as [-> ->]. now rewrite app_nil_r in Hw.
Qed.

(** A probability stays away from 0 and from 1. *)
Definition prob_ok (x : Z) : Prop := 31 <= x <= 2017.

Lemma prob_update_ok x b : prob_ok x -> prob_ok (prob_update x b).
Proof.
  unfold prob_ok, prob_update, u16, u32, RC_BIT_MODEL_TOTAL, RC_MOVE_BITS. intros Hx.
  rewrite !Z.shiftr_div_pow2 by lia. change (2 ^ 5) with 32. change (Z.shiftl 1 RC_BIT_MODEL_TOTAL_BITS) with 2048.
  destruct b; Z.div_mod_to_equations; lia.
Qed.

(** How much is added to the lower end, and the new range. *)
Definition narrow (P : probs) (r : Z) (s : rc_symbol) : Z * Z :=
  match s with
  | RC_BIT p b => let bound := r / 2048 * prob_at P p in if b then (bound, r - bound) else (0, bound)
  | RC_DIRECT b => if b then (r / 2, r / 2) else (0, r / 2)
  | RC_FLUSH => (0, r)
  end.

Definition symbol_ok (P : probs) (s : rc_symbol) : Prop :=
  match s with RC_BIT p _ => prob_ok (prob_at P p) | RC_DIRECT _ => True | RC_FLUSH => False end.

Lemma narrow_bounds P r s : 16777216 <= r < 4294967296 -> symbol_ok P s ->
  let (d, r') := narrow P r s in 0 <= d /\ 65536 <= r' /\ d + r' <= r.
Proof.
  intros Hr Hs. destruct s as [p b|b|]; cbn in *; [|destruct b; Z.div_mod_to_equations; lia|contradiction].
  unfold prob_ok in Hs. assert (8192 <= r / 2048 < 2097152) by (Z.div_mod_to_equations; lia).
  assert (r / 2048 * 2048 <= r) by (Z.div_mod_to_equations; lia). destruct b; nia.
Qed.

Definition store_after (P : probs) (s : rc_symbol) : probs :=
  match s with RC_BIT p b => update_prob P p b | _ => P end.

Lemma encode_bit_spec P rc s P' rc' W : encoder_ok (range rc) rc -> 16777216 <= range rc < 4294967296 -> symbol_ok P s ->
  encode_bit P rc s = (P', rc') ->
  P' = store_after P s /\ range rc' = (narrow P (range rc) s).2 /\ num rc' W = num rc W + (narrow P (range rc) s).1 /\
  cache_size rc' = cache_size rc /\ encoder_inv rc'.
Proof.
  intros Hok Hr Hs. pose proof (narrow_bounds P (range rc) s Hr Hs) as Hb. pose proof Hok as [Hcs Hc Hl Hr1 Hcar Hp].
  assert (forall d r', 0 <= d -> 65536 <= r' -> d + r' <= range rc ->
    let rc' := set_range (set_low rc (low rc + d)) r' in
    range rc' = r' /\ num rc' W = num rc W + d /\ cache_size rc' = cache_size rc /\ encoder_inv rc') as Hgen.
  { intros d r' Hd Hr' Hdr. cbn. split_and!; [reflexivity|unfold num, pend; cbn; lia|reflexivity|].
    split; [|cbn; lia]. constructor; unfold pend in *; cbn in *; try assumption; lia. }
  destruct s as [p b|b|]; cbn [narrow encode_bit store_after] in *; [| |contradiction].
  - unfold RC_BIT_MODEL_TOTAL_BITS. rewrite Z.shiftr_div_pow2 by lia. change (2 ^ 11) with 2048.
    set (bound := range rc / 2048 * prob_at P p) in *. destruct b; cbn [fst snd] in *; intros [= <- <-].
    + rewrite (Z.mul_comm (prob_at P p)). fold bound. rewrite (u32_small bound) by (unfold is_u32; lia).
      rewrite u64_small, (u32_small (range rc - bound)) by (unfold is_u64, is_u32; lia).
      split; [reflexivity|]. apply Hgen; lia.
    + rewrite u32_small by (unfold is_u32; lia). split; [reflexivity|].
      specialize (Hgen 0 bound ltac:(lia) ltac:(lia) ltac:(lia)). cbn in Hgen. rewrite Z.add_0_r in Hgen.
      destruct rc; exact Hgen.
  - rewrite Z.shiftr_div_pow2 by lia. change (2 ^ 1) with 2. destruct b; cbn [fst snd] in *; intros [= <- <-].
    + rewrite u64_small by (unfold is_u64; lia). split; [reflexivity|].
      specialize (Hgen (range rc / 2) (range rc / 2) ltac:(lia) ltac:(lia) ltac:(lia)). destruct rc; exact Hgen.
    + split; [reflexivity|].
      specialize (Hgen 0 (range rc / 2) ltac:(lia) ltac:(lia) ltac:(lia)). cbn in Hgen. rewrite Z.add_0_r in Hgen.
      destruct rc; exact Hgen.
Qed.

(** *** Flushing *)

Lemma rc_shift_low_low room rc rc' out : 0 <= low rc -> 1 <= cache_size rc -> rc_shift_low room rc = (false, rc', out) ->
  low rc' = low rc mod 16777216 * 256 /\ (low rc = 0 -> cache rc' = 0 /\ cache_size rc' = 1).
Proof.
  intros Hl Hcs. unfold rc_shift_low. destruct (low_is_settled _) eqn:Es.
  - destruct (shift_low_loop _ _ _) as [[f rc1] o1] eqn:E. destruct f; [discriminate|]. intros [= <- <-].
    assert (low rc1 = low rc /\ cache_size rc1 = cache_size rc - Z.of_nat (Z.to_nat (cache_size rc))) as [Hl1 Hc1].
    { destruct (Z.to_nat (cache_size rc)) as [|n] eqn:En; cbn [shift_low_loop] in E; [injection E as <- <-; lia|].
      destruct room; [discriminate|]. destruct (shift_low_loop n _ _) as [[f rc2] o2] eqn:E2. injection E as -> <- <-.
      apply shift_low_loop_shape in E2 as (_ & t & ->); [|reflexivity]. cbn. lia. }
    cbn. rewrite Hl1. split; [now apply shift_out_low|]. intros ->. split; [reflexivity|].
    rewrite Hc1. now replace (cache_size rc - _) with 0 by lia.
  - intros [= <- <-]. cbn. split; [now apply shift_out_low|]. intros H0. rewrite H0 in Es. discriminate.
Qed.

Lemma flush_loop_step s todo room rc rc' out : flush_loop (s :: todo) room rc = (false, rc', out) ->
  exists rc1 o1 o2, rc_shift_low room rc = (false, rc1, o1) /\ out = o1 ++ o2 /\
    flush_loop todo (room - length o1) (set_pos rc1 (Datatypes.S (pos rc1))) = (false, rc', o2).
Proof.
  cbn [flush_loop]. destruct (rc_shift_low room rc) as [[f rc1] o1] eqn:E. destruct f; [discriminate|].
  destruct (flush_loop _ _ _) as [[f rc2] o2] eqn:E2. intros [= -> <- <-]. now exists rc1, o1, o2.
Qed.

(** One call, with what it does to [low]. *)
Lemma flush_step_spec room rc rc' out W n :
  encoder_ok 1 rc -> cache_size rc + 1 < 18446744073709551616 -> rc_shift_low room rc = (false, rc', out) ->
  let rc' := set_pos rc' n in
  encoder_ok 1 rc' /\ num rc' (W ++ out) = num rc W * 256 /\ zlen out + cache_size rc' = cache_size rc + 1 /\ bytes_ok out /\
  low rc' = low rc mod 16777216 * 256 /\ (low rc = 0 -> cache rc' = 0 /\ cache_size rc' = 1).
Proof.
  intros Hok Hc E. pose proof (rc_shift_low_low _ _ _ _ (ok_low _ _ Hok) (ok_cache_size _ _ Hok) E) as [H1 H2].
  apply (rc_shift_low_spec 1 _ _ _ _ W) in E as (Hok' & Hn & Hl & Hb & _); [|assumption|lia|assumption].
  split_and!; try assumption. apply (encoder_ok_mono (1 * 256) 1) in Hok'; [|lia].
  destruct Hok'. constructor; assumption.
Qed.

(** The five bytes of a flush: everything is written, and the number with it. *)
Lemma flush_loop_spec room rc rc' out W :
  encoder_ok 1 rc -> cache_size rc + 5 < 18446744073709551616 -> flush_loop flush_symbols room rc = (false, rc', out) ->
  be_val (W ++ out) = num rc W /\ zlen out = cache_size rc + 4 /\ bytes_ok out.
Proof.
  intros H0 Hc E.
  apply flush_loop_step in E as (r1 & o1 & p1 & E1 & -> & E). eapply (flush_step_spec _ _ _ _ W) in E1 as (H1 & N1 & L1 & B1 & Z1 & _); [|assumption|lia].
  apply flush_loop_step in E as (r2 & o2 & p2 & E2 & -> & E). eapply (flush_step_spec _ _ _ _ (W ++ o1)) in E2 as (H2 & N2 & L2 & B2 & Z2 & _); [|exact H1|lia].
  apply flush_loop_step in E as (r3 & o3 & p3 & E3 & -> & E). eapply (flush_step_spec _ _ _ _ ((W ++ o1) ++ o2)) in E3 as (H3 & N3 & L3 & B3 & Z3 & _); [|exact H2|lia].
  apply flush_loop_step in E as (r4 & o4 & p4 & E4 & -> & E). eapply (flush_step_spec _ _ _ _ (((W ++ o1) ++ o2) ++ o3)) in E4 as (H4 & N4 & L4 & B4 & Z4 & _); [|exact H3|lia].
  apply flush_loop_step in E as (r5 & o5 & p5 & E5 & -> & E). eapply (flush_step_spec _ _ _ _ ((((W ++ o1) ++ o2) ++ o3) ++ o4)) in E5 as (H5 & N5 & L5 & B5 & Z5 & C5); [|exact H4|lia].
  injection E as <- <-. rewrite app_nil_r.
  assert (low (set_pos r4 (Datatypes.S (pos r4))) = 0) as Hlow.
  { rewrite Z4, Z3, Z2, Z1. pose proof (ok_low _ _ H0). Z.div_mod_to_equations. lia. }
  destruct (C5 Hlow) as [Hca Hcs]. rewrite Hlow in Z5. change (0 mod 16777216 * 256) with 0 in Z5.
  assert (Hfin : num (set_pos r5 (Datatypes.S (pos r5))) (((((W ++ o1) ++ o2) ++ o3) ++ o4) ++ o5) =
    be_val (((((W ++ o1) ++ o2) ++ o3) ++ o4) ++ o5) * 1099511627776).
  { unfold num, pend. rewrite Hca, Hcs, Z5. change (256 ^ 1) with 256. change (256 ^ (1 - 1)) with 1. lia. }
  rewrite Hfin in N5. rewrite <- !app_assoc in *. split_and!; [lia|rewrite !length_app; lia|].
  now repeat (apply Forall_app_2; [assumption|]).
Qed.

(** *** The encoder keeps its promise *)

Lemma loop_step s todo room P rc P' rc' out : s <> RC_FLUSH -> rc_encode_loop (s :: todo) room P rc = (false, P', rc', out) ->
  exists rc1 o1 P2 rc2 room' o2, rc_normalize_enc room rc = (false, rc1, o1) /\ encode_bit P rc1 s = (P2, rc2) /\
    rc_encode_loop todo room' P2 (set_pos rc2 (Datatypes.S (pos rc2))) = (false, P', rc', o2) /\ out = o1 ++ o2.
Proof.
  intros Hs. cbn [rc_encode_loop]. destruct (rc_normalize_enc room rc) as [[f rc1] o1] eqn:E. destruct f; [discriminate|].
  destruct s; [| |congruence]; destruct (encode_bit P rc1 _) as [P2 rc2] eqn:Ee;
    destruct (rc_encode_loop todo _ _ _) as [[[f P3] rc3] o3] eqn:El; intros [= -> <- <- <-]; eauto 12.
Qed.

Lemma loop_flush room P rc P' rc' out : rc_encode_loop flush_symbols room P rc = (false, P', rc', out) ->
  exists rc1 o1 room' rc2 o2, rc_normalize_enc room rc = (false, rc1, o1) /\
    flush_loop flush_symbols room' (set_range rc1 UINT32_MAX) = (false, rc2, o2) /\ P' = P /\ rc' = rc_reset /\ out = o1 ++ o2.
Proof.
  unfold flush_symbols. cbn [rc_encode_loop replicate]. destruct (rc_normalize_enc room rc) as [[f rc1] o1] eqn:E. destruct f; [discriminate|].
  destruct (flush_loop _ _ _) as [[f rc2] o2] eqn:E2. destruct f; intros [= <- <- <-]. eauto 12.
Qed.

Lemma symbol_ok_no_flush P s : symbol_ok P s -> s <> RC_FLUSH.
Proof. now intros H ->. Qed.

Lemma prob_at_update P p q b : prob_at (update_prob P p b) q = if bool_decide (p = q) then prob_update (prob_at P p) b else prob_at P q.
Proof.
  unfold update_prob. generalize (prob_update (prob_at P p) b). intros x. unfold prob_at. case_bool_decide as E.
  - subst q. now rewrite lookup_insert_eq.
  - now rewrite lookup_insert_ne.
Qed.

Lemma symbol_ok_after P s t : symbol_ok P s -> symbol_ok P t -> symbol_ok (store_after P s) t.
Proof.
  destruct s as [p b|b|]; cbn [store_after]; auto. destruct t as [q c|c|]; cbn; auto. intros Hp Hq. rewrite prob_at_update.
  case_bool_decide; [|assumption]. now apply prob_update_ok.
Qed.

Lemma symbols_ok_after P s todo : symbol_ok P s -> Forall (symbol_ok P) todo -> Forall (symbol_ok (store_after P s)) todo.
Proof. intros Hs Ht. eapply Forall_impl; [exact Ht|]. intros t. now apply symbol_ok_after. Qed.

(** Encoding [todo], with the flush at its end, completes [W] to [F]. *)
Definition encodes (F : bytes) (todo : list rc_symbol) (P : probs) (rc : lzma_range_encoder) (W : bytes) : Prop :=
  exists room P' rc' out, rc_encode_loop (todo ++ flush_symbols) room P rc = (false, P', rc', out) /\ F = W ++ out.

(** [cache_size] does not overflow. *)
Definition fits (rc : lzma_range_encoder) (todo : list rc_symbol) : Prop :=
  cache_size rc + zlen todo + 6 < 18446744073709551616.

Lemma encoder_inv_pos rc n : encoder_inv rc -> encoder_inv (set_pos rc n).
Proof. intros [[] ?]. split; [constructor|]; assumption. Qed.

(** The first symbol of [todo], seen from both ends: the interval that is left
    for the rest contains the output. *)
Lemma encodes_step F s todo P rc W : encoder_inv rc -> symbol_ok P s -> fits rc (s :: todo) -> encodes F (s :: todo) P rc W ->
  exists room rc1 o1 rc2, rc_normalize_enc room rc = (false, rc1, o1) /\
    encoder_ok (range rc1) rc1 /\ 16777216 <= range rc1 < 4294967296 /\
    range rc2 = (narrow P (range rc1) s).2 /\ num rc2 (W ++ o1) = num rc1 (W ++ o1) + (narrow P (range rc1) s).1 /\
    cache_size rc2 = cache_size rc1 /\ encoder_inv rc2 /\ fits rc2 todo /\ encodes F todo (store_after P s) rc2 (W ++ o1).
Proof.
  intros Hi Hs Hf (room & P' & rc' & out & E & ->). cbn [app] in E.
  apply loop_step in E as (rc1 & o1 & P2 & rc2 & room' & o2 & E1 & E2 & E3 & ->); [|now apply (symbol_ok_no_flush P)].
  unfold fits in *. cbn [length] in Hf. pose proof E1 as Hn. eapply (rc_normalize_spec _ _ _ _ W) in Hn as (Hok & Hr & _ & Hc & _); [|assumption|lia].
  eapply (encode_bit_spec _ _ _ _ _ (W ++ o1)) in E2 as (-> & Hr2 & Hn2 & Hc2 & Hi2); [|assumption..].
  exists room, rc1, o1, (set_pos rc2 (Datatypes.S (pos rc2))). split_and!; try assumption; try lia; [now apply encoder_inv_pos|cbn; lia|].
  exists room', P', rc', o2. split; [assumption|now rewrite app_assoc].
Qed.

Lemma encodes_flush F P rc W : encoder_inv rc -> fits rc [] -> encodes F [] P rc W ->
  exists room rc1 o1, rc_normalize_enc room rc = (false, rc1, o1) /\ encoder_ok (range rc1) rc1 /\ 16777216 <= range rc1 < 4294967296 /\
    be_val F = num rc1 (W ++ o1) /\ zlen F = zlen (W ++ o1) + cache_size rc1 + 4 /\
    (bytes_ok W -> bytes_ok F).
Proof.
  intros Hi Hf (room & P' & rc' & out & E & ->). apply loop_flush in E as (rc1 & o1 & room' & rc2 & o2 & E1 & E2 & -> & -> & ->).
  unfold fits in *. cbn [length] in Hf. pose proof E1 as Hn. eapply (rc_normalize_spec _ _ _ _ W) in Hn as (Hok & Hr & Hb & Hc & _); [|assumption|lia].
  eapply (flush_loop_spec _ _ _ _ (W ++ o1)) in E2 as (Hv & Hl & Hb2); [| |cbn; lia].
  2: { apply (encoder_ok_mono _ 1) in Hok; [|lia]. destruct Hok. constructor; assumption. }
  exists room, rc1, o1. rewrite app_assoc. cbn [cache_size set_range] in Hl.
  split_and!; try assumption; try lia; [rewrite !length_app in *; lia|]. intros HW. rewrite !Forall_app. auto.
Qed.

Lemma encodes_within todo : forall F P rc W, encoder_inv rc -> Forall (symbol_ok P) todo -> fits rc todo -> encodes F todo P rc W ->
  within F (range rc) rc W.
Proof.
  induction todo as [|s todo IH]; intros F P rc W Hi Hs Hf He.
  - apply encodes_flush in He as (room & rc1 & o1 & E & Hok & Hr & Hv & Hl & _); [|assumption..].
    eapply rc_normalize_within; [exact Hi|unfold fits in Hf; cbn in Hf; lia|exact E|]. exists 0%nat. rewrite Hv. split; lia.
  - apply Forall_cons in Hs as [Hs Htodo]. pose proof He as He'.
    apply encodes_step in He as (room & rc1 & o1 & rc2 & E & Hok & Hr & Hr2 & Hn2 & Hc2 & Hi2 & Hf2 & He); [|assumption..].
    eapply rc_normalize_within; [exact Hi|unfold fits in Hf; cbn [length] in Hf; lia|exact E|].
    apply IH in He; [|assumption|now apply symbols_ok_after|assumption].
    pose proof (narrow_bounds P (range rc1) s Hr Hs) as Hb. destruct (narrow P (range rc1) s) as [d r']. cbn [fst snd] in *.
    rewrite Hr2 in He. eapply within_narrow; [exact Hn2|exact Hc2| | |exact He]; lia.
Qed.

(** ** The decoder follows

    [code] is the distance of what was read of the output from the lower end of
    the interval. *)
Definition follows (F tail : bytes) (rc : lzma_range_encoder) (W : bytes) (d : lzma_range_decoder) (input : bytes) : Prop :=
  drange d = range rc /\ init_bytes_left d = 0%nat /\
  exists A B, F = A ++ B /\ input = B ++ tail /\ zlen A = zlen W + cache_size rc + 4 /\ code d = be_val A - num rc W.

(** The symbols that are left to decode, of an output [F] that [tail] follows. *)
Definition synced (F tail : bytes) (todo : list rc_symbol) (P : probs) (d : lzma_range_decoder) (input : bytes) : Prop :=
  exists rc W, encoder_inv rc /\ Forall (symbol_ok P) todo /\ fits rc todo /\ encodes F todo P rc W /\ bytes_ok F /\
    follows F tail rc W d input.

Lemma follows_code F tail rc W d input : bytes_ok F -> follows F tail rc W d input -> within F (range rc) rc W ->
  0 <= code d < drange d.
Proof.
  intros HF (Hr & _ & A & B & -> & -> & Hl & Hc) (k & Hk & Hv). rewrite Hr, Hc. rewrite be_val_app in Hv. rewrite length_app in Hk.
  apply Forall_app in HF as [_ HB]. apply be_val_bound in HB. replace (Z.of_nat k) with (zlen B) in * by lia. nia.
Qed.

Lemma push_byte_spec c b : 0 <= c < 16777216 -> is_byte b -> push_byte c b = c * 256 + b.
Proof.
  intros Hc Hb. unfold push_byte. rewrite Z.shiftl_mul_pow2 by (unfold RC_SHIFT_BITS; lia). change (2 ^ RC_SHIFT_BITS) with (2 ^ 8).
  rewrite u32_small by (unfold is_u32; change (2 ^ 8) with 256; lia). apply lor_shifted; unfold is_byte in Hb; lia.
Qed.

(** Both sides normalize at the same time. *)
Lemma follows_normalize F tail room rc rc1 o1 W d input :
  encoder_inv rc -> cache_size rc + 1 < 18446744073709551616 -> bytes_ok F -> rc_normalize_enc room rc = (false, rc1, o1) ->
  within F (range rc1) rc1 (W ++ o1) -> follows F tail rc W d input ->
  exists d1 input1, rc_normalize_safe d input = Some (d1, input1) /\ follows F tail rc1 (W ++ o1) d1 input1.
Proof.
  intros Hi Hcs HF E Hw Hfol. pose proof (rc_normalize_within _ _ _ _ _ _ Hi Hcs E Hw) as Hw0.
  pose proof (follows_code _ _ _ _ _ _ HF Hfol Hw0) as Hcode.
  destruct Hfol as (Hr & Hinit & A & B & HAB & Hin & HlA & Hc). unfold rc_normalize_safe. rewrite Hr in *.
  eapply (rc_normalize_spec _ _ _ _ W) in E as (_ & Hr1 & _ & _ & Hn); [|assumption..].
  destruct (range rc <? RC_TOP_VALUE) eqn:Etop.
  - rewrite RC_TOP in Etop. apply Z.ltb_lt in Etop. destruct Hn as (Hn1 & Hn2 & Hn3). destruct Hw as (k & Hk & _). rewrite HAB, !length_app in Hk.
    destruct B as [|b B]; [cbn [length] in Hk; lia|]. rewrite Hin. cbn [app].
    assert (is_byte b) as Hb by (rewrite HAB, Forall_app, Forall_cons in HF; tauto).
    eexists _, _. split; [reflexivity|]. split_and!; cbn [drange init_bytes_left code].
    + rewrite Z.shiftl_mul_pow2 by (unfold RC_SHIFT_BITS; lia). change (2 ^ RC_SHIFT_BITS) with 256. rewrite u32_small by (unfold is_u32; lia). lia.
    + assumption.
    + exists (A ++ [b]), B. rewrite push_byte_spec, be_val_app by (assumption || lia). cbn [length]. change (256 ^ Z.of_nat 1) with 256.
      change (be_val [b]) with b. rewrite Hn2, <- app_assoc, !length_app in *. cbn [length app] in *. split_and!; try assumption; try reflexivity; lia.
  - destruct Hn as [-> ->]. exists d, input. split; [reflexivity|]. rewrite app_nil_r in *. split_and!; try assumption. now exists A, B.
Qed.

Lemma encodes_bytes todo : forall F P rc W, encoder_inv rc -> Forall (symbol_ok P) todo -> fits rc todo -> encodes F todo P rc W ->
  bytes_ok W -> bytes_ok F.
Proof.
  induction todo as [|s todo IH]; intros F P rc W Hi Hs Hf He HW.
  - apply encodes_flush in He as (room & rc1 & o1 & _ & _ & _ & _ & _ & Hb); auto.
  - apply Forall_cons in Hs as [Hs Htodo].
    apply encodes_step in He as (room & rc1 & o1 & rc2 & E & _ & _ & _ & _ & _ & Hi2 & Hf2 & He); [|assumption..].
    refine (IH _ _ _ _ Hi2 (symbols_ok_after _ _ _ Hs Htodo) Hf2 He _). apply Forall_app_2; [assumption|].
    eapply (rc_normalize_spec _ _ _ _ W) in E as (_ & _ & Hb & _); [exact Hb|assumption|]. unfold fits in Hf. cbn [length] in Hf. lia.
Qed.

(** After the normalization: the interval of the first symbol. *)
Lemma synced_step F tail s todo P d input : synced F tail (s :: todo) P d input ->
  exists d1 input1 rc1 W, rc_normalize_safe d input = Some (d1, input1) /\ symbol_ok P s /\ 16777216 <= drange d1 < 4294967296 /\
    0 <= code d1 < drange d1 /\
    let '(lo, r) := narrow P (drange d1) s in
    lo <= code d1 < lo + r /\
    (forall d2, drange d2 = r -> code d2 = code d1 - lo -> init_bytes_left d2 = 0%nat ->
      synced F tail todo (store_after P s) d2 input1) /\ init_bytes_left d1 = 0%nat /\ bytes_ok F /\ follows F tail rc1 W d1 input1.
Proof.
  intros (rc & W & Hi & Hs & Hf & He & HF & Hfol). apply Forall_cons in Hs as [Hs Htodo].
  apply encodes_step in He as (room & rc1 & o1 & rc2 & E & Hok & Hr & Hr2 & Hn2 & Hc2 & Hi2 & Hf2 & He); [|assumption..].
  pose proof (encodes_within _ _ _ _ _ Hi2 (symbols_ok_after _ _ _ Hs Htodo) Hf2 He) as Hw2.
  pose proof (narrow_bounds P (range rc1) s Hr Hs) as Hb.
  assert (within F (range rc1) rc1 (W ++ o1)) as Hw1.
  { destruct (narrow P (range rc1) s) as [lo r']. cbn [fst snd] in *. rewrite Hr2 in Hw2. eapply within_narrow; [exact Hn2|exact Hc2| | |exact Hw2]; lia. }
  unfold fits in Hf. cbn [length] in Hf. pose proof Hfol as Hfol0.
  eapply follows_normalize in Hfol as (d1 & input1 & Hd & Hfol); [|exact Hi|lia|exact HF|exact E|exact Hw1].
  exists d1, input1, rc1, (W ++ o1). pose proof Hfol as (Hdr & Hinit & A & B & HAB & Hin & HlA & Hc).
  pose proof (follows_code _ _ _ _ _ _ HF Hfol Hw1) as Hcode. rewrite Hdr in *. split_and!; try assumption; try lia.
  destruct (narrow P (range rc1) s) as [lo r'] eqn:En. cbn [fst snd] in *.
  assert (forall d2, drange d2 = r' -> code d2 = code d1 - lo -> init_bytes_left d2 = 0%nat -> follows F tail rc2 (W ++ o1) d2 input1) as Hf3.
  { intros d2 H1 H2 H3. split_and!; [lia|assumption|]. exists A, B. split_and!; try assumption; lia. }
  specialize (Hf3 (mk_decoder r' (code d1 - lo) 0) eq_refl eq_refl eq_refl) as Hx. apply follows_code in Hx; [|assumption|assumption]. cbn in Hx.
  split_and!; try lia; try assumption. intros d2 H1 H2 H3. exists rc2, (W ++ o1). split_and!; try assumption; try lia; [now apply symbols_ok_after|now apply Hf3].
Qed.

(** ** What the decoder finds *)

Lemma synced_bit F tail p b todo P d input : synced F tail (RC_BIT p b :: todo) P d input ->
  exists d' input', rc_bit_safe P p d input = Some (b, update_prob P p b, d', input') /\
    synced F tail todo (update_prob P p b) d' input'.
Proof.
  intros Hs. apply synced_step in Hs as (d1 & input1 & rc1 & W & E & Hok & Hr & Hc & Hx). unfold rc_bit_safe. rewrite E.
  pose proof (narrow_bounds P (drange d1) _ Hr Hok) as Hb. cbn [narrow symbol_ok store_after] in *.
  unfold RC_BIT_MODEL_TOTAL_BITS. rewrite Z.shiftr_div_pow2 by lia. change (2 ^ 11) with 2048.
  set (bound := drange d1 / 2048 * prob_at P p) in *. cbv zeta. destruct b; destruct Hx as (Hlo & Hnext & Hi & _).
  - rewrite (u32_small bound) by (unfold is_u32; lia). rewrite (proj2 (Z.ltb_ge _ _)) by lia.
    eexists _, _. split; [reflexivity|]. apply Hnext; cbn [drange code init_bytes_left]; rewrite ?u32_small by (unfold is_u32; lia); auto.
  - rewrite (u32_small bound) by (unfold is_u32; lia). rewrite (proj2 (Z.ltb_lt _ _)) by lia.
    eexists _, _. split; [reflexivity|]. apply Hnext; cbn [drange code init_bytes_left]; auto; lia.
Qed.

(** The sign of [code - range] as a mask. *)
Lemma direct_mask r c : 0 <= r < 2147483648 -> 0 <= c < 2 * r ->
  let c' := u32 (c - r) in let bound := u32 (0 - Z.shiftr c' 31) in
  if r <=? c then bound = 0 /\ u32 (c' + Z.land r bound) = c - r
  else bound = 4294967295 /\ u32 (c' + Z.land r bound) = c.
Proof.
  intros Hr Hc c' bound. destruct (Z.leb_spec r c).
  - assert (c' = c - r) as Hc' by (unfold c'; apply u32_small; unfold is_u32; lia).
    assert (bound = 0) as ->.
    { unfold bound. rewrite Hc', Z.shiftr_div_pow2 by lia. change (2 ^ 31) with 2147483648. rewrite Z.div_small by lia. reflexivity. }
    split; [reflexivity|]. rewrite Z.land_0_r, Z.add_0_r, Hc'. apply u32_small. unfold is_u32; lia.
  - assert (c' = c - r + 4294967296) as Hc'.
    { unfold c', u32. rewrite <- (Z.mod_small (c - r + 4294967296) 4294967296) by lia. now rewrite <- Zplus_mod_idemp_r, Z.mod_same, Z.add_0_r by lia. }
    assert (bound = 4294967295) as ->.
    { unfold bound. rewrite Hc', Z.shiftr_div_pow2 by lia. change (2 ^ 31) with 2147483648.
      assert ((c - r + 4294967296) / 2147483648 = 1) as -> by (Z.div_mod_to_equations; lia). reflexivity. }
    split; [reflexivity|]. change 4294967295 with (2 ^ 32 - 1). rewrite land_low by lia. change (2 ^ 32) with 4294967296.
    rewrite Z.mod_small, Hc' by lia. unfold u32. replace (c - r + 4294967296 + r) with (c + 1 * 4294967296) by lia. rewrite Z.mod_add, Z.mod_small; lia.
Qed.

Lemma u32_dec_bit x : u32 (u32 (u32 x + 1) + 4294967295) = u32 (u32 x + u32 (4294967295 + 1)).
Proof. unfold u32. Z.div_mod_to_equations; lia. Qed.

Lemma synced_direct F tail b todo P d input dest : synced F tail (RC_DIRECT b :: todo) P d input ->
  exists d' input', rc_direct_safe dest d input = Some (push_bit dest b, d', input') /\
    rc_direct_fast dest d input = Some (push_bit dest b, d', input') /\ synced F tail todo P d' input'.
Proof.
  intros Hs. apply synced_step in Hs as (d1 & input1 & rc1 & W & E & Hok & Hr & Hc & Hx). unfold rc_direct_safe, rc_direct_fast. rewrite E.
  cbn [narrow store_after] in *. rewrite !Z.shiftr_div_pow2 by lia. change (2 ^ 1) with 2 in *. change (2 ^ 31) with 2147483648 in *.
  set (r := drange d1 / 2) in *. assert (0 <= r < 2147483648) as Hr2 by (unfold r; Z.div_mod_to_equations; lia).
  assert (code d1 < 2 * r) as Hc2 by (destruct b; lia).
  pose proof (direct_mask r (code d1) Hr2 (conj (proj1 Hc) Hc2)) as Hm. cbv zeta in *. rewrite Z.shiftr_div_pow2 in Hm by lia.
  change (2 ^ 31) with 2147483648 in Hm. destruct b; destruct Hx as (Hlo & Hnext & Hi & _).
  - rewrite (proj2 (Z.leb_le _ _)) in Hm by lia. destruct Hm as [-> ->]. change (u32 (0 + 1)) with 1.
    eexists _, _. split; [reflexivity|]. split.
    + cbn [push_bit]. now rewrite Z.add_0_r, u32_small by apply u32_range.
    + apply Hnext; cbn [drange code init_bytes_left]; auto; lia.
  - rewrite (proj2 (Z.leb_gt _ _)) in Hm by lia. destruct Hm as [-> ->]. change (u32 (4294967295 + 1)) with 0.
    eexists _, _. split; [cbn [push_bit]; rewrite Z.add_0_r, u32_small by apply u32_range; reflexivity|]. split.
    + cbn [push_bit]. rewrite u32_dec_bit. change (u32 (4294967295 + 1)) with 0. now rewrite Z.add_0_r, u32_small by apply u32_range.
    + apply Hnext; cbn [drange code init_bytes_left]; auto; lia.
Qed.

(** At the end nothing is left to read, and [code] is zero. *)
Lemma synced_end F tail P d input : synced F tail [] P d input ->
  exists d', rc_normalize_safe d input = Some (d', tail) /\ rc_is_finished d' = true.
Proof.
  intros (rc & W & Hi & _ & Hf & He & HF & Hfol). apply encodes_flush in He as (room & rc1 & o1 & E & _ & _ & Hv & Hl & _); [|assumption..].
  unfold fits in Hf. cbn [length] in Hf. assert (16777216 <= range rc1) as Hr1.
  { eapply (rc_normalize_spec _ _ _ _ W) in E as (_ & Hr & _); [lia|assumption|lia]. }
  eapply follows_normalize in Hfol as (d1 & input1 & Hd & _ & _ & A & B & HAB & -> & HlA & Hc);
    [|exact Hi|lia|exact HF|exact E|exists 0%nat; rewrite Hv; split; lia].
  assert (B = []) as -> by (rewrite HAB, length_app in Hl; destruct B; [reflexivity|cbn [length] in *; lia]).
  exists d1. split; [assumption|]. unfold rc_is_finished. rewrite app_nil_r in HAB. subst A. rewrite Hc, Hv. apply Z.eqb_eq. lia.
Qed.

(** The first five bytes. *)
Lemma synced_start F tail todo P : Forall (symbol_ok P) todo -> fits rc_reset todo -> encodes F todo P rc_reset [] ->
  exists d input, rc_read_init rc_reset_decoder (F ++ tail) = (LZMA_STREAM_END, d, input) /\ synced F tail todo P d input.
Proof.
  intros Hs Hf He. pose proof (encodes_bytes _ _ _ _ _ encoder_inv_reset Hs Hf He (Forall_nil_2 _)) as HF.
  pose proof (encodes_within _ _ _ _ _ encoder_inv_reset Hs Hf He) as (k & Hk & Hv).
  unfold num, pend, rc_reset in Hv, Hk. cbn [cache cache_size low range length] in *.
  change ((be_val [] * 256 ^ 1 + ((0 + 1) * 256 ^ (1 - 1) - 1)) * 4294967296 + 0) with 0 in Hv.
  do 5 (destruct F as [|? F]; [cbn [length] in Hk; lia|]). cbn [length] in Hk. assert (k = length F) as -> by lia. clear Hk.
  pose proof HF as HF0. do 5 (apply Forall_cons in HF as [? HF]). unfold is_byte in *.
  rewrite !be_val_cons in Hv. cbn [length] in Hv. pose proof (be_val_bound _ HF) as HbF.
  pose proof (Z.pow_pos_nonneg 256 (zlen F) ltac:(lia) ltac:(lia)) as Hpow.
  replace (Z.of_nat (Datatypes.S (Datatypes.S (Datatypes.S (Datatypes.S (length F)))))) with (zlen F + 4) in Hv by lia.
  rewrite Z.pow_add_r in Hv by lia. change (256 ^ 4) with 4294967296 in Hv. unfold UINT32_MAX in Hv.
  assert (z = 0) as -> by nia.
  set (d := mk_decoder UINT32_MAX (be_val [0; z0; z1; z2; z3]) 0).
  exists d, (F ++ tail). split.
  - cbn [app rc_read_init rc_reset_decoder init_bytes_left read_init_loop Nat.eqb Z.eqb negb andb Nat.sub drange code]. unfold d.
    assert (be_val [0; z0; z1; z2; z3] = (((0 * 256 + z0) * 256 + z1) * 256 + z2) * 256 + z3) as -> by reflexivity.
    change (push_byte 0 0) with 0. rewrite (push_byte_spec 0 z0), (push_byte_spec _ z1), (push_byte_spec _ z2), (push_byte_spec _ z3) by (unfold is_byte; lia).
    reflexivity.
  - exists rc_reset, []. split_and!; try assumption; [apply encoder_inv_reset|]. split_and!; try reflexivity.
    exists [0; z0; z1; z2; z3], F. split_and!; try reflexivity. cbn [code]. unfold num, pend, rc_reset. cbn [cache cache_size low length]. cbn. lia.
Qed.

(** ** Room

    The functions that write, for every amount of room: they stop for lack of
    room only when all of it is used, and go on from there when they are called
    again. *)

(** [g] continues what [f] began in [a] bytes of room. *)
Definition resumes {A B} (f : nat -> bool * A * bytes) (a : nat) (g : nat -> bool * B * bytes) (same : B -> A) (o : bytes) : Prop :=
  length o = a /\ forall b, f (a + b)%nat = let '(full, x, o') := g b in (full, same x, o ++ o').

Lemma shift_low_loop_resume n : forall a rc rc1 o, shift_low_loop n a rc = (true, rc1, o) ->
  (a < n)%nat /\ low rc1 = low rc /\ range rc1 = range rc /\ cache_size rc1 = cache_size rc - Z.of_nat a /\ symbols rc1 = symbols rc /\ pos rc1 = pos rc /\
  resumes (fun b => shift_low_loop n b rc) a (fun b => shift_low_loop (n - a) b rc1) id o.
Proof.
  induction n as [|n IH]; intros a rc rc1 o; cbn [shift_low_loop]; [discriminate|]. destruct a as [|a].
  - intros [= <- <-]. split_and!; try reflexivity; try lia. split; [reflexivity|]. intros b. rewrite Nat.sub_0_r. cbn [Nat.add].
    destruct (shift_low_loop (Datatypes.S n) b rc) as [[f r] o'] eqn:E. cbn [shift_low_loop] in E. now rewrite E.
  - destruct (shift_low_loop n a _) as [[f r] o'] eqn:E. intros [= -> <- <-]. apply IH in E as (Ha & Hl & Hr & Hc & Hs & Hp & Ho & Hres).
    cbn [low range cache_size symbols pos set_cache set_out_total] in *. split_and!; try assumption; try lia. split; [cbn [length]; lia|].
    intros b. cbn [Nat.add Nat.sub]. rewrite Hres. destruct (shift_low_loop (n - a) b r) as [[f2 r2] o2]. reflexivity.
Qed.

Lemma shift_low_loop_done n : forall a rc rc1 o, shift_low_loop n a rc = (false, rc1, o) ->
  length o = n /\ forall a', (n <= a')%nat -> shift_low_loop n a' rc = (false, rc1, o).
Proof.
  induction n as [|n IH]; intros a rc rc1 o; cbn [shift_low_loop]; [intros [= <- <-]; auto|]. destruct a as [|a]; [discriminate|].
  destruct (shift_low_loop n a _) as [[f r] o'] eqn:E. intros [= -> <- <-]. apply IH in E as [Hl Ha]. split; [cbn [length]; lia|].
  intros [|a'] Ha'; [lia|]. now rewrite Ha by lia.
Qed.

Lemma rc_shift_low_resume a rc rc1 o : rc_shift_low a rc = (true, rc1, o) ->
  Z.of_nat a < cache_size rc /\ range rc1 = range rc /\ cache_size rc1 = cache_size rc - Z.of_nat a /\ symbols rc1 = symbols rc /\ pos rc1 = pos rc /\
  resumes (fun b => rc_shift_low b rc) a (fun b => rc_shift_low b rc1) id o.
Proof.
  unfold rc_shift_low at 1. destruct (low_is_settled _) eqn:Es; [|discriminate].
  destruct (shift_low_loop _ _ _) as [[f r] o'] eqn:E. destruct f; try discriminate; intros [= <- <-].
  apply shift_low_loop_resume in E as (Ha & Hl & Hr & Hc & Hs & Hp & Ho & Hres). split_and!; try assumption; try lia. split; [assumption|].
  intros b. unfold rc_shift_low. rewrite Hl, Es, Hres, Hc.
  replace (Z.to_nat (cache_size rc - Z.of_nat a)) with (Z.to_nat (cache_size rc) - a)%nat by lia.
  destruct (shift_low_loop (_ - _) b r) as [[f2 r2] o2]. now destruct f2.
Qed.

Lemma rc_shift_low_done a rc rc1 o : rc_shift_low a rc = (false, rc1, o) ->
  forall a', (length o <= a')%nat -> rc_shift_low a' rc = (false, rc1, o).
Proof.
  unfold rc_shift_low. destruct (low_is_settled _); [|auto]. destruct (shift_low_loop _ _ _) as [[f r] o'] eqn:E.
  destruct f; try discriminate; intros [= <- <-]. apply shift_low_loop_done in E as [Hl Ha]. intros a' Ha'. now rewrite Ha by lia.
Qed.

Lemma normalize_done a rc rc1 o : rc_normalize_enc a rc = (false, rc1, o) ->
  forall a', (length o <= a')%nat -> rc_normalize_enc a' rc = (false, rc1, o).
Proof.
  unfold rc_normalize_enc. destruct (range rc <? _); [|auto]. destruct (rc_shift_low _ _) as [[f r] o'] eqn:E.
  destruct f; try discriminate; intros [= <- <-]. intros a' Ha'. now rewrite (rc_shift_low_done _ _ _ _ E) by assumption.
Qed.

Lemma normalize_resume a rc rc1 o : rc_normalize_enc a rc = (true, rc1, o) ->
  range rc < RC_TOP_VALUE /\ range rc1 = range rc /\ symbols rc1 = symbols rc /\ pos rc1 = pos rc /\
  resumes (fun b => rc_normalize_enc b rc) a (fun b => rc_normalize_enc b rc1) id o.
Proof.
  unfold rc_normalize_enc at 1. destruct (Z.ltb_spec (range rc) RC_TOP_VALUE) as [Hlt|]; [|discriminate].
  destruct (rc_shift_low _ _) as [[f r] o'] eqn:E. destruct f; try discriminate; intros [= <- <-].
  apply rc_shift_low_resume in E as (_ & Hr & _ & Hs & Hp & Ho & Hres). split_and!; try assumption. split; [assumption|].
  intros b. unfold rc_normalize_enc. rewrite Hr, (proj2 (Z.ltb_lt _ _) Hlt), Hres.
  destruct (rc_shift_low b r) as [[f2 r2] o2]. now destruct f2.
Qed.

Lemma flush_loop_done todo : forall a rc rc1 o, flush_loop todo a rc = (false, rc1, o) ->
  forall a', (length o <= a')%nat -> flush_loop todo a' rc = (false, rc1, o).
Proof.
  induction todo as [|s todo IH]; intros a rc rc1 o; cbn [flush_loop]; [auto|].
  destruct (rc_shift_low _ _) as [[f r] o'] eqn:E. destruct f; [discriminate|].
  destruct (flush_loop todo _ _) as [[f r2] o2] eqn:E2. intros [= -> <- <-] a' Ha'. rewrite length_app in Ha'.
  rewrite (rc_shift_low_done _ _ _ _ E) by lia. now rewrite (IH _ _ _ _ E2) by lia.
Qed.

Lemma loop_done todo : forall a P rc P1 rc1 o, rc_encode_loop todo a P rc = (false, P1, rc1, o) ->
  forall a', (length o <= a')%nat -> rc_encode_loop todo a' P rc = (false, P1, rc1, o).
Proof.
  induction todo as [|s todo IH]; intros a P rc P1 rc1 o E a' Ha'; [exact E|]. cbn [rc_encode_loop] in *.
  destruct (rc_normalize_enc a rc) as [[f r] o1] eqn:E1. destruct f; [discriminate|].
  assert (length o1 <= length o)%nat as Hl.
  { destruct s; repeat (match type of E with context [let '_ := ?x in _] => destruct x end); try case_if_in E; try discriminate;
      injection E as; subst; rewrite length_app; lia. }
  rewrite (normalize_done _ _ _ _ E1) by lia.
  destruct s as [p b|b|].
  1,2: destruct (encode_bit P r _) as [P2 r2]; destruct (rc_encode_loop todo (a - _) _ _) as [[[f P3] r3] o3] eqn:E3;
    injection E as -> <- <- <-; rewrite length_app in Ha'; now rewrite (IH _ _ _ _ _ _ E3) by lia.
  destruct (flush_loop _ (a - _) _) as [[f r2] o2] eqn:E2. destruct f; [discriminate|]. injection E as <- <- <-.
  rewrite length_app in Ha'. now rewrite (flush_loop_done _ _ _ _ _ E2) by lia.
Qed.

Lemma shift_low_loop_le n : forall a rc f rc1 o, shift_low_loop n a rc = (f, rc1, o) -> (length o <= a)%nat.
Proof.
  induction n as [|n IH]; intros a rc f rc1 o; cbn [shift_low_loop]; [intros [= <- <- <-]; cbn; lia|].
  destruct a; [intros [= <- <- <-]; cbn; lia|]. destruct (shift_low_loop n a _) as [[f2 r] o2] eqn:E. intros [= <- <- <-].
  apply IH in E. cbn [length]. lia.
Qed.

Lemma rc_shift_low_le a rc f rc1 o : rc_shift_low a rc = (f, rc1, o) -> (length o <= a)%nat.
Proof.
  unfold rc_shift_low. destruct (low_is_settled _); [|intros [= <- <- <-]; cbn; lia].
  destruct (shift_low_loop _ _ _) as [[f2 r] o2] eqn:E. apply shift_low_loop_le in E. destruct f2; intros [= <- <- <-]; assumption.
Qed.

Lemma normalize_le a rc f rc1 o : rc_normalize_enc a rc = (f, rc1, o) -> (length o <= a)%nat.
Proof.
  unfold rc_normalize_enc. destruct (_ <? _); [|intros [= <- <- <-]; cbn; lia].
  destruct (rc_shift_low _ _) as [[f2 r] o2] eqn:E. apply rc_shift_low_le in E. destruct f2; intros [= <- <- <-]; assumption.
Qed.

Lemma rc_shift_low_queue a rc f rc1 o : rc_shift_low a rc = (f, rc1, o) -> symbols rc1 = symbols rc /\ pos rc1 = pos rc /\ range rc1 = range rc.
Proof.
  unfold rc_shift_low. destruct (low_is_settled _); [|now intros [= <- <- <-]].
  assert (forall n a rc f rc1 o, shift_low_loop n a rc = (f, rc1, o) -> symbols rc1 = symbols rc /\ pos rc1 = pos rc /\ range rc1 = range rc) as Hgen.
  { clear. induction n as [|n IH]; intros a rc f rc1 o; cbn [shift_low_loop]; [now intros [= <- <- <-]|].
    destruct a; [now intros [= <- <- <-]|]. destruct (shift_low_loop n a _) as [[f2 r] o2] eqn:E. intros [= <- <- <-]. now apply IH in E. }
  destruct (shift_low_loop _ _ _) as [[f2 r] o2] eqn:E. apply Hgen in E. destruct f2; intros [= <- <- <-]; assumption.
Qed.

Lemma normalize_queue a rc f rc1 o : rc_normalize_enc a rc = (f, rc1, o) -> symbols rc1 = symbols rc /\ pos rc1 = pos rc.
Proof.
  unfold rc_normalize_enc. destruct (_ <? _); [|now intros [= <- <- <-]].
  destruct (rc_shift_low _ _) as [[f2 r] o2] eqn:E. apply rc_shift_low_queue in E as (? & ? & _). destruct f2; intros [= <- <- <-]; now split.
Qed.

Lemma flush_loop_resume todo : forall a rc rc1 o, flush_loop todo a rc = (true, rc1, o) ->
  exists i, (i < length todo)%nat /\ pos rc1 = (pos rc + i)%nat /\ symbols rc1 = symbols rc /\ range rc1 = range rc /\
    resumes (fun b => flush_loop todo b rc) a (fun b => flush_loop (drop i todo) b rc1) id o.
Proof.
  induction todo as [|s todo IH]; intros a rc rc1 o; cbn [flush_loop]; [discriminate|].
  destruct (rc_shift_low a rc) as [[f r] o1] eqn:E. destruct f.
  - intros [= <- <-]. pose proof (rc_shift_low_queue _ _ _ _ _ E) as (Hs & Hp & Hr).
    apply rc_shift_low_resume in E as (_ & _ & _ & _ & _ & Ho & Hres). exists 0%nat. cbn [length]. split_and!; try assumption; try lia.
    split; [assumption|]. intros b. cbn [drop flush_loop]. rewrite Hres. destruct (rc_shift_low b r) as [[f2 r2] o2]. destruct f2; [reflexivity|].
    cbn [id]. rewrite length_app, Ho. replace (a + b - (a + length o2))%nat with (b - length o2)%nat by lia.
    destruct (flush_loop todo _ _) as [[f3 r3] o3]. now rewrite app_assoc.
  - destruct (flush_loop todo _ _) as [[f2 r2] o2] eqn:E2. intros [= -> <- <-]. pose proof (rc_shift_low_le _ _ _ _ _ E) as Hle.
    pose proof (rc_shift_low_queue _ _ _ _ _ E) as (Hs & Hp & Hr).
    apply IH in E2 as (i & Hi & Hp2 & Hs2 & Hr2 & Ho & Hres). cbn [pos symbols range set_pos] in *.
    exists (Datatypes.S i). cbn [length drop]. split_and!; try lia; try congruence. split; [rewrite length_app; lia|].
    intros b. rewrite (rc_shift_low_done _ _ _ _ E) by lia. replace (a + b - length o1)%nat with (a - length o1 + b)%nat by lia.
    rewrite Hres. destruct (flush_loop (drop i todo) b r2) as [[f3 r3] o3]. now rewrite app_assoc.
Qed.

(** A flush is only at the end of the symbols. *)
Definition flush_last (todo : list rc_symbol) : Prop :=
  exists l k, todo = l ++ replicate k RC_FLUSH /\ Forall (fun s => s <> RC_FLUSH) l.

Lemma flush_last_cons s todo : flush_last (s :: todo) -> (s = RC_FLUSH -> todo = replicate (length todo) RC_FLUSH) /\ flush_last todo.
Proof.
  intros ([|t l] & k & E & Hl).
  - destruct k as [|k]; [discriminate|]. injection E as -> ->. rewrite length_replicate. split; [auto|]. now exists [], k.
  - injection E as -> ->. apply Forall_cons in Hl as [Ht Hl]. split; [congruence|]. now exists l, k.
Qed.

Lemma loop_resume todo : forall a P rc P1 rc1 o, flush_last todo -> rc_encode_loop todo a P rc = (true, P1, rc1, o) ->
  exists i, pos rc1 = (pos rc + i)%nat /\ symbols rc1 = symbols rc /\ length o = a /\
    forall b, rc_encode_loop todo (a + b) P rc =
      let '(f, P2, rc2, o2) := rc_encode_loop (drop i todo) b P1 rc1 in (f, P2, rc2, o ++ o2).
Proof.
  induction todo as [|s todo IH]; intros a P rc P1 rc1 o Hfl; [discriminate|]. apply flush_last_cons in Hfl as [Hall Hfl]. cbn [rc_encode_loop].
  destruct (rc_normalize_enc a rc) as [[f r] o1] eqn:E1. destruct f.
  - intros [= <- <- <-]. pose proof (normalize_resume _ _ _ _ E1) as (_ & _ & Hs & Hp & Ho & Hres).
    exists 0%nat. split_and!; try assumption; [lia|]. intros b. cbn [drop rc_encode_loop]. rewrite Hres.
    destruct (rc_normalize_enc b r) as [[f2 r2] o2] eqn:E2. cbn [id]. destruct f2; [reflexivity|].
    rewrite length_app, Ho. replace (a + b - (a + length o2))%nat with (b - length o2)%nat by lia.
    destruct s as [p c|c|]; [destruct (encode_bit P r2 _) as [P3 r3]..|];
      [destruct (rc_encode_loop todo _ _ _) as [[[f4 P4] r4] o4]; now rewrite app_assoc..|].
    destruct (flush_loop _ (b - _) _) as [[f4 r4] o4]. destruct f4; now rewrite app_assoc.
  - pose proof (normalize_le _ _ _ _ _ E1) as Hle. pose proof (normalize_queue _ _ _ _ _ E1) as (Hs & Hp).
    destruct s as [p c|c|].
    1,2: destruct (encode_bit P r _) as [P2 r2] eqn:Eb; destruct (rc_encode_loop todo (a - _) _ _) as [[[f3 P3] r3] o3] eqn:E3;
      intros [= -> <- <- <-]; apply IH in E3 as (i & Hp3 & Hs3 & Ho3 & Hres); [|assumption];
      assert (symbols r2 = symbols r /\ pos r2 = pos r) as [Hs2 Hp2] by (cbn [encode_bit] in Eb; destruct c; injection Eb as <- <-; now split);
      cbn [pos symbols set_pos] in *; exists (Datatypes.S i); cbn [drop]; split_and!; [lia|congruence|rewrite length_app; lia|];
      intros b; rewrite (normalize_done _ _ _ _ E1) by lia; rewrite Eb; replace (a + b - length o1)%nat with (a - length o1 + b)%nat by lia;
      rewrite Hres; destruct (rc_encode_loop (drop i todo) b P3 r3) as [[[f4 P4] r4] o4]; now rewrite app_assoc.
    destruct (flush_loop _ (a - _) _) as [[f2 r2] o2] eqn:E2. destruct f2; [|discriminate]. intros [= <- <- <-].
    apply flush_loop_resume in E2 as (i & Hi & Hp2 & Hs2 & Hr2 & Ho & Hres). cbn [pos symbols range set_range] in *.
    exists i. split_and!; [lia|congruence|rewrite length_app; lia|]. intros b. rewrite (normalize_done _ _ _ _ E1) by lia.
    replace (a + b - length o1)%nat with (a - length o1 + b)%nat by lia. rewrite Hres.
    assert (drop i (RC_FLUSH :: todo) = RC_FLUSH :: drop (Datatypes.S i) (RC_FLUSH :: todo)) as Hd.
    { rewrite (Hall eq_refl). change (RC_FLUSH :: replicate ?n RC_FLUSH) with (replicate (Datatypes.S n) (@RC_FLUSH)).
      rewrite !drop_replicate. cbn [length] in Hi. replace (Datatypes.S (length todo) - i)%nat with (Datatypes.S (Datatypes.S (length todo) - Datatypes.S i)) by lia.
      reflexivity. }
    rewrite Hd. cbn [rc_encode_loop]. unfold rc_normalize_enc. rewrite Hr2. change (UINT32_MAX <? RC_TOP_VALUE) with false. cbn [length].
    rewrite Nat.sub_0_r. rewrite <- Hd. replace (set_range r2 UINT32_MAX) with r2 by (clear -Hr2; destruct r2; cbn [range] in Hr2; now subst).
    destruct (flush_loop _ b r2) as [[f4 r4] o4]. cbn [id app]. destruct f4; now rewrite app_assoc.
Qed.

(** A call of [rc_encode] that stopped is continued by the next one. *)
Lemma rc_encode_resume a b P rc P1 rc1 o : flush_last (drop (pos rc) (symbols rc)) -> rc_encode a P rc = (true, P1, rc1, o) ->
  length o = a /\ rc_encode (a + b) P rc = let '(f, P2, rc2, o2) := rc_encode b P1 rc1 in (f, P2, rc2, o ++ o2).
Proof.
  intros Hfl E. unfold rc_encode in *. apply loop_resume in E as (i & Hp & Hs & Ho & Hres); [|assumption]. split; [assumption|].
  now rewrite Hres, Hp, Hs, drop_drop.
Qed.

(** Enough room for the pending bytes and one byte per symbol. *)
Lemma normalize_enough a rc f rc1 o : cache_size rc <= Z.of_nat a -> rc_normalize_enc a rc = (f, rc1, o) -> f = false.
Proof.
  unfold rc_normalize_enc. intros Ha. destruct (_ <? _); [|now intros [= <- <- <-]].
  destruct (rc_shift_low a rc) as [[f2 r] o2] eqn:E. destruct f2; [|now intros [= <- <- <-]].
  apply rc_shift_low_resume in E as (Hlt & _). lia.
Qed.

Lemma flush_loop_enough todo : forall a rc f rc1 o, encoder_ok 1 rc -> cache_size rc + zlen todo < 18446744073709551616 ->
  cache_size rc + zlen todo <= Z.of_nat a -> flush_loop todo a rc = (f, rc1, o) -> f = false.
Proof.
  induction todo as [|s todo IH]; intros a rc f rc1 o Hok Hc Ha; cbn [flush_loop]; [now intros [= <- <- <-]|]. cbn [length] in *.
  destruct (rc_shift_low a rc) as [[f2 r] o2] eqn:E. destruct f2.
  { apply rc_shift_low_resume in E as (Hlt & _). lia. }
  destruct (flush_loop todo _ _) as [[f3 r3] o3] eqn:E3. intros [= <- _ _].
  eapply (flush_step_spec _ _ _ _ [] (Datatypes.S (pos r))) in E as (Hok' & _ & Hl & _); [|assumption|lia]. cbv zeta in *.
  eapply IH; [exact Hok'| | |exact E3]; lia.
Qed.

Lemma encode_enough todo : forall a P rc, encoder_inv rc -> Forall (symbol_ok P) todo -> fits rc todo ->
  cache_size rc + zlen todo + 6 <= Z.of_nat a ->
  exists out, rc_encode_loop (todo ++ flush_symbols) a P rc = (false, fold_left store_after todo P, rc_reset, out).
Proof.
  induction todo as [|s todo IH]; intros a P rc Hi Hs Hf Ha.
  - cbn [app fold_left length] in *. unfold flush_symbols. cbn [replicate rc_encode_loop]. unfold fits in Hf. cbn [length] in Hf.
    destruct (rc_normalize_enc a rc) as [[f r] o] eqn:E. assert (f = false) as -> by (eapply normalize_enough; [|exact E]; lia).
    eapply (rc_normalize_spec _ _ _ _ []) in E as (Hok & Hr & _ & Hl & _); [|assumption|lia].
    destruct (flush_loop _ _ _) as [[f2 r2] o2] eqn:E2. apply flush_loop_enough in E2 as ->; [eauto|..].
    + apply (encoder_ok_mono _ 1) in Hok; [|lia]. destruct Hok. constructor; assumption.
    + cbn [cache_size set_range length]. lia.
    + cbn [cache_size set_range length]. lia.
  - apply Forall_cons in Hs as [Hs Htodo]. unfold fits in Hf. cbn [app rc_encode_loop fold_left length] in *.
    destruct (rc_normalize_enc a rc) as [[f r] o] eqn:E. assert (f = false) as -> by (eapply normalize_enough; [|exact E]; lia).
    eapply (rc_normalize_spec _ _ _ _ []) in E as (Hok & Hr & _ & Hl & _); [|assumption|lia].
    destruct (encode_bit P r s) as [P2 r2] eqn:Eb. eapply (encode_bit_spec _ _ _ _ _ []) in Eb as (-> & _ & _ & Hc & Hi2); [|assumption..].
    destruct (IH (a - length o)%nat (store_after P s) (set_pos r2 (Datatypes.S (pos r2)))) as (out & Hout).
    + now apply encoder_inv_pos.
    + now apply symbols_ok_after.
    + unfold fits. cbn [cache_size set_pos]. lia.
    + cbn [cache_size set_pos]. lia.
    + destruct s; [| |contradiction]; rewrite Hout; eauto.
Qed.

(** *** Queues

    What is queued has no influence on the numbers. *)
Definition with_queue (rc : lzma_range_encoder) (s : list rc_symbol) (n : nat) : lzma_range_encoder :=
  mk_encoder (low rc) (cache_size rc) (range rc) (cache rc) (out_total rc) s n.

Lemma shift_low_loop_queue k s n : forall a rc, shift_low_loop k a (with_queue rc s n) =
  let '(f, r, o) := shift_low_loop k a rc in (f, with_queue r s n, o).
Proof.
  induction k as [|k IH]; intros a rc; cbn [shift_low_loop]; [reflexivity|]. destruct a as [|a]; [reflexivity|].
  change (set_cache (set_out_total (with_queue rc s n) ?t) ?x ?y) with (with_queue (set_cache (set_out_total rc t) x y) s n).
  rewrite IH. now destruct (shift_low_loop k a _) as [[f r] o].
Qed.

Lemma rc_shift_low_with_queue s n a rc : rc_shift_low a (with_queue rc s n) =
  let '(f, r, o) := rc_shift_low a rc in (f, with_queue r s n, o).
Proof.
  unfold rc_shift_low. cbn [low cache_size with_queue]. destruct (low_is_settled _); [|reflexivity].
  rewrite shift_low_loop_queue. destruct (shift_low_loop _ a rc) as [[f r] o]. now destruct f.
Qed.

Lemma normalize_with_queue s n a rc : rc_normalize_enc a (with_queue rc s n) =
  let '(f, r, o) := rc_normalize_enc a rc in (f, with_queue r s n, o).
Proof.
  unfold rc_normalize_enc. cbn [range with_queue]. destruct (_ <? _); [|reflexivity]. rewrite rc_shift_low_with_queue.
  destruct (rc_shift_low a rc) as [[f r] o]. now destruct f.
Qed.

Lemma flush_loop_with_queue todo : forall s n a rc r o, flush_loop todo a rc = (false, r, o) ->
  exists r2, flush_loop todo a (with_queue rc s n) = (false, r2, o).
Proof.
  induction todo as [|t todo IH]; intros s n a rc r o; cbn [flush_loop]; [intros [= <- <-]; eauto|].
  rewrite rc_shift_low_with_queue. destruct (rc_shift_low a rc) as [[f r1] o1]. destruct f; [discriminate|].
  destruct (flush_loop todo _ _) as [[f r2] o2] eqn:E. intros [= -> <- <-]. apply (IH s (Datatypes.S n)) in E as [r3 E].
  cbn [pos with_queue]. change (set_pos (with_queue r1 s n) (Datatypes.S n)) with (with_queue (set_pos r1 (Datatypes.S (pos r1))) s (Datatypes.S n)).
  rewrite E. eauto.
Qed.

Lemma encode_bit_with_queue s n P rc t : encode_bit P (with_queue rc s n) t =
  let '(P', r) := encode_bit P rc t in (P', with_queue r s n).
Proof. destruct t as [p []|[]|]; reflexivity. Qed.

Lemma loop_with_queue todo : forall s n a P rc P' r o, rc_encode_loop todo a P rc = (false, P', r, o) ->
  rc_encode_loop todo a P (with_queue rc s n) = (false, P', r, o).
Proof.
  induction todo as [|t todo IH]; intros s n a P rc P' r o; cbn [rc_encode_loop]; [auto|].
  rewrite normalize_with_queue. destruct (rc_normalize_enc a rc) as [[f r1] o1]. destruct f; [discriminate|].
  assert (t <> RC_FLUSH -> (let '(P, rc) := encode_bit P r1 t in
      let '(full, P, rc, out') := rc_encode_loop todo (a - length o1) P (set_pos rc (Datatypes.S (pos rc))) in (full, P, rc, o1 ++ out')) = (false, P', r, o) ->
    (let '(P, rc) := encode_bit P (with_queue r1 s n) t in
      let '(full, P, rc, out') := rc_encode_loop todo (a - length o1) P (set_pos rc (Datatypes.S (pos rc))) in (full, P, rc, o1 ++ out')) = (false, P', r, o)) as Hbit.
  { intros _. rewrite encode_bit_with_queue. destruct (encode_bit P r1 t) as [P2 r2].
    destruct (rc_encode_loop todo _ _ _) as [[[f3 P3] r3] o3] eqn:E. intros [= -> <- <- <-]. apply (IH s (Datatypes.S n)) in E.
    cbn [pos with_queue]. change (set_pos (with_queue r2 s n) (Datatypes.S n)) with (with_queue (set_pos r2 (Datatypes.S (pos r2))) s (Datatypes.S n)).
    now rewrite E. }
  destruct t as [p c|c|]; [now apply Hbit|now apply Hbit|]. clear Hbit.
  destruct (flush_loop _ _ _) as [[f2 r2] o2] eqn:E. destruct f2; [discriminate|]. intros [= <- <- <-].
  apply (flush_loop_with_queue _ s n) in E as [r3 E]. change (set_range (with_queue r1 s n) UINT32_MAX) with (with_queue (set_range r1 UINT32_MAX) s n).
  now rewrite E.
Qed.

(** One call after the other. *)
Lemma encodes_app F l todo a P rc W P1 rc1 o : Forall (fun s => s <> RC_FLUSH) l ->
  rc_encode_loop l a P rc = (false, P1, rc1, o) -> encodes F todo P1 rc1 (W ++ o) -> encodes F (l ++ todo) P rc W.
Proof.
  intros Hl E (room & P' & rc' & out & E2 & ->). exists (length o + room)%nat, P', rc', (o ++ out). split; [|now rewrite app_assoc].
  rewrite <- app_assoc. revert a P rc o E. clear W. induction Hl as [|s l Hs Hl IH]; intros a P rc o E.
  - cbn [app rc_encode_loop] in *. injection E as <- <- <-. change (mk_encoder (low rc) _ _ _ _ [] 0) with (with_queue rc [] 0) in E2.
    cbn [length app Nat.add]. apply (loop_with_queue _ (symbols rc) (pos rc)) in E2. destruct rc; exact E2.
  - cbn [app rc_encode_loop] in *. destruct (rc_normalize_enc a rc) as [[f r1] o1] eqn:En. destruct f; [discriminate|].
    destruct s as [p c|c|]; [| |congruence]; destruct (encode_bit P r1 _) as [P2 r2] eqn:Eb; destruct (rc_encode_loop l _ _ _) as [[[f3 P3] r3] o3] eqn:E3;
      injection E as -> <- <- <-; apply IH in E3; rewrite (normalize_done _ _ _ _ En), Eb by (rewrite length_app; lia);
      rewrite length_app; replace (length o1 + length o3 + room - length o1)%nat with (length o3 + room)%nat by lia; rewrite E3; now rewrite app_assoc.
Qed.

Lemma encodes_queue F todo P rc W s n : encodes F todo P rc W -> encodes F todo P (with_queue rc s n) W.
Proof. intros (room & P' & rc' & out & E & ->). apply (loop_with_queue _ s n) in E. now exists room, P', rc', out. Qed.

(** ** Bit trees *)

Definition stores (P : probs) (l : list rc_symbol) : probs := fold_left store_after l P.

Lemma u32_double x b : 0 <= x -> 0 <= b <= 1 -> 2 * x + b < 4294967296 -> u32 (u32 (Z.shiftl x 1) + b) = 2 * x + b.
Proof. intros. rewrite Z.shiftl_mul_pow2 by lia. change (2 ^ 1) with 2. rewrite (u32_small (x * 2)), u32_small by (unfold is_u32; lia). lia. Qed.

Lemma push_bit_spec x b : 0 <= x -> 2 * x + 1 < 4294967296 -> push_bit x b = 2 * x + Z.b2z b.
Proof.
  intros. destruct b; cbn [push_bit Z.b2z]; [apply u32_double; lia|].
  pose proof (u32_double x 0 ltac:(lia) ltac:(lia) ltac:(lia)) as Hx. rewrite Z.add_0_r, u32_small in Hx by apply u32_range. exact Hx.
Qed.

Lemma land_1 x : Z.land x 1 = x mod 2.
Proof. change 1 with (2 ^ 1 - 1). now rewrite land_low. Qed.

Lemma bit_eqb x : (x mod 2 =? 1) = Z.odd x.
Proof. rewrite Zmod_odd. now destruct (Z.odd x). Qed.

(** The bits of a tree are decoded to the symbol, below the bits of [m]. *)
Lemma synced_bittree F tail tree n : forall symbol m todo P d input,
  0 <= m -> m * 2 ^ Z.of_nat n + 2 ^ Z.of_nat n <= 4294967296 ->
  synced F tail (bittree_symbols tree n symbol m ++ todo) P d input ->
  exists d' input', rc_bittree_decode tree n m P d input =
      Some (m * 2 ^ Z.of_nat n + symbol mod 2 ^ Z.of_nat n, stores P (bittree_symbols tree n symbol m), d', input') /\
    synced F tail todo (stores P (bittree_symbols tree n symbol m)) d' input'.
Proof.
  induction n as [|n IH]; intros symbol m todo P d input Hm Hb Hs.
  - exists d, input. cbn. change (2 ^ 0) with 1. rewrite Z.mod_1_r. split; [do 4 f_equal; lia|exact Hs].
  - replace (Z.of_nat (Datatypes.S n)) with (Z.of_nat n + 1) in * by lia. rewrite Z.pow_add_r in * by lia. change (2 ^ 1) with 2 in *.
    pose proof (Z.pow_pos_nonneg 2 (Z.of_nat n) ltac:(lia) ltac:(lia)) as Hp.
    cbn [bittree_symbols app] in Hs. apply synced_bit in Hs as (d1 & i1 & E & Hs). cbn [rc_bittree_decode bittree_symbols]. rewrite E.
    rewrite land_1, bit_eqb, Z.shiftr_div_pow2 in * by lia. set (q := symbol / 2 ^ Z.of_nat n) in *.
    assert (2 * m + 2 <= 4294967296) as Hm2 by nia.
    assert (u32 (u32 (Z.shiftl m 1) + q mod 2) = push_bit m (Z.odd q)) as Hpush.
    { rewrite push_bit_spec, u32_double by (try lia; Z.div_mod_to_equations; lia). rewrite Zmod_odd. now destruct (Z.odd q). }
    rewrite Hpush in *. apply IH in Hs as (d2 & i2 & E2 & Hs2).
    + exists d2, i2. rewrite E2. split; [|exact Hs2]. unfold stores. cbn [fold_left store_after]. do 4 f_equal. rewrite push_bit_spec by nia.
      rewrite Z.rem_mul_r by lia. fold q. rewrite (Zmod_odd q). destruct (Z.odd q); cbn [Z.b2z]; lia.
    + rewrite push_bit_spec by nia. destruct (Z.odd q); cbn [Z.b2z]; lia.
    + rewrite push_bit_spec by nia. destruct (Z.odd q); cbn [Z.b2z]; nia.
Qed.

(** ** Round trip *)

(** A decoder that asks for the same bits, with the same probabilities. *)
Fixpoint decode_like (todo : list rc_symbol) (P : probs) (d : lzma_range_decoder) (input : bytes) :
  option (list bool * probs * lzma_range_decoder * bytes) :=
  match todo with
  | [] => Some ([], P, d, input)
  | s :: todo =>
      match
        match s with
        | RC_BIT p _ => rc_bit_safe P p d input
        | _ => match rc_direct_safe 0 d input with Some (b, d, input) => Some (b =? 1, P, d, input) | None => None end
        end
      with
      | None => None
      | Some (b, P, d, input) =>
          match decode_like todo P d input with
          | Some (bits, P, d, input) => Some (b :: bits, P, d, input)
          | None => None
          end
      end
  end.

Definition bit_of (s : rc_symbol) : bool := match s with RC_BIT _ b | RC_DIRECT b => b | RC_FLUSH => false end.

Lemma synced_decode_like F tail todo : forall P d input, synced F tail todo P d input ->
  exists d' input', decode_like todo P d input = Some (map bit_of todo, stores P todo, d', input') /\
    synced F tail [] (stores P todo) d' input'.
Proof.
  induction todo as [|s todo IH]; intros P d input Hs; [exists d, input; now split|]. cbn [decode_like map].
  destruct s as [p b|b|].
  - apply synced_bit in Hs as (d1 & i1 & -> & Hs). apply IH in Hs as (d2 & i2 & -> & Hs). exists d2, i2. now split.
  - apply (synced_direct _ _ _ _ _ _ _ 0) in Hs as (d1 & i1 & -> & _ & Hs). apply IH in Hs as (d2 & i2 & -> & Hs). exists d2, i2.
    split; [|exact Hs]. cbn [bit_of stores fold_left store_after]. do 4 f_equal. now destruct b.
  - apply synced_step in Hs as (? & ? & ? & ? & _ & [] & _).
Qed.

(** Calls of [rc_encode] with buffers of the given sizes, until one does not fill
    its buffer. *)
Fixpoint encode_calls (rooms : list nat) (P : probs) (rc : lzma_range_encoder) : option (probs * lzma_range_encoder * bytes) :=
  match rooms with
  | [] => None
  | room :: rooms =>
      let '(full, P, rc, out) := rc_encode room P rc in
      if full then
        match encode_calls rooms P rc with
        | Some (P, rc, out') => Some (P, rc, out ++ out')
        | None => None
        end
      else Some (P, rc, out)
  end.

Lemma loop_flush_last todo : forall a P rc P1 rc1 o, flush_last todo -> rc_encode_loop todo a P rc = (true, P1, rc1, o) ->
  todo = drop (pos rc) (symbols rc) -> flush_last (drop (pos rc1) (symbols rc1)).
Proof.
  intros a P rc P1 rc1 o Hfl E Ht. apply loop_resume in E as (i & -> & -> & _ & _); [|assumption].
  rewrite <- drop_drop, <- Ht. clear -Hfl. revert i. induction todo as [|s todo IH]; intros i; [rewrite drop_nil; exists [], 0%nat; now split|].
  destruct i; [exact Hfl|]. apply IH. now apply flush_last_cons in Hfl.
Qed.

Lemma encode_calls_spec rooms : forall P rc P' rc' out, flush_last (drop (pos rc) (symbols rc)) ->
  (forall a, (length out <= a)%nat -> rc_encode a P rc = (false, P', rc', out)) -> (length out <= sum_list rooms)%nat -> rooms <> [] ->
  encode_calls rooms P rc = Some (P', rc', out).
Proof.
  induction rooms as [|a rooms IH]; intros P rc P' rc' out Hfl Hall Hsum Hne; [congruence|]. cbn [encode_calls sum_list sum_list_with foldr] in *.
  destruct (rc_encode a P rc) as [[[f P1] rc1] o1] eqn:E. destruct f.
  - pose proof (rc_encode_resume a 0 _ _ _ _ _ Hfl E) as [Ho _].
    assert (exists o2, out = o1 ++ o2 /\ forall b, (length o2 <= b)%nat -> rc_encode b P1 rc1 = (false, P', rc', o2)) as (o2 & -> & Hall2).
    { destruct (rc_encode (length out) P1 rc1) as [[[f2 P2] rc2] o2] eqn:E2.
      pose proof (rc_encode_resume a (length out) _ _ _ _ _ Hfl E) as [_ Hr]. rewrite E2, Hall in Hr by lia. injection Hr as <- <- <- Ho2.
      exists o2. split; [assumption|]. intros b Hb. exact (loop_done _ _ _ _ _ _ _ E2 b Hb). }
    assert (rooms <> [] \/ rooms = []) as [Hr| ->] by (destruct rooms; [now right|now left]).
    + rewrite (IH _ _ P' rc' o2); [reflexivity| |assumption| |assumption].
      * exact (loop_flush_last _ _ _ _ _ _ _ Hfl E eq_refl).
      * rewrite length_app in Hsum. cbn in Hsum. lia.
    + exfalso. rewrite length_app in Hsum. cbn in Hsum. rewrite (Hall a) in E by (rewrite length_app; lia). discriminate.
  - pose proof (loop_done _ _ _ _ _ _ _ E (Nat.max (length o1) (length out)) ltac:(lia)) as Hx.
    pose proof (Hall (Nat.max (length o1) (length out)) ltac:(lia)) as Hy. unfold rc_encode in Hy. rewrite Hx in Hy.
    now injection Hy as <- <- <-.
Qed.

(** ** The dummy encoder *)

Definition counts (out_limit : Z) (rc : lzma_range_encoder) : Prop := 0 <= out_total rc <= out_limit.
Definition room_left (out_limit : Z) (rc : lzma_range_encoder) : nat := Z.to_nat (out_limit - out_total rc).

(** What the dummy version of a function has to do. *)
Definition counted (out_limit : Z) (real : bool * lzma_range_encoder * bytes) (dummy : bool * lzma_range_encoder)
    (rc : lzma_range_encoder) : Prop :=
  let '(f, rc', o) := real in
  dummy = (f, rc') /\ counts out_limit rc' /\ room_left out_limit rc' = (room_left out_limit rc - length o)%nat.

Lemma shift_low_loop_counted out_limit n : out_limit < 18446744073709551616 -> forall rc, counts out_limit rc ->
  counted out_limit (shift_low_loop n (room_left out_limit rc) rc) (shift_low_loop_dummy n out_limit rc) rc.
Proof.
  intros Hlim. unfold counted. induction n as [|n IH]; intros rc Hc; cbn [shift_low_loop shift_low_loop_dummy].
  - split_and!; try reflexivity; [apply Hc..|cbn; lia].
  - unfold counts, room_left in *. destruct (Z.eqb_spec (out_total rc) out_limit) as [E|E].
    + replace (Z.to_nat (out_limit - out_total rc)) with 0%nat by lia. split_and!; try reflexivity; [apply Hc..|cbn; lia].
    + destruct (Z.to_nat (out_limit - out_total rc)) as [|m] eqn:Em; [lia|].
      set (rc1 := set_cache (set_out_total rc (u64 (out_total rc + 1))) (cache_size rc - 1) 255).
      assert (out_total rc1 = out_total rc + 1) as H1 by (cbn; apply u64_small; unfold is_u64; lia).
      specialize (IH rc1 ltac:(lia)). rewrite H1 in IH. replace (Z.to_nat (out_limit - (out_total rc + 1))) with m in IH by lia.
      destruct (shift_low_loop n m rc1) as [[f r] o]. destruct IH as (-> & Hc' & Hr). split_and!; try reflexivity; [apply Hc'..|cbn [length]; lia].
Qed.

Lemma rc_shift_low_counted out_limit rc : out_limit < 18446744073709551616 -> counts out_limit rc ->
  counted out_limit (rc_shift_low (room_left out_limit rc) rc) (rc_shift_low_dummy out_limit rc) rc.
Proof.
  intros Hlim Hc. unfold rc_shift_low, rc_shift_low_dummy. destruct (low_is_settled _).
  - pose proof (shift_low_loop_counted out_limit (Z.to_nat (cache_size rc)) Hlim rc Hc) as H1. unfold counted in *.
    destruct (shift_low_loop _ _ _) as [[f r] o]. destruct H1 as (-> & Hc1 & Hr). destruct f; now split_and!.
  - unfold counted. split_and!; try reflexivity; [apply Hc..|cbn; unfold room_left; cbn; lia].
Qed.

Lemma normalize_counted out_limit rc : out_limit < 18446744073709551616 -> counts out_limit rc ->
  counted out_limit (rc_normalize_enc (room_left out_limit rc) rc)
    (if range rc <? RC_TOP_VALUE then
      let '(full, rc) := rc_shift_low_dummy out_limit rc in
      if full then (true, rc) else (false, set_range rc (u32 (Z.shiftl (range rc) RC_SHIFT_BITS)))
    else (false, rc)) rc.
Proof.
  intros Hlim Hc. unfold rc_normalize_enc. destruct (_ <? _).
  - pose proof (rc_shift_low_counted out_limit rc Hlim Hc) as H1. unfold counted in *.
    destruct (rc_shift_low _ _) as [[f r] o]. destruct H1 as (-> & Hc1 & Hr). destruct f; now split_and!.
  - unfold counted. split_and!; try reflexivity; [apply Hc..|cbn; lia].
Qed.

(** [range] and [pos] do not matter when [low] is shifted out. *)
Definition dress (rc : lzma_range_encoder) (r : Z) (n : nat) : lzma_range_encoder := set_pos (set_range rc r) n.

Lemma shift_low_loop_dummy_dress k out_limit r n : forall rc, shift_low_loop_dummy k out_limit (dress rc r n) =
  let '(f, rc') := shift_low_loop_dummy k out_limit rc in (f, dress rc' r n).
Proof.
  induction k as [|k IH]; intros rc; cbn [shift_low_loop_dummy]; [reflexivity|].
  change (out_total (dress rc r n)) with (out_total rc). destruct (_ =? _); [reflexivity|].
  change (set_cache (set_out_total (dress rc r n) ?t) ?x ?y) with (dress (set_cache (set_out_total rc t) x y) r n). apply IH.
Qed.

Lemma rc_shift_low_dummy_dress out_limit r n rc : rc_shift_low_dummy out_limit (dress rc r n) =
  let '(f, rc') := rc_shift_low_dummy out_limit rc in (f, dress rc' r n).
Proof.
  unfold rc_shift_low_dummy. change (low (dress rc r n)) with (low rc). destruct (low_is_settled _); [|reflexivity].
  change (cache_size (dress rc r n)) with (cache_size rc). rewrite shift_low_loop_dummy_dress.
  destruct (shift_low_loop_dummy _ _ rc) as [f rc']. now destruct f.
Qed.

Lemma flush_loop_dummy_dress k out_limit r n : forall rc, flush_loop_dummy k out_limit (dress rc r n) = flush_loop_dummy k out_limit rc.
Proof.
  induction k as [|k IH]; intros rc; cbn [flush_loop_dummy]; [reflexivity|]. rewrite rc_shift_low_dummy_dress.
  destruct (rc_shift_low_dummy out_limit rc) as [f rc']. destruct f; [reflexivity|apply IH].
Qed.

Lemma flush_loop_counted out_limit l : out_limit < 18446744073709551616 -> forall rc, counts out_limit rc ->
  flush_loop_dummy (length l) out_limit rc = (flush_loop l (room_left out_limit rc) rc).1.1.
Proof.
  intros Hlim. induction l as [|s l IH]; intros rc Hc; cbn [flush_loop flush_loop_dummy length]; [reflexivity|].
  pose proof (rc_shift_low_counted out_limit rc Hlim Hc) as H1. unfold counted in H1.
  destruct (rc_shift_low _ _) as [[f r] o]. destruct H1 as (-> & Hc1 & Hr). destruct f; [reflexivity|].
  rewrite <- Hr. rewrite <- (flush_loop_dummy_dress _ _ (range r) (Datatypes.S (pos r))).
  replace (dress r (range r) (Datatypes.S (pos r))) with (set_pos r (Datatypes.S (pos r))) by (now destruct r).
  rewrite IH by exact Hc1. change (room_left out_limit (set_pos r (Datatypes.S (pos r)))) with (room_left out_limit r).
  now destruct (flush_loop l _ _) as [[f2 r2] o2].
Qed.

(** The pointers of the probabilities that are used. *)
Fixpoint pointers (todo : list rc_symbol) : list ptr :=
  match todo with
  | [] => []
  | RC_BIT p _ :: todo => p :: pointers todo
  | _ :: todo => pointers todo
  end.

Definition agree (P Q : probs) (todo : list rc_symbol) : Prop := Forall (fun p => prob_at P p = prob_at Q p) (pointers todo).

Lemma agree_after P Q s todo : NoDup (pointers (s :: todo)) -> agree P Q (s :: todo) -> agree P (store_after Q s) todo.
Proof.
  unfold agree. destruct s as [p b|b|]; cbn [pointers store_after]; auto. intros Hnd HF. apply NoDup_cons in Hnd as [Hp _].
  apply Forall_cons in HF as [_ HF]. rewrite Forall_forall in *. intros q Hq. rewrite prob_at_update. case_bool_decide; [now subst|]. now apply HF.
Qed.

Lemma encode_loop_counted out_limit todo : out_limit < 18446744073709551616 -> forall P Q rc, NoDup (pointers todo) ->
  Forall (fun s => s <> RC_FLUSH) todo -> agree P Q todo -> counts out_limit rc ->
  encode_loop_dummy todo out_limit P rc = (rc_encode_loop (todo ++ flush_symbols) (room_left out_limit rc) Q rc).1.1.1.
Proof.
  intros Hlim. induction todo as [|s todo IH]; intros P Q rc Hnd Hfl Hag Hc.
  - unfold flush_symbols. cbn [app replicate encode_loop_dummy rc_encode_loop].
    pose proof (normalize_counted out_limit rc Hlim Hc) as H1. unfold counted in H1.
    destruct (rc_normalize_enc _ _) as [[f r] o]. destruct H1 as (-> & Hc1 & Hr). destruct f; [reflexivity|].
    rewrite <- Hr. rewrite <- (flush_loop_dummy_dress _ _ UINT32_MAX (pos r)).
    replace (dress r UINT32_MAX (pos r)) with (set_range r UINT32_MAX) by (now destruct r).
    change (room_left out_limit r) with (room_left out_limit (set_range r UINT32_MAX)).
    change 5%nat with (length [@RC_FLUSH; RC_FLUSH; RC_FLUSH; RC_FLUSH; RC_FLUSH]). rewrite flush_loop_counted by assumption.
    destruct (flush_loop _ _ _) as [[f2 r2] o2]. now destruct f2.
  - cbn [app encode_loop_dummy rc_encode_loop]. pose proof (normalize_counted out_limit rc Hlim Hc) as H1. unfold counted in H1.
    destruct (rc_normalize_enc _ _) as [[f r] o]. destruct H1 as (-> & Hc1 & Hr). destruct f; [reflexivity|].
    apply Forall_cons in Hfl as [Hs Hfl].
    assert (encode_bit Q r s = (store_after Q s, (encode_bit P r s).2)) as Eb.
    { destruct s as [p b|b|]; [| |congruence]; [|now destruct b]. apply Forall_cons in Hag as [Hp _].
      destruct b; cbn [encode_bit store_after snd]; now rewrite Hp. }
    set (r2 := (encode_bit P r s).2) in *.
    assert (out_total r2 = out_total r) as Ht by (unfold r2; destruct s as [p []|[]|]; reflexivity).
    specialize (IH P (store_after Q s) (set_pos r2 (Datatypes.S (pos r2)))).
    cbv zeta. rewrite IH; [|now destruct s; cbn in Hnd; [apply NoDup_cons in Hnd as [_ ?]|..]|assumption|now apply agree_after|unfold counts in *; cbn; rewrite Ht; apply Hc1].
    clear IH. unfold room_left in *. cbn [out_total set_pos]. rewrite Ht, Hr. destruct s; [| |congruence]; rewrite Eb;
      destruct (rc_encode_loop _ _ _ _) as [[[f3 P3] r3] o3]; reflexivity.
Qed.

Lemma flush_last_symbols P todo : Forall (symbol_ok P) todo -> flush_last (todo ++ flush_symbols).
Proof.
  intros Hs. exists todo, 5%nat. split; [reflexivity|]. eapply Forall_impl; [exact Hs|]. intros s. apply symbol_ok_no_flush.
Qed.

(** Whether the symbols that are queued fit in [out_limit] bytes with the flush
    that follows them is known without encoding them, if no probability is used
    twice. *)
Lemma rc_encode_dummy_spec P rc out_limit : let todo := drop (pos rc) (symbols rc) in
  out_limit < 18446744073709551616 -> NoDup (pointers todo) -> Forall (fun s => s <> RC_FLUSH) todo -> counts out_limit rc ->
  rc_encode_dummy P rc out_limit = (rc_encode_loop (todo ++ flush_symbols) (room_left out_limit rc) P rc).1.1.1.
Proof. intros todo Hlim Hnd Hfl Hc. apply encode_loop_counted; try assumption. now apply Forall_forall. Qed.

(** C5: the range coder. Whatever bits are queued, with whatever
    probabilities, and however the output is cut into buffers, the encoder
    writes one byte sequence; a decoder that asks for the bits with the same
    probabilities finds them, leaves the same probabilities behind as the
    encoder, reads all that was written and nothing of what follows, and ends
    with [code] zero. *)
Theorem range_coder_roundtrip (P : probs) (todo : list rc_symbol) (tail : bytes) :
  Forall (symbol_ok P) todo -> zlen todo + 7 < 18446744073709551616 ->
  exists out,
    (forall rooms, rooms <> [] -> (length out <= sum_list rooms)%nat ->
      encode_calls rooms P (rc_queue rc_reset (todo ++ flush_symbols)) = Some (stores P todo, rc_reset, out)) /\
    exists d input d' input' d'',
      rc_read_init rc_reset_decoder (out ++ tail) = (LZMA_STREAM_END, d, input) /\
      decode_like todo P d input = Some (map bit_of todo, stores P todo, d', input') /\
      rc_normalize_safe d' input' = Some (d'', tail) /\ rc_is_finished d'' = true.
Proof.
  intros Hs Hl. assert (fits rc_reset todo) as Hf by (unfold fits; cbn [cache_size rc_reset]; lia).
  destruct (encode_enough todo (7 + length todo) P rc_reset encoder_inv_reset Hs Hf) as [out Hout]; [cbn [cache_size rc_reset]; lia|].
  exists out. split.
  - intros rooms Hne Hsum. apply encode_calls_spec; [now apply (flush_last_symbols P)| |assumption|assumption].
    intros a Ha. unfold rc_encode. cbn [rc_queue symbols pos rc_reset app drop].
    apply (loop_with_queue _ (todo ++ flush_symbols) 0) in Hout. exact (loop_done _ _ _ _ _ _ _ Hout a Ha).
  - assert (encodes out todo P rc_reset []) as He by (eexists _, _, _, _; split; [exact Hout|reflexivity]).
    destruct (synced_start out tail todo P Hs Hf He) as (d & input & E1 & Hsync).
    destruct (synced_decode_like _ _ _ _ _ _ Hsync) as (d' & input' & E2 & Hsync').
    destruct (synced_end _ _ _ _ _ Hsync') as (d'' & E3 & E4). eauto 12.
Qed.

End Coders.

Arguments lzma_range_encoder : clear implicits.
Arguments rc_symbol : clear implicits.

Definition example_symbols : list (rc_symbol nat) :=
  bittree_symbols (fun i => Z.to_nat i) 8 77 1 ++ direct_symbols 11 5 ++ bittree_symbols (fun i => Z.to_nat i) 8 78 1.

Definition example_probs : gmap nat Z := fold_left bit_reset (seq 0 256) ∅.

Lemma range_coder_roundtrip_witness :
  Forall (symbol_ok example_probs) example_symbols /\
  exists out,
    (forall rooms, rooms <> [] -> (length out <= sum_list rooms)%nat ->
      encode_calls rooms example_probs (rc_queue rc_reset (example_symbols ++ flush_symbols)) =
        Some (stores example_probs example_symbols, rc_reset, out)) /\
    exists d input d' input' d'',
      rc_read_init rc_reset_decoder (out ++ [1; 2]) = (LZMA_STREAM_END, d, input) /\
      decode_like example_symbols example_probs d input =
        Some (map bit_of example_symbols, stores example_probs example_symbols, d', input') /\
      rc_normalize_safe d' input' = Some (d'', [1; 2]) /\ rc_is_finished d'' = true.
Proof.
  assert (Forall (symbol_ok example_probs) example_symbols) as H.
  { repeat constructor; vm_compute; congruence. }
  split; [exact H|]. apply range_coder_roundtrip; [exact H|vm_compute; reflexivity].
Defined.
