(* ===== verification/LzDict.v ===== *)
(** * The dictionary of the LZ decoders

    [lib/archive/xz/src/liblzma/lz/lz_decoder.h] and [lz_decoder.c]: the sliding
    window in which LZMA data are decoded, and the loop that moves them to the
    application.  The window is a buffer whose last bytes are copied to its
    beginning when it is full; to the LZMA decoder it looks like the sequence of
    all bytes that were decoded, of which the last ones can be reached.  The
    typeclass [Window] is that view; [lzma_dict] implements it and [history] is
    its specification. *)

From Stdlib Require Import ZArith Lia.
From stdpp Require Import list.
From S2P Require Import Prelude Coder.

Definition LZ_DICT_REPEAT_MAX : Z := 288.
Definition LZ_DICT_INIT_POS : Z := 2 * LZ_DICT_REPEAT_MAX.

(** ** [lzma_dict] *)

Record lzma_dict := mk_dict {
  buf : bytes;
  dpos : Z;
  full : Z;
  limit : Z;
  size : Z;
  has_wrapped : bool;
  need_reset : bool;
}.

Definition set_buf (d : lzma_dict) (b : bytes) (p : Z) : lzma_dict :=
  mk_dict b p (full d) (limit d) (size d) (has_wrapped d) (need_reset d).
Definition set_limit (d : lzma_dict) (l : Z) : lzma_dict :=
  mk_dict (buf d) (dpos d) (full d) l (size d) (has_wrapped d) (need_reset d).

(** [if (!dict->has_wrapped) dict->full = dict->pos - LZ_DICT_INIT_POS;] *)
Definition update_full (d : lzma_dict) : lzma_dict :=
  mk_dict (buf d) (dpos d) (if has_wrapped d then full d else dpos d - LZ_DICT_INIT_POS) (limit d) (size d)
    (has_wrapped d) (need_reset d).

Definition dict_get (d : lzma_dict) (distance : Z) : Z :=
  byte_at (buf d) (dpos d - distance - 1 + (if distance <? dpos d then 0 else size d - LZ_DICT_REPEAT_MAX)).

Definition dict_get0 (d : lzma_dict) : Z := byte_at (buf d) (dpos d - 1).

Definition dict_is_empty (d : lzma_dict) : bool := full d =? 0.

Definition dict_is_distance_valid (d : lzma_dict) (distance : Z) : bool := full d >? distance.

(** [buf[i] = byte] *)
Definition store (b : bytes) (i : Z) (byte : Z) : bytes := <[Z.to_nat i := byte]> b.

(** The bytes [l] are stored from [buf + i] on. *)
Definition store_bytes (b : bytes) (i : Z) (l : bytes) : bytes := take (Z.to_nat i) b ++ l ++ drop (Z.to_nat i + length l) b.

(** [while (left-- > 0) dict->buf[dict->pos++] = dict->buf[back++];] *)
Fixpoint copy_loop (n : nat) (b : bytes) (p back : Z) : bytes :=
  match n with
  | O => b
  | S n => copy_loop n (store b p (byte_at b back)) (p + 1) (back + 1)
  end.

(** The loop that copies 32 bytes at a time, with the number of its rounds. *)
Fixpoint sse2_loop (rounds : nat) (b : bytes) (p back : Z) : bytes :=
  match rounds with
  | O => b
  | S rounds => sse2_loop rounds (store_bytes b p (slice back 32 b)) (p + 32) (back + 32)
  end.

(** The three variants of [dict_repeat], chosen by [LZMA_LZ_DECODER_CONFIG]. *)
Inductive dict_config := byte_by_byte | use_memcpy | use_sse2.

Definition LZ_DICT_EXTRA (config : dict_config) : Z := match config with use_sse2 => 32 | _ => 0 end.

Definition copy (config : dict_config) (left distance : Z) (b : bytes) (p back : Z) : bytes :=
  match config with
  | byte_by_byte => copy_loop (Z.to_nat left) b p back
  | _ =>
      if distance <? left then copy_loop (Z.to_nat left) b p back
      else
        match config with
        | use_sse2 => sse2_loop (Z.to_nat (Z.max 1 ((left + 31) / 32))) b p back
        | _ => store_bytes b p (slice back left b)
        end
  end.

Definition dict_repeat (config : dict_config) (d : lzma_dict) (distance len : Z) : bool * lzma_dict * Z :=
  let dict_avail := limit d - dpos d in
  let left := Z.min dict_avail len in
  let len := len - left in
  let back := dpos d - distance - 1 + (if distance >=? dpos d then size d - LZ_DICT_REPEAT_MAX else 0) in
  let d := update_full (set_buf d (copy config left distance (buf d) (dpos d) back) (dpos d + left)) in
  (negb (len =? 0), d, len).

Definition dict_put (d : lzma_dict) (byte : Z) : lzma_dict :=
  update_full (set_buf d (store (buf d) (dpos d) byte) (dpos d + 1)).

(** [true]: the dictionary is full and nothing was stored. *)
Definition dict_put_safe (d : lzma_dict) (byte : Z) : bool * lzma_dict :=
  if dpos d =? limit d then (true, d) else (false, dict_put d byte).

(** What is left of the input, and of [left]. *)
Definition dict_write (d : lzma_dict) (input : bytes) (left : Z) : lzma_dict * bytes * Z :=
  let n := Z.min (Z.min (zlen input) left) (limit d - dpos d) in
  (update_full (set_buf d (store_bytes (buf d) (dpos d) (slice 0 n input)) (dpos d + n)), from n input, left - n).

Definition dict_reset (d : lzma_dict) : lzma_dict :=
  mk_dict (buf d) (dpos d) (full d) (limit d) (size d) (has_wrapped d) true.

Definition lz_decoder_reset (d : lzma_dict) : lzma_dict :=
  mk_dict (store (buf d) (LZ_DICT_INIT_POS - 1) 0) LZ_DICT_INIT_POS 0 (limit d) (size d) false false.

(** The wrap of [decode_buffer]. *)
Definition wrap (d : lzma_dict) : lzma_dict :=
  if dpos d =? size d then
    mk_dict (store_bytes (buf d) 0 (slice (size d - LZ_DICT_REPEAT_MAX) LZ_DICT_REPEAT_MAX (buf d)))
      LZ_DICT_REPEAT_MAX (full d) (limit d) (size d) true (need_reset d)
  else d.

(** The part of [lzma_lz_decoder_init] that makes the dictionary: [None] when the
    buffer cannot be allocated; [mem] is what the fresh buffer of a given size
    contains. *)
Definition alloc_size (dict_size : Z) : Z := Z.land (Z.max dict_size 4096 + 15) (Z.lnot 15) + 2 * LZ_DICT_REPEAT_MAX.

Definition dict_init (config : dict_config) (mem : Z -> option bytes) (dict_size : Z) (preset_dict : bytes) : res lzma_dict :=
  if Z.max dict_size 4096 >? UINT64_MAX - 15 - 2 * LZ_DICT_REPEAT_MAX - LZ_DICT_EXTRA config then Err LZMA_MEM_ERROR
  else
    match mem (alloc_size dict_size + LZ_DICT_EXTRA config) with
    | None => Err LZMA_MEM_ERROR
    | Some b =>
        let d := lz_decoder_reset (mk_dict b 0 0 0 (alloc_size dict_size) false false) in
        let copy_size := Z.min (zlen preset_dict) (alloc_size dict_size - 2 * LZ_DICT_REPEAT_MAX) in
        let offset := zlen preset_dict - copy_size in
        if zlen preset_dict >? 0 then
          Ok (mk_dict (store_bytes (buf d) (dpos d) (from offset preset_dict)) (dpos d + copy_size) copy_size
                (limit d) (size d) (has_wrapped d) (need_reset d))
        else Ok d
    end.

(** ** The view of the decoder *)

Class Window (D : Type) := {
  window_pos : D -> Z;
  window_at_limit : D -> bool;
  window_avail : D -> Z;
  window_get : D -> Z -> Z;
  window_get0 : D -> Z;
  window_valid : D -> Z -> bool;
  window_put : D -> Z -> D;
  window_repeat : D -> Z -> Z -> bool * D * Z;
  window_write : D -> bytes -> Z -> D * bytes * Z;
  window_reset : D -> D;
  window_shrink : D -> Z -> D;
}.

(** [dict.limit = dict.pos + n] *)
Definition dict_shrink (d : lzma_dict) (n : Z) : lzma_dict := set_limit d (dpos d + n).

Definition dict_window (config : dict_config) : Window lzma_dict := {|
  window_pos := dpos;
  window_at_limit d := dpos d =? limit d;
  window_avail d := limit d - dpos d;
  window_get := dict_get;
  window_get0 := dict_get0;
  window_valid := dict_is_distance_valid;
  window_put := dict_put;
  window_repeat := dict_repeat config;
  window_write := dict_write;
  window_reset := dict_reset;
  window_shrink := dict_shrink;
|}.

(** *** The sequence of decoded bytes *)

Record history := mk_history {
  hist : bytes;
  avail : Z;
  capacity : Z;
  wants_reset : bool;
}.

(** The byte that was decoded [distance + 1] bytes ago. *)
Definition byte_back (l : bytes) (distance : Z) : Z := byte_at l (zlen l - 1 - distance).

Definition push (h : history) (l : bytes) : history := mk_history (hist h ++ l) (avail h - zlen l) (capacity h) (wants_reset h).

Fixpoint repeat_bytes (n : nat) (l : bytes) (distance : Z) : bytes :=
  match n with
  | O => []
  | S n => let b := byte_back l distance in b :: repeat_bytes n (l ++ [b]) distance
  end.

#[export] Instance history_window : Window history := {|
  window_pos h := zlen (hist h);
  window_at_limit h := avail h =? 0;
  window_avail := avail;
  window_get h := byte_back (hist h);
  window_get0 h := match hist h with [] => 0 | _ => byte_back (hist h) 0 end;
  window_valid h distance := Z.min (zlen (hist h)) (capacity h) >? distance;
  window_put h b := push h [b];
  window_repeat h distance len :=
    let n := Z.min (avail h) len in
    (negb (len - n =? 0), push h (repeat_bytes (Z.to_nat n) (hist h) distance), len - n);
  window_write h input left :=
    let n := Z.min (Z.min (zlen input) left) (avail h) in
    (push h (slice 0 n input), from n input, left - n);
  window_reset h := mk_history (hist h) (avail h) (capacity h) true;
  window_shrink h n := mk_history (hist h) n (capacity h) (wants_reset h);
|}.

(** ** The dictionary implements the sequence *)

(** [recent]: the bytes below the write position; [old]: those that are left of
    the round before, of which the last [LZ_DICT_REPEAT_MAX] are at the beginning
    of the buffer, too. *)
Record dict_ok (config : dict_config) (d : lzma_dict) (h : history) : Prop := {
  ok_size : 4672 <= size d /\ size d mod 16 = 0 /\ size d + LZ_DICT_EXTRA config <= zlen (buf d);
  ok_pos : LZ_DICT_REPEAT_MAX <= dpos d <= size d;
  ok_avail : avail h = limit d - dpos d /\ 0 <= avail h /\ limit d <= size d;
  ok_dict_size : capacity h = size d - LZ_DICT_INIT_POS;
  ok_reset : need_reset d = wants_reset h;
  ok_full : full d = Z.min (zlen (hist h)) (capacity h);
  ok_align : (dpos d - zlen (hist h)) mod 16 = 0;
  ok_unwrapped : has_wrapped d = false ->
    dpos d = LZ_DICT_INIT_POS + zlen (hist h) /\ byte_at (buf d) (LZ_DICT_INIT_POS - 1) = 0;
  ok_wrapped : has_wrapped d = true -> capacity h <= zlen (hist h) /\ dpos d <= zlen (hist h);
  ok_recent : forall i, 0 <= i < (if has_wrapped d then dpos d else zlen (hist h)) ->
    byte_at (buf d) (dpos d - 1 - i) = byte_back (hist h) i;
  ok_old : has_wrapped d = true -> forall i, 0 <= i -> dpos d - LZ_DICT_REPEAT_MAX <= i < capacity h ->
    byte_at (buf d) (dpos d - i - 1 + size d - LZ_DICT_REPEAT_MAX) = byte_back (hist h) i;
}.

(** [b'] is [b] with [l] at [p], and perhaps other changes in the [slack] bytes
    after it. *)
Record written (b b' : bytes) (p : Z) (l : bytes) (slack : Z) : Prop := {
  wr_length : length b' = length b;
  wr_before : forall i, 0 <= i < p -> byte_at b' i = byte_at b i;
  wr_at : forall i, 0 <= i < zlen l -> byte_at b' (p + i) = byte_at l i;
  wr_after : forall i, p + zlen l + slack <= i -> byte_at b' i = byte_at b i;
}.

Lemma byte_back_app l k i : 0 <= i < zlen l + zlen k ->
  byte_back (l ++ k) i = if i <? zlen k then byte_back k i else byte_back l (i - zlen k).
Proof.
  intros Hi. unfold byte_back. rewrite length_app, byte_at_app by lia. destruct (Z.ltb_spec i (zlen k)).
  - rewrite (proj2 (Z.ltb_ge _ _)) by lia. f_equal. lia.
  - rewrite (proj2 (Z.ltb_lt _ _)) by lia. f_equal. lia.
Qed.

Lemma written_store b p x : 0 <= p < zlen b -> written b (store b p x) p [x] 0.
Proof.
  intros Hp. unfold store. assert (forall i, 0 <= i -> byte_at (<[Z.to_nat p := x]> b) i = if i =? p then x else byte_at b i) as Hg.
  { intros i Hi. unfold byte_at. rewrite !nth_lookup. destruct (Z.eqb_spec i p) as [->|Hne].
    - now rewrite list_lookup_insert_eq by lia.
    - now rewrite list_lookup_insert_ne by lia. }
  constructor; [apply length_insert|..]; intros i Hi; cbn [length] in *; rewrite Hg by lia.
  - now rewrite (proj2 (Z.eqb_neq _ _)) by lia.
  - rewrite (proj2 (Z.eqb_eq _ _)) by lia. now replace i with 0 by lia.
  - now rewrite (proj2 (Z.eqb_neq _ _)) by lia.
Qed.

Lemma store_bytes_at b p l i : 0 <= p -> p + zlen l <= zlen b -> 0 <= i ->
  byte_at (store_bytes b p l) i = if (p <=? i) && (i <? p + zlen l) then byte_at l (i - p) else byte_at b i.
Proof.
  intros Hp Hl Hi. unfold store_bytes. rewrite byte_at_app by lia. rewrite length_take. replace (Z.of_nat (Z.to_nat p `min` length b)) with p by lia.
  destruct (Z.ltb_spec i p) as [Hlt|Hge].
  - rewrite (proj2 (Z.leb_gt _ _)) by lia. cbn [andb]. unfold byte_at. rewrite !nth_lookup, lookup_take. now rewrite decide_True by lia.
  - rewrite (proj2 (Z.leb_le _ _)) by lia. cbn [andb]. rewrite byte_at_app by lia.
    destruct (Z.ltb_spec (i - p) (zlen l)); destruct (Z.ltb_spec i (p + zlen l)); try lia.
    unfold byte_at. rewrite !nth_lookup, lookup_drop. do 2 f_equal. lia.
Qed.

Lemma length_store_bytes b p l : 0 <= p -> p + zlen l <= zlen b -> length (store_bytes b p l) = length b.
Proof. intros Hp Hl. unfold store_bytes. rewrite !length_app, length_take, length_drop. lia. Qed.

Lemma written_store_bytes b p l : 0 <= p -> p + zlen l <= zlen b -> written b (store_bytes b p l) p l 0.
Proof.
  intros Hp Hl. constructor; [now apply length_store_bytes|..]; intros i Hi; rewrite store_bytes_at by lia.
  - now rewrite (proj2 (Z.leb_gt _ _)) by lia.
  - rewrite (proj2 (Z.leb_le _ _)), (proj2 (Z.ltb_lt _ _)) by lia. cbn [andb]. f_equal. lia.
  - rewrite (proj2 (Z.ltb_ge _ _)) by lia. now rewrite andb_false_r.
Qed.

Section Config.
Context (config : dict_config).

Lemma extra_nonneg : 0 <= LZ_DICT_EXTRA config <= 32.
Proof. destruct config; cbn; lia. Qed.

(** New bytes in the buffer are new bytes of the sequence. *)
Lemma push_ok d h b' l slack : dict_ok config d h -> written (buf d) b' (dpos d) l slack -> 0 <= slack <= 32 -> zlen l <= avail h ->
  dict_ok config (update_full (set_buf d b' (dpos d + zlen l))) (push h l).
Proof.
  intros [Hsz Hp Hav Hds Hnr Hf Hal Huw Hw Hrec Hold] [Wl Wb Wa Waf] Hsl Hl. unfold LZ_DICT_INIT_POS, LZ_DICT_REPEAT_MAX in *.
  constructor; cbn [buf dpos full limit size has_wrapped set_buf update_full hist avail capacity push];
    rewrite ?length_app, ?Nat2Z.inj_add; unfold LZ_DICT_INIT_POS, LZ_DICT_REPEAT_MAX in *.
  - rewrite Wl. exact Hsz.
  - lia.
  - lia.
  - lia.
  - exact Hnr.
  - destruct (has_wrapped d); [destruct (Hw eq_refl)|destruct (Huw eq_refl)]; lia.
  - rewrite <- Hal. f_equal. lia.
  - intros Hh. destruct (Huw Hh) as [H1 H2]. rewrite Wb by lia. split; [lia|exact H2].
  - intros Hh. destruct (Hw Hh). lia.
  - intros i Hi. assert (0 <= i < zlen (hist h) + zlen l) as Hi2 by (destruct (has_wrapped d); [destruct (Hw eq_refl)|]; lia).
    rewrite byte_back_app by exact Hi2. destruct (Z.ltb_spec i (zlen l)).
    + replace (dpos d + zlen l - 1 - i) with (dpos d + (zlen l - 1 - i)) by lia. apply Wa. lia.
    + assert (i - zlen l < dpos d) by (destruct (has_wrapped d); [lia|destruct (Huw eq_refl); lia]).
      rewrite Wb by lia. rewrite <- Hrec by (destruct (has_wrapped d); lia). f_equal. lia.
  - intros Hh i Hi1 Hi2. destruct (Hw Hh) as [H1 H2]. rewrite byte_back_app by lia. rewrite (proj2 (Z.ltb_ge _ _)) by lia.
    rewrite Waf by lia. rewrite <- Hold by (assumption || lia). f_equal. lia.
Qed.

Lemma put_ok d h b : dict_ok config d h -> 0 < avail h -> dict_ok config (dict_put d b) (push h [b]).
Proof.
  intros Hok Hav. pose proof Hok as [Hsz Hp Ha _ _ _ _ _ _ _ _]. unfold LZ_DICT_REPEAT_MAX in *. pose proof extra_nonneg.
  apply (push_ok d h _ [b] 0); [assumption|apply written_store; lia|lia|cbn; lia].
Qed.

Lemma dict_write_ok d h input left : dict_ok config d h -> 0 <= left ->
  let '(d', rest, n) := dict_write d input left in
  let '(h', rest', n') := window_write h input left in
  rest = rest' /\ n = n' /\ dict_ok config d' h'.
Proof.
  intros Hok Hleft. pose proof Hok as [Hsz Hp Ha _ _ _ _ _ _ _ _]. unfold dict_write, LZ_DICT_REPEAT_MAX in *. pose proof extra_nonneg.
  cbn [window_write history_window]. replace (limit d - dpos d) with (avail h) by lia. split_and!; [reflexivity..|].
  set (n := Z.min _ (avail h)). assert (zlen (slice 0 n input) = n) as Hn by (unfold slice, from; rewrite length_take, length_drop; lia).
  rewrite <- Hn at 2. apply (push_ok d h _ _ 0); [assumption|apply written_store_bytes; lia|lia|lia].
Qed.

Lemma dict_reset_ok d h : dict_ok config d h -> dict_ok config (dict_reset d) (window_reset h).
Proof. intros []. now constructor. Qed.

(** Where a byte of the sequence is found. *)
Lemma get_ok d h distance : dict_ok config d h -> 0 <= distance < full d -> dict_get d distance = byte_back (hist h) distance.
Proof.
  intros [Hsz Hp Ha Hds Hnr Hf _ Huw Hw Hrec Hold] Hd. unfold dict_get. destruct (Z.ltb_spec distance (dpos d)).
  - rewrite Z.add_0_r. rewrite <- Hrec by (destruct (has_wrapped d); lia). f_equal. lia.
  - assert (has_wrapped d = true) as Hh by (destruct (has_wrapped d); [reflexivity|destruct (Huw eq_refl); unfold LZ_DICT_INIT_POS, LZ_DICT_REPEAT_MAX in *; lia]).
    rewrite <- (Hold Hh) by (unfold LZ_DICT_REPEAT_MAX; lia). f_equal. lia.
Qed.

Lemma get0_ok d h : dict_ok config d h -> dict_get0 d = match hist h with [] => 0 | _ => byte_back (hist h) 0 end.
Proof.
  intros [Hsz Hp Ha Hds Hnr Hf _ Huw Hw Hrec Hold]. unfold dict_get0. destruct (hist h) as [|x l] eqn:El.
  - destruct (has_wrapped d); [destruct (Hw eq_refl) as [H1 _]; cbn in H1; unfold LZ_DICT_INIT_POS, LZ_DICT_REPEAT_MAX in *; lia|].
    destruct (Huw eq_refl) as [H1 H2]. rewrite H1. exact H2.
  - rewrite <- Hrec; [f_equal; lia|]. unfold LZ_DICT_REPEAT_MAX in *. destruct (has_wrapped d); cbn [length]; lia.
Qed.

(** *** Copying *)

Lemma repeat_bytes_length n : forall l distance, length (repeat_bytes n l distance) = n.
Proof. induction n as [|n IH]; intros l distance; cbn; auto. Qed.

Lemma repeat_bytes_far n : forall l distance j, 0 <= distance < zlen l -> Z.of_nat n <= distance + 1 -> 0 <= j < Z.of_nat n ->
  byte_at (repeat_bytes n l distance) j = byte_back l (distance - j).
Proof.
  induction n as [|n IH]; intros l distance j Hd Hn Hj; [lia|]. cbn [repeat_bytes]. destruct (Z.eqb_spec j 0) as [->|Hj0].
  - now rewrite Z.sub_0_r.
  - replace j with (j - 1 + 1) at 1 by lia. rewrite byte_at_S by lia. rewrite IH by (rewrite ?length_app; cbn [length]; lia).
    rewrite byte_back_app by (cbn [length]; lia). cbn [length]. rewrite (proj2 (Z.ltb_ge _ _)) by lia. f_equal. lia.
Qed.

(** The source of a copy. *)
Definition source (d : lzma_dict) (distance n back : Z) : Prop :=
  (distance < dpos d /\ back = dpos d - distance - 1) \/
  (has_wrapped d = true /\ back = dpos d - distance - 1 + (size d - LZ_DICT_REPEAT_MAX) /\ dpos d + n <= distance + LZ_DICT_REPEAT_MAX + 1).

Lemma source_byte d h distance n back j : dict_ok config d h -> 0 <= distance < full d -> source d distance n back -> 0 <= j < n -> j <= distance ->
  byte_at (buf d) (back + j) = byte_back (hist h) (distance - j).
Proof.
  intros [Hsz Hp Ha Hds Hnr Hf _ Huw Hw Hrec Hold] Hd [[H1 ->]|(Hh & -> & H2)] Hj Hjd.
  - rewrite <- Hrec by (destruct (has_wrapped d); lia). f_equal. lia.
  - rewrite <- (Hold Hh) by lia. f_equal. lia.
Qed.

Lemma copy_loop_ok n : forall d h distance back, dict_ok config d h -> 0 <= distance < full d -> Z.of_nat n <= avail h ->
  source d distance (Z.of_nat n) back ->
  dict_ok config (update_full (set_buf d (copy_loop n (buf d) (dpos d) back) (dpos d + Z.of_nat n)))
    (push h (repeat_bytes n (hist h) distance)).
Proof.
  induction n as [|n IH]; intros d h distance back Hok Hd Hn Hs; cbn [copy_loop repeat_bytes].
  - apply (push_ok d h (buf d) [] 0); [assumption| |lia|cbn; apply (ok_avail _ _ _ Hok)]. constructor; auto. intros i Hi. cbn in Hi. lia.
  - pose proof (source_byte _ _ _ _ _ 0 Hok Hd Hs ltac:(lia) ltac:(lia)) as Hb. rewrite Z.add_0_r, Z.sub_0_r in Hb. rewrite Hb.
    pose proof (put_ok d h (byte_back (hist h) distance) Hok ltac:(lia)) as Hok1. pose proof Hok as [Hsz Hp Ha Hds Hnr Hf _ Huw Hw _ _].
    specialize (IH _ _ distance (back + 1) Hok1). cbn [push avail hist length] in IH.
    assert (full d <= full (dict_put d (byte_back (hist h) distance))) as Hfull.
    { rewrite (ok_full _ _ _ Hok1), Hf. cbn [push hist capacity]. rewrite length_app. lia. }
    specialize (IH ltac:(lia) ltac:(lia)).
    assert (push h (byte_back (hist h) distance :: repeat_bytes n (hist h ++ [byte_back (hist h) distance]) distance) =
      push (push h [byte_back (hist h) distance]) (repeat_bytes n (hist h ++ [byte_back (hist h) distance]) distance)) as ->.
    { unfold push. cbn [hist avail capacity length]. rewrite <- app_assoc. f_equal. lia. }
    match goal with |- dict_ok _ ?x _ => match type of IH with _ -> dict_ok _ ?y _ => assert (x = y) as -> end end.
    { unfold update_full, set_buf, dict_put. cbn [buf dpos full limit size has_wrapped need_reset set_buf update_full].
      replace (dpos d + 1 + Z.of_nat n) with (dpos d + Z.of_nat (S n)) by lia. now destruct (has_wrapped d). }
    apply IH. unfold source in *. cbn [dpos has_wrapped size dict_put update_full set_buf].
    destruct Hs as [[H1 ->]|(Hh & -> & H2)]; [left|right]; split_and!; try assumption; lia.
Qed.

Lemma sse2_loop_spec rounds : forall b p back, 0 <= p -> 0 <= back ->
  p + 32 * Z.of_nat rounds <= zlen b -> back + 32 * Z.of_nat rounds <= zlen b ->
  let b' := sse2_loop rounds b p back in
  length b' = length b /\ (forall i, 0 <= i < p \/ p + 32 * Z.of_nat rounds <= i -> byte_at b' i = byte_at b i) /\
  (forall j, 0 <= j < 32 * Z.of_nat rounds -> back + j < p \/ p + 32 * Z.of_nat rounds <= back + j -> byte_at b' (p + j) = byte_at b (back + j)).
Proof.
  induction rounds as [|r IH]; intros b p back Hp Hk Hpl Hkl; cbn [sse2_loop]; [split_and!; auto; lia|].
  assert (zlen (slice back 32 b) = 32) as Hs by (apply length_slice; lia). set (b1 := store_bytes b p (slice back 32 b)).
  assert (length b1 = length b) as Hl1 by (apply length_store_bytes; lia).
  assert (forall i, 0 <= i -> byte_at b1 i = if (p <=? i) && (i <? p + 32) then byte_at b (back + (i - p)) else byte_at b i) as Hb1.
  { intros i Hi. unfold b1. rewrite store_bytes_at, Hs by lia. destruct ((p <=? i) && (i <? p + 32)) eqn:E; [|reflexivity].
    b2p. apply byte_at_of_slice; lia. }
  destruct (IH b1 (p + 32) (back + 32)) as (Hl & Hout & Hin); [lia..|]. cbv zeta in *. split_and!; [congruence|..].
  - intros i Hi. rewrite Hout by lia. rewrite Hb1 by lia.
    destruct Hi; [rewrite (proj2 (Z.leb_gt _ _)) by lia|rewrite (proj2 (Z.ltb_ge _ _)), andb_false_r by lia]; reflexivity.
  - intros j Hj Hno. destruct (Z.ltb_spec j 32).
    + rewrite Hout by lia. rewrite Hb1 by lia. rewrite (proj2 (Z.leb_le _ _)), (proj2 (Z.ltb_lt _ _)) by lia. cbn [andb]. f_equal. lia.
    + replace (p + j) with (p + 32 + (j - 32)) by lia. rewrite Hin by lia. rewrite Hb1 by lia.
      replace (back + 32 + (j - 32)) with (back + j) by lia.
      destruct Hno; [rewrite (proj2 (Z.leb_gt _ _)) by lia|rewrite (proj2 (Z.ltb_ge _ _)), andb_false_r by lia]; reflexivity.
Qed.

Lemma dict_source d h distance n : dict_ok config d h -> 0 <= distance < full d -> n <= LZ_DICT_REPEAT_MAX ->
  source d distance n (dpos d - distance - 1 + (if distance >=? dpos d then size d - LZ_DICT_REPEAT_MAX else 0)).
Proof.
  intros [Hsz Hp Ha Hds Hnr Hf _ Huw Hw _ _] Hd Hn. unfold source. rewrite Z.geb_leb. destruct (Z.leb_spec (dpos d) distance); [right|left; lia].
  destruct (has_wrapped d); [split_and!; try reflexivity; lia|]. destruct (Huw eq_refl). unfold LZ_DICT_INIT_POS, LZ_DICT_REPEAT_MAX in *. lia.
Qed.

(** All variants of the copy write the same bytes. *)
Lemma copy_ok d h distance n : dict_ok config d h -> 0 <= distance < full d -> 0 <= n <= avail h -> n <= LZ_DICT_REPEAT_MAX ->
  let back := dpos d - distance - 1 + (if distance >=? dpos d then size d - LZ_DICT_REPEAT_MAX else 0) in
  dict_ok config (update_full (set_buf d (copy config n distance (buf d) (dpos d) back) (dpos d + n)))
    (push h (repeat_bytes (Z.to_nat n) (hist h) distance)).
Proof.
  intros Hok Hd Hn Hmax back. pose proof (dict_source d h distance n Hok Hd Hmax) as Hs. fold back in Hs. clearbody back.
  pose proof Hok as [Hsz Hp Ha Hds Hnr Hf _ Huw Hw _ _]. pose proof extra_nonneg as Hex.
  assert (dict_ok config (update_full (set_buf d (copy_loop (Z.to_nat n) (buf d) (dpos d) back) (dpos d + n)))
    (push h (repeat_bytes (Z.to_nat n) (hist h) distance))) as Hloop.
  { pose proof (copy_loop_ok (Z.to_nat n) d h distance back Hok Hd) as Hx. rewrite Z2Nat.id in Hx by lia. apply Hx; [lia|assumption]. }
  assert (0 <= back) as Hback by (destruct Hs as [[? ->]|(_ & -> & ?)]; unfold LZ_DICT_INIT_POS, LZ_DICT_REPEAT_MAX in *; lia).
  assert (forall b' slack, n <= distance -> 0 <= slack <= 32 -> length b' = length (buf d) ->
    (forall i, 0 <= i < dpos d \/ dpos d + n + slack <= i -> byte_at b' i = byte_at (buf d) i) ->
    (forall j, 0 <= j < n -> byte_at b' (dpos d + j) = byte_at (buf d) (back + j)) ->
    dict_ok config (update_full (set_buf d b' (dpos d + n))) (push h (repeat_bytes (Z.to_nat n) (hist h) distance))) as Hgen.
  { intros b' slack Hfar Hsl Hlen Hout Hin.
    pose proof (push_ok d h b' (repeat_bytes (Z.to_nat n) (hist h) distance) slack Hok) as Hx.
    rewrite repeat_bytes_length, Z2Nat.id in Hx by lia. apply Hx; [|lia|lia]. clear Hx.
    constructor; rewrite ?repeat_bytes_length, ?Z2Nat.id by lia; [assumption|auto| |auto].
    intros j Hj. rewrite Hin by lia. rewrite (source_byte d h distance n back j) by (assumption || lia).
    rewrite repeat_bytes_far; [reflexivity|split; [lia|]|lia|lia].
    rewrite Hf in Hd. lia. }
  unfold copy. destruct config eqn:Ec; [exact Hloop|destruct (Z.ltb_spec distance n); [exact Hloop|]..].
  - assert (zlen (slice back n (buf d)) = n) as Hl.
    { apply length_slice; [assumption|lia|]. destruct Hs as [[? ->]|(_ & -> & ?)]; cbn [LZ_DICT_EXTRA] in *; unfold LZ_DICT_REPEAT_MAX in *; lia. }
    cbn [LZ_DICT_EXTRA] in *. destruct (written_store_bytes (buf d) (dpos d) (slice back n (buf d))) as [W1 W2 W3 W4]; [unfold LZ_DICT_REPEAT_MAX in *; lia|lia|].
    rewrite Hl in *. apply (Hgen _ 0); [lia|lia|assumption|intros i [Hi|Hi]; auto|].
    intros j Hj. rewrite W3 by lia. apply byte_at_of_slice; lia.
  - set (r := Z.to_nat (Z.max 1 ((n + 31) / 32))) in *. cbn [LZ_DICT_EXTRA] in *.
    assert (n <= 32 * Z.of_nat r /\ 32 * Z.of_nat r <= n + 32 /\ 32 * Z.of_nat r <= 288 /\ (0 < n -> 32 * Z.of_nat r <= n + 31)) as (Hr1 & Hr2 & Hr3 & _).
    { unfold r, LZ_DICT_REPEAT_MAX in *. rewrite Z2Nat.id by lia. Z.div_mod_to_equations. lia. }
    destruct (sse2_loop_spec r (buf d) (dpos d) back) as (Hl & Hout & Hin).
    + unfold LZ_DICT_REPEAT_MAX in *; lia.
    + assumption.
    + lia.
    + destruct Hs as [[? ->]|(_ & -> & ?)]; unfold LZ_DICT_REPEAT_MAX in *; lia.
    + cbv zeta in *. apply (Hgen _ (32 * Z.of_nat r - n)); [lia|lia|assumption|intros i Hi; apply Hout; lia|].
      intros j Hj. apply Hin; [lia|]. destruct Hs as [[? ->]|(_ & -> & ?)]; [left; lia|right].
      rewrite Hf, Hds in Hd. unfold LZ_DICT_INIT_POS, LZ_DICT_REPEAT_MAX in *. lia.
Qed.

Lemma repeat_ok d h distance len : dict_ok config d h -> 0 <= distance < full d -> 0 <= len <= LZ_DICT_REPEAT_MAX ->
  let '(f, d', len') := dict_repeat config d distance len in
  let '(f2, h', len2) := window_repeat h distance len in
  f = f2 /\ len' = len2 /\ dict_ok config d' h'.
Proof.
  intros Hok Hd Hlen. unfold dict_repeat. cbn [window_repeat history_window]. pose proof (ok_avail _ _ _ Hok) as (Ha & Ha0 & _).
  rewrite <- Ha. split_and!; [reflexivity..|]. apply (copy_ok d h distance (Z.min (avail h) len)); try assumption; lia.
Qed.

(** *** Wrapping *)

Lemma wrap_ok d h n : dict_ok config d h -> 0 <= n <= size d - dpos (wrap d) ->
  dict_ok config (dict_shrink (wrap d) n) (mk_history (hist h) n (capacity h) (wants_reset h)).
Proof.
  intros Hok. pose proof Hok as [Hsz Hp Ha Hds Hnr Hf Hal Huw Hw Hrec Hold]. pose proof extra_nonneg as Hex. unfold wrap.
  destruct (Z.eqb_spec (dpos d) (size d)) as [E|E]; cbn [dpos]; intros Hn.
  - assert (zlen (slice (size d - LZ_DICT_REPEAT_MAX) LZ_DICT_REPEAT_MAX (buf d)) = LZ_DICT_REPEAT_MAX) as Hl
      by (apply length_slice; unfold LZ_DICT_REPEAT_MAX in *; lia).
    assert (capacity h <= zlen (hist h)) as Hfull.
    { destruct (has_wrapped d); [now apply Hw|destruct (Huw eq_refl); lia]. }
    assert (size d - LZ_DICT_INIT_POS <= zlen (hist h)) as Hlong by lia.
    set (b := store_bytes _ _ _). assert (length b = length (buf d)) as Hlb by (apply length_store_bytes; unfold LZ_DICT_REPEAT_MAX in *; lia).
    assert (forall i, 0 <= i -> byte_at b i = if i <? LZ_DICT_REPEAT_MAX then byte_at (buf d) (size d - LZ_DICT_REPEAT_MAX + i) else byte_at (buf d) i) as Hb.
    { intros i Hi. unfold b. rewrite store_bytes_at, Hl by (unfold LZ_DICT_REPEAT_MAX in *; lia). rewrite (proj2 (Z.leb_le 0 i)), Z.add_0_l, Z.sub_0_r by lia.
      cbn [andb]. destruct (Z.ltb_spec i LZ_DICT_REPEAT_MAX); [|reflexivity]. apply byte_at_of_slice; unfold LZ_DICT_REPEAT_MAX in *; lia. }
    assert (forall i, 0 <= i < capacity h -> byte_at (buf d) (size d - 1 - i) = byte_back (hist h) i) as Hall.
    { intros i Hi. rewrite <- Hrec by (unfold LZ_DICT_INIT_POS, LZ_DICT_REPEAT_MAX in *; destruct (has_wrapped d); lia). f_equal. lia. }
    constructor; cbn [buf dpos full limit size has_wrapped set_buf set_limit need_reset dict_shrink hist avail capacity wants_reset]; unfold LZ_DICT_INIT_POS, LZ_DICT_REPEAT_MAX in *;
      try lia; try discriminate; try assumption.
    + revert Hal. rewrite E. destruct Hsz as (_ & Hsz & _). Z.div_mod_to_equations. lia.
    + intros i Hi. rewrite Hb by lia. rewrite (proj2 (Z.ltb_lt _ _)) by lia. rewrite <- Hall by lia. f_equal. lia.
    + intros _ i Hi1 Hi2. rewrite Hb by lia. rewrite (proj2 (Z.ltb_ge _ _)) by lia. rewrite <- Hall by lia. f_equal. lia.
  - constructor; cbn [buf dpos full limit size has_wrapped need_reset set_limit dict_shrink hist avail capacity wants_reset]; try assumption; lia.
Qed.

(** *** Initialization *)

Lemma alloc_size_spec ds : 0 <= ds -> alloc_size ds mod 16 = 0 /\ Z.max ds 4096 <= alloc_size ds - LZ_DICT_INIT_POS < Z.max ds 4096 + 16.
Proof.
  intros Hds. unfold alloc_size, LZ_DICT_INIT_POS, LZ_DICT_REPEAT_MAX. change 15 with (2 ^ 4 - 1). rewrite land_high by lia.
  change (2 ^ 4) with 16. Z.div_mod_to_equations. lia.
Qed.

Lemma dict_init_room mem ds preset d : 0 <= ds -> dict_init config mem ds preset = Ok d -> 0 <= size d - dpos d.
Proof.
  intros Hds. unfold dict_init. destruct (_ >? _); [discriminate|]. destruct (mem _) as [b|]; [|discriminate].
  pose proof (alloc_size_spec ds Hds) as [_ Ha]. unfold LZ_DICT_INIT_POS in Ha.
  case_if; intros [= <-]; cbn; unfold LZ_DICT_INIT_POS; lia.
Qed.

Lemma dict_init_ok mem ds preset d : 0 <= ds -> (forall n b, mem n = Some b -> zlen b = n) ->
  dict_init config mem ds preset = Ok d ->
  exists tail, tail `suffix_of` preset /\ zlen tail = Z.min (zlen preset) (alloc_size ds - LZ_DICT_INIT_POS) /\
    forall n, 0 <= n <= size d - dpos d -> 
      dict_ok config (dict_shrink d n) (mk_history tail n (alloc_size ds - LZ_DICT_INIT_POS) false).
Proof.
  intros Hds Hmem. unfold dict_init. destruct (_ >? _); [discriminate|]. destruct (mem _) as [b|] eqn:Em; [|discriminate]. apply Hmem in Em.
  pose proof (alloc_size_spec ds Hds) as [Ha1 Ha2]. set (a := alloc_size ds) in *. pose proof extra_nonneg as Hex.
  unfold LZ_DICT_INIT_POS, LZ_DICT_REPEAT_MAX in Ha2.
  assert (forall n, 0 <= n <= a - 576 -> dict_ok config (dict_shrink (lz_decoder_reset (mk_dict b 0 0 0 a false false)) n)
    (mk_history [] n (a - LZ_DICT_INIT_POS) false)) as H0.
  { intros n Hn. constructor; cbn [buf dpos full limit size has_wrapped set_limit dict_shrink lz_decoder_reset need_reset hist avail capacity wants_reset length];
      unfold store, LZ_DICT_INIT_POS, LZ_DICT_REPEAT_MAX; rewrite ?length_insert; try lia; try discriminate; try reflexivity.
    intros _. split; [lia|]. change (2 * 288 - 1) with 575. destruct (written_store b 575 0) as [_ _ W _]; [lia|]. exact (W 0 ltac:(cbn; lia)). }
  change (2 * LZ_DICT_REPEAT_MAX) with LZ_DICT_INIT_POS. set (c := Z.min (zlen preset) (a - LZ_DICT_INIT_POS)).
  destruct (Z.gtb_spec (zlen preset) 0) as [Hp|Hp]; intros [= <-].
  - exists (from (zlen preset - c) preset). unfold from. split_and!.
    + exists (take (Z.to_nat (zlen preset - c)) preset). now rewrite take_drop.
    + rewrite length_drop. unfold c, LZ_DICT_INIT_POS, LZ_DICT_REPEAT_MAX. lia.
    + cbn [size dpos lz_decoder_reset buf limit has_wrapped need_reset]. intros n Hn. unfold LZ_DICT_INIT_POS, LZ_DICT_REPEAT_MAX in *.
      assert (0 <= c <= a - 576) as Hc by (unfold c; lia).
      set (tail := drop _ preset). assert (zlen tail = c) as Ht by (unfold tail; rewrite length_drop; unfold c; lia).
      pose proof (push_ok _ _ (store_bytes (store b 575 0) 576 tail) tail 0 (H0 (c + n) ltac:(lia))) as Hx.
      cbn [dict_shrink set_limit lz_decoder_reset buf dpos] in Hx. unfold LZ_DICT_INIT_POS, LZ_DICT_REPEAT_MAX in Hx.
      specialize (Hx ltac:(apply written_store_bytes; unfold store; rewrite ?length_insert; lia) ltac:(lia) ltac:(cbn; lia)).
      unfold push in Hx. cbn [hist avail capacity app] in Hx. rewrite Ht in Hx.
      replace (c + n - c) with n in Hx by lia. destruct Hx as [X1 X2 X3 X4 Xr X5 X6 X7 X8 X9 X10].
      cbn [update_full set_buf buf dpos full limit size has_wrapped need_reset dict_shrink set_limit lz_decoder_reset hist avail capacity] in *.
      constructor; cbn [dict_shrink set_limit buf dpos full limit size has_wrapped need_reset hist avail capacity wants_reset];
        unfold LZ_DICT_INIT_POS, LZ_DICT_REPEAT_MAX in *; try assumption; try lia.
  - exists []. split_and!; [now exists preset; rewrite app_nil_r|cbn [length]; unfold c, LZ_DICT_INIT_POS, LZ_DICT_REPEAT_MAX; lia|]. intros n Hn. apply H0. cbn [size dpos lz_decoder_reset] in Hn. unfold LZ_DICT_INIT_POS, LZ_DICT_REPEAT_MAX in Hn. lia.
Qed.

End Config.
