(* ===== verification/LzDecoder.v ===== *)
(** * The LZ decoder loop

    [lib/archive/xz/src/liblzma/lz/lz_decoder.c]: [decode_buffer] runs an LZ-based
    decoder (LZMA, LZMA2) on the dictionary and copies what it decoded to the
    application; [lz_decode] does so with the output of the next filter of the
    chain.  The table of functions [lzma_lz_decoder] is the typeclass [LzCoder];
    [LzCoderLaws] is what the loop relies on, and it is stated on the sequence of
    decoded bytes only. *)

From Stdlib Require Import ZArith Lia.
From stdpp Require Import list.
From S2P Require Import Prelude Coder LzDict.

(** [lz.code]: the return code, the coder, the window and what is left of the
    input.  [None] would be a loop that does not end. *)
Class LzCoder (S : Type) :=
  lz_code : forall {D : Type} {W : Window D}, S -> D -> bytes -> option (lzma_ret * S * D * bytes).

(** [temp_data] and [temp_pos] are [temp.buffer] up to [temp.size], and [temp.pos]. *)
Record lz_coder (S U : Type) := mk_lz_coder {
  dict : lzma_dict;
  lz : S;
  lz_next : option U;
  next_finished : bool;
  this_finished : bool;
  temp_data : bytes;
  temp_pos : nat;
}.
Arguments mk_lz_coder {S U} _ _ _ _ _ _ _.
Arguments dict {S U} _.
Arguments lz {S U} _.
Arguments lz_next {S U} _.
Arguments next_finished {S U} _.
Arguments this_finished {S U} _.
Arguments temp_data {S U} _.
Arguments temp_pos {S U} _.

Definition LZMA_BUFFER_SIZE : nat := 4096.

Section Decoder.
Context (config : dict_config) {S U : Type} {L : LzCoder S} {C : Coder U}.
Abbreviation coder := (lz_coder S U).

Definition set_dict (c : coder) (d : lzma_dict) (s : S) : coder :=
  mk_lz_coder d s (lz_next c) (next_finished c) (this_finished c) (temp_data c) (temp_pos c).
Definition set_this_finished (c : coder) : coder :=
  mk_lz_coder (dict c) (lz c) (lz_next c) (next_finished c) true (temp_data c) (temp_pos c).
Definition set_temp (c : coder) (data : bytes) (pos : nat) : coder :=
  mk_lz_coder (dict c) (lz c) (lz_next c) (next_finished c) (this_finished c) data pos.
Definition set_lz_next (c : coder) (n : U) (finished : bool) : coder :=
  mk_lz_coder (dict c) (lz c) (Some n) finished (this_finished c) (temp_data c) (temp_pos c).

Definition prepend {A} (out : bytes) (r : option (A * bytes * bytes)) : option (A * bytes * bytes) :=
  match r with Some (x, out', rest) => Some (x, out ++ out', rest) | None => None end.

(** [decode_buffer]: [room] is [out_size - *out_pos].  The result: the return
    code, the dictionary and the decoder; the bytes stored; the input that is
    left. *)
Fixpoint decode_buffer (fuel : nat) (d : lzma_dict) (s : S) (input : bytes) (room : Z) :
  option (lzma_ret * lzma_dict * S * bytes * bytes) :=
  match fuel with
  | O => None
  | Datatypes.S fuel =>
      let d := wrap d in
      let dict_start := dpos d in
      let d := set_limit d (dpos d + Z.min room (size d - dpos d)) in
      match lz_code (W := dict_window config) s d input with
      | None => None
      | Some (ret, s, d, input) =>
          let copy_size := dpos d - dict_start in
          let out := slice dict_start copy_size (buf d) in
          let room := room - copy_size in
          let stop := negb (bool_decide (ret = LZMA_OK)) || (room =? 0) in
          if need_reset d then
            if stop then Some (ret, lz_decoder_reset d, s, out, input)
            else prepend out (decode_buffer fuel (lz_decoder_reset d) s input room)
          else if stop || (dpos d <? size d) then Some (ret, d, s, out, input)
          else prepend out (decode_buffer fuel d s input room)
      end
  end.

(** Every round decodes a byte or reads one. *)
Definition buffer_fuel (input : bytes) (room : Z) : nat := Datatypes.S (Z.to_nat room + length input).

(** Calls of [decode_buffer], until one does not return [LZMA_OK]: each has its
    input and its room. *)
Fixpoint decode_calls (calls : list (bytes * Z)) (d : lzma_dict) (s : S) : option (list (lzma_ret * bytes)) :=
  match calls with
  | [] => Some []
  | (input, room) :: calls =>
      match decode_buffer (buffer_fuel input room) d s input room with
      | None => None
      | Some (LZMA_OK, d, s, out, _) => option_map (cons (LZMA_OK, out)) (decode_calls calls d s)
      | Some (ret, _, _, out, _) => Some [(ret, out)]
      end
  end.

(** The loop of [lz_decode] that runs when there is a next filter. *)
Fixpoint lz_loop (fuel : nat) (c : coder) (n : U) (input : bytes) (room : nat) (action : lzma_action) :
  option (lzma_ret * coder * bytes * bytes) :=
  match fuel with
  | O => None
  | Datatypes.S fuel =>
      if (room =? 0)%nat then Some (LZMA_OK, c, [], input)
      else
        let fill := negb (next_finished c) && (temp_pos c =? length (temp_data c))%nat in
        let '(ret, n, data, rest) := if fill then code n input LZMA_BUFFER_SIZE action else (LZMA_OK, n, temp_data c, input) in
        let ended := bool_decide (ret = LZMA_STREAM_END) in
        let c := if fill then set_lz_next (set_temp c data 0) n ended else c in
        if fill && negb ended && (negb (bool_decide (ret = LZMA_OK)) || (length data =? 0)%nat) then Some (ret, c, [], rest)
        else if this_finished c then
          Some (if negb (length (temp_data c) =? 0)%nat then LZMA_DATA_ERROR
                else if next_finished c then LZMA_STREAM_END else LZMA_OK, c, [], rest)
        else
          let unread := drop (temp_pos c) (temp_data c) in
          match decode_buffer (buffer_fuel unread (Z.of_nat room)) (dict c) (lz c) unread (Z.of_nat room) with
          | None => None
          | Some (ret, d, s, out, unread) =>
              let c := set_dict (set_temp c (temp_data c) (length (temp_data c) - length unread)) d s in
              let room := (room - length out)%nat in
              match ret with
              | LZMA_STREAM_END => prepend out (lz_loop fuel (set_this_finished c) n rest room action)
              | LZMA_OK =>
                  if next_finished c && (0 <? room)%nat then Some (LZMA_DATA_ERROR, c, out, rest)
                  else prepend out (lz_loop fuel c n rest room action)
              | _ => Some (ret, c, out, rest)
              end
          end
  end.

Definition lz_decode (fuel : nat) (c : coder) (input : bytes) (room : nat) (action : lzma_action) :
  option (lzma_ret * coder * bytes * bytes) :=
  match lz_next c with
  | None =>
      match decode_buffer (buffer_fuel input (Z.of_nat room)) (dict c) (lz c) input (Z.of_nat room) with
      | Some (ret, d, s, out, rest) => Some (ret, set_dict c d s, out, rest)
      | None => None
      end
  | Some n => lz_loop fuel c n input room action
  end.

(** [lzma_lz_decoder_init] without an old coder: [lz_init] is what the LZ-based
    decoder gives, with its options; [next_init] is [lzma_next_filter_init]. *)
Definition lzma_lz_decoder_init (mem : Z -> option bytes) (lz_init : res (S * Z * bytes)) (next_init : res (option U)) : res coder :=
  let? (s, dict_size, preset_dict) := lz_init in
  let? d := dict_init config mem dict_size preset_dict in
  let? n := next_init in
  Ok (mk_lz_coder d s n false false [] 0).
End Decoder.

(** ** What the loop relies on *)

Definition grows (h h' : history) : Prop :=
  exists new, hist h' = hist h ++ new /\ avail h' = avail h - zlen new /\ 0 <= avail h' /\ capacity h' = capacity h.

(** After [lz_decoder_reset]. *)
Definition settled (h : history) : history :=
  if wants_reset h then mk_history [] 0 (capacity h) false else h.

(** [R]: a window that behaves as the sequence of decoded bytes; its write
    position is [k] more than their number and cannot pass [top + k]. *)
Record window_sim {D} {W : Window D} (k top : Z) (R : D -> history -> Prop) : Prop := {
  sim_aligned : k mod 16 = 0;
  sim_pos d h : R d h -> window_pos d = zlen (hist h) + k;
  sim_top d h : R d h -> 0 <= avail h /\ zlen (hist h) + avail h <= top;
  sim_at_limit d h : R d h -> window_at_limit d = (avail h =? 0);
  sim_avail d h : R d h -> window_avail d = avail h;
  sim_valid d h n : R d h -> window_valid d n = window_valid h n;
  sim_get d h n : R d h -> 0 <= n -> window_valid h n = true -> window_get d n = window_get h n;
  sim_get0 d h : R d h -> window_get0 d = window_get0 h;
  sim_put d h b : R d h -> 0 < avail h -> R (window_put d b) (window_put h b);
  sim_repeat d h n len : R d h -> 0 <= n -> window_valid h n = true -> 0 <= len <= LZ_DICT_REPEAT_MAX ->
    exists d', window_repeat d n len = (let '(more, _, l) := window_repeat h n len in (more, d', l)) /\
      R d' (window_repeat h n len).1.2;
  sim_write d h input n : R d h -> 0 <= n ->
    exists d', window_write d input n = (let '(_, rest, l) := window_write h input n in (d', rest, l)) /\
      R d' (window_write h input n).1.1;
  sim_reset d h : R d h -> R (window_reset d) (window_reset h);
  sim_shrink d h n : R d h -> 0 <= n -> zlen (hist h) + n <= top -> R (window_shrink d n) (window_shrink h n);
}.

Class LzCoderLaws (S : Type) {L : LzCoder S} := {
  lz_inv : S -> history -> Prop;
  lz_inv_limit s h n : lz_inv s h -> lz_inv s (window_shrink h n);
  lz_total s h input : lz_inv s h -> 0 <= avail h -> wants_reset h = false -> bytes_ok input ->
    exists ret s' h' rest, lz_code s h input = Some (ret, s', h', rest) /\ grows h h' /\
      (exists used, input = used ++ rest) /\
      (wants_reset h' = true -> (length rest < length input)%nat) /\
      (ret = LZMA_OK -> lz_inv s' (settled h'));
  lz_progress s h input s' h' rest : lz_inv s h -> 0 <= avail h -> wants_reset h = false -> bytes_ok input ->
    lz_code s h input = Some (LZMA_OK, s', h', rest) -> rest = [] \/ avail h' = 0 \/ wants_reset h' = true;
  lz_sim {D} {W : Window D} k top (R : D -> history -> Prop) s d h input :
    window_sim k top R -> R d h -> lz_inv s h -> wants_reset h = false -> bytes_ok input ->
    forall ret s' h' rest, lz_code s h input = Some (ret, s', h', rest) ->
    exists d', lz_code s d input = Some (ret, s', d', rest) /\ R d' h';
}.

(** *** The dictionary is such a window *)

Section Buffer.
Context (config : dict_config).

Definition dict_at (k top : Z) (d : lzma_dict) (h : history) : Prop :=
  dict_ok config d h /\ dpos d = zlen (hist h) + k /\ size d = top + k.

Lemma dict_sim k top : k mod 16 = 0 -> window_sim (W := dict_window config) k top (dict_at k top).
Proof.
  intros Hk. assert (forall d h n, dict_at k top d h -> window_valid h n = true -> n < full d) as Hval.
  { intros d h n (Hok & _). cbn [window_valid history_window]. pose proof (ok_full _ _ _ Hok). lia. }
  constructor; [assumption|..]; cbn [dict_window window_pos window_at_limit window_avail window_valid window_get window_get0
    window_put window_repeat window_write window_reset window_shrink].
  - now intros d h (_ & ? & _).
  - intros d h (Hok & Hp & Hs). pose proof (ok_avail _ _ _ Hok). lia.
  - intros d h (Hok & Hp & Hs). pose proof (ok_avail _ _ _ Hok). lia.
  - intros d h (Hok & Hp & Hs). pose proof (ok_avail _ _ _ Hok). lia.
  - intros d h n (Hok & Hp & Hs). unfold dict_is_distance_valid. now rewrite (ok_full _ _ _ Hok).
  - intros d h n HR Hn Hv. pose proof (Hval d h n HR Hv). now apply (get_ok config); [apply HR|].
  - intros d h (Hok & _). now apply (get0_ok config).
  - intros d h b (Hok & Hp & Hs) Ha. split_and!; [now apply put_ok| |exact Hs]. cbn. rewrite length_app. cbn. lia.
  - intros d h n len HR Hn Hv Hl. pose proof (Hval d h n HR Hv). destruct HR as (Hok & Hp & Hs).
    pose proof (repeat_ok config d h n len Hok ltac:(lia) Hl) as Hx. pose proof (ok_avail _ _ _ Hok) as (Ha & Ha0 & _).
    assert (dpos (dict_repeat config d n len).1.2 = dpos d + Z.min (limit d - dpos d) len) as Hq by reflexivity.
    assert (size (dict_repeat config d n len).1.2 = size d) as Hz by reflexivity.
    destruct (dict_repeat config d n len) as [[f d'] l]. cbn [window_repeat history_window fst snd] in *.
    destruct Hx as (-> & -> & Hok'). exists d'. split; [reflexivity|]. split_and!; [exact Hok'| |lia].
    rewrite Hq. cbn [push hist]. rewrite length_app, repeat_bytes_length. lia.
  - intros d h input n (Hok & Hp & Hs) Hn. pose proof (dict_write_ok config d h input n Hok Hn) as Hx.
    pose proof (ok_avail _ _ _ Hok) as (Ha & Ha0 & _).
    assert (dpos (dict_write d input n).1.1 = dpos d + Z.min (Z.min (zlen input) n) (limit d - dpos d)) as Hq by reflexivity.
    assert (size (dict_write d input n).1.1 = size d) as Hz by reflexivity.
    destruct (dict_write d input n) as [[d' rest] l]. cbn [window_write history_window fst snd] in *.
    destruct Hx as (-> & -> & Hok'). exists d'. split; [reflexivity|]. split_and!; [exact Hok'| |lia].
    rewrite Hq. cbn [push hist]. rewrite length_app. unfold slice, from. rewrite length_take, length_drop. lia.
  - intros d h (Hok & Hp & Hs). split_and!; [now apply dict_reset_ok|exact Hp|exact Hs].
  - intros d h n (Hok & Hp & Hs) Hn Ht. split_and!; [|exact Hp|exact Hs]. pose proof (ok_pos _ _ _ Hok).
    destruct Hok. constructor; try assumption; cbn; lia.
Qed.

(** A dictionary between two calls: its limit does not matter. *)
Definition dict_idle (d : lzma_dict) (h : history) : Prop := dict_ok config (dict_shrink d 0) (window_shrink h 0).

Lemma dict_ok_idle d h : dict_ok config d h -> dict_idle d h.
Proof. intros Hok. pose proof (ok_pos _ _ _ Hok). destruct Hok. constructor; try assumption; cbn; lia. Qed.

Lemma idle_reset d h : dict_idle d h -> dict_idle (lz_decoder_reset d) (mk_history [] 0 (capacity h) false).
Proof.
  intros [Hsz Hp Ha Hds _ _ _ _ _ _ _]. cbn in *. pose proof (extra_nonneg config). unfold LZ_DICT_INIT_POS, LZ_DICT_REPEAT_MAX in *.
  constructor; cbn; unfold LZ_DICT_INIT_POS, LZ_DICT_REPEAT_MAX; try lia; try discriminate; try reflexivity.
  - unfold store. rewrite length_insert. lia.
  - intros _. split; [reflexivity|]. destruct (written_store (buf d) 575 0) as [_ _ W _]; [lia|]. exact (W 0 ltac:(cbn; lia)).
Qed.

Lemma dict_init_idle mem ds preset d : 0 <= ds -> (forall n b, mem n = Some b -> zlen b = n) -> dict_init config mem ds preset = Ok d ->
  exists tail, dict_idle d (mk_history tail 0 (alloc_size ds - LZ_DICT_INIT_POS) false).
Proof.
  intros Hds Hmem Hd. destruct (dict_init_ok config mem ds preset d Hds Hmem Hd) as (tail & _ & _ & Hok). exists tail.
  apply (Hok 0). pose proof (dict_init_room _ _ _ _ _ Hds Hd). lia.
Qed.

(** The new bytes of the sequence are in the buffer behind [dict_start]. *)
Lemma new_bytes d h old new : dict_ok config d h -> hist h = old ++ new -> zlen new <= dpos d ->
  slice (dpos d - zlen new) (zlen new) (buf d) = new.
Proof.
  intros [Hsz Hp Ha Hds _ Hf _ Huw Hw Hrec _] Hh Hn. pose proof (extra_nonneg config).
  assert (zlen (slice (dpos d - zlen new) (zlen new) (buf d)) = zlen new) as Hl by (apply length_slice; lia).
  apply (nth_ext _ _ 0 0); [lia|]. intros i Hi.
  pose proof (byte_at_of_slice (buf d) (dpos d - zlen new) (zlen new) (Z.of_nat i) ltac:(lia) ltac:(lia)) as Hb.
  unfold byte_at at 1 in Hb. rewrite Nat2Z.id in Hb. rewrite Hb.
  replace (dpos d - zlen new + Z.of_nat i) with (dpos d - 1 - (zlen new - 1 - Z.of_nat i)) by lia.
  assert (zlen (hist h) = zlen old + zlen new) as Hlh by (rewrite Hh, length_app; lia).
  rewrite Hrec by (destruct (has_wrapped d); lia). rewrite Hh, byte_back_app by lia. rewrite (proj2 (Z.ltb_lt _ _)) by lia.
  unfold byte_back, byte_at. f_equal. lia.
Qed.

Context {S : Type} {L : LzCoder S} {LL : LzCoderLaws S}.

(** What [decode_buffer] promises, on the sequence of decoded bytes: rounds of the
    decoder that may each decode [n] bytes, until there is no room, the decoder
    stops before the [n] bytes, or it does not return [LZMA_OK]. *)
Inductive decodes : Z -> S -> history -> bytes -> lzma_ret -> S -> history -> bytes -> bytes -> Prop :=
  | decodes_last room n s h input ret s' h' out rest :
      0 <= n <= room -> lz_code s (window_shrink h n) input = Some (ret, s', h', rest) -> hist h' = hist h ++ out ->
      ret <> LZMA_OK \/ zlen out = room \/ 0 < avail h' ->
      decodes room s h input ret s' (settled h') out rest
  | decodes_more room n s h input s1 h1 out1 rest1 ret s' h' out rest :
      0 <= n <= room -> lz_code s (window_shrink h n) input = Some (LZMA_OK, s1, h1, rest1) -> hist h1 = hist h ++ out1 ->
      zlen out1 < room ->
      decodes (room - zlen out1) s1 (settled h1) rest1 ret s' h' out rest ->
      decodes room s h input ret s' h' (out1 ++ out) rest.

Lemma idle_wrap d h : dict_idle d h -> dpos (wrap d) < size d /\ size (wrap d) = size d /\ LZ_DICT_REPEAT_MAX <= dpos (wrap d) /\
  (forall n, 0 <= n <= size d - dpos (wrap d) ->
    dict_at (dpos (wrap d) - zlen (hist h)) (size d - (dpos (wrap d) - zlen (hist h))) (dict_shrink (wrap d) n) (window_shrink h n)) /\
  (dpos (wrap d) - zlen (hist h)) mod 16 = 0.
Proof.
  intros Hi. assert (dpos (wrap d) < size d /\ size (wrap d) = size d /\ LZ_DICT_REPEAT_MAX <= dpos (wrap d)) as (H1 & H2 & H3).
  { destruct Hi as [Hsz Hp _ _ _ _ _ _ _ _ _]. cbn in *. unfold wrap, LZ_DICT_REPEAT_MAX in *. destruct (Z.eqb_spec (dpos d) (size d)); cbn; lia. }
  assert (forall n, 0 <= n <= size d - dpos (wrap d) -> dict_ok config (dict_shrink (wrap d) n) (window_shrink h n)) as Hok.
  { intros n Hn. pose proof (wrap_ok config _ _ n Hi) as Hx. cbn in Hx.
    assert (dpos (wrap (dict_shrink d 0)) = dpos (wrap d)) as Hpos by (unfold wrap; cbn; now destruct (dpos d =? size d)).
    assert (dict_shrink (wrap (dict_shrink d 0)) n = dict_shrink (wrap d) n) as Hsame
      by (unfold wrap, dict_shrink, set_limit; cbn; now destruct (dpos d =? size d)).
    rewrite Hpos, Hsame in Hx. exact (Hx Hn). }
  split_and!; try assumption.
  - intros n Hn. split_and!; [now apply Hok|cbn; lia|cbn; lia].
  - pose proof (ok_align _ _ _ (Hok 0 ltac:(lia))) as Ha. exact Ha.
Qed.

(** One round of the loop. *)
Lemma round_ok d h s input room : dict_idle d h -> lz_inv s h -> wants_reset h = false -> bytes_ok input -> 0 <= room ->
  let dw := wrap d in
  let n := Z.min room (size dw - dpos dw) in
  exists ret s' h' d' rest out,
    lz_code s (window_shrink h n) input = Some (ret, s', h', rest) /\
    lz_code (W := dict_window config) s (set_limit dw (dpos dw + n)) input = Some (ret, s', d', rest) /\
    hist h' = hist h ++ out /\ zlen out <= n /\ avail h' = n - zlen out /\
    (exists used, input = used ++ rest) /\
    dpos d' - dpos dw = zlen out /\ slice (dpos dw) (zlen out) (buf d') = out /\
    need_reset d' = wants_reset h' /\ size d' = size d /\ dict_idle d' h' /\ dpos d' = dpos dw + zlen out /\
    (wants_reset h' = true -> (length rest < length input)%nat) /\ (ret = LZMA_OK -> lz_inv s' (settled h')) /\
    (ret = LZMA_OK -> rest = [] \/ avail h' = 0 \/ wants_reset h' = true).
Proof.
  intros Hi Hinv Hwr Hb Hroom dw n. destruct (idle_wrap d h Hi) as (Hlt & Hsz & Hmin & Hat & Hal). fold dw in Hlt, Hsz, Hmin, Hat, Hal.
  assert (0 <= n <= size d - dpos dw) as Hn by lia. clearbody n.
  destruct (lz_total s (window_shrink h n) input) as (ret & s' & h' & rest & Hc & (out & Hh & Ha & Ha0 & Hcap) & Hused & Hwant & Hinv');
    [now apply lz_inv_limit|cbn; lia|exact Hwr|exact Hb|].
  pose proof (Hat n Hn) as HR. set (k := dpos dw - zlen (hist h)) in *.
  destruct (lz_sim k (size d - k) _ s _ _ input (dict_sim _ _ Hal) HR ltac:(now apply lz_inv_limit) Hwr Hb _ _ _ _ Hc) as (d' & Hd & Hok & Hp & Hs').
  cbn [window_shrink history_window hist avail] in Hh, Ha. rewrite Hh, length_app in Hp.
  assert (dpos d' = dpos dw + zlen out) as Hp' by (unfold k in Hp; lia).
  exists ret, s', h', d', rest, out. split_and!; try assumption; try lia.
  - replace (dpos dw) with (dpos d' - zlen out) by lia. eapply new_bytes; [exact Hok|exact Hh|]. unfold LZ_DICT_REPEAT_MAX in *. lia.
  - apply (ok_reset _ _ _ Hok).
  - now apply dict_ok_idle.
  - intros ->. eapply lz_progress; [| | | |exact Hc]; [now apply lz_inv_limit|cbn; lia|exact Hwr|exact Hb].
Qed.

(** The dictionary after the reset that [need_reset] asks for. *)
Lemma idle_settled d h : dict_idle d h -> need_reset d = wants_reset h ->
  dict_idle (if need_reset d then lz_decoder_reset d else d) (settled h) /\ wants_reset (settled h) = false.
Proof.
  intros Hi Hr. unfold settled. rewrite Hr. destruct (wants_reset h) eqn:E; [|now split]. split; [|reflexivity]. now apply idle_reset.
Qed.

Lemma buffer_loop fuel : forall d h s input room, dict_idle d h -> lz_inv s h -> wants_reset h = false -> bytes_ok input ->
  0 <= room -> (Z.to_nat room + length input < fuel)%nat ->
  exists ret d' s' h' out rest, decode_buffer config fuel d s input room = Some (ret, d', s', out, rest) /\
    decodes room s h input ret s' h' out rest /\ dict_idle d' h' /\ zlen out <= room /\ rest `suffix_of` input /\
    (ret = LZMA_OK -> lz_inv s' h' /\ wants_reset h' = false) /\ (ret = LZMA_OK -> rest = [] \/ zlen out = room).
Proof.
  induction fuel as [|fuel IH]; intros d h s input room Hi Hinv Hwr Hb Hroom Hf; [lia|]. cbn [decode_buffer].
  destruct (round_ok d h s input room Hi Hinv Hwr Hb Hroom) as
    (ret & s' & h' & d' & rest & out & Hc & Hd & Hh & Hlen & Hav & [used Hused] & Hcopy & Hout & Hnr & Hsz & Hi' & Hpos & Hwant & Hok & Hprog).
  destruct (idle_wrap d h Hi) as (Hlt & Hszw & _). rewrite Hszw in *. rewrite Hd, Hcopy, Hout.
  destruct (idle_settled d' h' Hi' Hnr) as [Hset Hsr].
  assert (rest `suffix_of` input) as Hsuf by (exists used; exact Hused).
  assert (bytes_ok rest) as Hbr by (rewrite Hused, Forall_app in Hb; apply Hb).
  assert (forall dd, (if need_reset d' then lz_decoder_reset d' else d') = dd ->
    ret <> LZMA_OK \/ zlen out = room \/ 0 < avail h' /\ wants_reset h' = false ->
    exists ret0 d0 s0 h0 out0 rest0, Some (ret, dd, s', out, rest) = Some (ret0, d0, s0, out0, rest0) /\
    decodes room s h input ret0 s0 h0 out0 rest0 /\ dict_idle d0 h0 /\ zlen out0 <= room /\ rest0 `suffix_of` input /\
    (ret0 = LZMA_OK -> lz_inv s0 h0 /\ wants_reset h0 = false) /\ (ret0 = LZMA_OK -> rest0 = [] \/ zlen out0 = room)) as Hstop.
  { intros dd <- Hwhy. exists ret, (if need_reset d' then lz_decoder_reset d' else d'), s', (settled h'), out, rest. split_and!; auto.
    - eapply decodes_last; eauto; [lia|tauto].
    - lia.
    - intros ->. destruct Hwhy as [?|[?|[Hav0 Hw0]]]; [contradiction|now right|left].
      destruct (Hprog eq_refl) as [?|[?|?]]; [assumption|lia|congruence]. }
  assert (forall dd, (if need_reset d' then lz_decoder_reset d' else d') = dd -> ret = LZMA_OK -> zlen out <> room ->
    (Z.to_nat (room - zlen out) + length rest < fuel)%nat ->
    exists ret0 d0 s0 h0 out0 rest0, prepend out (decode_buffer config fuel dd s' rest (room - zlen out)) = Some (ret0, d0, s0, out0, rest0) /\
    decodes room s h input ret0 s0 h0 out0 rest0 /\ dict_idle d0 h0 /\ zlen out0 <= room /\ rest0 `suffix_of` input /\
    (ret0 = LZMA_OK -> lz_inv s0 h0 /\ wants_reset h0 = false) /\ (ret0 = LZMA_OK -> rest0 = [] \/ zlen out0 = room)) as Hmore.
  { intros dd <- -> Hne Hfuel.
    destruct (IH _ (settled h') s' rest (room - zlen out) Hset (Hok eq_refl) Hsr Hbr ltac:(lia) Hfuel) as
      (ret0 & d0 & s0 & h0 & out0 & rest0 & -> & Hdec & Hi0 & Hl0 & Hsuf0 & Hinv0 & Hprog0).
    exists ret0, d0, s0, h0, (out ++ out0), rest0. split_and!; auto.
    - eapply decodes_more; eauto; lia.
    - rewrite length_app. lia.
    - now transitivity rest.
    - intros H0. destruct (Hprog0 H0) as [->|Hr]; [now left|right]. rewrite length_app. lia. }
  assert (length rest <= length input)%nat as Hle by (rewrite Hused, length_app; lia).
  destruct (bool_decide_reflect (ret = LZMA_OK)) as [->|Hret]; cbn [negb orb].
  - destruct (Z.eqb_spec (room - zlen out) 0); cbn [orb].
    + destruct (need_reset d'); apply Hstop; auto; right; left; lia.
    + destruct (need_reset d') eqn:Enr; [|destruct (Z.ltb_spec (dpos d') (size d'))].
      * apply Hmore; auto; [lia|]. specialize (Hwant ltac:(congruence)). lia.
      * apply Hstop; auto. right. right. split; [lia|congruence].
      * apply Hmore; auto; lia.
  - destruct (need_reset d'); apply Hstop; auto.
Qed.

(** Every call ends and stores no more than its room. *)
Lemma calls_return calls : forall d s h, dict_idle d h -> lz_inv s h -> wants_reset h = false ->
  Forall (fun k => bytes_ok k.1 /\ 0 <= k.2) calls ->
  exists rets, decode_calls config calls d s = Some rets /\
    (length rets <= length calls)%nat /\ Forall2 (fun k r => zlen r.2 <= k.2) (take (length rets) calls) rets.
Proof.
  induction calls as [|[input room] calls IH]; intros d s h Hi Hinv Hw Hcalls; [now exists []|].
  apply Forall_cons in Hcalls as [[Hb Hr] Hcalls]. cbn [decode_calls fst snd] in *.
  destruct (buffer_loop (buffer_fuel input room) d h s input room) as (ret & d' & s' & h' & out & rest & E & _ & Hi' & Hl & _ & Hfin & _); auto.
  rewrite E. assert (exists rets, Some [(ret, out)] = Some rets /\ (length rets <= Datatypes.S (length calls))%nat /\
    Forall2 (fun k r => zlen r.2 <= k.2) (take (length rets) ((input, room) :: calls)) rets) as Hone.
  { eexists. split; [reflexivity|]. cbn. split; [lia|]. constructor; [exact Hl|constructor]. }
  destruct ret; auto. destruct (Hfin eq_refl) as [Hinv' Hw'].
  destruct (IH d' s' h' Hi' Hinv' Hw' Hcalls) as (rets & -> & Hlen & Hall). eexists. split; [reflexivity|]. cbn. split; [lia|]. now constructor.
Qed.

(** C6: [decode_buffer] implements the sequence of decoded bytes: for every
    LZ-based decoder that obeys its laws and every variant of [dict_repeat] it
    ends, and what it stores are the bytes that calls of the decoder on the
    unbounded sequence append, however often the buffer wraps or is reset; the
    dictionary is well-formed afterwards. *)
Theorem decode_buffer_refines d h s input room :
  dict_idle d h -> lz_inv s h -> wants_reset h = false -> bytes_ok input -> 0 <= room ->
  exists ret d' s' h' out rest, decode_buffer config (buffer_fuel input room) d s input room = Some (ret, d', s', out, rest) /\
    decodes room s h input ret s' h' out rest /\ dict_idle d' h' /\ zlen out <= room /\ rest `suffix_of` input /\
    (ret = LZMA_OK -> lz_inv s' h' /\ wants_reset h' = false).
Proof.
  intros. destruct (buffer_loop (buffer_fuel input room) d h s input room) as (ret & d' & s' & h' & out & rest & E & Hx); unfold buffer_fuel; auto.
  exists ret, d', s', h', out, rest. tauto.
Qed.

(** C9: The decoder does not stall: a call of [decode_buffer] that returns
    [LZMA_OK] has read all of its input or has filled all of its room. *)
Theorem decode_buffer_progress d h s input room :
  dict_idle d h -> lz_inv s h -> wants_reset h = false -> bytes_ok input -> 0 <= room ->
  exists ret d' s' out rest, decode_buffer config (buffer_fuel input room) d s input room = Some (ret, d', s', out, rest) /\
    (ret = LZMA_OK -> rest = [] \/ zlen out = room).
Proof.
  intros. destruct (buffer_loop (buffer_fuel input room) d h s input room) as (ret & d' & s' & h' & out & rest & E & Hx); unfold buffer_fuel; auto.
  exists ret, d', s', out, rest. tauto.
Qed.

End Buffer.

(** ** An LZ-based decoder that copies its input *)

Definition copy_coder : LzCoder unit := fun D W s d input =>
  let '(d, rest, _) := window_write d input (zlen input) in Some (LZMA_OK, s, d, rest).

Definition copy_coder_laws : LzCoderLaws unit (L := copy_coder).
Proof.
  unshelve econstructor; [exact (fun _ _ => True)|..]; cbv beta.
  - auto.
  - intros s h input _ Ha Hw Hb. cbn [lz_code copy_coder window_write history_window]. do 4 eexists. split; [reflexivity|].
    set (n := Z.min _ _). split_and!; auto.
    + exists (slice 0 n input). cbn [push hist avail capacity]. unfold slice, from. rewrite length_take, length_drop. split_and!; auto; lia.
    + exists (slice 0 n input). unfold slice, from. now rewrite drop_0, take_drop.
    + cbn. congruence.
  - intros s h input s' h' rest _ Ha Hw Hb. cbn [lz_code copy_coder window_write history_window]. intros [= <- <- <-].
    cbn [push avail]. unfold slice, from. rewrite length_take, length_drop.
    destruct (Z.leb_spec (zlen input) (avail h)); [left; apply drop_ge; lia|right; left; lia].
  - intros D W k top R s d h input Hsim HR _ Hw Hb ret s' h' rest. unfold lz_code, copy_coder.
    destruct (sim_write k top R Hsim d h input (zlen input) HR ltac:(lia)) as (d' & -> & HR').
    destruct (window_write h input (zlen input)) as [[h2 rest2] l]. intros [= <- <- <- <-]. now exists d'.
Defined.

Definition example_memory (n : Z) : option bytes := if n <? 0 then None else Some (replicate (Z.to_nat n) 0).
Definition example_dict : res lzma_dict := dict_init use_sse2 example_memory 0 [].

Lemma example_dict_idle d : example_dict = Ok d -> dict_idle use_sse2 d (mk_history [] 0 4096 false).
Proof.
  intros E. destruct (dict_init_ok use_sse2 example_memory 0 [] d) as (tail & [pre Hpre] & _ & Hok); [lia| |exact E|].
  - unfold example_memory. intros n b. destruct (Z.ltb_spec n 0); [discriminate|]. intros [= <-]. rewrite length_replicate. lia.
  - destruct tail; [|now destruct pre]. apply (Hok 0). vm_compute in E. injection E as <-. cbn. lia.
Qed.

Lemma decode_buffer_refines_witness : exists d, example_dict = Ok d /\
  exists ret d' s' h' out rest, decode_buffer use_sse2 (L := copy_coder) (buffer_fuel [1; 2; 3] 2) d tt [1; 2; 3] 2 = Some (ret, d', s', out, rest) /\
    decodes (L := copy_coder) 2 tt (mk_history [] 0 4096 false) [1; 2; 3] ret s' h' out rest /\ dict_idle use_sse2 d' h' /\ zlen out <= 2 /\
    rest `suffix_of` [1; 2; 3] /\ (ret = LZMA_OK -> True /\ wants_reset h' = false).
Proof.
  destruct example_dict as [d|e] eqn:E; [|now vm_compute in E]. exists d. split; [reflexivity|].
  apply (decode_buffer_refines use_sse2 (L := copy_coder) (LL := copy_coder_laws) d (mk_history [] 0 4096 false) tt [1; 2; 3] 2);
    [now apply example_dict_idle|exact I|reflexivity|bytes_ok_tac|lia].
Defined.

Lemma decode_buffer_progress_witness : exists d, example_dict = Ok d /\
  exists ret d' s' out rest, decode_buffer use_sse2 (L := copy_coder) (buffer_fuel [1; 2; 3] 2) d tt [1; 2; 3] 2 = Some (ret, d', s', out, rest) /\
    (ret = LZMA_OK -> rest = [] \/ zlen out = 2).
Proof.
  destruct example_dict as [d|e] eqn:E; [|now vm_compute in E]. exists d. split; [reflexivity|].
  apply (decode_buffer_progress use_sse2 (L := copy_coder) (LL := copy_coder_laws) d (mk_history [] 0 4096 false) tt [1; 2; 3] 2);
    [now apply example_dict_idle|exact I|reflexivity|bytes_ok_tac|lia].
Defined.
