(* ===== verification/LzmaCommon.v ===== *)
(** * What the LZMA encoder and decoder share

    [lib/archive/xz/src/liblzma/lzma/lzma_common.h]: the state that remembers the
    kinds of the last symbols, the constants of lengths and distances, and the
    probabilities.  The arrays of probabilities have the same shape in
    [lzma_lzma1_encoder] and [lzma_lzma1_decoder]; a pointer into one of them is
    the array and an index. *)

From Stdlib Require Import ZArith Lia.
From stdpp Require Import gmap list.
From S2P Require Import Prelude FilterProps FastPos RangeCoder.

(** ** State *)

Definition STATE_LIT_LIT : Z := 0.
Definition STATE_SHORTREP_LIT_LIT : Z := 3.
Definition STATE_LIT_MATCH : Z := 7.
Definition STATE_LIT_LONGREP : Z := 8.
Definition STATE_LIT_SHORTREP : Z := 9.
Definition STATE_NONLIT_MATCH : Z := 10.
Definition STATE_NONLIT_REP : Z := 11.
Definition STATES : Z := 12.
Definition LIT_STATES : Z := 7.

Definition is_literal_state (state : Z) : bool := state <? LIT_STATES.

Definition update_literal_normal (state : Z) : Z := if state <=? STATE_SHORTREP_LIT_LIT then STATE_LIT_LIT else state - 3.
Definition update_literal_matched (state : Z) : Z := if state <=? STATE_LIT_SHORTREP then state - 3 else state - 6.
Definition update_literal (state : Z) : Z :=
  if state <=? STATE_SHORTREP_LIT_LIT then STATE_LIT_LIT else if state <=? STATE_LIT_SHORTREP then state - 3 else state - 6.
Definition update_match (state : Z) : Z := if state <? LIT_STATES then STATE_LIT_MATCH else STATE_NONLIT_MATCH.
Definition update_long_rep (state : Z) : Z := if state <? LIT_STATES then STATE_LIT_LONGREP else STATE_NONLIT_REP.
Definition update_short_rep (state : Z) : Z := if state <? LIT_STATES then STATE_LIT_SHORTREP else STATE_NONLIT_REP.

(** ** Lengths and distances *)

Definition POS_STATES_MAX : Z := Z.shiftl 1 LZMA_PB_MAX.
Definition MATCH_LEN_MIN : Z := 2.
Definition LEN_LOW_BITS : nat := 3.
Definition LEN_LOW_SYMBOLS : Z := 8.
Definition LEN_MID_BITS : nat := 3.
Definition LEN_MID_SYMBOLS : Z := 8.
Definition LEN_HIGH_BITS : nat := 8.
Definition LEN_HIGH_SYMBOLS : Z := 256.
Definition LEN_SYMBOLS : Z := LEN_LOW_SYMBOLS + LEN_MID_SYMBOLS + LEN_HIGH_SYMBOLS.
Definition MATCH_LEN_MAX : Z := MATCH_LEN_MIN + LEN_SYMBOLS - 1.
Definition LZMA_LZMA1EXT_ALLOW_EOPM : Z := 1.
Definition DIST_STATES : Z := 4.
Definition get_dist_state (len : Z) : Z := if len <? DIST_STATES + MATCH_LEN_MIN then len - MATCH_LEN_MIN else DIST_STATES - 1.
Definition DIST_SLOT_BITS : nat := 6.
Definition DIST_SLOTS : Z := 64.
Definition DIST_MODEL_START : Z := 4.
Definition DIST_MODEL_END : Z := 14.
Definition FULL_DISTANCES : Z := Z.shiftl 1 (DIST_MODEL_END / 2).
Definition ALIGN_BITS : nat := 4.
Definition ALIGN_SIZE : Z := 16.
Definition ALIGN_MASK : Z := ALIGN_SIZE - 1.
Definition REPS : Z := 4.

(** ** Probabilities *)

Inductive prob_array :=
  | literal_probs
  | is_match (state : Z)
  | is_rep
  | is_rep0
  | is_rep1
  | is_rep2
  | is_rep0_long (state : Z)
  | dist_slot_probs (dist_state : Z)
  | pos_special
  | pos_align
  | len_choice (rep : bool)
  | len_choice2 (rep : bool)
  | len_low (rep : bool) (pos_state : Z)
  | len_mid (rep : bool) (pos_state : Z)
  | len_high (rep : bool).

#[export] Instance prob_array_eq_dec : EqDecision prob_array.
Proof. solve_decision. Defined.

Definition array_code (a : prob_array) : Z * Z :=
  match a with
  | literal_probs => (0, 0)
  | is_match s => (1, s)
  | is_rep => (2, 0)
  | is_rep0 => (3, 0)
  | is_rep1 => (4, 0)
  | is_rep2 => (5, 0)
  | is_rep0_long s => (6, s)
  | dist_slot_probs s => (7, s)
  | pos_special => (8, 0)
  | pos_align => (9, 0)
  | len_choice r => (10, Z.b2z r)
  | len_choice2 r => (11, Z.b2z r)
  | len_low r s => (if r then 12 else 13, s)
  | len_mid r s => (if r then 14 else 15, s)
  | len_high r => (16, Z.b2z r)
  end.

Definition array_of_code (c : Z * Z) : prob_array :=
  let (t, s) := c in
  let r := s =? 1 in
  match t with
  | 0 => literal_probs | 1 => is_match s | 2 => is_rep | 3 => is_rep0 | 4 => is_rep1 | 5 => is_rep2 | 6 => is_rep0_long s
  | 7 => dist_slot_probs s | 8 => pos_special | 9 => pos_align | 10 => len_choice r | 11 => len_choice2 r
  | 12 => len_low true s | 13 => len_low false s | 14 => len_mid true s | 15 => len_mid false s | _ => len_high r
  end.

#[export] Instance prob_array_countable : Countable prob_array.
Proof. apply (inj_countable' array_code array_of_code). now intros [| | | | | | | | | |[]|[]|[] s|[] s|[]]. Defined.

(** [probability *] *)
Definition prob_ptr : Type := prob_array * Z.

(** [probs[i]] of a pointer [probs]. *)
Definition index (p : prob_ptr) (i : Z) : prob_ptr := (p.1, p.2 + i).

Abbreviation prob_store := (gmap prob_ptr Z).

(** *** Literals *)

Definition LITERAL_CODER_SIZE : Z := 0x300.

Definition literal_mask_calc (lc lp : Z) : Z := u32 (Z.shiftl 0x100 lp - Z.shiftr 0x100 lc).

Definition literal_subcoder (lc literal_mask pos prev_byte : Z) : prob_ptr :=
  (literal_probs, 3 * Z.shiftl (Z.land (u32 (Z.shiftl pos 8 + prev_byte)) literal_mask) lc).

(** *** The initial probabilities *)

(** [bit_reset] of the first [n] entries of an array. *)
Definition reset_array (n : Z) (a : prob_array) (P : prob_store) : prob_store :=
  fold_left (fun P i => bit_reset P (a, Z.of_nat i)) (seq 0 (Z.to_nat n)) P.

Definition literal_init (lc lp : Z) (P : prob_store) : prob_store :=
  reset_array (Z.shiftl LITERAL_CODER_SIZE (lc + lp)) literal_probs P.

Definition numbers (n : Z) : list Z := map Z.of_nat (seq 0 (Z.to_nat n)).

Definition length_reset (pos_states : Z) (rep : bool) (P : prob_store) : prob_store :=
  let P := bit_reset (bit_reset P (len_choice rep, 0)) (len_choice2 rep, 0) in
  let P := fold_left (fun P s => reset_array LEN_MID_SYMBOLS (len_mid rep s) (reset_array LEN_LOW_SYMBOLS (len_low rep s) P))
    (numbers pos_states) P in
  reset_array LEN_HIGH_SYMBOLS (len_high rep) P.

(** The probabilities that [lzma_decoder_reset] and [lzma_lzma_encoder_reset]
    reset, on top of those that the memory holds. *)
Definition reset_probs (lc lp pb : Z) (P : prob_store) : prob_store :=
  let P := literal_init lc lp P in
  let pos_states := Z.shiftl 1 pb in
  let P := fold_left (fun P s => reset_array pos_states (is_rep0_long s) (reset_array pos_states (is_match s) P)) (numbers STATES) P in
  let P := reset_array STATES is_rep2 (reset_array STATES is_rep1 (reset_array STATES is_rep0 (reset_array STATES is_rep P))) in
  let P := fold_left (fun P s => reset_array DIST_SLOTS (dist_slot_probs s) P) (numbers DIST_STATES) P in
  let P := reset_array (FULL_DISTANCES - DIST_MODEL_END) pos_special P in
  let P := reset_array ALIGN_SIZE pos_align P in
  length_reset pos_states true (length_reset pos_states false P).

(** *** Which pointers are inside their arrays *)

Definition valid_ptr (lc lp pb : Z) (p : prob_ptr) : Prop :=
  let i := p.2 in
  match p.1 with
  | literal_probs => 0 <= i < Z.shiftl LITERAL_CODER_SIZE (lc + lp)
  | is_match s | is_rep0_long s => 0 <= s < STATES /\ 0 <= i < Z.shiftl 1 pb
  | is_rep | is_rep0 | is_rep1 | is_rep2 => 0 <= i < STATES
  | dist_slot_probs s => 0 <= s < DIST_STATES /\ 0 <= i < DIST_SLOTS
  | pos_special => 0 <= i < FULL_DISTANCES - DIST_MODEL_END
  | pos_align => 0 <= i < ALIGN_SIZE
  | len_choice _ | len_choice2 _ => i = 0
  | len_low _ s => 0 <= s < Z.shiftl 1 pb /\ 0 <= i < LEN_LOW_SYMBOLS
  | len_mid _ s => 0 <= s < Z.shiftl 1 pb /\ 0 <= i < LEN_MID_SYMBOLS
  | len_high _ => 0 <= i < LEN_HIGH_SYMBOLS
  end.

(** The pointer [p] holds the initial probability. *)
Definition initial (p : prob_ptr) (P : prob_store) : Prop := P !! p = Some 1024.

Lemma initial_keep p q P : initial p P -> initial p (bit_reset P q).
Proof. unfold initial, bit_reset. intros Hf. destruct (decide (q = p)) as [->|Hne]; [now rewrite lookup_insert_eq|now rewrite lookup_insert_ne]. Qed.

Lemma initial_hit p P : initial p (bit_reset P p).
Proof. apply lookup_insert_eq. Qed.

Lemma fold_keep {A} (p : prob_ptr) (f : prob_store -> A -> prob_store) (l : list A) : (forall P x, initial p P -> initial p (f P x)) ->
  forall P, initial p P -> initial p (fold_left f l P).
Proof. intros Hf. induction l as [|x l IH]; intros P HP; cbn; auto. Qed.

Lemma fold_hit {A} (p : prob_ptr) (f : prob_store -> A -> prob_store) (l : list A) x : x ∈ l -> (forall P x, initial p P -> initial p (f P x)) ->
  (forall P, initial p (f P x)) -> forall P, initial p (fold_left f l P).
Proof.
  intros Hx Hf Hhit. induction l as [|y l IH]; intros P; [now apply not_elem_of_nil in Hx|]. cbn.
  apply elem_of_cons in Hx as [<-|Hx]; [now apply fold_keep|now apply IH].
Qed.

Lemma array_keep n a p P : initial p P -> initial p (reset_array n a P).
Proof. apply fold_keep. intros Q x. apply initial_keep. Qed.

Lemma array_hit n a i P : 0 <= i < n -> initial (a, i) (reset_array n a P).
Proof.
  intros Hi. apply (fold_hit _ _ _ (Z.to_nat i)); [apply elem_of_seq; lia|intros; now apply initial_keep|].
  intros Q. rewrite Z2Nat.id by lia. apply initial_hit.
Qed.

Lemma numbers_elem n i : 0 <= i < n -> i ∈ numbers n.
Proof. intros Hi. apply list_elem_of_fmap. exists (Z.to_nat i). split; [lia|apply elem_of_seq; lia]. Qed.

Create HintDb lzma_probs.
#[local] Hint Resolve initial_keep initial_hit array_keep array_hit numbers_elem : lzma_probs.

(** Two arrays for every number below [m] are reset. *)
Lemma family_hit n n' m (a b : Z -> prob_array) s p P : 0 <= s < m ->
  (p.1 = a s /\ 0 <= p.2 < n) \/ (p.1 = b s /\ 0 <= p.2 < n') ->
  initial p (fold_left (fun P s => reset_array n' (b s) (reset_array n (a s) P)) (numbers m) P).
Proof.
  intros Hs Hp. apply (fold_hit _ _ _ s); [auto with lzma_probs..|]. intros Q.
  destruct p as [x i]; cbn in Hp; destruct Hp as [[-> Hi]|[-> Hi]]; auto with lzma_probs.
Qed.

Lemma length_keep n r p P : initial p P -> initial p (length_reset n r P).
Proof. intros Hp. unfold length_reset. apply array_keep, fold_keep; auto with lzma_probs. Qed.

#[local] Opaque reset_array numbers bit_reset initial.

(** Looks for the reset that hits the pointer; the later ones keep it. *)
Ltac seek Hv :=
  first
    [ solve [apply array_hit; tauto]
    | solve [eapply (family_hit _ _ _ is_match is_rep0_long); [apply Hv|cbn; tauto]]
    | solve [eapply (family_hit _ _ _ (len_low _) (len_mid _)); [apply Hv|cbn; tauto]]
    | solve [apply (fold_hit _ _ _ _ (numbers_elem _ _ (proj1 Hv))); [auto with lzma_probs|intros; apply array_hit; tauto]]
    | solve [apply initial_hit]
    | solve [apply initial_keep, initial_hit]
    | apply array_keep; seek Hv
    | apply fold_keep; [auto with lzma_probs|]; seek Hv ].

Lemma length_hit lc lp pb r p P : valid_ptr lc lp pb p ->
  match p.1 with len_choice r' | len_choice2 r' | len_low r' _ | len_mid r' _ | len_high r' => r' = r | _ => False end ->
  initial p (length_reset (Z.shiftl 1 pb) r P).
Proof. destruct p as [[] i]; cbn; intros Hv Hr; try contradiction; subst; unfold length_reset; seek Hv. Qed.

Lemma reset_probs_initial lc lp pb P p : valid_ptr lc lp pb p -> initial p (reset_probs lc lp pb P).
Proof.
  intros Hv. unfold reset_probs, literal_init.
  assert (forall r Q, match p.1 with len_choice r' | len_choice2 r' | len_low r' _ | len_mid r' _ | len_high r' => r' = r | _ => False end ->
    initial p (length_reset (Z.shiftl 1 pb) r Q)) as Hlen by (intros r Q; exact (length_hit lc lp pb r p Q Hv)).
  destruct p as [a i]. destruct a; cbn in Hv.
  all: try (destruct rep; [apply Hlen; reflexivity|apply length_keep, Hlen; reflexivity]).
  all: do 2 apply length_keep; seek Hv.
Qed.
