(* ===== verification/LzmaDecoder.v ===== *)
(** * The LZMA decoder

    [lib/archive/xz/src/liblzma/lzma/lzma_decoder.c].  [lzma_decode] is a loop
    around a [switch] whose cases are the places where it can run out of input or
    of room; it leaves by saving the place in [sequence] and resumes there.  The
    model is a step function: one step executes the code from one case label to
    the next, which decodes one bit or writes to the dictionary.  It runs on any
    [Window]. *)

From Stdlib Require Import ZArith Lia.
From stdpp Require Import gmap list.
From S2P Require Import Prelude Vli FilterProps RangeCoder LzDict LzmaCommon.

Inductive lzma_sequence :=
  | SEQ_NORMALIZE | SEQ_IS_MATCH | SEQ_LITERAL | SEQ_LITERAL_MATCHED | SEQ_LITERAL_WRITE | SEQ_IS_REP
  | SEQ_LEN_CHOICE (rep : bool) | SEQ_LEN_CHOICE2 (rep : bool) | SEQ_LEN_BITTREE (rep : bool)
  | SEQ_DIST_SLOT | SEQ_DIST_MODEL | SEQ_DIRECT | SEQ_ALIGN | SEQ_EOPM
  | SEQ_IS_REP0 | SEQ_SHORTREP | SEQ_IS_REP0_LONG | SEQ_IS_REP1 | SEQ_IS_REP2 | SEQ_COPY.

#[export] Instance lzma_sequence_eq_dec : EqDecision lzma_sequence.
Proof. solve_decision. Defined.

(** [SEQ_MATCH_LEN_*] is [SEQ_LEN_* false], [SEQ_REP_LEN_*] is [SEQ_LEN_* true]. *)
Record lzma_lzma1_decoder := mk_lzma1 {
  store_ : prob_store;
  rc : lzma_range_decoder;
  state : Z;
  rep0 : Z;
  rep1 : Z;
  rep2 : Z;
  rep3 : Z;
  pos_mask : Z;
  literal_context_bits : Z;
  literal_mask : Z;
  uncompressed_size : Z;
  allow_eopm : bool;
  sequence : lzma_sequence;
  probs : prob_ptr;
  symbol : Z;
  limit_ : Z;
  offset : Z;
  len : Z;
}.

(** ** Assignments *)

Definition set_rc (c : lzma_lzma1_decoder) (P : prob_store) (r : lzma_range_decoder) : lzma_lzma1_decoder :=
  mk_lzma1 P r (state c) (rep0 c) (rep1 c) (rep2 c) (rep3 c) (pos_mask c) (literal_context_bits c) (literal_mask c)
    (uncompressed_size c) (allow_eopm c) (sequence c) (probs c) (symbol c) (limit_ c) (offset c) (len c).
Definition set_state (c : lzma_lzma1_decoder) (x : Z) : lzma_lzma1_decoder :=
  mk_lzma1 (store_ c) (rc c) x (rep0 c) (rep1 c) (rep2 c) (rep3 c) (pos_mask c) (literal_context_bits c) (literal_mask c)
    (uncompressed_size c) (allow_eopm c) (sequence c) (probs c) (symbol c) (limit_ c) (offset c) (len c).
Definition set_reps (c : lzma_lzma1_decoder) (r0 r1 r2 r3 : Z) : lzma_lzma1_decoder :=
  mk_lzma1 (store_ c) (rc c) (state c) r0 r1 r2 r3 (pos_mask c) (literal_context_bits c) (literal_mask c)
    (uncompressed_size c) (allow_eopm c) (sequence c) (probs c) (symbol c) (limit_ c) (offset c) (len c).
Definition set_sequence (c : lzma_lzma1_decoder) (s : lzma_sequence) : lzma_lzma1_decoder :=
  mk_lzma1 (store_ c) (rc c) (state c) (rep0 c) (rep1 c) (rep2 c) (rep3 c) (pos_mask c) (literal_context_bits c)
    (literal_mask c) (uncompressed_size c) (allow_eopm c) s (probs c) (symbol c) (limit_ c) (offset c) (len c).
Definition set_tree (c : lzma_lzma1_decoder) (p : prob_ptr) (x : Z) : lzma_lzma1_decoder :=
  mk_lzma1 (store_ c) (rc c) (state c) (rep0 c) (rep1 c) (rep2 c) (rep3 c) (pos_mask c) (literal_context_bits c)
    (literal_mask c) (uncompressed_size c) (allow_eopm c) (sequence c) p x (limit_ c) (offset c) (len c).
Definition set_symbol (c : lzma_lzma1_decoder) (x : Z) : lzma_lzma1_decoder := set_tree c (probs c) x.
Definition set_limit_ (c : lzma_lzma1_decoder) (x : Z) : lzma_lzma1_decoder :=
  mk_lzma1 (store_ c) (rc c) (state c) (rep0 c) (rep1 c) (rep2 c) (rep3 c) (pos_mask c) (literal_context_bits c)
    (literal_mask c) (uncompressed_size c) (allow_eopm c) (sequence c) (probs c) (symbol c) x (offset c) (len c).
Definition set_offset (c : lzma_lzma1_decoder) (x : Z) : lzma_lzma1_decoder :=
  mk_lzma1 (store_ c) (rc c) (state c) (rep0 c) (rep1 c) (rep2 c) (rep3 c) (pos_mask c) (literal_context_bits c)
    (literal_mask c) (uncompressed_size c) (allow_eopm c) (sequence c) (probs c) (symbol c) (limit_ c) x (len c).
Definition set_len (c : lzma_lzma1_decoder) (x : Z) : lzma_lzma1_decoder :=
  mk_lzma1 (store_ c) (rc c) (state c) (rep0 c) (rep1 c) (rep2 c) (rep3 c) (pos_mask c) (literal_context_bits c)
    (literal_mask c) (uncompressed_size c) (allow_eopm c) (sequence c) (probs c) (symbol c) (limit_ c) (offset c) x.
Definition set_uncompressed_size (c : lzma_lzma1_decoder) (x : Z) : lzma_lzma1_decoder :=
  mk_lzma1 (store_ c) (rc c) (state c) (rep0 c) (rep1 c) (rep2 c) (rep3 c) (pos_mask c) (literal_context_bits c)
    (literal_mask c) x (allow_eopm c) (sequence c) (probs c) (symbol c) (limit_ c) (offset c) (len c).

(** ** The steps

    [Next]: the step ended at the place that is in [sequence].  [Out]: [goto out]
    with the return code in [ret].  The local variable [eopm_is_valid] is passed
    along. *)
Inductive step_result (D : Type) :=
  | Next (eopm_is_valid : bool) (c : lzma_lzma1_decoder) (d : D) (input : bytes)
  | Out (ret : lzma_ret) (c : lzma_lzma1_decoder) (d : D) (input : bytes).
Arguments Next {D} _ _ _ _.
Arguments Out {D} _ _ _ _.

Section Decoder.
Context {D : Type} `{Window D}.
Implicit Types (c : lzma_lzma1_decoder) (d : D).

Definition pos_state c d : Z := Z.land (window_pos d) (pos_mask c).

(** [rc_if_0_safe] and the like: without input, the place is saved. *)
Definition with_bit c (p : prob_ptr) (seq : lzma_sequence) d (input : bytes)
    (k : bool -> lzma_lzma1_decoder -> bytes -> step_result D) : step_result D :=
  match rc_bit_safe (store_ c) p (rc c) input with
  | None => Out LZMA_OK (set_sequence c seq) d input
  | Some (bit, P, r, input) => k bit (set_rc c P r) input
  end.

Definition goto_ (eopm : bool) (seq : lzma_sequence) c d (input : bytes) : step_result D :=
  Next eopm (set_sequence c seq) d input.

(** [case SEQ_NORMALIZE: case SEQ_IS_MATCH:] *)
Definition step_literal_start (eopm : bool) c d input : step_result D :=
  let c := set_tree c (literal_subcoder (literal_context_bits c) (literal_mask c) (window_pos d) (window_get0 d)) 1 in
  if is_literal_state (state c) then goto_ eopm SEQ_LITERAL (set_state c (update_literal_normal (state c))) d input
  else
    let c := set_state c (update_literal_matched (state c)) in
    goto_ eopm SEQ_LITERAL_MATCHED (set_offset (set_len c (u32 (Z.shiftl (window_get d (rep0 c)) 1))) 0x100) d input.

Definition step_is_match_bit (eopm : bool) c d input : step_result D :=
  with_bit c (is_match (state c), pos_state c d) SEQ_IS_MATCH d input (fun bit c input =>
    if bit then goto_ eopm SEQ_IS_REP c d input else step_literal_start eopm c d input).

Definition step_is_match (might_finish_without_eopm eopm : bool) c d input : step_result D :=
  if might_finish_without_eopm && window_at_limit d then
    match rc_normalize_safe (rc c) input with
    | None => Out LZMA_OK (set_sequence c SEQ_NORMALIZE) d input
    | Some (r, input) =>
        let c := set_rc c (store_ c) r in
        if rc_is_finished r then Out LZMA_STREAM_END c d input
        else if negb (allow_eopm c) then Out LZMA_DATA_ERROR c d input
        else step_is_match_bit true c d input
    end
  else step_is_match_bit eopm c d input.

Definition step_literal (eopm : bool) c d input : step_result D :=
  with_bit c (index (probs c) (symbol c)) SEQ_LITERAL d input (fun bit c input =>
    let c := set_symbol c (push_bit (symbol c) bit) in
    goto_ eopm (if symbol c <? 256 then SEQ_LITERAL else SEQ_LITERAL_WRITE) c d input).

Definition step_literal_matched (eopm : bool) c d input : step_result D :=
  let match_bit := Z.land (len c) (offset c) in
  let subcoder_index := offset c + match_bit + symbol c in
  with_bit c (index (probs c) subcoder_index) SEQ_LITERAL_MATCHED d input (fun bit c input =>
    let c := set_symbol c (push_bit (symbol c) bit) in
    let c := set_offset c (Z.land (offset c) (if bit then match_bit else Z.lnot match_bit)) in
    let c := set_len c (u32 (Z.shiftl (len c) 1)) in
    goto_ eopm (if symbol c <? 256 then SEQ_LITERAL_MATCHED else SEQ_LITERAL_WRITE) c d input).

Definition step_literal_write (eopm : bool) c d input : step_result D :=
  if window_at_limit d then Out LZMA_OK (set_sequence c SEQ_LITERAL_WRITE) d input
  else goto_ eopm SEQ_IS_MATCH c (window_put d (u8 (symbol c))) input.

(** [case SEQ_IS_REP:] *)
Definition step_is_rep (eopm : bool) c d input : step_result D :=
  with_bit c (is_rep, state c) SEQ_IS_REP d input (fun bit c input =>
    if bit then
      if negb (window_valid d 0) then Out LZMA_DATA_ERROR c d input else goto_ eopm SEQ_IS_REP0 c d input
    else
      let c := set_state c (update_match (state c)) in
      goto_ eopm (SEQ_LEN_CHOICE false) (set_reps c (rep0 c) (rep0 c) (rep1 c) (rep2 c)) d input).

(** [len_decode] *)
Definition start_len c (a : prob_array) (l target : Z) : lzma_lzma1_decoder :=
  set_tree (set_len (set_limit_ c l) target) (a, 0) 1.

Definition step_len_choice (rep eopm : bool) c d input : step_result D :=
  with_bit c (len_choice rep, 0) (SEQ_LEN_CHOICE rep) d input (fun bit c input =>
    if bit then goto_ eopm (SEQ_LEN_CHOICE2 rep) c d input
    else goto_ eopm (SEQ_LEN_BITTREE rep) (start_len c (len_low rep (pos_state c d)) LEN_LOW_SYMBOLS MATCH_LEN_MIN) d input).

Definition step_len_choice2 (rep eopm : bool) c d input : step_result D :=
  with_bit c (len_choice2 rep, 0) (SEQ_LEN_CHOICE2 rep) d input (fun bit c input =>
    goto_ eopm (SEQ_LEN_BITTREE rep)
      (if bit then start_len c (len_high rep) LEN_HIGH_SYMBOLS (MATCH_LEN_MIN + LEN_LOW_SYMBOLS + LEN_MID_SYMBOLS)
       else start_len c (len_mid rep (pos_state c d)) LEN_MID_SYMBOLS (MATCH_LEN_MIN + LEN_LOW_SYMBOLS)) d input).

Definition step_len_bittree (rep eopm : bool) c d input : step_result D :=
  with_bit c (index (probs c) (symbol c)) (SEQ_LEN_BITTREE rep) d input (fun bit c input =>
    let c := set_symbol c (push_bit (symbol c) bit) in
    if symbol c <? limit_ c then goto_ eopm (SEQ_LEN_BITTREE rep) c d input
    else
      let c := set_len c (u32 (len c + (symbol c - limit_ c))) in
      if rep then goto_ eopm SEQ_COPY c d input
      else goto_ eopm SEQ_DIST_SLOT (set_tree c (dist_slot_probs (get_dist_state (len c)), 0) 1) d input).

(** [if (!dict_is_distance_valid(&dict, rep0))] *)
Definition check_distance (eopm : bool) c d input : step_result D :=
  if negb (window_valid d (rep0 c)) then Out LZMA_DATA_ERROR c d input else goto_ eopm SEQ_COPY c d input.

Definition set_rep0 c (x : Z) : lzma_lzma1_decoder := set_reps c x (rep1 c) (rep2 c) (rep3 c).

Definition step_dist_slot (eopm : bool) c d input : step_result D :=
  with_bit c (index (probs c) (symbol c)) SEQ_DIST_SLOT d input (fun bit c input =>
    let c := set_symbol c (push_bit (symbol c) bit) in
    if symbol c <? DIST_SLOTS then goto_ eopm SEQ_DIST_SLOT c d input
    else
      let c := set_symbol c (symbol c - DIST_SLOTS) in
      if symbol c <? DIST_MODEL_START then check_distance eopm (set_rep0 c (symbol c)) d input
      else
        let c := set_limit_ c (Z.shiftr (symbol c) 1 - 1) in
        let c := set_rep0 c (2 + Z.land (symbol c) 1) in
        if symbol c <? DIST_MODEL_END then
          let c := set_rep0 c (u32 (Z.shiftl (rep0 c) (limit_ c))) in
          goto_ eopm SEQ_DIST_MODEL (set_offset (set_tree c (pos_special, rep0 c - symbol c - 1) 1) 0) d input
        else goto_ eopm SEQ_DIRECT (set_limit_ c (limit_ c - Z.of_nat ALIGN_BITS)) d input).

Definition step_dist_model (eopm : bool) c d input : step_result D :=
  with_bit c (index (probs c) (symbol c)) SEQ_DIST_MODEL d input (fun bit c input =>
    let c := set_symbol c (push_bit (symbol c) bit) in
    let c := if bit then set_rep0 c (u32 (rep0 c + Z.shiftl 1 (offset c))) else c in
    let c := set_offset c (offset c + 1) in
    if offset c <? limit_ c then goto_ eopm SEQ_DIST_MODEL c d input else check_distance eopm c d input).

Definition step_direct (eopm : bool) c d input : step_result D :=
  match rc_direct_safe (rep0 c) (rc c) input with
  | None => Out LZMA_OK (set_sequence c SEQ_DIRECT) d input
  | Some (dest, r, input) =>
      let c := set_limit_ (set_rep0 (set_rc c (store_ c) r) dest) (limit_ c - 1) in
      if limit_ c >? 0 then goto_ eopm SEQ_DIRECT c d input
      else
        let c := set_rep0 c (u32 (Z.shiftl (rep0 c) (Z.of_nat ALIGN_BITS))) in
        goto_ eopm SEQ_ALIGN (set_offset (set_symbol c 0) 1) d input
  end.

Definition step_align (eopm : bool) c d input : step_result D :=
  with_bit c (pos_align, offset c + symbol c) SEQ_ALIGN d input (fun bit c input =>
    let c := if bit then set_symbol c (symbol c + offset c) else c in
    let c := set_offset c (u32 (Z.shiftl (offset c) 1)) in
    if offset c <? ALIGN_SIZE then goto_ eopm SEQ_ALIGN c d input
    else
      let c := set_rep0 c (u32 (rep0 c + symbol c)) in
      if rep0 c =? UINT32_MAX then
        if negb eopm then Out LZMA_DATA_ERROR c d input else goto_ eopm SEQ_EOPM c d input
      else check_distance eopm c d input).

Definition step_eopm c d input : step_result D :=
  match rc_normalize_safe (rc c) input with
  | None => Out LZMA_OK (set_sequence c SEQ_EOPM) d input
  | Some (r, input) =>
      Out (if rc_is_finished r then LZMA_STREAM_END else LZMA_DATA_ERROR) (set_rc c (store_ c) r) d input
  end.

(** Repeated matches. *)
Definition step_is_rep0 (eopm : bool) c d input : step_result D :=
  with_bit c (is_rep0, state c) SEQ_IS_REP0 d input (fun bit c input =>
    goto_ eopm (if bit then SEQ_IS_REP1 else SEQ_IS_REP0_LONG) c d input).

Definition long_rep (eopm : bool) c d input : step_result D :=
  goto_ eopm (SEQ_LEN_CHOICE true) (set_state c (update_long_rep (state c))) d input.

Definition step_is_rep0_long (eopm : bool) c d input : step_result D :=
  with_bit c (is_rep0_long (state c), pos_state c d) SEQ_IS_REP0_LONG d input (fun bit c input =>
    if bit then long_rep eopm c d input
    else goto_ eopm SEQ_SHORTREP (set_state c (update_short_rep (state c))) d input).

Definition step_shortrep (eopm : bool) c d input : step_result D :=
  if window_at_limit d then Out LZMA_OK (set_sequence c SEQ_SHORTREP) d input
  else goto_ eopm SEQ_IS_MATCH c (window_put d (window_get d (rep0 c))) input.

Definition step_is_rep1 (eopm : bool) c d input : step_result D :=
  with_bit c (is_rep1, state c) SEQ_IS_REP1 d input (fun bit c input =>
    if bit then goto_ eopm SEQ_IS_REP2 c d input
    else long_rep eopm (set_reps c (rep1 c) (rep0 c) (rep2 c) (rep3 c)) d input).

Definition step_is_rep2 (eopm : bool) c d input : step_result D :=
  with_bit c (is_rep2, state c) SEQ_IS_REP2 d input (fun bit c input =>
    long_rep eopm
      (if bit then set_reps c (rep3 c) (rep0 c) (rep1 c) (rep2 c) else set_reps c (rep2 c) (rep0 c) (rep1 c) (rep3 c)) d input).

Definition step_copy (eopm : bool) c d input : step_result D :=
  let '(more, d, l) := window_repeat d (rep0 c) (len c) in
  let c := set_len c l in
  if more then Out LZMA_OK (set_sequence c SEQ_COPY) d input else goto_ eopm SEQ_IS_MATCH c d input.

(** [switch (coder->sequence)] *)
Definition decode_step (might_finish_without_eopm eopm : bool) c d input : step_result D :=
  match sequence c with
  | SEQ_NORMALIZE | SEQ_IS_MATCH => step_is_match might_finish_without_eopm eopm c d input
  | SEQ_LITERAL => step_literal eopm c d input
  | SEQ_LITERAL_MATCHED => step_literal_matched eopm c d input
  | SEQ_LITERAL_WRITE => step_literal_write eopm c d input
  | SEQ_IS_REP => step_is_rep eopm c d input
  | SEQ_LEN_CHOICE rep => step_len_choice rep eopm c d input
  | SEQ_LEN_CHOICE2 rep => step_len_choice2 rep eopm c d input
  | SEQ_LEN_BITTREE rep => step_len_bittree rep eopm c d input
  | SEQ_DIST_SLOT => step_dist_slot eopm c d input
  | SEQ_DIST_MODEL => step_dist_model eopm c d input
  | SEQ_DIRECT => step_direct eopm c d input
  | SEQ_ALIGN => step_align eopm c d input
  | SEQ_EOPM => step_eopm c d input
  | SEQ_IS_REP0 => step_is_rep0 eopm c d input
  | SEQ_SHORTREP => step_shortrep eopm c d input
  | SEQ_IS_REP0_LONG => step_is_rep0_long eopm c d input
  | SEQ_IS_REP1 => step_is_rep1 eopm c d input
  | SEQ_IS_REP2 => step_is_rep2 eopm c d input
  | SEQ_COPY => step_copy eopm c d input
  end.

(** ** The fast loop

    With enough input for any symbol a whole symbol is decoded at once, without
    the possibility to stop inside it.  [None]: input was read that is not there. *)

Definition rc_bittree c (a : prob_ptr) (n : nat) (input : bytes) : option (Z * lzma_lzma1_decoder * bytes) :=
  '(sym, P, r, input) ← rc_bittree_decode (index a) n 1 (store_ c) (rc c) input;
  Some (sym, set_rc c P r, input).

Definition fast_bit c (p : prob_ptr) (input : bytes) : option (bool * lzma_lzma1_decoder * bytes) :=
  '(bit, P, r, input) ← rc_bit_safe (store_ c) p (rc c) input;
  Some (bit, set_rc c P r, input).

(** [rc_matched_literal]: [n] rounds of [decode_with_match_bit]. *)
Fixpoint matched_loop (n : nat) (a : prob_ptr) (t_match_byte t_offset sym : Z) c (input : bytes) :
  option (Z * lzma_lzma1_decoder * bytes) :=
  match n with
  | O => Some (sym, c, input)
  | S n =>
      let t_match_byte := u32 (Z.shiftl t_match_byte 1) in
      let t_match_bit := Z.land t_match_byte t_offset in
      '(bit, c, input) ← fast_bit c (index a (t_offset + t_match_bit + sym)) input;
      matched_loop n a t_match_byte (Z.land t_offset (if bit : bool then t_match_bit else Z.lnot t_match_bit)) (push_bit sym bit) c input
  end.

Definition rc_matched_literal c (a : prob_ptr) (match_byte : Z) (input : bytes) : option (Z * lzma_lzma1_decoder * bytes) :=
  matched_loop 8 a match_byte 0x100 1 c input.

(** [len_decode_fast]; [final_add] removes the highest bit of the tree. *)
Definition len_decode_fast (rep : bool) (ps : Z) c (input : bytes) : option (Z * lzma_lzma1_decoder * bytes) :=
  '(bit, c, input) ← fast_bit c (len_choice rep, 0) input;
  if negb bit then
    '(sym, c, input) ← rc_bittree c (len_low rep ps, 0) LEN_LOW_BITS input;
    Some (u32 (sym + (- LEN_LOW_SYMBOLS + MATCH_LEN_MIN)), c, input)
  else
    '(bit, c, input) ← fast_bit c (len_choice2 rep, 0) input;
    if negb bit then
      '(sym, c, input) ← rc_bittree c (len_mid rep ps, 0) LEN_MID_BITS input;
      Some (u32 (sym + (- LEN_MID_SYMBOLS + MATCH_LEN_MIN + LEN_LOW_SYMBOLS)), c, input)
    else
      '(sym, c, input) ← rc_bittree c (len_high rep, 0) LEN_HIGH_BITS input;
      Some (u32 (sym + (- LEN_HIGH_SYMBOLS + MATCH_LEN_MIN + LEN_LOW_SYMBOLS + LEN_MID_SYMBOLS)), c, input).

(** [do { rc_bit_add_if_1(probs, rep0, offset); offset <<= 1; } while (--limit > 0);] *)
Fixpoint dist_model_loop (n : nat) (a : prob_ptr) (sym dest off : Z) c (input : bytes) :
  option (Z * lzma_lzma1_decoder * bytes) :=
  match n with
  | O => Some (dest, c, input)
  | S n =>
      '(bit, c, input) ← fast_bit c (index a sym) input;
      dist_model_loop n a (push_bit sym bit) (if bit : bool then u32 (dest + off) else dest) (u32 (Z.shiftl off 1)) c input
  end.

(** [rc_direct]. *)
Fixpoint direct_loop (n : nat) (dest : Z) c (input : bytes) : option (Z * lzma_lzma1_decoder * bytes) :=
  match n with
  | O => Some (dest, c, input)
  | S n =>
      '(dest, r, input) ← rc_direct_fast dest (rc c) input;
      direct_loop n dest (set_rc c (store_ c) r) input
  end.

(** [rc_bittree_rev4] *)
Definition rc_bittree_rev4 (a : prob_array) c (input : bytes) : option (Z * lzma_lzma1_decoder * bytes) :=
  let add (x : Z) (bit : bool) sym := if bit then sym + x else sym in
  '(b, c, input) ← fast_bit c (a, 0 + 1) input; let sym := add 1 b 0 in
  '(b, c, input) ← fast_bit c (a, sym + 2) input; let sym := add 2 b sym in
  '(b, c, input) ← fast_bit c (a, sym + 4) input; let sym := add 4 b sym in
  '(b, c, input) ← fast_bit c (a, sym + 8) input; Some (add 8 b sym, c, input).

Definition fast_literal (eopm : bool) c d (input : bytes) : option (step_result D) :=
  let a := literal_subcoder (literal_context_bits c) (literal_mask c) (window_pos d) (window_get0 d) in
  if is_literal_state (state c) then
    '(sym, c, input) ← rc_bittree (set_state c (update_literal_normal (state c))) a 8 input;
    Some (goto_ eopm SEQ_IS_MATCH (set_tree c a sym) (window_put d (u8 sym)) input)
  else
    '(sym, c, input) ← rc_matched_literal (set_state c (update_literal_matched (state c))) a (window_get d (rep0 c)) input;
    Some (goto_ eopm SEQ_IS_MATCH (set_tree c a sym) (window_put d (u8 sym)) input).

(** The distance of a match: [rep0], after the first six bits. *)
Definition fast_distance c (sym : Z) (input : bytes) : option (Z * lzma_lzma1_decoder * bytes) :=
  if sym <? DIST_MODEL_START then Some (sym, c, input)
  else
    let lim := Z.shiftr sym 1 - 1 in
    let dist := 2 + Z.land sym 1 in
    if sym <? DIST_MODEL_END then
      let dist := u32 (Z.shiftl dist lim) in
      dist_model_loop (Z.to_nat lim) (pos_special, dist - sym - 1) 1 dist 1 c input
    else
      '(dist, c, input) ← direct_loop (Z.to_nat (lim - Z.of_nat ALIGN_BITS)) dist c input;
      '(sym, c, input) ← rc_bittree_rev4 pos_align c input;
      Some (u32 (u32 (Z.shiftl dist (Z.of_nat ALIGN_BITS)) + sym), c, input).

(** The end of the loop. *)
Definition fast_copy (eopm : bool) c d (input : bytes) : step_result D := step_copy eopm c d input.

Definition fast_match (eopm : bool) (ps : Z) c d (input : bytes) : option (step_result D) :=
  let c := set_reps (set_state c (update_match (state c))) (rep0 c) (rep0 c) (rep1 c) (rep2 c) in
  '(l, c, input) ← len_decode_fast false ps c input;
  let c := set_len c l in
  '(sym, c, input) ← rc_bittree c (dist_slot_probs (get_dist_state l), 0) DIST_SLOT_BITS input;
  let sym := u32 (sym - DIST_SLOTS) in
  '(dist, c, input) ← fast_distance c sym input;
  let c := set_rep0 c dist in
  Some (
    if (negb (sym <? DIST_MODEL_END)) && (dist =? UINT32_MAX) then
      if negb eopm then Out LZMA_DATA_ERROR c d input else goto_ eopm SEQ_EOPM c d input
    else if negb (window_valid d (rep0 c)) then Out LZMA_DATA_ERROR c d input
    else fast_copy eopm c d input).

Definition fast_rep (eopm : bool) (ps : Z) c d (input : bytes) : option (step_result D) :=
  let long c input :=
    let c := set_state c (update_long_rep (state c)) in
    '(l, c, input) ← len_decode_fast true ps c input;
    Some (fast_copy eopm (set_len c l) d input) in
  if negb (window_valid d 0) then Some (Out LZMA_DATA_ERROR c d input)
  else
    '(bit, c, input) ← fast_bit c (is_rep0, state c) input;
    if negb bit then
      '(bit, c, input) ← fast_bit c (is_rep0_long (state c), ps) input;
      if negb bit then
        let c := set_state c (update_short_rep (state c)) in
        Some (goto_ eopm SEQ_IS_MATCH c (window_put d (window_get d (rep0 c))) input)
      else long c input
    else
      '(bit, c, input) ← fast_bit c (is_rep1, state c) input;
      if negb bit then long (set_reps c (rep1 c) (rep0 c) (rep2 c) (rep3 c)) input
      else
        '(bit, c, input) ← fast_bit c (is_rep2, state c) input;
        long (if negb bit then set_reps c (rep2 c) (rep0 c) (rep1 c) (rep3 c) else set_reps c (rep3 c) (rep0 c) (rep1 c) (rep2 c)) input.

Definition fast_symbol (eopm : bool) c d (input : bytes) : option (step_result D) :=
  let ps := pos_state c d in
  '(bit, c, input) ← fast_bit c (is_match (state c), ps) input;
  if negb bit then fast_literal eopm c d input
  else
    '(bit, c, input) ← fast_bit c (is_rep, state c) input;
    if negb bit then fast_match eopm ps c d input else fast_rep eopm ps c d input.

(** ** [lzma_decode] *)

Definition LZMA_IN_REQUIRED : Z := 20.

Definition rc_is_fast_allowed (input : bytes) : bool := zlen input >? LZMA_IN_REQUIRED.

(** [at_top]: the place is the beginning of the [while] loop, where the fast loop
    may take over; a resumed decoder starts inside the slow one. *)
Fixpoint decode_loop (HAVE_SMALL : bool) (fuel : nat) (at_top might_finish_without_eopm eopm : bool) c d (input : bytes) :
  option (lzma_ret * lzma_lzma1_decoder * D * bytes) :=
  match fuel with
  | O => None
  | S fuel =>
      let result :=
        if at_top && negb HAVE_SMALL && rc_is_fast_allowed input && negb (window_at_limit d) then fast_symbol eopm c d input
        else Some (decode_step might_finish_without_eopm eopm c d input) in
      match result with
      | None => None
      | Some (Out ret c d input) => Some (ret, c, d, input)
      | Some (Next eopm c d input) =>
          decode_loop HAVE_SMALL fuel (bool_decide (sequence c = SEQ_IS_MATCH)) might_finish_without_eopm eopm c d input
      end
  end.

(** More than the steps of all symbols that fit in the room. *)
Definition decode_fuel (room : Z) : nat := Z.to_nat (64 * (room + 2)).

Definition writes (s : lzma_sequence) : bool := match s with SEQ_LITERAL_WRITE | SEQ_SHORTREP | SEQ_COPY => true | _ => false end.

Definition lzma_decode (HAVE_SMALL : bool) c d (input : bytes) : option (lzma_ret * lzma_lzma1_decoder * D * bytes) :=
  let '(ret, r, input) := rc_read_init (rc c) input in
  let c := set_rc c (store_ c) r in
  if negb (bool_decide (ret = LZMA_STREAM_END)) then Some (ret, c, d, input)
  else
    let known := negb (uncompressed_size c =? LZMA_VLI_UNKNOWN) in
    let might_finish_without_eopm := known && (uncompressed_size c <=? window_avail d) in
    let d' := if might_finish_without_eopm then window_shrink d (uncompressed_size c) else d in
    '(ret, c, d', input) ← decode_loop HAVE_SMALL (decode_fuel (window_avail d')) false might_finish_without_eopm (negb known) c d' input;
    let produced := window_pos d' - window_pos d in
    let d' := window_shrink d' (window_avail d - produced) in
    let c := if known then set_uncompressed_size c (u64 (uncompressed_size c - produced)) else c in
    let ret :=
      if known && (uncompressed_size c =? 0) && bool_decide (ret = LZMA_OK) && writes (sequence c) then LZMA_DATA_ERROR else ret in
    let c := if bool_decide (ret = LZMA_STREAM_END) then set_sequence (set_rc c (store_ c) rc_reset_decoder) SEQ_IS_MATCH else c in
    Some (ret, c, d', input).

End Decoder.

(** ** Initialization *)

Definition lzma_decoder_uncompressed (c : lzma_lzma1_decoder) (size : Z) (eopm : bool) : lzma_lzma1_decoder :=
  mk_lzma1 (store_ c) (rc c) (state c) (rep0 c) (rep1 c) (rep2 c) (rep3 c) (pos_mask c) (literal_context_bits c)
    (literal_mask c) size eopm (sequence c) (probs c) (symbol c) (limit_ c) (offset c) (len c).

(** [probs = NULL] is a pointer that is not used. *)
Definition lzma_decoder_reset (c : lzma_lzma1_decoder) (lc lp pb : Z) : lzma_lzma1_decoder :=
  mk_lzma1 (reset_probs lc lp pb (store_ c)) rc_reset_decoder STATE_LIT_LIT 0 0 0 0 (u32 (Z.shiftl 1 pb - 1)) lc
    (literal_mask_calc lc lp) (uncompressed_size c) (allow_eopm c) SEQ_IS_MATCH (literal_probs, 0) 0 0 0 0.


(** [lzma_decoder_init] for a decoder that was allocated: [id] and [options] of
    the filter. *)
Definition lzma_decoder_init (c : lzma_lzma1_decoder) (ext : bool) (o : lzma_options_lzma) : res lzma_lzma1_decoder :=
  if negb (is_lclppb_valid o) then Err LZMA_PROG_ERROR
  else if ext && negb (Z.land (ext_flags o) (Z.lnot LZMA_LZMA1EXT_ALLOW_EOPM) =? 0) then Err LZMA_OPTIONS_ERROR
  else
    let uncomp_size := if ext then u64 (ext_size_low o + Z.shiftl (ext_size_high o) 32) else LZMA_VLI_UNKNOWN in
    let allow := if ext then negb (Z.land (ext_flags o) LZMA_LZMA1EXT_ALLOW_EOPM =? 0) || (uncomp_size =? LZMA_VLI_UNKNOWN) else true in
    Ok (lzma_decoder_uncompressed (lzma_decoder_reset c (lc o) (lp o) (pb o)) uncomp_size allow).
