(* ===== verification/LzmaSafety.v ===== *)
(** * The LZMA decoder is safe and always ends

    The invariant of [lzma_decoder.c]: what holds of the fields of the decoder and
    of the window at every place where it can stop.  Every probability that it
    uses is inside its array, every distance that it copies from is inside the
    window, the loop ends, and a decoder that runs on the wrapping buffer of
    [lz_decoder.h] does the same as one that runs on the sequence of all decoded
    bytes. *)

From Stdlib Require Import ZArith Lia.
From stdpp Require Import gmap list.
From S2P Require Import Prelude Vli FilterProps RangeCoder LzDict LzDecoder LzmaCommon LzmaDecoder.

(** ** Helpers *)

Lemma land_le a m : 0 <= m -> 0 <= Z.land a m <= m.
Proof.
  intros Hm. split; [apply Z.land_nonneg; lia|]. replace m with (Z.lor (Z.land a m) (Z.ldiff m a)) at 2.
  - rewrite <- Z.lxor_lor; [|apply Z.bits_inj'; intros i Hi; rewrite !Z.land_spec, Z.ldiff_spec, Z.bits_0; now destruct (Z.testbit a i), (Z.testbit m i)].
    rewrite <- Z.add_nocarry_lxor; [|apply Z.bits_inj'; intros i Hi; rewrite !Z.land_spec, Z.ldiff_spec, Z.bits_0; now destruct (Z.testbit a i), (Z.testbit m i)].
    assert (0 <= Z.ldiff m a) by (apply Z.ldiff_nonneg; lia). lia.
  - apply Z.bits_inj'. intros i Hi. rewrite Z.lor_spec, Z.land_spec, Z.ldiff_spec. now destruct (Z.testbit a i), (Z.testbit m i).
Qed.

Lemma push_bit_range s b : 1 <= s < 1073741824 -> 2 * s <= push_bit s b <= 2 * s + 1 /\ Z.log2 (push_bit s b) = Z.log2 s + 1.
Proof.
  intros Hs. rewrite push_bit_spec by lia. assert (0 <= Z.b2z b <= 1) by (destruct b; cbn; lia). split; [lia|].
  replace (Z.log2 s + 1) with (Z.succ (Z.log2 s)) by lia. destruct b; cbn [Z.b2z]; [rewrite Z.log2_succ_double by lia|rewrite Z.add_0_r, Z.log2_double by lia]; lia.
Qed.

(** ** The range decoder *)

Definition range_ok (r : lzma_range_decoder) : Prop := 65536 <= drange r < 4294967296.

Lemma normalize_ok r input r' rest : range_ok r -> rc_normalize_safe r input = Some (r', rest) ->
  16777216 <= drange r' < 4294967296 /\ rest `suffix_of` input.
Proof.
  unfold range_ok, rc_normalize_safe. intros Hr. rewrite RC_TOP. destruct (Z.ltb_spec (drange r) 16777216).
  - destruct input as [|b rest0]; [discriminate|]. intros [= <- <-]. cbn. unfold RC_SHIFT_BITS. rewrite Z.shiftl_mul_pow2 by lia.
    unfold u32. rewrite Z.mod_small by lia. split; [lia|]. now exists [b].
  - intros [= <- <-]. split; [lia|reflexivity].
Qed.

(** The mask [0] or [0x100] of a matched literal. *)
Lemma land_offset a o : o = 0 \/ o = 256 -> Z.land a o = 0 \/ Z.land a o = o.
Proof.
  intros [->| ->]; [left; apply Z.land_0_r|]. change 256 with ((2 ^ 1 - 1) * 2 ^ 8). rewrite land_field by lia.
  assert (0 <= (a / 2 ^ 8) mod 2 ^ 1 < 2) by (apply Z.mod_pos_bound; lia). lia.
Qed.

Lemma offset_cases x : x ∈ [1; 2; 4; 8] <-> x = 1 \/ x = 2 \/ x = 4 \/ x = 8.
Proof. rewrite !elem_of_cons, elem_of_nil. tauto. Qed.

Lemma state_cases s : 0 <= s < STATES -> s ∈ [0; 1; 2; 3; 4; 5; 6; 7; 8; 9; 10; 11].
Proof. unfold STATES. intros Hs. rewrite !elem_of_cons, elem_of_nil. lia. Qed.

Ltac len_lia :=
  unfold MATCH_LEN_MAX, MATCH_LEN_MIN, LEN_SYMBOLS, LEN_LOW_SYMBOLS, LEN_MID_SYMBOLS, LEN_HIGH_SYMBOLS in *; lia.

Section Safety.
Context (lc lp pb : Z) (Hprops : 0 <= lc /\ 0 <= lp /\ lc + lp <= 4 /\ 0 <= pb <= 4).

Definition probs_ok (P : prob_store) : Prop := forall p, valid_ptr lc lp pb p -> prob_ok (prob_at P p).

Lemma probs_ok_update P p b : probs_ok P -> probs_ok (update_prob P p b).
Proof.
  intros HP q Hq. rewrite prob_at_update. case_bool_decide as E; [|now apply HP]. apply prob_update_ok. rewrite E. now apply HP.
Qed.

Lemma bit_safe_ok P p r input bit P' r' rest : probs_ok P -> valid_ptr lc lp pb p -> range_ok r ->
  rc_bit_safe P p r input = Some (bit, P', r', rest) -> probs_ok P' /\ range_ok r' /\ rest `suffix_of` input.
Proof.
  intros HP Hp Hr. unfold rc_bit_safe. destruct (rc_normalize_safe r input) as [[r1 rest1]|] eqn:En; [|discriminate].
  destruct (normalize_ok _ _ _ _ Hr En) as [Hr1 Hs]. specialize (HP p Hp) as Hpp. unfold prob_ok in Hpp. unfold range_ok.
  assert (8192 <= Z.shiftr (drange r1) RC_BIT_MODEL_TOTAL_BITS < 2097152) as Hsh.
  { unfold RC_BIT_MODEL_TOTAL_BITS. rewrite Z.shiftr_div_pow2 by lia. change (2 ^ 11) with 2048. Z.div_mod_to_equations. lia. }
  assert (Z.shiftr (drange r1) RC_BIT_MODEL_TOTAL_BITS * 2048 <= drange r1) as Hsh2.
  { unfold RC_BIT_MODEL_TOTAL_BITS. rewrite Z.shiftr_div_pow2 by lia. change (2 ^ 11) with 2048. Z.div_mod_to_equations. lia. }
  set (q := Z.shiftr _ _) in *. rewrite (u32_small (q * _)) by (unfold is_u32; nia).
  destruct (code r1 <? _); intros [= <- <- <- <-]; cbn [drange]; (split; [now apply probs_ok_update|split; [|assumption]]); [nia|].
  rewrite u32_small by (unfold is_u32; nia). nia.
Qed.

Lemma direct_safe_ok dest r input dest' r' rest : range_ok r ->
  rc_direct_safe dest r input = Some (dest', r', rest) -> range_ok r' /\ rest `suffix_of` input /\ is_u32 dest'.
Proof.
  intros Hr. unfold rc_direct_safe. destruct (rc_normalize_safe r input) as [[r1 rest1]|] eqn:En; [|discriminate].
  destruct (normalize_ok _ _ _ _ Hr En) as [Hr1 Hs]. intros [= <- <- <-]. unfold range_ok. cbn [drange].
  rewrite Z.shiftr_div_pow2 by lia. change (2 ^ 1) with 2. split; [Z.div_mod_to_equations; lia|]. split; [assumption|apply u32_range].
Qed.

(** ** The invariant *)

Definition core_ok (P : prob_store) (r : lzma_range_decoder) (s pm lcb lm : Z) : Prop :=
  probs_ok P /\ range_ok r /\ 0 <= s < STATES /\ pm = u32 (Z.shiftl 1 pb - 1) /\ lcb = lc /\ lm = literal_mask_calc lc lp.

(** A distance of the list of the last distances: in the window, or still 0. *)
Definition dist_ok (h : history) (r : Z) : Prop := 0 <= r /\ (r = 0 \/ window_valid h r = true).

Definition tree_ok (p : prob_ptr) (n : Z) : Prop := forall i, 0 <= i < n -> valid_ptr lc lp pb (index p i).

Definition inside (h : history) (r : Z) : Prop := 0 <= r /\ window_valid h r = true.

Definition place_ok (c : lzma_lzma1_decoder) (h : history) : Prop :=
  match sequence c with
  | SEQ_NORMALIZE | SEQ_IS_MATCH | SEQ_IS_REP =>
      dist_ok h (rep0 c) /\ (is_literal_state (state c) = false -> inside h (rep0 c))
  | SEQ_LITERAL => dist_ok h (rep0 c) /\ is_literal_state (state c) = true /\ 1 <= symbol c < 256 /\ tree_ok (probs c) 768
  | SEQ_LITERAL_MATCHED =>
      dist_ok h (rep0 c) /\ is_literal_state (state c) = true /\ 1 <= symbol c < 256 /\ tree_ok (probs c) 768 /\
      (offset c = 0 \/ offset c = 256)
  | SEQ_LITERAL_WRITE => dist_ok h (rep0 c) /\ is_literal_state (state c) = true
  | SEQ_LEN_CHOICE rep | SEQ_LEN_CHOICE2 rep => rep = true -> inside h (rep0 c)
  | SEQ_LEN_BITTREE rep =>
      (rep = true -> inside h (rep0 c)) /\ (limit_ c = 8 \/ limit_ c = 256) /\ 1 <= symbol c < limit_ c /\
      tree_ok (probs c) (limit_ c) /\ 2 <= len c /\ len c + limit_ c <= 274
  | SEQ_DIST_SLOT => 2 <= len c <= MATCH_LEN_MAX /\ 1 <= symbol c < 64 /\ tree_ok (probs c) 64
  | SEQ_DIST_MODEL =>
      2 <= len c <= MATCH_LEN_MAX /\ 0 <= offset c < limit_ c /\ limit_ c <= 5 /\
      2 ^ offset c <= symbol c < 2 ^ (offset c + 1) /\ 0 <= rep0 c /\
      (forall i, 1 <= i < 2 ^ limit_ c -> valid_ptr lc lp pb (index (probs c) i))
  | SEQ_DIRECT => 2 <= len c <= MATCH_LEN_MAX /\ 1 <= limit_ c <= 26
  | SEQ_ALIGN => 2 <= len c <= MATCH_LEN_MAX /\ offset c ∈ [1; 2; 4; 8] /\ 0 <= symbol c < offset c
  | SEQ_EOPM => True
  | SEQ_IS_REP0 | SEQ_IS_REP0_LONG | SEQ_IS_REP1 | SEQ_IS_REP2 => dist_ok h (rep0 c) /\ window_valid h 0 = true
  | SEQ_SHORTREP => inside h (rep0 c)
  | SEQ_COPY => inside h (rep0 c) /\ 1 <= len c <= MATCH_LEN_MAX
  end.

Record decoder_ok (c : lzma_lzma1_decoder) (h : history) : Prop := mk_ok {
  ok_core : core_ok (store_ c) (rc c) (state c) (pos_mask c) (literal_context_bits c) (literal_mask c);
  ok_rep1 : dist_ok h (rep1 c);
  ok_rep2 : dist_ok h (rep2 c);
  ok_rep3 : dist_ok h (rep3 c);
  ok_place : place_ok c h;
}.

(** How many steps can follow until a byte is written. *)
Definition rank (c : lzma_lzma1_decoder) : Z :=
  match sequence c with
  | SEQ_NORMALIZE | SEQ_IS_MATCH => 55
  | SEQ_IS_REP => 54
  | SEQ_IS_REP0 => 53
  | SEQ_IS_REP1 | SEQ_IS_REP0_LONG => 52
  | SEQ_IS_REP2 => 51
  | SEQ_LEN_CHOICE _ => 50
  | SEQ_LEN_CHOICE2 _ => 49
  | SEQ_LEN_BITTREE _ => 40 + (Z.log2 (limit_ c) - Z.log2 (symbol c))
  | SEQ_DIST_SLOT => 33 + (6 - Z.log2 (symbol c))
  | SEQ_DIRECT => 6 + limit_ c
  | SEQ_DIST_MODEL => 1 + (limit_ c - offset c)
  | SEQ_ALIGN => 1 + (4 - Z.log2 (offset c))
  | SEQ_LITERAL | SEQ_LITERAL_MATCHED => 1 + (8 - Z.log2 (symbol c))
  | SEQ_LITERAL_WRITE | SEQ_SHORTREP | SEQ_COPY | SEQ_EOPM => 0
  end.

Definition measure (c : lzma_lzma1_decoder) (h : history) : Z := 64 * avail h + rank c.

(** What a step promises. *)
Definition result_ok (h : history) (m : Z) (input : bytes) (res : step_result history) : Prop :=
  match res with
  | Next _ c' h' rest => decoder_ok c' h' /\ grows h h' /\ rest `suffix_of` input /\ measure c' h' < m
  | Out ret c' h' rest => (ret = LZMA_OK -> decoder_ok c' h') /\ grows h h' /\ rest `suffix_of` input
  end.

(** ** Every step keeps it *)

Lemma grows_refl h : 0 <= avail h -> grows h h.
Proof. intros Ha. exists []. rewrite app_nil_r. cbn. split_and!; auto; lia. Qed.

Lemma grows_trans h1 h2 h3 : grows h1 h2 -> grows h2 h3 -> grows h1 h3.
Proof.
  intros (n1 & E1 & A1 & P1 & C1) (n2 & E2 & A2 & P2 & C2). exists (n1 ++ n2).
  rewrite E2, E1, app_assoc, length_app. split_and!; auto; lia.
Qed.

Lemma valid_grows h h' r : grows h h' -> window_valid h r = true -> window_valid h' r = true.
Proof. intros (new & E & _ & _ & C). cbn. rewrite E, C, length_app. rewrite !Z.gtb_lt. lia. Qed.

Lemma dist_ok_grows h h' r : grows h h' -> dist_ok h r -> dist_ok h' r.
Proof. intros Hg [H0 [->|Hv]]; split; auto. right. exact (valid_grows h h' r Hg Hv). Qed.

Lemma inside_dist h r : inside h r -> dist_ok h r.
Proof. intros [H0 Hv]. split; auto. Qed.

Lemma dist_inside h r : dist_ok h r -> window_valid h 0 = true -> inside h r.
Proof. intros [H0 [->|Hv]] Hw; split; auto. Qed.

Lemma with_bit_post (post : step_result history -> Prop) c p seq h input k :
  probs_ok (store_ c) -> range_ok (rc c) -> valid_ptr lc lp pb p ->
  post (Out LZMA_OK (set_sequence c seq) h input) ->
  (forall bit P r rest, probs_ok P -> range_ok r -> rest `suffix_of` input -> post (k bit (set_rc c P r) rest)) ->
  post (with_bit c p seq h input k).
Proof.
  intros HP Hr Hp Hout Hk. unfold with_bit. destruct (rc_bit_safe _ _ _ _) as [[[[bit P] r] rest]|] eqn:E; [|exact Hout].
  destruct (bit_safe_ok _ _ _ _ _ _ _ _ HP Hp Hr E) as (HP' & Hr' & Hs). now apply Hk.
Qed.

Lemma pos_state_range c h : pos_mask c = u32 (Z.shiftl 1 pb - 1) -> 0 <= pos_state c h < Z.shiftl 1 pb.
Proof using Hprops.
  intros E. unfold pos_state. rewrite E. assert (0 < Z.shiftl 1 pb <= 16) as Hp.
  { rewrite Z.shiftl_1_l. split; [apply Z.pow_pos_nonneg; lia|]. change 16 with (2 ^ 4). apply Z.pow_le_mono_r; lia. }
  rewrite u32_small by (unfold is_u32; lia). pose proof (land_le (window_pos h) (Z.shiftl 1 pb - 1)). lia.
Qed.

Lemma literal_tree pos prev : tree_ok (literal_subcoder lc (literal_mask_calc lc lp) pos prev) 768.
Proof using Hprops.
  intros i Hi. unfold literal_subcoder, index, valid_ptr, LITERAL_CODER_SIZE, literal_mask_calc. cbn [fst snd].
  rewrite !Z.shiftl_mul_pow2, Z.shiftr_div_pow2 by lia. rewrite Z.pow_add_r by lia.
  assert (2 ^ lc = 1 \/ 2 ^ lc = 2 \/ 2 ^ lc = 4 \/ 2 ^ lc = 8 \/ 2 ^ lc = 16) as Hc.
  { assert (lc = 0 \/ lc = 1 \/ lc = 2 \/ lc = 3 \/ lc = 4) as Hc by lia. destruct Hc as [->|[->|[->|[->| ->]]]]; cbn; auto 6. }
  assert (1 <= 2 ^ lp <= 16) as Hp.
  { pose proof (Z.pow_pos_nonneg 2 lp). change 16 with (2 ^ 4). pose proof (Z.pow_le_mono_r 2 lp 4). lia. }
  set (x := u32 (pos * 2 ^ 8 + prev)). set (m := 256 * 2 ^ lp - 256 / 2 ^ lc).
  assert (0 <= m < 4294967296) as Hm by (unfold m; destruct Hc as [Hc|[Hc|[Hc|[Hc|Hc]]]]; rewrite Hc; dlia).
  rewrite (u32_small m) by exact Hm. pose proof (land_le x m ltac:(lia)) as Hl.
  assert (m * 2 ^ lc = 256 * (2 ^ lc * 2 ^ lp) - 256) as Hmc.
  { unfold m. destruct Hc as [Hc|[Hc|[Hc|[Hc|Hc]]]]; rewrite Hc; dlia. }
  clearbody m x. nia.
Qed.

Lemma next_ok h h' m input e c' rest : decoder_ok c' h' -> grows h h' -> rest `suffix_of` input ->
  64 * avail h' + rank c' < m -> result_ok h m input (Next e c' h' rest).
Proof. intros. cbn. auto. Qed.

Lemma out_ok h m input ret c' rest : (ret = LZMA_OK -> decoder_ok c' h) -> 0 <= avail h -> rest `suffix_of` input ->
  result_ok h m input (Out ret c' h rest).
Proof. intros. cbn. split_and!; auto. now apply grows_refl. Qed.

Lemma literal_state_next s : 0 <= s < STATES ->
  0 <= update_literal_normal s < STATES /\ 0 <= update_match s < STATES /\ 0 <= update_long_rep s < STATES /\
  0 <= update_short_rep s < STATES /\ (is_literal_state s = true -> is_literal_state (update_literal_normal s) = true) /\
  (is_literal_state s = false -> 0 <= update_literal_matched s < STATES /\ is_literal_state (update_literal_matched s) = true).
Proof.
  intros Hs. pose proof (state_cases s Hs) as Hin.
  repeat (apply elem_of_cons in Hin as [->|Hin]; [vm_compute; repeat split; intros; congruence|]). now apply not_elem_of_nil in Hin.
Qed.

(** Opens the invariant at a place; [Hseq] tells the place. *)
Ltac open_place Hok Hseq :=
  destruct Hok as [Hcore H1 H2 H3 Hpl]; pose proof Hcore as (HP & Hr & Hst & Hpm & Hlcb & Hlm);
  pose proof (literal_state_next _ Hst) as (Sn & Sm & Sl & Ss & Sln & Slm);
  unfold place_ok in Hpl; rewrite Hseq in Hpl; unfold measure, rank; rewrite Hseq.

Ltac core_tac := unfold core_ok; cbn; split_and!; first [assumption | lia | auto; fail | idtac].

(** The step stays where it is. *)
Ltac stay := apply out_ok; [intros _; constructor; cbn; unfold place_ok; cbn; first [assumption|tauto]|assumption|reflexivity].

(** The step leads to another place of the same window. *)
Ltac go_on := apply next_ok; [constructor; [core_tac|cbn; auto|cbn; auto|cbn; auto|unfold place_ok; cbn]|now apply grows_refl|assumption|cbn].

Ltac with_bit_tac := apply with_bit_post; [assumption|assumption| |stay|intros bit P r rest HP' Hr' Hsuf].

Context (eopm : bool) (c : lzma_lzma1_decoder) (h : history) (input : bytes).
Context (Hok : decoder_ok c h) (Ha : 0 <= avail h).

Lemma step_is_match_bit_ok : sequence c = SEQ_NORMALIZE \/ sequence c = SEQ_IS_MATCH ->
  result_ok h (measure c h) input (step_is_match_bit eopm c h input).
Proof using Hok Ha Hprops.
  intros Hseq. assert (place_ok (set_sequence c SEQ_IS_MATCH) h /\ rank c = 55) as [Hpl0 Hrk].
  { destruct Hok as [_ _ _ _ Hpl]. unfold place_ok, rank in *. cbn. destruct Hseq as [E|E]; rewrite E in *; auto. }
  destruct Hok as [Hcore H1 H2 H3 _]. pose proof Hcore as (HP & Hr & Hst & Hpm & Hlcb & Hlm).
  pose proof (literal_state_next _ Hst) as (Sn & Sm & Sl & Ss & Sln & Slm). unfold measure. rewrite Hrk. cbn in Hpl0.
  unfold step_is_match_bit. with_bit_tac.
  - cbn. split; [exact Hst|]. now apply pos_state_range.
  - destruct bit; [go_on; [exact Hpl0|lia]|]. unfold step_literal_start. cbn [state set_rc set_tree literal_context_bits literal_mask].
    rewrite Hlcb, Hlm. destruct (is_literal_state (state c)) eqn:El.
    + go_on; [|lia]. split_and!; auto; try lia; try apply Hpl0. apply literal_tree.
    + destruct (Slm eq_refl). go_on; [|lia]. split_and!; auto; try lia; try apply Hpl0. apply literal_tree.
Qed.

Lemma step_is_match_ok fin : sequence c = SEQ_NORMALIZE \/ sequence c = SEQ_IS_MATCH ->
  (forall c' e r rest, c' = set_rc c (store_ c) r -> range_ok r -> rest `suffix_of` input -> 
     result_ok h (measure c h) input (step_is_match_bit e c' h rest)) ->
  result_ok h (measure c h) input (step_is_match fin eopm c h input).
Proof using Hok Ha Hprops.
  intros Hseq Hbit. unfold step_is_match.
  pose proof Hok as [(HP & Hr & Hcore) H1 H2 H3 Hpl]. unfold place_ok in Hpl.
  destruct (fin && window_at_limit h); [|apply (Hbit c eopm (rc c) input); auto; now destruct c].
  destruct (rc_normalize_safe (rc c) input) as [[r rest]|] eqn:En.
  - destruct (normalize_ok _ _ _ _ Hr En) as [Hr' Hs]. destruct (rc_is_finished r); [apply out_ok; [discriminate|assumption|assumption]|].
    cbn [allow_eopm set_rc]. destruct (allow_eopm c); cbn [negb]; [|apply out_ok; [discriminate|assumption|assumption]].
    apply (Hbit _ true r rest); auto. unfold range_ok. lia.
  - apply out_ok; [intros _; constructor; cbn; auto|assumption|reflexivity]; [now split_and!|].
    unfold place_ok. cbn. destruct Hseq as [E|E]; rewrite E in Hpl; exact Hpl.
Qed.

Lemma push_rank n b s : 1 <= s < 2 ^ n -> 0 <= n <= 9 -> 2 <= push_bit s b /\ push_bit s b < 2 ^ (n + 1) /\ Z.log2 (push_bit s b) = Z.log2 s + 1 /\ Z.log2 s < n.
Proof.
  clear. intros Hs Hn. assert (2 ^ n <= 512) by (change 512 with (2 ^ 9); apply Z.pow_le_mono_r; lia).
  destruct (push_bit_range s b ltac:(lia)) as [H1 H2]. rewrite Z.pow_add_r by lia. split_and!; [lia|lia|lia|]. apply Z.log2_lt_pow2; lia.
Qed.

Lemma step_literal_ok : sequence c = SEQ_LITERAL -> result_ok h (measure c h) input (step_literal eopm c h input).
Proof using Hok Ha Hprops.
  intros Hseq. open_place Hok Hseq. destruct Hpl as (Hd & Hl & Hsy & Ht). unfold step_literal. with_bit_tac.
  - apply Ht. lia.
  - cbn [symbol set_rc set_symbol set_tree probs]. destruct (push_rank 8 bit (symbol c)) as (P1 & P2 & P3 & P4); [cbn; lia..|].
    destruct (Z.ltb_spec (push_bit (symbol c) bit) 256); go_on; auto; try lia. split_and!; auto; lia.
Qed.

Lemma step_literal_matched_ok : sequence c = SEQ_LITERAL_MATCHED -> result_ok h (measure c h) input (step_literal_matched eopm c h input).
Proof using Hok Ha Hprops.
  intros Hseq. open_place Hok Hseq. destruct Hpl as (Hd & Hl & Hsy & Ht & Ho). unfold step_literal_matched.
  pose proof (land_offset (len c) (offset c) Ho) as Hm.
  with_bit_tac.
  - apply Ht. lia.
  - cbn [symbol set_rc set_symbol set_tree probs set_offset set_len offset len].
    destruct (push_rank 8 bit (symbol c)) as (P1 & P2 & P3 & P4); [cbn; lia..|].
    destruct (Z.ltb_spec (push_bit (symbol c) bit) 256); go_on; auto; try lia. split_and!; auto; try lia.
    rewrite Z.land_comm. destruct (land_offset (if bit then Z.land (len c) (offset c) else Z.lnot (Z.land (len c) (offset c))) (offset c) Ho); lia.
Qed.

Lemma step_literal_write_ok : sequence c = SEQ_LITERAL_WRITE -> result_ok h (measure c h) input (step_literal_write eopm c h input).
Proof using Hok Ha Hprops.
  intros Hseq. open_place Hok Hseq. destruct Hpl as (Hd & Hl). unfold step_literal_write.
  cbn [window_at_limit history_window]. destruct (Z.eqb_spec (avail h) 0) as [E|E]; [stay|].
  assert (grows h (window_put h (u8 (symbol c)))) as Hg by (exists [u8 (symbol c)]; cbn; split_and!; auto; lia).
  apply next_ok; [|exact Hg|reflexivity|cbn; lia].
  constructor; cbn; auto; try now apply (dist_ok_grows h). unfold place_ok. cbn. rewrite Hl. split; [now apply (dist_ok_grows h)|discriminate].
Qed.

Lemma step_is_rep_ok : sequence c = SEQ_IS_REP -> result_ok h (measure c h) input (step_is_rep eopm c h input).
Proof using Hok Ha Hprops.
  intros Hseq. open_place Hok Hseq. destruct Hpl as (Hd & Hl). unfold step_is_rep. with_bit_tac; [exact Hst|].
  destruct bit; [|go_on; [discriminate|lia]].
  destruct (window_valid h 0) eqn:Ev; cbn [negb]; [|apply out_ok; [discriminate|assumption|assumption]].
  go_on; [auto|lia].
Qed.

Lemma step_len_choice_ok rep : sequence c = SEQ_LEN_CHOICE rep -> result_ok h (measure c h) input (step_len_choice rep eopm c h input).
Proof using Hok Ha Hprops.
  intros Hseq. open_place Hok Hseq. unfold step_len_choice. with_bit_tac; [reflexivity|].
  destruct bit; go_on; auto; try lia. split_and!; auto; try len_lia.
  intros i Hi. cbn. split; [now apply pos_state_range|]. exact Hi.
Qed.

Lemma step_len_choice2_ok rep : sequence c = SEQ_LEN_CHOICE2 rep -> result_ok h (measure c h) input (step_len_choice2 rep eopm c h input).
Proof using Hok Ha Hprops.
  intros Hseq. open_place Hok Hseq. unfold step_len_choice2. with_bit_tac; [reflexivity|].
  destruct bit; go_on; auto; try lia; split_and!; auto; try len_lia.
  - now intros i Hi.
  - intros i Hi. cbn. split; [now apply pos_state_range|]. exact Hi.
Qed.

Lemma step_len_bittree_ok rep : sequence c = SEQ_LEN_BITTREE rep -> result_ok h (measure c h) input (step_len_bittree rep eopm c h input).
Proof using Hok Ha Hprops.
  intros Hseq. open_place Hok Hseq. destruct Hpl as (Hi & Hlim & Hsy & Ht & Hl & Hsum). unfold step_len_bittree. with_bit_tac.
  - apply Ht. lia.
  - cbn [symbol set_rc set_symbol set_tree probs limit_ len set_len].
    assert (exists n, limit_ c = 2 ^ n /\ 0 <= n <= 9 /\ Z.log2 (limit_ c) = n) as (n & Hn & Hn9 & Hlog).
    { destruct Hlim as [->| ->]; [exists 3|exists 8]; vm_compute; intuition congruence. }
    destruct (push_rank n bit (symbol c)) as (P1 & P2 & P3 & P4); [lia..|]. rewrite Z.pow_add_r, <- Hn in P2 by lia. 
    destruct (Z.ltb_spec (push_bit (symbol c) bit) (limit_ c)).
    + go_on; [split_and!; auto; lia|lia].
    + set (l := u32 _). assert (2 <= l <= MATCH_LEN_MAX) as Hll.
      { unfold l. rewrite u32_small by (unfold is_u32; lia). len_lia. }
      destruct rep.
      * go_on; [split; [auto|lia]|lia].
      * go_on; [|cbn; lia]. split_and!; try lia. intros i Hix. cbn. split; [|exact Hix].
        unfold get_dist_state, DIST_STATES, MATCH_LEN_MIN. destruct (Z.ltb_spec l (4 + 2)); lia.
Qed.

Lemma check_distance_ok m c' rest :
  core_ok (store_ c') (rc c') (state c') (pos_mask c') (literal_context_bits c') (literal_mask c') ->
  rep1 c' = rep1 c -> rep2 c' = rep2 c -> rep3 c' = rep3 c -> 2 <= len c' <= MATCH_LEN_MAX -> 0 <= rep0 c' ->
  rest `suffix_of` input -> 64 * avail h < m -> result_ok h m input (check_distance eopm c' h rest).
Proof using Hok Ha Hprops.
  intros Hcore E1 E2 E3 Hl Hr0 Hs Hm. unfold check_distance. destruct (window_valid h (rep0 c')) eqn:Ev; cbn [negb].
  - destruct Hok as [_ H1 H2 H3 _]. apply next_ok; [|now apply grows_refl|assumption|cbn; lia].
    constructor; cbn; rewrite ?E1, ?E2, ?E3; auto. unfold place_ok, inside. cbn. split_and!; auto; lia.
  - apply out_ok; [discriminate|assumption|assumption].
Qed.

(** The distance slots, one by one. *)
Lemma slot_model s : DIST_MODEL_START <= s < DIST_MODEL_END ->
  let l := Z.shiftr s 1 - 1 in
  1 <= l <= 5 /\ let base := u32 (Z.shiftl (2 + Z.land s 1) l) in 0 <= base /\ 
    forall i, 1 <= i < 2 ^ l -> 0 <= base - s - 1 + i < FULL_DISTANCES - DIST_MODEL_END.
Proof.
  clear. intros Hs. change DIST_MODEL_START with 4 in Hs. change DIST_MODEL_END with 14 in Hs.
  assert (s = 4 \/ s = 5 \/ s = 6 \/ s = 7 \/ s = 8 \/ s = 9 \/ s = 10 \/ s = 11 \/ s = 12 \/ s = 13) as Hc by lia.
  change (FULL_DISTANCES - DIST_MODEL_END) with 114.
  assert (forall l b k, 1 <= l <= 5 -> 0 <= b -> 0 <= b - s - 1 + 1 -> b - s - 1 + 2 ^ l <= 114 -> k = l -> u32 (Z.shiftl (2 + Z.land s 1) l) = b ->
    1 <= k <= 5 /\ let base := u32 (Z.shiftl (2 + Z.land s 1) k) in 0 <= base /\ 
    forall i, 1 <= i < 2 ^ k -> 0 <= base - s - 1 + i < 114) as Hgen.
  { intros l b k Hl Hb0 Hb1 Hb2 -> ->. split; [exact Hl|]. cbv zeta. split; [exact Hb0|]. intros i Hi. lia. }
  repeat (destruct Hc as [->|Hc]); try subst s; (eapply Hgen; [| | | |reflexivity|reflexivity]; vm_compute; intuition congruence).
Qed.

Lemma slot_direct s : DIST_MODEL_END <= s < 64 -> 2 <= Z.shiftr s 1 - 1 - Z.of_nat ALIGN_BITS <= 26.
Proof.
  clear. change DIST_MODEL_END with 14. change (Z.of_nat ALIGN_BITS) with 4. intros Hs. rewrite Z.shiftr_div_pow2 by lia.
  change (2 ^ 1) with 2. dlia.
Qed.

Lemma step_dist_slot_ok : sequence c = SEQ_DIST_SLOT -> result_ok h (measure c h) input (step_dist_slot eopm c h input).
Proof using Hok Ha Hprops.
  intros Hseq. open_place Hok Hseq. destruct Hpl as (Hl & Hsy & Ht). unfold step_dist_slot. with_bit_tac; [apply Ht; lia|].
  cbn [symbol set_rc set_symbol set_tree probs]. destruct (push_rank 6 bit (symbol c)) as (P1 & P2 & P3 & P4); [cbn; lia..|].
  change (2 ^ (6 + 1)) with 128 in P2. set (s := push_bit (symbol c) bit) in *. change DIST_SLOTS with 64.
  destruct (Z.ltb_spec s 64); [go_on; [split_and!; auto; lia|lia]|].
  destruct (Z.ltb_spec (s - 64) DIST_MODEL_START); [|cbn [symbol set_limit_ set_rep0 set_reps limit_ rep0 set_symbol set_tree]; destruct (Z.ltb_spec (s - 64) DIST_MODEL_END)].
  - apply check_distance_ok; cbn; auto; try lia. core_tac.
  - destruct (slot_model (s - 64) ltac:(lia)) as (Hlim & Hb0 & Hv). go_on; [|lia]. split_and!; try lia. exact Hv.
  - pose proof (slot_direct (s - 64) ltac:(lia)). go_on; [|lia]. split_and!; lia.
Qed.

Lemma step_dist_model_ok : sequence c = SEQ_DIST_MODEL -> result_ok h (measure c h) input (step_dist_model eopm c h input).
Proof using Hok Ha Hprops.
  intros Hseq. open_place Hok Hseq. destruct Hpl as (Hl & Ho & Hlim & Hsy & Hr0 & Ht). unfold step_dist_model.
  assert (2 ^ (offset c + 1) <= 2 ^ limit_ c) as Hp by (apply Z.pow_le_mono_r; lia).
  assert (1 <= 2 ^ offset c) as Hp1 by (pose proof (Z.pow_pos_nonneg 2 (offset c)); lia).
  assert (2 ^ limit_ c <= 32) as Hp2 by (change 32 with (2 ^ 5); apply Z.pow_le_mono_r; lia). with_bit_tac; [apply Ht; lia|].
  set (c1 := set_symbol (set_rc c P r) (push_bit (symbol (set_rc c P r)) bit)).
  set (c2 := if bit then set_rep0 c1 (u32 (rep0 c1 + Z.shiftl 1 (offset c1))) else c1).
  assert (0 <= rep0 c2) as Hr2 by (unfold c2, c1; destruct bit; cbn; [apply u32_range|assumption]).
  assert (store_ c2 = P /\ rc c2 = r /\ state c2 = state c /\ pos_mask c2 = pos_mask c /\ literal_context_bits c2 = literal_context_bits c /\
    literal_mask c2 = literal_mask c /\ rep1 c2 = rep1 c /\ rep2 c2 = rep2 c /\ rep3 c2 = rep3 c /\ len c2 = len c /\ limit_ c2 = limit_ c /\
    offset c2 = offset c /\ probs c2 = probs c /\ symbol c2 = push_bit (symbol c) bit) as
    (E1 & E2 & E3 & E4 & E5 & E6 & E7 & E8 & E9 & E10 & E11 & E12 & E13 & E14) by (unfold c2, c1; destruct bit; cbn; split_and!; reflexivity).
  clearbody c2. cbn [offset set_offset limit_]. rewrite E11, E12.
  assert (core_ok (store_ c2) (rc c2) (state c2) (pos_mask c2) (literal_context_bits c2) (literal_mask c2)) as Hc2
    by (rewrite E1, E2, E3, E4, E5, E6; core_tac).
  destruct (Z.ltb_spec (offset c + 1) (limit_ c)).
  - apply next_ok; [|now apply grows_refl|assumption|cbn; lia]. constructor; cbn; rewrite ?E7, ?E8, ?E9; auto.
    unfold place_ok. cbn. rewrite ?E10, ?E11, ?E12, ?E13, ?E14.
    destruct (push_bit_range (symbol c) bit ltac:(lia)) as [Hpb _]. rewrite !Z.pow_add_r in * by lia. change (2 ^ 1) with 2 in *. split_and!; auto; lia.
  - apply check_distance_ok; cbn; auto; lia.
Qed.

Lemma step_direct_ok : sequence c = SEQ_DIRECT -> result_ok h (measure c h) input (step_direct eopm c h input).
Proof using Hok Ha Hprops.
  intros Hseq. open_place Hok Hseq. destruct Hpl as (Hl & Hlim). unfold step_direct.
  destruct (rc_direct_safe _ _ _) as [[[dest r] rest]|] eqn:E; [|stay].
  destruct (direct_safe_ok _ _ _ _ _ _ Hr E) as (Hr' & Hsuf & Hd). cbn [limit_ set_limit_ set_rep0 set_reps set_rc].
  destruct (Z.gtb_spec (limit_ c - 1) 0); go_on; try lia.
  split_and!; try lia. apply offset_cases. now left.
Qed.

Lemma step_align_ok : sequence c = SEQ_ALIGN -> result_ok h (measure c h) input (step_align eopm c h input).
Proof using Hok Ha Hprops.
  intros Hseq. open_place Hok Hseq. destruct Hpl as (Hl & Ho & Hsy). unfold step_align.
  assert (offset c = 1 \/ offset c = 2 \/ offset c = 4 \/ offset c = 8) as Hoc by now apply offset_cases.
  with_bit_tac; [cbn; unfold ALIGN_SIZE; lia|].
  set (c2 := if bit then set_symbol _ _ else _).
  assert (store_ c2 = P /\ rc c2 = r /\ state c2 = state c /\ pos_mask c2 = pos_mask c /\ literal_context_bits c2 = literal_context_bits c /\
    literal_mask c2 = literal_mask c /\ rep1 c2 = rep1 c /\ rep2 c2 = rep2 c /\ rep3 c2 = rep3 c /\ len c2 = len c /\
    offset c2 = offset c /\ 0 <= symbol c2 < 2 * offset c) as
    (E1 & E2 & E3 & E4 & E5 & E6 & E7 & E8 & E9 & E10 & E11 & E12) by (unfold c2; destruct bit; cbn; split_and!; first [reflexivity|lia]).
  clearbody c2. cbn [offset set_offset]. rewrite E11.
  assert (core_ok (store_ c2) (rc c2) (state c2) (pos_mask c2) (literal_context_bits c2) (literal_mask c2)) as Hc2
    by (rewrite E1, E2, E3, E4, E5, E6; core_tac).
  assert (u32 (Z.shiftl (offset c) 1) = 2 * offset c) as -> by (destruct Hoc as [->|[->|[->| ->]]]; reflexivity).
  unfold ALIGN_SIZE. destruct (Z.ltb_spec (2 * offset c) 16).
  - apply next_ok; [|now apply grows_refl|assumption|cbn]. 
    + constructor; cbn; rewrite ?E7, ?E8, ?E9; auto. unfold place_ok. cbn. rewrite E10. split_and!; try lia.
      apply offset_cases. lia.
    + rewrite Z.log2_double by lia. lia.
  - case_if.
    + destruct eopm; cbn [negb]; [|apply out_ok; [discriminate|assumption|assumption]].
      apply next_ok; [|now apply grows_refl|assumption|cbn].
      * constructor; cbn; rewrite ?E7, ?E8, ?E9; auto.
      * destruct Hoc as [->|[->|[->| ->]]]; cbn; lia.
    + apply check_distance_ok; cbn; auto; try lia; [apply u32_range|]. destruct Hoc as [->|[->|[->| ->]]]; cbn; lia.
Qed.

Lemma step_eopm_ok : sequence c = SEQ_EOPM -> result_ok h (measure c h) input (step_eopm c h input).
Proof using Hok Ha Hprops.
  intros Hseq. open_place Hok Hseq. unfold step_eopm. destruct (rc_normalize_safe (rc c) input) as [[r rest]|] eqn:En; [|stay].
  destruct (normalize_ok _ _ _ _ Hr En) as [_ Hs]. apply out_ok; [|assumption|assumption]. now destruct (rc_is_finished r).
Qed.

Lemma step_is_rep0_ok : sequence c = SEQ_IS_REP0 -> result_ok h (measure c h) input (step_is_rep0 eopm c h input).
Proof using Hok Ha Hprops.
  intros Hseq. open_place Hok Hseq. unfold step_is_rep0. with_bit_tac; [exact Hst|].
  destruct bit; go_on; auto; lia.
Qed.

Lemma step_is_rep0_long_ok : sequence c = SEQ_IS_REP0_LONG -> result_ok h (measure c h) input (step_is_rep0_long eopm c h input).
Proof using Hok Ha Hprops.
  intros Hseq. open_place Hok Hseq. destruct Hpl as [Hd Hv]. unfold step_is_rep0_long.
  with_bit_tac; [split; [exact Hst|now apply pos_state_range]|].
  destruct bit; go_on; try lia; [intros _|]; now apply dist_inside.
Qed.

Lemma step_is_rep1_ok : sequence c = SEQ_IS_REP1 -> result_ok h (measure c h) input (step_is_rep1 eopm c h input).
Proof using Hok Ha Hprops.
  intros Hseq. open_place Hok Hseq. destruct Hpl as [Hd Hv]. unfold step_is_rep1. with_bit_tac; [exact Hst|].
  destruct bit; go_on; auto; try lia. intros _. now apply dist_inside.
Qed.

Lemma step_is_rep2_ok : sequence c = SEQ_IS_REP2 -> result_ok h (measure c h) input (step_is_rep2 eopm c h input).
Proof using Hok Ha Hprops.
  intros Hseq. open_place Hok Hseq. destruct Hpl as [Hd Hv]. unfold step_is_rep2. with_bit_tac; [exact Hst|].
  destruct bit; go_on; auto; try lia; intros _; now apply dist_inside.
Qed.

Lemma step_shortrep_ok : sequence c = SEQ_SHORTREP -> result_ok h (measure c h) input (step_shortrep eopm c h input).
Proof using Hok Ha Hprops.
  intros Hseq. open_place Hok Hseq. unfold step_shortrep. cbn [window_at_limit history_window].
  destruct (Z.eqb_spec (avail h) 0); [stay|]. set (b := window_get h (rep0 c)).
  assert (grows h (window_put h b)) as Hg by (exists [b]; cbn; split_and!; auto; lia).
  apply next_ok; [|exact Hg|reflexivity|cbn; lia].
  constructor; cbn; auto; try now apply (dist_ok_grows h). unfold place_ok. cbn.
  assert (inside (push h [b]) (rep0 c)) as Hin by (destruct Hpl as [H0 Hv]; split; [exact H0|exact (valid_grows _ _ _ Hg Hv)]).
  split; [now apply inside_dist|auto].
Qed.

Lemma repeat_grows n len : 0 <= len -> grows h (window_repeat h n len).1.2.
Proof using Ha.
  intros Hl. cbn. exists (repeat_bytes (Z.to_nat (Z.min (avail h) len)) (hist h) n). cbn. rewrite repeat_bytes_length. split_and!; auto; lia.
Qed.

Lemma step_copy_ok : sequence c = SEQ_COPY -> result_ok h (measure c h) input (step_copy eopm c h input).
Proof using Hok Ha Hprops.
  intros Hseq. open_place Hok Hseq. destruct Hpl as [[H0 Hv] Hl]. unfold step_copy. pose proof (repeat_grows (rep0 c) (len c) ltac:(lia)) as Hg.
  destruct (window_repeat h (rep0 c) (len c)) as [[more h'] l] eqn:E. cbn [fst snd] in Hg. cbn in E. injection E as <- Eh <-.
  assert (inside h' (rep0 c)) as Hin by (split; [exact H0|exact (valid_grows _ _ _ Hg Hv)]).
  assert (avail h' = avail h - Z.min (avail h) (len c)) as Hav by (subst h'; cbn; rewrite repeat_bytes_length; lia).
  destruct (Z.eqb_spec (len c - Z.min (avail h) (len c)) 0); cbn [negb].
  - apply next_ok; [|exact Hg|reflexivity|cbn; lia]. constructor; cbn; auto; try now apply (dist_ok_grows h).
    unfold place_ok. cbn. split; [now apply inside_dist|auto].
  - cbn. split; [|split; [exact Hg|reflexivity]]. intros _. constructor; cbn; auto; try now apply (dist_ok_grows h).
    unfold place_ok. cbn. split; [exact Hin|lia].
Qed.

End Safety.

Section Steps.
Context (lc lp pb : Z) (Hprops : 0 <= lc /\ 0 <= lp /\ lc + lp <= 4 /\ 0 <= pb <= 4).

Lemma result_input h m input rest res : result_ok lc lp pb h m rest res -> rest `suffix_of` input -> result_ok lc lp pb h m input res.
Proof. clear Hprops. intros Hr Hs. destruct res; cbn in *; intuition; now transitivity rest. Qed.

(** One step: from a place of the invariant to another one, with progress. *)
Lemma decode_step_ok fin eopm c h input : decoder_ok lc lp pb c h -> 0 <= avail h ->
  result_ok lc lp pb h (measure c h) input (decode_step fin eopm c h input).
Proof using Hprops.
  intros Hok Ha. unfold decode_step.
  assert (sequence c = SEQ_NORMALIZE \/ sequence c = SEQ_IS_MATCH -> result_ok lc lp pb h (measure c h) input (step_is_match fin eopm c h input)) as Hm.
  { intros Hseq. apply step_is_match_ok; auto. intros c' e r rest -> Hr Hs. eapply result_input; [|exact Hs].
    apply (step_is_match_bit_ok lc lp pb Hprops e (set_rc c (store_ c) r)); [|assumption|exact Hseq].
    destruct Hok as [(HP & _ & Hc) H1 H2 H3 Hp]. constructor; auto. now split. }
  destruct (sequence c) eqn:Hseq; auto.
  - now apply step_literal_ok.
  - now apply step_literal_matched_ok.
  - now apply step_literal_write_ok.
  - now apply step_is_rep_ok.
  - now apply step_len_choice_ok.
  - now apply step_len_choice2_ok.
  - now apply step_len_bittree_ok.
  - now apply step_dist_slot_ok.
  - now apply step_dist_model_ok.
  - now apply step_direct_ok.
  - now apply step_align_ok.
  - now apply step_eopm_ok.
  - now apply step_is_rep0_ok.
  - now apply step_shortrep_ok.
  - now apply step_is_rep0_long_ok.
  - now apply step_is_rep1_ok.
  - now apply step_is_rep2_ok.
  - now apply step_copy_ok.
Qed.

(** ** Any window gives the same result *)

Section Sim.
Context {D : Type} {W : Window D} (k top : Z) (R : D -> history -> Prop) (Hsim : window_sim k top R).

Definition same_result (r1 : step_result D) (r2 : step_result history) : Prop :=
  match r1, r2 with
  | Next e c d i, Next e' c' h i' => e = e' /\ c = c' /\ i = i' /\ R d h
  | Out r c d i, Out r' c' h i' => r = r' /\ c = c' /\ i = i' /\ R d h
  | _, _ => False
  end.

Lemma land_shifted x y m n : 0 <= n -> 0 <= m < 2 ^ n -> x mod 2 ^ n = y mod 2 ^ n -> Z.land x m = Z.land y m.
Proof using Type.
  intros Hn Hm He. rewrite <- (Z.mod_small m (2 ^ n)) by lia. rewrite <- !Z.land_ones by lia.
  rewrite (Z.land_comm m), !Z.land_assoc, !Z.land_ones by lia. now rewrite He.
Qed.

Lemma pos_state_sim c d h : R d h -> pos_mask c = u32 (Z.shiftl 1 pb - 1) -> pos_state c d = pos_state c h.
Proof using Hsim Hprops.
  intros HR E. unfold pos_state. rewrite (sim_pos k top R Hsim d h HR). pose proof (sim_aligned k top R Hsim) as Hk. cbn [window_pos history_window].
  apply (land_shifted _ _ _ 4); [lia| |].
  - rewrite E. assert (0 < Z.shiftl 1 pb <= 16) as Hp.
    { rewrite Z.shiftl_1_l. split; [apply Z.pow_pos_nonneg; lia|]. change 16 with (2 ^ 4). apply Z.pow_le_mono_r; lia. }
    rewrite u32_small by (unfold is_u32; lia). change (2 ^ 4) with 16. lia.
  - change (2 ^ 4) with 16. rewrite Z.add_mod, Hk, Z.add_0_r, Z.mod_mod by lia. reflexivity.
Qed.

Lemma subcoder_sim pos prev : literal_subcoder lc (literal_mask_calc lc lp) (pos + k) prev = literal_subcoder lc (literal_mask_calc lc lp) pos prev.
Proof using Hsim Hprops.
  pose proof (sim_aligned k top R Hsim) as Hk. unfold literal_subcoder. do 3 f_equal.
  apply (land_shifted _ _ _ 12); [lia| |].
  - unfold literal_mask_calc. rewrite Z.shiftl_mul_pow2, Z.shiftr_div_pow2 by lia.
    assert (1 <= 2 ^ lp <= 16) as Hp.
    { pose proof (Z.pow_pos_nonneg 2 lp). change 16 with (2 ^ 4). pose proof (Z.pow_le_mono_r 2 lp 4). lia. }
    assert (0 < 256 / 2 ^ lc <= 256) as Hc.
    { pose proof (Z.pow_pos_nonneg 2 lc). pose proof (Z.pow_le_mono_r 2 lc 4). change (2 ^ 4) with 16 in *. dlia. }
    rewrite u32_small by (unfold is_u32; lia). change (2 ^ 12) with 4096. lia.
  - unfold u32. rewrite !Z.shiftl_mul_pow2 by lia. change 4294967296 with (2 ^ 12 * 1048576). change (2 ^ 12) with 4096.
    rewrite <- !(Znumtheory.Zmod_div_mod 4096 (4096 * 1048576)) by (try lia; now exists 1048576).
    change (2 ^ 8) with 256. rewrite (Z.div_mod k 16), Hk by lia. replace ((pos + (16 * (k / 16) + 0)) * 256 + prev) with (pos * 256 + prev + k / 16 * 4096) by lia.
    now rewrite Z.mod_add by lia.
Qed.

Lemma with_bit_sim c p p' seq d h input k1 k2 : R d h -> p = p' ->
  (forall bit P r rest, same_result (k1 bit (set_rc c P r) rest) (k2 bit (set_rc c P r) rest)) ->
  same_result (with_bit c p seq d input k1) (with_bit c p' seq h input k2).
Proof using Type.
  intros HR -> Hk. unfold with_bit. destruct (rc_bit_safe _ _ _ _) as [[[[bit P] r] rest]|]; [apply Hk|]. cbn. auto.
Qed.

Lemma check_distance_sim eopm c d h input : R d h -> same_result (check_distance eopm c d input) (check_distance eopm c h input).
Proof using Hsim.
  intros HR. unfold check_distance. rewrite (sim_valid k top R Hsim d h _ HR). destruct (window_valid h (rep0 c)); cbn; auto.
Qed.

Ltac bit_sim HR := apply with_bit_sim; [exact HR|try reflexivity|intros bit P r rest; cbv zeta].

Lemma step_is_match_sim fin eopm c d h input : R d h -> decoder_ok lc lp pb c h -> sequence c = SEQ_NORMALIZE \/ sequence c = SEQ_IS_MATCH ->
  same_result (step_is_match fin eopm c d input) (step_is_match fin eopm c h input).
Proof using Hsim Hprops.
  intros HR [(HP & Hr & Hst & Hpm & Hlcb & Hlm) H1 H2 H3 Hpl] Hseq.
  assert (is_literal_state (state c) = false -> inside h (rep0 c)) as Hin
    by (unfold place_ok in Hpl; destruct Hseq as [E|E]; rewrite E in Hpl; apply Hpl).
  assert (forall e r rest, same_result (step_is_match_bit e (set_rc c (store_ c) r) d rest) (step_is_match_bit e (set_rc c (store_ c) r) h rest)) as Hbit.
  { intros e r0 rest0. unfold step_is_match_bit. bit_sim HR; [f_equal; now apply pos_state_sim|].
    destruct bit; [cbn; auto|]. unfold step_literal_start.
    cbn [state set_rc set_tree literal_context_bits literal_mask rep0 set_state]. rewrite Hlcb, Hlm, (sim_pos k top R Hsim d h HR), subcoder_sim,
      (sim_get0 k top R Hsim d h HR).
    destruct (is_literal_state (state c)); [cbn; auto|]. destruct (Hin eq_refl) as [H0 Hv].
    rewrite (sim_get k top R Hsim d h _ HR H0 Hv). cbn; auto. }
  unfold step_is_match. rewrite (sim_at_limit k top R Hsim d h HR). cbn [window_at_limit history_window].
  destruct (fin && (avail h =? 0)).
  - destruct (rc_normalize_safe (rc c) input) as [[r rest]|]; [|cbn; auto].
    destruct (rc_is_finished r); [cbn; auto|]. cbn [allow_eopm set_rc]. destruct (allow_eopm c); cbn [negb]; [apply Hbit|cbn; auto].
  - replace c with (set_rc c (store_ c) (rc c)) by now destruct c. apply Hbit.
Qed.

Lemma decode_step_sim fin eopm c d h input : R d h -> decoder_ok lc lp pb c h ->
  same_result (decode_step fin eopm c d input) (decode_step fin eopm c h input).
Proof using Hsim Hprops.
  intros HR Hok. unfold decode_step.
  pose proof Hok as [(HP & Hr & Hst & Hpm & Hlcb & Hlm) H1 H2 H3 Hpl].
  destruct (sequence c) eqn:Hseq; unfold place_ok in Hpl; rewrite Hseq in Hpl.
  all: try (apply step_is_match_sim; auto; fail).
  - bit_sim HR. cbn; auto.
  - bit_sim HR. cbn; auto.
  - unfold step_literal_write. rewrite (sim_at_limit k top R Hsim d h HR). cbn [window_at_limit history_window].
    destruct (Z.eqb_spec (avail h) 0); [cbn; auto|]. pose proof (sim_top k top R Hsim d h HR).
    cbn. split_and!; auto. apply (sim_put k top R Hsim d h _ HR). lia.
  - bit_sim HR. rewrite (sim_valid k top R Hsim d h _ HR). destruct bit; [destruct (window_valid h 0)|]; cbn; auto.
  - bit_sim HR. rewrite (pos_state_sim (set_rc c P r) d h HR) by exact Hpm. destruct bit; cbn; auto.
  - bit_sim HR. rewrite (pos_state_sim (set_rc c P r) d h HR) by exact Hpm. destruct bit; cbn; auto.
  - bit_sim HR. destruct (_ <? _); [|destruct rep]; cbn; auto.
  - bit_sim HR. repeat case_if; first [now apply check_distance_sim|cbn; auto].
  - bit_sim HR. case_if; [cbn; auto|]. now apply check_distance_sim.
  - unfold step_direct. destruct (rc_direct_safe _ _ _) as [[[dest r] rest]|]; [|cbn; auto]. case_if; cbn; auto.
  - bit_sim HR. repeat case_if; first [now apply check_distance_sim|cbn; auto].
  - unfold step_eopm. destruct (rc_normalize_safe _ _) as [[r rest]|]; cbn; auto.
  - bit_sim HR. destruct bit; cbn; auto.
  - unfold step_shortrep. rewrite (sim_at_limit k top R Hsim d h HR). cbn [window_at_limit history_window].
    destruct (Z.eqb_spec (avail h) 0); [cbn; auto|]. pose proof (sim_top k top R Hsim d h HR). destruct Hpl as [H0 Hv].
    rewrite (sim_get k top R Hsim d h _ HR H0 Hv). cbn. split_and!; auto. apply (sim_put k top R Hsim d h _ HR). lia.
  - bit_sim HR; [f_equal; now apply pos_state_sim|]. destruct bit; cbn; auto.
  - bit_sim HR. destruct bit; cbn; auto.
  - bit_sim HR. destruct bit; cbn; auto.
  - unfold step_copy. destruct Hpl as ([H0 Hv] & Hl).
    destruct (sim_repeat k top R Hsim d h (rep0 c) (len c) HR H0 Hv) as (d' & E & HR'); [unfold LZ_DICT_REPEAT_MAX; len_lia|].
    rewrite E. destruct (window_repeat h (rep0 c) (len c)) as [[more h'] l]. cbn [fst snd] in HR'. destruct more; cbn; auto.
Qed.

End Sim.

(** ** The loop *)

Lemma rank_range c h : decoder_ok lc lp pb c h -> 0 <= rank c <= 55.
Proof using Type.
  clear Hprops. intros [_ _ _ _ Hpl]. unfold place_ok, rank in *.
  assert (forall s n, 1 <= s < 2 ^ n -> 0 <= n -> 0 <= Z.log2 s < n) as Hlog.
  { intros s n Hs Hn. split; [apply Z.log2_nonneg|]. apply Z.log2_lt_pow2; lia. }
  destruct (sequence c); try lia.
  - pose proof (Hlog (symbol c) 8). lia.
  - pose proof (Hlog (symbol c) 8). lia.
  - destruct Hpl as (_ & [E|E] & Hs & _); rewrite E in *; [pose proof (Hlog (symbol c) 3)|pose proof (Hlog (symbol c) 8)]; cbn; lia.
  - pose proof (Hlog (symbol c) 6). lia.
  - destruct Hpl as (_ & Ho & _). assert (offset c = 1 \/ offset c = 2 \/ offset c = 4 \/ offset c = 8) as Hoc by now apply offset_cases.
    destruct Hoc as [->|[->|[->| ->]]]; cbn; lia.
Qed.

Lemma loop_ok fuel : forall top fin eopm c h input, decoder_ok lc lp pb c h -> 0 <= avail h -> measure c h < Z.of_nat fuel ->
  exists ret c' h' rest, decode_loop true fuel top fin eopm c h input = Some (ret, c', h', rest) /\ grows h h' /\
    rest `suffix_of` input /\ (ret = LZMA_OK -> decoder_ok lc lp pb c' h').
Proof using Hprops.
  induction fuel as [|fuel IH]; intros top fin eopm c h input Hok Ha Hm.
  - pose proof (rank_range c h Hok). unfold measure in Hm. lia.
  - cbn [decode_loop negb]. rewrite andb_false_r. cbn [andb]. pose proof (decode_step_ok fin eopm c h input Hok Ha) as Hs.
    destruct (decode_step fin eopm c h input) as [e c1 h1 rest1|ret c1 h1 rest1]; cbn [result_ok] in Hs.
    + destruct Hs as (Hok1 & Hg & Hsuf & Hlt). assert (0 <= avail h1) as Ha1 by (destruct Hg as (n & _ & _ & ? & _); assumption).
      destruct (IH (bool_decide (sequence c1 = SEQ_IS_MATCH)) fin e c1 h1 rest1 Hok1 Ha1 ltac:(lia)) as (ret & c' & h' & rest & E & Hg' & Hsuf' & Hfin).
      exists ret, c', h', rest. split_and!; auto; [now apply (grows_trans _ h1)|now transitivity rest1].
    + exists ret, c1, h1, rest1. tauto.
Qed.

Lemma loop_sim {D} {W : Window D} k top (R : D -> history -> Prop) fuel : window_sim k top R ->
  forall at_top fin eopm c d h input, R d h -> decoder_ok lc lp pb c h ->
  forall ret c' h' rest, decode_loop true fuel at_top fin eopm c h input = Some (ret, c', h', rest) ->
  exists d', decode_loop true fuel at_top fin eopm c d input = Some (ret, c', d', rest) /\ R d' h'.
Proof using Hprops.
  intros Hsim. induction fuel as [|fuel IH]; intros at_top fin eopm c d h input HR Hok ret c' h' rest; [discriminate|].
  cbn [decode_loop negb]. rewrite !andb_false_r. cbn [andb].
  pose proof (decode_step_sim k top R Hsim fin eopm c d h input HR Hok) as Hs.
  pose proof (decode_step_ok fin eopm c h input Hok (proj1 (sim_top k top R Hsim d h HR))) as Ho.
  destruct (decode_step fin eopm c h input) as [e c1 h1 rest1|ret1 c1 h1 rest1], (decode_step fin eopm c d input) as [e2 c2 d2 rest2|ret2 c2 d2 rest2];
    cbn [same_result result_ok] in *; try contradiction; destruct Hs as (-> & -> & -> & HR').
  - intros E. eapply IH; [exact HR'|tauto|exact E].
  - intros [= <- <- <- <-]. now exists d2.
Qed.

(** A step does not ask for a reset of the dictionary and leaves the size alone. *)
Definition keeps (c : lzma_lzma1_decoder) (h : history) (res : step_result history) : Prop :=
  match res with Next _ c' h' _ | Out _ c' h' _ => wants_reset h' = wants_reset h /\ uncompressed_size c' = uncompressed_size c end.

Lemma with_bit_keeps c p seq h input k : (forall bit P r rest, keeps c h (k bit (set_rc c P r) rest)) -> keeps c h (with_bit c p seq h input k).
Proof using Type. intros Hk. unfold with_bit. destruct (rc_bit_safe _ _ _ _) as [[[[bit P] r] rest]|]; [apply Hk|now split]. Qed.

Lemma decode_step_keeps fin eopm c h input : keeps c h (decode_step fin eopm c h input).
Proof using Type.
  assert (forall e r rest, keeps c h (step_is_match_bit e (set_rc c (store_ c) r) h rest)) as Hbit.
  { intros e r rest. change (keeps (set_rc c (store_ c) r) h (step_is_match_bit e (set_rc c (store_ c) r) h rest)).
    apply with_bit_keeps. intros. unfold step_literal_start. repeat case_if; now split. }
  assert (forall e c' rest, uncompressed_size c' = uncompressed_size c -> keeps c h (check_distance e c' h rest)) as Hcheck
    by (intros; unfold check_distance; case_if; now split).
  assert (keeps c h (step_is_match fin eopm c h input)) as Hmatch.
  { unfold step_is_match. repeat case_match; first [now split|apply Hbit]. }
  unfold decode_step. destruct (sequence c); auto; try (apply with_bit_keeps; intros; cbv zeta; repeat case_if; first [now split|now apply Hcheck]).
  - unfold step_literal_write. case_if; now split.
  - unfold step_direct. repeat case_match; now split.
  - unfold step_eopm. repeat case_match; now split.
  - unfold step_shortrep. case_if; now split.
  - unfold step_copy. cbn. case_if; now split.
Qed.

Lemma loop_keeps fuel : forall at_top fin eopm c h input ret c' h' rest,
  decode_loop true fuel at_top fin eopm c h input = Some (ret, c', h', rest) ->
  wants_reset h' = wants_reset h /\ uncompressed_size c' = uncompressed_size c.
Proof using Type.
  clear lc lp pb Hprops. induction fuel as [|fuel IH]; intros at_top fin eopm c h input ret c' h' rest; [discriminate|]. cbn [decode_loop negb].
  rewrite andb_false_r. cbn [andb]. pose proof (decode_step_keeps fin eopm c h input) as Hk.
  destruct (decode_step fin eopm c h input); cbn in Hk; destruct Hk as [<- <-]; [intros E; eapply IH; exact E|now intros [= <- <- <- <-]].
Qed.

(** ** [lzma_decode] *)

Lemma read_init_ok n : forall r input ret r' rest, read_init_loop n r input = (ret, r', rest) ->
  drange r' = drange r /\ rest `suffix_of` input.
Proof using Type.
  clear lc lp pb Hprops. induction n as [|n IH]; intros r input ret r' rest; cbn [read_init_loop]; [now intros [= _ <- <-]|].
  destruct input as [|b input]; [now intros [= _ <- <-]|]. case_if; [now intros [= _ <- <-]|].
  intros E. destruct (IH _ _ _ _ _ E) as [H1 H2]. split; [exact H1|]. transitivity input; [exact H2|]. now exists [b].
Qed.

(** A decoder with an uncompressed size that is a [uint64_t]. *)
Definition lzma_inv (c : lzma_lzma1_decoder) (h : history) : Prop :=
  decoder_ok lc lp pb c h /\ 0 <= uncompressed_size c.

Lemma decoder_ok_fields c c' h h' : decoder_ok lc lp pb c h -> hist h' = hist h -> capacity h' = capacity h ->
  store_ c' = store_ c -> range_ok (rc c') -> state c' = state c -> rep0 c' = rep0 c -> rep1 c' = rep1 c -> rep2 c' = rep2 c ->
  rep3 c' = rep3 c -> pos_mask c' = pos_mask c -> literal_context_bits c' = literal_context_bits c -> literal_mask c' = literal_mask c ->
  sequence c' = sequence c -> probs c' = probs c -> symbol c' = symbol c -> limit_ c' = limit_ c -> offset c' = offset c -> len c' = len c ->
  decoder_ok lc lp pb c' h'.
Proof using Type.
  clear Hprops. intros [(HP & Hr & Hc) H1 H2 H3 Hpl] Eh Ec E1 Er E2 E3 E4 E5 E6 E7 E8 E9 E10 E11 E12 E13 E14 E15.
  assert (forall r, window_valid h' r = window_valid h r) as Hv by (intros r; cbn; now rewrite Eh, Ec).
  constructor; unfold dist_ok in *; rewrite ?E1, ?E2, ?E4, ?E5, ?E6, ?E7, ?E8, ?E9, ?Hv; auto; [now split|].
  unfold place_ok, dist_ok, inside in *. rewrite E2, E3, E10, E11, E12, E13, E14, E15, !Hv. exact Hpl.
Qed.

Lemma fuel_enough c h : decoder_ok lc lp pb c h -> 0 <= avail h -> measure c h < Z.of_nat (decode_fuel (avail h)).
Proof using Type. clear Hprops. intros Hok Ha. pose proof (rank_range c h Hok). unfold measure, decode_fuel. lia. Qed.

Lemma lzma_decode_ok c h input : lzma_inv c h -> 0 <= avail h ->
  exists ret c' h' rest, lzma_decode true c h input = Some (ret, c', h', rest) /\ grows h h' /\ rest `suffix_of` input /\
    wants_reset h' = wants_reset h /\ (ret = LZMA_OK -> lzma_inv c' h').
Proof using Hprops.
  intros [Hok Hu] Ha. unfold lzma_decode, rc_read_init. destruct (read_init_loop _ _ _) as [[ret0 r0] rest0] eqn:Ei.
  destruct (read_init_ok _ _ _ _ _ _ Ei) as [Hdr Hs0]. pose proof Hok as [(_ & Hr & _) _ _ _ _].
  assert (range_ok r0) as Hr0 by (unfold range_ok in *; lia). cbv zeta.
  assert (decoder_ok lc lp pb (set_rc c (store_ c) r0) h) as Hok0 by now apply (decoder_ok_fields c _ h).
  destruct (bool_decide_reflect (ret0 = LZMA_STREAM_END)) as [->|Hne]; cbn [negb].
  2: { do 4 eexists. split; [reflexivity|]. split_and!; auto; [now apply grows_refl|]. intros _. now split. }
  cbn [uncompressed_size set_rc window_avail history_window]. set (known := negb (uncompressed_size c =? LZMA_VLI_UNKNOWN)).
  set (fin := known && (uncompressed_size c <=? avail h)). set (h0 := if fin then _ else h).
  assert (hist h0 = hist h /\ capacity h0 = capacity h /\ wants_reset h0 = wants_reset h /\ 0 <= avail h0 <= avail h) as (Eh & Ec & Ew & Ha0).
  { unfold h0. destruct fin eqn:Ef; cbn; split_and!; auto; try lia; unfold fin in Ef; b2p; lia. }
  pose proof (decoder_ok_fields _ (set_rc c (store_ c) r0) h h0 Hok0 Eh Ec) as Hok1.
  specialize (Hok1 eq_refl Hr0 eq_refl eq_refl eq_refl eq_refl eq_refl eq_refl eq_refl eq_refl eq_refl eq_refl eq_refl eq_refl eq_refl eq_refl).
  destruct (loop_ok (decode_fuel (avail h0)) false fin (negb known) (set_rc c (store_ c) r0) h0 rest0 Hok1 ltac:(lia)) as
    (ret & c1 & h1 & rest & E & (new & Hn & Hav & Hav0 & Hcap) & Hs1 & Hfin); [apply fuel_enough; [assumption|lia]|].
  rewrite E. cbn [mbind option_bind]. pose proof (loop_keeps _ _ _ _ _ _ _ _ _ _ _ E) as [Hk Hku].
  assert (zlen (hist h1) - zlen (hist h) = zlen new) as Hprod by (rewrite Hn, Eh, length_app; lia).
  cbn [window_pos window_shrink history_window]. rewrite Hprod. eexists _, _, _, rest. split; [reflexivity|]. split_and!.
  - exists new. cbn. rewrite Hn, Eh. split_and!; auto; [lia|congruence].
  - now transitivity rest0.
  - cbn. congruence.
  - cbn. intros Hret. destruct (bool_decide_reflect (ret = LZMA_STREAM_END)) as [->|Hne1].
    { exfalso. revert Hret. rewrite (bool_decide_false (LZMA_STREAM_END = LZMA_OK)) by discriminate. rewrite andb_false_r. discriminate. }
    assert (ret = LZMA_OK) as Hr1 by (revert Hret; case_if; [discriminate|auto]). specialize (Hfin Hr1). rewrite bool_decide_false by (rewrite Hret; discriminate).
    pose proof Hfin as [(_ & Hrr & _) _ _ _ _].
    destruct known; (split; [|cbn; try apply u64_range]).
    + now apply (decoder_ok_fields c1 _ h1).
    + now apply (decoder_ok_fields c1 _ h1).
    + cbn. rewrite Hku. exact Hu.
Qed.

Lemma lzma_decode_sim {D} {W : Window D} k top (R : D -> history -> Prop) c d h input :
  window_sim k top R -> R d h -> lzma_inv c h ->
  forall ret c' h' rest, lzma_decode true c h input = Some (ret, c', h', rest) ->
  exists d', lzma_decode true c d input = Some (ret, c', d', rest) /\ R d' h'.
Proof using Hprops.
  intros Hsim HR [Hok Hu] ret c' h' rest. destruct (sim_top k top R Hsim d h HR) as [Ha Htop].
  unfold lzma_decode, rc_read_init. destruct (read_init_loop _ _ _) as [[ret0 r0] rest0] eqn:Ei.
  destruct (read_init_ok _ _ _ _ _ _ Ei) as [Hdr _]. pose proof Hok as [(_ & Hr & _) _ _ _ _].
  assert (range_ok r0) as Hr0 by (unfold range_ok in *; lia). cbv zeta.
  destruct (negb (bool_decide (ret0 = LZMA_STREAM_END))); [intros [= <- <- <- <-]; eauto|].
  cbn [uncompressed_size set_rc]. rewrite (sim_avail k top R Hsim d h HR). change (window_avail h) with (avail h).
  set (known := negb (uncompressed_size c =? LZMA_VLI_UNKNOWN)).
  set (fin := known && (uncompressed_size c <=? avail h)). set (h0 := if fin then window_shrink h _ else h). set (d0 := if fin then window_shrink d _ else d).
  assert (R d0 h0 /\ hist h0 = hist h /\ capacity h0 = capacity h /\ 0 <= avail h0 <= avail h) as (HR0 & Eh & Ec & Ha0).
  { unfold h0, d0. destruct fin eqn:Ef; [|split_and!; auto; lia]. unfold fin in Ef. b2p.
    split_and!; try reflexivity; [|cbn; lia|cbn; lia]. apply (sim_shrink k top R Hsim d h _ HR); lia. }
  rewrite (sim_avail k top R Hsim d0 h0 HR0). change (window_avail h0) with (avail h0).
  assert (decoder_ok lc lp pb (set_rc c (store_ c) r0) h0) as Hok1 by now apply (decoder_ok_fields c _ h).
  destruct (decode_loop _ _ _ _ _ _ h0 _) as [[[[ret1 c1] h1] rest1]|] eqn:E; [|discriminate].
  destruct (loop_sim k top R _ Hsim _ _ _ _ d0 h0 _ HR0 Hok1 _ _ _ _ E) as (d1 & E' & HR1). rewrite E'. cbn [mbind option_bind].
  assert (window_pos d1 - window_pos d = zlen (hist h1) - zlen (hist h)) as Hp
    by (rewrite (sim_pos k top R Hsim d1 h1 HR1), (sim_pos k top R Hsim d h HR); lia).
  rewrite Hp. change (window_pos h1 - window_pos h) with (zlen (hist h1) - zlen (hist h)).
  destruct (loop_ok (decode_fuel (avail h0)) false fin (negb known) (set_rc c (store_ c) r0) h0 rest0 Hok1 ltac:(lia)) as
    (ret2 & c2 & h2 & rest2 & E2 & (new & Hn & Hav & Hav0 & Hcap) & _); [apply fuel_enough; [assumption|lia]|].
  rewrite E2 in E. injection E as -> -> -> ->. rewrite Hn, Eh, length_app.
  intros [= <- <- <- <-]. eexists. split; [reflexivity|]. apply (sim_shrink k top R Hsim d1 h1 _ HR1); [lia|].
  rewrite Hn, Eh, length_app. lia.
Qed.

(** ** A decoder that returns [LZMA_OK] has used its input or filled its room *)

Definition waits (res : step_result history) : Prop :=
  match res with
  | Out LZMA_OK c' h' rest => rest = [] \/ avail h' = 0 /\ writes (sequence c') = true
  | _ => True
  end.

Lemma normalize_waits r input : rc_normalize_safe r input = None -> input = [].
Proof using Type. clear Hprops. unfold rc_normalize_safe. case_if; [|discriminate]. now destruct input. Qed.

Lemma with_bit_waits c p seq h input k : (forall bit P r rest, waits (k bit (set_rc c P r) rest)) -> waits (with_bit c p seq h input k).
Proof using Type.
  clear Hprops. intros Hk. unfold with_bit. destruct (rc_bit_safe _ _ _ _) as [[[[bit P] r] rest]|] eqn:E; [apply Hk|].
  left. unfold rc_bit_safe in E. destruct (rc_normalize_safe _ _) as [[r1 rest1]|] eqn:En; [case_match; discriminate|]. now apply normalize_waits in En.
Qed.

Lemma decode_step_waits fin eopm c h input : 0 <= avail h -> (sequence c = SEQ_COPY -> 0 <= len c) -> waits (decode_step fin eopm c h input).
Proof using Type.
  clear Hprops. intros Ha Hl. assert (forall e c' rest, waits (check_distance e c' h rest)) as Hcheck by (intros; unfold check_distance; case_if; exact I).
  assert (forall e r rest, waits (step_is_match_bit e (set_rc c (store_ c) r) h rest)) as Hbit.
  { intros e r rest. apply with_bit_waits. intros. unfold step_literal_start. repeat case_if; exact I. }
  assert (waits (step_is_match fin eopm c h input)) as Hmatch.
  { unfold step_is_match. case_if; [|replace c with (set_rc c (store_ c) (rc c)) by (now destruct c); apply Hbit].
    destruct (rc_normalize_safe _ _) as [[r rest]|] eqn:En; [|left; now apply normalize_waits in En]. repeat case_if; first [exact I|apply Hbit]. }
  unfold decode_step. destruct (sequence c) eqn:Hseq; auto; try (apply with_bit_waits; intros; cbv zeta; repeat case_if; first [exact I|apply Hcheck]).
  - unfold step_literal_write. case_if; [right|exact I]. split; [cbn in *; lia|reflexivity].
  - unfold step_direct. destruct (rc_direct_safe _ _ _) as [[[dest r] rest]|] eqn:E; [case_if; exact I|]. left.
    unfold rc_direct_safe in E. destruct (rc_normalize_safe _ _) as [[r1 rest1]|] eqn:En; [discriminate|]. now apply normalize_waits in En.
  - unfold step_eopm. destruct (rc_normalize_safe _ _) as [[r rest]|] eqn:En; [case_if; exact I|left; now apply normalize_waits in En].
  - unfold step_shortrep. case_if; [right|exact I]. split; [cbn in *; lia|reflexivity].
  - specialize (Hl eq_refl). unfold step_copy. cbn. case_if; [right|exact I]. split; [|reflexivity]. cbn. rewrite repeat_bytes_length. b2p. lia.
Qed.

Lemma read_init_waits n : forall r input r' rest, read_init_loop n r input = (LZMA_OK, r', rest) -> rest = [].
Proof using Type.
  clear lc lp pb Hprops. induction n as [|n IH]; intros r input r' rest; cbn [read_init_loop]; [discriminate|].
  destruct input as [|b input]; [now intros [= _ <-]|]. case_if; [discriminate|]. apply IH.
Qed.

Lemma loop_waits fuel : forall at_top fin eopm c h input c' h' rest, decoder_ok lc lp pb c h -> 0 <= avail h ->
  decode_loop true fuel at_top fin eopm c h input = Some (LZMA_OK, c', h', rest) -> rest = [] \/ avail h' = 0 /\ writes (sequence c') = true.
Proof using Hprops.
  induction fuel as [|fuel IH]; intros at_top fin eopm c h input c' h' rest Hok Ha; [discriminate|]. cbn [decode_loop negb].
  rewrite andb_false_r. cbn [andb]. pose proof (decode_step_ok fin eopm c h input Hok Ha) as Ho.
  assert (sequence c = SEQ_COPY -> 0 <= len c) as Hl by (intros E; destruct Hok as [_ _ _ _ Hpl]; unfold place_ok in Hpl; rewrite E in Hpl; lia).
  pose proof (decode_step_waits fin eopm c h input Ha Hl) as Hw.
  destruct (decode_step fin eopm c h input) as [e c1 h1 rest1|ret1 c1 h1 rest1]; cbn in Ho, Hw.
  - destruct Ho as (Hok1 & (new & _ & _ & Ha1 & _) & _). now apply IH.
  - intros [= -> <- <- <-]. exact Hw.
Qed.

Lemma lzma_decode_progress c h input c' h' rest : lzma_inv c h -> 0 <= avail h ->
  lzma_decode true c h input = Some (LZMA_OK, c', h', rest) -> rest = [] \/ avail h' = 0.
Proof using Hprops.
  intros [Hok Hu] Ha. unfold lzma_decode, rc_read_init. destruct (read_init_loop _ _ _) as [[ret0 r0] rest0] eqn:Ei.
  destruct (read_init_ok _ _ _ _ _ _ Ei) as [Hdr _]. pose proof Hok as [(_ & Hr & _) _ _ _ _].
  assert (range_ok r0) as Hr0 by (unfold range_ok in *; lia). cbv zeta.
  destruct (bool_decide_reflect (ret0 = LZMA_STREAM_END)) as [->|Hne]; cbn [negb].
  2: { intros [= -> <- <- <-]. left. now apply read_init_waits in Ei. }
  cbn [uncompressed_size set_rc window_avail history_window]. set (known := negb (uncompressed_size c =? LZMA_VLI_UNKNOWN)).
  set (fin := known && (uncompressed_size c <=? avail h)). set (h0 := if fin then _ else h).
  assert (hist h0 = hist h /\ capacity h0 = capacity h /\ 0 <= avail h0 /\ (if fin then known = true /\ avail h0 = uncompressed_size c else avail h0 = avail h)) as (Eh & Ec & Ha0 & Hfin).
  { unfold h0. destruct fin eqn:Ef; cbn; split_and!; auto; unfold fin in Ef; now destruct known. }
  assert (decoder_ok lc lp pb (set_rc c (store_ c) r0) h0) as Hok1 by now apply (decoder_ok_fields c _ h).
  destruct (loop_ok (decode_fuel (avail h0)) false fin (negb known) (set_rc c (store_ c) r0) h0 rest0 Hok1 Ha0) as
    (ret & c1 & h1 & rest1 & E & (new & Hn & Hav & Hav0 & Hcap) & _); [apply fuel_enough; assumption|].
  rewrite E. cbn [mbind option_bind]. pose proof (loop_keeps _ _ _ _ _ _ _ _ _ _ _ E) as [_ Hku]. cbn in Hku.
  cbn [window_pos window_shrink history_window]. rewrite Hn, Eh, length_app, Nat2Z.inj_add.
  replace (zlen (hist h) + zlen new - zlen (hist h)) with (zlen new) by lia. intros [= Hret _ <- <-]. cbn [avail].
  assert (ret = LZMA_OK) as -> by (revert Hret; case_if; [discriminate|auto]).
  destruct (loop_waits _ _ _ _ _ _ _ _ _ _ Hok1 Ha0 E) as [->|[Hz Hwr]]; [now left|right].
  destruct fin; [|lia]. destruct Hfin as [Hk Hs]. exfalso. revert Hret. clearbody known. rewrite Hk. cbn [uncompressed_size set_uncompressed_size sequence andb].
  rewrite Hku, Hwr. replace (uncompressed_size c - zlen new) with 0 by lia. discriminate.
Qed.

End Steps.

(** ** The contract of an LZ-based decoder *)

Definition is_lclppb (p : Z * Z * Z) : Prop := let '(lc, lp, pb) := p in 0 <= lc /\ 0 <= lp /\ lc + lp <= 4 /\ 0 <= pb <= 4.

Lemma lclppb_valid o : 0 <= lc o -> 0 <= lp o -> 0 <= pb o -> is_lclppb_valid o = true -> is_lclppb (lc o, lp o, pb o).
Proof.
  unfold is_lclppb_valid, is_lclppb, LZMA_LCLP_MAX, LZMA_PB_MAX. intros H1 H2 H3 E. b2p.
  assert (lc o + lp o <= 4) by (rewrite u32_small in * by (unfold is_u32; lia); lia). lia.
Qed.

(** [lz->code] of [lzma_lzma_decoder_create]. *)
#[export] Instance lzma1_coder : LzCoder lzma_lzma1_decoder := fun D W c d input => lzma_decode true c d input.

#[export] Instance lzma1_laws : LzCoderLaws lzma_lzma1_decoder.
Proof.
  unshelve econstructor; [exact (fun c h => exists p, is_lclppb p /\ lzma_inv p.1.1 p.1.2 p.2 c h)|..]; cbv beta.
  - intros c h n (p & Hp & Hok & Hu). exists p. split; [exact Hp|]. split; [|exact Hu].
    pose proof Hok as [(_ & Hr & _) _ _ _ _]. now apply (decoder_ok_fields _ _ _ c c h).
  - intros c h input ([[lc lp] pb] & Hp & Hi) Ha Hw _. cbn in Hp, Hi.
    destruct (lzma_decode_ok lc lp pb Hp c h input Hi Ha) as (ret & c' & h' & rest & E & Hg & [u Hu] & Hw' & Hfin).
    exists ret, c', h', rest. split_and!; auto; [now exists u|congruence|]. intros Hret. exists (lc, lp, pb). split; [exact Hp|].
    unfold settled. rewrite Hw', Hw. now apply Hfin.
  - intros c h input c' h' rest ([[lc lp] pb] & Hp & Hi) Ha Hw _ E. cbn in Hp, Hi.
    destruct (lzma_decode_progress lc lp pb Hp c h input c' h' rest Hi Ha E); auto.
  - intros D W k top R c d h input Hsim HR ([[lc lp] pb] & Hp & Hi) Hw _ ret c' h' rest E. cbn in Hp, Hi.
    now apply (lzma_decode_sim lc lp pb Hp k top R c d h input Hsim HR Hi).
Defined.

(** A decoder that was just initialized fits any window. *)
Lemma decoder_reset_ok c lc lp pb size allow h : 0 <= lc -> 0 <= lp -> lc + lp <= 4 -> 0 <= pb <= 4 -> 0 <= size ->
  lzma_inv lc lp pb (lzma_decoder_uncompressed (lzma_decoder_reset c lc lp pb) size allow) h.
Proof.
  intros H1 H2 H3 H4 Hs. split; [|exact Hs]. assert (dist_ok h 0) as Hd by (split; [lia|now left]). constructor; cbn; auto.
  - split; [|split; [unfold range_ok; cbn; unfold UINT32_MAX; lia|split; [unfold STATES, STATE_LIT_LIT; lia|auto]]].
    intros p Hp. unfold prob_at. rewrite (reset_probs_initial lc lp pb _ p Hp). unfold prob_ok. cbn. lia.
  - unfold place_ok. cbn. split; [exact Hd|discriminate].
Qed.

Lemma decoder_init_inv c ext o c' h : 0 <= lc o -> 0 <= lp o -> 0 <= pb o -> lzma_decoder_init c ext o = Ok c' -> lz_inv c' h.
Proof.
  intros H1 H2 H3. unfold lzma_decoder_init. destruct (is_lclppb_valid o) eqn:E; cbn [negb]; [|discriminate]. case_if; [discriminate|].
  cbv zeta. intros [= <-]. exists (lc o, lp o, pb o). pose proof (lclppb_valid o H1 H2 H3 E) as Hp.
  split; [exact Hp|]. cbn in Hp. apply decoder_reset_ok; [lia|lia|lia|lia|]. destruct ext; [apply u64_range|]. unfold LZMA_VLI_UNKNOWN. vm_compute. congruence.
Qed.

(** ** Theorems *)

(** C7: At every place where [lzma_decode] can be, the invariant holds: the
    probability that is used lies in its array, the distances lie in the window,
    the counters are in their ranges.  One step of the switch leads to such a
    place again and nearer to the next decoded byte. *)
Theorem lzma_decoder_invariant lc lp pb fin eopm c h input : is_lclppb (lc, lp, pb) -> decoder_ok lc lp pb c h -> 0 <= avail h ->
  match decode_step fin eopm c h input with
  | Next _ c' h' rest => decoder_ok lc lp pb c' h' /\ grows h h' /\ rest `suffix_of` input /\ measure c' h' < measure c h
  | Out ret c' h' rest => (ret = LZMA_OK -> decoder_ok lc lp pb c' h') /\ grows h h' /\ rest `suffix_of` input
  end.
Proof. intros Hp. exact (decode_step_ok lc lp pb Hp fin eopm c h input). Qed.


Definition example_decoder : lzma_lzma1_decoder :=
  mk_lzma1 ∅ rc_reset_decoder 0 0 0 0 0 0 0 0 0 false SEQ_IS_MATCH (literal_probs, 0) 0 0 0 0.
Definition example_options : lzma_options_lzma := Build_lzma_options_lzma 4096 None 0 0 0 0 1 32 0 0 0 0 0.
Definition example_ready : lzma_lzma1_decoder :=
  lzma_decoder_uncompressed (lzma_decoder_reset example_decoder 0 0 0) LZMA_VLI_UNKNOWN true.

Lemma lzma_decoder_invariant_witness : decoder_ok 0 0 0 example_ready (mk_history [] 9 4096 false) /\
  match decode_step false true example_ready (mk_history [] 9 4096 false) [1; 2] with
  | Next _ c' h' rest => decoder_ok 0 0 0 c' h' /\ grows (mk_history [] 9 4096 false) h' /\ rest `suffix_of` [1; 2] /\
      measure c' h' < measure example_ready (mk_history [] 9 4096 false)
  | Out ret c' h' rest => (ret = LZMA_OK -> decoder_ok 0 0 0 c' h') /\ grows (mk_history [] 9 4096 false) h' /\ rest `suffix_of` [1; 2]
  end.
Proof.
  assert (decoder_ok 0 0 0 example_ready (mk_history [] 9 4096 false)) as Hok
    by (apply (decoder_reset_ok example_decoder 0 0 0 LZMA_VLI_UNKNOWN true); unfold LZMA_VLI_UNKNOWN, UINT64_MAX; lia).
  split; [exact Hok|]. apply (lzma_decoder_invariant 0 0 0 false true); [cbn; lia|exact Hok|cbn; lia].
Defined.


(** ** The end marker after data of known size

    [eopm_is_valid] is a local variable of [lzma_decode]: it is set when all data
    were decoded, and lost when the function returns inside the end marker.  The
    same bytes are a valid stream in one call and corrupt in two. *)
Definition marked_stream : bytes := [0; 3; 195; 235; 255; 255; 255; 225; 0; 0; 0].
Definition marked_decoder : lzma_lzma1_decoder := lzma_decoder_uncompressed (lzma_decoder_reset example_decoder 0 0 0) 1 true.

(** The return codes of two calls, the first with [n] bytes. *)
Definition two_calls (n : nat) : option (lzma_ret * lzma_ret) :=
  '(ret, c, h, rest) ← lzma_decode true marked_decoder (mk_history [] 9 4096 false) (take n marked_stream);
  '(ret', _, _, _) ← lzma_decode true c h (rest ++ drop n marked_stream);
  Some (ret, ret').

Example end_marker_interrupted :
  (r ← lzma_decode true marked_decoder (mk_history [] 9 4096 false) marked_stream; Some (r.1.1.1, hist r.1.2)) = Some (LZMA_STREAM_END, [7]) /\
  two_calls 5 = Some (LZMA_OK, LZMA_STREAM_END) /\ two_calls 6 = Some (LZMA_OK, LZMA_DATA_ERROR).
Proof. vm_compute. auto. Qed.
