(* ===== verification/MatchFinder.v ===== *)
(** * Match finders

    [lib/archive/xz/src/liblzma/lz/lz_encoder_mf.c] with [lz_encoder.h],
    [lz_encoder_hash.h] and [common/memcmplen.h]: the window of the encoder and
    the search for earlier occurrences of the next bytes, by hash chains and by
    binary trees.  The matches that the hash chains find are occurrences indeed:
    the invariant ties the entries of the tables to the data. *)

From Stdlib Require Import ZArith Lia.
From stdpp Require Import gmap list.
From S2P Require Import Prelude CrcTables Coder.

(** ** Comparison of strings

    [lzma_memcmplen] of the bytes [f] and [g]; the plain version. *)

Fixpoint memcmplen_loop (n : nat) (f g : Z -> Z) (len : Z) : Z :=
  match n with
  | O => len
  | S n => if f len =? g len then memcmplen_loop n f g (len + 1) else len
  end.

Definition memcmplen (f g : Z -> Z) (len limit : Z) : Z := memcmplen_loop (Z.to_nat (limit - len)) f g len.

(** [read64ne] and [read32ne] on a little endian machine. *)
Definition read_le (n : nat) (f : Z -> Z) (i : Z) : Z := fold_right (fun k acc => f (i + Z.of_nat k) + 256 * acc) 0 (seq 0 n).

(** [__builtin_ctzll] *)
Definition ctz (x : Z) : Z := Z.log2 (Z.land x (- x)).

(** Eight bytes at a time; [None]: all of them are equal. *)
Definition compare64 (f g : Z -> Z) (len : Z) : option Z :=
  let x := u64 (read_le 8 f len - read_le 8 g len) in
  if negb (x =? 0) then Some (len + Z.shiftr (ctz x) 3) else None.

(** Four bytes at a time. *)
Definition compare32 (f g : Z -> Z) (len : Z) : option Z :=
  let x := u32 (read_le 4 f len - read_le 4 g len) in
  if negb (x =? 0) then
    let '(len, x) := if Z.land x 0xFFFF =? 0 then (len + 2, Z.shiftr x 16) else (len, x) in
    Some (if Z.land x 0xFF =? 0 then len + 1 else len)
  else None.

(** Sixteen at a time: [_mm_movemask_epi8] of [_mm_cmpeq_epi8]. *)
Definition movemask (f g : Z -> Z) (len : Z) : Z :=
  fold_right (fun k acc => Z.b2z (f (len + Z.of_nat k) =? g (len + Z.of_nat k)) + 2 * acc) 0 (seq 0 16).

Definition compare_sse2 (f g : Z -> Z) (len : Z) : option Z :=
  let x := Z.lxor 0xFFFF (movemask f g len) in
  if negb (x =? 0) then Some (len + ctz x) else None.

Fixpoint memcmplen_wide_loop (compare : (Z -> Z) -> (Z -> Z) -> Z -> option Z) (step : Z) (n : nat) (f g : Z -> Z) (len limit : Z) : Z :=
  match n with
  | O => limit
  | S n =>
      if len <? limit then
        match compare f g len with
        | Some len => Z.min len limit
        | None => memcmplen_wide_loop compare step n f g (len + step) limit
        end
      else limit
  end.

Definition memcmplen_wide (compare : (Z -> Z) -> (Z -> Z) -> Z -> option Z) (step : Z) (f g : Z -> Z) (len limit : Z) : Z :=
  memcmplen_wide_loop compare step (Z.to_nat (limit - len)) f g len limit.

(** ** The window *)

Inductive lzma_match_finder := LZMA_MF_HC3 | LZMA_MF_HC4 | LZMA_MF_BT2 | LZMA_MF_BT3 | LZMA_MF_BT4.

Record lzma_match := mk_match { m_len : Z; m_dist : Z }.

(** [kind] stands for the pointers to the [find] and [skip] functions.  [son]
    holds what the memory contains until it is written. *)
Record lzma_mf := mk_mf {
  buffer : bytes;
  mf_size : Z;
  keep_size_before : Z;
  keep_size_after : Z;
  mf_offset : Z;
  read_pos : Z;
  read_ahead : Z;
  read_limit : Z;
  write_pos : Z;
  pending : Z;
  kind : lzma_match_finder;
  hash : gmap Z Z;
  son : gmap Z Z;
  cyclic_pos : Z;
  cyclic_size : Z;
  hash_mask : Z;
  mf_depth : Z;
  mf_nice_len : Z;
  match_len_max : Z;
  mf_action : lzma_action;
}.

Implicit Types (mf : lzma_mf).

Definition set_hash mf (h : gmap Z Z) : lzma_mf :=
  mk_mf (buffer mf) (mf_size mf) (keep_size_before mf) (keep_size_after mf) (mf_offset mf) (read_pos mf) (read_ahead mf) (read_limit mf)
    (write_pos mf) (pending mf) (kind mf) h (son mf) (cyclic_pos mf) (cyclic_size mf) (hash_mask mf) (mf_depth mf) (mf_nice_len mf)
    (match_len_max mf) (mf_action mf).
Definition set_son mf (s : gmap Z Z) : lzma_mf :=
  mk_mf (buffer mf) (mf_size mf) (keep_size_before mf) (keep_size_after mf) (mf_offset mf) (read_pos mf) (read_ahead mf) (read_limit mf)
    (write_pos mf) (pending mf) (kind mf) (hash mf) s (cyclic_pos mf) (cyclic_size mf) (hash_mask mf) (mf_depth mf) (mf_nice_len mf)
    (match_len_max mf) (mf_action mf).
Definition set_offset_ mf (n : Z) : lzma_mf :=
  mk_mf (buffer mf) (mf_size mf) (keep_size_before mf) (keep_size_after mf) n (read_pos mf) (read_ahead mf) (read_limit mf)
    (write_pos mf) (pending mf) (kind mf) (hash mf) (son mf) (cyclic_pos mf) (cyclic_size mf) (hash_mask mf) (mf_depth mf) (mf_nice_len mf)
    (match_len_max mf) (mf_action mf).
Definition set_read_pos mf (n : Z) : lzma_mf :=
  mk_mf (buffer mf) (mf_size mf) (keep_size_before mf) (keep_size_after mf) (mf_offset mf) n (read_ahead mf) (read_limit mf)
    (write_pos mf) (pending mf) (kind mf) (hash mf) (son mf) (cyclic_pos mf) (cyclic_size mf) (hash_mask mf) (mf_depth mf) (mf_nice_len mf)
    (match_len_max mf) (mf_action mf).
Definition set_read_ahead mf (n : Z) : lzma_mf :=
  mk_mf (buffer mf) (mf_size mf) (keep_size_before mf) (keep_size_after mf) (mf_offset mf) (read_pos mf) n (read_limit mf)
    (write_pos mf) (pending mf) (kind mf) (hash mf) (son mf) (cyclic_pos mf) (cyclic_size mf) (hash_mask mf) (mf_depth mf) (mf_nice_len mf)
    (match_len_max mf) (mf_action mf).
Definition set_pending mf (n : Z) : lzma_mf :=
  mk_mf (buffer mf) (mf_size mf) (keep_size_before mf) (keep_size_after mf) (mf_offset mf) (read_pos mf) (read_ahead mf) (read_limit mf)
    (write_pos mf) n (kind mf) (hash mf) (son mf) (cyclic_pos mf) (cyclic_size mf) (hash_mask mf) (mf_depth mf) (mf_nice_len mf)
    (match_len_max mf) (mf_action mf).
Definition set_cyclic_pos mf (n : Z) : lzma_mf :=
  mk_mf (buffer mf) (mf_size mf) (keep_size_before mf) (keep_size_after mf) (mf_offset mf) (read_pos mf) (read_ahead mf) (read_limit mf)
    (write_pos mf) (pending mf) (kind mf) (hash mf) (son mf) n (cyclic_size mf) (hash_mask mf) (mf_depth mf) (mf_nice_len mf)
    (match_len_max mf) (mf_action mf).

(** [mf_ptr(mf)[i]], with the index from the beginning of the buffer. *)
Definition byte mf (i : Z) : Z := byte_at (buffer mf) i.

Definition mf_avail mf : Z := u32 (write_pos mf - read_pos mf).
Definition mf_unencoded mf : Z := u32 (write_pos mf - read_pos mf + read_ahead mf).
Definition mf_position mf : Z := u32 (read_pos mf - read_ahead mf).

(** [lzma_memcmplen] of the strings at two places of the buffer. *)
Definition lzma_memcmplen mf (p1 p2 len limit : Z) : Z := memcmplen (fun i => byte mf (p1 + i)) (fun i => byte mf (p2 + i)) len limit.

(** ** Positions *)

Definition EMPTY_HASH_VALUE : Z := 0.
Definition MUST_NORMALIZE_POS : Z := UINT32_MAX.

Definition normalize_value (subvalue x : Z) : Z := if x <=? subvalue then EMPTY_HASH_VALUE else x - subvalue.

Definition normalize mf : lzma_mf :=
  let subvalue := u32 (MUST_NORMALIZE_POS - cyclic_size mf) in
  set_offset_ (set_son (set_hash mf (normalize_value subvalue <$> hash mf)) (normalize_value subvalue <$> son mf))
    (u32 (mf_offset mf - subvalue)).

(** [mf->read_pos + mf->offset] *)
Definition mf_pos mf : Z := u32 (read_pos mf + mf_offset mf).

Definition move_pos mf : lzma_mf :=
  let mf := set_cyclic_pos mf (if u32 (cyclic_pos mf + 1) =? cyclic_size mf then 0 else u32 (cyclic_pos mf + 1)) in
  let mf := set_read_pos mf (u32 (read_pos mf + 1)) in
  if mf_pos mf =? UINT32_MAX then normalize mf else mf.

Definition move_pending mf : lzma_mf := set_pending (set_read_pos mf (u32 (read_pos mf + 1))) (u32 (pending mf + 1)).

(** [header]: [len_limit], or [None] when [move_pending] has to be done. *)
Definition header (is_bt : bool) (len_min : Z) mf : option Z :=
  let len_limit := mf_avail mf in
  if mf_nice_len mf <=? len_limit then Some (mf_nice_len mf)
  else if (len_limit <? len_min) || (is_bt && bool_decide (mf_action mf = LZMA_SYNC_FLUSH)) then None
  else Some len_limit.

(** ** Hashes *)

Definition HASH_2_SIZE : Z := Z.shiftl 1 10.
Definition HASH_3_SIZE : Z := Z.shiftl 1 16.
Definition HASH_2_MASK : Z := HASH_2_SIZE - 1.
Definition HASH_3_MASK : Z := HASH_3_SIZE - 1.
Definition FIX_3_HASH_SIZE : Z := HASH_2_SIZE.
Definition FIX_4_HASH_SIZE : Z := HASH_2_SIZE + HASH_3_SIZE.

Definition hash_table (b : Z) : Z := nth (Z.to_nat b) lzma_crc32_table_0 0.

Definition hash_temp mf (cur : Z) : Z := Z.lxor (hash_table (byte mf cur)) (byte mf (cur + 1)).
Definition hash_2_value mf (cur : Z) : Z := Z.land (hash_temp mf cur) HASH_2_MASK.
Definition hash_3_temp mf (cur : Z) : Z := Z.lxor (hash_temp mf cur) (u32 (Z.shiftl (byte mf (cur + 2)) 8)).
Definition hash_3_value mf (cur : Z) : Z := Z.land (hash_3_temp mf cur) HASH_3_MASK.

(** [hash_value] of [hash_2_calc], [hash_3_calc] and [hash_4_calc]. *)
Definition hash_value_2 mf (cur : Z) : Z := Z.lor (byte mf cur) (u32 (Z.shiftl (byte mf (cur + 1)) 8)).
Definition hash_value_3 mf (cur : Z) : Z := Z.land (hash_3_temp mf cur) (hash_mask mf).
Definition hash_value_4 mf (cur : Z) : Z :=
  Z.land (Z.lxor (hash_3_temp mf cur) (u32 (Z.shiftl (hash_table (byte mf (cur + 3))) 5))) (hash_mask mf).

Definition hash_at mf (i : Z) : Z := default 0 (hash mf !! i).
Definition son_at (s : gmap Z Z) (i : Z) : Z := default 0 (s !! i).

(** [mf->hash[i] = pos] *)
Definition put_hash mf (i pos : Z) : lzma_mf := set_hash mf (<[i := pos]> (hash mf)).

(** The index in [son] of the position [delta] before the current one. *)
Definition son_index mf (delta : Z) : Z :=
  u32 (cyclic_pos mf - delta + (if delta >? cyclic_pos mf then cyclic_size mf else 0)).

(** ** Hash chains *)

(** [hc_find_func] after its first assignment: the matches that it adds. *)
Fixpoint hc_loop (depth : nat) mf (len_limit pos cur cur_match len_best : Z) : list lzma_match :=
  match depth with
  | O => []
  | S depth =>
      let delta := u32 (pos - cur_match) in
      if delta >=? cyclic_size mf then []
      else
        let pb := cur - delta in
        let cur_match := son_at (son mf) (son_index mf delta) in
        if (byte mf (pb + len_best) =? byte mf (cur + len_best)) && (byte mf pb =? byte mf cur) then
          let len := lzma_memcmplen mf pb cur 1 len_limit in
          if len_best <? len then
            mk_match len (delta - 1) ::
            if len =? len_limit then [] else hc_loop depth mf len_limit pos cur cur_match len
          else hc_loop depth mf len_limit pos cur cur_match len_best
        else hc_loop depth mf len_limit pos cur cur_match len_best
  end.

(** [mf->son[mf->cyclic_pos] = cur_match] *)
Definition link mf (cur_match : Z) : lzma_mf := set_son mf (<[cyclic_pos mf := cur_match]> (son mf)).

Definition hc_find mf (len_limit pos cur cur_match : Z) (matches : list lzma_match) (len_best : Z) : lzma_mf * list lzma_match :=
  let mf := link mf cur_match in
  (move_pos mf, matches ++ hc_loop (Z.to_nat (mf_depth mf)) mf len_limit pos cur cur_match len_best).

Definition hc_skip mf (cur_match : Z) : lzma_mf := move_pos (link mf cur_match).

Definition lzma_mf_hc3_find mf : lzma_mf * list lzma_match :=
  match header false 3 mf with
  | None => (move_pending mf, [])
  | Some len_limit =>
      let cur := read_pos mf in
      let pos := mf_pos mf in
      let delta2 := u32 (pos - hash_at mf (hash_2_value mf cur)) in
      let cur_match := hash_at mf (FIX_3_HASH_SIZE + hash_value_3 mf cur) in
      let mf := put_hash (put_hash mf (hash_2_value mf cur) pos) (FIX_3_HASH_SIZE + hash_value_3 mf cur) pos in
      if (delta2 <? cyclic_size mf) && (byte mf (cur - delta2) =? byte mf cur) then
        let len_best := lzma_memcmplen mf (cur - delta2) cur 2 len_limit in
        let matches := [mk_match len_best (delta2 - 1)] in
        if len_best =? len_limit then (hc_skip mf cur_match, matches)
        else hc_find mf len_limit pos cur cur_match matches len_best
      else hc_find mf len_limit pos cur cur_match [] 2
  end.

(** One round of the [do] loop of [lzma_mf_hc3_skip]. *)
Definition hc3_skip_byte mf : lzma_mf :=
  if mf_avail mf <? 3 then move_pending mf
  else
    let cur := read_pos mf in
    let pos := mf_pos mf in
    let cur_match := hash_at mf (FIX_3_HASH_SIZE + hash_value_3 mf cur) in
    hc_skip (put_hash (put_hash mf (hash_2_value mf cur) pos) (FIX_3_HASH_SIZE + hash_value_3 mf cur) pos) cur_match.

(** The two short matches of [lzma_mf_hc4_find] and [lzma_mf_bt4_find]: the
    matches, the distance to extend and [len_best]. *)
Definition short_matches mf (cur delta2 delta3 : Z) : list lzma_match * Z * Z :=
  let '(matches, delta, len_best) :=
    if (delta2 <? cyclic_size mf) && (byte mf (cur - delta2) =? byte mf cur) then ([mk_match 2 (delta2 - 1)], delta2, 2)
    else ([], delta2, 1) in
  if negb (delta2 =? delta3) && (delta3 <? cyclic_size mf) && (byte mf (cur - delta3) =? byte mf cur) then
    (matches ++ [mk_match 0 (delta3 - 1)], delta3, 3)
  else (matches, delta, len_best).

(** [matches[matches_count - 1].len = len] *)
Definition set_last_len (matches : list lzma_match) (len : Z) : list lzma_match :=
  match last matches with
  | None => matches
  | Some m => removelast matches ++ [mk_match len (m_dist m)]
  end.

Definition put_hash_4 mf (cur pos : Z) : lzma_mf :=
  put_hash (put_hash (put_hash mf (hash_2_value mf cur) pos) (FIX_3_HASH_SIZE + hash_3_value mf cur) pos)
    (FIX_4_HASH_SIZE + hash_value_4 mf cur) pos.

Definition lzma_mf_hc4_find mf : lzma_mf * list lzma_match :=
  match header false 4 mf with
  | None => (move_pending mf, [])
  | Some len_limit =>
      let cur := read_pos mf in
      let pos := mf_pos mf in
      let delta2 := u32 (pos - hash_at mf (hash_2_value mf cur)) in
      let delta3 := u32 (pos - hash_at mf (FIX_3_HASH_SIZE + hash_3_value mf cur)) in
      let cur_match := hash_at mf (FIX_4_HASH_SIZE + hash_value_4 mf cur) in
      let mf := put_hash_4 mf cur pos in
      let '(matches, delta, len_best) := short_matches mf cur delta2 delta3 in
      match matches with
      | [] => hc_find mf len_limit pos cur cur_match [] 3
      | _ =>
          let len_best := lzma_memcmplen mf (cur - delta) cur len_best len_limit in
          let matches := set_last_len matches len_best in
          if len_best =? len_limit then (hc_skip mf cur_match, matches)
          else hc_find mf len_limit pos cur cur_match matches (Z.max len_best 3)
      end
  end.

Definition hc4_skip_byte mf : lzma_mf :=
  if mf_avail mf <? 4 then move_pending mf
  else
    let cur := read_pos mf in
    let cur_match := hash_at mf (FIX_4_HASH_SIZE + hash_value_4 mf cur) in
    hc_skip (put_hash_4 mf cur (mf_pos mf)) cur_match.

(** ** Binary trees

    [ptr0] and [ptr1] are indices of [son].  The loop returns [son] and the
    matches that it adds; [bt_skip_func] is the same without matches, and stops at
    the first string that is equal up to the limit. *)
Fixpoint bt_loop (find : bool) (depth : nat) mf (len_limit pos cur cur_match : Z) (s : gmap Z Z) (ptr0 ptr1 len0 len1 len_best : Z) :
  gmap Z Z * list lzma_match :=
  let cut_off := (<[ptr1 := EMPTY_HASH_VALUE]> (<[ptr0 := EMPTY_HASH_VALUE]> s), []) in
  match depth with
  | O => cut_off
  | S depth =>
      let delta := u32 (pos - cur_match) in
      if delta >=? cyclic_size mf then cut_off
      else
        let pair := u32 (Z.shiftl (son_index mf delta) 1) in
        let pb := cur - delta in
        let len := Z.min len0 len1 in
        let equal := byte mf (pb + len) =? byte mf (cur + len) in
        let len := if equal then lzma_memcmplen mf pb cur (len + 1) len_limit else len in
        let better := equal && (if find then len_best <? len else true) in
        let matches := if better && find then [mk_match len (delta - 1)] else [] in
        let len_best := if better && find then len else len_best in
        if better && (len =? len_limit) then
          let s := <[ptr1 := son_at s pair]> s in
          (<[ptr0 := son_at s (pair + 1)]> s, matches)
        else
          let '(s, more) :=
            if byte mf (pb + len) <? byte mf (cur + len) then
              let s := <[ptr1 := cur_match]> s in
              bt_loop find depth mf len_limit pos cur (son_at s (pair + 1)) s ptr0 (pair + 1) len0 len len_best
            else
              let s := <[ptr0 := cur_match]> s in
              bt_loop find depth mf len_limit pos cur (son_at s pair) s pair ptr1 len len1 len_best in
          (s, matches ++ more)
  end.

Definition bt_run (find : bool) mf (len_limit pos cur cur_match len_best : Z) : gmap Z Z * list lzma_match :=
  let pair := u32 (Z.shiftl (cyclic_pos mf) 1) in
  bt_loop find (Z.to_nat (mf_depth mf)) mf len_limit pos cur cur_match (son mf) (pair + 1) pair 0 0 len_best.

Definition bt_find mf (len_limit pos cur cur_match : Z) (matches : list lzma_match) (len_best : Z) : lzma_mf * list lzma_match :=
  let '(s, more) := bt_run true mf len_limit pos cur cur_match len_best in
  (move_pos (set_son mf s), matches ++ more).

Definition bt_skip mf (len_limit pos cur cur_match : Z) : lzma_mf :=
  move_pos (set_son mf (bt_run false mf len_limit pos cur cur_match 0).1).

Definition lzma_mf_bt2_find mf : lzma_mf * list lzma_match :=
  match header true 2 mf with
  | None => (move_pending mf, [])
  | Some len_limit =>
      let cur := read_pos mf in
      let pos := mf_pos mf in
      let cur_match := hash_at mf (hash_value_2 mf cur) in
      bt_find (put_hash mf (hash_value_2 mf cur) pos) len_limit pos cur cur_match [] 1
  end.

Definition bt2_skip_byte mf : lzma_mf :=
  match header true 2 mf with
  | None => move_pending mf
  | Some len_limit =>
      let cur := read_pos mf in
      let pos := mf_pos mf in
      let cur_match := hash_at mf (hash_value_2 mf cur) in
      bt_skip (put_hash mf (hash_value_2 mf cur) pos) len_limit pos cur cur_match
  end.

Definition lzma_mf_bt3_find mf : lzma_mf * list lzma_match :=
  match header true 3 mf with
  | None => (move_pending mf, [])
  | Some len_limit =>
      let cur := read_pos mf in
      let pos := mf_pos mf in
      let delta2 := u32 (pos - hash_at mf (hash_2_value mf cur)) in
      let cur_match := hash_at mf (FIX_3_HASH_SIZE + hash_value_3 mf cur) in
      let mf := put_hash (put_hash mf (hash_2_value mf cur) pos) (FIX_3_HASH_SIZE + hash_value_3 mf cur) pos in
      if (delta2 <? cyclic_size mf) && (byte mf (cur - delta2) =? byte mf cur) then
        let len_best := lzma_memcmplen mf cur (cur - delta2) 2 len_limit in
        let matches := [mk_match len_best (delta2 - 1)] in
        if len_best =? len_limit then (bt_skip mf len_limit pos cur cur_match, matches)
        else bt_find mf len_limit pos cur cur_match matches len_best
      else bt_find mf len_limit pos cur cur_match [] 2
  end.

Definition bt3_skip_byte mf : lzma_mf :=
  match header true 3 mf with
  | None => move_pending mf
  | Some len_limit =>
      let cur := read_pos mf in
      let pos := mf_pos mf in
      let cur_match := hash_at mf (FIX_3_HASH_SIZE + hash_value_3 mf cur) in
      bt_skip (put_hash (put_hash mf (hash_2_value mf cur) pos) (FIX_3_HASH_SIZE + hash_value_3 mf cur) pos) len_limit pos cur cur_match
  end.

Definition lzma_mf_bt4_find mf : lzma_mf * list lzma_match :=
  match header true 4 mf with
  | None => (move_pending mf, [])
  | Some len_limit =>
      let cur := read_pos mf in
      let pos := mf_pos mf in
      let delta2 := u32 (pos - hash_at mf (hash_2_value mf cur)) in
      let delta3 := u32 (pos - hash_at mf (FIX_3_HASH_SIZE + hash_3_value mf cur)) in
      let cur_match := hash_at mf (FIX_4_HASH_SIZE + hash_value_4 mf cur) in
      let mf := put_hash_4 mf cur pos in
      let '(matches, delta, len_best) := short_matches mf cur delta2 delta3 in
      match matches with
      | [] => bt_find mf len_limit pos cur cur_match [] 3
      | _ =>
          let len_best := lzma_memcmplen mf cur (cur - delta) len_best len_limit in
          let matches := set_last_len matches len_best in
          if len_best =? len_limit then (bt_skip mf len_limit pos cur cur_match, matches)
          else bt_find mf len_limit pos cur cur_match matches (Z.max len_best 3)
      end
  end.

Definition bt4_skip_byte mf : lzma_mf :=
  match header true 4 mf with
  | None => move_pending mf
  | Some len_limit =>
      let cur := read_pos mf in
      let pos := mf_pos mf in
      let cur_match := hash_at mf (FIX_4_HASH_SIZE + hash_value_4 mf cur) in
      bt_skip (put_hash_4 mf cur pos) len_limit pos cur cur_match
  end.

(** ** The interface *)

Definition find mf : lzma_mf * list lzma_match :=
  match kind mf with
  | LZMA_MF_HC3 => lzma_mf_hc3_find mf
  | LZMA_MF_HC4 => lzma_mf_hc4_find mf
  | LZMA_MF_BT2 => lzma_mf_bt2_find mf
  | LZMA_MF_BT3 => lzma_mf_bt3_find mf
  | LZMA_MF_BT4 => lzma_mf_bt4_find mf
  end.

Definition skip_byte mf : lzma_mf :=
  match kind mf with
  | LZMA_MF_HC3 => hc3_skip_byte mf
  | LZMA_MF_HC4 => hc4_skip_byte mf
  | LZMA_MF_BT2 => bt2_skip_byte mf
  | LZMA_MF_BT3 => bt3_skip_byte mf
  | LZMA_MF_BT4 => bt4_skip_byte mf
  end.

(** The [do] loop of the [skip] functions; [amount] is not zero. *)
Definition skip mf (amount : Z) : lzma_mf := Nat.iter (Z.to_nat amount) skip_byte mf.

Definition mf_skip mf (amount : Z) : lzma_mf :=
  if negb (amount =? 0) then let mf := skip mf amount in set_read_ahead mf (u32 (read_ahead mf + amount)) else mf.

(** The length of the longest match comes with the matches. *)
Definition lzma_mf_find mf : lzma_mf * list lzma_match * Z :=
  let '(mf, matches) := find mf in
  let len_best :=
    match last matches with
    | None => 0
    | Some m =>
        if m_len m =? mf_nice_len mf then
          let limit := u32 (mf_avail mf + 1) in
          let limit := if limit >? match_len_max mf then match_len_max mf else limit in
          let p1 := read_pos mf - 1 in
          let p2 := p1 - m_dist m - 1 in
          lzma_memcmplen mf p1 p2 (m_len m) limit
        else m_len m
    end in
  (set_read_ahead mf (u32 (read_ahead mf + 1)), matches, len_best).

(** ** The window of the encoder: [lz_encoder.c] *)

Definition move_window mf : lzma_mf :=
  let move_offset := Z.land (u32 (read_pos mf - keep_size_before mf)) (Z.lnot 15) in
  let move_size := write_pos mf - move_offset in
  mk_mf (slice move_offset move_size (buffer mf) ++ from move_size (buffer mf)) (mf_size mf) (keep_size_before mf) (keep_size_after mf)
    (u32 (mf_offset mf + move_offset)) (u32 (read_pos mf - move_offset)) (read_ahead mf) (u32 (read_limit mf - move_offset))
    (u32 (write_pos mf - move_offset)) (pending mf) (kind mf) (hash mf) (son mf) (cyclic_pos mf) (cyclic_size mf) (hash_mask mf)
    (mf_depth mf) (mf_nice_len mf) (match_len_max mf) (mf_action mf).

Definition set_input mf (b : bytes) (w : Z) (limit : Z) (a : lzma_action) : lzma_mf :=
  mk_mf b (mf_size mf) (keep_size_before mf) (keep_size_after mf) (mf_offset mf) (read_pos mf) (read_ahead mf) limit w (pending mf) (kind mf)
    (hash mf) (son mf) (cyclic_pos mf) (cyclic_size mf) (hash_mask mf) (mf_depth mf) (mf_nice_len mf) (match_len_max mf) a.

(** [LZMA_MEMCMPLEN_EXTRA] *)
Definition LZMA_MEMCMPLEN_EXTRA : Z := 8.

(** The bytes [l] are stored from [buf + i] on. *)
Definition overwrite (b : bytes) (i : Z) (l : bytes) : bytes := take (Z.to_nat i) b ++ l ++ drop (Z.to_nat i + length l) b.

(** [fill_window] of the last encoder of a chain: [input] is what is left of the
    input; what is left after it is returned. *)
Definition fill_window mf (input : bytes) (action : lzma_action) : lzma_mf * bytes :=
  let mf := if read_pos mf >=? u32 (mf_size mf - keep_size_after mf) then move_window mf else mf in
  let n := Z.min (zlen input) (mf_size mf - write_pos mf) in
  let w := write_pos mf + n in
  let b := overwrite (overwrite (buffer mf) (write_pos mf) (slice 0 n input)) w (replicate (Z.to_nat LZMA_MEMCMPLEN_EXTRA) 0) in
  let rest := from n input in
  let mf :=
    if negb (bool_decide (action = LZMA_RUN)) && (zlen rest =? 0) then set_input mf b w w action
    else if w >? keep_size_after mf then set_input mf b w (u32 (w - keep_size_after mf)) (mf_action mf)
    else set_input mf b w (read_limit mf) (mf_action mf) in
  let mf :=
    if (pending mf >? 0) && (read_pos mf <? read_limit mf) then
      skip (set_read_pos (set_pending mf 0) (u32 (read_pos mf - pending mf))) (pending mf)
    else mf in
  (mf, rest).

Record lzma_lz_options := mk_lz_options {
  before_size : Z;
  lz_dict_size : Z;
  after_size : Z;
  lz_match_len_max : Z;
  lz_nice_len : Z;
  match_finder : lzma_match_finder;
  lz_depth : Z;
  lz_preset_dict : bytes;
}.

Definition LZMA_DICT_SIZE_MIN : Z := 4096.

Definition IS_ENC_DICT_SIZE_VALID (size : Z) : bool := (size >=? LZMA_DICT_SIZE_MIN) && (size <=? Z.shiftl 1 30 + Z.shiftl 1 29).

Definition mf_get_hash_bytes (k : lzma_match_finder) : Z :=
  match k with LZMA_MF_BT2 => 2 | LZMA_MF_HC3 | LZMA_MF_BT3 => 3 | LZMA_MF_HC4 | LZMA_MF_BT4 => 4 end.

Definition is_bt (k : lzma_match_finder) : bool := match k with LZMA_MF_HC3 | LZMA_MF_HC4 => false | _ => true end.

(** [hs] of [lz_encoder_prepare]: the mask for the hash. *)
Definition hash_mask_of (k : lzma_match_finder) (dict_size : Z) : Z :=
  if mf_get_hash_bytes k =? 2 then 0xFFFF
  else
    let hs := u32 (dict_size - 1) in
    let hs := Z.lor hs (Z.shiftr hs 1) in
    let hs := Z.lor hs (Z.shiftr hs 2) in
    let hs := Z.lor hs (Z.shiftr hs 4) in
    let hs := Z.lor hs (Z.shiftr hs 8) in
    let hs := Z.lor (Z.shiftr hs 1) 0xFFFF in
    if hs >? Z.shiftl 1 24 then (if mf_get_hash_bytes k =? 3 then Z.shiftl 1 24 - 1 else Z.shiftr hs 1) else hs.

Definition depth_of (k : lzma_match_finder) (depth nice_len : Z) : Z :=
  if depth =? 0 then (if is_bt k then 16 + nice_len / 2 else 4 + nice_len / 4) else depth.

(** The sizes that [lz_encoder_prepare] computes: [None] when the options are not
    supported, else [keep_size_before], [keep_size_after] and [size]. *)
Definition lz_encoder_sizes (o : lzma_lz_options) : option (Z * Z * Z) :=
  if negb (IS_ENC_DICT_SIZE_VALID (lz_dict_size o)) || (lz_nice_len o >? lz_match_len_max o) then None
  else
    let before := u32 (before_size o + lz_dict_size o) in
    let after := u32 (after_size o + lz_match_len_max o) in
    let reserve := u32 (lz_dict_size o / 2) in
    let reserve := if reserve >? Z.shiftl 1 30 then reserve / 2 else reserve in
    let reserve := u32 (reserve + ((before_size o + lz_match_len_max o + after_size o) / 2 + Z.shiftl 1 19)) in
    Some (before, after, u32 (before + reserve + after)).

(** [lz_encoder_prepare] and [lz_encoder_init]: [mem] and [sons] are what the
    fresh memory of the buffer and of [son] contains. *)
Definition lz_encoder_init (o : lzma_lz_options) (mem : Z -> bytes) (sons : gmap Z Z) : option lzma_mf :=
  '(before, after, size) ← lz_encoder_sizes o;
  let cyclic := u32 (lz_dict_size o + 1) in
  let k := match_finder o in
  let b := overwrite (mem (size + LZMA_MEMCMPLEN_EXTRA)) size (replicate (Z.to_nat LZMA_MEMCMPLEN_EXTRA) 0) in
  let mf := mk_mf b size before after cyclic 0 0 0 0 0 k ∅ sons 0 cyclic (hash_mask_of k (lz_dict_size o))
    (depth_of k (lz_depth o) (lz_nice_len o)) (lz_nice_len o) (lz_match_len_max o) LZMA_RUN in
  let n := zlen (lz_preset_dict o) in
  if n >? 0 then
    let w := Z.min n size in
    let mf := set_input mf (overwrite b 0 (from (n - w) (lz_preset_dict o))) w 0 LZMA_SYNC_FLUSH in
    let mf := skip mf w in
    Some (set_input mf (buffer mf) (write_pos mf) (read_limit mf) LZMA_RUN)
  else Some mf.

(** ** The comparison *)

Lemma memcmplen_loop_spec n f g : forall len, let r := memcmplen_loop n f g len in
  len <= r <= len + Z.of_nat n /\ (forall j, len <= j < r -> f j = g j) /\ (r < len + Z.of_nat n -> f r <> g r).
Proof.
  induction n as [|n IH]; intros len; cbn [memcmplen_loop]; [cbn; split_and!; lia|].
  destruct (Z.eqb_spec (f len) (g len)) as [E|E]; [|cbn; split_and!; [lia..|intros j; lia|auto]].
  specialize (IH (len + 1)). cbv zeta in *. destruct IH as (H1 & H2 & H3). split_and!; [lia|lia| |].
  - intros j Hj. destruct (Z.eq_dec j len) as [->|]; [exact E|apply H2; lia].
  - intros Hr. apply H3. lia.
Qed.

Lemma memcmplen_spec f g len limit : len <= limit -> let r := memcmplen f g len limit in
  len <= r <= limit /\ (forall j, len <= j < r -> f j = g j) /\ (r < limit -> f r <> g r).
Proof.
  intros Hl. unfold memcmplen. pose proof (memcmplen_loop_spec (Z.to_nat (limit - len)) f g len) as H. cbv zeta in *.
  rewrite Z2Nat.id in H by lia. replace (len + (limit - len)) with limit in H by lia. exact H.
Qed.

(** The first difference determines the result. *)
Lemma memcmplen_unique f g len limit r : len <= r <= limit -> (forall j, len <= j < r -> f j = g j) -> (r < limit -> f r <> g r) ->
  memcmplen f g len limit = r.
Proof.
  intros Hr Heq Hne. destruct (memcmplen_spec f g len limit ltac:(lia)) as (H1 & H2 & H3). set (x := memcmplen f g len limit) in *.
  destruct (Z.lt_trichotomy x r) as [Hlt|[->|Hgt]]; [|reflexivity|].
  - exfalso. apply H3; [lia|]. apply Heq. lia.
  - exfalso. apply Hne; [lia|]. apply H2. lia.
Qed.

(** What a comparison of [step] bytes has to tell. *)
Definition compares (compare : (Z -> Z) -> (Z -> Z) -> Z -> option Z) (step : Z) : Prop :=
  forall f g len, (forall i, is_byte (f i)) -> (forall i, is_byte (g i)) ->
    match compare f g len with
    | None => forall j, len <= j < len + step -> f j = g j
    | Some r => len <= r < len + step /\ (forall j, len <= j < r -> f j = g j) /\ f r <> g r
    end.

Lemma memcmplen_wide_spec compare step f g : compares compare step -> 0 < step -> (forall i, is_byte (f i)) -> (forall i, is_byte (g i)) ->
  forall n len limit, limit - len <= Z.of_nat n -> len <= limit -> memcmplen_wide_loop compare step n f g len limit = memcmplen f g len limit.
Proof.
  intros Hc Hs Hf Hg. induction n as [|n IH]; intros len limit Hn Hl; cbn [memcmplen_wide_loop].
  - symmetry. apply memcmplen_unique; lia.
  - destruct (Z.ltb_spec len limit) as [Hlt|Hge]; [|symmetry; apply memcmplen_unique; lia].
    specialize (Hc f g len Hf Hg). destruct (compare f g len) as [r|].
    + destruct Hc as (Hr & Heq & Hne). symmetry. apply memcmplen_unique; [lia|intros j Hj; apply Heq; lia|].
      intros Hm. now rewrite Z.min_l by lia.
    + destruct (Z.leb_spec (len + step) limit).
      * rewrite IH by lia. symmetry. destruct (memcmplen_spec f g (len + step) limit ltac:(lia)) as (H1 & H2 & H3).
        apply memcmplen_unique; [lia| |exact H3]. intros j Hj. destruct (Z.ltb_spec j (len + step)); [apply Hc; lia|apply H2; lia].
      * assert (memcmplen f g len limit = limit) as -> by (apply memcmplen_unique; [lia|intros j Hj; apply Hc; lia|lia]).
        destruct n as [|n]; [reflexivity|]. cbn [memcmplen_wide_loop]. now rewrite (proj2 (Z.ltb_ge _ _)) by lia.
Qed.

(** The lowest set bit. *)
Lemma ctz_spec n m : 0 <= n -> Z.odd m = true -> ctz (2 ^ n * m) = n.
Proof.
  intros Hn Hm. unfold ctz. assert (Z.land (2 ^ n * m) (- (2 ^ n * m)) = 2 ^ n) as ->; [|now rewrite Z.log2_pow2].
  rewrite <- Z.mul_opp_r, !(Z.mul_comm (2 ^ n)), <- !Z.shiftl_mul_pow2 by lia. rewrite <- Z.shiftl_land.
  assert (Z.land m (- m) = 1) as ->; [|now rewrite Z.shiftl_1_l].
  replace (- m) with (Z.lnot m + 1) by (unfold Z.lnot; lia).
  assert (Z.lnot m + 1 = Z.lor (Z.lnot m) 1) as ->.
  { assert (Z.land (Z.lnot m) 1 = 0) as H1; [|now rewrite Z.add_nocarry_lxor, Z.lxor_lor].
    change 1 with (Z.ones 1). rewrite Z.land_ones by lia. change (2 ^ 1) with 2. rewrite Zmod_odd, <- Z.bit0_odd, Z.lnot_spec, Z.bit0_odd, Hm by lia.
    reflexivity. }
  apply Z.bits_inj'. intros i Hi. rewrite Z.land_spec, Z.lor_spec, Z.lnot_spec by lia.
  destruct (Z.eq_dec i 0) as [->|]; [now rewrite !Z.bit0_odd, Hm|].
  change 1 with (2 ^ 0). rewrite Z.pow2_bits_false by lia. now destruct (Z.testbit m i).
Qed.

(** A difference at byte [k] of two numbers of bytes is found from the lowest set bit. *)
Lemma read_le_shift n f i : read_le (S n) f i = f i + 256 * read_le n f (i + 1).
Proof.
  unfold read_le. change (seq 0 (S n)) with (O :: seq 1 n). cbn [fold_right]. rewrite Z.add_0_r, <- seq_shift. do 2 f_equal.
  generalize (seq 0 n). intros l. induction l as [|k l IH]; [reflexivity|]. cbn [map fold_right]. rewrite IH. do 2 f_equal. lia.
Qed.

Lemma read_le_range n f : (forall i, is_byte (f i)) -> forall i, 0 <= read_le n f i < 2 ^ (8 * Z.of_nat n).
Proof.
  intros Hf. induction n as [|n IH]; intros i; [cbn; lia|]. rewrite read_le_shift. specialize (IH (i + 1)). specialize (Hf i).
  replace (8 * Z.of_nat (S n)) with (8 + 8 * Z.of_nat n) by lia. rewrite Z.pow_add_r by lia. change (2 ^ 8) with 256. unfold is_byte in Hf. lia.
Qed.

Lemma odd_part m : 0 < m -> exists n k, 0 <= n /\ m = 2 ^ n * k /\ Z.odd k = true.
Proof.
  induction m as [m IH] using (well_founded_induction (Z.lt_wf 0)). intros Hm. destruct (Z.odd m) eqn:E; [exists 0, m; cbn; split_and!; [lia|lia|exact E]|].
  assert (m mod 2 = 0) as Hm2 by (rewrite Zmod_odd, E; reflexivity).
  destruct (IH (m / 2)) as (n & k & Hn & Hk & Ho); [dlia|dlia|].
  exists (n + 1), k. split_and!; [lia| |exact Ho]. rewrite Z.pow_add_r by lia. pose proof (Z.div_mod m 2). nia.
Qed.

(** Either the numbers are equal, or the lowest set bit of the difference is in
    the first byte that differs. *)
Lemma read_le_difference n f g : (forall i, is_byte (f i)) -> (forall i, is_byte (g i)) -> forall i,
  (read_le n f i = read_le n g i /\ forall j, i <= j < i + Z.of_nat n -> f j = g j) \/
  exists k m, 0 <= k < Z.of_nat n /\ read_le n f i - read_le n g i = 256 ^ k * m /\ m mod 256 <> 0 /\
    (forall j, i <= j < i + k -> f j = g j) /\ f (i + k) <> g (i + k).
Proof.
  intros Hf Hg. induction n as [|n IH]; intros i; [left; split; [reflexivity|lia]|]. rewrite !read_le_shift.
  pose proof (Hf i). pose proof (Hg i). unfold is_byte in *. destruct (Z.eq_dec (f i) (g i)) as [E|E].
  - destruct (IH (i + 1)) as [[He Hj]|(k & m & Hk & He & Hm & Hj & Hne)].
    + left. split; [now rewrite E, He|]. intros j Hr. destruct (Z.eq_dec j i) as [->|]; [exact E|apply Hj; lia].
    + right. exists (k + 1), m. split_and!; [lia|lia| |exact Hm| |].
      * rewrite Z.pow_add_r by lia. change (256 ^ 1) with 256. lia.
      * intros j Hr. destruct (Z.eq_dec j i) as [->|]; [exact E|apply Hj; lia].
      * now replace (i + (k + 1)) with (i + 1 + k) by lia.
  - right. exists 0, (f i - g i + 256 * (read_le n f (i + 1) - read_le n g (i + 1))). rewrite Z.add_0_r. split_and!; [lia..| | |lia|exact E].
    + change (256 ^ 0) with 1. lia.
    + rewrite (Z.mul_comm 256), Z.mod_add by lia. dlia.
Qed.

(** The wrap-around of the subtraction keeps the lowest set bit. *)
Lemma difference_mod w k m : 0 <= k -> 8 * k + 8 <= w -> m mod 256 <> 0 ->
  exists m', (256 ^ k * m) mod 2 ^ w = 256 ^ k * m' /\ m' mod 256 = m mod 256 /\ 0 < m'.
Proof.
  intros Hk Hw Hm. exists (m mod 2 ^ (w - 8 * k)). pose proof (Z.pow_pos_nonneg 2 (w - 8 * k) ltac:(lia) ltac:(lia)).
  pose proof (Z.pow_pos_nonneg 2 (8 * k) ltac:(lia) ltac:(lia)). change 256 with (2 ^ 8) at 1 2. rewrite <- Z.pow_mul_r by lia.
  replace (2 ^ w) with (2 ^ (8 * k) * 2 ^ (w - 8 * k)) by (rewrite <- Z.pow_add_r by lia; f_equal; lia).
  rewrite Z.mul_mod_distr_l by lia. split; [reflexivity|].
  assert ((m mod 2 ^ (w - 8 * k)) mod 256 = m mod 256) as E.
  { symmetry. apply Znumtheory.Zmod_div_mod; [lia|lia|]. exists (2 ^ (w - 8 * k - 8)). change 256 with (2 ^ 8). rewrite <- Z.pow_add_r by lia. f_equal. lia. }
  split; [exact E|]. pose proof (Z.mod_pos_bound m (2 ^ (w - 8 * k)) ltac:(lia)).
  destruct (Z.eq_dec (m mod 2 ^ (w - 8 * k)) 0) as [E0|]; [|lia]. rewrite E0, Z.mod_0_l in E by lia. lia.
Qed.

Lemma ctz_byte k m : 0 <= k -> m mod 256 <> 0 -> 0 < m -> 8 * k <= ctz (256 ^ k * m) < 8 * k + 8.
Proof.
  intros Hk Hm H0. destruct (odd_part m H0) as (n & o & Hn & -> & Ho).
  assert (n < 8). { destruct (Z.ltb_spec n 8); [assumption|]. exfalso. apply Hm. replace n with ((n - 8) + 8) by lia. rewrite Z.pow_add_r by lia.
    replace (2 ^ (n - 8) * 2 ^ 8 * o) with ((2 ^ (n - 8) * o) * 256) by (change (2 ^ 8) with 256; lia). apply Z.mod_mul. lia. }
  replace (256 ^ k * (2 ^ n * o)) with (2 ^ (8 * k + n) * o); [rewrite ctz_spec; [lia|lia|exact Ho]|].
  change 256 with (2 ^ 8). rewrite <- Z.pow_mul_r, Z.pow_add_r by lia. lia.
Qed.

Lemma wrapped_difference w n f g i : (forall i, is_byte (f i)) -> (forall i, is_byte (g i)) -> 8 * Z.of_nat n = w ->
  let x := (read_le n f i - read_le n g i) mod 2 ^ w in
  (x = 0 /\ forall j, i <= j < i + Z.of_nat n -> f j = g j) \/
  exists k m, 0 <= k < Z.of_nat n /\ x = 256 ^ k * m /\ m mod 256 <> 0 /\ 0 < m /\ (forall j, i <= j < i + k -> f j = g j) /\ f (i + k) <> g (i + k).
Proof.
  intros Hf Hg Hw x. unfold x. destruct (read_le_difference n f g Hf Hg i) as [[-> Hj]|(k & m & Hk & -> & Hm & Hj & Hne)].
  - left. split; [|exact Hj]. now rewrite Z.sub_diag.
  - right. destruct (difference_mod w k m ltac:(lia) ltac:(lia) Hm) as (m' & -> & Hmm & Hpos). exists k, m'. split_and!; try assumption; lia.
Qed.

Lemma compares64 : compares compare64 8.
Proof.
  intros f g len Hf Hg. unfold compare64, u64. destruct (wrapped_difference 64 8 f g len Hf Hg eq_refl) as [[Hx Hj]|(k & m & Hk & Hx & Hm & Hp & Hj & Hne)];
    change (2 ^ 64) with 18446744073709551616 in *; rewrite Hx; [exact Hj|].
  pose proof (Z.pow_pos_nonneg 256 k). rewrite (proj2 (Z.eqb_neq _ _)) by nia. cbn [negb]. rewrite Z.shiftr_div_pow2 by lia.
  pose proof (ctz_byte k m ltac:(lia) Hm Hp) as Hc. change (2 ^ 3) with 8. replace (ctz (256 ^ k * m) / 8) with k by dlia.
  split_and!; [lia|lia|exact Hj|exact Hne].
Qed.

Lemma low_lane len k m : 0 <= k < 4 -> m mod 256 <> 0 ->
  (let '(l, x) := if Z.land (256 ^ k * m) 0xFFFF =? 0 then (len + 2, Z.shiftr (256 ^ k * m) 16) else (len, 256 ^ k * m) in
    if Z.land x 0xFF =? 0 then l + 1 else l) = len + k.
Proof.
  intros Hk Hm. change 0xFFFF with (Z.ones 16). change 0xFF with (Z.ones 8). rewrite Z.shiftr_div_pow2, Z.land_ones by lia.
  assert (k = 0 \/ k = 1 \/ k = 2 \/ k = 3) as Hcases by lia.
  destruct Hcases as [-> | [-> | [-> | ->]]];
    [change (256 ^ 0) with 1|change (256 ^ 1) with 256|change (256 ^ 2) with 65536|change (256 ^ 3) with 16777216];
    change (2 ^ 16) with 65536; case Z.eqb_spec; intros E1; rewrite Z.land_ones by lia; change (2 ^ 8) with 256; case Z.eqb_spec; intros E2; dlia.
Qed.

Lemma compares32 : compares compare32 4.
Proof.
  intros f g len Hf Hg. unfold compare32, u32. destruct (wrapped_difference 32 4 f g len Hf Hg eq_refl) as [[Hx Hj]|(k & m & Hk & Hx & Hm & Hp & Hj & Hne)];
    change (2 ^ 32) with 4294967296 in *; rewrite Hx; [exact Hj|].
  rewrite (proj2 (Z.eqb_neq _ _)) by (pose proof (Z.pow_pos_nonneg 256 k); nia). cbn [negb].
  pose proof (low_lane len k m ltac:(lia) Hm) as Hl. destruct (Z.land (256 ^ k * m) 65535 =? 0); rewrite Hl; (split_and!; [lia|lia|exact Hj|exact Hne]).
Qed.

(** The mask has a bit for each equal byte. *)
Lemma movemask_spec n f g : forall i,
  let x := fold_right (fun k acc => Z.b2z (f (i + Z.of_nat k) =? g (i + Z.of_nat k)) + 2 * acc) 0 (seq 0 n) in
  0 <= x < 2 ^ Z.of_nat n /\ forall k, 0 <= k < Z.of_nat n -> Z.testbit x k = (f (i + k) =? g (i + k)).
Proof.
  induction n as [|n IH]; intros i; [split; [cbn; lia|intros k Hk; cbn in Hk; lia]|]. change (seq 0 (S n)) with (O :: seq 1 n). cbn [fold_right]. rewrite <- seq_shift, Z.add_0_r.
  specialize (IH (i + 1)). cbv zeta in *.
  set (x := fold_right _ 0 (seq 0 n)) in IH.
  assert (fold_right (fun k acc => Z.b2z (f (i + Z.of_nat k) =? g (i + Z.of_nat k)) + 2 * acc) 0 (map S (seq 0 n)) = x) as ->.
  { unfold x. generalize (seq 0 n). intros l. induction l as [|k l IHl]; [reflexivity|]. cbn [map fold_right]. rewrite IHl.
    replace (i + Z.of_nat (S k)) with (i + 1 + Z.of_nat k) by lia. reflexivity. }
  destruct IH as [Hr Hb]. replace (Z.of_nat (S n)) with (1 + Z.of_nat n) by lia. rewrite Z.pow_add_r by lia. change (2 ^ 1) with 2.
  split; [destruct (f i =? g i); cbn [Z.b2z]; lia|]. intros k Hk. rewrite Z.add_comm.
  destruct (Z.eq_dec k 0) as [->|].
  - rewrite Z.testbit_0_r. now rewrite Z.add_0_r.
  - replace k with (Z.succ (k - 1)) at 1 by lia. rewrite Z.testbit_succ_r by lia. rewrite Hb by lia. now replace (i + 1 + (k - 1)) with (i + k) by lia.
Qed.

Lemma compares_sse2 : compares compare_sse2 16.
Proof.
  intros f g len Hf Hg. unfold compare_sse2, movemask. pose proof (movemask_spec 16 f g len) as Hs. cbv zeta in Hs. destruct Hs as [Hr Hb].
  change (Z.of_nat 16) with 16 in *.
  set (x := fold_right _ 0 _) in *. clearbody x.
  assert (Hbit : forall k, 0 <= k -> Z.testbit (Z.lxor 0xFFFF x) k = (k <? 16) && negb (f (len + k) =? g (len + k))).
  { intros k Hk. rewrite Z.lxor_spec. change 0xFFFF with (Z.ones 16). destruct (Z.ltb_spec k 16).
    - rewrite Z.ones_spec_low, Hb by lia. reflexivity.
    - rewrite Z.ones_spec_high by lia. cbn. apply (Z.bits_above_log2); [lia|]. destruct (Z.eq_dec x 0) as [->|]; [cbn; lia|].
      apply Z.log2_lt_pow2; [lia|]. pose proof (Z.pow_le_mono_r 2 16 k). lia. }
  set (y := Z.lxor 65535 x) in *.
  assert (0 <= y) as Hy by (apply Z.lxor_nonneg; lia).
  destruct (Z.eqb_spec y 0) as [E|E]; cbn [negb].
  - intros j Hj. specialize (Hbit (j - len) ltac:(lia)). rewrite E, Z.bits_0 in Hbit. replace (len + (j - len)) with j in Hbit by lia.
    rewrite (proj2 (Z.ltb_lt _ _)) in Hbit by lia. destruct (Z.eqb_spec (f j) (g j)); [assumption|discriminate].
  - destruct (odd_part y ltac:(lia)) as (n & o & Hn & Ho & Hodd). rewrite Ho, ctz_spec by assumption.
    assert (forall k, 0 <= k < n -> Z.testbit y k = false) as Hlow by (intros k Hk; rewrite Ho, Z.mul_comm; apply Z.mul_pow2_bits_low; lia).
    assert (Z.testbit y n = true) as Hat by (rewrite Ho, Z.mul_comm, Z.mul_pow2_bits, Z.sub_diag, Z.bit0_odd by lia; exact Hodd).
    rewrite Hbit in Hat by lia. apply andb_true_iff in Hat. destruct Hat as [Hlt Hne]. apply Z.ltb_lt in Hlt.
    split_and!; [lia|lia| |now destruct (Z.eqb_spec (f (len + n)) (g (len + n)))].
    intros j Hj. specialize (Hlow (j - len) ltac:(lia)). rewrite Hbit in Hlow by lia. replace (len + (j - len)) with j in Hlow by lia.
    rewrite (proj2 (Z.ltb_lt _ _)) in Hlow by lia. destruct (Z.eqb_spec (f j) (g j)); [assumption|discriminate].
Qed.

(** ** What the match finders leave alone

    Every match finder steps over one byte and changes only its own tables. *)

Definition input_kept mf mf' : Prop :=
  (buffer mf', mf_size mf', keep_size_before mf', keep_size_after mf', read_ahead mf', read_limit mf', write_pos mf') =
    (buffer mf, mf_size mf, keep_size_before mf, keep_size_after mf, read_ahead mf, read_limit mf, write_pos mf) /\
  (kind mf', cyclic_size mf', hash_mask mf', mf_depth mf', mf_nice_len mf', match_len_max mf', mf_action mf') =
    (kind mf, cyclic_size mf, hash_mask mf, mf_depth mf, mf_nice_len mf, match_len_max mf, mf_action mf).

Definition advanced mf mf' : Prop := input_kept mf mf' /\ read_pos mf' = u32 (read_pos mf + 1).

Lemma move_pos_advanced mf s : advanced mf (move_pos (set_son mf s)).
Proof. unfold move_pos. destruct (mf_pos _ =? UINT32_MAX); repeat split. Qed.

Lemma move_pending_advanced mf : advanced mf (move_pending mf).
Proof. repeat split. Qed.

Lemma hc_find_advanced mf a b c d e f : advanced mf (hc_find mf a b c d e f).1.
Proof. apply move_pos_advanced. Qed.

Lemma hc_skip_advanced mf a : advanced mf (hc_skip mf a).
Proof. apply move_pos_advanced. Qed.

Lemma bt_find_advanced mf a b c d e f : advanced mf (bt_find mf a b c d e f).1.
Proof. unfold bt_find. destruct (bt_run _ _ _ _ _ _ _). apply move_pos_advanced. Qed.

Lemma bt_skip_advanced mf a b c d : advanced mf (bt_skip mf a b c d).
Proof. apply move_pos_advanced. Qed.

Create HintDb advance.
#[export] Hint Resolve move_pos_advanced move_pending_advanced hc_find_advanced hc_skip_advanced bt_find_advanced bt_skip_advanced : advance.

Lemma find_advanced mf : advanced mf (find mf).1.
Proof.
  unfold find. destruct (kind mf).
  all: unfold lzma_mf_hc3_find, lzma_mf_hc4_find, lzma_mf_bt2_find, lzma_mf_bt3_find, lzma_mf_bt4_find; cbv zeta.
  all: repeat (case_match; cbn [fst]); auto with advance.
  all: match goal with
    | |- advanced ?m (hc_find _ ?a ?b ?c ?d ?e ?f).1 => exact (hc_find_advanced (set_hash m _) a b c d e f)
    | |- advanced ?m (hc_skip _ ?a) => exact (hc_skip_advanced (set_hash m _) a)
    | |- advanced ?m (bt_find _ ?a ?b ?c ?d ?e ?f).1 => exact (bt_find_advanced (set_hash m _) a b c d e f)
    | |- advanced ?m (bt_skip _ ?a ?b ?c ?d) => exact (bt_skip_advanced (set_hash m _) a b c d)
    end.
Qed.

Lemma skip_byte_advanced mf : advanced mf (skip_byte mf).
Proof.
  unfold skip_byte. destruct (kind mf).
  all: unfold hc3_skip_byte, hc4_skip_byte, bt2_skip_byte, bt3_skip_byte, bt4_skip_byte; cbv zeta.
  all: case_match; auto with advance.
  all: match goal with
    | |- advanced ?m (hc_skip _ ?a) => exact (hc_skip_advanced (set_hash m _) a)
    | |- advanced ?m (bt_skip _ ?a ?b ?c ?d) => exact (bt_skip_advanced (set_hash m _) a b c d)
    end.
Qed.

(** Bytes of the buffer. *)
Lemma byte_is_byte mf i : bytes_ok (buffer mf) -> is_byte (byte mf i).
Proof. intros Hb. now apply byte_at_ok. Qed.

(** ** The hash chains

    [hashed] is the place in the buffer of the next byte to hash, [base] the
    number under which it will be stored. *)

Definition hashed mf : Z := read_pos mf - pending mf.
Definition base mf : Z := u32 (hashed mf + mf_offset mf).

(** An entry of a table is older than [base], and it is in the buffer when it is
    not too far away to be used. *)
Definition entry_ok mf (v : Z) : Prop := 0 <= v < base mf /\ (base mf - v < cyclic_size mf -> base mf - v <= hashed mf).

(** What the index in [hash] says of the bytes at the entry. *)
Definition hash_ok mf (i v : Z) : Prop :=
  entry_ok mf v /\
  (base mf - v < cyclic_size mf -> let q := hashed mf - (base mf - v) in
    q + mf_get_hash_bytes (kind mf) <= write_pos mf /\ (i < FIX_3_HASH_SIZE -> hash_2_value mf q = i) /\
    (kind mf = LZMA_MF_HC4 -> FIX_3_HASH_SIZE <= i < FIX_4_HASH_SIZE -> FIX_3_HASH_SIZE + hash_3_value mf q = i)).

(** The parameters, and where the input ends. *)
Record mf_shape mf : Prop := {
  shape_window : 0 <= pending mf /\ pending mf <= read_pos mf /\ read_pos mf <= write_pos mf /\ write_pos mf <= zlen (buffer mf) /\ write_pos mf < 4294967295;
  shape_bytes : bytes_ok (buffer mf);
  shape_nice : mf_get_hash_bytes (kind mf) <= mf_nice_len mf <= match_len_max mf;
  shape_kind : is_bt (kind mf) = false;
  shape_cyclic : 0 <= cyclic_pos mf < cyclic_size mf /\ cyclic_size mf < 2147483648;
  shape_mask : 0 <= hash_mask mf;
}.

Record hc_tables (top : Z) mf : Prop := {
  tab_base : cyclic_size mf <= base mf <= top;
  tab_hash : forall i, hash_ok mf i (hash_at mf i);
  tab_son : forall d, 1 <= d < cyclic_size mf -> d <= hashed mf -> entry_ok mf (son_at (son mf) (son_index mf d));
}.

(** The invariant of the match finders with hash chains. *)
Definition hc_inv mf : Prop := mf_shape mf /\ hc_tables (UINT32_MAX - 1) mf.

Lemma son_index_spec mf d : 0 <= cyclic_pos mf < cyclic_size mf -> cyclic_size mf < 2147483648 -> 0 <= d < cyclic_size mf ->
  son_index mf d = if d >? cyclic_pos mf then cyclic_pos mf - d + cyclic_size mf else cyclic_pos mf - d.
Proof. intros Hc Hs Hd. unfold son_index. destruct (Z.gtb_spec d (cyclic_pos mf)); rewrite u32_small by (unfold is_u32; lia); lia. Qed.

Lemma delta_spec mf v : base mf <= UINT32_MAX -> entry_ok mf v -> u32 (base mf - v) = base mf - v /\ 0 < base mf - v.
Proof. intros Hb [Hv _]. unfold UINT32_MAX in *. split; [apply u32_small; unfold is_u32|]; lia. Qed.

(** *** Normalization *)

Lemma normalize_entry c v : 0 <= v < UINT32_MAX -> 0 < c < 2147483648 -> let v' := normalize_value (UINT32_MAX - c) v in
  0 <= v' < c /\ (c - v' < c -> c - v' = UINT32_MAX - v).
Proof.
  intros Hv Hc. unfold normalize_value, EMPTY_HASH_VALUE, UINT32_MAX in *. destruct (Z.leb_spec v (4294967295 - c)); cbn zeta; lia.
Qed.

Lemma normalize_tables mf : mf_shape mf -> pending mf = 0 -> base mf = UINT32_MAX -> hc_tables UINT32_MAX mf -> hc_tables (UINT32_MAX - 1) (normalize mf).
Proof.
  intros [(H0 & H1 & H2 & H3 & H4) _ _ _ [Hc Hcs] _] Hp Hbase [_ Hh Hs].
  assert (base (normalize mf) = cyclic_size mf) as Eb.
  { unfold base, hashed, normalize, MUST_NORMALIZE_POS in *. cbn [mf_offset read_pos pending set_offset_ set_son set_hash]. rewrite Hp, !Z.sub_0_r in *.
    revert Hbase. unfold u32, UINT32_MAX. intros. dlia. }
  assert (hashed (normalize mf) = hashed mf) as Eh by reflexivity.
  assert (u32 (MUST_NORMALIZE_POS - cyclic_size mf) = UINT32_MAX - cyclic_size mf) as Esub by (apply u32_small; unfold is_u32, MUST_NORMALIZE_POS, UINT32_MAX; lia).
  assert (Hent : forall (m : gmap Z Z) i, entry_ok mf (default 0 (m !! i)) -> let v' := default 0 ((normalize_value (UINT32_MAX - cyclic_size mf) <$> m) !! i) in
    entry_ok (normalize mf) v' /\ (cyclic_size mf - v' < cyclic_size mf -> cyclic_size mf - v' = UINT32_MAX - default 0 (m !! i))).
  { intros m i [Hv Hn]. rewrite Hbase in Hv, Hn. cbv zeta. rewrite lookup_fmap. unfold entry_ok. rewrite Eb, Eh. change (cyclic_size (normalize mf)) with (cyclic_size mf).
    destruct (m !! i) as [x|]; cbn [default fmap option_fmap option_map from_option id] in *; [|lia].
    destruct (normalize_entry (cyclic_size mf) x) as [Ha Hb']; [lia..|]. split; [|exact Hb']. split; [exact Ha|].
    intros Hlt. rewrite Hb' by exact Hlt. apply Hn. rewrite <- Hb'; lia. }
  constructor.
  - rewrite Eb. change (cyclic_size (normalize mf)) with (cyclic_size mf). unfold UINT32_MAX. lia.
  - intros i. destruct (Hh i) as [Hv Hq]. unfold hash_at in *. change (hash (normalize mf)) with (normalize_value (u32 (MUST_NORMALIZE_POS - cyclic_size mf)) <$> hash mf).
    rewrite Esub. destruct (Hent (hash mf) i Hv) as [He Hd]. split; [exact He|]. rewrite Eb, Eh. change (cyclic_size (normalize mf)) with (cyclic_size mf).
    intros Hlt. specialize (Hd Hlt). rewrite Hd, <- Hbase. apply Hq. rewrite Hbase. lia.
  - intros d Hd Hr. unfold son_at. change (son (normalize mf)) with (normalize_value (u32 (MUST_NORMALIZE_POS - cyclic_size mf)) <$> son mf).
    rewrite Esub. apply Hent. apply Hs; assumption.
Qed.

(** *** One step *)

(** [move_pos] before the normalization. *)
Definition stepped mf : lzma_mf :=
  set_read_pos (set_cyclic_pos mf (if u32 (cyclic_pos mf + 1) =? cyclic_size mf then 0 else u32 (cyclic_pos mf + 1))) (u32 (read_pos mf + 1)).

Lemma move_pos_stepped mf : move_pos mf = if mf_pos (stepped mf) =? UINT32_MAX then normalize (stepped mf) else stepped mf.
Proof. reflexivity. Qed.

Lemma entry_step mf v : entry_ok mf v -> base (stepped mf) = base mf + 1 -> hashed (stepped mf) = hashed mf + 1 -> entry_ok (stepped mf) v.
Proof. intros [Hv Hd] Eb Eh. unfold entry_ok. rewrite Eb, Eh. change (cyclic_size (stepped mf)) with (cyclic_size mf). lia. Qed.

Lemma stepped_numbers mf : mf_shape mf -> hc_tables (UINT32_MAX - 1) mf -> pending mf = 0 -> read_pos mf < write_pos mf ->
  read_pos (stepped mf) = read_pos mf + 1 /\ hashed (stepped mf) = hashed mf + 1 /\ base (stepped mf) = base mf + 1 /\
  cyclic_pos (stepped mf) = (if cyclic_pos mf + 1 =? cyclic_size mf then 0 else cyclic_pos mf + 1).
Proof.
  intros [Hw _ _ _ Hc _] [Hb _ _] Hp Hr. assert (u32 (read_pos mf + 1) = read_pos mf + 1) as Er by (apply u32_small; unfold is_u32; lia).
  unfold base, hashed, stepped in *. cbn [read_pos pending mf_offset set_read_pos set_cyclic_pos cyclic_pos]. rewrite Er, Hp in *. rewrite Z.sub_0_r in *.
  split_and!; [reflexivity|lia| |].
  - unfold u32, UINT32_MAX in *. dlia.
  - now rewrite (u32_small (cyclic_pos mf + 1)) by (unfold is_u32; lia).
Qed.

(** The delta of the next position. *)
Lemma son_index_stepped mf d : mf_shape mf -> 1 <= d < cyclic_size mf ->
  cyclic_pos (stepped mf) = (if cyclic_pos mf + 1 =? cyclic_size mf then 0 else cyclic_pos mf + 1) ->
  son_index (stepped mf) d = son_index mf (d - 1) /\ (son_index mf (d - 1) = cyclic_pos mf -> d = 1).
Proof.
  intros [_ _ _ _ [Hc Hs] _] Hd E.
  assert (0 <= cyclic_pos (stepped mf) < cyclic_size mf) as Hc' by (rewrite E; destruct (Z.eqb_spec (cyclic_pos mf + 1) (cyclic_size mf)); lia).
  rewrite !son_index_spec by (try exact Hc'; change (cyclic_size (stepped mf)) with (cyclic_size mf); lia). rewrite E. change (cyclic_size (stepped mf)) with (cyclic_size mf).
  destruct (Z.eqb_spec (cyclic_pos mf + 1) (cyclic_size mf)); repeat match goal with |- context [?a >? ?b] => destruct (Z.gtb_spec a b) end; lia.
Qed.

(** The new entries of the hash table stand for the bytes at [read_pos]. *)
Definition hashes_next mf (h : gmap Z Z) : Prop :=
  forall i, default 0 (h !! i) = hash_at mf i \/
    (default 0 (h !! i) = base mf /\ (i < FIX_3_HASH_SIZE -> hash_2_value mf (read_pos mf) = i) /\
     (kind mf = LZMA_MF_HC4 -> FIX_3_HASH_SIZE <= i < FIX_4_HASH_SIZE -> FIX_3_HASH_SIZE + hash_3_value mf (read_pos mf) = i)).

Lemma stepped_tables mf h v : mf_shape mf -> hc_tables (UINT32_MAX - 1) mf -> pending mf = 0 ->
  read_pos mf + mf_get_hash_bytes (kind mf) <= write_pos mf -> hashes_next mf h -> entry_ok mf v ->
  hc_tables UINT32_MAX (stepped (link (set_hash mf h) v)).
Proof.
  intros Hsh Ht Hp Hr Hh Hv. assert (read_pos mf < write_pos mf) as Hlt by (destruct (kind mf); cbn in Hr; lia).
  destruct (stepped_numbers mf Hsh Ht Hp Hlt) as (_ & Eh & Eb & Ec). pose proof Hsh as [Hw _ _ _ [Hcy Hcs] _]. set (mf' := stepped (link (set_hash mf h) v)).
  assert (base mf' = base mf + 1 /\ hashed mf' = hashed mf + 1 /\ cyclic_pos mf' = cyclic_pos (stepped mf)) as (Eb' & Eh' & Ec') by (split_and!; assumption || reflexivity).
  assert (hashed mf = read_pos mf) as Ehr by (unfold hashed; lia).
  assert (forall x, entry_ok mf x -> entry_ok mf' x) as Hent by (intros x Hx; exact (entry_step mf x Hx Eb Eh)).
  destruct Ht as [Hb Hht Hs]. constructor.
  - rewrite Eb'. change (cyclic_size mf') with (cyclic_size mf). unfold UINT32_MAX in *. lia.
  - intros i. change (hash_at mf' i) with (default 0 (h !! i)). destruct (Hh i) as [-> | (-> & H2 & H3)].
    + destruct (Hht i) as [He Hq]. split; [now apply Hent|]. rewrite Eb', Eh'. change (cyclic_size mf') with (cyclic_size mf). intros Hx.
      replace (hashed mf + 1 - (base mf + 1 - hash_at mf i)) with (hashed mf - (base mf - hash_at mf i)) by lia. apply Hq. lia.
    + split; [|rewrite Eb', Eh'; intros _].
      * unfold entry_ok. rewrite Eb', Eh'. lia.
      * replace (hashed mf + 1 - (base mf + 1 - base mf)) with (read_pos mf) by lia. split_and!; [exact Hr|exact H2|exact H3].
  - intros d Hd Hdh. change (cyclic_size mf') with (cyclic_size mf) in Hd. rewrite Eh' in Hdh. apply Hent.
    change (son mf') with (<[cyclic_pos mf := v]> (son mf)). change (son_index mf' d) with (son_index (stepped mf) d).
    destruct (son_index_stepped mf d Hsh Hd Ec) as [-> Hone]. unfold son_at. destruct (Z.eq_dec (son_index mf (d - 1)) (cyclic_pos mf)) as [E|E].
    + rewrite E, lookup_insert_eq. exact Hv.
    + rewrite lookup_insert_ne by congruence. apply Hs; [|lia]. destruct (Z.eq_dec d 1) as [->|]; [|lia]. exfalso. apply E.
      destruct Hsh as [_ _ _ _ [Hc Hs'] _]. rewrite son_index_spec by lia. rewrite Z.sub_0_r. destruct (Z.gtb_spec (1 - 1) (cyclic_pos mf)); lia.
Qed.

Lemma below_top mf : hc_tables UINT32_MAX mf -> base mf <> UINT32_MAX -> hc_tables (UINT32_MAX - 1) mf.
Proof. intros [Hb Hh Hs] Hne. constructor; [lia|exact Hh|exact Hs]. Qed.

Lemma move_pos_inv mf h v : hc_inv mf -> pending mf = 0 -> read_pos mf + mf_get_hash_bytes (kind mf) <= write_pos mf ->
  hashes_next mf h -> entry_ok mf v -> hc_inv (move_pos (link (set_hash mf h) v)).
Proof.
  intros [Hsh Ht] Hp Hr Hh Hv. pose proof (stepped_tables mf h v Hsh Ht Hp Hr Hh Hv) as Hst. set (mf' := link (set_hash mf h) v) in *.
  assert (read_pos mf < write_pos mf) as Hlt by (destruct (kind mf); cbn in Hr; lia).
  destruct (stepped_numbers mf Hsh Ht Hp Hlt) as (Er & _ & _ & Ec).
  assert (mf_shape (stepped mf')) as Hsh'.
  { pose proof Hsh as [Hw Hb Hn Hk [Hc Hs] Hm]. constructor; [|exact Hb|exact Hn|exact Hk| |exact Hm].
    - change (pending (stepped mf')) with (pending mf). change (read_pos (stepped mf')) with (read_pos (stepped mf)). rewrite Er.
      change (write_pos (stepped mf')) with (write_pos mf). change (buffer (stepped mf')) with (buffer mf). lia.
    - change (cyclic_pos (stepped mf')) with (cyclic_pos (stepped mf)). change (cyclic_size (stepped mf')) with (cyclic_size mf). rewrite Ec.
      destruct (Z.eqb_spec (cyclic_pos mf + 1) (cyclic_size mf)); lia. }
  assert (mf_pos (stepped mf') = base (stepped mf')) as Eb.
  { unfold mf_pos, base, hashed. change (pending (stepped mf')) with (pending mf). now rewrite Hp, Z.sub_0_r. }
  rewrite move_pos_stepped, Eb. destruct (Z.eqb_spec (base (stepped mf')) UINT32_MAX) as [E|E].
  - split; [destruct Hsh' as [Ha Hb Hn Hk Hc Hm]; exact (Build_mf_shape (normalize (stepped mf')) Ha Hb Hn Hk Hc Hm)|]. now apply normalize_tables.
  - split; [exact Hsh'|]. now apply below_top.
Qed.

Lemma move_pending_inv mf : hc_inv mf -> read_pos mf < write_pos mf -> hc_inv (move_pending mf).
Proof.
  intros [Hsh [Hb Hh Hs]] Hr. pose proof Hsh as [Hw Hby Hn Hk Hc Hm].
  assert (read_pos (move_pending mf) = read_pos mf + 1 /\ pending (move_pending mf) = pending mf + 1) as [Er Ep].
  { cbn [move_pending read_pos pending set_pending set_read_pos]. split; apply u32_small; unfold is_u32; lia. }
  assert (hashed (move_pending mf) = hashed mf) as Eh by (unfold hashed; lia).
  assert (base (move_pending mf) = base mf) as Eb by (unfold base; now rewrite Eh).
  split; [constructor; auto; rewrite Er, Ep; change (write_pos (move_pending mf)) with (write_pos mf); change (buffer (move_pending mf)) with (buffer mf); lia|].
  constructor.
  - now rewrite Eb.
  - intros i. specialize (Hh i). unfold hash_ok, entry_ok in *. rewrite Eb, Eh. exact Hh.
  - intros d Hd. rewrite Eh. intros Hdh. specialize (Hs d Hd Hdh). unfold entry_ok in *. rewrite Eb, Eh. exact Hs.
Qed.

(** *** What equal hashes say of the bytes *)

Lemma xor_mask_inj n t x y : 0 <= x < 2 ^ n -> 0 <= y < 2 ^ n -> 0 <= n ->
  Z.land (Z.lxor t x) (Z.ones n) = Z.land (Z.lxor t y) (Z.ones n) -> x = y.
Proof.
  intros Hx Hy Hn E. rewrite <- (Z.mod_small x (2 ^ n)), <- (Z.mod_small y (2 ^ n)), <- !Z.land_ones by lia.
  apply Z.bits_inj'. intros i Hi. assert (Z.testbit (Z.land (Z.lxor t x) (Z.ones n)) i = Z.testbit (Z.land (Z.lxor t y) (Z.ones n)) i) as Eb by now rewrite E.
  rewrite !Z.land_spec, !Z.lxor_spec in *. destruct (Z.testbit (Z.ones n) i), (Z.testbit t i), (Z.testbit x i), (Z.testbit y i); try reflexivity; discriminate.
Qed.

Lemma hash_2_inj mf q c : bytes_ok (buffer mf) -> byte mf q = byte mf c -> hash_2_value mf q = hash_2_value mf c -> byte mf (q + 1) = byte mf (c + 1).
Proof.
  intros Hb E Eh. unfold hash_2_value, hash_temp in Eh. rewrite E in Eh. change HASH_2_MASK with (Z.ones 10) in Eh.
  pose proof (byte_is_byte mf (q + 1) Hb). pose proof (byte_is_byte mf (c + 1) Hb). unfold is_byte in *.
  eapply xor_mask_inj; [..|exact Eh]; [split; [lia|change (2 ^ 10) with 1024; lia]..|lia].
Qed.

Lemma two_bytes a b : is_byte a -> is_byte b -> Z.lxor a (u32 (Z.shiftl b 8)) = a + 256 * b.
Proof.
  unfold is_byte. intros Ha Hb. rewrite Z.shiftl_mul_pow2 by lia. change (2 ^ 8) with 256. rewrite u32_small by (unfold is_u32; lia).
  rewrite <- Z.add_nocarry_lxor; [lia|]. apply Z.bits_inj'. intros i Hi. rewrite Z.land_spec, Z.bits_0. change 256 with (2 ^ 8).
  destruct (Z.ltb_spec i 8); [rewrite (Z.mul_pow2_bits_low b 8 i) by lia; apply andb_false_r|].
  assert (Z.testbit a i = false) as ->; [|reflexivity]. destruct (Z.eq_dec a 0) as [->|]; [apply Z.bits_0|].
  apply Z.bits_above_log2; [lia|]. apply Z.log2_lt_pow2; [lia|]. pose proof (Z.pow_le_mono_r 2 8 i). change (2 ^ 8) with 256 in *. lia.
Qed.

Lemma hash_3_inj mf q c : bytes_ok (buffer mf) -> byte mf q = byte mf c -> hash_3_value mf q = hash_3_value mf c ->
  byte mf (q + 1) = byte mf (c + 1) /\ byte mf (q + 2) = byte mf (c + 2).
Proof.
  intros Hb E Eh. unfold hash_3_value, hash_3_temp, hash_temp in Eh. rewrite E, !Z.lxor_assoc in Eh. change HASH_3_MASK with (Z.ones 16) in Eh.
  pose proof (byte_is_byte mf (q + 1) Hb). pose proof (byte_is_byte mf (c + 1) Hb). pose proof (byte_is_byte mf (q + 2) Hb). pose proof (byte_is_byte mf (c + 2) Hb).
  rewrite !two_bytes in Eh by assumption. unfold is_byte in *.
  apply xor_mask_inj in Eh; [lia| | |lia]; change (2 ^ 16) with 65536; lia.
Qed.

(** *** Matches *)

(** The match is an occurrence, in the buffer and in the dictionary, of the
    [m_len m] bytes at [cur]. *)
Definition occurs mf (cur limit : Z) (m : lzma_match) : Prop :=
  2 <= m_len m <= limit /\ 0 <= m_dist m /\ m_dist m + 1 <= cur /\ m_dist m + 1 < cyclic_size mf /\
  forall j, 0 <= j < m_len m -> byte mf (cur - (m_dist m + 1) + j) = byte mf (cur + j).

Definition sons_ok mf : Prop := forall d, 1 <= d < cyclic_size mf -> d <= hashed mf -> entry_ok mf (son_at (son mf) (son_index mf d)).

Lemma link_sons mf v : mf_shape mf -> sons_ok mf -> sons_ok (link mf v).
Proof.
  intros [_ _ _ _ [Hc Hs] _] Hok d Hd Hr. specialize (Hok d Hd Hr). unfold son_at in *. change (son (link mf v)) with (<[cyclic_pos mf := v]> (son mf)).
  change (son_index (link mf v) d) with (son_index mf d). rewrite lookup_insert_ne; [exact Hok|]. change (cyclic_size (link mf v)) with (cyclic_size mf) in Hd.
  rewrite son_index_spec by lia. destruct (Z.gtb_spec d (cyclic_pos mf)); lia.
Qed.

Lemma memcmplen_occurs mf cur limit d len : 1 <= d <= cur -> d < cyclic_size mf -> 0 <= len <= limit -> 2 <= lzma_memcmplen mf (cur - d) cur len limit ->
  (forall j, 0 <= j < len -> byte mf (cur - d + j) = byte mf (cur + j)) ->
  occurs mf cur limit (mk_match (lzma_memcmplen mf (cur - d) cur len limit) (d - 1)).
Proof.
  intros Hd Hcs Hl H2 Heq. unfold lzma_memcmplen in *. pose proof (memcmplen_spec (fun i => byte mf (cur - d + i)) (fun i => byte mf (cur + i)) len limit ltac:(lia)) as Hm.
  cbv zeta in Hm. destruct Hm as (H3 & H4 & _). unfold occurs. cbn [m_len m_dist]. replace (d - 1 + 1) with d by lia. split_and!; [lia..|].
  intros j Hj. destruct (Z.ltb_spec j len); [apply Heq; lia|apply H4; lia].
Qed.

Lemma hc_loop_occurs mf len_limit depth : forall cur_match len_best, base mf <= UINT32_MAX -> sons_ok mf -> pending mf = 0 -> entry_ok mf cur_match ->
  1 <= len_best -> 1 <= len_limit -> Forall (occurs mf (read_pos mf) len_limit) (hc_loop depth mf len_limit (base mf) (read_pos mf) cur_match len_best).
Proof.
  induction depth as [|depth IH]; intros cm lb Ht Hs Hp Hcm Hlb Hll; cbn [hc_loop]; [apply List.Forall_nil|].
  destruct (delta_spec mf cm Ht Hcm) as [-> Hpos]. rewrite Z.geb_leb. destruct (Z.leb_spec (cyclic_size mf) (base mf - cm)); [apply List.Forall_nil|].
  destruct Hcm as [Hv Hd]. specialize (Hd ltac:(lia)). unfold hashed in Hd. rewrite Hp, Z.sub_0_r in Hd. set (d := base mf - cm) in *.
  assert (entry_ok mf (son_at (son mf) (son_index mf d))) as Hnext by (apply Hs; unfold hashed; lia).
  destruct (Z.eqb_spec (byte mf (read_pos mf - d + lb)) (byte mf (read_pos mf + lb))); cbn [andb]; [|now apply IH].
  destruct (Z.eqb_spec (byte mf (read_pos mf - d)) (byte mf (read_pos mf))) as [E0|]; [|now apply IH].
  destruct (Z.ltb_spec lb (lzma_memcmplen mf (read_pos mf - d) (read_pos mf) 1 len_limit)); [|now apply IH].
  apply List.Forall_cons.
  - apply memcmplen_occurs; [lia..|]. intros j Hj. replace j with 0 by lia. now rewrite !Z.add_0_r.
  - destruct (_ =? len_limit); [apply List.Forall_nil|]. apply IH; auto. lia.
Qed.

(** *** [find] and [skip] *)

(** Bytes that were not hashed are left over only when there is little input. *)
Definition hc_ready mf : Prop := hc_inv mf /\ (pending mf = 0 \/ pending mf + (write_pos mf - read_pos mf) < mf_get_hash_bytes (kind mf)).

Lemma avail_spec mf : mf_shape mf -> mf_avail mf = write_pos mf - read_pos mf.
Proof. intros [Hw _ _ _ _ _]. apply u32_small. unfold is_u32. lia. Qed.

Lemma header_spec mf : hc_ready mf ->
  match header false (mf_get_hash_bytes (kind mf)) mf with
  | Some limit => pending mf = 0 /\ mf_get_hash_bytes (kind mf) <= limit <= write_pos mf - read_pos mf /\ limit <= mf_nice_len mf
  | None => write_pos mf - read_pos mf < mf_get_hash_bytes (kind mf)
  end.
Proof.
  intros [[Hsh _] Hp]. pose proof (shape_nice mf Hsh) as Hn. pose proof (shape_window mf Hsh) as Hw. unfold header. rewrite (avail_spec mf Hsh). cbn [andb]. rewrite orb_false_r.
  destruct (Z.leb_spec (mf_nice_len mf) (write_pos mf - read_pos mf)); [lia|].
  destruct (Z.ltb_spec (write_pos mf - read_pos mf) (mf_get_hash_bytes (kind mf))); lia.
Qed.

Lemma hash_table_nonneg b : 0 <= hash_table b.
Proof.
  unfold hash_table. assert (forallb (Z.leb 0) lzma_crc32_table_0 = true) as H by (vm_compute; reflexivity).
  rewrite forallb_forall in H. destruct (nth_in_or_default (Z.to_nat b) lzma_crc32_table_0 0) as [Hin| ->]; [|lia]. apply Z.leb_le. auto.
Qed.

Lemma hash_temp_nonneg mf c : bytes_ok (buffer mf) -> 0 <= hash_temp mf c.
Proof. intros Hb. apply Z.lxor_nonneg. pose proof (hash_table_nonneg (byte mf c)). pose proof (byte_is_byte mf (c + 1) Hb). unfold is_byte in *. lia. Qed.

Lemma hash_3_temp_nonneg mf c : bytes_ok (buffer mf) -> 0 <= hash_3_temp mf c.
Proof. intros Hb. apply Z.lxor_nonneg. pose proof (hash_temp_nonneg mf c Hb). pose proof (u32_range (Z.shiftl (byte mf (c + 2)) 8)). unfold is_u32 in *. lia. Qed.

Lemma mask_range x n : 0 <= n -> 0 <= Z.land x (Z.shiftl 1 n - 1) < 2 ^ n.
Proof. intros Hn. replace (Z.shiftl 1 n - 1) with (Z.ones n) by (unfold Z.ones; lia). rewrite Z.land_ones by lia. apply Z.mod_pos_bound. lia. Qed.

Lemma hash_2_range mf c : 0 <= hash_2_value mf c < FIX_3_HASH_SIZE.
Proof. exact (mask_range (hash_temp mf c) 10 ltac:(lia)). Qed.

Lemma hash_3_range mf c : 0 <= hash_3_value mf c < FIX_4_HASH_SIZE - FIX_3_HASH_SIZE.
Proof. exact (mask_range (hash_3_temp mf c) 16 ltac:(lia)). Qed.

Lemma hash_value_3_nonneg mf c : 0 <= hash_mask mf -> 0 <= hash_value_3 mf c.
Proof. intros Hm. unfold hash_value_3. rewrite Z.land_nonneg. lia. Qed.

Lemma hash_value_4_nonneg mf c : 0 <= hash_mask mf -> 0 <= hash_value_4 mf c.
Proof. intros Hm. unfold hash_value_4. rewrite Z.land_nonneg. lia. Qed.

Lemma hashes_next_refl mf : hashes_next mf (hash mf).
Proof. intros i. now left. Qed.

Lemma hashes_next_put mf h i : hashes_next mf h -> (i < FIX_3_HASH_SIZE -> hash_2_value mf (read_pos mf) = i) ->
  (kind mf = LZMA_MF_HC4 -> FIX_3_HASH_SIZE <= i < FIX_4_HASH_SIZE -> FIX_3_HASH_SIZE + hash_3_value mf (read_pos mf) = i) ->
  hashes_next mf (<[i := base mf]> h).
Proof.
  intros Hh H2 H3 k. destruct (Z.eq_dec i k) as [<-|Hne]; [rewrite lookup_insert_eq; right; auto|]. rewrite lookup_insert_ne by exact Hne. apply Hh.
Qed.

Lemma hc3_puts mf : mf_shape mf -> kind mf = LZMA_MF_HC3 ->
  hashes_next mf (hash (put_hash (put_hash mf (hash_2_value mf (read_pos mf)) (base mf)) (FIX_3_HASH_SIZE + hash_value_3 mf (read_pos mf)) (base mf))).
Proof.
  intros Hsh Hk. pose proof (hash_value_3_nonneg mf (read_pos mf) (shape_mask mf Hsh)).
  apply hashes_next_put; [apply hashes_next_put; [apply hashes_next_refl|auto|congruence]|lia|congruence].
Qed.

Lemma hc4_puts mf : mf_shape mf -> hashes_next mf (hash (put_hash_4 mf (read_pos mf) (base mf))).
Proof.
  intros Hsh. pose proof (hash_value_4_nonneg mf (read_pos mf) (shape_mask mf Hsh)). pose proof (hash_3_range mf (read_pos mf)). pose proof (hash_2_range mf (read_pos mf)).
  apply hashes_next_put; [apply hashes_next_put; [apply hashes_next_put; [apply hashes_next_refl|auto|lia]|lia|auto]|unfold FIX_4_HASH_SIZE, FIX_3_HASH_SIZE in *; lia..].
Qed.

Lemma hash_entry_at mf i : hc_inv mf -> entry_ok mf (hash_at mf i).
Proof. intros [_ [_ Hh _]]. apply Hh. Qed.

Lemma base_pos mf : pending mf = 0 -> mf_pos mf = base mf.
Proof. intros Hp. unfold mf_pos, base, hashed. now rewrite Hp, Z.sub_0_r. Qed.

Lemma weaken_top mf : hc_tables (UINT32_MAX - 1) mf -> hc_tables UINT32_MAX mf.
Proof. intros [Hb Hh Hs]. constructor; [lia|exact Hh|exact Hs]. Qed.

Lemma hc_skip_inv mf h v : hc_inv mf -> pending mf = 0 -> read_pos mf + mf_get_hash_bytes (kind mf) <= write_pos mf ->
  hashes_next mf h -> entry_ok mf v -> hc_ready (hc_skip (set_hash mf h) v).
Proof.
  intros Hi Hp Hr Hh Hv. split; [now apply move_pos_inv|]. left. unfold hc_skip, move_pos. destruct (mf_pos _ =? UINT32_MAX); exact Hp.
Qed.

Lemma hc_find_inv mf h v limit matches len_best : hc_inv mf -> pending mf = 0 -> read_pos mf + mf_get_hash_bytes (kind mf) <= write_pos mf ->
  hashes_next mf h -> entry_ok mf v -> 1 <= len_best -> 1 <= limit -> Forall (occurs mf (read_pos mf) limit) matches ->
  let r := hc_find (set_hash mf h) limit (base mf) (read_pos mf) v matches len_best in
  hc_ready r.1 /\ Forall (occurs mf (read_pos mf) limit) r.2.
Proof.
  intros Hi Hp Hr Hh Hv Hlb Hl Hm r. split; [now apply (hc_skip_inv mf h v)|]. unfold r, hc_find. cbn [snd]. apply Forall_app_2; [exact Hm|].
  destruct Hi as [Hsh [Hb _ Hst]]. apply (hc_loop_occurs (link (set_hash mf h) v)); auto; [change (base mf <= UINT32_MAX); lia|exact (link_sons mf v Hsh Hst)].
Qed.

(** An entry of the table for two bytes: when the first bytes are equal, the second are. *)
Lemma hash_2_entry mf : hc_inv mf -> pending mf = 0 -> let d := u32 (base mf - hash_at mf (hash_2_value mf (read_pos mf))) in
  d < cyclic_size mf -> byte mf (read_pos mf - d) = byte mf (read_pos mf) ->
  1 <= d <= read_pos mf /\ forall j, 0 <= j < 2 -> byte mf (read_pos mf - d + j) = byte mf (read_pos mf + j).
Proof.
  intros Hi Hp d. unfold d. set (i := hash_2_value mf (read_pos mf)). destruct Hi as [Hsh [Hb Hh _]]. destruct (Hh i) as [He Hq].
  destruct (delta_spec mf _ ltac:(lia) He) as [-> Hpos]. intros Hlt E0. destruct He as [_ Hd]. specialize (Hd Hlt). cbv zeta in Hq. destruct (Hq Hlt) as (_ & H2 & _).
  specialize (H2 (proj2 (hash_2_range mf (read_pos mf)))). unfold hashed in *. rewrite Hp, !Z.sub_0_r in *. split; [lia|]. intros j Hj.
  assert (j = 0 \/ j = 1) as [-> | ->] by lia; [now rewrite !Z.add_0_r|]. apply hash_2_inj; [apply Hsh|exact E0|exact H2].
Qed.

Lemma hash_3_entry mf : hc_inv mf -> pending mf = 0 -> kind mf = LZMA_MF_HC4 ->
  let d := u32 (base mf - hash_at mf (FIX_3_HASH_SIZE + hash_3_value mf (read_pos mf))) in
  d < cyclic_size mf -> byte mf (read_pos mf - d) = byte mf (read_pos mf) ->
  1 <= d <= read_pos mf /\ forall j, 0 <= j < 3 -> byte mf (read_pos mf - d + j) = byte mf (read_pos mf + j).
Proof.
  intros Hi Hp Hk d. unfold d. set (i := FIX_3_HASH_SIZE + hash_3_value mf (read_pos mf)). destruct Hi as [Hsh [Hb Hh _]]. destruct (Hh i) as [He Hq].
  destruct (delta_spec mf _ ltac:(lia) He) as [-> Hpos]. intros Hlt E0. destruct He as [_ Hd]. specialize (Hd Hlt). cbv zeta in Hq. destruct (Hq Hlt) as (_ & _ & H3).
  pose proof (hash_3_range mf (read_pos mf)). specialize (H3 Hk ltac:(unfold i; lia)). unfold i in H3. apply Z.add_cancel_l in H3.
  unfold hashed in *. rewrite Hp, !Z.sub_0_r in *. split; [lia|]. intros j Hj.
  destruct (hash_3_inj mf _ _ (shape_bytes mf Hsh) E0 H3) as [E1 E2]. assert (j = 0 \/ j = 1 \/ j = 2) as [-> |[-> | ->]] by lia; [now rewrite !Z.add_0_r|exact E1|exact E2].
Qed.

(** What [find] gives: the invariant, and occurrences of the bytes at [read_pos]. *)
Definition find_ok mf (r : lzma_mf * list lzma_match) : Prop :=
  hc_ready r.1 /\ Forall (occurs mf (read_pos mf) (Z.min (write_pos mf - read_pos mf) (mf_nice_len mf))) r.2.

Lemma occurs_limit mf c n n' m : n <= n' -> occurs mf c n m -> occurs mf c n' m.
Proof. intros Hn (Hl & H). split; [lia|exact H]. Qed.

Lemma pending_find_ok mf : hc_ready mf -> read_pos mf < write_pos mf -> write_pos mf - read_pos mf < mf_get_hash_bytes (kind mf) -> find_ok mf (move_pending mf, []).
Proof.
  intros [Hi Hp] Hr Hl. split; [|apply List.Forall_nil]. cbn [fst]. split; [now apply move_pending_inv|right].
  destruct Hi as [[Hw _ _ _ _ _] _]. cbn. rewrite !u32_small by (unfold is_u32; lia). lia.
Qed.

Lemma found_ok mf limit (r : lzma_mf * list lzma_match) : mf_get_hash_bytes (kind mf) <= limit <= write_pos mf - read_pos mf -> limit <= mf_nice_len mf ->
  hc_ready r.1 /\ Forall (occurs mf (read_pos mf) limit) r.2 -> find_ok mf r.
Proof. intros Hl Hn [Hi Hm]. split; [exact Hi|]. eapply Forall_impl; [exact Hm|]. intros m. apply occurs_limit. lia. Qed.

Lemma hc3_find_ok mf : hc_ready mf -> read_pos mf < write_pos mf -> kind mf = LZMA_MF_HC3 -> find_ok mf (lzma_mf_hc3_find mf).
Proof.
  intros Hrdy Hr Hk. pose proof (header_spec mf Hrdy) as Hh. unfold lzma_mf_hc3_find. rewrite Hk in Hh. cbn [mf_get_hash_bytes] in Hh.
  destruct (header false 3 mf) as [limit|]; [|apply pending_find_ok; auto; now rewrite Hk]. destruct Hh as (Hp & Hl & Hn). destruct Hrdy as [Hi _].
  assert (mf_get_hash_bytes (kind mf) = 3) as Hb by now rewrite Hk. rewrite (base_pos mf Hp).
  pose proof (hc3_puts mf (proj1 Hi) Hk) as Hputs. pose proof (hash_entry_at mf (FIX_3_HASH_SIZE + hash_value_3 mf (read_pos mf)) Hi) as Hcm.
  pose proof (hash_2_entry mf Hi Hp) as H2. cbv zeta in *. set (d := u32 (base mf - hash_at mf (hash_2_value mf (read_pos mf)))) in *.
  set (mf1 := put_hash _ _ _) in *. change (cyclic_size mf1) with (cyclic_size mf). change (byte mf1) with (byte mf).
  apply (found_ok mf limit); [lia..|].
  assert (forall lb, 1 <= lb -> forall ms, Forall (occurs mf (read_pos mf) limit) ms ->
    hc_ready (hc_find mf1 limit (base mf) (read_pos mf) (hash_at mf (FIX_3_HASH_SIZE + hash_value_3 mf (read_pos mf))) ms lb).1 /\
    Forall (occurs mf (read_pos mf) limit) (hc_find mf1 limit (base mf) (read_pos mf) (hash_at mf (FIX_3_HASH_SIZE + hash_value_3 mf (read_pos mf))) ms lb).2) as Hfind.
  { intros lb Hlb ms Hms. apply (hc_find_inv mf (hash mf1)); auto; lia. }
  destruct (Z.ltb_spec d (cyclic_size mf)) as [Hlt|]; cbn [andb]; [|apply Hfind; [lia|apply List.Forall_nil]].
  destruct (Z.eqb_spec (byte mf (read_pos mf - d)) (byte mf (read_pos mf))) as [E0|]; [|apply Hfind; [lia|apply List.Forall_nil]].
  destruct (H2 Hlt E0) as [Hd Heq].
  change (lzma_memcmplen mf1) with (lzma_memcmplen mf). assert (2 <= lzma_memcmplen mf (read_pos mf - d) (read_pos mf) 2 limit) as Hlen by (apply memcmplen_spec; lia).
  pose proof (memcmplen_occurs mf (read_pos mf) limit d 2 Hd Hlt ltac:(lia) Hlen Heq) as Hocc.
  destruct (_ =? limit); [|apply Hfind; [lia|apply Forall_singleton; exact Hocc]].
  split; [|apply Forall_singleton; exact Hocc]. cbn [fst]. apply (hc_skip_inv mf (hash mf1)); auto. lia.
Qed.

Lemma set_last_app ms m len : set_last_len (ms ++ [m]) len = ms ++ [mk_match len (m_dist m)].
Proof. unfold set_last_len. now rewrite last_snoc, removelast_last. Qed.

(** The bytes at [cur] and [d] before it are equal, as far as [n]. *)
Definition equal_before mf (cur d n : Z) : Prop := 1 <= d <= cur /\ forall j, 0 <= j < n -> byte mf (cur - d + j) = byte mf (cur + j).

Lemma short_matches_ok mf mf1 cur d2 d3 limit : cyclic_size mf1 = cyclic_size mf -> byte mf1 = byte mf -> 2 <= limit ->
  (d2 < cyclic_size mf -> byte mf (cur - d2) = byte mf cur -> equal_before mf cur d2 2) ->
  (d3 < cyclic_size mf -> byte mf (cur - d3) = byte mf cur -> equal_before mf cur d3 3) ->
  let '(ms, d, len) := short_matches mf1 cur d2 d3 in
  (ms = [] \/ exists pre m, ms = pre ++ [m] /\ Forall (occurs mf cur limit) pre /\ m_dist m = d - 1 /\ d < cyclic_size mf /\ 2 <= len <= 3 /\ equal_before mf cur d len).
Proof.
  intros Ec Eb Hl H2 H3. unfold short_matches. rewrite Ec, Eb.
  assert (Hocc : equal_before mf cur d2 2 -> d2 < cyclic_size mf -> Forall (occurs mf cur limit) [mk_match 2 (d2 - 1)]).
  { intros [Hd Heq] Hlt. apply Forall_singleton. unfold occurs. cbn [m_len m_dist]. replace (d2 - 1 + 1) with d2 by lia. split_and!; auto; lia. }
  destruct (Z.ltb_spec d2 (cyclic_size mf)) as [L2|]; cbn [andb]; [destruct (Z.eqb_spec (byte mf (cur - d2)) (byte mf cur)) as [E2|]|];
    destruct (negb (d2 =? d3)); cbn [andb]; try (destruct (Z.ltb_spec d3 (cyclic_size mf)) as [L3|]; cbn [andb]);
    try (destruct (Z.eqb_spec (byte mf (cur - d3)) (byte mf cur)) as [E3|]); cbn [app]; try (left; reflexivity); right.
  all: first [ exists [mk_match 2 (d2 - 1)], (mk_match 0 (d3 - 1)); split_and!; try reflexivity; try lia; auto; fail
             | exists [], (mk_match 0 (d3 - 1)); split_and!; try reflexivity; try lia; auto; fail
             | exists [], (mk_match 2 (d2 - 1)); split_and!; try reflexivity; try lia; auto; fail ].
Qed.

Lemma hc4_find_ok mf : hc_ready mf -> read_pos mf < write_pos mf -> kind mf = LZMA_MF_HC4 -> find_ok mf (lzma_mf_hc4_find mf).
Proof.
  intros Hrdy Hr Hk. pose proof (header_spec mf Hrdy) as Hh. unfold lzma_mf_hc4_find. rewrite Hk in Hh. cbn [mf_get_hash_bytes] in Hh.
  destruct (header false 4 mf) as [limit|]; [|apply pending_find_ok; auto; now rewrite Hk]. destruct Hh as (Hp & Hl & Hn). destruct Hrdy as [Hi _].
  assert (mf_get_hash_bytes (kind mf) = 4) as Hb by now rewrite Hk. rewrite (base_pos mf Hp).
  pose proof (hc4_puts mf (proj1 Hi)) as Hputs. pose proof (hash_entry_at mf (FIX_4_HASH_SIZE + hash_value_4 mf (read_pos mf)) Hi) as Hcm.
  pose proof (hash_2_entry mf Hi Hp) as H2. pose proof (hash_3_entry mf Hi Hp Hk) as H3. cbv zeta in *. set (mf1 := put_hash_4 _ _ _) in *.
  set (cm := hash_at mf (FIX_4_HASH_SIZE + hash_value_4 mf (read_pos mf))) in *.
  set (d2 := u32 (base mf - hash_at mf (hash_2_value mf (read_pos mf)))) in *. set (d3 := u32 (base mf - hash_at mf (FIX_3_HASH_SIZE + _))) in *.
  apply (found_ok mf limit); [lia..|].
  assert (forall lb, 1 <= lb -> forall ms, Forall (occurs mf (read_pos mf) limit) ms ->
    hc_ready (hc_find mf1 limit (base mf) (read_pos mf) cm ms lb).1 /\ Forall (occurs mf (read_pos mf) limit) (hc_find mf1 limit (base mf) (read_pos mf) cm ms lb).2) as Hfind.
  { intros lb Hlb ms Hms. apply (hc_find_inv mf (hash mf1)); auto; lia. }
  pose proof (short_matches_ok mf mf1 (read_pos mf) d2 d3 limit eq_refl eq_refl ltac:(lia) H2 H3) as Hs.
  destruct (short_matches mf1 (read_pos mf) d2 d3) as [[ms d] len]. destruct Hs as [->|(pre & m & -> & Hpre & Hm & Hd & Hlen & [Hd1 Heq])];
    [apply Hfind; [lia|apply List.Forall_nil]|].
  assert (exists x y, pre ++ [m] = x :: y) as (x & y & Exy) by (destruct pre; cbn; eauto). rewrite set_last_app, Hm. rewrite Exy. cbv iota.
  change (lzma_memcmplen mf1) with (lzma_memcmplen mf).
  assert (len <= lzma_memcmplen mf (read_pos mf - d) (read_pos mf) len limit) as Hge by (apply memcmplen_spec; lia).
  assert (Forall (occurs mf (read_pos mf) limit) (pre ++ [mk_match (lzma_memcmplen mf (read_pos mf - d) (read_pos mf) len limit) (d - 1)])) as Hocc.
  { apply Forall_app_2; [exact Hpre|]. apply Forall_singleton. apply memcmplen_occurs; auto; lia. }
  destruct (_ =? limit); [|apply Hfind; [lia|exact Hocc]].
  split; [|exact Hocc]. cbn [fst]. apply (hc_skip_inv mf (hash mf1)); auto. lia.
Qed.

Lemma find_hc mf : hc_ready mf -> read_pos mf < write_pos mf -> find_ok mf (find mf).
Proof.
  intros Hrdy Hr. pose proof (shape_kind mf (proj1 (proj1 Hrdy))) as Hk. unfold find. destruct (kind mf) eqn:E; try discriminate.
  - now apply hc3_find_ok.
  - now apply hc4_find_ok.
Qed.

Lemma skip_byte_hc mf : hc_ready mf -> read_pos mf < write_pos mf -> hc_ready (skip_byte mf).
Proof.
  intros Hrdy Hr. pose proof Hrdy as [Hi Hpend]. pose proof (shape_kind mf (proj1 Hi)) as Hk. pose proof (avail_spec mf (proj1 Hi)) as Ha.
  pose proof (shape_window mf (proj1 Hi)) as Hw. unfold skip_byte. destruct (kind mf) eqn:E; try discriminate.
  - unfold hc3_skip_byte. rewrite Ha. cbn [mf_get_hash_bytes] in Hpend. destruct (Z.ltb_spec (write_pos mf - read_pos mf) 3).
    + apply (pending_find_ok mf Hrdy Hr). now rewrite E.
    + assert (pending mf = 0) as Hp by lia. cbv zeta. rewrite (base_pos mf Hp).
      apply (hc_skip_inv mf (hash (put_hash (put_hash mf _ _) _ _))); [exact Hi|exact Hp|rewrite E; cbn; lia|apply hc3_puts; [apply Hi|exact E]|now apply hash_entry_at].
  - unfold hc4_skip_byte. rewrite Ha. cbn [mf_get_hash_bytes] in Hpend. destruct (Z.ltb_spec (write_pos mf - read_pos mf) 4).
    + apply (pending_find_ok mf Hrdy Hr). now rewrite E.
    + assert (pending mf = 0) as Hp by lia. cbv zeta. rewrite (base_pos mf Hp).
      apply (hc_skip_inv mf (hash (put_hash_4 mf (read_pos mf) (base mf)))); [exact Hi|exact Hp|rewrite E; cbn; lia|apply hc4_puts; apply Hi|now apply hash_entry_at].
Qed.

(** *** [mf_find] and [mf_skip] *)

Lemma input_kept_trans mf mf1 mf2 : input_kept mf mf1 -> input_kept mf1 mf2 -> input_kept mf mf2.
Proof. intros [H1 H2] [H3 H4]. split; congruence. Qed.

Lemma advanced_hc mf mf' : mf_shape mf -> read_pos mf < write_pos mf -> advanced mf mf' -> read_pos mf' = read_pos mf + 1 /\ write_pos mf' = write_pos mf.
Proof. intros [Hw _ _ _ _ _] Hr [[Hk _] ->]. split; [apply u32_small; unfold is_u32; lia|congruence]. Qed.

Lemma skip_hc n : forall mf, hc_ready mf -> read_pos mf + Z.of_nat n <= write_pos mf ->
  let mf' := Nat.iter n skip_byte mf in hc_ready mf' /\ input_kept mf mf' /\ read_pos mf' = read_pos mf + Z.of_nat n.
Proof.
  induction n as [|n IH]; intros mf Hrdy Hr; [cbn; split_and!; [exact Hrdy|now split|lia]|]. cbn [Nat.iter].
  destruct (IH mf Hrdy ltac:(lia)) as (H1 & H2 & H3). set (m := Nat.iter n skip_byte mf) in *. change (Nat.iter (S n) skip_byte mf) with (skip_byte m). cbv zeta.
  assert (write_pos m = write_pos mf) as Ew by (destruct H2; congruence).
  assert (read_pos m < write_pos m) as Hlt by lia. pose proof (skip_byte_advanced m) as Hadv.
  destruct (advanced_hc m (skip_byte m) (proj1 (proj1 H1)) Hlt Hadv) as [Er _].
  split_and!; [now apply skip_byte_hc|eapply input_kept_trans; [exact H2|apply Hadv]|lia].
Qed.

(** [read_ahead] is nothing to the match finders. *)
Lemma set_read_ahead_ready mf n : hc_ready mf -> hc_ready (set_read_ahead mf n).
Proof.
  intros [[[Hw Hb Hn Hk Hc Hm] [Ht Hh Hs]] Hp]. split; [|exact Hp]. split; [exact (Build_mf_shape (set_read_ahead mf n) Hw Hb Hn Hk Hc Hm)|].
  exact (Build_hc_tables _ (set_read_ahead mf n) Ht Hh Hs).
Qed.

Lemma mf_skip_hc mf n : hc_ready mf -> 0 <= n -> read_pos mf + n <= write_pos mf -> 0 <= read_ahead mf <= read_pos mf ->
  hc_ready (mf_skip mf n) /\ input_kept (set_read_ahead mf (read_ahead mf + n)) (mf_skip mf n) /\ read_pos (mf_skip mf n) = read_pos mf + n.
Proof.
  intros Hrdy Hn Hr Ha. unfold mf_skip. destruct (Z.eqb_spec n 0) as [->|]; cbn [negb].
  - rewrite !Z.add_0_r. split_and!; [exact Hrdy|now split|reflexivity].
  - destruct (skip_hc (Z.to_nat n) mf Hrdy ltac:(lia)) as (H1 & [H2 H2'] & H3). unfold skip. set (m := Nat.iter _ _ _) in *.
    assert (u32 (read_ahead m + n) = read_ahead mf + n) as ->.
    { assert (read_ahead m = read_ahead mf) as -> by congruence. pose proof (shape_window mf (proj1 (proj1 Hrdy))). apply u32_small. unfold is_u32. lia. }
    split_and!; [now apply set_read_ahead_ready| |cbn; lia]. split; [|exact H2']. cbn. congruence.
Qed.

(** What [mf_find] returns: the matches, and the length of the longest. *)
Definition matches_ok mf (cur : Z) (matches : list lzma_match) (longest : Z) : Prop :=
  Forall (occurs mf cur (Z.min (write_pos mf - cur) (mf_nice_len mf))) matches /\
  match last matches with
  | None => longest = 0
  | Some m => m_len m <= longest /\ occurs mf cur (Z.min (write_pos mf - cur) (match_len_max mf)) (mk_match longest (m_dist m))
  end.

Lemma byte_kept mf mf' : input_kept mf mf' -> byte mf' = byte mf.
Proof. intros [H _]. unfold byte. now injection H as ->. Qed.

Lemma mf_find_hc mf : hc_ready mf -> read_pos mf < write_pos mf -> 0 <= read_ahead mf <= read_pos mf ->
  let '(mf', matches, longest) := lzma_mf_find mf in
  hc_ready mf' /\ input_kept (set_read_ahead mf (read_ahead mf + 1)) mf' /\ read_pos mf' = read_pos mf + 1 /\ matches_ok mf (read_pos mf) matches longest.
Proof.
  intros Hrdy Hr Hra. destruct (find_hc mf Hrdy Hr) as [H1 H2]. pose proof (find_advanced mf) as Hadv. unfold lzma_mf_find.
  pose proof (proj1 (proj1 Hrdy)) as Hsh. pose proof (shape_window mf Hsh) as Hw. pose proof (shape_nice mf Hsh) as Hn.
  destruct (find mf) as [mf' ms]. cbn [fst snd] in *. destruct (advanced_hc mf mf' Hsh Hr Hadv) as [Er Ew]. pose proof (proj1 Hadv) as Hk.
  assert (u32 (read_ahead mf' + 1) = read_ahead mf + 1) as Ea.
  { assert (read_ahead mf' = read_ahead mf) as -> by (destruct Hk; congruence). apply u32_small. unfold is_u32. lia. }
  rewrite Ea. assert (hc_ready (set_read_ahead mf' (read_ahead mf + 1))) as H3 by now apply set_read_ahead_ready.
  assert (input_kept (set_read_ahead mf (read_ahead mf + 1)) (set_read_ahead mf' (read_ahead mf + 1))) as H4 by (destruct Hk; split; cbn; congruence).
  split_and!; [exact H3|exact H4|exact Er|]. split; [exact H2|]. destruct (last ms) as [m|] eqn:El; [|reflexivity].
  assert (occurs mf (read_pos mf) (Z.min (write_pos mf - read_pos mf) (mf_nice_len mf)) m) as Hm.
  { apply last_Some in El as [l' ->]. apply Forall_app in H2 as [_ H2]. now apply Forall_inv in H2. }
  destruct Hm as ((Hm1 & Hm2) & Hm3 & Hm4 & Hm5 & Hm6).
  assert (mf_nice_len mf' = mf_nice_len mf /\ match_len_max mf' = match_len_max mf) as [-> ->] by (destruct Hk; split; congruence).
  destruct (Z.eqb_spec (m_len m) (mf_nice_len mf)); [|split; [lia|]; unfold occurs; cbn [m_len m_dist]; split_and!; auto; lia].
  assert (u32 (mf_avail mf' + 1) = write_pos mf - read_pos mf) as Eav.
  { rewrite (avail_spec mf' (proj1 (proj1 H1))). rewrite u32_small by (unfold is_u32; lia). lia. }
  rewrite Eav, Er. replace (read_pos mf + 1 - 1) with (read_pos mf) by lia. replace (read_pos mf - m_dist m - 1) with (read_pos mf - (m_dist m + 1)) by lia.
  assert (exists limit, (if write_pos mf - read_pos mf >? match_len_max mf then match_len_max mf else write_pos mf - read_pos mf) = limit /\
    m_len m <= limit <= Z.min (write_pos mf - read_pos mf) (match_len_max mf)) as (limit & -> & Hlim) by (eexists; split; [reflexivity|]; destruct (Z.gtb_spec (write_pos mf - read_pos mf) (match_len_max mf)); lia).
  unfold lzma_memcmplen. rewrite (byte_kept mf mf' Hk).
  pose proof (memcmplen_spec (fun i => byte mf (read_pos mf + i)) (fun i => byte mf (read_pos mf - (m_dist m + 1) + i)) (m_len m) limit ltac:(lia)) as Hmc.
  cbv zeta in Hmc. destruct Hmc as (L1 & L2 & _). split; [lia|]. unfold occurs. cbn [m_len m_dist]. split_and!; [lia..|].
  intros j Hj. destruct (Z.ltb_spec j (m_len m)); [apply Hm6; lia|symmetry; apply L2; lia].
Qed.

(** *** The window *)

(** What [lz_encoder_prepare] arranges: the window holds the dictionary, some
    bytes before it, and what the encoder wants to see ahead. *)
Record window_ok mf : Prop := {
  win_size : zlen (buffer mf) = mf_size mf + LZMA_MEMCMPLEN_EXTRA;
  win_keep : cyclic_size mf + 3 <= keep_size_before mf /\ 0 <= keep_size_after mf < keep_size_before mf /\ keep_size_before mf + keep_size_after mf < mf_size mf < 4294967295;
  win_limit : 0 <= read_limit mf <= write_pos mf /\ write_pos mf <= mf_size mf;
}.

(** The same data, further left, and perhaps more. *)
Record moved mf mf' (n : Z) : Prop := {
  mv_pos : read_pos mf' = read_pos mf - n /\ write_pos mf - n <= write_pos mf' /\ u32 (mf_offset mf') = u32 (mf_offset mf + n);
  mv_byte : forall i, 0 <= i < write_pos mf - n -> byte mf' i = byte mf (i + n);
  mv_kept : (pending mf', kind mf', hash mf', son mf', cyclic_pos mf', cyclic_size mf', hash_mask mf') =
    (pending mf, kind mf, hash mf, son mf, cyclic_pos mf, cyclic_size mf, hash_mask mf);
}.

Lemma hash_2_moved mf mf' n q : moved mf mf' n -> 0 <= q -> q + 2 <= write_pos mf - n -> hash_2_value mf' q = hash_2_value mf (q + n).
Proof.
  intros [_ Hb _] Hq Hr. unfold hash_2_value, hash_temp. rewrite !Hb by lia. do 3 f_equal. lia.
Qed.

Lemma hash_3_moved mf mf' n q : moved mf mf' n -> 0 <= q -> q + 3 <= write_pos mf - n -> hash_3_value mf' q = hash_3_value mf (q + n).
Proof.
  intros [_ Hb _] Hq Hr. unfold hash_3_value, hash_3_temp, hash_temp. rewrite !Hb by lia. f_equal. f_equal; [do 2 f_equal; lia|]. do 3 f_equal. lia.
Qed.

(** The tables go with the data, when enough of them stay. *)
Lemma moved_tables top mf mf' n : moved mf mf' n -> hc_tables top mf -> 0 <= pending mf -> (n = 0 \/ cyclic_size mf <= hashed mf - n) -> 0 <= n -> hc_tables top mf'.
Proof.
  intros Hmv [Hb Hh Hs] Hpend Hkeep Hn. pose proof Hmv as [(Er & Ew & Eo) _ Hk].
  assert (pending mf' = pending mf /\ kind mf' = kind mf /\ hash mf' = hash mf /\ son mf' = son mf) as (Ep & Ek & Eh & Es) by (split_and!; congruence).
  assert (cyclic_pos mf' = cyclic_pos mf /\ cyclic_size mf' = cyclic_size mf) as (Ec & Ecs) by (split; congruence).
  assert (hashed mf' = hashed mf - n) as Ehd by (unfold hashed; lia).
  assert (base mf' = base mf) as Eb by (unfold base; rewrite Ehd; unfold u32 in *; dlia).
  assert (forall v, entry_ok mf v -> entry_ok mf' v) as Hent.
  { intros v [Hv Hd]. unfold entry_ok. rewrite Eb, Ehd, Ecs. split; [exact Hv|]. intros Hlt. specialize (Hd Hlt). destruct Hkeep; lia. }
  constructor.
  - now rewrite Eb, Ecs.
  - intros i. destruct (Hh i) as [He Hq]. unfold hash_at. rewrite Eh. fold (hash_at mf i). split; [now apply Hent|]. rewrite Eb, Ehd, Ecs, Ek. intros Hlt.
    destruct (Hq Hlt) as (H1 & H2 & H3). cbv zeta. set (q := hashed mf - n - (base mf - hash_at mf i)).
    replace (hashed mf - (base mf - hash_at mf i)) with (q + n) in * by (unfold q; lia).
    pose proof (Hent _ He) as [_ Hd]. rewrite Eb, Ehd, Ecs in Hd. specialize (Hd Hlt).
    split_and!; [lia| |].
    + intros Hi. rewrite (hash_2_moved mf mf' n q Hmv); [auto|unfold q; lia|destruct (kind mf); cbn in H1; lia].
    + intros Hkd Hi. rewrite (hash_3_moved mf mf' n q Hmv); [auto|unfold q; lia|rewrite Hkd in H1; cbn in H1; lia].
  - intros d Hd Hr. rewrite Es. apply Hent. replace (son_index mf' d) with (son_index mf d) by (unfold son_index; now rewrite Ec, Ecs).
    apply Hs; [lia|]. rewrite Ehd in Hr. lia.
Qed.

Lemma overwrite_spec (b : bytes) i l : 0 <= i -> i + zlen l <= zlen b ->
  zlen (overwrite b i l) = zlen b /\ (forall k, 0 <= k < i -> byte_at (overwrite b i l) k = byte_at b k) /\ (bytes_ok b -> bytes_ok l -> bytes_ok (overwrite b i l)).
Proof.
  intros Hi Hl. unfold overwrite. split_and!.
  - rewrite !length_app, length_take, length_drop. lia.
  - intros k Hk. rewrite byte_at_app, length_take by lia. rewrite (proj2 (Z.ltb_lt _ _)) by lia. apply byte_at_take. lia.
  - intros Hb Hl'. apply Forall_app_2; [now apply Forall_take|]. apply Forall_app_2; [exact Hl'|now apply Forall_drop].
Qed.

Lemma land_align x : 0 <= x -> 0 <= Z.land x (Z.lnot 15) <= x /\ x - Z.land x (Z.lnot 15) <= 15.
Proof.
  intros Hx. assert (Z.land x (Z.lnot 15) = x - x mod 16) as ->; [|dlia].
  rewrite <- (Z.ldiff_land x 15). change 15 with (Z.ones 4). rewrite Z.ldiff_ones_r by lia. rewrite Z.shiftr_div_pow2, Z.shiftl_mul_pow2 by lia.
  change (2 ^ 4) with 16. dlia.
Qed.

(** [move_window] keeps what the tables can refer to. *)
Lemma move_window_hc mf : hc_inv mf -> window_ok mf -> pending mf <= 3 -> keep_size_before mf < read_pos mf ->
  hc_inv (move_window mf) /\ exists n, moved mf (move_window mf) n /\ 0 <= n /\ keep_size_before mf <= read_pos mf - n /\
    zlen (buffer (move_window mf)) = zlen (buffer mf) /\ write_pos (move_window mf) = write_pos mf - n.
Proof.
  intros [Hsh Ht] Hwin Hp Hr. pose proof Hsh as [Hw Hby Hn Hk Hc Hm]. pose proof Hwin as [Hsz Hkeep Hlim].
  unfold move_window. rewrite (u32_small (read_pos mf - keep_size_before mf)) by (unfold is_u32; lia).
  destruct (land_align (read_pos mf - keep_size_before mf) ltac:(lia)) as [Hn0 _]. set (n := Z.land _ _) in *.
  assert (u32 (read_pos mf - n) = read_pos mf - n /\ u32 (write_pos mf - n) = write_pos mf - n) as [E1 E2] by (split; apply u32_small; unfold is_u32; lia).
  rewrite E1, E2. set (mf' := mk_mf _ _ _ _ _ _ _ _ _ _ _ _ _ _ _ _ _ _ _ _).
  assert (zlen (slice n (write_pos mf - n) (buffer mf)) = write_pos mf - n) as Els by (apply length_slice; lia).
  assert (moved mf mf' n) as Hmv.
  { constructor; [split_and!; [reflexivity|cbn; lia|apply u32_small, u32_range]| |reflexivity]. intros i Hi. unfold byte. cbn [mf' buffer]. rewrite byte_at_app, Els by lia.
    rewrite (proj2 (Z.ltb_lt _ _)) by lia. rewrite byte_at_of_slice by lia. f_equal. lia. }
  assert (zlen (buffer mf') = zlen (buffer mf)) as El.
  { cbn [mf' buffer]. rewrite length_app, Nat2Z.inj_add, Els. unfold from. rewrite length_drop. lia. }
  split; [|exists n; split_and!; auto; lia]. split.
  - constructor; [change (pending mf') with (pending mf); cbn [mf' read_pos write_pos]; fold mf'; rewrite El; lia| |exact Hn|exact Hk|exact Hc|exact Hm].
    cbn [mf' buffer]. apply Forall_app_2; unfold slice, from; [now apply Forall_take, Forall_drop|now apply Forall_drop].
  - eapply moved_tables; [exact Hmv|exact Ht|lia|right; unfold hashed; lia|lia].
Qed.

Lemma moved_shape mf mf' n : mf_shape mf -> moved mf mf' n -> 0 <= n -> pending mf <= read_pos mf - n -> read_pos mf' <= write_pos mf' ->
  write_pos mf' <= zlen (buffer mf') -> write_pos mf' < 4294967295 -> bytes_ok (buffer mf') ->
  mf_nice_len mf' = mf_nice_len mf -> match_len_max mf' = match_len_max mf -> mf_shape mf'.
Proof.
  intros [Hw Hb Hn Hk Hc Hm] [(Er & Ew & _) _ Hkept] H0 Hp Hr Hl Hs Hby En El.
  assert (pending mf' = pending mf /\ kind mf' = kind mf /\ hash_mask mf' = hash_mask mf) as (Ep & Ek & Em) by (split_and!; congruence).
  assert (cyclic_pos mf' = cyclic_pos mf /\ cyclic_size mf' = cyclic_size mf) as (Ec & Ecs) by (split; congruence).
  constructor; rewrite ?Ep, ?Ek, ?Em, ?Ec, ?Ecs, ?En, ?El; auto; lia.
Qed.

(** *** The states that a run reaches

    After a flush some bytes may be left that were not hashed.  They are hashed
    when there is enough input again; until then nothing is searched. *)

Definition stale mf : Prop :=
  pending mf < mf_get_hash_bytes (kind mf) /\ read_limit mf <= read_pos mf /\ mf_action mf = LZMA_RUN.

Record hc_state mf : Prop := {
  st_inv : hc_inv mf;
  st_window : window_ok mf;
  st_ahead : 0 <= read_ahead mf <= read_pos mf;
  st_pending : pending mf = 0 \/ pending mf + (write_pos mf - read_pos mf) < mf_get_hash_bytes (kind mf) \/ stale mf;
}.

(** When the encoder may look for matches: there is input for it, or it looks
    ahead; during [LZMA_RUN] nothing is pending then. *)
Definition may_search mf : Prop := read_pos mf < read_limit mf \/ mf_action mf <> LZMA_RUN \/ pending mf = 0.

Lemma state_ready mf : hc_state mf -> may_search mf -> hc_ready mf.
Proof. intros [Hi _ _ Hp] Hg. split; [exact Hi|]. destruct Hp as [Hp|[Hp|(_ & Hl & Ha)]]; [now left|now right|]. destruct Hg as [Hg|[Hg|Hg]]; [lia|contradiction|now left]. Qed.

Lemma window_kept mf mf' : input_kept mf mf' -> window_ok mf -> window_ok mf'.
Proof.
  intros [H1 H2] [Hs Hk Hl]. assert (buffer mf' = buffer mf /\ mf_size mf' = mf_size mf /\ write_pos mf' = write_pos mf) as (E1 & E2 & E3) by (split_and!; congruence).
  assert (cyclic_size mf' = cyclic_size mf /\ read_limit mf' = read_limit mf) as (E4 & E5) by (split; congruence).
  assert (keep_size_before mf' = keep_size_before mf /\ keep_size_after mf' = keep_size_after mf) as (E6 & E7) by (split; congruence).
  constructor; rewrite ?E1, ?E2, ?E3, ?E4, ?E5, ?E6, ?E7; assumption.
Qed.

(** Rewinding to the bytes that were not hashed. *)
Definition rewind mf : lzma_mf := set_read_pos (set_pending mf 0) (u32 (read_pos mf - pending mf)).

Lemma rewind_hc mf : hc_inv mf -> hc_ready (rewind mf) /\ read_pos (rewind mf) = read_pos mf - pending mf.
Proof.
  intros [[Hw Hb Hn Hk Hc Hm] [Ht Hh Hs]]. assert (read_pos (rewind mf) = read_pos mf - pending mf) as Er by (apply u32_small; unfold is_u32; lia).
  assert (hashed (rewind mf) = hashed mf) as Eh by (unfold hashed; rewrite Er; cbn; lia). assert (base (rewind mf) = base mf) as Eb by (unfold base; now rewrite Eh).
  assert (forall v, entry_ok mf v -> entry_ok (rewind mf) v) as Hent by (intros v; unfold entry_ok; now rewrite Eb, Eh).
  split; [|exact Er]. split; [|left; reflexivity]. split.
  - constructor; [rewrite Er; cbn; lia|exact Hb|exact Hn|exact Hk|exact Hc|exact Hm].
  - constructor; [now rewrite Eb|intros i; specialize (Hh i)|intros d Hd; rewrite Eh; intros Hr; apply Hent, Hs; assumption].
    unfold hash_ok. rewrite Eb, Eh. destruct Hh as [He Hq]. split; [now apply Hent|exact Hq].
Qed.

(** The part of [fill_window] before the match finder restarts. *)
Definition filled mf (input : bytes) (action : lzma_action) : lzma_mf :=
  let mf := if read_pos mf >=? u32 (mf_size mf - keep_size_after mf) then move_window mf else mf in
  let n := Z.min (zlen input) (mf_size mf - write_pos mf) in
  let w := write_pos mf + n in
  let b := overwrite (overwrite (buffer mf) (write_pos mf) (slice 0 n input)) w (replicate (Z.to_nat LZMA_MEMCMPLEN_EXTRA) 0) in
  if negb (bool_decide (action = LZMA_RUN)) && (zlen (from n input) =? 0) then set_input mf b w w action
  else if w >? keep_size_after mf then set_input mf b w (u32 (w - keep_size_after mf)) (mf_action mf)
  else set_input mf b w (read_limit mf) (mf_action mf).

Lemma fill_window_filled mf input action : (fill_window mf input action).1 =
  let mf := filled mf input action in
  if (pending mf >? 0) && (read_pos mf <? read_limit mf) then skip (rewind mf) (pending mf) else mf.
Proof. reflexivity. Qed.

Lemma set_input_moved mf b w limit a : write_pos mf <= w -> (forall k, 0 <= k < write_pos mf -> byte_at b k = byte_at (buffer mf) k) -> moved mf (set_input mf b w limit a) 0.
Proof.
  intros Hw Hb. constructor; [cbn; rewrite Z.add_0_r; split_and!; [lia|lia|reflexivity]| |reflexivity]. intros i Hi. rewrite Z.add_0_r in *. apply Hb. lia.
Qed.

(** New input, and a new limit. *)
Lemma set_input_hc mf b w limit a : hc_inv mf -> zlen (buffer mf) = mf_size mf + LZMA_MEMCMPLEN_EXTRA ->
  cyclic_size mf + 3 <= keep_size_before mf /\ 0 <= keep_size_after mf < keep_size_before mf /\ keep_size_before mf + keep_size_after mf < mf_size mf < 4294967295 ->
  write_pos mf <= w <= mf_size mf -> zlen b = zlen (buffer mf) -> bytes_ok b ->
  (forall k, 0 <= k < write_pos mf -> byte_at b k = byte_at (buffer mf) k) -> 0 <= limit <= w ->
  hc_inv (set_input mf b w limit a) /\ window_ok (set_input mf b w limit a).
Proof.
  intros [Hsh Ht] Hs Hk Hw Hlen Hb Heq Hlim. pose proof (set_input_moved mf b w limit a ltac:(lia) Heq) as Hmv. pose proof (shape_window mf Hsh) as Hsw.
  unfold LZMA_MEMCMPLEN_EXTRA in *. split; [split|].
  - apply (moved_shape mf _ 0 Hsh Hmv); try reflexivity; try (cbn; lia). exact Hb.
  - apply (moved_tables _ mf _ 0 Hmv Ht); [lia|now left|lia].
  - constructor; [cbn; unfold LZMA_MEMCMPLEN_EXTRA; lia|exact Hk|cbn; lia].
Qed.

(** The window before it is filled: the limit may have wrapped around when the
    window was moved, but then it is set again. *)
Lemma moved_state mf : hc_state mf -> read_limit mf <= read_pos mf -> read_ahead mf <= keep_size_before mf ->
  let m := if read_pos mf >=? u32 (mf_size mf - keep_size_after mf) then move_window mf else mf in
  hc_inv m /\ read_ahead mf <= read_pos m /\ zlen (buffer m) = mf_size m + LZMA_MEMCMPLEN_EXTRA /\ write_pos m <= mf_size m /\
  (0 <= read_limit m <= write_pos m \/ keep_size_after m < write_pos m) /\
  (mf_size m, keep_size_before m, keep_size_after m, cyclic_size m) = (mf_size mf, keep_size_before mf, keep_size_after mf, cyclic_size mf) /\
  (read_ahead m, pending m, kind m, mf_action m) = (read_ahead mf, pending mf, kind mf, mf_action mf).
Proof.
  intros [Hi Hwin Hra Hp] Hlim Hahead. pose proof Hi as [Hsh _]. pose proof (shape_window mf Hsh) as Hw. pose proof Hwin as [Hs Hk Hl]. cbv zeta.
  assert (pending mf <= 3) as Hp3 by (pose proof (shape_kind mf Hsh); unfold stale in Hp; destruct (kind mf); cbn in Hp; lia || discriminate).
  rewrite (u32_small (mf_size mf - _)) by (unfold is_u32; lia).
  destruct (Z.geb_spec (read_pos mf) (mf_size mf - keep_size_after mf)); [|split_and!; auto; lia].
  destruct (move_window_hc mf Hi Hwin Hp3 ltac:(lia)) as (Hi' & n & [(Er & _ & _) _ _] & Hn & Hnk & Hlen & Ew).
  change (mf_size (move_window mf)) with (mf_size mf). change (keep_size_after (move_window mf)) with (keep_size_after mf).
  split_and!; [exact Hi'|lia|now rewrite Hlen|lia|right; lia|reflexivity..].
Qed.

Lemma bytes_zero n : bytes_ok (replicate n 0).
Proof. apply Forall_replicate. unfold is_byte. lia. Qed.

Lemma filled_hc mf input action : hc_state mf -> mf_action mf = LZMA_RUN -> read_limit mf <= read_pos mf -> bytes_ok input -> read_ahead mf <= keep_size_before mf ->
  let mf' := filled mf input action in
  hc_inv mf' /\ window_ok mf' /\ read_ahead mf' <= read_pos mf' /\ read_ahead mf' = read_ahead mf /\ pending mf' = pending mf /\ kind mf' = kind mf /\
  (mf_action mf' = LZMA_RUN \/ read_limit mf' = write_pos mf').
Proof.
  intros Hst Hact Hlim Hin Hahead. pose proof (moved_state mf Hst Hlim Hahead) as Hm. unfold filled. cbv zeta in *. set (m := if _ >=? _ then _ else _) in *. clearbody m.
  destruct Hm as (Hi & Hra & Hs & Hw & Hl & Ek & Es). pose proof (win_keep mf (st_window mf Hst)) as Hk. pose proof (shape_window m (proj1 Hi)) as Hsw.
  assert (mf_size m = mf_size mf /\ keep_size_before m = keep_size_before mf /\ keep_size_after m = keep_size_after mf /\ cyclic_size m = cyclic_size mf) as (E1 & E2 & E3 & E4) by (split_and!; congruence).
  assert (read_ahead m = read_ahead mf /\ pending m = pending mf /\ kind m = kind mf /\ mf_action m = LZMA_RUN) as (E5 & E6 & E7 & E8) by (split_and!; congruence).
  rewrite <- E1, <- E2, <- E3, <- E4 in Hk. unfold LZMA_MEMCMPLEN_EXTRA in *. set (n := Z.min (zlen input) (mf_size m - write_pos m)).
  assert (zlen (slice 0 n input) = n) as En by (apply length_slice; lia).
  destruct (overwrite_spec (buffer m) (write_pos m) (slice 0 n input)) as (O1 & O2 & O3); [lia|lia|].
  set (b1 := overwrite (buffer m) (write_pos m) (slice 0 n input)) in *.
  destruct (overwrite_spec b1 (write_pos m + n) (replicate (Z.to_nat 8) 0)) as (P1 & P2 & P3); [lia|rewrite length_replicate; lia|].
  set (b := overwrite b1 _ _) in *.
  assert (bytes_ok b) as Hb by (apply P3; [apply O3; [apply Hi|unfold slice, from; now apply Forall_take, Forall_drop]|apply bytes_zero]).
  assert (forall k, 0 <= k < write_pos m -> byte_at b k = byte_at (buffer m) k) as Heq by (intros k Hkr; rewrite P2, O2 by lia; reflexivity).
  assert (Hset : forall limit a, 0 <= limit <= write_pos m + n -> hc_inv (set_input m b (write_pos m + n) limit a) /\ window_ok (set_input m b (write_pos m + n) limit a)).
  { intros limit a Hlimit. apply set_input_hc; auto; lia. }
  destruct (negb _ && _); [|destruct (Z.gtb_spec (write_pos m + n) (keep_size_after m))].
  - destruct (Hset (write_pos m + n) action ltac:(lia)) as [A B]. split_and!; auto; cbn; lia.
  - rewrite u32_small by (unfold is_u32; lia). destruct (Hset (write_pos m + n - keep_size_after m) (mf_action m) ltac:(lia)) as [A B]. split_and!; auto; cbn; lia.
  - destruct (Hset (read_limit m) (mf_action m) ltac:(lia)) as [A B]. split_and!; auto; cbn; lia.
Qed.

Lemma fill_window_hc mf input action : hc_state mf -> mf_action mf = LZMA_RUN -> read_limit mf <= read_pos mf -> bytes_ok input -> read_ahead mf <= keep_size_before mf ->
  hc_state (fill_window mf input action).1.
Proof.
  intros Hst Hact Hlim Hin Hahead. rewrite fill_window_filled. destruct (filled_hc mf input action Hst Hact Hlim Hin Hahead) as (Hi & Hwin & Hra & Ea & Ep & Ek & Hact').
  cbv zeta. set (mf' := filled mf input action) in *. pose proof (st_ahead mf Hst) as Ha.
  assert (pending mf' = 0 \/ pending mf' < mf_get_hash_bytes (kind mf')) as Hp.
  { rewrite Ep, Ek. pose proof (shape_window mf (proj1 (st_inv mf Hst))). destruct (st_pending mf Hst) as [|[|[]]]; [now left|right; lia|right; lia]. }
  destruct ((pending mf' >? 0) && (read_pos mf' <? read_limit mf')) eqn:E.
  - destruct (rewind_hc mf' Hi) as [Hrdy Er]. pose proof (shape_window mf' (proj1 Hi)) as Hw. apply andb_true_iff in E as [E1 E2]. apply Z.gtb_lt in E1.
    destruct (skip_hc (Z.to_nat (pending mf')) (rewind mf') Hrdy) as (Hrdy' & Hk & Er'); [change (write_pos (rewind mf')) with (write_pos mf'); lia|].
    unfold skip. set (m := Nat.iter _ _ _) in *. cbv zeta in *. constructor.
    + apply Hrdy'.
    + destruct Hwin as [A B C]. exact (window_kept (rewind mf') m Hk (Build_window_ok (rewind mf') A B C)).
    + assert (read_ahead m = read_ahead mf') as -> by (destruct Hk as [H1 H2]; cbn in H1; congruence). lia.
    + destruct Hrdy' as [_ [H|H]]; auto.
  - constructor; [exact Hi|exact Hwin|lia|]. destruct Hp as [Hp|Hp]; [now left|]. pose proof (shape_window mf' (proj1 Hi)) as Hw.
    destruct (Z.ltb_spec (read_pos mf') (read_limit mf')); [rewrite andb_true_r, Z.gtb_ltb, Z.ltb_ge in E; left; lia|right].
    destruct Hact' as [Hr|Hr]; [right; unfold stale; auto|left; lia].
Qed.

(** *** Initialization *)

(** What the users of the LZ encoder ask for. *)
Record options_ok (o : lzma_lz_options) : Prop := {
  lzo_kind : is_bt (match_finder o) = false;
  lzo_nice : mf_get_hash_bytes (match_finder o) <= lz_nice_len o;
  lzo_before : 4 <= before_size o <= 65536;
  lzo_after : 0 <= after_size o /\ 0 <= lz_match_len_max o <= 65536 /\ after_size o + lz_match_len_max o < before_size o + LZMA_DICT_SIZE_MIN;
  lzo_preset : bytes_ok (lz_preset_dict o);
}.

Lemma spread_nonneg x n : 0 <= x -> 0 <= Z.lor x (Z.shiftr x n).
Proof. intros Hx. rewrite Z.lor_nonneg, Z.shiftr_nonneg. auto. Qed.

Lemma hash_mask_nonneg k n : 0 <= hash_mask_of k n.
Proof.
  unfold hash_mask_of. destruct (_ =? 2); [lia|]. pose proof (u32_range (n - 1)) as Hr. unfold is_u32 in Hr. cbv zeta. set (x := u32 (n - 1)) in *.
  assert (0 <= Z.lor (Z.shiftr (Z.lor (Z.lor (Z.lor (Z.lor x (Z.shiftr x 1)) (Z.shiftr (Z.lor x (Z.shiftr x 1)) 2))
    (Z.shiftr (Z.lor (Z.lor x (Z.shiftr x 1)) (Z.shiftr (Z.lor x (Z.shiftr x 1)) 2)) 4))
    (Z.shiftr (Z.lor (Z.lor (Z.lor x (Z.shiftr x 1)) (Z.shiftr (Z.lor x (Z.shiftr x 1)) 2))
      (Z.shiftr (Z.lor (Z.lor x (Z.shiftr x 1)) (Z.shiftr (Z.lor x (Z.shiftr x 1)) 2)) 4)) 8)) 1) 0xFFFF) as Hh.
  { apply Z.lor_nonneg. split; [|lia]. apply Z.shiftr_nonneg. repeat apply spread_nonneg. lia. }
  revert Hh. set (h := Z.lor _ 0xFFFF). intros Hh. destruct (h >? _); [|exact Hh]. destruct (_ =? 3); [vm_compute; discriminate|now apply Z.shiftr_nonneg].
Qed.

Lemma sizes_spec o before after size : options_ok o -> lz_encoder_sizes o = Some (before, after, size) ->
  before = before_size o + lz_dict_size o /\ after = after_size o + lz_match_len_max o /\ before + after < size < 4294967280 /\
  4096 <= lz_dict_size o <= 1610612736 /\ lz_nice_len o <= lz_match_len_max o.
Proof.
  intros [_ _ Hb Ha _]. unfold lz_encoder_sizes, IS_ENC_DICT_SIZE_VALID, LZMA_DICT_SIZE_MIN in *. destruct (negb _ || _) eqn:E; [discriminate|].
  apply orb_false_iff in E as [E1 E2]. apply negb_false_iff, andb_true_iff in E1 as [E1 E3]. change (Z.shiftl 1 30) with 1073741824 in *. change (Z.shiftl 1 29) with 536870912 in *.
  change (Z.shiftl 1 19) with 524288. rewrite Z.geb_le in E1. rewrite Z.leb_le in E3. rewrite Z.gtb_ltb, Z.ltb_ge in E2.
  rewrite (u32_small (before_size o + lz_dict_size o)), (u32_small (after_size o + lz_match_len_max o)), (u32_small (lz_dict_size o / 2)) by (unfold is_u32; dlia).
  destruct (Z.gtb_spec (lz_dict_size o / 2) 1073741824); [dlia|]. rewrite (u32_small (lz_dict_size o / 2 + _)) by (unfold is_u32; dlia).
  rewrite u32_small by (unfold is_u32; dlia). intros [= <- <- <-]. split_and!; try reflexivity; dlia.
Qed.

(** The state before the preset dictionary. *)
Definition fresh (o : lzma_lz_options) (b : bytes) (sons : gmap Z Z) (before after size : Z) : lzma_mf :=
  mk_mf b size before after (u32 (lz_dict_size o + 1)) 0 0 0 0 0 (match_finder o) ∅ sons 0 (u32 (lz_dict_size o + 1))
    (hash_mask_of (match_finder o) (lz_dict_size o)) (depth_of (match_finder o) (lz_depth o) (lz_nice_len o)) (lz_nice_len o) (lz_match_len_max o) LZMA_RUN.

Lemma fresh_hc o b sons before after size : options_ok o -> lz_encoder_sizes o = Some (before, after, size) -> bytes_ok b -> zlen b = size + LZMA_MEMCMPLEN_EXTRA ->
  hc_state (fresh o b sons before after size).
Proof.
  intros Ho Hs Hb Hl. destruct (sizes_spec o before after size Ho Hs) as (Eb & Ea & Hsz & Hd & Hn). destruct Ho as [Hk Hnice Hbs Has _].
  set (mf := fresh _ _ _ _ _ _). assert (u32 (lz_dict_size o + 1) = lz_dict_size o + 1) as Ec by (apply u32_small; unfold is_u32; lia).
  assert (cyclic_size mf = lz_dict_size o + 1) as Ecs by exact Ec.
  assert (base mf = cyclic_size mf) as Ebase by (unfold base; cbn; rewrite Ec; apply u32_small; unfold is_u32; lia).
  unfold LZMA_MEMCMPLEN_EXTRA, LZMA_DICT_SIZE_MIN in *. constructor.
  - split; constructor; rewrite ?Ebase, ?Ecs; cbn [mf fresh pending read_pos write_pos buffer kind mf_nice_len match_len_max cyclic_pos hash_mask]; try assumption; try lia.
    + apply hash_mask_nonneg.
    + unfold UINT32_MAX. lia.
    + intros i. unfold hash_at. cbn [mf fresh hash]. rewrite lookup_empty. cbn [default from_option]. unfold hash_ok, entry_ok, id. rewrite Ebase, Ecs. lia.
    + intros d Hd1 Hd2. change (hashed mf) with 0 in Hd2. lia.
  - constructor; rewrite ?Ecs; cbn [mf fresh mf_size keep_size_before keep_size_after buffer read_limit write_pos]; unfold LZMA_MEMCMPLEN_EXTRA; lia.
  - cbn. lia.
  - now left.
Qed.

Lemma lz_encoder_init_hc o mem sons mf : options_ok o -> (forall n, 0 <= n -> zlen (mem n) = n /\ bytes_ok (mem n)) -> lz_encoder_init o mem sons = Some mf ->
  hc_state mf /\ mf_action mf = LZMA_RUN.
Proof.
  intros Ho Hmem. unfold lz_encoder_init. destruct (lz_encoder_sizes o) as [[[before after] size]|] eqn:Es; [|discriminate]. cbn [mbind option_bind].
  destruct (sizes_spec o before after size Ho Es) as (Eb & Ea & Hsz & Hd & Hn). pose proof (lzo_after o Ho) as Has. pose proof (lzo_before o Ho) as Hbs.
  unfold LZMA_MEMCMPLEN_EXTRA, LZMA_DICT_SIZE_MIN in *. destruct (Hmem (size + 8) ltac:(lia)) as [Hml Hmb].
  destruct (overwrite_spec (mem (size + 8)) size (replicate (Z.to_nat 8) 0)) as (O1 & _ & O3); [lia|rewrite length_replicate; lia|].
  specialize (O3 Hmb (bytes_zero _)). set (b := overwrite _ size _) in *.
  pose proof (fresh_hc o b sons before after size Ho Es O3) as Hf. unfold LZMA_MEMCMPLEN_EXTRA in Hf. specialize (Hf ltac:(lia)).
  fold (fresh o b sons before after size). set (m := fresh o b sons before after size) in *. change (mk_mf _ _ _ _ _ _ _ _ _ _ _ _ _ _ _ _ _ _ _ _) with m.
  destruct (Z.gtb_spec (zlen (lz_preset_dict o)) 0) as [Hpos|Hz]; intros [= <-]; [|split; [exact Hf|reflexivity]]. split; [|reflexivity].
  set (w := Z.min (zlen (lz_preset_dict o)) size). set (l := from (zlen (lz_preset_dict o) - w) (lz_preset_dict o)).
  assert (zlen l = w) as El by (unfold l, from, w; rewrite length_drop; lia).
  assert (bytes_ok l) as Hl by (apply Forall_drop; apply Ho).
  destruct (overwrite_spec b 0 l) as (P1 & _ & P3); [lia|lia|]. specialize (P3 O3 Hl). set (b2 := overwrite b 0 l) in *. destruct Hf as [Hi Hwin _ _].
  change (write_pos m) with 0 in *. pose proof Hwin as [W1 W2 W3].
  destruct (set_input_hc m b2 w 0 LZMA_SYNC_FLUSH Hi W1 W2) as [Hi2 Hw2]; [change (write_pos m) with 0; change (mf_size m) with size; lia|exact P1|exact P3|intros k; change (write_pos m) with 0; lia|lia|].
  set (m2 := set_input m b2 w 0 LZMA_SYNC_FLUSH) in *.
  destruct (skip_hc (Z.to_nat w) m2 (conj Hi2 (or_introl eq_refl))) as (Hr3 & Hk3 & Er3); [change (read_pos m2) with 0; change (write_pos m2) with w; lia|].
  unfold skip. set (m3 := Nat.iter _ skip_byte m2) in *. cbv zeta in *. pose proof (window_kept m2 m3 Hk3 Hw2) as Hw3. pose proof Hw3 as [V1 V2 V3].
  destruct (set_input_hc m3 (buffer m3) (write_pos m3) (read_limit m3) LZMA_RUN (proj1 Hr3) V1 V2) as [Hi4 Hw4]; [lia|reflexivity|apply (proj1 (proj1 Hr3))|reflexivity|lia|].
  constructor; [exact Hi4|exact Hw4| |].
  - change (read_ahead (set_input m3 _ _ _ _)) with (read_ahead m3). change (read_pos (set_input m3 _ _ _ _)) with (read_pos m3). rewrite Er3.
    assert (read_ahead m3 = 0) as -> by (destruct Hk3 as [H _]; cbn in H; congruence). change (read_pos m2) with 0. lia.
  - destruct Hr3 as [_ [H|H]]; auto.
Qed.

(** What the encoder does with a match finder. *)
Inductive mf_step mf : lzma_mf -> Prop :=
  | step_find : may_search mf -> read_pos mf < write_pos mf -> mf_step mf (lzma_mf_find mf).1.1
  | step_skip n : may_search mf -> 0 <= n -> read_pos mf + n <= write_pos mf -> mf_step mf (mf_skip mf n)
  | step_encoded n : 0 <= n <= read_ahead mf -> mf_step mf (set_read_ahead mf (read_ahead mf - n))
  | step_fill input action : mf_action mf = LZMA_RUN -> read_limit mf <= read_pos mf -> read_ahead mf <= keep_size_before mf -> bytes_ok input ->
      mf_step mf (fill_window mf input action).1
  | step_restart : mf_unencoded mf = 0 -> mf_step mf (set_input mf (buffer mf) (write_pos mf) (read_limit mf) LZMA_RUN).

Inductive mf_reachable (mf0 : lzma_mf) : lzma_mf -> Prop :=
  | reach_start : mf_reachable mf0 mf0
  | reach_step mf mf' : mf_reachable mf0 mf -> mf_step mf mf' -> mf_reachable mf0 mf'.

Lemma window_set_ahead mf n : window_ok mf -> window_ok (set_read_ahead mf n).
Proof. intros [A B C]. exact (Build_window_ok (set_read_ahead mf n) A B C). Qed.

Lemma mf_step_hc mf mf' : hc_state mf -> mf_step mf mf' -> hc_state mf'.
Proof.
  intros Hst Hstep. pose proof Hst as [Hi Hwin Ha Hp]. destruct Hstep as [Hm Hr|n Hm Hn Hr|n Hn|input action Hact Hl Hra Hin|Hu].
  - pose proof (mf_find_hc mf (state_ready mf Hst Hm) Hr Ha) as H. destruct (lzma_mf_find mf) as [[mf' ms] len]. cbn [fst]. destruct H as ([Hi' Hp'] & Hk & Er & _).
    constructor; [exact Hi'|exact (window_kept _ _ Hk (window_set_ahead mf _ Hwin))| |destruct Hp'; auto].
    assert (read_ahead mf' = read_ahead mf + 1) as -> by (destruct Hk as [H _]; cbn in H; congruence). lia.
  - destruct (mf_skip_hc mf n (state_ready mf Hst Hm) Hn Hr Ha) as ([Hi' Hp'] & Hk & Er).
    constructor; [exact Hi'|exact (window_kept _ _ Hk (window_set_ahead mf _ Hwin))| |destruct Hp'; auto].
    assert (read_ahead (mf_skip mf n) = read_ahead mf + n) as -> by (destruct Hk as [H _]; cbn in H; congruence). lia.
  - constructor; [|now apply window_set_ahead|cbn; lia|exact Hp]. destruct Hi as [[A B C D E F] [G I J]].
    split; [exact (Build_mf_shape (set_read_ahead mf _) A B C D E F)|exact (Build_hc_tables _ (set_read_ahead mf _) G I J)].
  - now apply fill_window_hc.
  - destruct Hwin as [V1 V2 V3]. pose proof (shape_window mf (proj1 Hi)) as Hw.
    destruct (set_input_hc mf (buffer mf) (write_pos mf) (read_limit mf) LZMA_RUN Hi V1 V2) as [Hi' Hw']; [lia|reflexivity|apply (proj1 Hi)|reflexivity|lia|].
    constructor; [exact Hi'|exact Hw'|exact Ha|]. destruct Hp as [Hp|[Hp|(Hp & Hl & _)]]; [now left|now right; left|right; right]. repeat split; assumption.
Qed.

Lemma reachable_hc mf0 mf : hc_state mf0 -> mf_reachable mf0 mf -> hc_state mf.
Proof. intros H0 Hr. induction Hr; [exact H0|]. now apply (mf_step_hc mf). Qed.

(** ** Properties *)

(** [lzma_memcmplen] is the same function in all its variants (eight bytes at
    a time with a subtraction and [ctz], sixteen with SSE2, four, or one): it
    returns the place of the first difference, or the limit. *)
Theorem memcmplen_variants f g len limit : (forall i, is_byte (f i)) -> (forall i, is_byte (g i)) -> len <= limit ->
  memcmplen_wide compare64 8 f g len limit = memcmplen f g len limit /\
  memcmplen_wide compare_sse2 16 f g len limit = memcmplen f g len limit /\
  memcmplen_wide compare32 4 f g len limit = memcmplen f g len limit /\
  (let r := memcmplen f g len limit in len <= r <= limit /\ (forall j, len <= j < r -> f j = g j) /\ (r < limit -> f r <> g r)).
Proof.
  intros Hf Hg Hl. unfold memcmplen_wide. split; [|split; [|split]]; [apply memcmplen_wide_spec; auto using compares64, compares_sse2, compares32; lia..|].
  now apply memcmplen_spec.
Qed.

(** Strings that differ at 13. *)
Definition example_f (i : Z) : Z := i mod 256.
Definition example_g (i : Z) : Z := if i =? 13 then 0 else i mod 256.

Lemma memcmplen_variants_witness : memcmplen_wide compare64 8 example_f example_g 2 20 = 13 /\ memcmplen example_f example_g 2 20 = 13.
Proof.
  destruct (memcmplen_variants example_f example_g 2 20) as [-> _]; [| |lia|split; reflexivity].
  - intros i. unfold is_byte, example_f. dlia.
  - intros i. unfold is_byte, example_g. destruct (i =? 13); dlia.
Defined.

(** C13: Every match that the hash chains HC3 and HC4 report is an occurrence.
    From any initialization with options that the encoder uses, after any sequence
    of searches, skipped bytes, refilled and moved windows, flushes, and
    normalizations of the tables: the distance of a match lies in the dictionary
    and in the window, and its bytes are equal to the next bytes, as is the
    longest match that [mf_find] extends beyond [nice_len]. *)
Theorem mf_find_occurrences o mem sons mf0 mf : options_ok o -> (forall n, 0 <= n -> zlen (mem n) = n /\ bytes_ok (mem n)) ->
  lz_encoder_init o mem sons = Some mf0 -> mf_reachable mf0 mf -> may_search mf -> read_pos mf < write_pos mf ->
  let '(mf', matches, longest) := lzma_mf_find mf in
  matches_ok mf (read_pos mf) matches longest /\ read_pos mf' = read_pos mf + 1 /\ input_kept (set_read_ahead mf (read_ahead mf + 1)) mf'.
Proof.
  intros Ho Hmem Hinit Hreach Hs Hr. destruct (lz_encoder_init_hc o mem sons mf0 Ho Hmem Hinit) as [H0 _].
  pose proof (reachable_hc mf0 mf H0 Hreach) as Hst. pose proof (mf_find_hc mf (state_ready mf Hst Hs) Hr (st_ahead mf Hst)) as H.
  destruct (lzma_mf_find mf) as [[mf' ms] len]. destruct H as (_ & H1 & H2 & H3). auto.
Qed.

Definition example_options : lzma_lz_options := mk_lz_options 4096 4096 4096 273 273 LZMA_MF_HC4 0 [].
Definition example_mem (n : Z) : bytes := replicate (Z.to_nat n) 0.
Definition example_size : Z := 543129.
Definition example_start : lzma_mf := fresh example_options (overwrite (example_mem (example_size + LZMA_MEMCMPLEN_EXTRA)) example_size (replicate 8 0)) ∅ 8192 4369 example_size.
Definition example_filled : lzma_mf := (fill_window example_start [1; 2; 3; 4; 1; 2; 3; 4; 9] LZMA_FINISH).1.

Definition example_at : lzma_mf := mf_skip example_filled 4.

Lemma example_init : lz_encoder_init example_options example_mem ∅ = Some example_start.
Proof. unfold lz_encoder_init. assert (lz_encoder_sizes example_options = Some (8192, 4369, example_size)) as -> by reflexivity. reflexivity. Qed.

Lemma example_reachable : mf_reachable example_start example_at.
Proof.
  apply (reach_step _ example_filled); [apply (reach_step _ example_start); [apply reach_start|]|].
  - apply step_fill; [reflexivity|discriminate|discriminate|bytes_ok_tac].
  - apply step_skip; [left; vm_compute; reflexivity|lia|vm_compute; discriminate].
Qed.

Lemma mf_find_occurrences_witness : (lzma_mf_find example_at).1.2 = [mk_match 4 3] /\ (lzma_mf_find example_at).2 = 4 /\
  matches_ok example_at (read_pos example_at) (lzma_mf_find example_at).1.2 (lzma_mf_find example_at).2.
Proof.
  split; [vm_compute; reflexivity|split; [vm_compute; reflexivity|]].
  assert (may_search example_at /\ read_pos example_at < write_pos example_at) as [Hs Hr] by (split; [left|]; vm_compute; reflexivity).
  assert (options_ok example_options) as Ho.
  { constructor; [reflexivity| | | |apply List.Forall_nil]; cbn [example_options match_finder lz_nice_len before_size after_size lz_match_len_max mf_get_hash_bytes]; unfold LZMA_DICT_SIZE_MIN; lia. }
  assert (forall n, 0 <= n -> zlen (example_mem n) = n /\ bytes_ok (example_mem n)) as Hm.
  { intros n Hn. unfold example_mem. rewrite length_replicate. split; [lia|apply bytes_zero]. }
  pose proof (mf_find_occurrences example_options example_mem ∅ example_start example_at Ho Hm example_init example_reachable Hs Hr) as H.
  destruct (lzma_mf_find example_at) as [[mf' ms] len]. apply H.
Defined.
