(* ===== verification/LzmaEncoder.v ===== *)
(** * The LZMA encoder

    [lib/archive/xz/src/liblzma/lzma/lzma_encoder.c]: how a literal, a match, a
    repeated match and the end marker are put into the queue of the range
    encoder, and [lzma_lzma_encode].  Which matches are used is the choice of
    [lzma_lzma_optimum_fast] and [lzma_lzma_optimum_normal]; the typeclass
    [Optimum] is their interface, [OptimumLaws] is what the encoder relies on. *)

From Stdlib Require Import ZArith Lia.
From stdpp Require Import gmap list.
From S2P Require Import Prelude FilterProps FilterFlags FastPos Coder MatchFinder RangeCoder LzmaCommon.

Record lzma_lzma1_encoder := mk_encoder1 {
  erc : lzma_range_encoder prob_ptr;
  uncomp_size : Z;
  out_limit : Z;
  estate : Z;
  reps : list Z;
  is_initialized : bool;
  is_flushed : bool;
  use_eopm : bool;
  epos_mask : Z;
  eliteral_context_bits : Z;
  eliteral_mask : Z;
  estore : prob_store;
}.

Implicit Types (e : lzma_lzma1_encoder) (mf : lzma_mf).

Definition set_erc e (r : lzma_range_encoder prob_ptr) : lzma_lzma1_encoder :=
  mk_encoder1 r (uncomp_size e) (out_limit e) (estate e) (reps e) (is_initialized e) (is_flushed e) (use_eopm e)
    (epos_mask e) (eliteral_context_bits e) (eliteral_mask e) (estore e).
Definition set_estate e (s : Z) : lzma_lzma1_encoder :=
  mk_encoder1 (erc e) (uncomp_size e) (out_limit e) s (reps e) (is_initialized e) (is_flushed e) (use_eopm e)
    (epos_mask e) (eliteral_context_bits e) (eliteral_mask e) (estore e).
Definition set_ereps e (r : list Z) : lzma_lzma1_encoder :=
  mk_encoder1 (erc e) (uncomp_size e) (out_limit e) (estate e) r (is_initialized e) (is_flushed e) (use_eopm e)
    (epos_mask e) (eliteral_context_bits e) (eliteral_mask e) (estore e).
Definition set_uncomp_size e (n : Z) : lzma_lzma1_encoder :=
  mk_encoder1 (erc e) n (out_limit e) (estate e) (reps e) (is_initialized e) (is_flushed e) (use_eopm e)
    (epos_mask e) (eliteral_context_bits e) (eliteral_mask e) (estore e).
Definition set_initialized e : lzma_lzma1_encoder :=
  mk_encoder1 (erc e) (uncomp_size e) (out_limit e) (estate e) (reps e) true (is_flushed e) (use_eopm e)
    (epos_mask e) (eliteral_context_bits e) (eliteral_mask e) (estore e).
Definition set_flushed e : lzma_lzma1_encoder :=
  mk_encoder1 (erc e) (uncomp_size e) (out_limit e) (estate e) (reps e) (is_initialized e) true (use_eopm e)
    (epos_mask e) (eliteral_context_bits e) (eliteral_mask e) (estore e).
Definition set_encoded e (P : prob_store) (r : lzma_range_encoder prob_ptr) : lzma_lzma1_encoder :=
  mk_encoder1 r (uncomp_size e) (out_limit e) (estate e) (reps e) (is_initialized e) (is_flushed e) (use_eopm e)
    (epos_mask e) (eliteral_context_bits e) (eliteral_mask e) P.

Definition rep e (i : Z) : Z := byte_at (reps e) i.

(** [rc_bit(&coder->rc, ...)] and the like. *)
Definition queue_bit e (p : prob_ptr) (bit : bool) : lzma_lzma1_encoder := set_erc e (rc_bit (erc e) p bit).
Definition queue_tree e (p : prob_ptr) (n : nat) (sym : Z) : lzma_lzma1_encoder := set_erc e (rc_bittree (erc e) (index p) n sym).
Definition queue_reverse e (p : prob_ptr) (n : nat) (sym : Z) : lzma_lzma1_encoder :=
  set_erc e (rc_bittree_reverse (erc e) (index p) n sym).
Definition queue_direct e (value : Z) (n : nat) : lzma_lzma1_encoder := set_erc e (rc_direct (erc e) value n).

(** ** Literals *)

(** Eight rounds, until [symbol] reaches [1 << 16]. *)
Fixpoint literal_matched_loop (n : nat) e (subcoder : prob_ptr) (match_byte offset symbol : Z) : lzma_lzma1_encoder :=
  match n with
  | O => e
  | S n =>
      let match_byte := u32 (Z.shiftl match_byte 1) in
      let match_bit := Z.land match_byte offset in
      let subcoder_index := offset + match_bit + Z.shiftr symbol 8 in
      let bit := Z.land (Z.shiftr symbol 7) 1 in
      let e := queue_bit e (index subcoder subcoder_index) (bit =? 1) in
      let symbol := u32 (Z.shiftl symbol 1) in
      literal_matched_loop n e subcoder match_byte (Z.land offset (Z.lnot (Z.lxor match_byte symbol))) symbol
  end.

Definition literal_matched e (subcoder : prob_ptr) (match_byte symbol : Z) : lzma_lzma1_encoder :=
  literal_matched_loop 8 e subcoder match_byte 0x100 (symbol + 0x100).

Definition literal e mf (position : Z) : lzma_lzma1_encoder :=
  let cur_byte := byte_at (buffer mf) (read_pos mf - read_ahead mf) in
  let subcoder := literal_subcoder (eliteral_context_bits e) (eliteral_mask e) position
    (byte_at (buffer mf) (read_pos mf - read_ahead mf - 1)) in
  if is_literal_state (estate e) then queue_tree (set_estate e (update_literal_normal (estate e))) subcoder 8 cur_byte
  else
    let match_byte := byte_at (buffer mf) (read_pos mf - rep e 0 - 1 - read_ahead mf) in
    literal_matched (set_estate e (update_literal_matched (estate e))) subcoder match_byte cur_byte.

(** ** Lengths and matches

    The tables of prices that [length] updates are only read by the optimizer. *)
Definition length_ e (repeated : bool) (pos_state len : Z) : lzma_lzma1_encoder :=
  let len := len - MATCH_LEN_MIN in
  if len <? LEN_LOW_SYMBOLS then
    queue_tree (queue_bit e (len_choice repeated, 0) false) (len_low repeated pos_state, 0) LEN_LOW_BITS len
  else
    let e := queue_bit e (len_choice repeated, 0) true in
    let len := len - LEN_LOW_SYMBOLS in
    if len <? LEN_MID_SYMBOLS then
      queue_tree (queue_bit e (len_choice2 repeated, 0) false) (len_mid repeated pos_state, 0) LEN_MID_BITS len
    else
      queue_tree (queue_bit e (len_choice2 repeated, 0) true) (len_high repeated, 0) LEN_HIGH_BITS (len - LEN_MID_SYMBOLS).

(** The bits of a distance below its slot. *)
Definition distance_footer e (distance slot : Z) : lzma_lzma1_encoder :=
  if slot >=? DIST_MODEL_START then
    let footer_bits := Z.shiftr slot 1 - 1 in
    let base := u32 (Z.shiftl (Z.lor 2 (Z.land slot 1)) footer_bits) in
    let dist_reduced := u32 (distance - base) in
    if slot <? DIST_MODEL_END then
      queue_reverse e (pos_special, base - slot - 1) (Z.to_nat footer_bits) dist_reduced
    else
      queue_reverse
        (queue_direct e (Z.shiftr dist_reduced (Z.of_nat ALIGN_BITS)) (Z.to_nat (footer_bits - Z.of_nat ALIGN_BITS)))
        (pos_align, 0) ALIGN_BITS (Z.land dist_reduced ALIGN_MASK)
  else e.

Definition match_ e (pos_state distance len : Z) : lzma_lzma1_encoder :=
  let e := set_estate e (update_match (estate e)) in
  let e := length_ e false pos_state len in
  let slot := get_dist_slot distance in
  let e := queue_tree e (dist_slot_probs (get_dist_state len), 0) DIST_SLOT_BITS slot in
  let e := distance_footer e distance slot in
  set_ereps e [distance; rep e 0; rep e 1; rep e 2].

(** [rep] is the number of the repeated distance, 0 to 3. *)
Definition rep_match e (pos_state r len : Z) : lzma_lzma1_encoder :=
  let e :=
    if r =? 0 then
      queue_bit (queue_bit e (is_rep0, estate e) false) (is_rep0_long (estate e), pos_state) (negb (len =? 1))
    else
      let distance := rep e r in
      let e := queue_bit e (is_rep0, estate e) true in
      if r =? 1 then
        set_ereps (queue_bit e (is_rep1, estate e) false) [distance; rep e 0; rep e 2; rep e 3]
      else
        let e := queue_bit (queue_bit e (is_rep1, estate e) true) (is_rep2, estate e) (r - 2 =? 1) in
        set_ereps e [distance; rep e 0; rep e 1; if r =? 3 then rep e 2 else rep e 3] in
  if len =? 1 then set_estate e (update_short_rep (estate e))
  else
    let e := length_ e true pos_state len in
    set_estate e (update_long_rep (estate e)).

(** ** Symbols *)

Definition encode_symbol e mf (back len position : Z) : lzma_lzma1_encoder * lzma_mf :=
  let pos_state := Z.land position (epos_mask e) in
  let e :=
    if back =? UINT32_MAX then literal (queue_bit e (is_match (estate e), pos_state) false) mf position
    else
      let e := queue_bit e (is_match (estate e), pos_state) true in
      if back <? REPS then rep_match (queue_bit e (is_rep, estate e) true) pos_state back len
      else match_ (queue_bit e (is_rep, estate e) false) pos_state (back - REPS) len in
  (e, set_read_ahead mf (read_ahead mf - len)).

(** [None]: nothing can be done yet. *)
Definition encode_init e mf : option (lzma_lzma1_encoder * lzma_mf) :=
  if read_pos mf =? read_limit mf then
    if bool_decide (mf_action mf = LZMA_RUN) then None else Some (set_initialized e, mf)
  else
    let mf := set_read_ahead (mf_skip mf 1) 0 in
    let e := queue_tree (queue_bit e (is_match 0, 0) false) (literal_probs, 0) 8 (byte_at (buffer mf) 0) in
    Some (set_initialized (set_uncomp_size e (uncomp_size e + 1)), mf).

Definition encode_eopm e (position : Z) : lzma_lzma1_encoder :=
  let pos_state := Z.land position (epos_mask e) in
  match_ (queue_bit (queue_bit e (is_match (estate e), pos_state) true) (is_rep, estate e) false) pos_state UINT32_MAX
    MATCH_LEN_MIN.

(** ** [lzma_lzma_encode] *)

Definition OPTS : Z := 4096.
Definition LOOP_INPUT_MAX : Z := OPTS + 1.
Definition LZMA2_CHUNK_MAX : Z := 65536.

(** [lzma_lzma_optimum_fast] and [lzma_lzma_optimum_normal]: [back] and [len] of
    the next symbol.  They run the match finder ahead and keep state of their
    own. *)
Class Optimum (S : Type) := {
  optimum : lzma_lzma1_encoder -> S -> lzma_mf -> Z -> Z * Z * S * lzma_mf;
}.

Section Encode.
Context {S : Type} `{Optimum S}.

(** [rc_encode] of what is queued, into [room] bytes. *)
Definition run_rc (room : nat) e : bool * lzma_lzma1_encoder * bytes :=
  let '(full, P, r, out) := rc_encode room (estore e) (erc e) in (full, set_encoded e P r, out).

Inductive loop_exit :=
  | LoopReturn (ret : lzma_ret)
  | LoopBreak.

(** [out_pos] is [*out_pos]; [None] would mean that [fuel] did not suffice. *)
Fixpoint encode_loop (fuel : nat) (limit : Z) e (s : S) mf (out_pos : Z) (room : nat) :
  option (loop_exit * lzma_lzma1_encoder * S * lzma_mf * bytes) :=
  match fuel with
  | O => None
  | Datatypes.S fuel =>
      if negb (limit =? UINT32_MAX) && ((mf_position mf >=? limit) || (out_pos + rc_pending (erc e) >=? LZMA2_CHUNK_MAX - LOOP_INPUT_MAX))
      then Some (LoopBreak, e, s, mf, [])
      else if (read_pos mf >=? read_limit mf) && bool_decide (mf_action mf = LZMA_RUN) then Some (LoopReturn LZMA_OK, e, s, mf, [])
      else if (read_pos mf >=? read_limit mf) && (read_ahead mf =? 0) then Some (LoopBreak, e, s, mf, [])
      else
        let '(back, len, s, mf) := optimum e s mf (u32 (uncomp_size e)) in
        let (e, mf) := encode_symbol e mf back len (u32 (uncomp_size e)) in
        if negb (out_limit e =? 0) && rc_encode_dummy (estore e) (erc e) (out_limit e) then
          Some (LoopBreak, set_erc e (rc_forget (erc e)), s, mf, [])
        else
          let e := set_uncomp_size e (uncomp_size e + len) in
          let '(full, e, out) := run_rc room e in
          if full then Some (LoopReturn LZMA_OK, e, s, mf, out)
          else
            match encode_loop fuel limit e s mf (out_pos + zlen out) (room - length out) with
            | Some (x, e, s, mf, out') => Some (x, e, s, mf, out ++ out')
            | None => None
            end
  end.

(** Every round encodes at least one byte. *)
Definition encode_fuel mf : nat := Datatypes.S (Z.to_nat (mf_unencoded mf)).

Definition encode_finish e (room : nat) : lzma_ret * lzma_lzma1_encoder * bytes :=
  let e := if use_eopm e then encode_eopm e (u32 (uncomp_size e)) else e in
  let e := set_erc e (rc_flush (erc e)) in
  let '(full, e, out) := run_rc room e in
  if full then (LZMA_OK, set_flushed e, out) else (LZMA_STREAM_END, e, out).

Definition lzma_lzma_encode e (s : S) mf (out_pos : Z) (room : nat) (limit : Z) :
  option (lzma_ret * lzma_lzma1_encoder * S * lzma_mf * bytes) :=
  match (if is_initialized e then Some (e, mf) else encode_init e mf) with
  | None => Some (LZMA_OK, e, s, mf, [])
  | Some (e, mf) =>
      let '(full, e, out) := run_rc room e in
      if full then Some (LZMA_OK, e, s, mf, out)
      else if is_flushed e then Some (LZMA_STREAM_END, e, s, mf, out)
      else
        match encode_loop (encode_fuel mf) limit e s mf (out_pos + zlen out) (room - length out) with
        | None => None
        | Some (LoopReturn ret, e, s, mf, out') => Some (ret, e, s, mf, out ++ out')
        | Some (LoopBreak, e, s, mf, out') =>
            let '(ret, e, out'') := encode_finish e (room - length (out ++ out')) in
            Some (ret, e, s, mf, (out ++ out') ++ out'')
        end
  end.

End Encode.

(** ** Initialization *)

Definition is_options_valid (o : lzma_options_lzma) : bool :=
  is_lclppb_valid o && (nice_len o >=? MATCH_LEN_MIN) && (nice_len o <=? MATCH_LEN_MAX) && ((mode o =? LZMA_MODE_FAST) || (mode o =? LZMA_MODE_NORMAL)).

Definition lzma_lzma_encoder_reset e (o : lzma_options_lzma) : res lzma_lzma1_encoder :=
  if negb (is_options_valid o) then Err LZMA_OPTIONS_ERROR
  else
    Ok (mk_encoder1 rc_reset (uncomp_size e) (out_limit e) STATE_LIT_LIT [0; 0; 0; 0] (is_initialized e) (is_flushed e) (use_eopm e)
      (u32 (Z.shiftl 1 (pb o) - 1)) (lc o) (literal_mask_calc (lc o) (lp o)) (reset_probs (lc o) (lp o) (pb o) (estore e))).

(** There is a preset dictionary. *)
Definition has_preset (o : lzma_options_lzma) : bool := negb (bool_decide (preset_dict o = None)) && (preset_dict_size o >? 0).

(** [lzma_lzma_encoder_create] for an encoder that was allocated; [fast_mode] and
    the sizes of the price tables are not part of the model. *)
Definition lzma_lzma_encoder_create e (id : Z) (o : lzma_options_lzma) : res lzma_lzma1_encoder :=
  let mode_ok := (mode o =? LZMA_MODE_FAST) || ((mode o =? LZMA_MODE_NORMAL) && negb (dict_size o >? Z.shiftl 1 30 + Z.shiftl 1 29)) in
  if negb mode_ok then Err LZMA_OPTIONS_ERROR
  else if (id =? LZMA_FILTER_LZMA1EXT) && negb (Z.land (ext_flags o) (Z.lnot LZMA_LZMA1EXT_ALLOW_EOPM) =? 0) then Err LZMA_OPTIONS_ERROR
  else
    let use_eopm := if id =? LZMA_FILTER_LZMA1EXT then negb (Z.land (ext_flags o) LZMA_LZMA1EXT_ALLOW_EOPM =? 0) else id =? LZMA_FILTER_LZMA1 in
    lzma_lzma_encoder_reset
      (mk_encoder1 (erc e) 0 0 (estate e) (reps e) (has_preset o) false use_eopm (epos_mask e) (eliteral_context_bits e) (eliteral_mask e)
         (estore e)) o.

(** The [switch] of [lz_encoder_prepare]. *)
Definition finder_of (id : Z) : option lzma_match_finder :=
  if id =? FilterProps.LZMA_MF_HC3 then Some LZMA_MF_HC3
  else if id =? FilterProps.LZMA_MF_HC4 then Some LZMA_MF_HC4
  else if id =? 0x12 then Some LZMA_MF_BT2
  else if id =? 0x13 then Some LZMA_MF_BT3
  else if id =? FilterProps.LZMA_MF_BT4 then Some LZMA_MF_BT4
  else None.

(** [set_lz_options]; [None] when the match finder is not known to
    [lz_encoder_prepare]. *)
Definition set_lz_options (o : lzma_options_lzma) : option lzma_lz_options :=
  k ← finder_of (FilterProps.mf o);
  Some (mk_lz_options OPTS (dict_size o) LOOP_INPUT_MAX MATCH_LEN_MAX (Z.max (mf_get_hash_bytes k) (nice_len o)) k (depth o)
    (match preset_dict o with Some d => slice 0 (preset_dict_size o) d | None => [] end)).
