(* ===== verification/LzmaSymbols.v ===== *)
(** * LZMA symbols

    What the encoder puts into the queue of the range encoder for a literal, a
    match, a repeated match and the end marker, as lists of bits, and that the
    decoder of [lzma_decoder.c], when it finds these bits, does what the symbol
    means.  The encoder and the decoder number the entries of [pos_align]
    differently; [decoder_ptr] translates. *)

From Stdlib Require Import ZArith Lia.
From stdpp Require Import gmap list.
From S2P Require Import Prelude Vli FilterProps FastPos Coder RangeCoder LzDict LzDecoder LzmaCommon LzmaDecoder LzmaSafety LzmaEncoder.

Abbreviation rc_bits := (list (rc_symbol prob_ptr)).

(** ** The bits of a symbol *)

Fixpoint matched_symbols (n : nat) (subcoder : prob_ptr) (match_byte offset symbol : Z) : rc_bits :=
  match n with
  | O => []
  | S n =>
      let match_byte := u32 (Z.shiftl match_byte 1) in
      let match_bit := Z.land match_byte offset in
      let bit := Z.land (Z.shiftr symbol 7) 1 in
      let symbol' := u32 (Z.shiftl symbol 1) in
      RC_BIT (index subcoder (offset + match_bit + Z.shiftr symbol 8)) (bit =? 1) ::
      matched_symbols n subcoder match_byte (Z.land offset (Z.lnot (Z.lxor match_byte symbol'))) symbol'
  end.

Definition literal_symbols (st : Z) (subcoder : prob_ptr) (match_byte b : Z) : rc_bits :=
  if is_literal_state st then bittree_symbols (index subcoder) 8 b 1 else matched_symbols 8 subcoder match_byte 0x100 (b + 0x100).

Definition length_symbols (repeated : bool) (ps len : Z) : rc_bits :=
  let len := len - MATCH_LEN_MIN in
  if len <? LEN_LOW_SYMBOLS then RC_BIT (len_choice repeated, 0) false :: bittree_symbols (index (len_low repeated ps, 0)) LEN_LOW_BITS len 1
  else
    let len := len - LEN_LOW_SYMBOLS in
    RC_BIT (len_choice repeated, 0) true ::
    if len <? LEN_MID_SYMBOLS then RC_BIT (len_choice2 repeated, 0) false :: bittree_symbols (index (len_mid repeated ps, 0)) LEN_MID_BITS len 1
    else RC_BIT (len_choice2 repeated, 0) true :: bittree_symbols (index (len_high repeated, 0)) LEN_HIGH_BITS (len - LEN_MID_SYMBOLS) 1.

Definition footer_symbols (distance slot : Z) : rc_bits :=
  if slot >=? DIST_MODEL_START then
    let footer_bits := Z.shiftr slot 1 - 1 in
    let base := u32 (Z.shiftl (Z.lor 2 (Z.land slot 1)) footer_bits) in
    let dist_reduced := u32 (distance - base) in
    if slot <? DIST_MODEL_END then bittree_reverse_symbols (index (pos_special, base - slot - 1)) (Z.to_nat footer_bits) dist_reduced 1
    else
      direct_symbols (Z.shiftr dist_reduced (Z.of_nat ALIGN_BITS)) (Z.to_nat (footer_bits - Z.of_nat ALIGN_BITS)) ++
      bittree_reverse_symbols (index (pos_align, 0)) ALIGN_BITS (Z.land dist_reduced ALIGN_MASK) 1
  else [].

Definition match_symbols (ps distance len : Z) : rc_bits :=
  length_symbols false ps len ++
  bittree_symbols (index (dist_slot_probs (get_dist_state len), 0)) DIST_SLOT_BITS (get_dist_slot distance) 1 ++
  footer_symbols distance (get_dist_slot distance).

Definition rep_symbols (st ps r len : Z) : rc_bits :=
  (if r =? 0 then [RC_BIT (is_rep0, st) false; RC_BIT (is_rep0_long st, ps) (negb (len =? 1))]
   else if r =? 1 then [RC_BIT (is_rep0, st) true; RC_BIT (is_rep1, st) false]
   else [RC_BIT (is_rep0, st) true; RC_BIT (is_rep1, st) true; RC_BIT (is_rep2, st) (r - 2 =? 1)]) ++
  (if len =? 1 then [] else length_symbols true ps len).

(** ** The encoder queues these bits *)

Definition queue e (l : rc_bits) : lzma_lzma1_encoder := set_erc e (rc_queue (erc e) l).

Lemma queue_app e a b : queue (queue e a) b = queue e (a ++ b).
Proof. unfold queue, set_erc, rc_queue. cbn. now rewrite app_assoc. Qed.

Lemma queue_nil e : queue e [] = e.
Proof. destruct e as [[]]. unfold queue, set_erc, rc_queue. cbn. now rewrite app_nil_r. Qed.

Lemma queue_state e l s : set_estate (queue e l) s = queue (set_estate e s) l.
Proof. reflexivity. Qed.

Lemma queue_reps e l r : set_ereps (queue e l) r = queue (set_ereps e r) l.
Proof. reflexivity. Qed.

Lemma queue_bit_queue e p b : queue_bit e p b = queue e [RC_BIT p b].
Proof. reflexivity. Qed.

Lemma queue_tree_queue e p n s : queue_tree e p n s = queue e (bittree_symbols (index p) n s 1).
Proof. reflexivity. Qed.

Lemma queue_reverse_queue e p n s : queue_reverse e p n s = queue e (bittree_reverse_symbols (index p) n s 1).
Proof. reflexivity. Qed.

Lemma queue_direct_queue e v n : queue_direct e v n = queue e (direct_symbols v n).
Proof. reflexivity. Qed.

Create HintDb queue.
#[local] Hint Rewrite queue_state queue_reps queue_bit_queue queue_tree_queue queue_reverse_queue queue_direct_queue queue_app : queue.
#[local] Opaque queue queue_bit queue_tree queue_reverse queue_direct.

Lemma matched_loop_queue n : forall e subcoder mb off sym,
  literal_matched_loop n e subcoder mb off sym = queue e (matched_symbols n subcoder mb off sym).
Proof.
  induction n as [|n IH]; intros e subcoder mb off sym; cbn [literal_matched_loop matched_symbols]; [now rewrite queue_nil|].
  rewrite IH. now autorewrite with queue.
Qed.

Lemma length_queue e repeated ps len : length_ e repeated ps len = queue e (length_symbols repeated ps len).
Proof. unfold length_, length_symbols. repeat case_if; now autorewrite with queue. Qed.

Lemma footer_queue e distance slot : distance_footer e distance slot = queue e (footer_symbols distance slot).
Proof. unfold distance_footer, footer_symbols. repeat case_if; autorewrite with queue; [reflexivity..|now rewrite queue_nil]. Qed.

(** The encoder after a symbol: the state, the distances and the queue. *)
Definition after_symbol e (st : Z) (rs : list Z) (new : rc_bits) : lzma_lzma1_encoder := queue (set_ereps (set_estate e st) rs) new.

Lemma match_queue e ps distance len :
  match_ e ps distance len = after_symbol e (update_match (estate e)) [distance; rep e 0; rep e 1; rep e 2] (match_symbols ps distance len).
Proof. unfold match_, match_symbols, after_symbol. cbv zeta. rewrite length_queue, footer_queue. now autorewrite with queue. Qed.

Definition rep_distances (rs : list Z) (r : Z) : list Z :=
  let d i := byte_at rs i in
  if r =? 0 then rs else if r =? 1 then [d 1; d 0; d 2; d 3] else if r =? 2 then [d 2; d 0; d 1; d 3] else [d 3; d 0; d 1; d 2].

Lemma rep_queue e ps r len : 0 <= r < 4 ->
  rep_match e ps r len = after_symbol e (if len =? 1 then update_short_rep (estate e) else update_long_rep (estate e))
    (rep_distances (reps e) r) (rep_symbols (estate e) ps r len).
Proof.
  intros Hr. assert (r = 0 \/ r = 1 \/ r = 2 \/ r = 3) as Hc by lia.
  unfold rep_match, rep_symbols, rep_distances, after_symbol. change (rep e) with (byte_at (reps e)).
  destruct Hc as [->|[->|[->| ->]]]; cbn [Z.eqb Pos.eqb]; repeat (rewrite ?queue_bit_queue, ?queue_app; cbv zeta).
  all: destruct (Z.eqb_spec len 1); rewrite ?length_queue; autorewrite with queue; try reflexivity.
Qed.

(** ** What a symbol means

    The encoder and the decoder keep the state and the four last distances; a
    symbol changes them and adds bytes to the sequence. *)

Inductive lz_symbol :=
  | LZ_LITERAL (b : Z)
  | LZ_REP (r len : Z)
  | LZ_MATCH (distance len : Z).

Definition lz_state (st : Z) (s : lz_symbol) : Z :=
  match s with
  | LZ_LITERAL _ => if is_literal_state st then update_literal_normal st else update_literal_matched st
  | LZ_REP _ len => if len =? 1 then update_short_rep st else update_long_rep st
  | LZ_MATCH _ _ => update_match st
  end.

Definition lz_reps (rs : list Z) (s : lz_symbol) : list Z :=
  match s with
  | LZ_LITERAL _ => rs
  | LZ_REP r _ => rep_distances rs r
  | LZ_MATCH distance _ => [distance; byte_at rs 0; byte_at rs 1; byte_at rs 2]
  end.

Definition lz_bytes (l : bytes) (rs : list Z) (s : lz_symbol) : bytes :=
  match s with
  | LZ_LITERAL b => [b]
  | LZ_REP r len => repeat_bytes (Z.to_nat len) l (byte_at rs r)
  | LZ_MATCH distance len => repeat_bytes (Z.to_nat len) l distance
  end.

(** Its bits, after the bytes [l]. *)
Definition lz_bits (lc lm pm : Z) (l : bytes) (st : Z) (rs : list Z) (s : lz_symbol) : rc_bits :=
  let ps := Z.land (zlen l) pm in
  match s with
  | LZ_LITERAL b =>
      RC_BIT (is_match st, ps) false ::
      literal_symbols st (literal_subcoder lc lm (zlen l) (byte_back l 0)) (byte_back l (byte_at rs 0)) b
  | LZ_REP r len => RC_BIT (is_match st, ps) true :: RC_BIT (is_rep, st) true :: rep_symbols st ps r len
  | LZ_MATCH distance len => RC_BIT (is_match st, ps) true :: RC_BIT (is_rep, st) false :: match_symbols ps distance len
  end.

(** A symbol of the format: [h] is the window. *)
Definition lz_ok (h : history) (rs : list Z) (s : lz_symbol) : Prop :=
  match s with
  | LZ_LITERAL b => is_byte b
  | LZ_REP r len => 0 <= r < 4 /\ (2 <= len <= MATCH_LEN_MAX \/ r = 0 /\ len = 1) /\ inside h (byte_at rs r)
  | LZ_MATCH distance len => 2 <= len <= MATCH_LEN_MAX /\ inside h distance /\ distance < UINT32_MAX
  end.

(** ** The decoder finds the bits *)

Section Runs.
Context (fin eopm : bool) (K : lzma_ret -> lzma_lzma1_decoder -> history -> bytes -> Prop).

(** The decoder runs to an exit of the loop at which [K] holds. *)
Inductive runs : lzma_lzma1_decoder -> history -> bytes -> Prop :=
  | runs_out c h input ret c' h' rest : decode_step fin eopm c h input = Out ret c' h' rest -> K ret c' h' rest -> runs c h input
  | runs_next c h input c' h' rest : decode_step fin eopm c h input = Next eopm c' h' rest -> runs c' h' rest -> runs c h input.

Definition settles (r : step_result history) : Prop :=
  match r with
  | Next e c h input => e = eopm /\ runs c h input
  | Out ret c h input => K ret c h input
  end.

Lemma runs_step c h input : settles (decode_step fin eopm c h input) -> runs c h input.
Proof.
  destruct (decode_step fin eopm c h input) as [e c' h' rest|ret c' h' rest] eqn:E; cbn [settles].
  - intros [-> Hr]. exact (runs_next _ _ _ _ _ _ E Hr).
  - intros HK. exact (runs_out _ _ _ _ _ _ _ E HK).
Qed.

Lemma loop_runs fuel : forall top c h input ret c' h' rest, runs c h input ->
  decode_loop true fuel top fin eopm c h input = Some (ret, c', h', rest) -> K ret c' h' rest.
Proof.
  induction fuel as [|fuel IH]; intros top c h input ret c' h' rest Hr; [discriminate|]. cbn [decode_loop negb]. rewrite andb_false_r. cbn [andb].
  destruct Hr as [c h input ret0 c0 h0 rest0 E HK|c h input c0 h0 rest0 E Hr]; rewrite E; [now intros [= <- <- <- <-]|now apply IH].
Qed.

Context (F tail : bytes).

Lemma settles_bit c p b T seq h input k : synced F tail (RC_BIT p b :: T) (store_ c) (rc c) input ->
  (forall P r rest, synced F tail T P r rest -> settles (k b (set_rc c P r) rest)) -> settles (with_bit c p seq h input k).
Proof.
  intros Hs Hk. unfold with_bit. destruct (synced_bit _ _ _ _ _ _ _ _ Hs) as (r & rest & -> & Hs'). now apply Hk.
Qed.

(** *** Trees

    The places that read a tree of [2 ^ N] leaves stay there until a leaf is
    reached. *)
Definition reads_tree (h : history) (c0 : lzma_lzma1_decoder) (a : prob_ptr) (L : Z)
    (done : Z -> prob_store -> lzma_range_decoder -> bytes -> step_result history) : Prop :=
  forall s P r input, exists k seq,
    decode_step fin eopm (set_rc (set_symbol c0 s) P r) h input = with_bit (set_rc (set_symbol c0 s) P r) (index a s) seq h input k /\
    forall bit P' r' rest, k bit (set_rc (set_symbol c0 s) P' r') rest =
      if push_bit s bit <? L then Next eopm (set_rc (set_symbol c0 (push_bit s bit)) P' r') h rest else done (push_bit s bit) P' r' rest.

Lemma tree_bit v n m : 0 <= m -> 2 * m + 1 < 4294967296 ->
  let bit := Z.land (Z.shiftr v (Z.of_nat n)) 1 in
  u32 (u32 (Z.shiftl m 1) + bit) = push_bit m (bit =? 1) /\ push_bit m (bit =? 1) = 2 * m + (v / 2 ^ Z.of_nat n) mod 2.
Proof.
  intros Hm Hm2. cbv zeta. rewrite land_1, bit_eqb, Z.shiftr_div_pow2 by lia. set (q := v / _).
  rewrite push_bit_spec, u32_double by dlia. rewrite Zmod_odd. now destruct (Z.odd q).
Qed.

Lemma tree_runs h c0 a N done v T : reads_tree h c0 a (2 ^ (Z.of_nat N)) done -> (N <= 8)%nat -> forall n m P r input,
  (1 <= n <= N)%nat -> 2 ^ (Z.of_nat (N - n)) <= m < 2 ^ (Z.of_nat (N - n) + 1) ->
  synced F tail (bittree_symbols (index a) n v m ++ T) P r input ->
  (forall P' r' rest, synced F tail T P' r' rest -> settles (done (m * 2 ^ Z.of_nat n + v mod 2 ^ Z.of_nat n) P' r' rest)) ->
  runs (set_rc (set_symbol c0 m) P r) h input.
Proof.
  intros Hread HN. induction n as [|n IH]; intros m P r input Hn Hm Hs Hdone; [lia|].
  apply runs_step. destruct (Hread m P r input) as (k & seq & -> & Hk). cbn [bittree_symbols app] in Hs.
  eapply settles_bit; [exact Hs|]. intros P1 r1 rest1 Hs1.
  change (set_rc (set_rc (set_symbol c0 m) P r) P1 r1) with (set_rc (set_symbol c0 m) P1 r1). rewrite Hk.
  assert (2 ^ Z.of_nat (N - S n) <= 128) as Hb by (change 128 with (2 ^ 7); apply Z.pow_le_mono_r; lia).
  rewrite Z.pow_add_r in Hm by lia. change (2 ^ 1) with 2 in Hm. pose proof (Z.pow_pos_nonneg 2 (Z.of_nat (N - S n)) ltac:(lia) ltac:(lia)).
  destruct (tree_bit v n m ltac:(lia) ltac:(lia)) as [E1 E2]. rewrite E1 in Hs1. set (m' := push_bit m _) in *.
  assert (0 <= (v / 2 ^ Z.of_nat n) mod 2 < 2) as Hq by (apply Z.mod_pos_bound; lia).
  pose proof (Z.pow_pos_nonneg 2 (Z.of_nat n) ltac:(lia) ltac:(lia)) as Hpn.
  assert (m * 2 ^ Z.of_nat (S n) + v mod 2 ^ Z.of_nat (S n) = m' * 2 ^ Z.of_nat n + v mod 2 ^ Z.of_nat n) as Hv.
  { replace (Z.of_nat (S n)) with (Z.of_nat n + 1) by lia. rewrite Z.pow_add_r by lia. change (2 ^ 1) with 2. rewrite Z.rem_mul_r, E2 by lia. lia. }
  assert (2 ^ Z.of_nat (N - n) = 2 * 2 ^ Z.of_nat (N - S n)) as HN1.
  { replace (Z.of_nat (N - n)) with (Z.of_nat (N - S n) + 1) by lia. rewrite Z.pow_add_r by lia. lia. }
  destruct (Z.ltb_spec m' (2 ^ Z.of_nat N)) as [Hlt|Hge].
  - split; [reflexivity|]. assert (n <> O) as Hn0 by (intros ->; rewrite Nat.sub_0_r in HN1; lia).
    apply IH; [lia|rewrite Z.pow_add_r by lia; lia|exact Hs1|]. now rewrite <- Hv.
  - assert (n = O) as ->.
    { destruct n as [|n]; [reflexivity|]. assert (2 ^ Z.of_nat N >= 2 * 2 ^ Z.of_nat (N - S n)); [|lia].
      change 2 with (2 ^ 1) at 2. rewrite <- Z.pow_add_r by lia. pose proof (Z.pow_le_mono_r 2 (1 + Z.of_nat (N - S n)) (Z.of_nat N)). lia. }
    rewrite Hv in Hdone. change (2 ^ Z.of_nat 0) with 1 in Hdone. rewrite Z.mod_1_r, Z.mul_1_r, Z.add_0_r in Hdone. exact (Hdone _ _ _ Hs1).
Qed.

(** *** The other loops *)


(** One round of a matched literal: the next mask. *)
Lemma matched_offset mb off sym : off = 0 \/ off = 256 -> 0 <= sym < 65536 ->
  let bit := Z.land (Z.shiftr sym 7) 1 =? 1 in
  Z.land off (Z.lnot (Z.lxor mb (u32 (Z.shiftl sym 1)))) =
    Z.land off (if bit then Z.land mb off else Z.lnot (Z.land mb off)).
Proof.
  intros Hoff Hsym bit. destruct Hoff as [->| ->]; [now rewrite !Z.land_0_l|].
  assert (Z.testbit (u32 (Z.shiftl sym 1)) 8 = bit) as Hbit.
  { rewrite u32_small by (unfold is_u32; rewrite Z.shiftl_mul_pow2 by lia; lia). rewrite Z.shiftl_spec by lia. unfold bit.
    rewrite land_1, bit_eqb. rewrite <- Z.bit0_odd, Z.shiftr_spec by lia. reflexivity. }
  apply Z.bits_inj'. intros i Hi. destruct (Z.eq_dec i 8) as [->|Hne].
  - rewrite !Z.land_spec, Z.lnot_spec, Z.lxor_spec, Hbit by lia. destruct bit; rewrite ?Z.lnot_spec, Z.land_spec by lia;
      change (Z.testbit 256 8) with true; now destruct (Z.testbit mb 8).
  - rewrite !Z.land_spec. change 256 with (2 ^ 8). now rewrite (Z.pow2_bits_false 8 i) by lia.
Qed.

Lemma matched_runs h b T : is_byte b -> forall n c mb off sym input,
  (1 <= n <= 8)%nat -> sym = (256 + b) * 2 ^ Z.of_nat (8 - n) -> off = 0 \/ off = 256 ->
  sequence c = SEQ_LITERAL_MATCHED -> symbol c = (256 + b) / 2 ^ Z.of_nat n -> offset c = off -> len c = u32 (Z.shiftl mb 1) ->
  synced F tail (matched_symbols n (probs c) mb off sym ++ T) (store_ c) (rc c) input ->
  (forall P r l o rest, synced F tail T P r rest ->
    runs (set_sequence (set_rc (set_len (set_offset (set_symbol c (256 + b)) o) l) P r) SEQ_LITERAL_WRITE) h rest) ->
  runs c h input.
Proof.
  intros Hb. unfold is_byte in Hb. induction n as [|n IH]; intros c mb off sym input Hn Hsym Hoff Hseq Hsy Ho Hl Hs Hdone; [lia|].
  apply runs_step. unfold decode_step. rewrite Hseq. unfold step_literal_matched. cbn [matched_symbols app] in Hs.
  assert (2 ^ 8 = 2 ^ Z.of_nat (8 - S n) * 2 ^ Z.of_nat (S n)) as Hp8 by (rewrite <- Z.pow_add_r by lia; f_equal; lia).
  pose proof (Z.pow_pos_nonneg 2 (Z.of_nat (8 - S n)) ltac:(lia) ltac:(lia)) as Hp1.
  pose proof (Z.pow_pos_nonneg 2 (Z.of_nat (S n)) ltac:(lia) ltac:(lia)) as Hp2.
  pose proof (Z.pow_pos_nonneg 2 (Z.of_nat n) ltac:(lia) ltac:(lia)) as Hp3.
  assert (2 ^ Z.of_nat (S n) = 2 * 2 ^ Z.of_nat n) as Hp4 by (replace (Z.of_nat (S n)) with (Z.of_nat n + 1) by lia; rewrite Z.pow_add_r by lia; lia).
  change (2 ^ 8) with 256 in Hp8. set (A := 2 ^ Z.of_nat (8 - S n)) in *. set (B := 2 ^ Z.of_nat n) in *. rewrite Hp4 in *.
  assert (0 <= sym < 65536) as Hsr by nia.
  assert (Z.shiftr sym 8 = symbol c) as Hm.
  { rewrite Z.shiftr_div_pow2, Hsy, Hsym by lia. change (2 ^ 8) with 256. rewrite Hp8, Z.mul_comm. now rewrite Z.div_mul_cancel_l by lia. }
  assert (Z.shiftr sym 7 = (256 + b) / B) as Hm7.
  { rewrite Z.shiftr_div_pow2, Hsym by lia. change (2 ^ 7) with 128. replace 128 with (A * B) by lia. rewrite Z.mul_comm. now rewrite Z.div_mul_cancel_l by lia. }
  assert (u32 (Z.shiftl sym 1) = (256 + b) * (2 * A)) as Hnext.
  { rewrite u32_small by (unfold is_u32; rewrite Z.shiftl_mul_pow2 by lia; lia). rewrite Z.shiftl_mul_pow2 by lia. lia. }
  rewrite Ho, Hl. rewrite Hm in Hs. eapply settles_bit; [exact Hs|]. intros P r rest Hs1.
  pose proof (matched_offset (u32 (Z.shiftl mb 1)) off sym Hoff Hsr) as Hoff'. cbv zeta in Hoff'. rewrite Hoff', Hnext in Hs1.
  set (bit := Z.land (Z.shiftr sym 7) 1 =? 1) in *. set (off' := Z.land off (if bit then Z.land (u32 (Z.shiftl mb 1)) off else Z.lnot (Z.land (u32 (Z.shiftl mb 1)) off))) in *.
  assert (forall d, 0 < d -> 0 <= (256 + b) / d <= 511) as Hdiv
    by (intros d Hd; split; [apply Z.div_pos; lia|apply Z.div_le_upper_bound; nia]).
  assert (push_bit (symbol c) bit = (256 + b) / B) as Hpush.
  { pose proof (Hdiv (2 * B) ltac:(lia)). rewrite push_bit_spec by (rewrite Hsy; lia). unfold bit. rewrite Hm7, land_1, bit_eqb, Hsy. rewrite (Z.mul_comm 2 B), <- Z.div_div by lia.
    rewrite (Z.div_mod ((256 + b) / B) 2) at 3 by lia. rewrite Zmod_odd. now destruct (Z.odd _). }
  unfold goto_. cbn [symbol set_symbol set_tree set_rc offset set_offset len set_len probs]. rewrite Hpush, Ho, Hl. fold off'. cbn [settles]. split; [reflexivity|].
  destruct n as [|n].
  - change (2 ^ Z.of_nat 0) with 1 in B. subst B. rewrite Z.div_1_r. rewrite (proj2 (Z.ltb_ge _ _)) by lia. apply (Hdone _ _ _ _ _ Hs1).
  - assert (2 <= B) as HB2.
    { unfold B. replace (Z.of_nat (S n)) with (Z.of_nat n + 1) by lia. rewrite Z.pow_add_r by lia. pose proof (Z.pow_pos_nonneg 2 (Z.of_nat n)). lia. }
    rewrite (proj2 (Z.ltb_lt _ _)) by (apply Z.div_lt_upper_bound; nia).
    eapply (IH _ (u32 (Z.shiftl mb 1)) off' ((256 + b) * (2 * A))); cbn [sequence symbol offset len probs store_ rc set_sequence set_rc set_symbol set_tree set_offset set_len].
    + lia.
    + f_equal. unfold A. replace (Z.of_nat (8 - S n)) with (1 + Z.of_nat (8 - S (S n))) by lia. now rewrite Z.pow_add_r by lia.
    + assert (forall x, Z.land off x = 0 \/ Z.land off x = 256) as Hland by (intros x; rewrite Z.land_comm; destruct (land_offset x off Hoff); lia). apply Hland.
    + reflexivity.
    + reflexivity.
    + reflexivity.
    + reflexivity.
    + exact Hs1.
    + intros P' r' l o rest' Hs'. apply (Hdone _ _ _ _ _ Hs').
Qed.

(** The bits of a distance below its slot. *)
Lemma index_push v m : 0 <= m -> 2 * m + 1 < 4294967296 -> u32 (u32 (Z.shiftl m 1) + v mod 2) = push_bit m (Z.odd v).
Proof. intros. rewrite push_bit_spec, u32_double by dlia. rewrite Zmod_odd. now destruct (Z.odd v). Qed.

Lemma reverse_symbols_S (tree : Z -> prob_ptr) n v m : bittree_reverse_symbols tree (S n) v m =
  RC_BIT (tree m) (Z.odd v) :: bittree_reverse_symbols tree n (v / 2) (u32 (u32 (Z.shiftl m 1) + v mod 2)).
Proof. cbn [bittree_reverse_symbols]. now rewrite land_1, bit_eqb, (Z.shiftr_div_pow2 v 1) by lia. Qed.

Lemma direct_symbols_S v n : @direct_symbols prob_ptr v (S n) = RC_DIRECT (Z.odd (v / 2 ^ Z.of_nat n)) :: direct_symbols v n.
Proof. cbn [direct_symbols]. now rewrite land_1, bit_eqb, Z.shiftr_div_pow2 by lia. Qed.

Lemma model_runs h T : forall n v c k d input, 0 <= d < 1000 + 2 ^ k -> 0 <= k -> limit_ c = k + Z.of_nat (S n) ->
  k + Z.of_nat (S n) <= 5 -> 2 ^ k <= symbol c < 2 ^ (k + 1) -> sequence c = SEQ_DIST_MODEL -> offset c = k -> rep0 c = d ->
  synced F tail (bittree_reverse_symbols (index (probs c)) (S n) v (symbol c) ++ T) (store_ c) (rc c) input ->
  window_valid h (d + v mod 2 ^ Z.of_nat (S n) * 2 ^ k) = true ->
  (forall P r m o rest, synced F tail T P r rest ->
    runs (set_sequence (set_offset (set_rep0 (set_rc (set_symbol c m) P r) (d + v mod 2 ^ Z.of_nat (S n) * 2 ^ k)) o) SEQ_COPY) h rest) ->
  runs c h input.
Proof.
  induction n as [|n IH]; intros v c k d input Hd Hk Hlim Hk5 Hm Hseq Ho Hr Hs Hval Hdone.
  all: apply runs_step; unfold decode_step; rewrite Hseq; unfold step_dist_model; rewrite reverse_symbols_S in Hs; cbn [app] in Hs.
  all: eapply settles_bit; [exact Hs|]; intros P r rest Hs1; cbv zeta.
  all: assert (2 ^ (k + 1) <= 32) as H32 by (change 32 with (2 ^ 5); apply Z.pow_le_mono_r; lia).
  all: assert (2 ^ (k + 1) = 2 * 2 ^ k) as Hk1 by (rewrite Z.pow_add_r by lia; lia).
  all: pose proof (Z.pow_pos_nonneg 2 k ltac:(lia) ltac:(lia)) as Hpk.
  all: assert (v mod 2 = Z.b2z (Z.odd v)) as Hv2 by (rewrite Zmod_odd; now destruct (Z.odd v)).
  all: set (c1 := if Z.odd v then _ else _).
  all: assert (c1 = set_rep0 (set_rc (set_symbol c (push_bit (symbol c) (Z.odd v))) P r) (d + v mod 2 * 2 ^ k)) as ->
    by (unfold c1; rewrite Hv2; destruct (Z.odd v); cbn [Z.b2z]; unfold set_rep0, set_reps; cbn [rep0 set_symbol set_tree set_rc offset];
        rewrite ?Ho, ?Hr; unfold set_symbol, set_rc, set_tree; cbn;
        [f_equal; rewrite Z.shiftl_mul_pow2, u32_small by (try lia; unfold is_u32; lia); lia|f_equal; lia]).
  all: cbn [offset set_offset set_rep0 set_reps set_rc set_symbol set_tree limit_]; rewrite Ho, Hlim.
  - rewrite (proj2 (Z.ltb_ge _ _)) by lia. unfold check_distance.
    cbn [rep0 set_offset set_rep0 set_reps]. change (Z.of_nat 1) with 1 in *. change (2 ^ 1) with 2 in *. rewrite Hval. cbn [negb]. split; [reflexivity|]. apply (Hdone _ _ _ _ _ Hs1).
  - rewrite (proj2 (Z.ltb_lt _ _)) by lia. split; [reflexivity|]. rewrite index_push in Hs1 by lia.
    assert (forall x, d + x mod 2 ^ Z.of_nat (S (S n)) * 2 ^ k = d + x mod 2 * 2 ^ k + (x / 2) mod 2 ^ Z.of_nat (S n) * 2 ^ (k + 1)) as Hx.
    { intros x. replace (Z.of_nat (S (S n))) with (1 + Z.of_nat (S n)) by lia. rewrite (Z.pow_add_r 2 1), Z.rem_mul_r, Hk1 by lia. change (2 ^ 1) with 2. lia. }
    assert (0 <= v mod 2 < 2) by (apply Z.mod_pos_bound; lia).
    eapply (IH (v / 2) _ (k + 1)); cbn [offset sequence limit_ rep0 symbol probs store_ rc set_offset set_sequence set_rep0 set_reps set_rc set_symbol set_tree].
    all: try reflexivity; try lia; try nia.
    + rewrite push_bit_spec by lia. rewrite (Z.pow_add_r 2 (k + 1)), Hk1 by lia. destruct (Z.odd v); cbn [Z.b2z]; lia.
    + exact Hs1.
    + now rewrite <- Hx.
    + intros P' r' m o rest' Hs'. rewrite <- Hx. apply (Hdone _ _ _ _ _ Hs').
Qed.

Lemma direct_runs h v T : forall n c d input, 0 <= d -> (d + 1) * 2 ^ Z.of_nat (S n) <= 4294967296 ->
  sequence c = SEQ_DIRECT -> limit_ c = Z.of_nat (S n) -> rep0 c = d ->
  synced F tail (direct_symbols v (S n) ++ T) (store_ c) (rc c) input ->
  (forall P r rest l, synced F tail T P r rest ->
    runs (set_sequence (set_offset (set_symbol (set_rep0 (set_limit_ (set_rc c P r) l)
      (u32 (Z.shiftl (d * 2 ^ Z.of_nat (S n) + v mod 2 ^ Z.of_nat (S n)) (Z.of_nat ALIGN_BITS)))) 0) 1) SEQ_ALIGN) h rest) ->
  runs c h input.
Proof.
  induction n as [|n IH]; intros c d input Hd Hb Hseq Hl Hr Hs Hdone.
  all: apply runs_step; unfold decode_step; rewrite Hseq; unfold step_direct; rewrite direct_symbols_S in Hs; cbn [app] in Hs.
  all: destruct (synced_direct _ _ _ _ _ _ _ (rep0 c) Hs) as (r & rest & -> & _ & Hs1).
  all: cbn [limit_ set_limit_ set_rep0 set_reps set_rc rep0]; rewrite Hl, Hr.
  - change (2 ^ Z.of_nat 1) with 2 in *. change (2 ^ Z.of_nat 0) with 1. rewrite Z.div_1_r, push_bit_spec by lia. split; [reflexivity|].
    replace (2 * d + Z.b2z (Z.odd v)) with (d * 2 + v mod 2) by (rewrite Zmod_odd; destruct (Z.odd v); cbn [Z.b2z]; lia).
    apply (Hdone _ _ _ (Z.of_nat 1 - 1) Hs1).
  - assert (0 < Z.of_nat (S (S n)) - 1) as Hgt by lia. apply Z.gtb_lt in Hgt. rewrite Hgt. split; [reflexivity|].
    set (q := v / 2 ^ Z.of_nat (S n)) in *. assert (2 ^ Z.of_nat (S (S n)) = 2 ^ Z.of_nat (S n) * 2) as Hp2
      by (replace (Z.of_nat (S (S n))) with (Z.of_nat (S n) + 1) by lia; rewrite Z.pow_add_r by lia; lia).
    pose proof (Z.pow_pos_nonneg 2 (Z.of_nat (S n)) ltac:(lia) ltac:(lia)) as Hpn2.
    assert (push_bit d (Z.odd q) = 2 * d + q mod 2) as Hpush
      by (rewrite push_bit_spec by nia; rewrite Zmod_odd; destruct (Z.odd q); cbn [Z.b2z]; lia).
    assert (0 <= q mod 2 < 2) by (apply Z.mod_pos_bound; lia).
    rewrite Hpush. eapply (IH _ (2 * d + q mod 2)); cbn [limit_ sequence rep0 store_ rc set_sequence set_limit_ set_rep0 set_reps set_rc].
    all: try reflexivity; try lia; try nia.
    + exact Hs1.
    + intros P' r' rest' l Hs'. specialize (Hdone _ _ _ l Hs'). rewrite Hp2, (Z.rem_mul_r v) in Hdone by lia. fold q in Hdone.
      replace (d * (2 ^ Z.of_nat (S n) * 2) + (v mod 2 ^ Z.of_nat (S n) + 2 ^ Z.of_nat (S n) * (q mod 2))) with
        ((2 * d + q mod 2) * 2 ^ Z.of_nat (S n) + v mod 2 ^ Z.of_nat (S n)) in Hdone by lia. exact Hdone.
Qed.

(** The encoder numbers the nodes of the tree of the four lowest bits by the
    path from the root, the decoder by the value of the bits that are known. *)
Definition align_node (i : Z) : Z := byte_at [0; 1; 2; 3; 4; 6; 5; 7; 8; 12; 10; 14; 9; 13; 11; 15] i.

Definition decoder_ptr (p : prob_ptr) : prob_ptr := match p.1 with pos_align => (pos_align, align_node p.2) | _ => p end.

Definition decoder_bit (s : rc_symbol prob_ptr) : rc_symbol prob_ptr :=
  match s with RC_BIT p b => RC_BIT (decoder_ptr p) b | _ => s end.

Lemma align_symbols v : 0 <= v < 16 -> map decoder_bit (bittree_reverse_symbols (index (pos_align, 0)) ALIGN_BITS v 1) =
  map (fun o => RC_BIT (pos_align, o + v mod o) (Z.odd (v / o))) [1; 2; 4; 8].
Proof.
  intros Hv. assert (v ∈ seqZ 0 16) as Hin by (apply elem_of_seqZ; lia). clear Hv; revert v Hin. apply Forall_forall.
  repeat constructor.
Qed.

Lemma align_step h c o v T input : o = 1 \/ o = 2 \/ o = 4 \/ o = 8 -> 0 <= v < 16 -> sequence c = SEQ_ALIGN -> offset c = o -> symbol c = v mod o ->
  synced F tail (RC_BIT (pos_align, o + v mod o) (Z.odd (v / o)) :: T) (store_ c) (rc c) input ->
  (forall P r rest, synced F tail T P r rest ->
    let c' := set_offset (set_symbol (set_rc c P r) (v mod (2 * o))) (2 * o) in
    if 2 * o <? 16 then runs (set_sequence c' SEQ_ALIGN) h rest
    else
      let c' := set_rep0 c' (u32 (rep0 c + v)) in
      settles (if rep0 c' =? UINT32_MAX then (if negb eopm then Out LZMA_DATA_ERROR c' h rest else goto_ eopm SEQ_EOPM c' h rest)
               else check_distance eopm c' h rest)) -> runs c h input.
Proof.
  intros Ho Hv Hseq Hoff Hsy Hs Hdone. apply runs_step. unfold decode_step. rewrite Hseq. unfold step_align. rewrite Hoff, Hsy.
  eapply settles_bit; [exact Hs|]. intros P r rest Hs'. specialize (Hdone P r rest Hs'). cbv zeta in *.
  set (c1 := if Z.odd (v / o) then _ else _).
  assert (c1 = set_symbol (set_rc c P r) (v mod (2 * o))) as ->.
  { rewrite (Z.mul_comm 2 o), Z.rem_mul_r by lia. rewrite (Zmod_odd (v / o)). unfold c1, set_symbol. cbn [symbol set_rc offset probs]. rewrite Hsy, Hoff.
    destruct (Z.odd (v / o)); [f_equal; lia|]. rewrite Z.mul_0_r, Z.add_0_r. rewrite <- Hsy. now destruct c. }
  cbn [offset set_offset set_symbol set_tree set_rc]. rewrite Hoff.
  assert (u32 (Z.shiftl o 1) = 2 * o) as -> by (destruct Ho as [->|[->|[->| ->]]]; reflexivity). unfold ALIGN_SIZE.
  destruct (Z.ltb_spec (2 * o) 16) as [Hlt|Hge]; [now split|].
  assert (o = 8) as -> by lia. cbn [rep0 symbol set_rc set_symbol set_tree set_offset]. change (2 * 8) with 16 in *. rewrite (Z.mod_small v 16) in * by lia. exact Hdone.
Qed.

Lemma align_runs h v T c d input : 0 <= v < 16 -> 0 <= d -> d + v < 4294967296 -> sequence c = SEQ_ALIGN -> offset c = 1 -> symbol c = 0 -> rep0 c = d ->
  synced F tail (map decoder_bit (bittree_reverse_symbols (index (pos_align, 0)) ALIGN_BITS v 1) ++ T) (store_ c) (rc c) input ->
  (if d + v =? UINT32_MAX then eopm = true else window_valid h (d + v) = true) ->
  (forall P r rest x o, synced F tail T P r rest ->
    runs (set_sequence (set_rep0 (set_offset (set_symbol (set_rc c P r) x) o) (d + v)) (if d + v =? UINT32_MAX then SEQ_EOPM else SEQ_COPY)) h rest) ->
  runs c h input.
Proof.
  intros Hv Hd Hdv Hseq Ho Hsy Hr Hs Hval Hdone. rewrite align_symbols in Hs by exact Hv. cbn [map app] in Hs.
  eapply (align_step h c 1 v); [lia|exact Hv|exact Hseq|exact Ho|now rewrite Z.mod_1_r|exact Hs|]. intros P1 r1 i1 Hs1. cbv zeta.
  change (2 * 1 <? 16) with true. eapply (align_step h _ 2 v); [lia|exact Hv|reflexivity|reflexivity|reflexivity|exact Hs1|]. intros P2 r2 i2 Hs2. cbv zeta.
  change (2 * 2 <? 16) with true. eapply (align_step h _ 4 v); [lia|exact Hv|reflexivity|reflexivity|reflexivity|exact Hs2|]. intros P3 r3 i3 Hs3. cbv zeta.
  change (2 * 4 <? 16) with true. eapply (align_step h _ 8 v); [lia|exact Hv|reflexivity|reflexivity|reflexivity|exact Hs3|]. intros P4 r4 i4 Hs4. cbv zeta.
  change (2 * 8 <? 16) with false. cbn [rep0 set_rep0 set_reps set_offset set_symbol set_tree set_rc set_sequence]. rewrite Hr, u32_small by (unfold is_u32; lia).
  specialize (Hdone _ _ _ (v mod (2 * 8)) (2 * 8) Hs4).
  destruct (d + v =? UINT32_MAX); [rewrite Hval; now split|]. unfold check_distance. cbn [rep0 set_rep0 set_reps]. rewrite Hval. now split.
Qed.

(** *** The pointers that both sides name in the same way *)

Lemma bittree_plain p n v m : p.1 <> pos_align -> map decoder_bit (bittree_symbols (index p) n v m) = bittree_symbols (index p) n v m.
Proof.
  intros Hp. revert m. induction n as [|n IH]; intros m; [reflexivity|]. cbn [bittree_symbols map]. rewrite IH. cbn [decoder_bit]. f_equal. f_equal.
  unfold decoder_ptr, index. cbn [fst]. now destruct p as [[] i].
Qed.

Lemma reverse_plain p n v m : p.1 <> pos_align -> map decoder_bit (bittree_reverse_symbols (index p) n v m) = bittree_reverse_symbols (index p) n v m.
Proof.
  intros Hp. revert v m. induction n as [|n IH]; intros v m; [reflexivity|]. cbn [bittree_reverse_symbols map]. rewrite IH. cbn [decoder_bit]. f_equal. f_equal.
  unfold decoder_ptr, index. cbn [fst]. now destruct p as [[] i].
Qed.

Lemma direct_plain n v : map decoder_bit (direct_symbols v n) = direct_symbols v n.
Proof. induction n as [|n IH]; [reflexivity|]. cbn [direct_symbols map]. now rewrite IH. Qed.

Lemma matched_plain p n : forall mb off sym, p.1 <> pos_align -> map decoder_bit (matched_symbols n p mb off sym) = matched_symbols n p mb off sym.
Proof.
  induction n as [|n IH]; intros mb off sym Hp; [reflexivity|]. cbn [matched_symbols map]. rewrite IH by exact Hp. cbn [decoder_bit]. f_equal. f_equal.
  unfold decoder_ptr, index. cbn [fst]. now destruct p as [[] i].
Qed.

Lemma literal_plain st p mb b : p.1 <> pos_align -> map decoder_bit (literal_symbols st p mb b) = literal_symbols st p mb b.
Proof. intros Hp. unfold literal_symbols. case_if; [now apply bittree_plain|now apply matched_plain]. Qed.

Lemma length_plain repeated ps len : map decoder_bit (length_symbols repeated ps len) = length_symbols repeated ps len.
Proof. unfold length_symbols. cbv zeta. repeat case_if; cbn [map decoder_bit]; now rewrite bittree_plain. Qed.

(** *** Lengths *)

Definition with_len (c : lzma_lzma1_decoder) (P : prob_store) (r : lzma_range_decoder) (l : Z) (p : prob_ptr) (x len : Z) : lzma_lzma1_decoder :=
  set_len (set_tree (set_limit_ (set_rc c P r) l) p x) len.

(** Where the decoder goes after a length. *)
Definition after_len (rep : bool) (len : Z) (c : lzma_lzma1_decoder) : lzma_lzma1_decoder :=
  if rep then set_sequence c SEQ_COPY else set_sequence (set_tree c (dist_slot_probs (get_dist_state len), 0) 1) SEQ_DIST_SLOT.

Lemma len_tree_runs h rep c a N target v T input : (1 <= N <= 8)%nat -> 0 <= v < 2 ^ Z.of_nat N -> 0 <= target -> target + v <= 273 ->
  synced F tail (bittree_symbols (index (a, 0)) N v 1 ++ T) (store_ c) (rc c) input ->
  (forall P r rest x, synced F tail T P r rest -> runs (after_len rep (target + v) (with_len c P r (2 ^ Z.of_nat N) (a, 0) x (target + v))) h rest) ->
  runs (set_sequence (start_len c a (2 ^ Z.of_nat N) target) (SEQ_LEN_BITTREE rep)) h input.
Proof.
  intros HN Hv Ht Htv Hs Hdone. set (L := 2 ^ Z.of_nat N) in *. set (c0 := set_sequence (start_len c a L target) (SEQ_LEN_BITTREE rep)).
  change c0 with (set_rc (set_symbol c0 1) (store_ c) (rc c)).
  eapply (tree_runs h c0 (a, 0) N (fun s P r i =>
    let c := set_rc (set_symbol c0 s) P r in let c := set_len c (u32 (target + (s - L))) in
    if rep then goto_ eopm SEQ_COPY c h i else goto_ eopm SEQ_DIST_SLOT (set_tree c (dist_slot_probs (get_dist_state (len c)), 0) 1) h i)
    v T); [|lia| |rewrite Nat.sub_diag; cbn; lia|exact Hs|].
  - intros s P r i. eexists _, _. split; [reflexivity|]. intros bit P' r' rest. reflexivity.
  - lia.
  - intros P r rest Hs'. specialize (Hdone P r rest (1 * 2 ^ Z.of_nat N + v mod 2 ^ Z.of_nat N) Hs'). cbv zeta.
    rewrite (Z.mod_small v) in * by (fold L; lia). fold L in Hdone |- *.
    replace (target + (1 * L + v - L)) with (target + v) by lia. rewrite u32_small by (unfold is_u32; lia).
    unfold after_len in Hdone. destruct rep; (split; [reflexivity|]); exact Hdone.
Qed.

Lemma len_runs h rep c len T input : 2 <= len <= MATCH_LEN_MAX -> sequence c = SEQ_LEN_CHOICE rep ->
  synced F tail (length_symbols rep (pos_state c h) len ++ T) (store_ c) (rc c) input ->
  (forall P r rest l p x, synced F tail T P r rest -> runs (after_len rep len (with_len c P r l p x len)) h rest) ->
  runs c h input.
Proof.
  intros Hlen Hseq Hs Hdone. apply runs_step. unfold decode_step. rewrite Hseq. unfold step_len_choice. unfold length_symbols in Hs. cbv zeta in Hs.
  destruct (Z.ltb_spec (len - MATCH_LEN_MIN) LEN_LOW_SYMBOLS) as [H1|H1]; cbn [app] in Hs; (eapply settles_bit; [exact Hs|]); intros P r rest Hs1; (split; [reflexivity|]).
  - eapply (len_tree_runs h rep (set_rc c P r) (len_low rep (pos_state c h)) 3 MATCH_LEN_MIN (len - MATCH_LEN_MIN)).
    1-5: first [exact Hs1|lia|len_lia].
    intros P' r' rest' x Hs'. replace (MATCH_LEN_MIN + (len - MATCH_LEN_MIN)) with len by lia. exact (Hdone _ _ _ _ _ _ Hs').
  - apply runs_step. unfold decode_step. cbn [sequence set_sequence]. unfold step_len_choice2.
    destruct (Z.ltb_spec (len - MATCH_LEN_MIN - LEN_LOW_SYMBOLS) LEN_MID_SYMBOLS) as [H2|H2]; (eapply settles_bit; [exact Hs1|]); intros P1 r1 rest1 Hs2; (split; [reflexivity|]).
    + eapply (len_tree_runs h rep (set_rc c P1 r1) (len_mid rep (pos_state c h)) 3 (MATCH_LEN_MIN + LEN_LOW_SYMBOLS) (len - MATCH_LEN_MIN - LEN_LOW_SYMBOLS)).
      1-5: first [exact Hs2|lia|len_lia].
      intros P' r' rest' x Hs'. replace (MATCH_LEN_MIN + LEN_LOW_SYMBOLS + (len - MATCH_LEN_MIN - LEN_LOW_SYMBOLS)) with len by lia. exact (Hdone _ _ _ _ _ _ Hs').
    + eapply (len_tree_runs h rep (set_rc c P1 r1) (len_high rep) 8 (MATCH_LEN_MIN + LEN_LOW_SYMBOLS + LEN_MID_SYMBOLS) (len - MATCH_LEN_MIN - LEN_LOW_SYMBOLS - LEN_MID_SYMBOLS)).
      1-5: first [exact Hs2|lia|len_lia].
      intros P' r' rest' x Hs'. replace (MATCH_LEN_MIN + LEN_LOW_SYMBOLS + LEN_MID_SYMBOLS + (len - MATCH_LEN_MIN - LEN_LOW_SYMBOLS - LEN_MID_SYMBOLS)) with len by lia.
      exact (Hdone _ _ _ _ _ _ Hs').
Qed.

(** *** Distances *)

(** The first distance of a slot, and the bits that are left. *)
Lemma slot_split d : 4 <= d < 4294967296 ->
  let slot := get_dist_slot d in let n := Z.shiftr slot 1 - 1 in
  4 <= slot < 64 /\ 1 <= n <= 30 /\ (slot < 14 -> n <= 5) /\ (14 <= slot -> 6 <= n) /\
  Z.lor 2 (Z.land slot 1) = 2 + Z.land slot 1 /\ d / 2 ^ n = 2 + Z.land slot 1.
Proof.
  intros Hd. cbv zeta. rewrite get_dist_slot_spec by (unfold is_u32; lia). rewrite dist_slot_formula by lia.
  set (i := Z.log2 d). assert (2 <= i <= 31) as Hi.
  { unfold i. split; [change 2 with (Z.log2 4); apply Z.log2_le_mono; lia|]. assert (Z.log2 d < 32); [apply Z.log2_lt_pow2; lia|lia]. }
  pose proof (Z.log2_spec d ltac:(lia)) as Hl. fold i in Hl. rewrite Z.pow_succ_r in Hl by lia.
  assert (2 ^ i = 2 * 2 ^ (i - 1)) as Hp by (replace i with (1 + (i - 1)) at 1 by lia; rewrite Z.pow_add_r by lia; lia).
  pose proof (Z.pow_pos_nonneg 2 (i - 1) ltac:(lia) ltac:(lia)) as Hpos.
  rewrite Z.shiftr_div_pow2, land_1 by lia. set (q := d / 2 ^ (i - 1)).
  assert (2 <= q < 4) as Hq by (unfold q; split; [apply Z.div_le_lower_bound; lia|apply Z.div_lt_upper_bound; lia]).
  assert (q mod 2 = q - 2) as -> by dlia. set (s := 2 * i + (q - 2)).
  assert (Z.land s 1 = q - 2) as -> by (rewrite land_1; unfold s; rewrite Z.mul_comm, Z.add_comm, Z.mod_add by lia; apply Z.mod_small; lia).
  assert (Z.shiftr s 1 = i) as -> by (rewrite Z.shiftr_div_pow2 by lia; change (2 ^ 1) with 2; unfold s; dlia).
  unfold s. split_and!; try lia. assert (q = 2 \/ q = 3) as [->| ->] by lia; reflexivity.
Qed.

(** What stays as it is while a distance is decoded. *)
Definition same_core (c c' : lzma_lzma1_decoder) : Prop :=
  state c' = state c /\ rep1 c' = rep1 c /\ rep2 c' = rep2 c /\ rep3 c' = rep3 c /\ pos_mask c' = pos_mask c /\
  literal_context_bits c' = literal_context_bits c /\ literal_mask c' = literal_mask c /\ len c' = len c.

Ltac core := repeat split; assumption || reflexivity.

Definition distance_place (d : Z) : lzma_sequence := if d =? UINT32_MAX then SEQ_EOPM else SEQ_COPY.

Lemma footer_runs h d c T P r input : 4 <= d < 4294967296 ->
  (if d =? UINT32_MAX then eopm = true else window_valid h d = true) ->
  let slot := get_dist_slot d in
  synced F tail (map decoder_bit (footer_symbols d slot) ++ T) P r input ->
  (forall c' rest, same_core c c' -> rep0 c' = d -> sequence c' = distance_place d -> synced F tail T (store_ c') (rc c') rest -> runs c' h rest) ->
  let c := set_rc (set_limit_ c (Z.shiftr slot 1 - 1)) P r in let c := set_rep0 c (2 + Z.land slot 1) in
  settles (if slot <? DIST_MODEL_END then
      let c := set_rep0 c (u32 (Z.shiftl (rep0 c) (limit_ c))) in
      goto_ eopm SEQ_DIST_MODEL (set_offset (set_tree c (pos_special, rep0 c - slot - 1) 1) 0) h input
    else goto_ eopm SEQ_DIRECT (set_limit_ c (limit_ c - Z.of_nat ALIGN_BITS)) h input).
Proof.
  intros Hd Hval slot Hs Hdone. destruct (slot_split d Hd) as (Hslot & Hn & Hsmall & Hbig & Hlor & Hq). fold slot in Hslot, Hn, Hsmall, Hbig, Hlor, Hq.
  unfold footer_symbols in Hs. cbv zeta in *. assert (slot >=? DIST_MODEL_START = true) as Hge by (apply Z.geb_le; unfold DIST_MODEL_START; lia).
  rewrite Hge, Hlor in Hs. set (n := Z.shiftr slot 1 - 1) in *. set (x := 2 + Z.land slot 1) in *.
  pose proof (Z.pow_pos_nonneg 2 n ltac:(lia) ltac:(lia)) as Hpn.
  assert (x * 2 ^ n <= d < x * 2 ^ n + 2 ^ n) as Hxd by (rewrite <- Hq; pose proof (Z.div_mod d (2 ^ n) ltac:(lia)); pose proof (Z.mod_pos_bound d (2 ^ n) Hpn); lia).
  assert (2 <= x < 4) as Hx by (unfold x; rewrite land_1; pose proof (Z.mod_pos_bound slot 2 ltac:(lia)); lia).
  rewrite Z.shiftl_mul_pow2, (u32_small (x * 2 ^ n)) in Hs by (try lia; unfold is_u32; lia). rewrite u32_small in Hs by (unfold is_u32; lia).
  set (v := d - x * 2 ^ n) in *. unfold DIST_MODEL_END in *.
  destruct (Z.ltb_spec slot 14) as [Hlt|Hge2].
  - rewrite reverse_plain in Hs by discriminate. split; [reflexivity|].
    assert (2 ^ n <= 32) as H32 by (change 32 with (2 ^ 5); apply Z.pow_le_mono_r; lia).
    destruct (Z.to_nat n) as [|k] eqn:Ek; [lia|]. assert (n = Z.of_nat (S k)) as Hnk by lia.
    cbn [rep0 limit_ set_rep0 set_reps set_rc set_limit_]. fold n x. rewrite Z.shiftl_mul_pow2, (u32_small (x * 2 ^ n)) by (try lia; unfold is_u32; lia).
    assert (x * 2 ^ n + v mod 2 ^ Z.of_nat (S k) * 2 ^ 0 = d) as Hfin by (rewrite Z.mod_small by (rewrite <- Hnk; lia); change (2 ^ 0) with 1; unfold v; lia).
    assert (d <> UINT32_MAX) as Hmax by (unfold UINT32_MAX; nia). rewrite (proj2 (Z.eqb_neq _ _) Hmax) in Hval.
    eapply (model_runs h T k v _ 0 (x * 2 ^ n)); cbn [offset sequence limit_ rep0 symbol probs store_ rc set_offset set_sequence set_rep0 set_reps set_rc set_symbol set_tree set_limit_].
    all: try reflexivity; try lia.
    + change (2 ^ 0) with 1. nia.
    + exact Hs.
    + now rewrite Hfin.
    + intros P' r' m o rest Hs'. apply Hdone; [core|exact Hfin| |exact Hs']. unfold distance_place. now rewrite (proj2 (Z.eqb_neq _ _) Hmax).
  - rewrite map_app, direct_plain, <- app_assoc in Hs. split; [reflexivity|]. cbn [limit_ set_limit_ set_rep0 set_reps set_rc]. fold n x.
    change (Z.of_nat ALIGN_BITS) with 4 in *. assert (6 <= n) as Hn6 by (apply Hbig; lia).
    destruct (Z.to_nat (n - 4)) as [|k] eqn:Ek; [lia|]. assert (n - 4 = Z.of_nat (S k)) as Hnk by lia.
    assert (2 ^ n = 2 ^ Z.of_nat (S k) * 16) as Hp16 by (change 16 with (2 ^ 4); rewrite <- Hnk, <- Z.pow_add_r by lia; f_equal; lia).
    change ALIGN_MASK with (2 ^ 4 - 1) in Hs. rewrite land_low, Z.shiftr_div_pow2 in Hs by lia. change (2 ^ 4) with 16 in Hs.
    assert (v / 16 < 2 ^ Z.of_nat (S k)) as Hv16 by (apply Z.div_lt_upper_bound; lia). assert (0 <= v / 16) as Hv0 by (apply Z.div_pos; lia).
    assert (u32 (Z.shiftl (x * 2 ^ Z.of_nat (S k) + (v / 16) mod 2 ^ Z.of_nat (S k)) 4) = d - v mod 16) as Hsum.
    { rewrite Z.mod_small, Z.shiftl_mul_pow2 by lia. change (2 ^ 4) with 16. pose proof (Z.div_mod v 16 ltac:(lia)). pose proof (Z.mod_pos_bound v 16 ltac:(lia)).
      rewrite u32_small by (unfold is_u32; nia). unfold v in *. nia. }
    pose proof (Z.mod_pos_bound v 16 ltac:(lia)) as Hm16.
    eapply (direct_runs h (v / 16) _ k _ x); cbn [sequence limit_ rep0 store_ rc set_sequence set_rep0 set_reps set_rc set_limit_].
    all: try reflexivity; try lia; try nia.
    + exact Hs.
    + intros P' r' rest l Hs'. change (Z.of_nat ALIGN_BITS) with 4. rewrite Hsum.
      assert (0 <= d - v mod 16) as Hd0 by (unfold v in *; nia).
      eapply (align_runs h (v mod 16) T _ (d - v mod 16)); cbn [sequence offset symbol rep0 store_ rc set_sequence set_rep0 set_reps set_rc set_limit_ set_offset set_symbol set_tree].
      all: try reflexivity; try lia.
      * exact Hs'.
      * replace (d - v mod 16 + v mod 16) with d by lia. exact Hval.
      * replace (d - v mod 16 + v mod 16) with d by lia. intros P2 r2 rest2 y o Hs2. apply Hdone; [core|reflexivity|reflexivity|exact Hs2].
Qed.

Lemma footer_small d slot : slot < 4 -> footer_symbols d slot = [].
Proof. intros Hs. unfold footer_symbols. destruct (Z.geb_spec slot DIST_MODEL_START) as [Hge|]; [unfold DIST_MODEL_START in Hge; lia|reflexivity]. Qed.

Lemma slot_runs h d c T input : 0 <= d < 4294967296 -> sequence c = SEQ_DIST_SLOT -> symbol c = 1 ->
  (if d =? UINT32_MAX then eopm = true else window_valid h d = true) ->
  synced F tail (map decoder_bit (bittree_symbols (index (probs c)) DIST_SLOT_BITS (get_dist_slot d) 1 ++ footer_symbols d (get_dist_slot d)) ++ T)
    (store_ c) (rc c) input -> (probs c).1 <> pos_align ->
  (forall c' rest, same_core c c' -> rep0 c' = d -> sequence c' = distance_place d -> synced F tail T (store_ c') (rc c') rest -> runs c' h rest) ->
  runs c h input.
Proof.
  intros Hd Hseq Hsy Hval Hs Hpl Hdone. rewrite map_app, bittree_plain, <- app_assoc in Hs by exact Hpl. destruct (probs c) as [a a0] eqn:Ep.
  set (slot := get_dist_slot d) in *.
  assert (0 <= slot < 64 /\ (d < 4 -> slot = d) /\ (4 <= d -> 4 <= slot)) as (Hslot & Hsm & Hbig).
  { destruct (Z.ltb_spec d 4) as [Hlt|Hge].
    - assert (slot = d) as -> by (unfold slot; rewrite get_dist_slot_spec by (unfold is_u32; lia); unfold dist_slot; now rewrite (proj2 (Z.leb_le _ _)) by lia). lia.
    - pose proof (slot_split d ltac:(lia)) as Hsl. cbv zeta in Hsl. fold slot in Hsl. lia. }
  assert (c = set_rc (set_symbol c 1) (store_ c) (rc c)) as -> by (destruct c; cbn in *; now subst).
  eapply (tree_runs h c (a, a0) 6 (fun s P r i =>
    let c := set_rc (set_symbol c s) P r in
      let c := set_symbol c (symbol c - DIST_SLOTS) in
      if symbol c <? DIST_MODEL_START then check_distance eopm (set_rep0 c (symbol c)) h i
      else
        let c := set_limit_ c (Z.shiftr (symbol c) 1 - 1) in
        let c := set_rep0 c (2 + Z.land (symbol c) 1) in
        if symbol c <? DIST_MODEL_END then
          let c := set_rep0 c (u32 (Z.shiftl (rep0 c) (limit_ c))) in
          goto_ eopm SEQ_DIST_MODEL (set_offset (set_tree c (pos_special, rep0 c - symbol c - 1) 1) 0) h i
        else goto_ eopm SEQ_DIRECT (set_limit_ c (limit_ c - Z.of_nat ALIGN_BITS)) h i)
    slot _); [|lia| |rewrite Nat.sub_diag; cbn; lia|exact Hs|].
  - intros s P r i. eexists _, _. split.
    + unfold decode_step. cbn [sequence set_rc set_symbol set_tree]. rewrite Hseq. unfold step_dist_slot. cbn [probs symbol set_rc set_symbol set_tree]. rewrite Ep. reflexivity.
    + intros bit P' r' rest. cbn [symbol set_rc set_symbol set_tree]. change (2 ^ Z.of_nat 6) with DIST_SLOTS.
      destruct (_ <? _); [|reflexivity]. unfold goto_. rewrite <- Hseq. now destruct c.
  - unfold DIST_SLOT_BITS. lia.
  - intros P r rest Hs'. change (2 ^ Z.of_nat 6) with 64. rewrite Z.mod_small by lia. cbv zeta.
    cbn [symbol set_rc set_symbol set_tree]. change DIST_SLOTS with 64. replace (1 * 64 + slot - 64) with slot by lia.
    destruct (Z.ltb_spec slot DIST_MODEL_START) as [Hlt|Hge]; unfold DIST_MODEL_START in *.
    + assert (slot = d) as Hsd by lia. assert (d <> UINT32_MAX) as Hmax by (unfold UINT32_MAX; lia). rewrite (proj2 (Z.eqb_neq _ _) Hmax) in Hval.
      unfold check_distance. cbn [rep0 set_rep0 set_reps]. rewrite Hsd, Hval. split; [reflexivity|]. apply Hdone; [core|reflexivity| |].
      * unfold distance_place. now rewrite (proj2 (Z.eqb_neq _ _) Hmax).
      * rewrite footer_small in Hs' by lia. exact Hs'.
    + assert (4 <= d) as Hd4 by lia.
      apply (footer_runs h d (set_symbol c slot) T P r rest); [lia|exact Hval|exact Hs'|].
      intros c' rest' Hc. apply Hdone. exact Hc.
Qed.

(** ** Symbols *)

Context (lc lm pm : Z).

(** The decoder is at the beginning of a symbol. *)
Definition at_symbol (c : lzma_lzma1_decoder) (st : Z) (rs : list Z) : Prop :=
  sequence c = SEQ_IS_MATCH /\ state c = st /\ [rep0 c; rep1 c; rep2 c; rep3 c] = rs /\ pos_mask c = pm /\ literal_context_bits c = lc /\ literal_mask c = lm.

(** ... or has to copy [len] bytes first. *)
Definition at_copy (c : lzma_lzma1_decoder) (st : Z) (rs : list Z) (l : Z) : Prop :=
  sequence c = SEQ_COPY /\ len c = l /\ at_symbol (set_sequence c SEQ_IS_MATCH) st rs.

Lemma copy_runs h c st rs l T input : at_copy c st rs l -> 0 <= l <= avail h -> synced F tail T (store_ c) (rc c) input ->
  (forall c' rest, at_symbol c' st rs -> synced F tail T (store_ c') (rc c') rest -> runs c' (push h (repeat_bytes (Z.to_nat l) (hist h) (byte_at rs 0))) rest) ->
  runs c h input.
Proof.
  intros (Hseq & Hl & Hat) Hav Hs Hdone. apply runs_step. unfold decode_step. rewrite Hseq. unfold step_copy. cbn [window_repeat history_window].
  rewrite Hl, Z.min_r, Z.sub_diag by lia. cbn [negb Z.eqb]. split; [reflexivity|].
  assert (rep0 c = byte_at rs 0) as -> by (destruct Hat as (_ & _ & <- & _); reflexivity). apply Hdone; [exact Hat|exact Hs].
Qed.

Lemma write_runs h c b st rs T input : is_byte b -> 0 < avail h -> sequence c = SEQ_LITERAL_WRITE -> symbol c = 256 + b ->
  at_symbol (set_sequence c SEQ_IS_MATCH) st rs -> synced F tail T (store_ c) (rc c) input ->
  (forall c' rest, at_symbol c' st rs -> synced F tail T (store_ c') (rc c') rest -> runs c' (push h [b]) rest) -> runs c h input.
Proof.
  intros Hb Hav Hseq Hsy Hat Hs Hdone. apply runs_step. unfold decode_step. rewrite Hseq. unfold step_literal_write.
  cbn [window_at_limit history_window window_put]. rewrite (proj2 (Z.eqb_neq _ _)) by lia. split; [reflexivity|].
  rewrite Hsy. replace (u8 (256 + b)) with b by (unfold u8; unfold is_byte in Hb; rewrite <- (Z.mod_small b 256) at 1 by lia; rewrite Z.add_mod, Z.mod_same, Z.add_0_l, Z.mod_mod by lia; reflexivity).
  apply Hdone; [exact Hat|exact Hs].
Qed.

(** [is_match]: the first bit of a symbol. *)
Lemma is_match_runs h c st rs b T input : at_symbol c st rs -> (fin = true -> 0 < avail h) ->
  synced F tail (RC_BIT (is_match st, Z.land (zlen (hist h)) pm) b :: T) (store_ c) (rc c) input ->
  (forall P r rest, synced F tail T P r rest ->
    settles (let c := set_rc c P r in if b then goto_ eopm SEQ_IS_REP c h rest else step_literal_start eopm c h rest)) -> runs c h input.
Proof.
  intros (Hseq & Hst & _ & Hpm & _) Hav Hs Hdone. apply runs_step. unfold decode_step. rewrite Hseq. unfold step_is_match.
  assert (fin && window_at_limit h = false) as ->.
  { destruct fin; [|reflexivity]. cbn. apply Z.eqb_neq. specialize (Hav eq_refl). lia. }
  unfold step_is_match_bit. rewrite Hst. unfold pos_state. cbn [window_pos history_window]. rewrite Hpm. eapply settles_bit; [exact Hs|exact Hdone].
Qed.

Lemma literal_runs h c st rs b T input : at_symbol c st rs -> is_byte b -> 0 < avail h ->
  synced F tail (map decoder_bit (lz_bits lc lm pm (hist h) st rs (LZ_LITERAL b)) ++ T) (store_ c) (rc c) input ->
  (forall c' rest, at_symbol c' (lz_state st (LZ_LITERAL b)) rs -> synced F tail T (store_ c') (rc c') rest -> runs c' (push h [b]) rest) -> runs c h input.
Proof.
  intros Hat Hb Hav Hs Hdone. cbn [lz_bits map decoder_bit app decoder_ptr fst] in Hs.
  rewrite literal_plain in Hs by discriminate. eapply is_match_runs; [exact Hat|auto|exact Hs|]. intros P r rest Hs1. cbv zeta.
  destruct Hat as (Hseq & Hst & Hrs & Hpm & Hlc & Hlm). unfold step_literal_start. cbv zeta. cbn [state set_tree set_rc literal_context_bits literal_mask rep0 set_state].
  rewrite Hst, Hlc, Hlm. replace (rep0 c) with (byte_at rs 0) by (rewrite <- Hrs; reflexivity).
  assert (window_get0 h = byte_back (hist h) 0) as -> by (cbn; now destruct (hist h)).
  cbn [window_pos window_get history_window]. set (a := literal_subcoder _ _ _ _) in *. unfold literal_symbols in Hs1. cbn [lz_state] in Hdone.
  destruct (is_literal_state st) eqn:El; (split; [reflexivity|]).
  - set (c0 := set_sequence _ SEQ_LITERAL). change c0 with (set_rc (set_symbol c0 1) P r).
    unfold is_byte in Hb. eapply (tree_runs h c0 a 8 (fun s P r i => goto_ eopm SEQ_LITERAL_WRITE (set_rc (set_symbol c0 s) P r) h i) b T) with (n := 8%nat); [|lia|lia|cbn; lia|exact Hs1|].
    + intros s P' r' i. eexists _, _. split; [reflexivity|]. intros bit P'' r'' rest'. change (2 ^ Z.of_nat 8) with 256.
      unfold goto_. cbn [symbol set_symbol set_tree set_rc]. now destruct (_ <? _).
    + intros P' r' rest' Hs2. split; [reflexivity|]. change (2 ^ Z.of_nat 8) with 256. rewrite Z.mod_small by lia.
      eapply write_runs; [exact Hb|exact Hav|reflexivity|reflexivity| |exact Hs2|exact Hdone]. unfold at_symbol. cbn. auto 6.
  - eapply (matched_runs h b T Hb 8 _ (byte_back (hist h) (byte_at rs 0)) 256 (b + 256)).
    1-7: first [lia|reflexivity|now right|idtac].
    + change (2 ^ Z.of_nat (8 - 8)) with 1. lia.
    + cbn [symbol set_sequence set_offset set_len set_state set_tree set_rc]. change (2 ^ Z.of_nat 8) with 256. unfold is_byte in Hb. apply (Z.div_unique_pos _ _ _ b); lia.
    + exact Hs1.
    + intros P' r' l o rest' Hs2. eapply write_runs; [exact Hb|exact Hav|reflexivity|reflexivity| |exact Hs2|exact Hdone]. unfold at_symbol. cbn. auto 6.
Qed.

Lemma match_runs h c st rs d l T input : at_symbol c st rs -> 2 <= l <= MATCH_LEN_MAX -> 0 <= d < 4294967296 -> (fin = true -> 0 < avail h) ->
  (if d =? UINT32_MAX then eopm = true else window_valid h d = true) ->
  synced F tail (map decoder_bit (lz_bits lc lm pm (hist h) st rs (LZ_MATCH d l)) ++ T) (store_ c) (rc c) input ->
  (forall c' rest, sequence c' = distance_place d -> len c' = l -> at_symbol (set_sequence c' SEQ_IS_MATCH) (lz_state st (LZ_MATCH d l)) (lz_reps rs (LZ_MATCH d l)) ->
    synced F tail T (store_ c') (rc c') rest -> runs c' h rest) -> runs c h input.
Proof.
  intros Hat Hl Hd Hav Hval Hs Hdone. cbn [lz_bits map decoder_bit app decoder_ptr fst] in Hs.
  eapply is_match_runs; [exact Hat|exact Hav|exact Hs|]. intros P r rest Hs1. split; [reflexivity|].
  destruct Hat as (Hseq & Hst & Hrs & Hpm & Hlc & Hlm).
  apply runs_step. unfold decode_step. cbn [sequence set_sequence]. unfold step_is_rep. cbn [state set_sequence set_rc]. rewrite Hst.
  eapply settles_bit; [exact Hs1|]. intros P1 r1 rest1 Hs2. split; [reflexivity|].
  unfold match_symbols in Hs2. rewrite map_app, length_plain, <- app_assoc in Hs2.
  eapply (len_runs h false _ l); [exact Hl|reflexivity|unfold pos_state; cbn; rewrite Hpm; exact Hs2|].
  intros P2 r2 rest2 lim p x Hs3. unfold after_len.
  eapply (slot_runs h d); [exact Hd|reflexivity|reflexivity|exact Hval|exact Hs3|discriminate|].
  intros c' rest' (E1 & E2 & E3 & E4 & E5 & E6 & E7 & E8) Hr0 Hsq Hs4. cbn in E1, E2, E3, E4, E5, E6, E7, E8.
  apply Hdone; [exact Hsq|exact E8| |exact Hs4]. unfold at_symbol. cbn. rewrite E1, E2, E3, E4, E5, E6, E7, Hr0, Hst, <- Hrs. cbn. auto 6.
Qed.

(** A length of a repeated match, and the copy. *)
Lemma long_runs h c st rs l T input : sequence c = SEQ_LEN_CHOICE true -> at_symbol (set_sequence c SEQ_IS_MATCH) st rs ->
  2 <= l <= MATCH_LEN_MAX -> l <= avail h -> synced F tail (length_symbols true (Z.land (zlen (hist h)) pm) l ++ T) (store_ c) (rc c) input ->
  (forall c' rest, at_symbol c' st rs -> synced F tail T (store_ c') (rc c') rest -> runs c' (push h (repeat_bytes (Z.to_nat l) (hist h) (byte_at rs 0))) rest) ->
  runs c h input.
Proof.
  intros Hseq Hat Hl Hav Hs Hdone. pose proof Hat as (_ & _ & _ & Hpm & _).
  eapply (len_runs h true c l); [exact Hl|exact Hseq|unfold pos_state; cbn in *; rewrite Hpm; exact Hs|].
  intros P r rest lim p x Hs1. unfold after_len.
  eapply (copy_runs h _ st rs l); [split; [reflexivity|]; split; [reflexivity|exact Hat]|lia|exact Hs1|exact Hdone].
Qed.

(** The decoder decodes the next bit; it executes the code of a place. *)
Ltac next_bit Hs := eapply settles_bit; [exact Hs|]; clear Hs; intros ? ? ? Hs; split; [reflexivity|].
Ltac at_place Hst := apply runs_step; unfold decode_step; cbn [sequence set_sequence];
  unfold step_is_rep, step_is_rep0, step_is_rep0_long, step_is_rep1, step_is_rep2; cbn [state set_sequence set_rc]; rewrite Hst.

Lemma rep_runs h c st rs i l T input : at_symbol c st rs -> lz_ok h rs (LZ_REP i l) -> l <= avail h ->
  synced F tail (map decoder_bit (lz_bits lc lm pm (hist h) st rs (LZ_REP i l)) ++ T) (store_ c) (rc c) input ->
  (forall c' rest, at_symbol c' (lz_state st (LZ_REP i l)) (lz_reps rs (LZ_REP i l)) -> synced F tail T (store_ c') (rc c') rest ->
    runs c' (push h (lz_bytes (hist h) rs (LZ_REP i l))) rest) -> runs c h input.
Proof.
  intros Hat (Hi & Hl & Hin) Hav Hs Hdone. cbn [lz_bits map decoder_bit app decoder_ptr fst] in Hs.
  assert (window_valid h 0 = true) as Hv0 by (destruct Hin as [Hd Hv]; cbn [window_valid history_window] in *; rewrite Z.gtb_lt in *; lia).
  eapply is_match_runs; [exact Hat|lia|exact Hs|]. clear Hs. intros P r rest Hs. split; [reflexivity|].
  destruct Hat as (Hseq & Hst & Hrs & Hpm & Hlc & Hlm).
  at_place Hst.
  eapply settles_bit; [exact Hs|]. clear Hs. intros P1 r1 rest1 Hs. rewrite Hv0. split; [reflexivity|].
  at_place Hst.
  unfold rep_symbols in Hs. rewrite map_app, <- app_assoc in Hs. cbn [lz_state lz_reps lz_bytes] in *. unfold rep_distances in Hdone.
  assert (i = 0 \/ i = 1 \/ i = 2 \/ i = 3) as Hc by lia.
  assert (byte_at rs 0 = rep0 c /\ byte_at rs 1 = rep1 c /\ byte_at rs 2 = rep2 c /\ byte_at rs 3 = rep3 c) as (R0 & R1 & R2 & R3) by (rewrite <- Hrs; split_and!; reflexivity).
  destruct Hc as [->|[->|[->| ->]]]; cbn [Z.eqb Pos.eqb map decoder_bit app decoder_ptr fst] in Hs, Hdone.
  1: destruct (Z.eqb_spec l 1) as [E|E].
  - cbn [negb map app] in Hs. subst l.
    next_bit Hs. at_place Hst.
    unfold pos_state. cbn [window_pos history_window pos_mask set_sequence set_rc]. rewrite Hpm.
    next_bit Hs.
    apply runs_step. unfold decode_step. cbn [sequence set_sequence]. unfold step_shortrep. cbn [window_at_limit window_put window_get history_window].
    rewrite (proj2 (Z.eqb_neq _ _)) by lia. split; [reflexivity|]. cbn [rep0 set_sequence set_state set_rc]. rewrite <- R0.
    apply Hdone; [|exact Hs]. unfold at_symbol. cbn. rewrite Hst. auto 6.
  - cbn [negb map app] in Hs. rewrite length_plain in Hs.
    next_bit Hs. at_place Hst.
    unfold pos_state. cbn [window_pos history_window pos_mask set_sequence set_rc]. rewrite Hpm.
    next_bit Hs.
    eapply (long_runs h _ (update_long_rep st) rs l); [reflexivity| |lia|exact Hav|exact Hs|exact Hdone]. unfold at_symbol. cbn. rewrite Hst. auto 6.
  - rewrite (proj2 (Z.eqb_neq l 1)) in * by lia. cbn [map app] in Hs. rewrite length_plain in Hs.
    next_bit Hs. at_place Hst.
    next_bit Hs.
    eapply (long_runs h _ (update_long_rep st) _ l); [reflexivity| |lia|exact Hav|exact Hs|exact Hdone]. unfold at_symbol. cbn. rewrite ?Hst, R0, R1, R2, R3. auto 6.
  - rewrite (proj2 (Z.eqb_neq l 1)) in * by lia. cbn [map app] in Hs. rewrite length_plain in Hs. change (2 - 2 =? 1) with false in Hs.
    next_bit Hs. at_place Hst. next_bit Hs. at_place Hst. next_bit Hs.
    eapply (long_runs h _ (update_long_rep st) _ l); [reflexivity| |lia|exact Hav|exact Hs|exact Hdone]. unfold at_symbol. cbn. rewrite ?Hst, R0, R1, R2, R3. auto 6.
  - rewrite (proj2 (Z.eqb_neq l 1)) in * by lia. cbn [map app] in Hs. rewrite length_plain in Hs. change (3 - 2 =? 1) with true in Hs.
    next_bit Hs. at_place Hst. next_bit Hs. at_place Hst. next_bit Hs.
    eapply (long_runs h _ (update_long_rep st) _ l); [reflexivity| |lia|exact Hav|exact Hs|exact Hdone]. unfold at_symbol. cbn. rewrite ?Hst, R0, R1, R2, R3. auto 6.
Qed.

(** One symbol: the decoder finds its bits and does what it means. *)
Lemma symbol_runs h c st rs s T input : at_symbol c st rs -> lz_ok h rs s -> zlen (lz_bytes (hist h) rs s) <= avail h ->
  synced F tail (map decoder_bit (lz_bits lc lm pm (hist h) st rs s) ++ T) (store_ c) (rc c) input ->
  (forall c' rest, at_symbol c' (lz_state st s) (lz_reps rs s) -> synced F tail T (store_ c') (rc c') rest ->
    runs c' (push h (lz_bytes (hist h) rs s)) rest) -> runs c h input.
Proof.
  intros Hat Hok Hav Hs Hdone. destruct s as [b|i l|d l].
  - cbn [lz_bytes length] in Hav. apply (literal_runs h c st rs b T input Hat Hok); [lia|exact Hs|exact Hdone].
  - apply (rep_runs h c st rs i l T input Hat Hok); [|exact Hs|exact Hdone].
    cbn [lz_bytes] in Hav. rewrite repeat_bytes_length in Hav. destruct Hok as (_ & Hl & _). lia.
  - destruct Hok as (Hl & [Hd Hv] & Hmax). cbn [lz_bytes] in *. rewrite repeat_bytes_length in Hav. rewrite Z2Nat.id in Hav by lia.
    assert ((d =? UINT32_MAX) = false) as E by (apply Z.eqb_neq; lia).
    eapply (match_runs h c st rs d l T input Hat Hl); [unfold UINT32_MAX in Hmax; lia|lia|now rewrite E|exact Hs|].
    intros c' rest Hseq Hl' Hat' Hs'. unfold distance_place in Hseq. rewrite E in Hseq.
    eapply (copy_runs h c'); [split; [exact Hseq|]; split; [exact Hl'|exact Hat']|lia|exact Hs'|exact Hdone].
Qed.

(** The end marker. *)
Lemma eopm_runs h c st rs input : at_symbol c st rs -> fin = false -> eopm = true ->
  synced F tail (map decoder_bit (lz_bits lc lm pm (hist h) st rs (LZ_MATCH UINT32_MAX MATCH_LEN_MIN))) (store_ c) (rc c) input ->
  (forall c', K LZMA_STREAM_END c' h tail) -> runs c h input.
Proof.
  intros Hat Hfin He Hs HK. eapply (match_runs h c st rs UINT32_MAX MATCH_LEN_MIN []).
  - exact Hat.
  - len_lia.
  - unfold UINT32_MAX. lia.
  - congruence.
  - exact He.
  - rewrite app_nil_r. exact Hs.
  - intros c' rest Hseq _ _ Hs'. apply runs_step. unfold decode_step. change (distance_place UINT32_MAX) with SEQ_EOPM in Hseq. rewrite Hseq.
    unfold step_eopm. destruct (synced_end _ _ _ _ _ Hs') as (r & -> & ->). apply HK.
Qed.

(** The end of data whose size is known. *)
Lemma end_runs h c st rs input : at_symbol c st rs -> fin = true -> avail h = 0 -> synced F tail [] (store_ c) (rc c) input ->
  (forall c', K LZMA_STREAM_END c' h tail) -> runs c h input.
Proof.
  intros (Hseq & _) Hfin Hav Hs HK. apply runs_step. unfold decode_step. rewrite Hseq. unfold step_is_match.
  cbn [window_at_limit history_window]. rewrite Hfin, Hav. cbn [andb Z.eqb]. destruct (synced_end _ _ _ _ _ Hs) as (r & -> & ->). apply HK.
Qed.

End Runs.
