(* ===== verification/LzmaOptimumFast.v ===== *)
(** * The choice of the next symbol

    What [lzma_lzma_encode] relies on ([OptimumLaws], the interface of
    [lzma_lzma_optimum_fast] and [lzma_lzma_optimum_normal]), and
    [lib/archive/xz/src/liblzma/lzma/lzma_encoder_optimum_fast.c], which keeps
    these laws with the match finders HC3 and HC4. *)

From Stdlib Require Import ZArith Lia.
From stdpp Require Import gmap list.
From S2P Require Import Prelude FilterProps Coder MatchFinder RangeCoder LzmaCommon LzDict LzmaDecoder LzmaSafety LzmaEncoder LzmaSymbols.

Implicit Types (e : lzma_lzma1_encoder) (mf : lzma_mf).

(** ** The interface *)

(** [mf_position], before it is reduced modulo 2^32. *)
Definition position mf : Z := read_pos mf - read_ahead mf.

(** The data that are in the buffer. *)
Definition mf_data mf : bytes := take (Z.to_nat (write_pos mf)) (buffer mf).

(** All input is there: [LZMA_FINISH]. *)
Record mf_ok mf : Prop := {
  mf_order : 0 <= read_ahead mf <= read_pos mf /\ read_pos mf <= write_pos mf /\ write_pos mf <= zlen (buffer mf);
  mf_limit : read_limit mf = write_pos mf;
  mf_finish : mf_action mf = LZMA_FINISH;
  mf_bytes : bytes_ok (buffer mf);
}.

(** What [back] and [len] mean. *)
Definition choice (data : bytes) (position back len : Z) : lz_symbol :=
  if back =? UINT32_MAX then LZ_LITERAL (byte_at data position) else if back <? REPS then LZ_REP back len else LZ_MATCH (back - REPS) len.

(** What [lzma_lzma_encode] relies on: a symbol of the format that produces the
    next [len] bytes of the data, which went through the match finder; the
    distances are below [dict_size]. *)
Class OptimumLaws (S : Type) `{Optimum S} (dict_size : Z) := {
  opt_inv : list Z -> Z -> S -> lzma_mf -> Prop;
  opt_law : forall e s mf back len s' mf', opt_inv (reps e) (estate e) s mf -> mf_ok mf -> 0 < position mf < write_pos mf ->
    optimum e s mf (u32 (position mf)) = (back, len, s', mf') ->
    let l := take (Z.to_nat (position mf)) (mf_data mf) in
    let sym := choice (mf_data mf) (position mf) back len in
    mf_ok mf' /\ position mf' = position mf /\ buffer mf' = buffer mf /\ write_pos mf' = write_pos mf /\
    0 <= back /\ 1 <= len <= read_ahead mf' /\
    lz_ok (mk_history l 0 dict_size false) (reps e) sym /\ lz_bytes l (reps e) sym = slice (position mf) len (mf_data mf) /\
    opt_inv (lz_reps (reps e) sym) (lz_state (estate e) sym) s' (set_read_ahead mf' (read_ahead mf' - len));
}.

(** ** [lzma_lzma_optimum_fast] *)

(** [matches], [matches_count] and [longest_match_length] of
    [lzma_lzma1_encoder]: [matches] are the entries that the last search stored. *)
Record fast_state := mk_fast {
  matches : list lzma_match;
  matches_count : Z;
  longest_match_length : Z;
}.

Definition change_pair (small_dist big_dist : Z) : bool := Z.shiftr big_dist 7 >? small_dist.

Definition not_equal_16 mf (p q : Z) : bool := negb (byte mf p =? byte mf q) || negb (byte mf (p + 1) =? byte mf (q + 1)).

Definition memcmp_equal mf (p q n : Z) : bool := forallb (fun k => byte mf (p + Z.of_nat k) =? byte mf (q + Z.of_nat k)) (seq 0 (Z.to_nat n)).

(** The loop over the last distances: a match that is long enough, or the
    longest one and its index. *)
Fixpoint rep_loop (n : nat) (i : Z) mf (reps : list Z) (buf buf_avail rep_len rep_index : Z) : (Z * Z) + (Z * Z) :=
  match n with
  | O => inr (rep_len, rep_index)
  | S n =>
      let buf_back := buf - byte_at reps i - 1 in
      if not_equal_16 mf buf buf_back then rep_loop n (i + 1) mf reps buf buf_avail rep_len rep_index
      else
        let len := lzma_memcmplen mf buf buf_back 2 buf_avail in
        if len >=? mf_nice_len mf then inl (i, len)
        else if len >? rep_len then rep_loop n (i + 1) mf reps buf buf_avail len i
        else rep_loop n (i + 1) mf reps buf buf_avail rep_len rep_index
  end.

Definition match_at (ms : list lzma_match) (i : Z) : lzma_match := nth (Z.to_nat i) ms (mk_match 0 0).

(** The [while] loop: a shorter match that is much nearer. *)
Fixpoint shorten (n : nat) (ms : list lzma_match) (count len_main back_main : Z) : Z * Z :=
  match n with
  | O => (len_main, back_main)
  | S n =>
      let m := match_at ms (count - 2) in
      if (count >? 1) && (len_main =? m_len m + 1) then
        if negb (change_pair (m_dist m) back_main) then (len_main, back_main)
        else shorten n ms (count - 1) (m_len m) (m_dist m)
      else (len_main, back_main)
  end.

(** The next byte has a better match. *)
Definition next_is_better (longest new_dist len_main back_main : Z) : bool :=
  ((longest >=? len_main) && (new_dist <? back_main)) || ((longest =? len_main + 1) && negb (change_pair back_main new_dist)) ||
  (longest >? len_main + 1) || ((longest + 1 >=? len_main) && (len_main >=? 3) && change_pair new_dist back_main).

Definition lzma_lzma_optimum_fast e (s : fast_state) mf : Z * Z * fast_state * lzma_mf :=
  let '(mf, s, len_main, count) :=
    if read_ahead mf =? 0 then
      let '(mf, ms, len_main) := lzma_mf_find mf in
      (mf, mk_fast ms (matches_count s) (longest_match_length s), len_main, zlen ms)
    else (mf, s, longest_match_length s, matches_count s) in
  let buf := read_pos mf - 1 in
  let buf_avail := Z.min (u32 (mf_avail mf + 1)) MATCH_LEN_MAX in
  if buf_avail <? 2 then (UINT32_MAX, 1, s, mf)
  else
    match rep_loop (Z.to_nat REPS) 0 mf (reps e) buf buf_avail 0 0 with
    | inl (i, len) => (i, len, s, mf_skip mf (len - 1))
    | inr (rep_len, rep_index) =>
        if len_main >=? mf_nice_len mf then (m_dist (match_at (matches s) (count - 1)) + REPS, len_main, s, mf_skip mf (len_main - 1))
        else
          let '(len_main, back_main) :=
            if len_main >=? 2 then
              let '(len_main, back_main) := shorten (Z.to_nat count) (matches s) count len_main (m_dist (match_at (matches s) (count - 1))) in
              (if (len_main =? 2) && (back_main >=? 0x80) then 1 else len_main, back_main)
            else (len_main, 0) in
          if (rep_len >=? 2) && ((rep_len + 1 >=? len_main) || ((rep_len + 2 >=? len_main) && (back_main >? Z.shiftl 1 9)) ||
               ((rep_len + 3 >=? len_main) && (back_main >? Z.shiftl 1 15))) then (rep_index, rep_len, s, mf_skip mf (rep_len - 1))
          else if (len_main <? 2) || (buf_avail <=? 2) then (UINT32_MAX, 1, s, mf)
          else
            let '(mf, ms, longest) := lzma_mf_find mf in
            let s := mk_fast ms (zlen ms) longest in
            if (longest >=? 2) && next_is_better longest (m_dist (match_at ms (zlen ms - 1))) len_main back_main then (UINT32_MAX, 1, s, mf)
            else
              let buf := buf + 1 in
              let limit := Z.max 2 (len_main - 1) in
              if existsb (fun r => memcmp_equal mf buf (buf - r - 1) limit) (reps e) then (UINT32_MAX, 1, s, mf)
              else (back_main + REPS, len_main, s, mf_skip mf (len_main - 2))
    end.

#[export] Instance optimum_fast : Optimum fast_state := {| optimum e s mf _ := lzma_lzma_optimum_fast e s mf |}.

(** ** What the searches have found *)

(** A match with a last distance. *)
Definition rep_occurs mf (rs : list Z) (p limit i len : Z) : Prop :=
  0 <= i < 4 /\ 2 <= len <= limit /\ forall j, 0 <= j < len -> byte mf (p - (byte_at rs i + 1) + j) = byte mf (p + j).

Lemma rep_loop_spec mf rs p limit n : forall i len idx, 2 <= limit -> 0 <= i -> i + Z.of_nat n = 4 -> len = 0 \/ rep_occurs mf rs p limit idx len ->
  match rep_loop n i mf rs p limit len idx with
  | inl (i, len) => rep_occurs mf rs p limit i len
  | inr (len, i) => len = 0 \/ rep_occurs mf rs p limit i len
  end.
Proof.
  induction n as [|n IH]; intros i len idx Hl Hi Hn Hin; cbn [rep_loop]; [exact Hin|].
  destruct (not_equal_16 mf p (p - byte_at rs i - 1)) eqn:E; [apply IH; auto; lia|].
  unfold not_equal_16 in E. apply orb_false_iff in E as [E0 E1]. apply negb_false_iff, Z.eqb_eq in E0. apply negb_false_iff, Z.eqb_eq in E1.
  pose proof (memcmplen_spec (fun k => byte mf (p + k)) (fun k => byte mf (p - byte_at rs i - 1 + k)) 2 limit Hl) as Hm.
  fold (lzma_memcmplen mf p (p - byte_at rs i - 1) 2 limit) in Hm. cbv zeta in Hm. set (k := lzma_memcmplen mf _ _ 2 limit) in *.
  assert (rep_occurs mf rs p limit i k) as Hocc.
  { split_and!; [lia..|]. intros j Hj. replace (p - (byte_at rs i + 1) + j) with (p - byte_at rs i - 1 + j) by lia.
    destruct (Z.ltb_spec j 2); [|symmetry; apply Hm; lia]. assert (j = 0 \/ j = 1) as [-> | ->] by lia; [rewrite !Z.add_0_r; congruence|congruence]. }
  destruct (k >=? mf_nice_len mf); [exact Hocc|]. destruct (k >? len); apply IH; auto; lia.
Qed.

Lemma match_at_occurs mf p limit ms i : Forall (occurs mf p limit) ms -> 0 <= i < zlen ms -> occurs mf p limit (match_at ms i).
Proof.
  intros Hms Hi. unfold match_at. rewrite Forall_forall in Hms. apply Hms. apply list_elem_of_In. apply nth_In. lia.
Qed.

Lemma shorten_spec mf p limit ms n : Forall (occurs mf p limit) ms -> forall count len back, count <= zlen ms -> occurs mf p limit (mk_match len back) ->
  occurs mf p limit (mk_match (shorten n ms count len back).1 (shorten n ms count len back).2).
Proof.
  intros Hms. induction n as [|n IH]; intros count len back Hc Hocc; cbn [shorten]; [exact Hocc|].
  destruct ((count >? 1) && (len =? m_len (match_at ms (count - 2)) + 1)) eqn:E; [|exact Hocc]. apply andb_true_iff in E as [E _]. apply Z.gtb_lt in E.
  destruct (negb _); [exact Hocc|]. apply IH; [lia|]. pose proof (match_at_occurs mf p limit ms (count - 2) Hms ltac:(lia)) as Hm.
  destruct (match_at ms (count - 2)); exact Hm.
Qed.

(** The bytes that a distance repeats. *)
Lemma repeat_bytes_slice data d n : forall p, 0 <= d < p -> p + Z.of_nat n <= zlen data ->
  (forall j, 0 <= j < Z.of_nat n -> byte_at data (p - (d + 1) + j) = byte_at data (p + j)) ->
  repeat_bytes n (take (Z.to_nat p) data) d = slice p (Z.of_nat n) data.
Proof.
  induction n as [|n IH]; intros p Hd Hl Heq; [reflexivity|]. cbn [repeat_bytes].
  assert (byte_back (take (Z.to_nat p) data) d = byte_at data p) as ->.
  { unfold byte_back. rewrite length_take, byte_at_take by lia. specialize (Heq 0 ltac:(lia)). rewrite !Z.add_0_r in Heq. rewrite <- Heq. f_equal. lia. }
  assert (drop (Z.to_nat p) data = byte_at data p :: drop (Z.to_nat (p + 1)) data) as Ed.
  { unfold byte_at. rewrite nth_lookup. destruct (data !! Z.to_nat p) as [b|] eqn:Eb; [|apply lookup_ge_None in Eb; lia].
    rewrite (drop_S _ b (Z.to_nat p) Eb). cbn. do 2 f_equal. lia. }
  assert (take (Z.to_nat p) data ++ [byte_at data p] = take (Z.to_nat (p + 1)) data) as ->.
  { replace (Z.to_nat (p + 1)) with (Z.to_nat p + 1)%nat by lia. rewrite <- take_take_drop, Ed. reflexivity. }
  rewrite IH; [|lia|lia|].
  - unfold slice, from. replace (Z.to_nat (Z.of_nat (S n))) with (S n) by lia. rewrite Ed. cbn [take]. f_equal. now rewrite Nat2Z.id.
  - intros j Hj. specialize (Heq (1 + j) ltac:(lia)). replace (p + 1 - (d + 1) + j) with (p - (d + 1) + (1 + j)) by lia.
    replace (p + 1 + j) with (p + (1 + j)) by lia. exact Heq.
Qed.

(** ** The laws *)

Section Fast.
Context (dict_size : Z).

(** [n] bytes went through the match finder beyond the position of [mf]. *)
Record ahead mf (n : Z) mf' : Prop := {
  ah_ready : hc_ready mf';
  ah_kept : input_kept (set_read_ahead mf n) mf';
  ah_pos : read_pos mf' = position mf + n;
}.

Definition reps_ok (rs : list Z) (p : Z) : Prop := length rs = 4%nat /\ forall i, 0 <= i < 4 -> 0 <= byte_at rs i < Z.max 1 p /\ byte_at rs i < dict_size.

(** What stays from one choice to the next: at most one search that was not used. *)
Record fast_inv (rs : list Z) (st : Z) (s : fast_state) mf : Prop := {
  fi_ready : hc_ready mf;
  fi_size : cyclic_size mf = dict_size + 1 /\ 1 <= dict_size /\ match_len_max mf = MATCH_LEN_MAX;
  fi_reps : reps_ok rs (position mf);
  fi_found : read_ahead mf = 0 \/
    (read_ahead mf = 1 /\ matches_count s = zlen (matches s) /\ matches_ok mf (position mf) (matches s) (longest_match_length s));
}.

Lemma kept_fields mf n mf' : input_kept (set_read_ahead mf n) mf' ->
  (buffer mf' = buffer mf /\ read_ahead mf' = n /\ read_limit mf' = read_limit mf /\ write_pos mf' = write_pos mf) /\
  (cyclic_size mf' = cyclic_size mf /\ mf_nice_len mf' = mf_nice_len mf /\ match_len_max mf' = match_len_max mf /\ mf_action mf' = mf_action mf).
Proof. intros [H1 H2]. cbn in H1, H2. split_and!; congruence. Qed.

Lemma occurs_kept mf mf' p limit m : buffer mf' = buffer mf -> cyclic_size mf' = cyclic_size mf -> occurs mf p limit m -> occurs mf' p limit m.
Proof. intros Eb Ec H. unfold occurs, byte in *. now rewrite Eb, Ec. Qed.

Lemma matches_ok_kept mf mf' p ms longest : buffer mf' = buffer mf -> cyclic_size mf' = cyclic_size mf -> write_pos mf' = write_pos mf ->
  mf_nice_len mf' = mf_nice_len mf -> match_len_max mf' = match_len_max mf -> matches_ok mf p ms longest -> matches_ok mf' p ms longest.
Proof.
  intros Eb Ec Ew En El [H1 H2]. unfold matches_ok. rewrite Ew, En, El. split.
  - eapply Forall_impl; [exact H1|]. intros m. now apply occurs_kept.
  - destruct (last ms); [|exact H2]. split; [apply H2|]. now apply (occurs_kept mf).
Qed.

Lemma ahead_find mf n mf1 : ahead mf n mf1 -> 0 <= n -> 0 <= position mf -> position mf + n < write_pos mf ->
  let '(mf', ms, longest) := lzma_mf_find mf1 in ahead mf (n + 1) mf' /\ matches_ok mf (position mf + n) ms longest.
Proof.
  intros [Hr Hk Hp] Hn H0 Hlt. pose proof (kept_fields mf n mf1 Hk) as [(Eb & Ea & El & Ew) (Ec & En & Em & Eact)].
  pose proof (mf_find_hc mf1 Hr ltac:(lia) ltac:(lia)) as Hf. destruct (lzma_mf_find mf1) as [[mf' ms] longest]. destruct Hf as (Hr' & Hk' & Hp' & Hm).
  split.
  - constructor; [exact Hr'| |lia]. rewrite Ea in Hk'. destruct Hk as [A B], Hk' as [C D]. split; cbn in *; congruence.
  - rewrite <- Hp. now apply (matches_ok_kept mf1).
Qed.

Lemma ahead_skip mf n mf1 k : ahead mf n mf1 -> 0 <= n -> 0 <= k -> 0 <= position mf -> position mf + n + k <= write_pos mf -> ahead mf (n + k) (mf_skip mf1 k).
Proof.
  intros [Hr Hk Hp] Hn Hk0 H0 Hle. pose proof (kept_fields mf n mf1 Hk) as [(Eb & Ea & El & Ew) _].
  destruct (mf_skip_hc mf1 k Hr ltac:(lia) ltac:(lia) ltac:(lia)) as (Hr' & Hk' & Hp'). constructor; [exact Hr'| |lia].
  rewrite Ea in Hk'. destruct Hk as [A B], Hk' as [C D]. split; cbn in *; congruence.
Qed.

Lemma inside_reps data rs p i : reps_ok rs p -> 1 <= p <= zlen data -> 0 <= i < 4 -> inside (mk_history (take (Z.to_nat p) data) 0 dict_size false) (byte_at rs i).
Proof.
  intros [_ H] Hp Hi. destruct (H i Hi) as [H1 H2]. split; [lia|]. cbn. apply Z.gtb_lt. rewrite length_take. lia.
Qed.

Lemma one_of_four a b c d k : 0 <= k < 4 -> byte_at [a; b; c; d] k = a \/ byte_at [a; b; c; d] k = b \/ byte_at [a; b; c; d] k = c \/ byte_at [a; b; c; d] k = d.
Proof.
  intros Hk. assert (k = 0 \/ k = 1 \/ k = 2 \/ k = 3) as Hc by lia. destruct Hc as [-> |[-> |[-> | ->]]]; auto.
Qed.

Lemma reps_ok_rep rs p p' i : reps_ok rs p -> p <= p' -> 0 <= i < 4 -> reps_ok (rep_distances rs i) p'.
Proof.
  intros [Hl H] Hp Hi. pose proof (H 0 ltac:(lia)). pose proof (H 1 ltac:(lia)). pose proof (H 2 ltac:(lia)). pose proof (H 3 ltac:(lia)).
  assert (i = 0 \/ i = 1 \/ i = 2 \/ i = 3) as Hc by lia. unfold rep_distances.
  destruct Hc as [-> |[-> |[-> | ->]]]; cbn [Z.eqb Pos.eqb]; (split; [exact Hl || reflexivity|]); intros k Hk.
  1: specialize (H k Hk); lia.
  all: match goal with |- context [byte_at [?a; ?b; ?c; ?d] ?i] => destruct (one_of_four a b c d i Hk) as [-> |[-> |[-> | ->]]] end; lia.
Qed.

(** What a choice has to be. *)
Definition lawful (rs : list Z) (st : Z) mf (r : Z * Z * fast_state * lzma_mf) : Prop :=
  let '(back, len, s', mf') := r in
  let l := take (Z.to_nat (position mf)) (mf_data mf) in
  let sym := choice (mf_data mf) (position mf) back len in
  mf_ok mf' /\ position mf' = position mf /\ buffer mf' = buffer mf /\ write_pos mf' = write_pos mf /\
  0 <= back /\ 1 <= len <= read_ahead mf' /\
  lz_ok (mk_history l 0 dict_size false) rs sym /\ lz_bytes l rs sym = slice (position mf) len (mf_data mf) /\
  fast_inv (lz_reps rs sym) (lz_state st sym) s' (set_read_ahead mf' (read_ahead mf' - len)).

Section Choice.
Context (rs : list Z) (st : Z) (s0 : fast_state) (mf : lzma_mf) (Hinv : fast_inv rs st s0 mf) (Hok : mf_ok mf) (Hpos : 0 < position mf < write_pos mf).

Lemma mf_data_length : zlen (mf_data mf) = write_pos mf.
Proof using Hok. clear Hpos Hinv. destruct Hok as [Ho _ _ _]. unfold mf_data. rewrite length_take. lia. Qed.

Lemma mf_data_byte i : 0 <= i < write_pos mf -> byte_at (mf_data mf) i = byte mf i.
Proof using Type. clear Hpos Hok Hinv. intros Hi. unfold mf_data, byte. apply byte_at_take. lia. Qed.

Lemma ahead_ok n mf' : ahead mf n mf' -> 0 <= n -> position mf + n <= write_pos mf -> mf_ok mf' /\ position mf' = position mf.
Proof using Hok.
  clear Hpos Hinv. intros [Hr Hk Hp] Hn Hle. destruct (kept_fields mf n mf' Hk) as [(Eb & Ea & El & Ew) (_ & _ & _ & Eact)]. destruct Hok as [Ho Hl Hf Hby].
  unfold position in *. split; [|lia]. constructor; rewrite ?Eb, ?Ea, ?El, ?Ew, ?Eact; auto. lia.
Qed.

(** A symbol for [len] of the [n] bytes. *)
Lemma lawful_symbol back len s' n mf' : ahead mf n mf' -> position mf + n <= write_pos mf -> 0 <= back -> 1 <= len <= n ->
  (n - len = 0 \/ (n - len = 1 /\ matches_count s' = zlen (matches s') /\ matches_ok mf (position mf + len) (matches s') (longest_match_length s'))) ->
  let l := take (Z.to_nat (position mf)) (mf_data mf) in
  let sym := choice (mf_data mf) (position mf) back len in
  lz_ok (mk_history l 0 dict_size false) rs sym -> lz_bytes l rs sym = slice (position mf) len (mf_data mf) -> reps_ok (lz_reps rs sym) (position mf + len) ->
  lawful rs st mf (back, len, s', mf').
Proof using Hinv Hok Hpos.
  intros Ha Hle Hback Hlen Hrest l sym Hlz Hbytes Hreps. destruct (ahead_ok n mf' Ha ltac:(lia) Hle) as [Hok' Hp']. destruct Ha as [Hr Hk Hp].
  destruct (kept_fields mf n mf' Hk) as [(Eb & Ea & El & Ew) (Ec & En & Em & Eact)]. unfold lawful. fold l sym. rewrite Ea.
  split_and!; auto; try lia. destruct Hinv as [_ (I1 & I2 & I3) _ _].
  assert (position (set_read_ahead mf' (n - len)) = position mf + len) as Epos by (unfold position at 1; cbn; lia).
  constructor; [now apply set_read_ahead_ready|cbn; rewrite Ec, Em; auto|now rewrite Epos|]. rewrite Epos. cbn [read_ahead set_read_ahead].
  destruct Hrest as [H0|(H1 & H2 & H3)]; [left; exact H0|right]. split_and!; auto. now apply (matches_ok_kept mf).
Qed.

Lemma position_bounds : 0 <= position mf /\ write_pos mf < 4294967295.
Proof using Hinv Hok. clear Hpos. destruct Hinv as [[[Hs _] _] _ _ _]. pose proof (shape_window mf Hs). destruct Hok as [Ho _ _ _]. unfold position. lia. Qed.

(** [len] bytes at the position are repeated from [d + 1] before. *)
Lemma repeated d len : 0 <= d < position mf -> 0 <= len -> position mf + len <= write_pos mf ->
  (forall j, 0 <= j < len -> byte mf (position mf - (d + 1) + j) = byte mf (position mf + j)) ->
  repeat_bytes (Z.to_nat len) (take (Z.to_nat (position mf)) (mf_data mf)) d = slice (position mf) len (mf_data mf).
Proof using Hok.
  clear Hpos Hinv. intros Hd Hl Hle Heq. pose proof mf_data_length as Hdl. rewrite (repeat_bytes_slice (mf_data mf) d (Z.to_nat len)); [now rewrite Z2Nat.id by lia|lia|lia|].
  intros j Hj. rewrite !mf_data_byte by lia. apply Heq. lia.
Qed.

Lemma slice_one (l : bytes) p : 0 <= p < zlen l -> slice p 1 l = [byte_at l p].
Proof using Type.
  clear Hpos Hok Hinv. intros Hp. unfold slice, from, byte_at. rewrite nth_lookup. destruct (l !! Z.to_nat p) as [b|] eqn:Eb; [|apply lookup_ge_None in Eb; lia].
  now rewrite (drop_S _ b _ Eb).
Qed.

Lemma lawful_literal n s' mf' : ahead mf n mf' -> position mf + n <= write_pos mf -> 1 <= n ->
  (n = 1 \/ (n = 2 /\ matches_count s' = zlen (matches s') /\ matches_ok mf (position mf + 1) (matches s') (longest_match_length s'))) ->
  lawful rs st mf (UINT32_MAX, 1, s', mf').
Proof using Hinv Hok Hpos.
  intros Ha Hle Hn Hrest. pose proof mf_data_length as Hdl. eapply (lawful_symbol _ _ _ n); [exact Ha|exact Hle|vm_compute; discriminate|lia| | | |].
  - destruct Hrest as [-> |(-> & H1 & H2)]; [now left|right; auto].
  - unfold choice. rewrite Z.eqb_refl. cbn [lz_ok]. rewrite mf_data_byte by lia. apply byte_at_ok. apply Hok.
  - unfold choice. rewrite Z.eqb_refl. cbn [lz_bytes]. symmetry. apply slice_one. lia.
  - unfold choice. rewrite Z.eqb_refl. cbn [lz_reps]. destruct Hinv as [_ _ [Hl H] _]. split; [exact Hl|]. intros i Hi. specialize (H i Hi). lia.
Qed.

Lemma lawful_rep i len s' mf' : rep_occurs mf rs (position mf) (Z.min (write_pos mf - position mf) MATCH_LEN_MAX) i len -> ahead mf len mf' -> lawful rs st mf (i, len, s', mf').
Proof using Hinv Hok Hpos.
  intros (Hi & Hl & Heq) Ha. pose proof mf_data_length as Hdl. pose proof (fi_reps _ _ _ _ Hinv) as Hr.
  assert (choice (mf_data mf) (position mf) i len = LZ_REP i len) as Ec.
  { unfold choice. rewrite (proj2 (Z.eqb_neq i _)), (proj2 (Z.ltb_lt i _)) by (unfold UINT32_MAX, REPS; lia). reflexivity. }
  eapply (lawful_symbol _ _ _ len); [exact Ha|lia|lia|lia|left; lia|rewrite Ec; cbn [lz_ok lz_bytes lz_reps]..].
  - split_and!; [lia|lia|left; lia|]. apply (inside_reps (mf_data mf) rs (position mf)); auto; lia.
  - apply repeated; [|lia|lia|exact Heq]. destruct Hr as [_ Hr]. specialize (Hr i Hi). lia.
  - apply (reps_ok_rep rs (position mf)); auto. lia.
Qed.

Lemma lawful_match len d s' mf' : occurs mf (position mf) (Z.min (write_pos mf - position mf) MATCH_LEN_MAX) (mk_match len d) -> ahead mf len mf' ->
  lawful rs st mf (d + REPS, len, s', mf').
Proof using Hinv Hok Hpos.
  intros (Hl & Hd & Hd1 & Hd2 & Heq) Ha. cbn [m_len m_dist] in *. pose proof mf_data_length as Hdl.
  destruct Hinv as [[[Hs _] _] (I1 & I2 & _) [_ Hr] _]. pose proof (shape_cyclic mf Hs) as Hcyc.
  assert (choice (mf_data mf) (position mf) (d + REPS) len = LZ_MATCH d len) as Ec.
  { unfold choice. rewrite (proj2 (Z.eqb_neq _ _)), (proj2 (Z.ltb_ge (d + REPS) _)) by (unfold UINT32_MAX, REPS in *; lia). f_equal. lia. }
  eapply (lawful_symbol _ _ _ len); [exact Ha|lia|unfold REPS; lia|lia|left; lia|rewrite Ec; cbn [lz_ok lz_bytes lz_reps]..].
  - split_and!; [lia|lia|split; [lia|cbn; apply Z.gtb_lt; rewrite length_take; lia]|unfold UINT32_MAX; lia].
  - apply repeated; auto; lia.
  - split; [reflexivity|]. intros k Hk. pose proof (Hr 0 ltac:(lia)). pose proof (Hr 1 ltac:(lia)). pose proof (Hr 2 ltac:(lia)).
    destruct (one_of_four d (byte_at rs 0) (byte_at rs 1) (byte_at rs 2) k Hk) as [-> |[-> |[-> | ->]]]; lia.
Qed.

(** The limit for the length of a match at the position. *)
Abbreviation room := (Z.min (write_pos mf - position mf) MATCH_LEN_MAX).

(** What the first search has found, now or in the round before. *)
Lemma first_search : exists mf1 s1 len_main,
  (if read_ahead mf =? 0 then
     let '(mf, ms, len_main) := lzma_mf_find mf in (mf, mk_fast ms (matches_count s0) (longest_match_length s0), len_main, zlen ms)
   else (mf, s0, longest_match_length s0, matches_count s0)) = (mf1, s1, len_main, zlen (matches s1)) /\
  ahead mf 1 mf1 /\ matches_ok mf (position mf) (matches s1) len_main.
Proof using Hinv Hok Hpos.
  destruct Hinv as [Hr _ _ Hf]. destruct Hf as [H0|(H1 & Hc & Hm)].
  - rewrite H0. change (0 =? 0) with true. cbv iota. assert (ahead mf 0 mf) as Ha.
    { constructor; [exact Hr|split; cbn; congruence|unfold position; lia]. }
    pose proof (ahead_find mf 0 mf Ha ltac:(lia) ltac:(lia) ltac:(lia)) as H. destruct (lzma_mf_find mf) as [[mf1 ms] len]. destruct H as [H1 H2].
    exists mf1, (mk_fast ms (matches_count s0) (longest_match_length s0)), len. rewrite Z.add_0_r in H2. auto.
  - rewrite H1. change (1 =? 0) with false. cbv iota. exists mf, s0, (longest_match_length s0). rewrite Hc. split_and!; auto.
    constructor; [exact Hr|split; cbn; congruence|unfold position; lia].
Qed.

(** The longest match is the last one, perhaps longer than it was found. *)
Lemma longest_occurs ms len : matches_ok mf (position mf) ms len -> 1 <= len -> occurs mf (position mf) room (mk_match len (m_dist (match_at ms (zlen ms - 1)))).
Proof using Hinv.
  clear Hpos Hok. intros [_ Hl] Hlen. destruct (last ms) as [m|] eqn:E; [|lia]. apply last_Some in E as [pre ->]. destruct Hinv as [_ (_ & _ & Em) _ _]. rewrite Em in Hl.
  assert (match_at (pre ++ [m]) (zlen (pre ++ [m]) - 1) = m) as ->; [|apply Hl].
  unfold match_at. rewrite length_app. cbn [length]. rewrite app_nth2 by lia. now replace (Z.to_nat (Z.of_nat (length pre + 1) - 1) - length pre)%nat with 0%nat by lia.
Qed.

(** The match that is chosen in the end. *)
Definition main_match (ms : list lzma_match) (len_main : Z) : Z * Z :=
  if len_main >=? 2 then
    let '(len_main, back_main) := shorten (Z.to_nat (zlen ms)) ms (zlen ms) len_main (m_dist (match_at ms (zlen ms - 1))) in
    (if (len_main =? 2) && (back_main >=? 0x80) then 1 else len_main, back_main)
  else (len_main, 0).

Lemma main_match_occurs ms len : matches_ok mf (position mf) ms len ->
  (main_match ms len).1 < 2 \/ occurs mf (position mf) room (mk_match (main_match ms len).1 (main_match ms len).2).
Proof using Hinv.
  clear Hpos Hok. intros Hm. unfold main_match. destruct (Z.geb_spec len 2) as [Hge|]; [|left; cbn; lia].
  pose proof (longest_occurs ms len Hm ltac:(lia)) as Hl. destruct Hm as [Hall _]. destruct Hinv as [[[Hs _] _] (_ & _ & Em) _ _]. pose proof (shape_nice mf Hs) as Hn.
  assert (Forall (occurs mf (position mf) room) ms) as Hall' by (eapply Forall_impl; [exact Hall|]; intros m; apply occurs_limit; lia).
  pose proof (shorten_spec mf (position mf) room ms (Z.to_nat (zlen ms)) Hall' (zlen ms) len _ ltac:(lia) Hl) as Hsh.
  destruct (shorten _ _ _ _ _) as [lm bm]. cbn [fst snd] in *. destruct ((lm =? 2) && (bm >=? 128)); [left; lia|right; exact Hsh].
Qed.

Lemma rep_occurs_kept mf' limit i len : buffer mf' = buffer mf -> rep_occurs mf' rs (position mf) limit i len -> rep_occurs mf rs (position mf) limit i len.
Proof using Type. clear Hpos Hok Hinv. intros Eb (H1 & H2 & H3). unfold byte in *. rewrite Eb in H3. split_and!; auto; lia. Qed.

Lemma lawful_fast e : reps e = rs -> lawful rs st mf (lzma_lzma_optimum_fast e s0 mf).
Proof using Hinv Hok Hpos.
  intros Hrs. unfold lzma_lzma_optimum_fast. destruct first_search as (mf1 & s1 & len & -> & Ha & Hm). pose proof (position_bounds) as Hpb.
  pose proof Ha as [Hr1 Hk1 Hp1]. destruct (kept_fields mf 1 mf1 Hk1) as [(Eb & Ea & _ & Ew) (Ec & En & Em & _)].
  assert (u32 (mf_avail mf1 + 1) = write_pos mf - position mf) as Eav.
  { rewrite (avail_spec mf1 (proj1 (proj1 Hr1))). rewrite u32_small by (unfold is_u32; lia). lia. }
  rewrite Eav, Hp1, Hrs. replace (position mf + 1 - 1) with (position mf) by lia.
  destruct (Z.ltb_spec room 2); [apply (lawful_literal 1); [exact Ha|lia|lia|now left]|].
  pose proof (rep_loop_spec mf1 rs (position mf) room (Z.to_nat REPS) 0 0 0 ltac:(lia) ltac:(lia) eq_refl (or_introl eq_refl)) as Hrep.
  assert (forall k, 1 <= k <= room -> ahead mf k (mf_skip mf1 (k - 1))) as Hskip.
  { intros k Hk. replace k with (1 + (k - 1)) at 1 by lia. apply ahead_skip; [exact Ha|lia..]. }
  destruct (rep_loop _ _ _ _ _ _ _ _) as [[i l]|[rl ri]].
  { apply (rep_occurs_kept mf1) in Hrep; [|exact Eb]. apply lawful_rep; [exact Hrep|]. apply Hskip. destruct Hrep as (_ & Hl & _). lia. }
  assert (rl = 0 \/ rep_occurs mf rs (position mf) room ri rl) as Hrep' by (destruct Hrep as [|Hrep]; [now left|right; now apply (rep_occurs_kept mf1)]). clear Hrep.
  destruct Hinv as [[[Hs _] _] _ _ _]. pose proof (shape_nice mf Hs) as Hnice. assert (2 <= mf_get_hash_bytes (kind mf)) as Hhb by (destruct (kind mf); cbn; lia).
  destruct (Z.geb_spec len (mf_nice_len mf1)).
  { pose proof (longest_occurs _ _ Hm ltac:(lia)) as Ho. apply lawful_match; [exact Ho|]. apply Hskip. destruct Ho as (Hl & _). cbn in Hl. lia. }
  pose proof (main_match_occurs _ _ Hm) as Hmain. fold (main_match (matches s1) len). destruct (main_match (matches s1) len) as [lm bm]. cbn [fst snd] in Hmain.
  destruct ((rl >=? 2) && _) eqn:Erl.
  { apply andb_true_iff in Erl as [Erl _]. apply Z.geb_le in Erl. destruct Hrep' as [|Ho]; [lia|]. apply lawful_rep; [exact Ho|]. apply Hskip. destruct Ho as (_ & Hl & _). lia. }
  destruct ((lm <? 2) || (room <=? 2)) eqn:Elit; [apply (lawful_literal 1); [exact Ha|lia|lia|now left]|].
  apply orb_false_iff in Elit as [E1 E2]. apply Z.ltb_ge in E1. apply Z.leb_gt in E2.
  pose proof (ahead_find mf 1 mf1 Ha ltac:(lia) ltac:(lia) ltac:(lia)) as Hf. destruct (lzma_mf_find mf1) as [[mf2 ms] longest]. destruct Hf as [Ha2 Hm2].
  assert (lawful rs st mf (UINT32_MAX, 1, mk_fast ms (zlen ms) longest, mf2)) as Hlit by (apply (lawful_literal 2); [exact Ha2|lia|lia|right; auto]).
  destruct ((longest >=? 2) && _); [exact Hlit|]. destruct (existsb _ rs); [exact Hlit|].
  destruct Hmain as [|Ho]; [lia|]. apply lawful_match; [exact Ho|]. replace lm with (2 + (lm - 2)) at 1 by lia. destruct Ho as (Hl & _). cbn in Hl. apply ahead_skip; [exact Ha2|lia..].
Qed.

End Choice.

#[export] Instance optimum_fast_laws : OptimumLaws fast_state dict_size.
Proof.
  refine {| opt_inv := fast_inv |}. intros e s mf back len s' mf' Hinv Hok Hpos Ho. cbn [optimum optimum_fast] in Ho. cbv zeta.
  pose proof (lawful_fast (reps e) (estate e) s mf Hinv Hok Hpos e eq_refl) as H. rewrite Ho in H. exact H.
Defined.

End Fast.
