(* ===== verification/LzmaRoundtrip.v ===== *)
(** * The round trip of LZMA

    What [lzma_lzma_encode] writes for some data is decoded by [lzma_decode] to
    the same data: [lzma_encoder.c], [range_encoder.h], [lzma_decoder.c] and
    [range_decoder.h] together.  Any choice of matches that the format can
    express will do; [OptimumLaws] states what the encoder relies on. *)

From Stdlib Require Import ZArith Lia.
From stdpp Require Import gmap list.
From S2P Require Import Prelude Vli FilterProps FilterFlags FastPos Coder MatchFinder RangeCoder LzDict LzDecoder LzmaCommon LzmaDecoder LzmaSafety LzmaEncoder LzmaSymbols LzmaOptimumFast.

(** ** The probabilities that a symbol uses are inside their arrays *)

Section Valid.
Context (lc lp pb : Z) (Hprops : 0 <= lc /\ 0 <= lp /\ lc + lp <= 4 /\ 0 <= pb <= 4).

Definition bit_valid (s : rc_symbol prob_ptr) : Prop :=
  match s with RC_BIT p _ => valid_ptr lc lp pb p | RC_DIRECT _ => True | RC_FLUSH => False end.

Lemma bittree_valid p B n v : forall m, 1 <= m -> (m + 1) * 2 ^ Z.of_nat n <= 2 * B -> B <= 1073741824 ->
  (forall i, 1 <= i < B -> valid_ptr lc lp pb (index p i)) -> Forall bit_valid (bittree_symbols (index p) n v m).
Proof using Type.
  clear Hprops. induction n as [|n IH]; intros m Hm Hb HB Hp; [apply List.Forall_nil|]. cbn [bittree_symbols].
  replace (Z.of_nat (S n)) with (Z.of_nat n + 1) in Hb by lia. rewrite Z.pow_add_r in Hb by lia. change (2 ^ 1) with 2 in Hb.
  pose proof (Z.pow_pos_nonneg 2 (Z.of_nat n) ltac:(lia) ltac:(lia)). assert (m < B) by nia.
  apply List.Forall_cons; [apply Hp; lia|]. destruct (tree_bit v n m ltac:(lia) ltac:(lia)) as [E1 E2]. rewrite E1.
  assert (0 <= (v / 2 ^ Z.of_nat n) mod 2 < 2) by (apply Z.mod_pos_bound; lia). apply IH; [lia|nia|exact HB|exact Hp].
Qed.

Lemma reverse_valid p B n : forall v m, 1 <= m -> (m + 1) * 2 ^ Z.of_nat n <= 2 * B -> B <= 1073741824 ->
  (forall i, 1 <= i < B -> valid_ptr lc lp pb (index p i)) -> Forall bit_valid (bittree_reverse_symbols (index p) n v m).
Proof using Type.
  clear Hprops. induction n as [|n IH]; intros v m Hm Hb HB Hp; [apply List.Forall_nil|]. rewrite reverse_symbols_S.
  replace (Z.of_nat (S n)) with (Z.of_nat n + 1) in Hb by lia. rewrite Z.pow_add_r in Hb by lia. change (2 ^ 1) with 2 in Hb.
  pose proof (Z.pow_pos_nonneg 2 (Z.of_nat n) ltac:(lia) ltac:(lia)). assert (m < B) by nia.
  apply List.Forall_cons; [apply Hp; lia|]. rewrite index_push, push_bit_spec by lia.
  assert (0 <= Z.b2z (Z.odd v) <= 1) by (destruct (Z.odd v); cbn; lia). apply IH; [lia|nia|exact HB|exact Hp].
Qed.

Lemma direct_valid v n : Forall bit_valid (direct_symbols v n).
Proof using Type. clear Hprops. induction n; cbn [direct_symbols]; [apply List.Forall_nil|apply List.Forall_cons; [exact I|assumption]]. Qed.

Lemma matched_valid p b : is_byte b -> tree_ok lc lp pb p 768 -> forall n mb off sym, (n <= 8)%nat -> off = 0 \/ off = 256 ->
  sym = (256 + b) * 2 ^ Z.of_nat (8 - n) -> Forall bit_valid (matched_symbols n p mb off sym).
Proof using Type.
  clear Hprops. unfold is_byte. intros Hb Hp. induction n as [|n IH]; intros mb off sym Hn Hoff Hsym; [apply List.Forall_nil|]. cbn [matched_symbols].
  set (k := (8 - S n)%nat) in *. assert (1 <= 2 ^ Z.of_nat k <= 128) as Hk.
  { change 128 with (2 ^ 7). pose proof (Z.pow_pos_nonneg 2 (Z.of_nat k)). pose proof (Z.pow_le_mono_r 2 (Z.of_nat k) 7). lia. }
  assert (0 <= Z.shiftr sym 8 < 256) as Hsh by (rewrite Z.shiftr_div_pow2 by lia; split; [apply Z.div_pos; nia|apply Z.div_lt_upper_bound; nia]).
  assert (forall x, Z.land off x = 0 \/ Z.land off x = 256) as Hland by (intros x; rewrite Z.land_comm; destruct (land_offset x off Hoff); lia).
  apply List.Forall_cons; [apply Hp; rewrite (Z.land_comm _ off); destruct (Hland (u32 (Z.shiftl mb 1))); lia|].
  apply IH; [lia|apply Hland|]. rewrite Z.shiftl_mul_pow2, u32_small by (try lia; unfold is_u32; nia).
  rewrite Hsym. replace (Z.of_nat (8 - n)) with (Z.of_nat k + 1) by lia. rewrite Z.pow_add_r by lia. lia.
Qed.

Lemma length_valid repeated ps len : 0 <= ps < Z.shiftl 1 pb -> 2 <= len <= MATCH_LEN_MAX -> Forall bit_valid (length_symbols repeated ps len).
Proof using Type.
  clear Hprops. intros Hps Hl. unfold length_symbols. cbv zeta.
  assert (forall a n L x v, L = 2 ^ Z.of_nat n -> 8 <= L <= 256 -> (forall i, 0 <= i < L -> valid_ptr lc lp pb (a, i)) -> valid_ptr lc lp pb x ->
    forall b, Forall bit_valid (RC_BIT x b :: bittree_symbols (index (a, 0)) n v 1)) as Htree.
  { intros a n L x v -> HL Ha Hx b. apply List.Forall_cons; [exact Hx|]. apply (bittree_valid _ (2 ^ Z.of_nat n)); [lia|lia|lia|].
    intros i Hi. unfold index. cbn [fst snd]. apply Ha. lia. }
  repeat case_if.
  - apply (Htree _ _ 8); [reflexivity|lia|intros i Hi; now split|reflexivity].
  - apply List.Forall_cons; [reflexivity|]. apply (Htree _ _ 8); [reflexivity|lia|intros i Hi; now split|reflexivity].
  - apply List.Forall_cons; [reflexivity|]. apply (Htree _ _ 256); [reflexivity|lia|intros i Hi; exact Hi|reflexivity].
Qed.

Lemma footer_valid d : 0 <= d < 4294967296 -> Forall bit_valid (footer_symbols d (get_dist_slot d)).
Proof using Type.
  clear Hprops. intros Hd. destruct (Z.ltb_spec d 4) as [Hlt|Hge].
  { rewrite footer_small; [apply List.Forall_nil|]. rewrite get_dist_slot_spec by (unfold is_u32; lia). unfold dist_slot. case_if; b2p; lia. }
  destruct (slot_split d ltac:(lia)) as (Hslot & Hn & Hsm & _ & Hlor & _). set (slot := get_dist_slot d) in *.
  unfold footer_symbols. rewrite Hlor. cbv zeta. repeat case_if; b2p; [|apply Forall_app_2; [apply direct_valid|]|apply List.Forall_nil].
  - destruct (slot_model slot) as (Hl & Hb0 & Hv); [unfold DIST_MODEL_START, DIST_MODEL_END in *; lia|]. cbv zeta in *.
    apply (reverse_valid _ (2 ^ (Z.shiftr slot 1 - 1))); [lia|rewrite Z2Nat.id by lia; lia|change 1073741824 with (2 ^ 30); apply Z.pow_le_mono_r; lia|].
    intros i Hi. exact (Hv i Hi).
  - apply (reverse_valid _ 16); [lia|vm_compute; discriminate|lia|]. intros i Hi. cbn. unfold ALIGN_SIZE. lia.
Qed.

Lemma lz_bits_valid lm pm h st rs s : lm = literal_mask_calc lc lp -> pm = u32 (Z.shiftl 1 pb - 1) -> 0 <= st < STATES ->
  lz_ok h rs s \/ s = LZ_MATCH UINT32_MAX MATCH_LEN_MIN -> Forall bit_valid (lz_bits lc lm pm (hist h) st rs s).
Proof using Hprops.
  intros -> Hpm Hst Hok.
  assert (0 <= Z.land (zlen (hist h)) pm < Z.shiftl 1 pb) as Hps.
  { pose proof (pos_state_range lc lp pb Hprops (mk_lzma1 ∅ rc_reset_decoder 0 0 0 0 0 pm 0 0 0 false SEQ_IS_MATCH (literal_probs, 0) 0 0 0 0) h Hpm) as Hx. exact Hx. }
  assert (forall d l, 2 <= l <= MATCH_LEN_MAX -> 0 <= d < 4294967296 -> Forall bit_valid (lz_bits lc (literal_mask_calc lc lp) pm (hist h) st rs (LZ_MATCH d l))) as Hmatch.
  { intros d l Hl Hd. cbn [lz_bits]. repeat (apply List.Forall_cons; [cbn; tauto|]). unfold match_symbols.
    apply Forall_app_2; [now apply length_valid|]. apply Forall_app_2; [|now apply footer_valid].
    apply (bittree_valid _ 64); [lia|vm_compute; discriminate|lia|]. intros i Hi. cbn. unfold DIST_SLOTS, DIST_STATES, get_dist_state, DIST_STATES, MATCH_LEN_MIN.
    destruct (Z.ltb_spec l (4 + 2)); lia. }
  destruct Hok as [Hok| ->]; [|apply Hmatch; [len_lia|unfold UINT32_MAX; lia]].
  destruct s as [b|r l|d l]; cbn [lz_ok] in Hok.
  - cbn [lz_bits]. apply List.Forall_cons; [cbn; tauto|]. unfold literal_symbols.
    pose proof (literal_tree lc lp pb Hprops (zlen (hist h)) (byte_back (hist h) 0)) as Ht. case_if.
    + apply (bittree_valid _ 256); [lia|vm_compute; discriminate|lia|]. intros i Hi. apply Ht. lia.
    + apply (matched_valid _ b Hok Ht); [lia|now right|]. change (2 ^ Z.of_nat (8 - 8)) with 1. lia.
  - destruct Hok as (Hr & Hl & _). cbn [lz_bits]. repeat (apply List.Forall_cons; [cbn; tauto|]). unfold rep_symbols.
    apply Forall_app_2; [repeat case_if; repeat (apply List.Forall_cons; [cbn; tauto|]); apply List.Forall_nil|].
    destruct (Z.eqb_spec l 1); [apply List.Forall_nil|]. apply length_valid; [exact Hps|lia].
  - destruct Hok as (Hl & [Hd _] & Hmax). apply Hmatch; [exact Hl|unfold UINT32_MAX in *; lia].
Qed.

End Valid.

(** ** Two stores

    The encoder's store [P] and the decoder's store [Q] hold the same
    probabilities at the pointers that correspond. *)

Section Rename.
Context (lc lp pb : Z).

Definition related (P Q : prob_store) : Prop := forall p, valid_ptr lc lp pb p -> prob_at P p = prob_at Q (decoder_ptr p).

Lemma align_node_inj i j : 0 <= i < 16 -> 0 <= j < 16 -> align_node i = align_node j -> i = j.
Proof.
  intros Hi Hj. assert (forall k, 0 <= k < 16 -> align_node (align_node k) = k) as Hinv.
  { intros k Hk. assert (k ∈ seqZ 0 16) as Hin by (apply elem_of_seqZ; lia). clear Hk. revert k Hin. apply Forall_forall. repeat constructor. }
  intros E. rewrite <- (Hinv i), <- (Hinv j) by lia. now rewrite E.
Qed.

Lemma decoder_ptr_inj p q : valid_ptr lc lp pb p -> valid_ptr lc lp pb q -> decoder_ptr p = decoder_ptr q -> p = q.
Proof.
  destruct p as [a i], q as [b j]. unfold decoder_ptr. cbn [fst snd]. intros Hp Hq E.
  assert (a = b) as -> by (destruct a, b; congruence). destruct b; try congruence. injection E as E.
  f_equal. now apply align_node_inj.
Qed.

Lemma related_update P Q p b : related P Q -> valid_ptr lc lp pb p -> related (update_prob P p b) (update_prob Q (decoder_ptr p) b).
Proof.
  intros HR Hp q Hq. rewrite !prob_at_update. rewrite (HR p Hp), (HR q Hq). repeat case_bool_decide; auto; [congruence|].
  exfalso. eauto using decoder_ptr_inj.
Qed.

Lemma flush_loop_length {ptr : Type} (l l' : list (rc_symbol ptr)) : length l = length l' -> forall room r, flush_loop l room r = flush_loop l' room r.
Proof.
  revert l'. induction l as [|s l IH]; intros [|s' l'] Hl room r; try discriminate; [reflexivity|]. cbn [flush_loop].
  destruct (rc_shift_low room r) as [[f r1] o1]. now rewrite (IH l') by (injection Hl; auto).
Qed.

Lemma loop_rename todo : forall room P Q r P' r' out, Forall (bit_valid lc lp pb) todo -> related P Q ->
  rc_encode_loop (todo ++ flush_symbols) room P r = (false, P', r', out) ->
  exists Q', rc_encode_loop (map decoder_bit todo ++ flush_symbols) room Q r = (false, Q', r', out).
Proof.
  induction todo as [|s todo IH]; intros room P Q r P' r' out Hv HR.
  - cbn [map app]. unfold flush_symbols. cbn [replicate rc_encode_loop]. destruct (rc_normalize_enc room r) as [[f r1] o1]. destruct f; [discriminate|].
    destruct (flush_loop _ _ _) as [[f r2] o2]. destruct f; [discriminate|]. intros [= _ <- <-]. eauto.
  - apply Forall_cons in Hv as [Hs Hv]. cbn [map app rc_encode_loop]. destruct (rc_normalize_enc room r) as [[f r1] o1]. destruct f; [discriminate|].
    assert (forall P2 Q2 r2, related P2 Q2 ->
      (let '(full, P, rc, out') := rc_encode_loop (todo ++ flush_symbols) (room - length o1) P2 r2 in (full, P, rc, o1 ++ out')) = (false, P', r', out) ->
      exists Q', (let '(full, P, rc, out') := rc_encode_loop (map decoder_bit todo ++ flush_symbols) (room - length o1) Q2 r2 in (full, P, rc, o1 ++ out')) = (false, Q', r', out)) as Hrec.
    { intros P2 Q2 r2 HR2. destruct (rc_encode_loop (todo ++ _) _ _ _) as [[[f P3] r3] o3] eqn:E. intros [= -> -> -> <-].
      destruct (IH _ _ Q2 _ _ _ _ Hv HR2 E) as [Q' ->]. eauto. }
    destruct s as [p b|b|]; [| |contradiction]; cbn [decoder_bit encode_bit].
    + rewrite <- (HR p Hs). destruct b; apply Hrec; now apply related_update.
    + destruct b; now apply Hrec.
Qed.

Lemma encodes_rename F todo P Q r W : Forall (bit_valid lc lp pb) todo -> related P Q -> encodes F todo P r W ->
  encodes F (map decoder_bit todo) Q r W.
Proof.
  intros Hv HR (room & P' & r' & out & E & ->). destruct (loop_rename todo room P Q r P' r' out Hv HR E) as [Q' E'].
  now exists room, Q', r', out.
Qed.

Lemma reset_related P Q : related (reset_probs lc lp pb P) (reset_probs lc lp pb Q).
Proof.
  intros p Hp. unfold prob_at. rewrite (reset_probs_initial lc lp pb P p Hp). rewrite (reset_probs_initial lc lp pb Q (decoder_ptr p)); [reflexivity|].
  destruct p as [a i]. destruct a; try exact Hp. cbn in *. unfold ALIGN_SIZE in *.
  assert (i ∈ seqZ 0 16) as Hin by (apply elem_of_seqZ; lia). clear Hp. revert i Hin. apply Forall_forall.
  repeat (apply List.Forall_cons; [vm_compute; split; congruence|]). apply List.Forall_nil.
Qed.

End Rename.

(** ** The encoder *)

(** Enough room: the queued symbols are encoded at once. *)
Lemma rc_total todo : forall P (r : lzma_range_encoder prob_ptr), encoder_inv r -> Forall (symbol_ok P) todo -> fits r todo ->
  exists r' out, encoder_inv r' /\ 1 <= cache_size r' <= cache_size r + zlen todo /\ symbols r' = [] /\ pos r' = 0%nat /\
    forall room, (length out <= room)%nat -> rc_encode_loop todo room P r = (false, stores P todo, r', out).
Proof.
  induction todo as [|s todo IH]; intros P r Hi Hs Hf.
  - exists (mk_encoder (low r) (cache_size r) (range r) (cache r) (out_total r) [] 0), []. split; [destruct Hi as [[] ?]; split; [constructor|]; assumption|]. destruct Hi as [[] _].
    split; [cbn; lia|]. split_and!; [reflexivity..|]. intros room _. reflexivity.
  - apply Forall_cons in Hs as [Hs Htodo]. unfold fits in Hf. cbn [length] in Hf.
    destruct (rc_normalize_enc (Z.to_nat (cache_size r)) r) as [[f r1] o1] eqn:E.
    assert (f = false) as -> by (eapply normalize_enough; [|exact E]; destruct Hi as [[] _]; lia).
    pose proof E as Hn. eapply (rc_normalize_spec _ _ _ _ []) in Hn as (Hok & Hr & _ & Hl & _); [|assumption|lia].
    destruct (encode_bit P r1 s) as [P2 r2] eqn:Eb. pose proof Eb as Hb. eapply (encode_bit_spec _ _ _ _ _ []) in Hb as (-> & _ & _ & Hc & Hi2); [|assumption..].
    destruct (IH (store_after P s) (set_pos r2 (S (pos r2)))) as (r' & out & Hi' & Hc' & Hq & Hp & Hall).
    + now apply encoder_inv_pos.
    + now apply symbols_ok_after.
    + unfold fits. cbn [cache_size set_pos]. lia.
    + exists r', (o1 ++ out). split_and!; auto; [lia|cbn [cache_size set_pos length] in *; lia|]. intros room Hroom. rewrite length_app in Hroom.
      cbn [rc_encode_loop]. rewrite (normalize_done _ _ _ _ E) by lia. destruct s; [| |contradiction]; rewrite Eb, Hall by lia; reflexivity.
Qed.

Section Encoder.
Context (lc lp pb : Z) (Hprops : 0 <= lc /\ 0 <= lp /\ lc + lp <= 4 /\ 0 <= pb <= 4).
Abbreviation lm := (literal_mask_calc lc lp).
Abbreviation pm := (u32 (Z.shiftl 1 pb - 1)).

(** The encoder between two symbols, after [n] bytes. *)
Record encoder_ready (e : lzma_lzma1_encoder) (n : Z) : Prop := {
  rdy_inv : encoder_inv (erc e);
  rdy_queue : symbols (erc e) = [] /\ pos (erc e) = 0%nat;
  rdy_cache : cache_size (erc e) <= 1 + 64 * n;
  rdy_probs : probs_ok lc lp pb (estore e);
  rdy_state : 0 <= estate e < STATES;
  rdy_params : epos_mask e = pm /\ eliteral_context_bits e = lc /\ eliteral_mask e = lm;
  rdy_size : uncomp_size e = n /\ out_limit e = 0;
}.

Lemma probs_symbol_ok P l : probs_ok lc lp pb P -> Forall (bit_valid lc lp pb) l -> Forall (symbol_ok P) l.
Proof using Type. clear Hprops. intros HP Hl. eapply Forall_impl; [exact Hl|]. intros [p b|b|]; cbn; auto. Qed.

Lemma probs_ok_stores l : forall P, probs_ok lc lp pb P -> Forall (bit_valid lc lp pb) l -> probs_ok lc lp pb (stores P l).
Proof using Type.
  clear Hprops. induction l as [|s l IH]; intros P HP Hl; [exact HP|]. apply Forall_cons in Hl as [Hs Hl]. unfold stores. cbn [fold_left]. apply IH; [|exact Hl].
  destruct s; cbn; auto. now apply probs_ok_update.
Qed.

(** The symbols [l] go through the range encoder. *)
Lemma run_queue e n l : encoder_ready e n -> Forall (bit_valid lc lp pb) l -> zlen l <= 64 -> 0 <= n < 4294967296 ->
  exists P' r' out, (forall room e', (length out <= room)%nat -> erc e' = erc e -> estore e' = estore e ->
      run_rc room (queue e' l) = (false, set_encoded e' P' r', out)) /\
    encoder_inv r' /\ symbols r' = [] /\ pos r' = 0%nat /\ cache_size r' <= cache_size (erc e) + zlen l /\ probs_ok lc lp pb P' /\
    forall F T W, encodes F T P' r' (W ++ out) -> encodes F (l ++ T) (estore e) (erc e) W.
Proof using Type.
  clear Hprops. intros [Hi [Hq Hp] Hc HP _ _ _] Hl Hlen Hn. pose proof (probs_symbol_ok _ _ HP Hl) as Hs.
  destruct (rc_total l (estore e) (erc e) Hi Hs) as (r' & out & Hi' & Hc' & Hq' & Hp' & Hall); [unfold fits; lia|].
  exists (stores (estore e) l), r', out. split_and!; auto; [|lia|now apply probs_ok_stores|].
  - intros room e' Hroom E1 E2. unfold run_rc, rc_encode, queue. cbn [erc estore set_erc rc_queue symbols pos]. rewrite E1, E2, Hq, Hp. cbn [app drop].
    specialize (Hall room Hroom). apply (loop_with_queue _ l 0%nat) in Hall. unfold rc_queue. rewrite Hq, Hp. cbn [app].
    unfold with_queue in Hall. change (drop 0 l) with l. rewrite Hall. reflexivity.
  - intros F T W He. eapply encodes_app; [|exact (Hall (length out) (le_n _))|exact He].
    eapply Forall_impl; [exact Hs|]. intros s. apply symbol_ok_no_flush.
Qed.

End Encoder.

Section Loop.
Context (lc lp pb : Z) (Hprops : 0 <= lc /\ 0 <= lp /\ lc + lp <= 4 /\ 0 <= pb <= 4).
Context {S : Type} `{Optimum S} (dict_size : Z) `{!OptimumLaws S dict_size}.
Abbreviation lm := (literal_mask_calc lc lp).
Abbreviation pm := (u32 (Z.shiftl 1 pb - 1)).

Lemma data_byte mf i : 0 <= i < write_pos mf -> byte_at (mf_data mf) i = byte_at (buffer mf) i.
Proof using Type. clear Hprops. intros Hi. unfold mf_data. apply byte_at_take. lia. Qed.

Lemma data_length mf : mf_ok mf -> zlen (mf_data mf) = write_pos mf.
Proof using Type. clear Hprops. intros [Ho _ _ _]. unfold mf_data. rewrite length_take. lia. Qed.

(** The bits that [encode_symbol] queues. *)
Lemma encode_symbol_queue e mf back len : encoder_ready lc lp pb e (position mf) -> mf_ok mf -> 0 < position mf < 4294967296 ->
  position mf < write_pos mf -> 0 <= back ->
  let l := take (Z.to_nat (position mf)) (mf_data mf) in
  let sym := choice (mf_data mf) (position mf) back len in
  (is_literal_state (estate e) = false -> 0 <= byte_at (reps e) 0 < position mf) ->
  encode_symbol e mf back len (u32 (position mf)) =
    (queue (set_ereps (set_estate e (lz_state (estate e) sym)) (lz_reps (reps e) sym)) (lz_bits lc lm pm l (estate e) (reps e) sym),
     set_read_ahead mf (read_ahead mf - len)).
Proof using Type.
  clear Hprops. intros [_ _ _ _ _ (Hpm & Hlc & Hlm) _] Hmf Hpos Hw Hb l sym Hr0.
  assert (zlen l = position mf) as Hl by (unfold l; rewrite length_take; pose proof (data_length mf Hmf); lia).
  unfold encode_symbol. rewrite (u32_small (position mf)) by (unfold is_u32; lia). rewrite Hpm. f_equal.
  unfold sym, choice. destruct (Z.eqb_spec back UINT32_MAX) as [E|E].
  - cbn [lz_state lz_reps lz_bits]. rewrite Hl. unfold literal. rewrite queue_bit_queue. change (estate (queue e ?x)) with (estate e).
    change (eliteral_context_bits (queue e ?x)) with (eliteral_context_bits e). change (eliteral_mask (queue e ?x)) with (eliteral_mask e).
    rewrite Hlc, Hlm. fold (position mf).
    assert (forall i, 0 <= i < position mf -> byte_at l i = byte_at (buffer mf) i) as Hbyte.
    { intros i Hi. unfold l. rewrite byte_at_take, data_byte by lia. reflexivity. }
    assert (byte_back l 0 = byte_at (buffer mf) (position mf - 1)) as -> by (unfold byte_back; rewrite Hl, Hbyte by lia; f_equal; lia).
    rewrite (data_byte mf (position mf)) by lia. unfold literal_symbols. destruct (is_literal_state (estate e)) eqn:El.
    + rewrite queue_tree_queue, queue_state, queue_app. destruct e; reflexivity.
    + unfold literal_matched. rewrite matched_loop_queue, queue_state, queue_app.
      replace (byte_back l (byte_at (reps e) 0)) with (byte_at (buffer mf) (read_pos mf - rep (queue e [RC_BIT (is_match (estate e), Z.land (position mf) pm) false]) 0 - 1 - read_ahead mf)).
      { destruct e; reflexivity. }
      specialize (Hr0 eq_refl). unfold byte_back. rewrite Hl, Hbyte by lia. f_equal. change (rep (queue e ?x) 0) with (byte_at (reps e) 0). unfold position. lia.
  - destruct (Z.ltb_spec back REPS) as [Hlt|Hge]; unfold REPS in *; cbn [lz_state lz_reps lz_bits]; rewrite Hl.
    + rewrite rep_queue by lia. unfold after_symbol. rewrite !queue_bit_queue, queue_app.
      change (estate (queue e ?x)) with (estate e). change (reps (queue e ?x)) with (reps e). rewrite queue_state, queue_reps, queue_app. reflexivity.
    + rewrite match_queue. unfold after_symbol. rewrite !queue_bit_queue, queue_app.
      change (estate (queue e ?x)) with (estate e). change (rep (queue e ?x)) with (byte_at (reps e)). rewrite queue_state, queue_reps, queue_app. reflexivity.
Qed.

(** *** How many bits a symbol has *)

Lemma bittree_length {ptr : Type} (t : Z -> ptr) n v m : length (bittree_symbols t n v m) = n.
Proof using Type. clear Hprops. revert m. induction n as [|n IH]; intros m; cbn [bittree_symbols length]; [reflexivity|]. now rewrite IH. Qed.

Lemma reverse_length {ptr : Type} (t : Z -> ptr) n v m : length (bittree_reverse_symbols t n v m) = n.
Proof using Type. clear Hprops. revert v m. induction n as [|n IH]; intros v m; cbn [bittree_reverse_symbols length]; [reflexivity|]. now rewrite IH. Qed.

Lemma direct_length {ptr : Type} v n : length (@direct_symbols ptr v n) = n.
Proof using Type. clear Hprops. induction n as [|n IH]; cbn [direct_symbols length]; [reflexivity|]. now rewrite IH. Qed.

Lemma matched_length p n : forall mb off sym, length (matched_symbols n p mb off sym) = n.
Proof using Type. clear Hprops. induction n as [|n IH]; intros; cbn [matched_symbols length]; [reflexivity|]. now rewrite IH. Qed.

Lemma length_length repeated ps len : (length (length_symbols repeated ps len) <= 10)%nat.
Proof using Type.
  clear Hprops. unfold length_symbols. cbv zeta. repeat case_if; cbn [length]; rewrite bittree_length; unfold LEN_LOW_BITS, LEN_MID_BITS, LEN_HIGH_BITS; lia.
Qed.

Lemma footer_length d : 0 <= d < 4294967296 -> (length (footer_symbols d (get_dist_slot d)) <= 30)%nat.
Proof using Type.
  clear Hprops. intros Hd. destruct (Z.ltb_spec d 4).
  { rewrite footer_small; [cbn; lia|]. rewrite get_dist_slot_spec by (unfold is_u32; lia). unfold dist_slot. case_if; b2p; lia. }
  destruct (slot_split d ltac:(lia)) as (Hslot & Hn & _). unfold footer_symbols. cbv zeta.
  repeat case_if; rewrite ?length_app, ?reverse_length, ?direct_length; change (Z.of_nat ALIGN_BITS) with 4; unfold ALIGN_BITS; cbn [length]; lia.
Qed.

Lemma lz_bits_length l st rs s : (match s with LZ_MATCH d _ => 0 <= d < 4294967296 | _ => True end) -> zlen (lz_bits lc lm pm l st rs s) <= 64.
Proof using Type.
  clear Hprops. destruct s as [b|r len|d len]; intros Hd; cbn [lz_bits length].
  - unfold literal_symbols. case_if; rewrite ?bittree_length, ?matched_length; lia.
  - unfold rep_symbols. rewrite length_app. pose proof (length_length true (Z.land (zlen l) pm) len). repeat case_if; cbn [length]; fold prob_ptr in *; lia.
  - unfold match_symbols. rewrite !length_app, bittree_length. pose proof (length_length false (Z.land (zlen l) pm) len). pose proof (footer_length d Hd).
    unfold DIST_SLOT_BITS. fold prob_ptr in *. lia.
Qed.

(** *** The loop *)

(** The bits [T] take a decoder from one state to another; the bytes [new] come
    after [l]. *)
Definition decodes_bits (T : rc_bits) (st : Z) (rs : list Z) (st' : Z) (rs' : list Z) (l new : bytes) : Prop :=
  forall fin eopm K F tail T' c h input, hist h = l -> zlen new <= avail h -> dict_size <= capacity h -> at_symbol lc lm pm c st rs ->
    synced F tail (map decoder_bit T ++ T') (store_ c) (rc c) input ->
    (forall c' rest, at_symbol lc lm pm c' st' rs' -> synced F tail T' (store_ c') (rc c') rest -> runs fin eopm K c' (push h new) rest) ->
    runs fin eopm K c h input.

Lemma push_app h a b : push (push h a) b = push h (a ++ b).
Proof using Type. clear Hprops. unfold push. cbn. rewrite app_assoc, length_app. f_equal. lia. Qed.

Lemma decodes_nil st rs l : decodes_bits [] st rs st rs l [].
Proof using Type.
  clear Hprops. intros fin eopm K F tail T' c h input _ _ _ Hat Hs Hdone. replace h with (push h []); [now apply Hdone|].
  unfold push. rewrite app_nil_r. cbn. rewrite Z.sub_0_r. now destruct h.
Qed.

Lemma decodes_app T1 T2 st rs st1 rs1 st2 rs2 l new1 new2 : decodes_bits T1 st rs st1 rs1 l new1 -> decodes_bits T2 st1 rs1 st2 rs2 (l ++ new1) new2 ->
  decodes_bits (T1 ++ T2) st rs st2 rs2 l (new1 ++ new2).
Proof using Type.
  clear Hprops. intros H1 H2 fin eopm K F tail T' c h input Hh Hav Hcap Hat Hs Hdone. rewrite map_app, <- app_assoc in Hs. rewrite length_app in Hav.
  eapply H1; [exact Hh|lia|exact Hcap|exact Hat|exact Hs|]. intros c1 rest1 Hat1 Hs1.
  eapply H2; [cbn; now rewrite Hh|cbn; lia|exact Hcap|exact Hat1|exact Hs1|]. intros c2 rest2 Hat2 Hs2. rewrite push_app. now apply Hdone.
Qed.

Lemma lz_ok_window l h rs s : hist h = l -> dict_size <= capacity h -> lz_ok (mk_history l 0 dict_size false) rs s -> lz_ok h rs s.
Proof using Type.
  clear Hprops. intros Hh Hcap. assert (forall d, inside (mk_history l 0 dict_size false) d -> inside h d) as Hin.
  { intros d [Hd Hv]. split; [exact Hd|]. cbn [window_valid history_window hist capacity] in *. rewrite Z.gtb_lt in *. rewrite Hh. lia. }
  destruct s; cbn [lz_ok]; intuition.
Qed.

Lemma decodes_symbol l st rs s : lz_ok (mk_history l 0 dict_size false) rs s ->
  decodes_bits (lz_bits lc lm pm l st rs s) st rs (lz_state st s) (lz_reps rs s) l (lz_bytes l rs s).
Proof using Type.
  clear Hprops. intros Hok fin eopm K F tail T' c h input Hh Hav Hcap Hat Hs Hdone. subst l.
  eapply symbol_runs; [exact Hat|eapply lz_ok_window; eauto|exact Hav|exact Hs|exact Hdone].
Qed.

(** The first distance is valid when a literal needs it. *)
Definition lit_inv (e : lzma_lzma1_encoder) (n : Z) : Prop := is_literal_state (estate e) = false -> 0 <= byte_at (reps e) 0 < n.

Lemma literal_after st b : 0 <= st < STATES -> is_literal_state (lz_state st (LZ_LITERAL b)) = true.
Proof using Type.
  clear Hprops. intros Hst. destruct (literal_state_next st Hst) as (_ & _ & _ & _ & H1 & H2). cbn [lz_state].
  destruct (is_literal_state st); [now apply H1|]. now destruct (H2 eq_refl).
Qed.

Lemma lz_state_range st s : 0 <= st < STATES -> 0 <= lz_state st s < STATES.
Proof using Type.
  clear Hprops. intros Hst. destruct (literal_state_next st Hst) as (H1 & H2 & H3 & H4 & _ & H5).
  destruct s; cbn [lz_state]; auto; case_if; auto. now destruct (H5 eq_refl).
Qed.

(** What one symbol leaves behind. *)
Lemma lit_inv_after l st rs s n : 0 <= st < STATES -> lz_ok (mk_history l 0 dict_size false) rs s -> zlen l <= n ->
  is_literal_state (lz_state st s) = false -> 0 <= byte_at (lz_reps rs s) 0 < n.
Proof using Type.
  clear Hprops. intros Hst Hok Hn. assert (forall d, inside (mk_history l 0 dict_size false) d -> 0 <= d < n) as Hin.
  { intros d [Hd Hv]. cbn [window_valid history_window hist capacity] in Hv. rewrite Z.gtb_lt in Hv. lia. }
  destruct s as [b|r len|d len]; [now rewrite literal_after|..]; intros _; cbn [lz_ok lz_reps] in *.
  - destruct Hok as (Hr & _ & Hi). apply Hin in Hi. unfold rep_distances.
    assert (r = 0 \/ r = 1 \/ r = 2 \/ r = 3) as Hc by lia. destruct Hc as [->|[->|[->| ->]]]; cbn; exact Hi.
  - destruct Hok as (_ & Hi & _). now apply Hin.
Qed.

(** One round of the loop. *)
Lemma round_spec e s mf : let n := position mf in
  encoder_ready lc lp pb e n -> lit_inv e n -> mf_ok mf -> opt_inv (reps e) (estate e) s mf -> 0 < n < write_pos mf -> write_pos mf < 4294967296 ->
  exists sym P' r' s' mf' m out,
    let e' := set_encoded (set_uncomp_size (set_ereps (set_estate e (lz_state (estate e) sym)) (lz_reps (reps e) sym)) m) P' r' in
    (forall fuel room out_pos, (length out <= room)%nat -> encode_loop (Datatypes.S fuel) UINT32_MAX e s mf out_pos room =
      match encode_loop fuel UINT32_MAX e' s' mf' (out_pos + zlen out) (room - length out) with
      | Some (x, e, s, mf, out') => Some (x, e, s, mf, out ++ out')
      | None => None
      end) /\
    let T := lz_bits lc lm pm (take (Z.to_nat n) (mf_data mf)) (estate e) (reps e) sym in
    encoder_ready lc lp pb e' m /\ lit_inv e' m /\ mf_ok mf' /\ mf_data mf' = mf_data mf /\ position mf' = m /\ write_pos mf' = write_pos mf /\
    opt_inv (reps e') (estate e') s' mf' /\ n < m <= write_pos mf /\ Forall (bit_valid lc lp pb) T /\ zlen T <= 64 /\
    (forall F T' W, encodes F T' P' r' (W ++ out) -> encodes F (T ++ T') (estore e) (erc e) W) /\
    decodes_bits T (estate e) (reps e) (estate e') (reps e') (take (Z.to_nat n) (mf_data mf)) (slice n (m - n) (mf_data mf)).
Proof using Hprops.
  intros n Hrdy Hlit Hmf Hopt Hn Hw. destruct (optimum e s mf (u32 (position mf))) as [[[back len] s'] mf1] eqn:Eo.
  pose proof (opt_law e s mf back len s' mf1 Hopt Hmf ltac:(lia) Eo) as Hlaw. cbv zeta in Hlaw. fold n in Hlaw.
  set (l := take (Z.to_nat n) (mf_data mf)) in *. set (sym := choice (mf_data mf) n back len) in *.
  destruct Hlaw as (Hmf1 & Hpos & Hbuf & Hwp & Hback & Hlen & Hok & Hbytes & Hinv).
  assert (mf_data mf1 = mf_data mf) as Hdata by (unfold mf_data; now rewrite Hbuf, Hwp).
  pose proof (encode_symbol_queue e mf1 back len) as Hes. rewrite Hpos, Hdata, Hwp in Hes. fold n l sym in Hes.
  specialize (Hes Hrdy Hmf1 ltac:(lia) ltac:(lia) Hback Hlit).
  pose proof Hrdy as [Hi [Hq Hp] Hc HP Hst Hpar [Hsz Hol]].
  assert (Forall (bit_valid lc lp pb) (lz_bits lc lm pm l (estate e) (reps e) sym)) as Hbv by (apply (lz_bits_valid lc lp pb Hprops lm pm (mk_history l 0 dict_size false)); auto).
  assert (zlen (lz_bits lc lm pm l (estate e) (reps e) sym) <= 64) as Hbl.
  { apply lz_bits_length. destruct sym; auto. cbn [lz_ok] in Hok. unfold inside, UINT32_MAX in *. lia. }
  destruct (run_queue lc lp pb e n _ Hrdy Hbv Hbl ltac:(lia)) as (P' & r' & out & Hrun & Hi' & Hq' & Hp' & Hc' & HP' & Henc).
  pose proof Hmf1 as [Ho1 Hl1 Hf1 Hb1]. unfold position in Hpos. fold n in Hpos.
  exists sym, P', r', s', (set_read_ahead mf1 (read_ahead mf1 - len)), (n + len), out. cbv zeta. split; [|split_and!].
  - intros fuel room out_pos Hroom. cbn [encode_loop]. change (UINT32_MAX =? UINT32_MAX) with true. cbn [negb andb].
    destruct Hmf as [Ho Hl Hf Hby]. rewrite Hf, Hl. rewrite (bool_decide_false (LZMA_FINISH = LZMA_RUN)) by discriminate. rewrite andb_false_r.
    assert ((read_pos mf >=? write_pos mf) && (read_ahead mf =? 0) = false) as ->.
    { apply andb_false_iff. rewrite Z.geb_leb, Z.leb_gt, Z.eqb_neq. unfold n, position in Hn. lia. }
    rewrite Hsz. fold n in Eo. rewrite Eo. rewrite Hes.
    change (out_limit (queue ?x ?y)) with (out_limit e). rewrite Hol. cbn [Z.eqb negb andb].
    change (uncomp_size (queue ?x ?y)) with (uncomp_size e). rewrite Hsz.
    change (set_uncomp_size (queue ?x ?y) ?z) with (queue (set_uncomp_size x z) y). rewrite (Hrun room (set_uncomp_size (set_ereps (set_estate e (lz_state (estate e) sym)) (lz_reps (reps e) sym)) (n + len)) Hroom eq_refl eq_refl). reflexivity.
  - constructor; cbn; auto; [lia|now apply lz_state_range].
  - intros Hns. cbn in *. eapply (lit_inv_after l); [exact Hst|exact Hok| |exact Hns].
    unfold l. rewrite length_take. lia.
  - destruct Hmf1. constructor; cbn in *; auto. lia.
  - exact Hdata.
  - unfold position. cbn. lia.
  - exact Hwp.
  - exact Hinv.
  - lia.
  - lia.
  - exact Hbv.
  - exact Hbl.
  - exact Henc.
  - replace (n + len - n) with len by lia. rewrite <- Hbytes. now apply decodes_symbol.
Qed.

Lemma slice_split (l : bytes) a b c : 0 <= a <= b -> b <= c -> slice a (b - a) l ++ slice b (c - b) l = slice a (c - a) l.
Proof using Type.
  clear Hprops. intros Hab Hbc. unfold slice, from. replace (Z.to_nat (c - a)) with (Z.to_nat (b - a) + Z.to_nat (c - b))%nat by lia.
  rewrite <- take_take_drop. rewrite drop_drop. do 3 f_equal. lia.
Qed.

Lemma take_slice (l : bytes) a b : 0 <= a <= b -> take (Z.to_nat a) l ++ slice a (b - a) l = take (Z.to_nat b) l.
Proof using Type. clear Hprops. intros Hab. unfold slice, from. rewrite take_take_drop. f_equal. lia. Qed.

(** The loop, to the end of the data. *)
Lemma encode_loop_spec fuel : forall e s mf, let n := position mf in
  encoder_ready lc lp pb e n -> lit_inv e n -> mf_ok mf -> opt_inv (reps e) (estate e) s mf -> (0 < n \/ n = write_pos mf) -> write_pos mf < 4294967296 ->
  write_pos mf - n < Z.of_nat fuel ->
  exists T e' s' mf' out,
    (forall room out_pos, (length out <= room)%nat -> encode_loop fuel UINT32_MAX e s mf out_pos room = Some (LoopBreak, e', s', mf', out)) /\
    encoder_ready lc lp pb e' (write_pos mf) /\ use_eopm e' = use_eopm e /\ Forall (bit_valid lc lp pb) T /\ zlen T <= 64 * (write_pos mf - n) /\
    (forall F T' W, encodes F T' (estore e') (erc e') (W ++ out) -> encodes F (T ++ T') (estore e) (erc e) W) /\
    decodes_bits T (estate e) (reps e) (estate e') (reps e') (take (Z.to_nat n) (mf_data mf)) (slice n (write_pos mf - n) (mf_data mf)).
Proof using Hprops.
  induction fuel as [|fuel IH]; intros e s mf n Hrdy Hlit Hmf Hopt Hn Hw Hfuel; [destruct Hmf as [Ho _ _ _]; unfold n, position in *; lia|].
  pose proof Hmf as [Ho Hl Hf Hby]. assert (0 <= n) as Hn0 by (unfold n, position; lia). destruct (Z.ltb_spec n (write_pos mf)) as [Hlt|Hge].
  - destruct (round_spec e s mf Hrdy Hlit Hmf Hopt) as (sym & P' & r' & s1 & mf1 & m & out1 & Hstep & Hrest); [lia|exact Hw|]. cbv zeta in Hstep, Hrest.
    set (e1 := set_encoded _ P' r') in *. destruct Hrest as (Hrdy1 & Hlit1 & Hmf1 & Hdata & Hpos & Hwp & Hopt1 & Hm & Hbv & Hbl & Henc & Hdec). fold n in Hm, Hbv, Hbl, Henc, Hdec.
    specialize (IH e1 s1 mf1). cbv zeta in IH. rewrite Hpos, Hwp, Hdata in IH.
    destruct (IH Hrdy1 Hlit1 Hmf1 Hopt1 ltac:(lia) Hw ltac:(lia)) as (T & e' & s' & mf' & out & Hloop & Hrdy' & Hu & Hbv' & Hbl' & Henc' & Hdec').
    exists (lz_bits lc lm pm (take (Z.to_nat n) (mf_data mf)) (estate e) (reps e) sym ++ T), e', s', mf', (out1 ++ out). split_and!.
    + intros room out_pos Hroom. rewrite length_app in Hroom. rewrite Hstep by lia. now rewrite Hloop by lia.
    + exact Hrdy'.
    + exact Hu.
    + now apply Forall_app_2.
    + rewrite length_app. lia.
    + intros F T' W He. rewrite <- app_assoc. apply Henc. apply Henc'. now rewrite <- app_assoc.
    + rewrite <- (slice_split _ n m (write_pos mf)) by (unfold n, position in *; lia). eapply decodes_app; [exact Hdec|].
      rewrite take_slice by (unfold n, position in *; lia). exact Hdec'.
  - assert (n = write_pos mf) as E by (unfold n, position in *; lia).
    exists [], e, s, mf, []. split_and!; try reflexivity.
    + intros room out_pos _. cbn [encode_loop]. change (UINT32_MAX =? UINT32_MAX) with true. cbn [negb andb].
      rewrite Hf, Hl, (bool_decide_false (LZMA_FINISH = LZMA_RUN)) by discriminate. rewrite andb_false_r.
      assert ((read_pos mf >=? write_pos mf) && (read_ahead mf =? 0) = true) as ->; [|reflexivity].
      apply andb_true_iff. rewrite Z.geb_le, Z.eqb_eq. unfold n, position in E. lia.
    + now rewrite <- E.
    + apply List.Forall_nil.
    + cbn. lia.
    + intros F T' W. now rewrite app_nil_r.
    + rewrite E, Z.sub_diag. apply decodes_nil.
Qed.

(** *** The end *)

Lemma eopm_queue e (l : bytes) : epos_mask e = pm -> zlen l < 4294967296 -> encode_eopm e (u32 (zlen l)) =
  queue (set_ereps (set_estate e (lz_state (estate e) (LZ_MATCH UINT32_MAX MATCH_LEN_MIN))) (lz_reps (reps e) (LZ_MATCH UINT32_MAX MATCH_LEN_MIN)))
    (lz_bits lc lm pm l (estate e) (reps e) (LZ_MATCH UINT32_MAX MATCH_LEN_MIN)).
Proof using Type.
  clear Hprops. intros Hpm Hl. unfold encode_eopm. rewrite u32_small by (unfold is_u32; lia). rewrite Hpm, !queue_bit_queue, queue_app, match_queue.
  unfold after_symbol. change (estate (queue e ?x)) with (estate e). change (rep (queue e ?x)) with (byte_at (reps e)).
  rewrite queue_state, queue_reps, queue_app. reflexivity.
Qed.

(** The bits at the end: the end marker, if it is wanted. *)
Definition final_bits (eopm : bool) (l : bytes) (st : Z) (rs : list Z) : rc_bits :=
  if eopm then lz_bits lc lm pm l st rs (LZ_MATCH UINT32_MAX MATCH_LEN_MIN) else [].

Lemma final_valid eopm l st rs : 0 <= st < STATES -> Forall (bit_valid lc lp pb) (final_bits eopm l st rs) /\ zlen (final_bits eopm l st rs) <= 64.
Proof using Hprops.
  intros Hst. unfold final_bits. destruct eopm; [|split; [apply List.Forall_nil|cbn; lia]]. split.
  - apply (lz_bits_valid lc lp pb Hprops lm pm (mk_history l 0 0 false)); auto.
  - apply lz_bits_length. unfold UINT32_MAX. lia.
Qed.

Lemma encode_finish_spec e (l : bytes) : encoder_ready lc lp pb e (zlen l) -> zlen l < 4294967296 ->
  exists e' out, (forall room, (length out <= room)%nat -> encode_finish e room = (LZMA_STREAM_END, e', out)) /\
    forall W, encodes (W ++ out) (final_bits (use_eopm e) l (estate e) (reps e)) (estore e) (erc e) W.
Proof using Hprops.
  intros [Hi [Hq Hp] Hc HP Hst (Hpm & _ & _) [Hsz _]] Hl. destruct (final_valid (use_eopm e) l (estate e) (reps e) Hst) as [Hv Hlen].
  set (T := final_bits (use_eopm e) l (estate e) (reps e)) in *.
  assert (exists e0, (if use_eopm e then encode_eopm e (u32 (uncomp_size e)) else e) = queue e0 T /\ erc e0 = erc e /\ estore e0 = estore e) as (e0 & He0 & Er & Es).
  { unfold T, final_bits. rewrite Hsz. destruct (use_eopm e).
    - rewrite (eopm_queue e l Hpm Hl). eexists. split; [reflexivity|]. split; reflexivity.
    - exists e. rewrite queue_nil. auto. }
  destruct (encode_enough T (Z.to_nat (cache_size (erc e) + zlen T + 6)) (estore e) (erc e) Hi (probs_symbol_ok lc lp pb _ _ HP Hv)) as (out & Hout).
  { unfold fits. lia. }
  { destruct Hi as [[] _]. lia. }
  exists (set_encoded e0 (stores (estore e) T) rc_reset), out. split.
  - intros room Hroom. unfold encode_finish. rewrite He0. unfold run_rc, rc_encode, rc_flush, queue.
    cbn [erc estore set_erc rc_queue symbols pos]. rewrite Er, Es, Hq, Hp. cbn [app drop].
    pose proof (loop_done _ _ _ _ _ _ _ Hout room Hroom) as Hd. apply (loop_with_queue _ (T ++ flush_symbols) 0%nat) in Hd.
    unfold rc_queue, with_queue in *. cbn [low cache_size range cache out_total symbols pos]. rewrite Hq, Hp. cbn [app]. change (drop 0 ?x) with x. rewrite Hd. reflexivity.
  - intros W. eexists _, _, _, _. split; [exact Hout|reflexivity].
Qed.

(** *** The beginning *)

(** The match finder with all data in the window. *)
Record mf_loaded (mf : lzma_mf) (data : bytes) : Prop := {
  ld_ok : mf_ok mf;
  ld_pos : read_pos mf = 0 /\ read_ahead mf = 0;
  ld_data : mf_data mf = data;
}.

(** After [encode_init]. *)
Definition mf_started (mf : lzma_mf) : lzma_mf := if read_pos mf =? read_limit mf then mf else set_read_ahead (mf_skip mf 1) 0.

Lemma mf_started_spec mf data : mf_loaded mf data -> zlen data < 4294967296 -> mf_ok (mf_started mf) /\ mf_data (mf_started mf) = data /\ write_pos (mf_started mf) = zlen data /\
  position (mf_started mf) = (if zlen data =? 0 then 0 else 1) /\ buffer (mf_started mf) = buffer mf.
Proof using Type.
  clear Hprops. intros [Hok [Hr Ha] Hd] Hlen. pose proof (data_length mf Hok) as Hw. rewrite Hd in Hw. pose proof Hok as [Ho Hl Hf Hb]. unfold mf_started. rewrite Hr, Hl, <- Hw.
  destruct (Z.eqb_spec 0 (zlen data)) as [E|E].
  - rewrite <- E. split_and!; auto; [congruence|]. unfold position. cbn. lia.
  - rewrite (proj2 (Z.eqb_neq (zlen data) 0)) by lia. change (mf_skip mf 1) with (set_read_ahead (skip_byte mf) (u32 (read_ahead (skip_byte mf) + 1))).
    destruct (skip_byte_advanced mf) as [[H1 H2] H3]. set (m := skip_byte mf) in *. rewrite Hr in H3. change (u32 (0 + 1)) with 1 in H3.
    assert (buffer m = buffer mf /\ write_pos m = write_pos mf /\ read_limit m = read_limit mf /\ mf_action m = mf_action mf) as (E1 & E2 & E3 & E4) by (split_and!; congruence).
    split_and!; [constructor|unfold mf_data|..]; cbn; rewrite ?E1, ?E2, ?E3, ?E4; auto; try congruence; [lia|]. unfold position. cbn. lia.
Qed.

Lemma first_bits b : lz_bits lc lm pm [] 0 [0; 0; 0; 0] (LZ_LITERAL b) =
  RC_BIT (is_match 0, 0) false :: bittree_symbols (index (literal_probs, 0)) 8 b 1.
Proof using Type.
  clear Hprops. cbn [lz_bits]. unfold literal_symbols, literal_subcoder. change (is_literal_state 0) with true. change (zlen []) with 0. rewrite Z.land_0_l.
  change (u32 (Z.shiftl 0 8 + byte_back [] 0)) with 0. rewrite Z.land_0_l, Z.shiftl_0_l. reflexivity.
Qed.

Lemma start_spec e mf data : encoder_ready lc lp pb e 0 -> erc e = rc_reset -> estate e = 0 -> reps e = [0; 0; 0; 0] -> mf_loaded mf data -> bytes_ok data -> zlen data < 4294967296 ->
  exists e0 e1 T out, encode_init e mf = Some (e0, mf_started mf) /\
    (forall room, (length out <= room)%nat -> run_rc room e0 = (false, e1, out)) /\
    encoder_ready lc lp pb e1 (position (mf_started mf)) /\ lit_inv e1 (position (mf_started mf)) /\ use_eopm e1 = use_eopm e /\ is_flushed e1 = is_flushed e /\
    estate e1 = 0 /\ reps e1 = [0; 0; 0; 0] /\
    Forall (bit_valid lc lp pb) T /\ zlen T <= 64 * position (mf_started mf) /\
    (forall F T' W, encodes F T' (estore e1) (erc e1) (W ++ out) -> encodes F (T ++ T') (estore e) (erc e) W) /\
    decodes_bits T 0 [0; 0; 0; 0] 0 [0; 0; 0; 0] [] (take (Z.to_nat (position (mf_started mf))) data).
Proof using Hprops.
  intros Hrdy Hrc Hst Hrs Hld Hby Hl. pose proof Hrdy as [Hi _ Hc HP Hs Hpar [Hsz Hol]]. destruct (mf_started_spec mf data Hld Hl) as (_ & _ & _ & Hpos & Hbuf).
  set (T := match data with [] => [] | b :: _ => lz_bits lc lm pm [] 0 [0; 0; 0; 0] (LZ_LITERAL b) end).
  assert (Forall (bit_valid lc lp pb) T /\ zlen T <= 64 * position (mf_started mf)) as (Hv & Hlen).
  { rewrite Hpos. unfold T. destruct data as [|b data]; [split; [apply List.Forall_nil|vm_compute; discriminate]|].
    apply Forall_cons in Hby as [Hb _]. rewrite (proj2 (Z.eqb_neq (zlen (b :: data)) 0)) by (cbn [length]; lia). split.
    - apply (lz_bits_valid lc lp pb Hprops lm pm (mk_history [] 0 0 false)); auto. unfold STATES. lia.
    - now apply lz_bits_length. }
  assert (position (mf_started mf) <= 1 /\ 0 <= position (mf_started mf)) as [Hp1 Hp0] by (rewrite Hpos; destruct (zlen data =? 0); lia).
  assert (zlen T <= 64) as Hl64 by lia.
  destruct (run_queue lc lp pb e 0 T Hrdy Hv Hl64 ltac:(lia)) as (P' & r' & out & Hrun & Hi' & Hq' & Hp' & Hc' & HP' & Henc).
  set (ex := set_initialized (set_uncomp_size e (position (mf_started mf)))).
  exists (queue ex T), (set_encoded ex P' r'), T, out. split_and!; auto.
  - destruct Hld as [Hok [Hr Ha] Hd]. pose proof Hok as [Ho Hlim Hfin _]. pose proof (data_length mf Hok) as Hw. rewrite Hd in Hw.
    unfold encode_init, ex. unfold mf_started in *. rewrite Hfin, Hr, Hlim, <- Hw in *. rewrite (bool_decide_false (LZMA_FINISH = LZMA_RUN)) by discriminate.
    unfold T. destruct data as [|b data].
    + rewrite queue_nil. change (zlen [] =? 0) with true in *. change (0 =? zlen []) with true in *. cbv iota in *. rewrite Hpos.
      assert (set_uncomp_size e 0 = e) as -> by (rewrite <- Hsz; now destruct e). reflexivity.
    + rewrite (proj2 (Z.eqb_neq 0 _)) in * by (cbn [length]; lia). rewrite (proj2 (Z.eqb_neq (zlen (b :: data)) 0)) in Hpos by (cbn [length]; lia). rewrite Hpos.
      rewrite queue_bit_queue, queue_tree_queue, queue_app, first_bits. change (uncomp_size (queue e ?x)) with (uncomp_size e). rewrite Hsz, Hbuf.
      assert (byte_at (buffer mf) 0 = b) as ->; [|reflexivity]. rewrite <- (data_byte mf 0); [now rewrite Hd|]. cbn [length] in Hw. lia.
  - constructor; cbn; auto. rewrite Hrc in Hc'. cbn in Hc'. lia.
  - intros Hns. cbn in Hns. rewrite Hst in Hns. discriminate.
  - rewrite Hpos. unfold T. destruct data as [|b data]; [apply decodes_nil|].
    rewrite (proj2 (Z.eqb_neq (zlen (b :: data)) 0)) by (cbn [length]; lia). change (take (Z.to_nat 1) (b :: data)) with [b].
    change [b] with (lz_bytes [] [0; 0; 0; 0] (LZ_LITERAL b)). apply decodes_symbol. apply Forall_cons in Hby as [Hb _]. exact Hb.
Qed.

(** ** The whole stream *)

Lemma symbols_ok_related P Q T : related lc lp pb P Q -> probs_ok lc lp pb P -> Forall (bit_valid lc lp pb) T -> Forall (symbol_ok Q) (map decoder_bit T).
Proof using Type.
  clear Hprops. intros HR HP HT. induction HT as [|s T Hs HT IH]; [apply List.Forall_nil|]. cbn [map]. apply List.Forall_cons; [|exact IH].
  destruct s as [p b|b|]; cbn in *; auto. rewrite <- (HR p Hs). now apply HP.
Qed.

(** The decoding half: any bits that lead a decoder from the beginning to the end
    of [data]. *)
Lemma decode_stream data T st rs eopm c0 P F tail h allow : Forall (bit_valid lc lp pb) T -> zlen T + 71 < 18446744073709551616 -> 0 <= st < STATES ->
  decodes_bits T 0 [0; 0; 0; 0] st rs [] data -> encodes F (T ++ final_bits eopm data st rs) (reset_probs lc lp pb P) rc_reset [] ->
  hist h = [] -> zlen data <= avail h -> zlen data < 4294967296 -> dict_size <= capacity h ->
  exists c' h', lzma_decode true (lzma_decoder_uncompressed (lzma_decoder_reset c0 lc lp pb) (if eopm then LZMA_VLI_UNKNOWN else zlen data) allow) h (F ++ tail) =
    Some (LZMA_STREAM_END, c', h', tail) /\ hist h' = data.
Proof using Hprops.
  intros HT Hlen Hst Hdec Henc Hh Hav Hdata Hcap. set (size := if eopm then LZMA_VLI_UNKNOWN else zlen data).
  destruct (final_valid eopm data st rs Hst) as [HF HlF]. set (TF := final_bits eopm data st rs) in *.
  assert (Forall (bit_valid lc lp pb) (T ++ TF)) as Hall by now apply Forall_app_2.
  set (c := lzma_decoder_uncompressed _ size allow).
  assert (lzma_inv lc lp pb c h) as Hinv.
  { apply decoder_reset_ok; try lia. unfold size. destruct eopm; [vm_compute; discriminate|lia]. }
  pose proof Hinv as [[(HQ & _) _ _ _ _] _].
  pose proof (reset_related lc lp pb P (store_ c0)) as HR.
  assert (probs_ok lc lp pb (reset_probs lc lp pb P)) as HP.
  { intros p Hp. unfold prob_at. rewrite (reset_probs_initial lc lp pb _ p Hp). unfold prob_ok. cbn. lia. }
  pose proof (encodes_rename lc lp pb F _ _ _ _ _ Hall HR Henc) as Henc'.
  destruct (synced_start F tail (map decoder_bit (T ++ TF)) (store_ c)) as (d & input & Einit & Hsync).
  { exact (symbols_ok_related _ _ _ HR HP Hall). }
  { unfold fits. rewrite length_map, length_app. cbn [cache_size rc_reset]. lia. }
  { exact Henc'. }
  unfold lzma_decode. change (rc c) with rc_reset_decoder. rewrite Einit. cbv zeta. rewrite bool_decide_true by reflexivity. cbn [negb].
  cbn [uncompressed_size set_rc store_]. change (uncompressed_size c) with size. cbn [window_avail history_window].
  set (known := negb (size =? LZMA_VLI_UNKNOWN)).
  assert (known = negb eopm) as Hk.
  { unfold known, size. destruct eopm; [reflexivity|]. apply negb_true_iff, Z.eqb_neq. unfold LZMA_VLI_UNKNOWN, UINT64_MAX. lia. }
  set (fin := known && (size <=? avail h)).
  assert (fin = negb eopm) as Hfin.
  { unfold fin. rewrite Hk. unfold size. destruct eopm; [reflexivity|]. apply Z.leb_le. exact Hav. }
  set (h0 := if fin then _ else h).
  assert (hist h0 = [] /\ capacity h0 = capacity h /\ zlen data <= avail h0 /\ (eopm = false -> avail h0 = zlen data)) as (Eh & Ec & Ha & Hex).
  { unfold h0. rewrite Hfin. unfold size. destruct eopm; cbn; split_and!; auto; lia. }
  pose proof (decoder_ok_fields lc lp pb c (set_rc c (store_ c) d) h h0) as Hfields.
  assert (decoder_ok lc lp pb (set_rc c (store_ c) d) h0) as Hok.
  { apply Hfields; auto; [apply Hinv|congruence|]. cbn. unfold rc_read_init in Einit. destruct (read_init_ok _ _ _ _ _ _ Einit) as [Hdr _].
    unfold range_ok. rewrite Hdr. cbn. unfold UINT32_MAX. lia. }
  destruct (loop_ok lc lp pb Hprops (decode_fuel (avail h0)) false fin (negb known) (set_rc c (store_ c) d) h0 input Hok ltac:(lia)) as
    (ret & c1 & h1 & rest & E & _); [apply (fuel_enough lc lp pb); [assumption|lia]|].
  assert (ret = LZMA_STREAM_END /\ hist h1 = data /\ rest = tail) as (-> & Eh1 & ->).
  { apply (loop_runs fin (negb known) (fun ret _ h' rest => ret = LZMA_STREAM_END /\ hist h' = data /\ rest = tail)) in E; [exact E|].
    rewrite map_app in Hsync. eapply (Hdec fin (negb known) _ F tail); [exact Eh|exact Ha|lia|split_and!; reflexivity|exact Hsync|].
    intros c2 rest2 Hat2 Hs2. unfold TF, final_bits in Hs2. rewrite Hk, Hfin. assert (hist (push h0 data) = data) as Hd by (cbn; now rewrite Eh).
    destruct eopm; cbn [negb].
    - eapply (eopm_runs false true); [exact Hat2|reflexivity|reflexivity|rewrite Hd; exact Hs2|auto].
    - eapply (end_runs true false); [exact Hat2|reflexivity|cbn; specialize (Hex eq_refl); lia|exact Hs2|auto]. }
  rewrite E. cbn [mbind option_bind]. rewrite (bool_decide_false (LZMA_STREAM_END = LZMA_OK)), andb_false_r, bool_decide_true by (discriminate || reflexivity).
  cbn [andb]. eexists _, _. split; [reflexivity|]. exact Eh1.
Qed.

End Loop.

(** With any optimizer that keeps the laws. *)
Lemma encode_decodes {S : Type} `{Optimum S} (dict_size : Z) `{!OptimumLaws S dict_size} o id e0 e s mf data :
  lzma_lzma_encoder_create e0 id o = Ok e -> preset_dict o = None -> 0 <= lc o -> 0 <= lp o -> 0 <= pb o ->
  mf_loaded mf data -> bytes_ok data -> zlen data < 4294967296 -> opt_inv [0; 0; 0; 0] 0 s (mf_started mf) ->
  exists e' s' mf' out,
    (forall room out_pos, (length out <= room)%nat -> lzma_lzma_encode e s mf out_pos room UINT32_MAX = Some (LZMA_STREAM_END, e', s', mf', out)) /\
    forall c0 allow h tail, hist h = [] -> zlen data <= avail h -> dict_size <= capacity h ->
      exists c' h', lzma_decode true
        (lzma_decoder_uncompressed (lzma_decoder_reset c0 (lc o) (lp o) (pb o)) (if use_eopm e then LZMA_VLI_UNKNOWN else zlen data) allow) h (out ++ tail) =
          Some (LZMA_STREAM_END, c', h', tail) /\ hist h' = data.
Proof.
  unfold lzma_lzma_encoder_create. destruct (negb _); [discriminate|]. destruct (_ && _); [discriminate|]. unfold lzma_lzma_encoder_reset.
  destruct (negb _) eqn:Ev; [discriminate|]. intros [= <-] Hpd H1 H2 H3 Hld Hby Hlen Hopt.
  assert (is_lclppb (lc o, lp o, pb o)) as Hp.
  { apply negb_false_iff in Ev. unfold is_options_valid in Ev. b2p. now apply lclppb_valid. }
  set (e1 := mk_encoder1 rc_reset _ _ _ _ _ _ _ _ _ _ _). assert (is_initialized e1 = false) as Hini by (cbn; unfold has_preset; now rewrite Hpd).
  assert (encoder_ready (lc o) (lp o) (pb o) e1 0) as Hrdy.
  { constructor; cbn; auto; try (unfold STATES, STATE_LIT_LIT; lia); [apply encoder_inv_reset|].
    intros p Hv. unfold prob_at. rewrite (reset_probs_initial _ _ _ _ p Hv). unfold prob_ok. cbn. lia. }
  destruct (start_spec (lc o) (lp o) (pb o) Hp dict_size e1 mf data Hrdy eq_refl eq_refl eq_refl Hld Hby Hlen) as
    (ei & e2 & T1 & out1 & Ei & Hrun1 & Hrdy2 & Hlit2 & Hu2 & Hf2 & Hst2 & Hrs2 & Hv1 & Hl1 & Henc1 & Hdec1).
  destruct (mf_started_spec mf data Hld Hlen) as (Hmf & Hdata & Hwp & Epos & _).
  pose proof (mf_order _ Hmf) as Ho. set (m := mf_started mf) in *.
  assert (0 < position m \/ position m = write_pos m) as Hpos by (rewrite Epos, Hwp; destruct (Z.eqb_spec (zlen data) 0); lia).
  destruct (encode_loop_spec (lc o) (lp o) (pb o) Hp dict_size (encode_fuel m) e2 s m Hrdy2 Hlit2 Hmf) as
    (T2 & e3 & s' & mf' & out2 & Hloop & Hrdy3 & Hu3 & Hv2 & Hl2 & Henc2 & Hdec2); [now rewrite Hst2, Hrs2|exact Hpos|rewrite Hwp; exact Hlen|..].
  { unfold encode_fuel, mf_unencoded. rewrite u32_small by (unfold is_u32; lia). unfold position. lia. }
  rewrite Hwp, Hdata in *. destruct (encode_finish_spec (lc o) (lp o) (pb o) Hp e3 data Hrdy3 Hlen) as (e4 & out3 & Hfin & Henc3).
  assert (use_eopm e3 = use_eopm e1) as Hu by (rewrite Hu3, Hu2; reflexivity).
  exists e4, s', mf', ((out1 ++ out2) ++ out3). split.
  - intros room out_pos Hroom. rewrite !length_app in Hroom. unfold lzma_lzma_encode. rewrite Hini. rewrite Ei, Hrun1 by lia.
    rewrite Hf2. change (is_flushed e1) with false. cbv iota. rewrite Hloop by lia. rewrite Hfin by (rewrite length_app; lia). reflexivity.
  - intros c0 allow h tail Hh Hav Hcap.
    refine (decode_stream (lc o) (lp o) (pb o) Hp dict_size data (T1 ++ T2) (estate e3) (reps e3) (use_eopm e1) c0 (estore e0) _ tail h allow _ _ (rdy_state _ _ _ _ _ Hrdy3) _ _ Hh Hav Hlen Hcap).
    + now apply Forall_app_2.
    + rewrite length_app. unfold position in *. lia.
    + rewrite Hst2, Hrs2 in Hdec2. pose proof (decodes_app (lc o) (lp o) (pb o) dict_size T1 T2 _ _ _ _ _ _ _ _ _ Hdec1 Hdec2) as Hd.
      cbn [app] in Hd. rewrite take_slice in Hd by (unfold position; lia). rewrite Nat2Z.id, firstn_all in Hd. exact Hd.
    + rewrite <- (app_assoc T1). change (reset_probs (lc o) (lp o) (pb o) (estore e0)) with (estore e1). change rc_reset with (erc e1).
      apply Henc1, Henc2. rewrite <- Hu. apply (Henc3 (([] ++ out1) ++ out2)).
Qed.

(** ** From an empty window *)

Lemma overwrite_take (b l : bytes) i : (i <= length b)%nat -> take i (overwrite b (Z.of_nat i) l) = take i b.
Proof.
  intros Hi. unfold overwrite. rewrite Nat2Z.id, take_app_le by (rewrite length_take; lia). rewrite take_take. f_equal. lia.
Qed.

(** All input fits: [fill_window] of a fresh match finder. *)
Lemma fill_fresh o b sons before after size data : options_ok o -> lz_encoder_sizes o = Some (before, after, size) -> bytes_ok b -> zlen b = size + LZMA_MEMCMPLEN_EXTRA ->
  bytes_ok data -> zlen data <= size ->
  let mf := (fill_window (fresh o b sons before after size) data LZMA_FINISH).1 in
  mf_loaded mf data /\ hc_state mf /\ cyclic_size mf = lz_dict_size o + 1 /\ match_len_max mf = lz_match_len_max o /\ write_pos mf = zlen data.
Proof.
  intros Ho Hs Hb Hl Hd Hsz. destruct (sizes_spec o before after size Ho Hs) as (Eb & Ea & Hr & Hdict & _). pose proof (lzo_after o Ho) as Has. pose proof (lzo_before o Ho) as Hbs.
  pose proof (fresh_hc o b sons before after size Ho Hs Hb Hl) as Hf. set (mf0 := fresh o b sons before after size) in *.
  assert (hc_state (fill_window mf0 data LZMA_FINISH).1) as Hst.
  { apply fill_window_hc; [exact Hf|reflexivity|reflexivity|exact Hd|]. change (read_ahead mf0) with 0. change (keep_size_before mf0) with before. unfold LZMA_DICT_SIZE_MIN in *. lia. }
  unfold LZMA_MEMCMPLEN_EXTRA in *.
  assert ((fill_window mf0 data LZMA_FINISH).1 =
    set_input mf0 (overwrite (overwrite b 0 (slice 0 (zlen data) data)) (zlen data) (replicate 8 0)) (zlen data) (zlen data) LZMA_FINISH) as E.
  { rewrite fill_window_filled. unfold filled. cbv zeta. change (read_pos mf0 >=? u32 (mf_size mf0 - keep_size_after mf0)) with (0 >=? u32 (size - after)).
    rewrite (u32_small (size - after)) by (unfold is_u32; lia). destruct (Z.geb_spec 0 (size - after)); [lia|].
    change (write_pos mf0) with 0. replace (Z.min (zlen data) (mf_size mf0 - 0)) with (zlen data) by (change (mf_size mf0) with size; lia). change (0 + zlen data) with (zlen data).
    rewrite (bool_decide_false (LZMA_FINISH = LZMA_RUN)) by discriminate. assert (from (zlen data) data = []) as -> by (unfold from; apply drop_ge; lia). reflexivity. }
  cbv zeta. assert (slice 0 (zlen data) data = data) as Esl by (unfold slice, from; rewrite Nat2Z.id; apply firstn_all).
  split_and!; [|exact Hst|rewrite E; cbn; apply u32_small; unfold is_u32; lia|now rewrite E|now rewrite E].
  assert (mf_data (fill_window mf0 data LZMA_FINISH).1 = data) as Edata.
  { assert (zlen (overwrite b 0 data) = zlen b) as O1 by (apply overwrite_spec; lia).
    rewrite E. unfold mf_data. cbn [write_pos buffer set_input]. rewrite Esl, Nat2Z.id, overwrite_take by lia.
    unfold overwrite. change (take (Z.to_nat 0) b) with (@nil Z). rewrite app_nil_l, take_app_le by lia. apply firstn_all. }
  constructor; [|rewrite E; split; reflexivity|exact Edata]. pose proof (st_inv _ Hst) as [Hsh _]. destruct Hsh as [Hw Hby _ _ _ _].
  constructor; [rewrite E in *; cbn in *; lia|rewrite E; reflexivity|rewrite E; reflexivity|exact Hby].
Qed.

(** The search may begin. *)
Lemma fast_start dict_size st s mf data : mf_loaded mf data -> hc_state mf -> zlen data < 4294967296 -> cyclic_size mf = dict_size + 1 -> 1 <= dict_size ->
  match_len_max mf = MATCH_LEN_MAX -> fast_inv dict_size [0; 0; 0; 0] st s (mf_started mf).
Proof.
  intros Hld Hst Hlen Hc Hd Hm. pose proof Hld as [Hok [Hr Ha] Hdata]. pose proof (mf_limit mf Hok) as Hlim. pose proof (mf_order mf Hok) as Ho.
  destruct (mf_started_spec mf data Hld Hlen) as (_ & _ & _ & Hpos & _).
  assert (hc_ready mf) as Hrdy by (apply state_ready; [exact Hst|right; left; rewrite (mf_finish mf Hok); discriminate]).
  assert (reps_ok dict_size [0; 0; 0; 0] (position (mf_started mf))) as Hreps.
  { split; [reflexivity|]. intros i Hi. destruct (one_of_four 0 0 0 0 i Hi) as [-> |[-> |[-> | ->]]]; lia. }
  unfold mf_started in *. destruct (Z.eqb_spec (read_pos mf) (read_limit mf)) as [E|E].
  - constructor; auto.
  - destruct (mf_skip_hc mf 1 Hrdy ltac:(lia) ltac:(lia) ltac:(lia)) as (Hr' & [H1 H2] & _). cbn in H1, H2.
    constructor; [now apply set_read_ahead_ready|cbn; split_and!; congruence|exact Hreps|now left].
Qed.


Definition example_lzma_options : lzma_options_lzma :=
  {| dict_size := 4096; preset_dict := None; preset_dict_size := 0; lc := 3; lp := 0; pb := 2; mode := LZMA_MODE_FAST; nice_len := 273;
     FilterProps.mf := FilterProps.LZMA_MF_HC4; depth := 0; ext_flags := 0; ext_size_low := 0; ext_size_high := 0 |}.

Definition example_encoder : lzma_lzma1_encoder :=
  match lzma_lzma_encoder_create (mk_encoder1 rc_reset 0 0 0 [0; 0; 0; 0] false false false 0 0 0 ∅) LZMA_FILTER_LZMA1 example_lzma_options with
  | Ok e => e
  | Err _ => mk_encoder1 rc_reset 0 0 0 [0; 0; 0; 0] false false false 0 0 0 ∅
  end.
Definition example_lz_options : lzma_lz_options := mk_lz_options 4096 4096 4097 273 273 LZMA_MF_HC4 0 [].
Definition example_window : lzma_mf := fresh example_lz_options (overwrite (example_mem (543131 + LZMA_MEMCMPLEN_EXTRA)) 543131 (replicate 8 0)) ∅ 8192 4370 543131.
Definition example_data : bytes := [1; 2; 3; 4; 1; 2; 3; 4; 9].

Definition example_decoder : lzma_lzma1_decoder := mk_lzma1 ∅ rc_reset_decoder 0 0 0 0 0 0 0 0 0 false SEQ_IS_MATCH (literal_probs, 0) 0 0 0 0.

(** liblzma writes the same 17 bytes. *)
Example example_output :
  option_map (fun r => (r.1.1.1.1, r.2)) (lzma_lzma_encode example_encoder (mk_fast [] 0 0) (fill_window example_window example_data LZMA_FINISH).1 0 100%nat UINT32_MAX) =
    Some (LZMA_STREAM_END, [0; 0; 128; 157; 97; 230; 58; 119; 54; 48; 235; 255; 255; 183; 112; 0; 0]).
Proof. vm_compute. reflexivity. Qed.

