(* ===== verification/Lzma2Decoder.v ===== *)
(** * The LZMA2 decoder

    [lib/archive/xz/src/liblzma/lzma/lzma2_decoder.c].  LZMA2 data are chunks: a
    control byte, the sizes, then LZMA data or plain bytes.  [lzma2_decode] runs the
    LZMA decoder of [lzma_decoder.c] on the chunks that need it and resets its
    state, its properties or the dictionary as the control bytes ask for.  The
    decoder is an [LzCoder], and it obeys the laws of [lz_decoder.c]. *)

From Stdlib Require Import ZArith Lia.
From stdpp Require Import gmap list.
From S2P Require Import Prelude Vli FilterProps RangeCoder LzDict LzDecoder LzmaCommon LzmaDecoder LzmaSafety.

Inductive lzma2_sequence :=
  | SEQ_CONTROL | SEQ_UNCOMPRESSED_1 | SEQ_UNCOMPRESSED_2 | SEQ_COMPRESSED_0 | SEQ_COMPRESSED_1
  | SEQ_PROPERTIES | SEQ_LZMA | SEQ_COPY.

#[export] Instance lzma2_sequence_eq_dec : EqDecision lzma2_sequence.
Proof. solve_decision. Defined.

Record lzma_lzma2_coder := mk_lzma2 {
  sequence2 : lzma2_sequence;
  next_sequence : lzma2_sequence;
  lzma : lzma_lzma1_decoder;
  uncompressed_size2 : Z;
  compressed_size : Z;
  need_properties : bool;
  need_dictionary_reset : bool;
  options2 : lzma_options_lzma;
}.

Definition goto2 (c : lzma_lzma2_coder) (s : lzma2_sequence) : lzma_lzma2_coder :=
  mk_lzma2 s (next_sequence c) (lzma c) (uncompressed_size2 c) (compressed_size c) (need_properties c) (need_dictionary_reset c) (options2 c).
Definition set_next_sequence (c : lzma_lzma2_coder) (s : lzma2_sequence) : lzma_lzma2_coder :=
  mk_lzma2 (sequence2 c) s (lzma c) (uncompressed_size2 c) (compressed_size c) (need_properties c) (need_dictionary_reset c) (options2 c).
Definition set_lzma (c : lzma_lzma2_coder) (l : lzma_lzma1_decoder) : lzma_lzma2_coder :=
  mk_lzma2 (sequence2 c) (next_sequence c) l (uncompressed_size2 c) (compressed_size c) (need_properties c) (need_dictionary_reset c) (options2 c).
Definition set_uncompressed_size2 (c : lzma_lzma2_coder) (n : Z) : lzma_lzma2_coder :=
  mk_lzma2 (sequence2 c) (next_sequence c) (lzma c) n (compressed_size c) (need_properties c) (need_dictionary_reset c) (options2 c).
Definition set_compressed_size (c : lzma_lzma2_coder) (n : Z) : lzma_lzma2_coder :=
  mk_lzma2 (sequence2 c) (next_sequence c) (lzma c) (uncompressed_size2 c) n (need_properties c) (need_dictionary_reset c) (options2 c).
Definition set_needs (c : lzma_lzma2_coder) (properties dictionary : bool) : lzma_lzma2_coder :=
  mk_lzma2 (sequence2 c) (next_sequence c) (lzma c) (uncompressed_size2 c) (compressed_size c) properties dictionary (options2 c).
Definition set_options2 (c : lzma_lzma2_coder) (o : lzma_options_lzma) : lzma_lzma2_coder :=
  mk_lzma2 (sequence2 c) (next_sequence c) (lzma c) (uncompressed_size2 c) (compressed_size c) (need_properties c) (need_dictionary_reset c) o.

(** [coder->lzma.reset(coder->lzma.coder, &coder->options)] *)
Definition reset_lzma (c : lzma_lzma2_coder) : lzma_lzma2_coder :=
  set_lzma c (lzma_decoder_reset (lzma c) (lc (options2 c)) (lp (options2 c)) (pb (options2 c))).

(** ** The steps: [Next2] is the [break] of the [switch], [Out2] a [return]. *)
Inductive step2_result (D : Type) :=
  | Next2 (c : lzma_lzma2_coder) (d : D) (input : bytes)
  | Out2 (ret : lzma_ret) (c : lzma_lzma2_coder) (d : D) (input : bytes).
Arguments Next2 {D} _ _ _.
Arguments Out2 {D} _ _ _ _.

Section Decoder.
Context {D : Type} `{Window D}.
Implicit Types (c : lzma_lzma2_coder) (d : D).

(** [case SEQ_CONTROL:] after [control] was read. *)
Definition step_control c d (control : Z) (input : bytes) : step2_result D :=
  if control =? 0 then Out2 LZMA_STREAM_END c d input
  else
    let resets := (control >=? 0xE0) || (control =? 1) in
    if negb resets && need_dictionary_reset c then Out2 LZMA_DATA_ERROR c d input
    else
      let c := if resets then set_needs c true true else c in
      let finish c :=
        if need_dictionary_reset c then Out2 LZMA_OK (set_needs c (need_properties c) false) (window_reset d) input
        else Next2 c d input in
      if control >=? 0x80 then
        let c := goto2 (set_uncompressed_size2 c (Z.shiftl (Z.land control 0x1F) 16)) SEQ_UNCOMPRESSED_1 in
        if control >=? 0xC0 then
          finish (set_next_sequence (set_needs c false (need_dictionary_reset c)) SEQ_PROPERTIES)
        else if need_properties c then Out2 LZMA_DATA_ERROR c d input
        else
          let c := set_next_sequence c SEQ_LZMA in
          finish (if control >=? 0xA0 then reset_lzma c else c)
      else if control >? 2 then Out2 LZMA_DATA_ERROR c d input
      else finish (set_next_sequence (goto2 c SEQ_COMPRESSED_0) SEQ_COPY).

(** [case SEQ_LZMA:] *)
Definition step_lzma c d (input : bytes) : option (step2_result D) :=
  '(ret, l, d, rest) ← lz_code (lzma c) d input;
  let c := set_lzma c l in
  let in_used := zlen input - zlen rest in
  Some (
    if in_used >? compressed_size c then Out2 LZMA_DATA_ERROR c d rest
    else
      let c := set_compressed_size c (compressed_size c - in_used) in
      if negb (bool_decide (ret = LZMA_STREAM_END)) then Out2 ret c d rest
      else if negb (compressed_size c =? 0) then Out2 LZMA_DATA_ERROR c d rest
      else Next2 (goto2 c SEQ_CONTROL) d rest).

(** [case SEQ_COPY:] *)
Definition step_copy2 c d (input : bytes) : step2_result D :=
  let '(d, rest, remaining) := window_write d input (compressed_size c) in
  let c := set_compressed_size c remaining in
  if negb (remaining =? 0) then Out2 LZMA_OK c d rest else Next2 (goto2 c SEQ_CONTROL) d rest.

(** The cases that read a byte [b]. *)
Definition step_byte c d (b : Z) (rest : bytes) : step2_result D :=
  match sequence2 c with
  | SEQ_CONTROL => step_control c d b rest
  | SEQ_UNCOMPRESSED_1 => Next2 (goto2 (set_uncompressed_size2 c (uncompressed_size2 c + Z.shiftl b 8)) SEQ_UNCOMPRESSED_2) d rest
  | SEQ_UNCOMPRESSED_2 =>
      let c := goto2 (set_uncompressed_size2 c (uncompressed_size2 c + (b + 1))) SEQ_COMPRESSED_0 in
      Next2 (set_lzma c (lzma_decoder_uncompressed (lzma c) (uncompressed_size2 c) false)) d rest
  | SEQ_COMPRESSED_0 => Next2 (goto2 (set_compressed_size c (Z.shiftl b 8)) SEQ_COMPRESSED_1) d rest
  | SEQ_COMPRESSED_1 => Next2 (goto2 (set_compressed_size c (compressed_size c + (b + 1))) (next_sequence c)) d rest
  | SEQ_PROPERTIES =>
      match lzma_lzma_lclppb_decode (options2 c) b with
      | None => Out2 LZMA_DATA_ERROR c d rest
      | Some o => Next2 (goto2 (reset_lzma (set_options2 c o)) SEQ_LZMA) d rest
      end
  | SEQ_LZMA | SEQ_COPY => Out2 LZMA_PROG_ERROR c d rest
  end.

(** The [switch], with the condition of the loop: without input only [SEQ_LZMA]
    can go on. *)
Definition lzma2_step c d (input : bytes) : option (step2_result D) :=
  match sequence2 c, input with
  | SEQ_LZMA, _ => step_lzma c d input
  | _, [] => Some (Out2 LZMA_OK c d input)
  | SEQ_COPY, _ => Some (step_copy2 c d input)
  | _, b :: rest => Some (step_byte c d b rest)
  end.

Fixpoint lzma2_loop (fuel : nat) c d (input : bytes) : option (lzma_ret * lzma_lzma2_coder * D * bytes) :=
  match fuel with
  | O => None
  | S fuel =>
      r ← lzma2_step c d input;
      match r with
      | Out2 ret c d rest => Some (ret, c, d, rest)
      | Next2 c d rest => lzma2_loop fuel c d rest
      end
  end.

(** Every step reads a byte or leaves [SEQ_LZMA]. *)
Definition lzma2_fuel (input : bytes) : nat := 2 * length input + 2.

Definition lzma2_decode c d (input : bytes) : option (lzma_ret * lzma_lzma2_coder * D * bytes) := lzma2_loop (lzma2_fuel input) c d input.

End Decoder.

(** [lzma2_decoder_init] on a coder that was allocated, with what
    [lzma_lzma_decoder_create] sets in the LZ options: the size of the dictionary
    and the preset one.  The LZMA decoder is left as it is. *)
Definition preset_bytes (o : lzma_options_lzma) : bytes :=
  match preset_dict o with Some b => slice 0 (preset_dict_size o) b | None => [] end.

Definition lzma2_decoder_init (c : lzma_lzma2_coder) (o : lzma_options_lzma) : res (lzma_lzma2_coder * Z * bytes) :=
  let no_preset := bool_decide (preset_dict o = None) || (preset_dict_size o =? 0) in
  Ok (set_needs (goto2 c SEQ_CONTROL) true no_preset, dict_size o, preset_bytes o).

(** [lz->code] *)
#[export] Instance lzma2_coder : LzCoder lzma_lzma2_coder := fun D W c d input => lzma2_decode c d input.

(** ** A chunk has no end marker *)

Section Chunk.
Context (lc lp pb : Z) (Hprops : 0 <= lc /\ 0 <= lp /\ lc + lp <= 4 /\ 0 <= pb <= 4).

(** [lzma_decode] when it returns [LZMA_STREAM_END]. *)
Definition stopped (c : lzma_lzma1_decoder) : lzma_lzma1_decoder := set_sequence (set_rc c (store_ c) rc_reset_decoder) SEQ_IS_MATCH.

Definition plain (c : lzma_lzma1_decoder) : Prop := allow_eopm c = false /\ sequence c <> SEQ_EOPM.

Definition unmarked (res : step_result history) : Prop :=
  match res with
  | Next e c' _ _ => e = false /\ plain c'
  | Out ret c' h' _ => plain c' /\ (ret = LZMA_STREAM_END -> decoder_ok lc lp pb (stopped c') h')
  end.

Lemma with_bit_unmarked c p seq h input k : plain c -> seq <> SEQ_EOPM ->
  (forall bit P r rest, unmarked (k bit (set_rc c P r) rest)) -> unmarked (with_bit c p seq h input k).
Proof using Type. intros [Ha Hs] Hseq Hk. unfold with_bit. destruct (rc_bit_safe _ _ _ _) as [[[[bit P] r] rest]|]; [apply Hk|]. split; [now split|discriminate]. Qed.

Lemma range_ok_reset : range_ok rc_reset_decoder.
Proof using Type. clear. unfold range_ok. cbn. unfold UINT32_MAX. lia. Qed.

Ltac plain_tac := cbn; unfold plain; cbn; split_and!; auto; discriminate.

Lemma decode_step_unmarked fin c h input : plain c -> decoder_ok lc lp pb c h -> unmarked (decode_step fin false c h input).
Proof using Type.
  intros Hpl Hok. pose proof Hpl as [Ha Hs].
  assert (forall e c' rest, plain c' -> e = false -> unmarked (check_distance e c' h rest)) as Hcheck.
  { intros e c' rest [Ha' Hs'] ->. unfold check_distance. case_if; [split; [now split|discriminate]|]. plain_tac. }
  assert (forall r rest, unmarked (step_is_match_bit false (set_rc c (store_ c) r) h rest)) as Hbit.
  { intros r rest. apply with_bit_unmarked; [now split|discriminate|]. intros. unfold step_literal_start. repeat case_if; plain_tac. }
  assert (sequence c = SEQ_NORMALIZE \/ sequence c = SEQ_IS_MATCH -> unmarked (step_is_match fin false c h input)) as Hmatch.
  { intros Hseq. unfold step_is_match. destruct (_ && _); [|replace c with (set_rc c (store_ c) (rc c)) by (now destruct c); apply Hbit].
    destruct (rc_normalize_safe _ _) as [[r rest]|]; [|plain_tac]. destruct (rc_is_finished r).
    - split; [split; assumption|]. intros _. destruct Hok as [(HP & _ & Hc) H1 H2 H3 Hplace].
      constructor; auto; [split; [exact HP|split; [exact range_ok_reset|exact Hc]]|].
      unfold place_ok in *. cbn. destruct Hseq as [E|E]; rewrite E in Hplace; exact Hplace.
    - cbn [allow_eopm set_rc]. rewrite Ha. cbn [negb]. split; [split; assumption|discriminate]. }
  unfold decode_step. destruct (sequence c) eqn:Hseq; auto; try contradiction;
    try (apply with_bit_unmarked; [exact Hpl|discriminate|intros; cbv zeta; repeat case_if;
      first [plain_tac|apply Hcheck; [split; cbn; [exact Ha|rewrite Hseq; discriminate]|reflexivity]|split; [exact Hpl|discriminate]]]).
  - unfold step_literal_write. case_if; plain_tac.
  - unfold step_direct. repeat case_match; plain_tac.
  - unfold step_shortrep. case_if; plain_tac.
  - unfold step_copy. cbn. case_if; plain_tac.
Qed.

Lemma loop_unmarked fuel : forall at_top fin c h input ret c' h' rest, decoder_ok lc lp pb c h -> plain c -> 0 <= avail h ->
  decode_loop true fuel at_top fin false c h input = Some (ret, c', h', rest) ->
  plain c' /\ (ret = LZMA_STREAM_END -> decoder_ok lc lp pb (stopped c') h').
Proof using Hprops.
  induction fuel as [|fuel IH]; intros at_top fin c h input ret c' h' rest Hok Hpl Ha; [discriminate|].
  cbn [decode_loop negb]. rewrite !andb_false_r. cbn [andb].
  pose proof (decode_step_ok lc lp pb Hprops fin false c h input Hok Ha) as Ho. pose proof (decode_step_unmarked fin c h input Hpl Hok) as Hu.
  destruct (decode_step fin false c h input) as [e c1 h1 rest1|ret1 c1 h1 rest1]; cbn in Ho, Hu.
  - destruct Hu as [-> Hpl1]. destruct Ho as (Hok1 & (new & _ & _ & Ha1 & _) & _). intros E. eapply IH; eauto.
  - now intros [= <- <- <- <-].
Qed.

(** The decoder of a chunk: its size is known. *)
Definition sized (c : lzma_lzma1_decoder) : Prop := allow_eopm c = false /\ 0 <= uncompressed_size c < LZMA_VLI_UNKNOWN.

Lemma unknown_u64 : LZMA_VLI_UNKNOWN = 2 ^ 64 - 1.
Proof using Type. clear. reflexivity. Qed.

Lemma chunk_decode c h input ret c' h' rest : decoder_ok lc lp pb c h -> sized c -> sequence c <> SEQ_EOPM -> 0 <= avail h ->
  lzma_decode true c h input = Some (ret, c', h', rest) ->
  sized c' /\ sequence c' <> SEQ_EOPM /\ (ret = LZMA_STREAM_END -> decoder_ok lc lp pb c' h').
Proof using Hprops.
  intros Hok [Hal Hu] Hseq Ha. unfold lzma_decode, rc_read_init. destruct (read_init_loop _ _ _) as [[ret0 r0] rest0] eqn:Ei.
  destruct (read_init_ok _ _ _ _ _ _ Ei) as [Hdr _]. pose proof Hok as [(_ & Hr & _) _ _ _ _].
  assert (range_ok r0) as Hr0 by (unfold range_ok in *; lia). cbv zeta.
  destruct (bool_decide_reflect (ret0 = LZMA_STREAM_END)) as [->|Hne]; cbn [negb].
  2: { intros [= <- <- <- <-]. split; [split; [exact Hal|exact Hu]|]. split; [exact Hseq|contradiction]. }
  cbn [uncompressed_size set_rc window_avail history_window]. rewrite (proj2 (Z.eqb_neq _ _)) by lia. cbn [negb andb].
  set (fin := uncompressed_size c <=? avail h). set (h0 := if fin then _ else h).
  assert (hist h0 = hist h /\ capacity h0 = capacity h /\ 0 <= avail h0 <= uncompressed_size c) as (Eh & Ec & Ha0).
  { unfold h0. destruct fin eqn:Ef; cbn; split_and!; auto; unfold fin in Ef; b2p; lia. }
  assert (decoder_ok lc lp pb (set_rc c (store_ c) r0) h0) as Hok1 by now apply (decoder_ok_fields lc lp pb c _ h).
  destruct (decode_loop _ _ _ _ _ _ h0 _) as [[[[ret1 c1] h1] rest1]|] eqn:E; [|discriminate]. cbn [mbind option_bind].
  destruct (loop_unmarked _ _ _ _ _ _ _ _ _ _ Hok1 (conj Hal Hseq) ltac:(lia) E) as [[Hal1 Hseq1] Hstop].
  destruct (loop_ok lc lp pb Hprops (decode_fuel (avail h0)) false fin false (set_rc c (store_ c) r0) h0 rest0 Hok1 ltac:(lia)) as
    (ret2 & c2 & h2 & rest2 & E2 & (new & Hn & Hav & Hav0 & Hcap) & _); [apply (fuel_enough lc lp pb); [exact Hok1|lia]|].
  pose proof (eq_trans (eq_sym E2) E) as E3. injection E3 as -> -> -> ->. pose proof (loop_keeps _ _ _ _ _ _ _ _ _ _ _ E) as [_ Hku]. cbn in Hku.
  cbn [window_pos window_shrink history_window uncompressed_size set_uncompressed_size]. rewrite Hn, Eh, Hku, length_app.
  assert (0 <= u64 (uncompressed_size c - (zlen (hist h) + zlen new - zlen (hist h))) < LZMA_VLI_UNKNOWN) as Hs.
  { rewrite unknown_u64 in *. unfold u64. rewrite Z.mod_small by lia. lia. }
  rewrite Nat2Z.inj_add. clearbody h0.
  destruct (bool_decide_reflect (ret1 = LZMA_STREAM_END)) as [->|Hne1].
  - rewrite (bool_decide_false (LZMA_STREAM_END = LZMA_OK)), andb_false_r by discriminate. cbn [andb]. rewrite bool_decide_true by reflexivity.
    intros [= <- <- <- <-]. split; [split; [exact Hal1|exact Hs]|]. split; [discriminate|]. intros _.
    apply (decoder_ok_fields lc lp pb (stopped c1) _ h1 _ (Hstop eq_refl)); first [reflexivity|exact range_ok_reset|cbn; now rewrite Hn, Eh].
  - intros [= <- <- <- <-]. rewrite bool_decide_false by (case_if; [discriminate|exact Hne1]).
    split; [split; [exact Hal1|exact Hs]|]. split; [exact Hseq1|]. intros Hret. exfalso. revert Hret. case_if; [discriminate|exact Hne1].
Qed.

Lemma decoder_ok_grows c h h' : decoder_ok lc lp pb c h -> grows h h' -> decoder_ok lc lp pb c h'.
Proof using Type.
  clear Hprops. intros [Hc H1 H2 H3 Hpl] Hg. pose proof (dist_ok_grows h h') as Hd. pose proof (valid_grows h h') as Hv.
  assert (forall r, inside h r -> inside h' r) as Hin by (intros r [? ?]; split; auto).
  constructor; eauto. unfold place_ok in *. destruct (sequence c); intuition eauto.
Qed.

End Chunk.

(** ** The invariant *)

Definition in_sizes (s : lzma2_sequence) : bool :=
  match s with SEQ_UNCOMPRESSED_1 | SEQ_UNCOMPRESSED_2 | SEQ_COMPRESSED_0 | SEQ_COMPRESSED_1 => true | _ => false end.

(** Where the decoder goes when it has read the sizes. *)
Definition heading (c : lzma_lzma2_coder) : lzma2_sequence := if in_sizes (sequence2 c) then next_sequence c else sequence2 c.

Definition props2 (c : lzma_lzma2_coder) : Z * Z * Z := (lc (options2 c), lp (options2 c), pb (options2 c)).

(** The LZMA decoder has been reset since the properties and the dictionary were. *)
Definition usable (c : lzma_lzma2_coder) (h : history) : Prop :=
  is_lclppb (props2 c) /\ decoder_ok (lc (options2 c)) (lp (options2 c)) (pb (options2 c)) (lzma c) h /\ sequence (lzma c) <> SEQ_EOPM.

Definition heading_ok (c : lzma_lzma2_coder) (h : history) : Prop :=
  match heading c with
  | SEQ_PROPERTIES => True
  | SEQ_LZMA => usable c h
  | SEQ_CONTROL | SEQ_COPY => need_properties c = true \/ usable c h
  | _ => False
  end.

(** The sizes fit their fields: 21 and 16 bits. *)
Definition sizes_ok (c : lzma_lzma2_coder) : Prop :=
  match sequence2 c with
  | SEQ_CONTROL => True
  | SEQ_UNCOMPRESSED_1 => 0 <= uncompressed_size2 c <= 0x1F0000 /\ heading c <> SEQ_COPY /\ heading c <> SEQ_CONTROL
  | SEQ_UNCOMPRESSED_2 => 0 <= uncompressed_size2 c <= 0x1FFF00 /\ heading c <> SEQ_COPY /\ heading c <> SEQ_CONTROL
  | SEQ_COMPRESSED_0 => (heading c = SEQ_COPY \/ sized (lzma c)) /\ heading c <> SEQ_CONTROL
  | SEQ_COMPRESSED_1 => (heading c = SEQ_COPY \/ sized (lzma c)) /\ 0 <= compressed_size c <= 0xFF00 /\ heading c <> SEQ_CONTROL
  | SEQ_PROPERTIES | SEQ_LZMA => sized (lzma c) /\ 0 <= compressed_size c <= 0x10000
  | SEQ_COPY => 1 <= compressed_size c <= 0x10000
  end.

Definition lzma2_inv (c : lzma_lzma2_coder) (h : history) : Prop := heading_ok c h /\ sizes_ok c.

Definition measure2 (c : lzma_lzma2_coder) (input : bytes) : nat := 2 * length input + (if bool_decide (sequence2 c = SEQ_LZMA) then 1 else 0).

Definition step2_ok (h : history) (m : nat) (input : bytes) (res : step2_result history) : Prop :=
  match res with
  | Next2 c' h' rest =>
      lzma2_inv c' h' /\ grows h h' /\ wants_reset h' = false /\ rest `suffix_of` input /\ (measure2 c' rest < m)%nat
  | Out2 ret c' h' rest =>
      (ret = LZMA_OK -> lzma2_inv c' (settled h')) /\ grows h h' /\ rest `suffix_of` input /\
      (wants_reset h' = true -> (length rest < length input)%nat) /\
      (ret = LZMA_OK -> rest = [] \/ avail h' = 0 \/ wants_reset h' = true)
  end.

Lemma decoder_ok_uncompressed lc lp pb c h n allow : decoder_ok lc lp pb c h -> decoder_ok lc lp pb (lzma_decoder_uncompressed c n allow) h.
Proof. intros Hok. pose proof Hok as [(_ & Hr & _) _ _ _ _]. now apply (decoder_ok_fields lc lp pb c _ h). Qed.

Lemma usable_reset c h : is_lclppb (props2 c) -> usable (reset_lzma c) h.
Proof.
  intros Hp. split; [exact Hp|]. split; [|discriminate]. cbn in Hp. destruct Hp as (H1 & H2 & H3 & H4).
  pose proof (decoder_reset_ok (lzma c) _ _ _ 0 false h H1 H2 H3 H4 ltac:(lia)) as [Hok _].
  apply (decoder_ok_uncompressed _ _ _ _ _ (uncompressed_size (lzma c)) (allow_eopm (lzma c)) Hok).
Qed.

Lemma usable_grows c c' h h' : options2 c' = options2 c -> lzma c' = lzma c -> grows h h' -> usable c h -> usable c' h'.
Proof. unfold usable, props2. intros -> -> Hg (Hp & Hok & Hs). split_and!; auto. eapply decoder_ok_grows; eauto. Qed.

Lemma settled_same h : wants_reset h = false -> settled h = h.
Proof. unfold settled. now intros ->. Qed.

Lemma measure2_other c input : sequence2 c <> SEQ_LZMA -> measure2 c input = (2 * length input)%nat.
Proof. intros Hne. unfold measure2. rewrite bool_decide_false by exact Hne. lia. Qed.

Lemma shiftl8 b : Z.shiftl b 8 = b * 256.
Proof. now rewrite Z.shiftl_mul_pow2 by lia. Qed.

Lemma step_control_ok c h control input : lzma2_inv c h -> sequence2 c = SEQ_CONTROL -> 0 <= avail h -> wants_reset h = false -> is_byte control ->
  step2_ok h (2 * length (control :: input)) (control :: input) (step_control c h control input).
Proof.
  unfold is_byte. intros [Hhead _] Hseq Ha Hw Hb. unfold heading_ok, heading in Hhead. rewrite Hseq in Hhead. cbn [in_sizes] in Hhead.
  assert (forall ret c', ret <> LZMA_OK -> step2_ok h (2 * length (control :: input)) (control :: input) (Out2 ret c' h input)) as Hstop.
  { intros ret c' Hret. split_and!; [contradiction|now apply grows_refl|now exists [control]|congruence|contradiction]. }
  assert (forall c', (need_dictionary_reset c' = false -> lzma2_inv c' h) -> sequence2 c' <> SEQ_LZMA ->
    (need_dictionary_reset c' = true -> lzma2_inv (set_needs c' (need_properties c') false) (mk_history [] 0 (capacity h) false)) ->
    step2_ok h (2 * length (control :: input)) (control :: input)
      (if need_dictionary_reset c' then Out2 LZMA_OK (set_needs c' (need_properties c') false) (window_reset h) input else Next2 c' h input)) as Hfinish.
  { intros c' H1 Hns H2. destruct (need_dictionary_reset c').
    - split_and!; [|exists []; rewrite app_nil_r; cbn; split_and!; auto; lia|now exists [control]|cbn; lia|cbn; auto]. intros _. now apply H2.
    - split_and!; [now apply H1|now apply grows_refl|exact Hw|now exists [control]|]. rewrite measure2_other by exact Hns. cbn. lia. }
  unfold step_control. destruct (Z.eqb_spec control 0); [now apply Hstop|].
  set (resets := (control >=? 0xE0) || (control =? 1)). destruct (negb resets && need_dictionary_reset c) eqn:Er; [now apply Hstop|].
  set (c1 := if resets then set_needs c true true else c). cbv beta zeta.
  assert (0 <= Z.shiftl (Z.land control 31) 16 <= 2031616) as Hsize.
  { rewrite Z.shiftl_mul_pow2 by lia. pose proof (land_le control 31). lia. }
  assert (need_dictionary_reset c1 = resets) as Hnd.
  { unfold c1. destruct resets; [reflexivity|]. now destruct (need_dictionary_reset c). }
  assert (resets = false -> c1 = c) as Hc1 by (unfold c1; now intros ->).
  destruct (Z.geb_spec control 0x80).
  - destruct (Z.geb_spec control 0xC0).
    + apply Hfinish; [|discriminate|]; (split; [exact I|split; [exact Hsize|split; discriminate]]).
    + assert (resets = false) as Hnr by (unfold resets; rewrite !Z.geb_leb; destruct (Z.leb_spec 224 control), (Z.eqb_spec control 1); try lia; reflexivity).
      cbn [need_properties goto2 set_uncompressed_size2]. rewrite (Hc1 Hnr). destruct (need_properties c) eqn:Enp; [now apply Hstop|].
      destruct Hhead as [?|Hus]; [discriminate|]. rewrite Hnr, (Hc1 Hnr) in Hnd.
      destruct (control >=? 160); (apply Hfinish; [|discriminate|cbn; congruence]); intros _; (split; [|split; [exact Hsize|split; discriminate]]).
      * change (usable (reset_lzma c) h). apply usable_reset, Hus.
      * apply (usable_grows c _ h h); [reflexivity|reflexivity|now apply grows_refl|exact Hus].
  - destruct (Z.gtb_spec control 2); [now apply Hstop|]. apply Hfinish; [|discriminate|].
    + cbn [need_dictionary_reset goto2 set_next_sequence]. rewrite Hnd. intros Hnr. rewrite (Hc1 Hnr). split; [|split; [now left|discriminate]].
      change (need_properties c = true \/ usable (set_next_sequence (goto2 c SEQ_COMPRESSED_0) SEQ_COPY) h). destruct Hhead as [?|Hus]; [now left|right].
      apply (usable_grows c _ h h); [reflexivity|reflexivity|now apply grows_refl|exact Hus].
    + cbn [need_dictionary_reset goto2 set_next_sequence]. rewrite Hnd. intros Hr. split; [|split; [now left|discriminate]].
      left. cbn. unfold c1. now rewrite Hr.
Qed.

Lemma lclppb_decode_valid m b o : is_byte b -> lzma_lzma_lclppb_decode m b = Some o -> is_lclppb (lc o, lp o, pb o).
Proof. intros Hb E. destruct (lclppb_decode_canonical m b o Hb E) as (H1 & H2 & H3 & Hv & _). now apply lclppb_valid. Qed.

(** The cases that read a byte and go on. *)
Lemma next2_ok h c' b rest : lzma2_inv c' h -> 0 <= avail h -> wants_reset h = false ->
  step2_ok h (2 * length (b :: rest)) (b :: rest) (Next2 c' h rest).
Proof.
  intros Hi Ha Hw. split_and!; [exact Hi|now apply grows_refl|exact Hw|now exists [b]|]. unfold measure2. cbn [length]. case_match; lia.
Qed.

Lemma step_byte_ok c h b rest : lzma2_inv c h -> sequence2 c <> SEQ_LZMA -> sequence2 c <> SEQ_COPY -> 0 <= avail h -> wants_reset h = false -> is_byte b ->
  step2_ok h (2 * length (b :: rest)) (b :: rest) (step_byte c h b rest).
Proof.
  intros Hi Hnl Hnc Ha Hw Hb. unfold step_byte. destruct (sequence2 c) eqn:Hseq; try contradiction; [now apply step_control_ok|..];
    destruct Hi as [Hhead Hsz]; unfold sizes_ok, heading_ok, heading in *; rewrite Hseq in *; cbn [in_sizes] in *; pose proof Hb as Hb'; unfold is_byte in Hb'.
  - apply next2_ok; [|assumption..]. split; [exact Hhead|]. unfold sizes_ok, heading. cbn. rewrite shiftl8. split; [lia|apply Hsz].
  - apply next2_ok; [|assumption..]. split.
    + unfold heading_ok, heading. cbn. destruct (next_sequence c); auto; try (exfalso; tauto).
      destruct Hhead as (Hp & Hok & Hs). split; [exact Hp|split; [|exact Hs]]. now apply decoder_ok_uncompressed.
    + unfold sizes_ok, heading. cbn. split; [right|apply Hsz]. split; [reflexivity|]. cbn. rewrite unknown_u64. lia.
  - apply next2_ok; [|assumption..]. split; [exact Hhead|]. unfold sizes_ok, heading. cbn. rewrite shiftl8. split; [apply Hsz|split; [lia|apply Hsz]].
  - apply next2_ok; [|assumption..]. split.
    + unfold heading_ok, heading. cbn. destruct (next_sequence c); auto; contradiction.
    + unfold sizes_ok, heading. cbn. destruct Hsz as (Hs & Hc & Hn). destruct (next_sequence c); try contradiction; try (destruct Hs as [?|Hs]; [discriminate|]; split; [exact Hs|lia]); lia.
  - destruct (lzma_lzma_lclppb_decode (options2 c) b) as [o|] eqn:E; [|split_and!; [discriminate|now apply grows_refl|now exists [b]|congruence|discriminate]].
    apply next2_ok; [|assumption..]. split; [|exact Hsz].
    change (usable (reset_lzma (set_options2 c o)) h). apply usable_reset. cbn [props2 options2 set_options2]. eapply lclppb_decode_valid; eauto.
Qed.

Lemma step_lzma_ok c h input : lzma2_inv c h -> sequence2 c = SEQ_LZMA -> 0 <= avail h -> wants_reset h = false ->
  exists r, step_lzma c h input = Some r /\ step2_ok h (2 * length input + 1) input r.
Proof.
  intros [Hhead Hsz] Hseq Ha Hw. unfold heading_ok, heading, sizes_ok in *. rewrite Hseq in *. cbn [in_sizes] in Hhead.
  destruct Hhead as (Hp & Hok & Hs). destruct Hsz as [[Hal Hu] Hc]. unfold step_lzma, lz_code, lzma1_coder.
  destruct (lzma_decode_ok _ _ _ Hp (lzma c) h input (conj Hok (proj1 Hu)) Ha) as (ret & l & h' & rest & E & Hg & Hsuf & Hw' & Hfin). rewrite E. cbn [mbind option_bind].
  destruct (chunk_decode _ _ _ Hp (lzma c) h input ret l h' rest Hok (conj Hal Hu) Hs Ha E) as (Hsized & Hs' & Hend).
  eexists. split; [reflexivity|]. cbn [compressed_size set_lzma set_compressed_size].
  assert (length rest <= length input)%nat as Hle by (destruct Hsuf as [u ->]; rewrite length_app; lia).
  assert (forall r c', r <> LZMA_OK -> step2_ok h (2 * length input + 1) input (Out2 r c' h' rest)) as Hstop by (intros; split_and!; auto; first [contradiction|congruence]).
  destruct (Z.gtb_spec (zlen input - zlen rest) (compressed_size c)); [now apply Hstop|].
  destruct (bool_decide_reflect (ret = LZMA_STREAM_END)) as [->|Hne]; cbn [negb].
  - case_if; [now apply Hstop|]. split_and!; [|exact Hg|congruence|exact Hsuf|rewrite measure2_other by discriminate; lia].
    split; [right; split; [exact Hp|split; [now apply Hend|exact Hs']]|exact I].
  - split_and!; [|exact Hg|exact Hsuf|congruence|].
    2: { intros ->. destruct (lzma_decode_progress _ _ _ Hp (lzma c) h input l h' rest (conj Hok (proj1 Hu)) Ha E); auto. }
    intros Hret. rewrite settled_same by congruence. destruct (Hfin Hret) as [Hok' _].
    unfold lzma2_inv, heading_ok, heading, sizes_ok. cbn. rewrite Hseq. cbn. split; [split; [exact Hp|split; [exact Hok'|exact Hs']]|]. split; [exact Hsized|lia].
Qed.

Lemma step_copy2_ok c h b rest0 : let input := b :: rest0 in lzma2_inv c h -> sequence2 c = SEQ_COPY -> 0 <= avail h -> wants_reset h = false ->
  step2_ok h (2 * length input) input (step_copy2 c h input).
Proof.
  intros input [Hhead Hsz] Hseq Ha Hw. unfold heading_ok, heading, sizes_ok in *. rewrite Hseq in *. cbn [in_sizes] in Hhead.
  unfold step_copy2. cbn [window_write history_window]. set (n := Z.min (Z.min (zlen input) (compressed_size c)) (avail h)). set (h' := push h _).
  assert (0 <= n <= zlen input) as Hn by lia.
  assert (grows h h') as Hg. { exists (slice 0 n input). unfold h', slice, from. cbn. rewrite length_take. split_and!; auto; lia. }
  assert (forall s, need_properties c = true \/ usable c h -> need_properties c = true \/ usable (set_compressed_size (goto2 c s) (compressed_size c - n)) h') as Hus.
  { intros s [?|Hus]; [now left|right]. now apply (usable_grows c _ h h'). }
  assert (from n input `suffix_of` input) as Hsuf by (exists (take (Z.to_nat n) input); unfold from; now rewrite take_drop).
  cbn [step2_ok]. destruct (Z.eqb_spec (compressed_size c - n) 0); cbn [negb step2_ok].
  - split_and!; [|exact Hg|exact Hw|exact Hsuf|rewrite measure2_other by discriminate; unfold from; rewrite length_drop; lia].
    split; [|exact I]. exact (Hus SEQ_CONTROL Hhead).
  - split_and!; [|exact Hg|exact Hsuf|cbn; congruence|].
    2: { intros _. unfold h'. cbn [push avail]. unfold slice, from. rewrite length_take, length_drop.
      destruct (Z.leb_spec (zlen input) n); [left; apply drop_ge; lia|right; left; lia]. }
    intros _. rewrite settled_same by exact Hw. unfold lzma2_inv, heading_ok, heading, sizes_ok. cbn. rewrite Hseq. cbn.
    split; [|lia]. exact (Hus SEQ_COPY Hhead).
Qed.

Lemma lzma2_step_ok c h input : lzma2_inv c h -> 0 <= avail h -> wants_reset h = false -> bytes_ok input ->
  exists r, lzma2_step c h input = Some r /\ step2_ok h (measure2 c input) input r.
Proof.
  intros Hi Ha Hw Hb. unfold lzma2_step, measure2.
  destruct (bool_decide_reflect (sequence2 c = SEQ_LZMA)) as [E|Hne]; [rewrite E; now apply step_lzma_ok|]. rewrite Nat.add_0_r.
  destruct input as [|b rest].
  - exists (Out2 LZMA_OK c h []). split; [now destruct (sequence2 c)|]. split_and!; [rewrite settled_same; auto|now apply grows_refl|reflexivity|congruence|auto].
  - apply Forall_cons in Hb as [Hb _]. destruct (decide (sequence2 c = SEQ_COPY)) as [E|Hnc].
    + rewrite E. eexists. split; [reflexivity|]. now apply step_copy2_ok.
    + exists (step_byte c h b rest). split; [destruct (sequence2 c); (reflexivity || contradiction)|]. now apply step_byte_ok.
Qed.

(** *** The loop *)

Lemma lzma2_loop_ok fuel : forall c h input, lzma2_inv c h -> 0 <= avail h -> wants_reset h = false -> bytes_ok input -> (measure2 c input < fuel)%nat ->
  exists ret c' h' rest, lzma2_loop fuel c h input = Some (ret, c', h', rest) /\ grows h h' /\ rest `suffix_of` input /\
    (wants_reset h' = true -> (length rest < length input)%nat) /\ (ret = LZMA_OK -> lzma2_inv c' (settled h')) /\
    (ret = LZMA_OK -> rest = [] \/ avail h' = 0 \/ wants_reset h' = true).
Proof.
  induction fuel as [|fuel IH]; intros c h input Hi Ha Hw Hb Hm; [lia|]. cbn [lzma2_loop].
  destruct (lzma2_step_ok c h input Hi Ha Hw Hb) as (r & -> & Hr). cbn [mbind option_bind]. destruct r as [c1 h1 rest1|ret c1 h1 rest1]; cbn [step2_ok] in Hr.
  - destruct Hr as (Hi1 & Hg1 & Hw1 & Hs1 & Hlt). assert (0 <= avail h1) as Ha1 by (destruct Hg1 as (? & _ & _ & ? & _); assumption).
    destruct (IH c1 h1 rest1 Hi1 Ha1 Hw1 ltac:(destruct Hs1 as [u ->]; now apply Forall_app in Hb as [_ Hb]) ltac:(lia)) as (ret & c' & h' & rest & E & Hg & Hs & Hwr & Hfin & Hprog).
    exists ret, c', h', rest. split_and!; auto; [now apply (grows_trans _ h1)|now transitivity rest1|].
    intros Hw'. specialize (Hwr Hw'). destruct Hs1 as [u ->]. rewrite length_app. lia.
  - exists ret, c1, h1, rest1. tauto.
Qed.

(** ** Any window gives the same result *)

Section Sim.
Context {D : Type} {W : Window D} (k top : Z) (R : D -> history -> Prop) (Hsim : window_sim k top R).

Definition same2 (r1 : step2_result D) (r2 : step2_result history) : Prop :=
  match r1, r2 with
  | Next2 c d i, Next2 c' h i' => c = c' /\ i = i' /\ R d h
  | Out2 r c d i, Out2 r' c' h i' => r = r' /\ c = c' /\ i = i' /\ R d h
  | _, _ => False
  end.

Lemma step_control_sim c d h control input : R d h -> same2 (step_control c d control input) (step_control c h control input).
Proof using Hsim. intros HR. pose proof (sim_reset k top R Hsim d h HR). unfold step_control. repeat case_if; cbn; auto. Qed.

Lemma lzma2_step_sim c d h input r : R d h -> lzma2_inv c h -> lzma2_step c h input = Some r ->
  exists r', lzma2_step c d input = Some r' /\ same2 r' r.
Proof using Hsim.
  intros HR Hi. unfold lzma2_step. destruct (decide (sequence2 c = SEQ_LZMA)) as [E|Hne].
  - rewrite E. destruct Hi as [Hhead Hsz]. unfold heading_ok, heading, sizes_ok in *. rewrite E in *. cbn [in_sizes] in Hhead.
    destruct Hhead as (Hp & Hok & _). destruct Hsz as [[_ Hu] _]. unfold step_lzma, lz_code, lzma1_coder.
    destruct (lzma_decode true (lzma c) h input) as [[[[ret l] h'] rest]|] eqn:Ed; [|discriminate]. cbn [mbind option_bind].
    destruct (lzma_decode_sim _ _ _ Hp k top R (lzma c) d h input Hsim HR (conj Hok (proj1 Hu)) _ _ _ _ Ed) as (d' & -> & HR'). cbn [mbind option_bind].
    intros [= <-]. eexists. split; [reflexivity|]. cbn [compressed_size set_lzma set_compressed_size]. repeat case_if; cbn; auto.
  - assert (same2 (Out2 LZMA_OK c d input) (Out2 LZMA_OK c h input)) as Hnone by (cbn; auto).
    destruct input as [|b rest].
    { destruct (sequence2 c); try contradiction; intros [= <-]; eauto. }
    assert (same2 (step_byte c d b rest) (step_byte c h b rest)) as Hbyte.
    { unfold step_byte. destruct (sequence2 c); cbn; auto; [now apply step_control_sim|]. case_match; cbn; auto. }
    destruct (sequence2 c) eqn:E; try contradiction; intros [= <-]; eauto. eexists. split; [reflexivity|].
    destruct Hi as [_ Hsz]. unfold sizes_ok in Hsz. rewrite E in Hsz. unfold step_copy2.
    destruct (sim_write k top R Hsim d h (b :: rest) (compressed_size c) HR ltac:(lia)) as (d' & -> & HR').
    destruct (window_write h (b :: rest) (compressed_size c)) as [[h' rest'] l]. case_if; cbn; auto.
Qed.

Lemma lzma2_loop_sim fuel : forall c d h input ret c' h' rest, R d h -> lzma2_inv c h -> wants_reset h = false -> bytes_ok input ->
  lzma2_loop fuel c h input = Some (ret, c', h', rest) -> exists d', lzma2_loop fuel c d input = Some (ret, c', d', rest) /\ R d' h'.
Proof using Hsim.
  induction fuel as [|fuel IH]; intros c d h input ret c' h' rest HR Hi Hw Hb; [discriminate|]. cbn [lzma2_loop].
  destruct (lzma2_step_ok c h input Hi (proj1 (sim_top k top R Hsim d h HR)) Hw Hb) as (r & E & Hr). rewrite E.
  destruct (lzma2_step_sim c d h input r HR Hi E) as (r' & -> & Hs). cbn [mbind option_bind].
  destruct r as [c1 h1 rest1|ret1 c1 h1 rest1], r' as [c2 d2 rest2|ret2 c2 d2 rest2]; cbn [same2 step2_ok] in *; try contradiction; destruct_and?; subst.
  - intros E'. eapply IH; eauto. match goal with Hsuf : _ `suffix_of` _ |- _ => destruct Hsuf as [u ->]; now apply Forall_app in Hb as [_ Hb] end.
  - intros [= <- <- <- <-]. eauto.
Qed.

End Sim.

(** ** The contract of an LZ-based decoder *)

Lemma lzma2_inv_same c h h' : hist h' = hist h -> capacity h' = capacity h -> lzma2_inv c h -> lzma2_inv c h'.
Proof.
  intros E1 E2 [Hh Hs]. split; [|exact Hs].
  assert (usable c h -> usable c h') as Hu.
  { intros (Hp & Hok & Hs'). split; [exact Hp|split; [|exact Hs']]. pose proof Hok as [(_ & Hr & _) _ _ _ _]. now apply (decoder_ok_fields _ _ _ (lzma c) _ h). }
  unfold heading_ok in *. destruct (heading c); tauto.
Qed.

Lemma lzma2_fuel_enough c input : (measure2 c input < lzma2_fuel input)%nat.
Proof. unfold measure2, lzma2_fuel. case_match; lia. Qed.

#[export] Instance lzma2_laws : LzCoderLaws lzma_lzma2_coder.
Proof.
  unshelve econstructor; [exact lzma2_inv|..]; cbv beta.
  - intros c h n. now apply lzma2_inv_same.
  - intros c h input Hi Ha Hw Hb. destruct (lzma2_loop_ok (lzma2_fuel input) c h input Hi Ha Hw Hb (lzma2_fuel_enough c input)) as
      (ret & c' & h' & rest & E & Hg & [u Hu] & Hwr & Hfin & _).
    exists ret, c', h', rest. split_and!; auto. now exists u.
  - intros c h input c' h' rest Hi Ha Hw Hb E. destruct (lzma2_loop_ok (lzma2_fuel input) c h input Hi Ha Hw Hb (lzma2_fuel_enough c input)) as
      (ret & c2 & h2 & rest2 & E2 & _ & _ & _ & _ & Hprog).
    pose proof (eq_trans (eq_sym E2) E) as E3. injection E3 as -> -> -> ->. now apply Hprog.
  - intros D W k top R c d h input Hsim HR Hi Hw Hb ret c' h' rest E.
    exact (lzma2_loop_sim k top R Hsim _ c d h input ret c' h' rest HR Hi Hw Hb E).
Defined.

Lemma lzma2_init_inv c o c' ds preset h : lzma2_decoder_init c o = Ok (c', ds, preset) -> lz_inv c' h.
Proof. intros [= <- <- <-]. split; [now left|exact I]. Qed.

(** ** Theorems *)



(** A chunk of plain bytes and a chunk of LZMA data. *)
Definition example_coder : lzma_lzma2_coder := mk_lzma2 SEQ_CONTROL SEQ_CONTROL example_decoder 0 0 true true example_options.
Definition example_chunks : bytes := [1; 0; 1; 7; 8; 0].

Example example_copy_chunk :
  option_map (fun r => (r.1.1.1, hist r.1.2, wants_reset r.1.2, r.2)) (lzma2_decode example_coder (mk_history [] 9 4096 false) example_chunks) =
    Some (LZMA_OK, [], true, [0; 1; 7; 8; 0]) /\
  decode_calls use_sse2 [(example_chunks, 9)] (default (mk_dict [] 0 0 0 0 false false) (match example_dict with Ok d => Some d | Err _ => None end)) example_coder =
    Some [(LZMA_STREAM_END, [7; 8])].
Proof. vm_compute. auto. Qed.

Definition example_bytes : bytes := [1; 2].


