(* ===== verification/BelaIo.v ===== *)
(** * Files, buffers and cursors of the archive readers

    [vendor/bela/include/bela/endian.hpp] (the cursor [endian::Reader]),
    [bela/bufio.hpp] (the buffered reader), [bela/io.hpp] and [belawin/io.cc]
    (reading at a position), [lib/mem/mem.cc] (the buffer).  Memory is a list of
    bytes; an access outside of it is the outcome [Outside]. *)

From Stdlib Require Import ZArith Lia.
From stdpp Require Import list.
From S2P Require Import Prelude CxxString.

(** ** Outcomes *)

Inductive io_error := ErrRead | ErrEOF | ErrNotZip | ErrCommentLength | ErrImpossible | ErrMethod | ErrShortRead | ErrRefused | ErrCodec.

(** [Outside]: memory is read that does not belong to the object.  [Endless]: the
    fuel of a loop did not suffice. *)
Inductive run (A : Type) := Val (a : A) | Failed (e : io_error) | Outside | Endless.
Arguments Val {A} _.
Arguments Failed {A} _.
Arguments Outside {A}.
Arguments Endless {A}.

Definition run_bind {A B} (m : run A) (f : A -> run B) : run B :=
  match m with Val a => f a | Failed e => Failed e | Outside => Outside | Endless => Endless end.
Notation "'let!' p := m 'in' f" := (run_bind m (fun p => f))
  (at level 10, p as pattern, m at level 100, f at level 200) : baulk_scope.

(** The outcomes that do not touch foreign memory. *)
Definition inside_memory {A} (m : run A) : Prop := match m with Val _ | Failed _ => True | _ => False end.

Lemma run_bind_Val {A B} (m : run A) (f : A -> run B) b : run_bind m f = Val b -> exists a, m = Val a /\ f a = Val b.
Proof. destruct m; cbn; eauto; discriminate. Qed.

(** ** Little-endian numbers *)

Fixpoint le_val (l : bytes) : Z := match l with [] => 0 | b :: l => b + 256 * le_val l end.
Fixpoint le_bytes (n : nat) (v : Z) : bytes := match n with O => [] | S n => v mod 256 :: le_bytes n (v / 256) end.

Lemma le_bytes_length n v : length (le_bytes n v) = n.
Proof. revert v. induction n; intros v; cbn; auto. Qed.

Lemma le_bytes_ok n v : bytes_ok (le_bytes n v).
Proof. revert v. induction n; intros v; cbn; constructor; auto. unfold is_byte. apply Z.mod_pos_bound. lia. Qed.

Lemma le_val_bytes n v : 0 <= v < 256 ^ Z.of_nat n -> le_val (le_bytes n v) = v.
Proof.
  revert v. induction n as [|n IH]; intros v Hv; cbn [le_bytes le_val]; [change (256 ^ Z.of_nat 0) with 1 in Hv; lia|].
  replace (Z.of_nat (S n)) with (Z.of_nat n + 1) in Hv by lia. rewrite Z.pow_add_r in Hv by lia. change (256 ^ 1) with 256 in Hv.
  rewrite IH by (split; [apply Z.div_pos; lia|apply Z.div_lt_upper_bound; lia]). dlia.
Qed.

Lemma le_val_range l : bytes_ok l -> 0 <= le_val l < 256 ^ zlen l.
Proof.
  induction l as [|b l IH]; intros Hb; cbn [le_val length]; [change (256 ^ Z.of_nat 0) with 1; lia|].
  apply Forall_cons in Hb as [Hb Hl]. specialize (IH Hl). unfold is_byte in Hb.
  replace (Z.of_nat (S (length l))) with (zlen l + 1) by lia. rewrite Z.pow_add_r by lia. change (256 ^ 1) with 256. lia.
Qed.

(** ** Memory *)

Definition in_range (m : bytes) (off n : Z) : bool := (0 <=? off) && (0 <=? n) && (off + n <=? zlen m).

Definition view (m : bytes) (off n : Z) : run bytes := if in_range m off n then Val (slice off n m) else Outside.

(** [b[i]] *)
Definition load (m : bytes) (i : Z) : run Z := if in_range m i 1 then Val (byte_at m i) else Outside.

Lemma view_app (a b c : bytes) off n : off = zlen a -> n = zlen b -> view (a ++ b ++ c) off n = Val b.
Proof.
  intros -> ->. unfold view, in_range. rewrite !length_app.
  replace ((0 <=? zlen a) && (0 <=? zlen b) && (zlen a + zlen b <=? Z.of_nat (length a + (length b + length c)))) with true
    by (symmetry; rewrite !andb_true_iff, !Z.leb_le; lia).
  f_equal. apply slice_app; lia.
Qed.

Lemma view_inside m off n : 0 <= off -> 0 <= n -> off + n <= zlen m -> view m off n = Val (slice off n m).
Proof. intros H1 H2 H3. unfold view, in_range. now rewrite !(proj2 (Z.leb_le _ _)) by lia. Qed.

Lemma load_inside m i : 0 <= i < zlen m -> load m i = Val (byte_at m i).
Proof. intros Hi. unfold load, in_range. now rewrite !(proj2 (Z.leb_le _ _)) by lia. Qed.

(** [bela::cstring_view] *)
Definition cstring_view (l : bytes) : bytes := match find_byte 0 l with Some n => take n l | None => l end.

Lemma cstring_view_id l : 0 ∉ l -> cstring_view l = l.
Proof.
  unfold cstring_view. destruct (find_byte 0 l) as [n|] eqn:E; [|auto]. intros H. apply find_byte_Some in E as (Hs & _ & _).
  exfalso. apply H. rewrite Hs. apply elem_of_app. right. apply elem_of_cons. now left.
Qed.

(** ** [bela::endian::Reader]: the position in memory ([-1] is the null pointer)
    and the size, a [size_t]. *)
Record cursor := mk_cursor { cdata : Z; csize : Z }.

Definition Read (w : Z) (m : bytes) (c : cursor) : run (Z * cursor) :=
  let! b := view m (cdata c) w in Val (le_val b, mk_cursor (cdata c + w) (u64 (csize c - w))).

Definition Pick (m : bytes) (c : cursor) : run (Z * cursor) := Read 1 m c.

Definition Discard (n : Z) (c : cursor) : Z * cursor :=
  if n >=? csize c then (0, mk_cursor (-1) 0) else (csize c - n, mk_cursor (cdata c + n) (csize c - n)).

(** [Sub] adds [n] to the size of what is left. *)
Definition Sub (n : Z) (c : cursor) : cursor * cursor := (mk_cursor (cdata c) n, mk_cursor (cdata c + n) (u64 (csize c + n))).

Lemma Read_app (w : nat) v (a c : bytes) size : 0 <= v < 256 ^ Z.of_nat w -> Z.of_nat w <= size < 18446744073709551616 ->
  Read (Z.of_nat w) (a ++ le_bytes w v ++ c) (mk_cursor (zlen a) size) = Val (v, mk_cursor (zlen a + Z.of_nat w) (size - Z.of_nat w)).
Proof.
  intros Hv Hs. unfold Read. cbn [cdata csize]. rewrite view_app; [|lia|rewrite le_bytes_length; lia]. cbn [run_bind].
  rewrite le_val_bytes by exact Hv. do 3 f_equal. apply u64_small. unfold is_u64. lia.
Qed.

Lemma Read_inside w m c : 0 <= cdata c -> 0 <= w -> cdata c + w <= zlen m -> w <= csize c < 18446744073709551616 ->
  Read w m c = Val (le_val (slice (cdata c) w m), mk_cursor (cdata c + w) (csize c - w)).
Proof. intros H1 H2 H3 H4. unfold Read. rewrite view_inside by assumption. cbn [run_bind]. do 3 f_equal. apply u64_small. unfold is_u64. lia. Qed.

(** ** [baulk::mem::Buffer]: the bytes of its capacity; [mem] is what fresh memory
    contains *)
Definition grow (mem : Z -> bytes) (b : bytes) (n : Z) : bytes := if n <=? zlen b then b else mem n.

(** ** Files *)

Section File.
Context (file : bytes).

(** [FD::ReadAt] with a full buffer: seeking before the file and reading behind
    its end fail. *)
Definition ReadAt (n pos : Z) : run bytes :=
  if pos <? 0 then Failed ErrRead else if (n =? 0) || (pos + n <=? zlen file) then Val (slice pos n file) else Failed ErrEOF.

Lemma ReadAt_app (a b c : bytes) n pos : file = a ++ b ++ c -> pos = zlen a -> n = zlen b -> ReadAt n pos = Val b.
Proof.
  intros Hf -> ->. unfold ReadAt. rewrite (proj2 (Z.ltb_ge _ _)) by lia. rewrite (proj2 (Z.leb_le (_ + _) _)) by (rewrite Hf, !length_app; lia).
  rewrite orb_true_r, Hf. f_equal. apply slice_app; lia.
Qed.

Lemma ReadAt_length n pos b : 0 <= n -> ReadAt n pos = Val b -> zlen b = n.
Proof.
  intros Hn. unfold ReadAt. destruct (Z.ltb_spec pos 0); [discriminate|]. destruct (Z.eqb_spec n 0) as [->|].
  - intros [= <-]. unfold slice. now rewrite take_0.
  - cbn [orb]. destruct (Z.leb_spec (pos + n) (zlen file)); [|discriminate]. intros [= <-]. apply length_slice; lia.
Qed.

(** *** [bela::bufio::Reader<4096>] *)

Definition bufio_size : Z := 4096.

Record bufio := mk_bufio { fpos : Z; bdata : bytes; bw : Z; br : Z }.

(** [fsread]: the length that it reports is the one that was asked for.  The
    result: the bytes of the destination, the position in the file. *)
Definition fsread (pos : Z) (dest : bytes) : bytes * Z :=
  let data := slice pos (zlen dest) file in (data ++ from (zlen data) dest, pos + zlen data).

Definition bufio_copy (b : bufio) (dest : bytes) : bytes * Z * bufio :=
  let n := Z.min (bw b - br b) (zlen dest) in
  (slice (br b) n (bdata b) ++ from n dest, n, mk_bufio (fpos b) (bdata b) (bw b) (br b + n)).

Definition bufio_read (b : bufio) (dest : bytes) : run (bytes * Z * bufio) :=
  if zlen dest =? 0 then Failed ErrShortRead
  else if br b =? bw b then
    if zlen dest >? bufio_size then
      let '(dest', pos) := fsread (fpos b) dest in Val (dest', zlen dest, mk_bufio pos (bdata b) (bw b) (br b))
    else
      let '(data, pos) := fsread (fpos b) (bdata b) in Val (bufio_copy (mk_bufio pos data bufio_size 0) dest)
  else Val (bufio_copy b dest).

(** [ReadFull]: [dest] is the destination with its old bytes, [done] what was read. *)
Fixpoint ReadFull_loop (fuel : nat) (b : bufio) (done dest : bytes) : run (bytes * bufio) :=
  match dest with
  | [] => Val (done, b)
  | _ =>
      match fuel with
      | O => Endless
      | S fuel => let! (dest, n, b) := bufio_read b dest in ReadFull_loop fuel b (done ++ slice 0 n dest) (from n dest)
      end
  end.

Definition ReadFull (b : bufio) (dest : bytes) : run (bytes * bufio) := ReadFull_loop (length dest) b [] dest.

Definition new_bufio (pos : Z) : bufio := mk_bufio pos (replicate (Z.to_nat bufio_size) 0) 0 0.

(** The bytes that the reader is about to give. *)
Record feeds (b : bufio) (p : bytes) : Prop := {
  feeds_data : zlen (bdata b) = bufio_size;
  feeds_range : 0 <= br b <= bw b /\ bw b <= bufio_size /\ 0 <= fpos b;
  feeds_next : p `prefix_of` slice (br b) (bw b - br b) (bdata b) ++ from (fpos b) file;
}.

Lemma fsread_spec pos dest : 0 <= pos ->
  let '(dest', pos') := fsread pos dest in zlen dest' = zlen dest /\ 0 <= pos' /\
    forall p, p `prefix_of` from pos file -> p `prefix_of` dest' ++ from pos' file.
Proof.
  intros Hp. unfold fsread. set (data := slice pos (zlen dest) file).
  assert (zlen data = Z.min (zlen dest) (Z.max 0 (zlen file - pos))) as Hd by (unfold data, slice, from; rewrite length_take, length_drop; lia).
  split_and!; [unfold from; rewrite length_app, length_drop; lia|lia|]. intros p [q Hq].
  assert (data ++ from (pos + zlen data) file = from pos file) as Hall.
  { unfold data, slice, from. rewrite <- (take_drop (Z.to_nat (zlen dest)) (drop (Z.to_nat pos) file)) at 3. f_equal. rewrite drop_drop. rewrite length_take, length_drop.
    destruct (Z.leb_spec (zlen dest) (zlen file - pos)); [f_equal; lia|]. rewrite !drop_ge by lia. reflexivity. }
  destruct (Z.leb_spec (zlen dest) (zlen data)) as [Hle|Hlt].
  - unfold from at 1. rewrite (drop_ge dest) by lia. rewrite app_nil_r, Hall. now exists q.
  - assert (from (pos + zlen data) file = []) as Hend by (unfold from; apply drop_ge; lia). rewrite Hend, app_nil_r in *. rewrite Hall.
    rewrite Hq. rewrite <- app_assoc. eexists. reflexivity.
Qed.

Lemma feeds_new pos p : 0 <= pos -> p `prefix_of` from pos file -> feeds (new_bufio pos) p.
Proof. intros H Hp. constructor; cbn; [reflexivity|unfold bufio_size; lia|exact Hp]. Qed.

Lemma prefix_take (p l : bytes) n : p `prefix_of` l -> (n <= length p)%nat -> take n l = take n p.
Proof. intros [q ->] Hn. now apply take_app_le. Qed.

Lemma prefix_drop (p l : bytes) n : p `prefix_of` l -> (n <= length p)%nat -> drop n p `prefix_of` drop n l.
Proof. intros [q ->] Hn. rewrite drop_app_le by lia. now exists q. Qed.

Lemma copy_spec b p dest : feeds b p -> br b < bw b -> dest <> [] -> zlen dest <= zlen p ->
  let '(dest', n, b') := bufio_copy b dest in
  0 < n <= zlen dest /\ slice 0 n dest' = take (Z.to_nat n) p /\ zlen (from n dest') = zlen dest - n /\ feeds b' (from n p).
Proof.
  intros [Hd Hr Hp] Hlt Hne Hl. unfold bufio_copy. set (n := Z.min (bw b - br b) (zlen dest)).
  assert (0 < zlen dest) as Hdl by (destruct dest; [contradiction|cbn; lia]). assert (0 < n <= zlen dest /\ n <= bw b - br b) as Hn by lia. clearbody n.
  assert (zlen (slice (br b) n (bdata b)) = n) as Hsl by (apply length_slice; lia).
  assert (slice (br b) n (bdata b) = take (Z.to_nat n) p) as Htake.
  { rewrite <- (prefix_take p _ (Z.to_nat n) Hp ltac:(lia)). unfold slice, from.
    rewrite take_app_le by (rewrite length_take, length_drop; lia). rewrite take_take. f_equal. lia. }
  split_and!; [lia|lia| |unfold from; rewrite drop_app_ge by lia; rewrite !length_drop; lia|].
  - unfold slice at 1. unfold from at 1. change (Z.to_nat 0) with 0%nat. rewrite drop_0, take_app_le by lia. rewrite Htake. rewrite take_take. f_equal. lia.
  - constructor; cbn [bdata br bw fpos]; [exact Hd|lia|]. pose proof (prefix_drop p _ (Z.to_nat n) Hp ltac:(lia)) as Hx.
    unfold slice, from in *. rewrite drop_app_le in Hx by (rewrite length_take, length_drop; lia).
    rewrite skipn_firstn_comm, drop_drop in Hx. replace (Z.to_nat (br b + n)) with (Z.to_nat (br b) + Z.to_nat n)%nat by lia.
    replace (Z.to_nat (bw b - (br b + n))) with (Z.to_nat (bw b - br b) - Z.to_nat n)%nat by lia. exact Hx.
Qed.

Lemma read_spec b p dest : feeds b p -> dest <> [] -> zlen dest <= zlen p ->
  exists dest' n b', bufio_read b dest = Val (dest', n, b') /\
    0 < n <= zlen dest /\ slice 0 n dest' = take (Z.to_nat n) p /\ zlen (from n dest') = zlen dest - n /\ feeds b' (from n p).
Proof.
  intros Hf Hne Hl. pose proof Hf as [Hd Hr Hp]. assert (0 < zlen dest) as Hdl by (destruct dest; [contradiction|cbn; lia]).
  unfold bufio_read. rewrite (proj2 (Z.eqb_neq _ _)) by lia. destruct (Z.eqb_spec (br b) (bw b)) as [E|E].
  - assert (p `prefix_of` from (fpos b) file) as Hpf by (rewrite E, Z.sub_diag in Hp; exact Hp).
    destruct (Z.gtb_spec (zlen dest) bufio_size).
    + assert (take (length dest) (from (fpos b) file) = take (length dest) p) as Htk by (apply prefix_take; [exact Hpf|lia]).
      assert (zlen (take (length dest) p) = zlen dest) as Hlt by (rewrite length_take; lia).
      unfold fsread. assert (slice (fpos b) (zlen dest) file = take (length dest) p) as -> by (unfold slice; rewrite Nat2Z.id; exact Htk). rewrite Hlt.
      unfold from at 1. rewrite (drop_ge dest) by lia. rewrite app_nil_r.
      eexists _, _, _. split; [reflexivity|]. split_and!; [lia|lia| |unfold from; rewrite length_drop, length_take; lia|].
      * unfold slice, from. change (Z.to_nat 0) with 0%nat. rewrite drop_0, take_take. f_equal. lia.
      * constructor; cbn; [exact Hd|lia|]. rewrite E, Z.sub_diag. change (slice (bw b) 0 (bdata b)) with (@nil Z). cbn [app].
        pose proof (prefix_drop p _ (length dest) Hpf ltac:(lia)) as Hx. unfold from in *. rewrite drop_drop in Hx.
        replace (Z.to_nat (fpos b + zlen dest)) with (Z.to_nat (fpos b) + length dest)%nat by lia. now rewrite Nat2Z.id.
    + pose proof (fsread_spec (fpos b) (bdata b) ltac:(lia)) as Hfs. destruct (fsread (fpos b) (bdata b)) as [data pos]. destruct Hfs as (H1 & H2 & H3).
      assert (feeds (mk_bufio pos data bufio_size 0) p) as Hf'.
      { constructor; cbn; [lia|unfold bufio_size; lia|]. unfold slice, from at 1. rewrite Z.sub_0_r, drop_0, take_ge by (unfold bufio_size in *; lia). now apply H3. }
      pose proof (copy_spec _ p dest Hf' ltac:(cbn; unfold bufio_size; lia) Hne Hl) as Hc. destruct (bufio_copy _ dest) as [[dest' n] b']. exists dest', n, b'. now split.
  - pose proof (copy_spec b p dest Hf ltac:(lia) Hne Hl) as Hc. destruct (bufio_copy b dest) as [[dest' n] b']. exists dest', n, b'. now split.
Qed.

(** What is read is what the file contains, whatever the destination was. *)
Lemma bufio_full_spec b p dest : feeds b p -> zlen dest <= zlen p ->
  exists b', ReadFull b dest = Val (take (length dest) p, b') /\ feeds b' (drop (length dest) p).
Proof.
  assert (forall fuel b p done dest, feeds b p -> zlen dest <= zlen p -> (length dest <= fuel)%nat ->
    exists b', ReadFull_loop fuel b done dest = Val (done ++ take (length dest) p, b') /\ feeds b' (drop (length dest) p)) as Hgen.
  { induction fuel as [|fuel IH]; intros b0 p0 done dest0 Hf Hl Hfl.
    - destruct dest0; [|cbn in Hfl; lia]. exists b0. cbn. rewrite app_nil_r. now split.
    - destruct dest0 as [|x dest0]; [exists b0; cbn; rewrite app_nil_r; now split|]. cbn [ReadFull_loop].
      destruct (read_spec b0 p0 (x :: dest0) Hf ltac:(discriminate) Hl) as (dest' & n & b' & -> & Hn & Hs & Hlen & Hf'). cbn [run_bind].
      destruct (IH b' (from n p0) (done ++ slice 0 n dest') (from n dest') Hf') as (b2 & E & Hf2); [unfold from in *; rewrite !length_drop in *; lia|lia|].
      exists b2. rewrite E. split.
      + do 2 f_equal. rewrite <- app_assoc, Hs. f_equal. unfold from in *.
        replace (length (x :: dest0)) with (Z.to_nat n + length (drop (Z.to_nat n) dest'))%nat by lia. rewrite take_take_drop. reflexivity.
      + unfold from in Hf2, Hlen. rewrite drop_drop in Hf2.
        replace (length (x :: dest0)) with (Z.to_nat n + length (drop (Z.to_nat n) dest'))%nat by lia. exact Hf2. }
  intros Hf Hl. exact (Hgen (length dest) b p [] dest Hf Hl ltac:(lia)).
Qed.

End File.
