(* ===== verification/BelaTime.v ===== *)
(** * Times of the archive formats

    [vendor/bela/src/belatime/dos.cc] and [vendor/bela/include/bela/time.hpp]: the
    dates of FAT, the ticks of Windows and the seconds of Unix as [bela::Time], the
    seconds and the quarter nanoseconds since 1970.  The calendar of
    [FromDosDateTime] is compared with counting days. *)

From Stdlib Require Import ZArith Lia.
From stdpp Require Import list.
From S2P Require Import Prelude CxxString TarHeader.

Definition FromUnixSeconds (s : Z) : Time := {| rep_hi := s; rep_lo := 0 |}.
Definition UnixEpoch : Time := zero_time.
Definition ToUnixSeconds (t : Time) : Z := rep_hi t.

Definition kTicksPerSecond : Z := 4000000000.

(** [MakeNormalizedDuration] *)
Definition MakeNormalizedDuration (sec ticks : Z) : Time :=
  if ticks <? 0 then {| rep_hi := sec - 1; rep_lo := u32 (ticks + kTicksPerSecond) |}
  else {| rep_hi := sec; rep_lo := u32 ticks |}.

(** [FromInt64] with [std::micro] *)
Definition FromUnixMicros (us : Z) : Time :=
  MakeNormalizedDuration (Z.quot us 1000000) (Z.quot (Z.rem us 1000000 * kTicksPerSecond) 1000000).

(** Ticks of 100 nanoseconds since 1601; the subtraction is one of [uint64_t]. *)
Definition FromWindowsPreciseTime (tick : Z) : Time := FromUnixMicros (i64 (u64 (tick - 116444736000000000) / 10)).

(** ** [FromDosDateTime] *)

Definition WindowsEpochDays : Z := (1601 - 1) * 365 + (1601 - 1) / 4 - (1601 - 1) / 100 + (1601 - 1) / 400.
Definition UnixEpochStart : Z := 11644473600.
Definition secondsPerDay : Z := 86400.

Definition IsLeapYear (y : Z) : bool := (y mod 4 =? 0) && (negb (y mod 100 =? 0) || (y mod 400 =? 0)).

Definition sinceWindowsEpochDays (y : Z) : Z := let y := y - 1 in y * 365 + y / 4 - y / 100 + y / 400 - WindowsEpochDays.

Definition LeapMonths : list Z := [31; 29; 31; 30; 31; 30; 31; 31; 30; 31; 30; 31].
Definition Months : list Z := [31; 28; 31; 30; 31; 30; 31; 31; 30; 31; 30; 31].

Definition days_of_month (y mon : Z) : Z := nth (Z.to_nat (mon - 1)) (if IsLeapYear y then LeapMonths else Months) 0.

(** [for (auto i = 1; i < mon; i++) days += Months[i - 1];] *)
Definition month_days (mon : Z) : Z := fold_left Z.add (take (Z.to_nat (mon - 1)) Months) 0.

Definition dos_days (year mon day : Z) : Z :=
  sinceWindowsEpochDays year + month_days mon + (if (mon >? 2) && IsLeapYear year then 1 else 0) + (day - 1).

Definition FromDosDateTime (dosDate dosTime : Z) : Time :=
  let year := Z.shiftr dosDate 9 + 1980 in
  let mon := Z.land (Z.shiftr dosDate 5) 0xf in
  let day := Z.land dosDate 0x1f in
  let hour := Z.shiftr dosTime 11 in
  let minute := Z.land (Z.shiftr dosTime 5) 0x3f in
  let sec := Z.shiftl (Z.land dosTime 0x1f) 1 in
  if (sec >? 59) || (minute >? 59) || (hour >? 23) || (mon <? 1) || (mon >? 12) then UnixEpoch
  else if (day <? 1) || (day >? days_of_month year mon) then UnixEpoch
  else FromUnixSeconds (dos_days year mon day * secondsPerDay + hour * 3600 + minute * 60 + sec - UnixEpochStart).

(** ** Reference: counting days from 1970 on *)

Record date := mk_date { year_ : Z; month_ : Z; day_ : Z }.

Definition next_date (d : date) : date :=
  if day_ d <? days_of_month (year_ d) (month_ d) then mk_date (year_ d) (month_ d) (day_ d + 1)
  else if month_ d <? 12 then mk_date (year_ d) (month_ d + 1) 1
  else mk_date (year_ d + 1) 1 1.

Fixpoint after_days (n : nat) (d : date) : date := match n with O => d | S n => after_days n (next_date d) end.

Definition epoch_date : date := mk_date 1970 1 1.

Definition valid_date (d : date) : Prop := 1 <= month_ d <= 12 /\ 1 <= day_ d <= days_of_month (year_ d) (month_ d).

Definition pack_date (d : date) : Z := (year_ d - 1980) * 512 + month_ d * 32 + day_ d.
Definition pack_time (hour minute sec2 : Z) : Z := hour * 2048 + minute * 32 + sec2.

Definition day_number (d : date) : Z := dos_days (year_ d) (month_ d) (day_ d).

Lemma month_cases m : 1 <= m <= 12 -> m ∈ [1; 2; 3; 4; 5; 6; 7; 8; 9; 10; 11; 12].
Proof. intros Hm. rewrite !elem_of_cons, elem_of_nil. lia. Qed.

Lemma leap_year_days y : sinceWindowsEpochDays (y + 1) = sinceWindowsEpochDays y + 365 + (if IsLeapYear y then 1 else 0).
Proof.
  unfold sinceWindowsEpochDays, IsLeapYear. replace (y + 1 - 1) with y by lia. generalize WindowsEpochDays as w. intros w. cbv zeta.
  repeat case_if; b2p; repeat match goal with H : (_ =? _) = _ |- _ => revert H end; rewrite ?Z.eqb_eq, ?Z.eqb_neq; intros; dlia.
Qed.

Ltac by_month H := repeat (apply elem_of_cons in H as [->|H]; [|]); [..|now apply not_elem_of_nil in H].

(** Evaluates what does not depend on the year. *)
Ltac fold_closed :=
  repeat match goal with
  | |- context [month_days ?k] => let v := eval vm_compute in (month_days k) in change (month_days k) with v
  | |- context [Z.to_nat ?k] => let v := eval vm_compute in (Z.to_nat k) in change (Z.to_nat k) with v
  | |- context [?a >? ?b] => let v := eval vm_compute in (a >? b) in change (a >? b) with v
  end.

Lemma next_date_valid d : valid_date d -> valid_date (next_date d) /\ day_number (next_date d) = day_number d + 1.
Proof.
  destruct d as [y m dd]. unfold valid_date, next_date, day_number. cbn [year_ month_ day_]. intros [Hm Hd].
  destruct (Z.ltb_spec dd (days_of_month y m)); cbn [year_ month_ day_]; [split; [lia|unfold dos_days; lia]|].
  assert (dd = days_of_month y m) as -> by lia. pose proof (leap_year_days y) as Hy. revert Hy. unfold dos_days, days_of_month.
  pose proof (month_cases m Hm) as Hin. intros Hy.
  by_month Hin; cbn [Z.ltb Z.compare Pos.compare Pos.compare_cont]; cbn [year_ month_ day_]; destruct (IsLeapYear y) eqn:El;
    try (destruct (IsLeapYear (y + 1)));
    fold_closed; cbn [nth LeapMonths Months andb]; lia.
Qed.

Lemma after_days_valid n : forall d, valid_date d -> valid_date (after_days n d) /\ day_number (after_days n d) = day_number d + Z.of_nat n.
Proof.
  induction n as [|n IH]; intros d Hd; cbn [after_days]; [split; [exact Hd|lia]|].
  destruct (next_date_valid d Hd) as [Hv Hn]. destruct (IH _ Hv). split; [assumption|lia].
Qed.

Lemma epoch_valid : valid_date epoch_date.
Proof. split; split; vm_compute; discriminate. Qed.

Lemma epoch_number : day_number epoch_date * secondsPerDay = UnixEpochStart.
Proof. reflexivity. Qed.

Lemma pack_date_fields d : valid_date d -> 1980 <= year_ d <= 2107 ->
  Z.shiftr (pack_date d) 9 + 1980 = year_ d /\ Z.land (Z.shiftr (pack_date d) 5) 0xf = month_ d /\ Z.land (pack_date d) 0x1f = day_ d.
Proof.
  intros [Hm Hd] Hy. unfold pack_date. assert (days_of_month (year_ d) (month_ d) <= 31) as Hle.
  { unfold days_of_month. pose proof (month_cases _ Hm) as Hin. revert Hin. generalize (month_ d). intros m Hin. by_month Hin; destruct (IsLeapYear _); fold_closed; cbn [nth LeapMonths Months]; lia. }
  change 15 with (2 ^ 4 - 1). change 31 with (2 ^ 5 - 1). rewrite !land_low by lia. rewrite !Z.shiftr_div_pow2 by lia.
  change (2 ^ 9) with 512. change (2 ^ 5) with 32. change (2 ^ 4) with 16. split_and!; dlia.
Qed.

Lemma pack_time_fields hour minute sec2 : 0 <= hour <= 23 -> 0 <= minute <= 59 -> 0 <= sec2 <= 29 ->
  let t := pack_time hour minute sec2 in
  Z.shiftr t 11 = hour /\ Z.land (Z.shiftr t 5) 0x3f = minute /\ Z.shiftl (Z.land t 0x1f) 1 = 2 * sec2.
Proof.
  intros Hh Hm Hs t. unfold t, pack_time. change 63 with (2 ^ 6 - 1). change 31 with (2 ^ 5 - 1). rewrite !land_low by lia.
  rewrite !Z.shiftr_div_pow2, Z.shiftl_mul_pow2 by lia. change (2 ^ 11) with 2048. change (2 ^ 5) with 32. change (2 ^ 6) with 64. change (2 ^ 1) with 2. split_and!; dlia.
Qed.

(** C40: The time of an entry: for the day that is [n] days after 1970-01-01 and has
    a date of FAT (1980 to 2107), [FromDosDateTime] gives [n] times 86400 seconds
    and the time of the day since 1970, leap years included. *)
Theorem dos_time_correct n hour minute sec2 :
  let d := after_days n epoch_date in
  1980 <= year_ d <= 2107 -> 0 <= hour <= 23 -> 0 <= minute <= 59 -> 0 <= sec2 <= 29 ->
  FromDosDateTime (pack_date d) (pack_time hour minute sec2) = FromUnixSeconds (Z.of_nat n * secondsPerDay + hour * 3600 + minute * 60 + 2 * sec2).
Proof.
  intros d Hy Hh Hmi Hs. destruct (after_days_valid n epoch_date epoch_valid) as [Hv Hn]. fold d in Hv, Hn. clearbody d.
  destruct (pack_date_fields d Hv Hy) as (E1 & E2 & E3). pose proof (pack_time_fields hour minute sec2 Hh Hmi Hs) as (E4 & E5 & E6). cbv zeta in *.
  unfold FromDosDateTime. cbv zeta. rewrite E1, E2, E3, E4, E5, E6. destruct Hv as [Hm Hd].
  rewrite !Z.gtb_ltb, !(proj2 (Z.ltb_ge _ _)) by lia. cbn [orb].
  change (dos_days (year_ d) (month_ d) (day_ d)) with (day_number d). rewrite Hn. f_equal. pose proof epoch_number. lia.
Qed.

Lemma dos_time_correct_witness : let n := Z.to_nat 11016 in
  FromDosDateTime (pack_date (after_days n epoch_date)) (pack_time 12 34 28) = FromUnixSeconds (Z.of_nat n * secondsPerDay + 12 * 3600 + 34 * 60 + 2 * 28) /\
  after_days n epoch_date = mk_date 2000 2 29.
Proof.
  split; [|vm_compute; reflexivity].
  assert (year_ (after_days (Z.to_nat 11016) epoch_date) = 2000) as Hy by (vm_compute; reflexivity).
  apply (dos_time_correct (Z.to_nat 11016) 12 34 28); lia.
Defined.
