(* ===== verification/Zip.v ===== *)
(** * The Zip reader

    [lib/archive/zip/zip.cc], [filemode.cc], [decompress.cc]: the end of the central
    directory, the Zip64 records, the directory headers with their extra fields,
    and the stored entries.  The decompressors of the other methods are third-party
    code behind the parameter [codec].  Memory accesses are checked: [Outside] is
    the outcome of a read beyond the buffer. *)

From Stdlib Require Import ZArith Lia String.
From stdpp Require Import list.
From S2P Require Import Prelude CxxString TarHeader BelaIo BelaTime.
Import (notations) ListNotations.

Open Scope Z_scope.

Definition fileHeaderSignature : Z := 0x04034b50.
Definition directoryHeaderSignature : Z := 0x02014b50.
Definition directory64LocSignature : Z := 0x07064b50.
Definition directory64EndSignature : Z := 0x06064b50.
Definition fileHeaderLen : Z := 30.
Definition directoryHeaderLen : Z := 46.
Definition directoryEndLen : Z := 22.
Definition directory64LocLen : Z := 20.
Definition directory64EndLen : Z := 56.

Definition creatorFAT : Z := 0.
Definition creatorUnix : Z := 3.
Definition creatorNTFS : Z := 11.
Definition creatorVFAT : Z := 14.
Definition creatorMacOSX : Z := 19.

Definition zip64ExtraID : Z := 0x0001.
Definition ntfsExtraID : Z := 0x000a.
Definition unixExtraID : Z := 0x000d.
Definition extTimeExtraID : Z := 0x5455.
Definition infoZipUnixExtraID : Z := 0x5855.
Definition infoZipUnicodeCommentExtraID : Z := 0x6375.
Definition infoZipUnicodePathID : Z := 0x7075.
Definition winzipAesExtraID : Z := 0x9901.

Definition s_IFMT : Z := 0xf000.
Definition s_IFSOCK : Z := 0xc000.
Definition s_IFLNK : Z := 0xa000.
Definition s_IFREG : Z := 0x8000.
Definition s_IFBLK : Z := 0x6000.
Definition s_IFDIR : Z := 0x4000.
Definition s_IFCHR : Z := 0x2000.
Definition s_IFIFO : Z := 0x1000.
Definition s_ISUID : Z := 0x800.
Definition s_ISGID : Z := 0x400.
Definition s_ISVTX : Z := 0x200.
Definition msdosDir : Z := 0x10.
Definition msdosReadOnly : Z := 0x01.

Record directoryEnd := mk_end {
  diskNbr : Z;
  dirDiskNbr : Z;
  dirRecordsThisDisk : Z;
  directoryRecords : Z;
  directorySize : Z;
  directoryOffset : Z;
}.

Record File := mk_file {
  name : bytes;
  comment : bytes;
  linkname : bytes;
  compressed_size : Z;
  uncompressed_size : Z;
  position : Z;
  time : Time;
  crc32_value : Z;
  mode : Z;
  version_madeby : Z;
  version_needed : Z;
  flags : Z;
  method : Z;
  aes_version : Z;
  aes_strength : Z;
}.

Definition IsFileNameUTF8 (f : File) : bool := negb (Z.land (flags f) 0x800 =? 0).
Definition IsEncrypted (f : File) : bool := negb (Z.land (flags f) 1 =? 0).
Definition IsDir (f : File) : bool := negb (Z.land (mode f) ModeDir =? 0).
Definition IsSymlink (f : File) : bool := negb (Z.land (mode f) ModeSymlink =? 0).

(** ** Assignments *)

Definition set_sizes (f : File) (c u p : Z) : File :=
  mk_file (name f) (comment f) (linkname f) c u p (time f) (crc32_value f) (mode f) (version_madeby f) (version_needed f) (flags f)
    (method f) (aes_version f) (aes_strength f).
Definition set_names (f : File) (n c l : bytes) (fl : Z) : File :=
  mk_file n c l (compressed_size f) (uncompressed_size f) (position f) (time f) (crc32_value f) (mode f) (version_madeby f)
    (version_needed f) fl (method f) (aes_version f) (aes_strength f).
Definition set_time (f : File) (t : Time) : File :=
  mk_file (name f) (comment f) (linkname f) (compressed_size f) (uncompressed_size f) (position f) t (crc32_value f) (mode f)
    (version_madeby f) (version_needed f) (flags f) (method f) (aes_version f) (aes_strength f).
Definition set_mode (f : File) (m : Z) : File :=
  mk_file (name f) (comment f) (linkname f) (compressed_size f) (uncompressed_size f) (position f) (time f) (crc32_value f) m
    (version_madeby f) (version_needed f) (flags f) (method f) (aes_version f) (aes_strength f).
Definition set_aes (f : File) (v s m : Z) : File :=
  mk_file (name f) (comment f) (linkname f) (compressed_size f) (uncompressed_size f) (position f) (time f) (crc32_value f) (mode f)
    (version_madeby f) (version_needed f) (flags f) m v s.

(** ** [filemode.cc] *)

Definition unixModeToFileMode (m : Z) : Z :=
  let mode := Z.land m 511 in
  let t := Z.land m s_IFMT in
  let mode :=
    if t =? s_IFBLK then Z.lor mode ModeDevice
    else if t =? s_IFCHR then Z.lor mode (Z.lor ModeDevice ModeCharDevice)
    else if t =? s_IFDIR then Z.lor mode ModeDir
    else if t =? s_IFIFO then Z.lor mode ModeNamedPipe
    else if t =? s_IFLNK then Z.lor mode ModeSymlink
    else if t =? s_IFREG then mode
    else if t =? s_IFSOCK then Z.lor mode ModeSocket
    else mode in
  let mode := or_if (negb (Z.land m s_ISGID =? 0)) ModeSetgid mode in
  let mode := or_if (negb (Z.land m s_ISUID =? 0)) ModeSetuid mode in
  or_if (negb (Z.land m s_ISVTX =? 0)) ModeSticky mode.

Definition msdosModeToFileMode (m : Z) : Z :=
  let mode := if negb (Z.land m msdosDir =? 0) then Z.lor ModeDir 511 else 438 in
  if negb (Z.land m msdosReadOnly =? 0) then Z.land mode (u32 (Z.lnot 146)) else mode.

Definition resolveFileMode (f : File) (externalAttrs : Z) : Z :=
  let n := Z.shiftr (version_madeby f) 8 in
  let mode :=
    if (n =? creatorUnix) || (n =? creatorMacOSX) then unixModeToFileMode (Z.shiftr externalAttrs 16)
    else if (n =? creatorNTFS) || (n =? creatorVFAT) || (n =? creatorFAT) then msdosModeToFileMode externalAttrs
    else 0 in
  or_if (ends_with (str "/") (name f) || ends_with (str "\") (name f)) ModeDir mode.

(** ** [findSignatureInBlock] *)

(** The four bytes are compared one after another. *)
Fixpoint match_at (b : bytes) (i : Z) (sig : bytes) : run bool :=
  match sig with
  | [] => Val true
  | s :: sig => let! c := load b i in if c =? s then match_at b (i + 1) sig else Val false
  end.

Definition end_signature : bytes := [80; 75; 5; 6].

Fixpoint find_from (n : nat) (b : bytes) (i : Z) : run Z :=
  match n with
  | O => Val (-1)
  | S n =>
      let! found := match_at b i end_signature in
      if found : bool then
        let! lo := load b (i + directoryEndLen - 2) in
        let! hi := load b (i + directoryEndLen - 1) in
        if Z.lor lo (Z.shiftl hi 8) + directoryEndLen + i <=? zlen b then Val i else find_from n b (i - 1)
      else find_from n b (i - 1)
  end.

Definition findSignatureInBlock (b : bytes) : run Z :=
  let i := zlen b - directoryEndLen in find_from (Z.to_nat (i + 1)) b i.

(** ** The extra fields *)

Record extra_state := mk_extra {
  xfile : File;
  needUSize : bool;
  needSize : bool;
  needOffset : bool;
  modified : Time;
}.
Definition set_xfile (x : extra_state) (f : File) : extra_state := mk_extra f (needUSize x) (needSize x) (needOffset x) (modified x).
Definition set_modified (x : extra_state) (t : Time) : extra_state := mk_extra (xfile x) (needUSize x) (needSize x) (needOffset x) t.

Section Extra.
Context (m : bytes).

(** One value of the Zip64 field, where it is needed. *)
Definition zip64_value (need : bool) (old : Z) (fb : cursor) : run (Z * cursor) :=
  if need then if csize fb <? 8 then Failed ErrNotZip else Read 8 m fb else Val (old, fb).

Definition zip64_field (fb : cursor) (x : extra_state) : run extra_state :=
  let f := xfile x in
  let! (u, fb) := zip64_value (needUSize x) (uncompressed_size f) fb in
  let! (c, fb) := zip64_value (needSize x) (compressed_size f) fb in
  let! (p, fb) := zip64_value (needOffset x) (position f) fb in
  Val (mk_extra (set_sizes f c u p) false false false (modified x)).

Fixpoint ntfs_loop (fuel : nat) (fb : cursor) (t : Time) : run Time :=
  match fuel with
  | O => Endless
  | S fuel =>
      if csize fb <? 4 then Val t
      else
        let! (attrTag, fb) := Read 2 m fb in
        let! (attrSize, fb) := Read 2 m fb in
        if csize fb <? attrSize then Val t
        else
          let '(ab, fb) := Sub attrSize fb in
          if negb (attrTag =? 1) || negb (attrSize =? 24) then Val t
          else let! (tick, _) := Read 8 m ab in ntfs_loop fuel fb (FromWindowsPreciseTime tick)
  end.

(** Every round reads four bytes more of the buffer. *)
Definition extra_fuel : nat := S (length m).

Definition ntfs_field (fb : cursor) (x : extra_state) : run extra_state :=
  if csize fb <? 4 then Val x
  else let! t := ntfs_loop extra_fuel (Discard 4 fb).2 (modified x) in Val (set_modified x t).

Definition unix_field (fieldTag : Z) (fb : cursor) (x : extra_state) : run extra_state :=
  if csize fb <? 8 then Val x
  else
    let! (mtime, fb) := Read 4 m (Discard 4 fb).2 in
    let f := set_time (xfile x) (FromUnixSeconds mtime) in
    let fb := (Discard 4 fb).2 in
    if (0 <? csize fb) && (fieldTag =? unixExtraID) then
      let! l := view m (cdata fb + 4) (csize fb) in
      Val (set_xfile x (set_names f (name f) (comment f) (cstring_view l) (flags f)))
    else Val (set_xfile x f).

Definition time_field (fb : cursor) (x : extra_state) : run extra_state :=
  if csize fb <? 5 then Val x
  else
    let! (fl, fb) := Pick m fb in
    if negb (Z.land fl 1 =? 0) then let! (t, fb) := Read 4 m fb in Val (set_modified x (FromUnixSeconds t)) else Val x.

(** What follows the version and the checksum. *)
Definition unicode_text (fb : cursor) : run bytes :=
  let! (_, fb) := Pick m fb in
  let! (_, fb) := Read 4 m fb in
  let! l := view m (cdata fb) (csize fb) in Val (cstring_view l).

Definition path_field (fb : cursor) (x : extra_state) : run extra_state :=
  let f := xfile x in
  if (csize fb <? 5) || IsFileNameUTF8 f then Val x
  else let! n := unicode_text fb in Val (set_xfile x (set_names f n (comment f) (linkname f) (Z.lor (flags f) 0x800))).

Definition comment_field (fb : cursor) (x : extra_state) : run extra_state :=
  let f := xfile x in
  if csize fb <? 5 then Val x
  else let! c := unicode_text fb in Val (set_xfile x (set_names f (name f) c (linkname f) (flags f))).

Definition aes_field (fb : cursor) (x : extra_state) : run extra_state :=
  if csize fb <? 7 then Val x
  else
    let! (v, fb) := Read 2 m fb in
    let! (s, fb) := Pick m (Discard 2 fb).2 in
    let! (mt, fb) := Read 2 m fb in
    Val (set_xfile x (set_aes (xfile x) v s mt)).

Definition extra_field (fieldTag : Z) (fb : cursor) (x : extra_state) : run extra_state :=
  if fieldTag =? zip64ExtraID then zip64_field fb x
  else if fieldTag =? ntfsExtraID then ntfs_field fb x
  else if (fieldTag =? unixExtraID) || (fieldTag =? infoZipUnixExtraID) then unix_field fieldTag fb x
  else if fieldTag =? extTimeExtraID then time_field fb x
  else if fieldTag =? infoZipUnicodePathID then path_field fb x
  else if fieldTag =? infoZipUnicodeCommentExtraID then comment_field fb x
  else if fieldTag =? winzipAesExtraID then aes_field fb x
  else Val x.

Fixpoint extra_loop (fuel : nat) (extra : cursor) (x : extra_state) : run extra_state :=
  match fuel with
  | O => Endless
  | S fuel =>
      if csize extra <? 4 then Val x
      else
        let! (fieldTag, extra) := Read 2 m extra in
        let! (fieldSize, extra) := Read 2 m extra in
        if csize extra <? fieldSize then Val x
        else
          let '(fb, extra) := Sub fieldSize extra in
          let! x := extra_field fieldTag fb x in
          extra_loop fuel extra x
  end.
End Extra.

(** ** The reader *)

Record Reader := mk_reader {
  size : Z;
  baseOffset : Z;
  total_uncompressed : Z;
  total_compressed : Z;
  archive_comment : bytes;
  files : list File;
}.

Definition zero_file : File := mk_file [] [] [] 0 0 0 zero_time 0 0 0 0 0 0 0 0.

Section Reading.
Context (file : bytes) (mem : Z -> bytes).

Definition readDirectory64End (offset : Z) : run directoryEnd :=
  let! m := ReadAt file directory64EndLen offset in
  let! (sig, b) := Read 4 m (mk_cursor 0 directory64EndLen) in
  if negb (sig =? directory64EndSignature) then Failed ErrNotZip
  else
    let b := (Discard 12 b).2 in
    let! (disk, b) := Read 4 m b in
    let! (dirDisk, b) := Read 4 m b in
    let! (this, b) := Read 8 m b in
    let! (records, b) := Read 8 m b in
    let! (dsize, b) := Read 8 m b in
    let! (offs, b) := Read 8 m b in
    Val (mk_end disk dirDisk this records dsize offs).

Definition findDirectory64End (directoryEndOffset : Z) : run Z :=
  let locOffset := directoryEndOffset - directory64LocLen in
  if locOffset <? 0 then Val (-1)
  else
    let! m := ReadAt file directory64LocLen locOffset in
    let! (sig, b) := Read 4 m (mk_cursor 0 directory64LocLen) in
    if negb (sig =? directory64LocSignature) then Val (-1)
    else
      let! (disk, b) := Read 4 m b in
      if negb (disk =? 0) then Val (-1)
      else
        let! (p, b) := Read 8 m b in
        let! (disks, b) := Read 4 m b in
        if negb (disks =? 1) then Val (-1) else Val (i64 p).

(** The loop over [offrange]: the block, the place of the record in it and its
    offset in the file. *)
Fixpoint find_end (ranges : list Z) (size : Z) : run (bytes * Z * Z) :=
  match ranges with
  | [] => Failed ErrNotZip
  | r :: ranges =>
      let blen := Z.min r size in
      let! b := ReadAt file blen (size - blen) in
      let! p := findSignatureInBlock b in
      if p >=? 0 then Val (b, p, size - blen + p)
      else if (match ranges with [] => true | _ => false end) || (blen =? size) then Failed ErrNotZip
      else find_end ranges size
  end.

Definition offrange : list Z := [1024; 65 * 1024].

Definition readDirectoryEnd (size : Z) : run (directoryEnd * bytes) :=
  let! (m, p, directoryEndOffset) := find_end offrange size in
  let '(left_, b) := Discard 4 (mk_cursor p (zlen m - p)) in
  if left_ <? 18 then Failed ErrNotZip
  else
    let! (disk, b) := Read 2 m b in
    let! (dirDisk, b) := Read 2 m b in
    let! (this, b) := Read 2 m b in
    let! (records, b) := Read 2 m b in
    let! (dsize, b) := Read 4 m b in
    let! (offs, b) := Read 4 m b in
    let! (commentLen, b) := Read 2 m b in
    if commentLen >? csize b then Failed ErrCommentLength
    else
      let! c := view m (cdata b) commentLen in
      let d := mk_end disk dirDisk this records dsize offs in
      let! d :=
        if (records =? 0xFFFF) || (dsize =? 0xFFFF) || (offs =? 0xFFFFFFFF) then
          let! p := findDirectory64End directoryEndOffset in
          if p >? 0 then readDirectory64End p else Val d
        else Val d in
      if (i64 (directoryOffset d) <? 0) || (0 >=? size) then Failed ErrNotZip else Val (d, cstring_view c).

Definition SizeMin : Z := 0xFFFFFFFF.
Definition OffsetMin : Z := 0xFFFFFFFF.

(** What is assigned from the 46 bytes of the header, and the lengths. *)
Definition header_fields (m : bytes) : run (File * Z * Z * Z * Z * Z * Z) :=
  let! (sig, b) := Read 4 m (mk_cursor 0 directoryHeaderLen) in
  if negb (sig =? directoryHeaderSignature) then Failed ErrNotZip
  else
    let! (made, b) := Read 2 m b in
    let! (needed, b) := Read 2 m b in
    let! (fl, b) := Read 2 m b in
    let! (mt, b) := Read 2 m b in
    let! (dosTime, b) := Read 2 m b in
    let! (dosDate, b) := Read 2 m b in
    let! (crc, b) := Read 4 m b in
    let! (csz, b) := Read 4 m b in
    let! (usz, b) := Read 4 m b in
    let! (filenameLen, b) := Read 2 m b in
    let! (extraLen, b) := Read 2 m b in
    let! (commentLen, b) := Read 2 m b in
    let! (externalAttrs, b) := Read 4 m (Discard 4 b).2 in
    let! (pos, b) := Read 4 m b in
    Val (mk_file [] [] [] csz usz pos zero_time crc 0 made needed fl mt 0 0, dosTime, dosDate, filenameLen, extraLen, commentLen, externalAttrs).

Definition readDirectoryHeader (r : bufio) (buffer : bytes) : run (File * bufio * bytes) :=
  let! (h, r) := ReadFull file r (replicate (Z.to_nat directoryHeaderLen) 0) in
  let! (f, dosTime, dosDate, filenameLen, extraLen, commentLen, externalAttrs) := header_fields h in
  let totallen := filenameLen + extraLen + commentLen in
  let buffer := grow mem buffer totallen in
  let! (data, r) := ReadFull file r (slice 0 totallen buffer) in
  let buffer := data ++ from totallen buffer in
  let! n := view buffer 0 filenameLen in
  let! c := if commentLen =? 0 then Val [] else view buffer (filenameLen + extraLen) commentLen in
  let f := set_names f (cstring_view n) (cstring_view c) [] (flags f) in
  let f := set_mode f (resolveFileMode f externalAttrs) in
  let x := mk_extra f (uncompressed_size f =? SizeMin) (compressed_size f =? SizeMin) (position f =? OffsetMin) zero_time in
  let! x := extra_loop buffer (extra_fuel buffer) (mk_cursor filenameLen extraLen) x in
  let f := set_time (xfile x) (FromDosDateTime dosDate dosTime) in
  let f := if negb (ToUnixSeconds (modified x) =? 0) then set_time f (modified x) else f in
  if needSize x || needOffset x then Failed ErrNotZip else Val (f, r, buffer).

(** The loop of [Initialize]: the two sums are [int64_t]. *)
Fixpoint read_headers (n : nat) (r : bufio) (buffer : bytes) (u c : Z) (fs : list File) : run (Z * Z * list File) :=
  match n with
  | O => Val (u, c, fs)
  | S n =>
      let! (f, r, buffer) := readDirectoryHeader r buffer in
      read_headers n r buffer (i64 (u64 (u + uncompressed_size f))) (i64 (u64 (c + compressed_size f))) (fs ++ [f])
  end.

Definition Initialize (size baseOffset : Z) : run Reader :=
  let! (d, c) := readDirectoryEnd size in
  if directoryRecords d >? u64 size / fileHeaderLen then Failed ErrImpossible
  else
    let start := i64 (u64 (directoryOffset d + baseOffset)) in
    if start <? 0 then Failed ErrRead
    else
      let! (u, cs, fs) := read_headers (Z.to_nat (directoryRecords d)) (new_bufio start) (grow mem [] (64 * 1024)) 0 0 [] in
      Val (mk_reader size baseOffset u cs c fs).

(** ** [decompress.cc]

    The writer is a function of what was written and of the next bytes; the
    result is what was written.  [codec]: the decompressors, on the file from a
    position on. *)
Section Decompress.
Context (codec : File -> Z -> run bytes) (accepts : bytes -> bytes -> bool).

Definition ZIP_STORE : Z := 0.
Definition codec_methods : list Z := [8; 9; 20; 93; 14; 95; 12; 98; 121].

Fixpoint store_loop (fuel : nat) (pos csize : Z) (out : bytes) : run bytes :=
  match fuel with
  | O => Endless
  | S fuel =>
      if csize =? 0 then Val out
      else
        let minsize := Z.min csize 4096 in
        let! data := ReadAt file minsize pos in
        if negb (accepts out data) then Failed ErrRefused
        else store_loop fuel (pos + minsize) (csize - minsize) (out ++ data)
  end.

Definition Decompress (r : Reader) (f : File) : run bytes :=
  let realPosition := u64 (position f + baseOffset r) in
  let! m := ReadAt file fileHeaderLen (i64 realPosition) in
  let! (sig, b) := Read 4 m (mk_cursor 0 fileHeaderLen) in
  if negb (sig =? fileHeaderSignature) then Failed ErrNotZip
  else
    let b := (Discard 22 b).2 in
    let! (filenameLen, b) := Read 2 m b in
    let! (extraLen, b) := Read 2 m b in
    let position := i64 (u64 (realPosition + fileHeaderLen + filenameLen + extraLen)) in
    if position <? 0 then Failed ErrRead
    else if method f =? ZIP_STORE then store_loop (S (Z.to_nat (compressed_size f))) position (compressed_size f) []
    else if bool_decide (method f ∈ codec_methods) then codec f position
    else Failed ErrMethod.
End Decompress.
End Reading.
