(* ===== verification/ZipRoundtrip.v ===== *)
(** * Reading the archives that the Zip format describes

    A reference writer, made from the layout in the comments of
    [lib/archive/zip/zip.cc], and the proof that the reader gives back what it
    wrote: the end of the directory is found behind any comment that does not
    imitate it, every directory header becomes its entry, and every entry leads to
    its data.  The directory headers have no extra fields: what the reader does with
    those is shown by examples at the end. *)

From Stdlib Require Import ZArith Lia String.
From stdpp Require Import list.
From S2P Require Import Prelude CxxString TarHeader BelaIo BelaTime Zip.
Import (notations) ListNotations.

Open Scope Z_scope.

(** ** Fields of little-endian numbers *)

Definition pack (fs : list (nat * Z)) : bytes := concat (map (fun f => le_bytes f.1 f.2) fs).

Definition widths (fs : list (nat * Z)) : Z := fold_right (fun f n => Z.of_nat f.1 + n) 0 fs.

Definition field_ok (f : nat * Z) : Prop := 0 <= f.2 < 256 ^ Z.of_nat f.1.

Lemma pack_length fs : zlen (pack fs) = widths fs.
Proof.
  induction fs as [|[w v] fs IH]; [reflexivity|]. change (pack ((w, v) :: fs)) with (le_bytes w v ++ pack fs).
  change (widths ((w, v) :: fs)) with (Z.of_nat w + widths fs). rewrite length_app, le_bytes_length. lia.
Qed.

Lemma widths_nonneg fs : 0 <= widths fs.
Proof. rewrite <- pack_length. lia. Qed.

(** The cursor stands before the fields [fs]. *)
Definition before (m : bytes) (c : cursor) (fs : list (nat * Z)) : Prop :=
  exists pre rest, m = pre ++ pack fs ++ rest /\ cdata c = zlen pre /\ widths fs <= csize c < 18446744073709551616 /\ Forall field_ok fs.

Lemma Read_field m c w v fs : before m c ((w, v) :: fs) ->
  exists c', Read (Z.of_nat w) m c = Val (v, c') /\ before m c' fs /\ cdata c' = cdata c + Z.of_nat w /\ csize c' = csize c - Z.of_nat w.
Proof.
  intros (pre & rest & -> & Hd & Hs & Hok). apply Forall_cons in Hok as [Hv Hok]. destruct c as [d s]. cbn [cdata csize fst snd] in *. subst d. pose proof (widths_nonneg fs) as Hw.
  change (pack ((w, v) :: fs)) with (le_bytes w v ++ pack fs). change (widths ((w, v) :: fs)) with (Z.of_nat w + widths fs) in Hs.
  rewrite <- (app_assoc (le_bytes w v)). eexists. split; [apply Read_app; [exact Hv|lia]|]. split; [|now split].
  exists (pre ++ le_bytes w v), rest. rewrite <- app_assoc. cbn [cdata csize]. rewrite length_app, le_bytes_length. split_and!; auto; lia.
Qed.

Lemma Discard_fields m c fs1 fs2 : before m c (fs1 ++ fs2) -> widths fs1 < csize c ->
  exists c', (Discard (widths fs1) c).2 = c' /\ before m c' fs2 /\ cdata c' = cdata c + widths fs1 /\ csize c' = csize c - widths fs1.
Proof.
  intros (pre & rest & -> & Hd & Hs & Hok) Hn. apply Forall_app in Hok as [_ Hok]. unfold Discard.
  destruct (Z.geb_spec (widths fs1) (csize c)); [lia|]. eexists. split; [reflexivity|]. split; [|now split].
  unfold pack in *. rewrite map_app, concat_app in *. exists (pre ++ pack fs1), rest. cbn [snd cdata csize].
  assert (widths (fs1 ++ fs2) = widths fs1 + widths fs2) as Hw.
  { rewrite <- !pack_length. unfold pack. rewrite map_app, concat_app, length_app. lia. }
  rewrite length_app, <- !app_assoc. pose proof (pack_length fs1). pose proof (widths_nonneg fs1). unfold pack in *. split_and!; auto; lia.
Qed.

(** The next field is read; the fields [fs] are skipped.  [Hs] is the size that is
    left. *)
Ltac read_next H Hs :=
  let c' := fresh "c" in let E := fresh "E" in let H2 := fresh "Hb" in let Hd := fresh "Hd" in let Hs2 := fresh "Hs" in
  lazymatch type of H with before ?m ?c ((?w, ?v) :: _) =>
    destruct (Read_field m c w v _ H) as (c' & E & H2 & Hd & Hs2);
    let n := eval vm_compute in (Z.of_nat w) in change (Z.of_nat w) with n in E, Hd, Hs2
  end;
  rewrite E; clear E H; rename H2 into H; rewrite Hs in Hs2; clear Hs; rename Hs2 into Hs; cbn [run_bind].

Ltac skip_fields H Hs fs :=
  let c' := fresh "c" in let E := fresh "E" in let H2 := fresh "Hb" in let Hd := fresh "Hd" in let Hs2 := fresh "Hs" in
  lazymatch type of H with before ?m ?c _ => destruct (Discard_fields m c fs _ H) as (c' & E & H2 & Hd & Hs2); [rewrite Hs; cbn; lia|] end;
  let n := eval vm_compute in (widths fs) in change (widths fs) with n in E, Hd, Hs2;
  rewrite E; clear E H; rename H2 into H; rewrite Hs in Hs2; clear Hs; rename Hs2 into Hs.

(** ** The writer *)

Record entry := mk_entry {
  e_name : bytes;
  e_comment : bytes;
  e_data : bytes;
  e_method : Z;
  e_usize : Z;
  e_made : Z;
  e_needed : Z;
  e_flags : Z;
  e_time : Z;
  e_date : Z;
  e_crc : Z;
  e_attrs : Z;
  e_local_extra : bytes;
}.

Definition local_fields (e : entry) : list (nat * Z) :=
  [(4%nat, fileHeaderSignature); (2%nat, e_needed e); (2%nat, e_flags e); (2%nat, e_method e); (2%nat, e_time e); (2%nat, e_date e);
   (4%nat, e_crc e); (4%nat, zlen (e_data e)); (4%nat, e_usize e); (2%nat, zlen (e_name e)); (2%nat, zlen (e_local_extra e))].

Definition local_entry (e : entry) : bytes := pack (local_fields e) ++ e_name e ++ e_local_extra e ++ e_data e.

Definition central_fields (e : entry) (offset : Z) : list (nat * Z) :=
  [(4%nat, directoryHeaderSignature); (2%nat, e_made e); (2%nat, e_needed e); (2%nat, e_flags e); (2%nat, e_method e); (2%nat, e_time e);
   (2%nat, e_date e); (4%nat, e_crc e); (4%nat, zlen (e_data e)); (4%nat, e_usize e); (2%nat, zlen (e_name e)); (2%nat, 0);
   (2%nat, zlen (e_comment e)); (2%nat, 0); (2%nat, 0); (4%nat, e_attrs e); (4%nat, offset)].

Definition central_entry (e : entry) (offset : Z) : bytes := pack (central_fields e offset) ++ e_name e ++ e_comment e.

(** The directory of entries of which the first one is at [offset]. *)
Fixpoint central_directory (es : list entry) (offset : Z) : bytes :=
  match es with
  | [] => []
  | e :: es => central_entry e offset ++ central_directory es (offset + zlen (local_entry e))
  end.

Definition local_entries (es : list entry) : bytes := concat (map local_entry es).

Definition end_fields (n dirsize diroffset clen : Z) : list (nat * Z) :=
  [(4%nat, 0x06054b50); (2%nat, 0); (2%nat, 0); (2%nat, n); (2%nat, n); (4%nat, dirsize); (4%nat, diroffset); (2%nat, clen)].

Definition end_record (es : list entry) (cmt : bytes) : bytes :=
  pack (end_fields (zlen es) (zlen (central_directory es 0)) (zlen (local_entries es)) (zlen cmt)) ++ cmt.

Definition archive (es : list entry) (cmt : bytes) : bytes := local_entries es ++ central_directory es 0 ++ end_record es cmt.

(** What the reader makes of an entry. *)
Definition entry_file (e : entry) (offset : Z) : File :=
  let f := mk_file (e_name e) (e_comment e) [] (zlen (e_data e)) (e_usize e) offset (FromDosDateTime (e_date e) (e_time e)) (e_crc e) 0
    (e_made e) (e_needed e) (e_flags e) (e_method e) 0 0 in
  set_mode f (resolveFileMode f (e_attrs e)).

Fixpoint entry_files (es : list entry) (offset : Z) : list File :=
  match es with
  | [] => []
  | e :: es => entry_file e offset :: entry_files es (offset + zlen (local_entry e))
  end.

(** Fields that fit and do not announce Zip64 values; names without a zero byte. *)
Record entry_ok (e : entry) : Prop := {
  ok_u16 : 0 <= e_method e < 65536 /\ 0 <= e_made e < 65536 /\ 0 <= e_needed e < 65536 /\ 0 <= e_flags e < 65536 /\
    0 <= e_time e < 65536 /\ 0 <= e_date e < 65536;
  ok_u32 : is_u32 (e_usize e) /\ is_u32 (e_crc e) /\ is_u32 (e_attrs e);
  ok_sizes : zlen (e_name e) < 65536 /\ zlen (e_comment e) < 65536 /\ zlen (e_local_extra e) < 65536 /\ zlen (e_data e) < 0xFFFFFFFF;
  ok_names : 0 ∉ e_name e /\ 0 ∉ e_comment e;
}.

Record archive_ok (es : list entry) (cmt : bytes) : Prop := {
  ok_entries : Forall entry_ok es;
  ok_count : zlen es < 0xFFFF;
  ok_offset : zlen (local_entries es) < 0xFFFFFFFF;
  ok_dirsize : zlen (central_directory es 0) < 4294967296 /\ zlen (central_directory es 0) <> 0xFFFF;
  ok_comment : zlen cmt < 65536 /\ 0 ∉ cmt;
  ok_unique : findSignatureInBlock (end_record es cmt) = Val 0;
}.

(** ** Directory headers *)

Lemma central_fields_ok e offset : entry_ok e -> 0 <= offset < 4294967296 -> Forall field_ok (central_fields e offset).
Proof.
  intros [H16 H32 (Hn & Hc & He & Hd) _] Ho. unfold is_u32 in *.
  unfold central_fields, directoryHeaderSignature. repeat (apply List.Forall_cons; [unfold field_ok; cbn; lia|]). apply List.Forall_nil.
Qed.

Lemma header_fields_spec e offset : entry_ok e -> 0 <= offset < 4294967296 ->
  header_fields (pack (central_fields e offset)) = Val (mk_file [] [] [] (zlen (e_data e)) (e_usize e) offset zero_time (e_crc e) 0
    (e_made e) (e_needed e) (e_flags e) (e_method e) 0 0, e_time e, e_date e, zlen (e_name e), 0, zlen (e_comment e), e_attrs e).
Proof.
  intros He Ho. assert (before (pack (central_fields e offset)) (mk_cursor 0 directoryHeaderLen) (central_fields e offset)) as H.
  { exists [], []. rewrite app_nil_r. split_and!; [reflexivity|reflexivity|vm_compute; discriminate|vm_compute; reflexivity|now apply central_fields_ok]. }
  unfold header_fields. remember (pack _) as m eqn:Em. clear Em. unfold central_fields in H.
  assert (csize (mk_cursor 0 directoryHeaderLen) = 46) as Hs by reflexivity.
  read_next H Hs. rewrite Z.eqb_refl. cbn [negb]. do 12 read_next H Hs. skip_fields H Hs [(2%nat, 0); (2%nat, 0)]. do 2 read_next H Hs. reflexivity.
Qed.

Section Reading.
Context (file : bytes) (mem : Z -> bytes) (Hmem : forall n, 0 <= n -> zlen (mem n) = n).

Lemma grow_spec b n : 0 <= n -> n <= zlen (grow mem b n).
Proof using Hmem. intros Hn. unfold grow. destruct (Z.leb_spec n (zlen b)); [assumption|]. rewrite Hmem; lia. Qed.

Lemma directory_header_spec e offset r buffer p : entry_ok e -> 0 <= offset < OffsetMin -> feeds file r (central_entry e offset ++ p) ->
  exists r' buffer', readDirectoryHeader file mem r buffer = Val (entry_file e offset, r', buffer') /\ feeds file r' p.
Proof using Hmem.
  intros He Ho Hf. pose proof He as [_ _ (Hn & Hc & _ & Hd) [Nn Nc]]. unfold OffsetMin in *. unfold readDirectoryHeader.
  assert (zlen (pack (central_fields e offset)) = directoryHeaderLen) as Hl by (rewrite pack_length; reflexivity).
  unfold central_entry in Hf. rewrite <- !app_assoc in Hf.
  destruct (bufio_full_spec file r _ (replicate (Z.to_nat directoryHeaderLen) 0) Hf) as (r1 & E1 & Hf1).
  { rewrite length_replicate, length_app. change (Z.of_nat (Z.to_nat directoryHeaderLen)) with directoryHeaderLen. lia. }
  rewrite E1. cbn [run_bind]. clear E1. rewrite length_replicate in *.
  assert (Z.to_nat directoryHeaderLen = length (pack (central_fields e offset))) as El by lia. rewrite El in *. rewrite take_app_length, drop_app_length in *.
  rewrite header_fields_spec by (assumption || lia). cbn [run_bind]. set (total := zlen (e_name e) + 0 + zlen (e_comment e)).
  pose proof (grow_spec buffer total ltac:(lia)) as Hg. set (b := grow mem buffer total) in *. clearbody b.
  assert (length (slice 0 total b) = length (e_name e ++ e_comment e)) as Hlen.
  { pose proof (length_slice b 0 total ltac:(lia) ltac:(lia) ltac:(lia)). rewrite length_app. lia. }
  rewrite app_assoc in Hf1.
  destruct (bufio_full_spec file r1 _ (slice 0 total b) Hf1) as (r2 & E2 & Hf2); [rewrite Hlen, !length_app; lia|].
  rewrite E2. cbn [run_bind]. clear E2. rewrite Hlen in *. rewrite take_app_length, drop_app_length in *. rewrite <- app_assoc.
  rewrite (view_app [] (e_name e) (e_comment e ++ from total b)) by reflexivity. cbn [run_bind].
  assert ((if zlen (e_comment e) =? 0 then Val [] else view (e_name e ++ e_comment e ++ from total b) (zlen (e_name e) + 0) (zlen (e_comment e))) = Val (e_comment e)) as ->.
  { destruct (Z.eqb_spec (zlen (e_comment e)) 0); [now destruct (e_comment e)|]. apply view_app; lia. }
  cbn [run_bind]. rewrite !cstring_view_id by assumption. cbn [extra_loop extra_fuel csize Z.ltb]. cbv zeta.
  change (0 <? 4) with true. cbn [run_bind xfile modified needSize needOffset]. cbn [compressed_size position set_mode set_names set_time].
  unfold SizeMin, OffsetMin. rewrite !(proj2 (Z.eqb_neq _ _)) by lia. cbn [orb]. eexists _, _. split; [reflexivity|exact Hf2].
Qed.

(** The sums are those of 64-bit integers. *)
Definition wrapped_sum (g : File -> Z) (fs : list File) (z : Z) : Z := fold_left (fun s f => i64 (u64 (s + g f))) fs z.

Lemma headers_spec es : forall offset r buffer u c fs p, Forall entry_ok es -> 0 <= offset ->
  offset + zlen (local_entries es) < OffsetMin -> feeds file r (central_directory es offset ++ p) ->
  read_headers file mem (length es) r buffer u c fs =
    Val (wrapped_sum uncompressed_size (entry_files es offset) u, wrapped_sum compressed_size (entry_files es offset) c, fs ++ entry_files es offset).
Proof using Hmem.
  induction es as [|e es IH]; intros offset r buffer u c fs p He Ho Hlt Hf; [cbn; now rewrite app_nil_r|].
  apply Forall_cons in He as [He Hes]. change (local_entries (e :: es)) with (local_entry e ++ local_entries es) in Hlt. rewrite length_app in Hlt.
  cbn [central_directory] in Hf. rewrite <- app_assoc in Hf.
  destruct (directory_header_spec e offset r buffer _ He ltac:(lia) Hf) as (r' & buffer' & E & Hf'). cbn [length read_headers]. rewrite E. cbn [run_bind].
  rewrite (IH (offset + zlen (local_entry e)) _ _ _ _ _ _ Hes ltac:(lia) ltac:(lia) Hf'). cbn [entry_files]. now rewrite <- app_assoc.
Qed.

End Reading.

(** ** The end of the directory *)

Lemma load_app (a b : bytes) i : 0 <= i -> load (a ++ b) (zlen a + i) = load b i.
Proof.
  intros Hi. unfold load, in_range. rewrite byte_at_app by lia. rewrite (proj2 (Z.ltb_ge (_ + _) _)) by lia.
  replace (zlen a + i - zlen a) with i by lia. rewrite length_app.
  replace (zlen a + i + 1 <=? Z.of_nat (length a + length b)) with (i + 1 <=? zlen b) by (destruct (Z.leb_spec (i + 1) (zlen b)); symmetry; [apply Z.leb_le|apply Z.leb_gt]; lia).
  now rewrite !(proj2 (Z.leb_le 0 _)) by lia.
Qed.

Lemma match_at_app (a b : bytes) sig : forall i, 0 <= i -> match_at (a ++ b) (zlen a + i) sig = match_at b i sig.
Proof.
  induction sig as [|s sig IH]; intros i Hi; [reflexivity|]. cbn [match_at]. rewrite load_app by exact Hi.
  destruct (load b i); cbn [run_bind]; try reflexivity. case_if; [|reflexivity]. rewrite <- IH by lia. f_equal. lia.
Qed.

(** The record that is found does not depend on what is before it. *)
Definition shifted (k : Z) (r : run Z) : run Z := match r with Val p => Val (if p <? 0 then p else k + p) | e => e end.

Lemma find_from_app (a b : bytes) n : forall i, i + 1 = Z.of_nat n -> forall p, 0 <= p -> find_from n b i = Val p ->
  forall k, find_from (n + k) (a ++ b) (zlen a + i) = Val (zlen a + p).
Proof.
  induction n as [|n IH]; intros i Hi p Hp; [cbn; intros [= <-]; lia|]. intros H k. cbn [find_from Nat.add] in *.
  rewrite match_at_app by lia. destruct (match_at b i end_signature) as [[|]|e| |]; cbn [run_bind] in *; try discriminate.
  - replace (zlen a + i + directoryEndLen - 2) with (zlen a + (i + directoryEndLen - 2)) by lia.
    replace (zlen a + i + directoryEndLen - 1) with (zlen a + (i + directoryEndLen - 1)) by lia. unfold directoryEndLen in *.
    rewrite !load_app by lia. destruct (load b (i + 22 - 2)) as [lo|e| |]; cbn [run_bind] in *; try discriminate.
    destruct (load b (i + 22 - 1)) as [hi|e| |]; cbn [run_bind] in *; try discriminate. rewrite length_app.
    set (x := Z.lor lo _) in *. replace (x + 22 + (zlen a + i) <=? Z.of_nat (length a + length b)) with (x + 22 + i <=? zlen b)
      by (destruct (Z.leb_spec (x + 22 + i) (zlen b)); symmetry; [apply Z.leb_le|apply Z.leb_gt]; lia).
    destruct (x + 22 + i <=? zlen b); [now injection H as ->|].
    replace (zlen a + i - 1) with (zlen a + (i - 1)) by lia. apply (IH (i - 1) ltac:(lia) p Hp H).
  - replace (zlen a + i - 1) with (zlen a + (i - 1)) by lia. apply (IH (i - 1) ltac:(lia) p Hp H).
Qed.

(** In a block that begins behind the record nothing is found. *)
Lemma find_from_behind (a b : bytes) n : 0 < zlen a -> forall i, i + 1 = Z.of_nat n -> forall k, find_from (n + k) (a ++ b) (zlen a + i) = Val 0 ->
  find_from n b i = Val (-1).
Proof.
  intros Ha. induction n as [|n IH]; intros i Hi k; [reflexivity|]. intros H. cbn [find_from Nat.add] in *.
  rewrite match_at_app in H by lia. destruct (match_at b i end_signature) as [[|]|e| |]; cbn [run_bind] in *; try discriminate.
  - replace (zlen a + i + directoryEndLen - 2) with (zlen a + (i + directoryEndLen - 2)) in H by lia.
    replace (zlen a + i + directoryEndLen - 1) with (zlen a + (i + directoryEndLen - 1)) in H by lia. unfold directoryEndLen in *.
    rewrite !load_app in H by lia. destruct (load b (i + 22 - 2)) as [lo|e| |]; cbn [run_bind] in *; try discriminate.
    destruct (load b (i + 22 - 1)) as [hi|e| |]; cbn [run_bind] in *; try discriminate. rewrite length_app in H.
    set (x := Z.lor lo _) in *. destruct (Z.leb_spec (x + 22 + i) (zlen b)).
    + rewrite (proj2 (Z.leb_le _ _)) in H by lia. injection H as H. lia.
    + rewrite (proj2 (Z.leb_gt _ _)) in H by lia. replace (zlen a + i - 1) with (zlen a + (i - 1)) in H by lia. apply (IH (i - 1) ltac:(lia) k H).
  - replace (zlen a + i - 1) with (zlen a + (i - 1)) in H by lia. apply (IH (i - 1) ltac:(lia) k H).
Qed.

Lemma find_in_block a t : findSignatureInBlock t = Val 0 -> 22 <= zlen t -> findSignatureInBlock (a ++ t) = Val (zlen a).
Proof.
  unfold findSignatureInBlock, directoryEndLen. intros H Ht. rewrite length_app.
  replace (Z.of_nat (length a + length t) - 22) with (zlen a + (zlen t - 22)) by lia.
  replace (Z.to_nat (zlen a + (zlen t - 22) + 1)) with (Z.to_nat (zlen t - 22 + 1) + length a)%nat by lia.
  rewrite (find_from_app a t (Z.to_nat (zlen t - 22 + 1)) (zlen t - 22) ltac:(lia) 0 ltac:(lia) H). f_equal. lia.
Qed.

Lemma find_in_comment a b : findSignatureInBlock (a ++ b) = Val 0 -> 0 < zlen a -> 22 <= zlen b -> findSignatureInBlock b = Val (-1).
Proof.
  unfold findSignatureInBlock, directoryEndLen. intros H Ha Hb. rewrite length_app in H.
  replace (Z.of_nat (length a + length b) - 22) with (zlen a + (zlen b - 22)) in H by lia.
  replace (Z.to_nat (zlen a + (zlen b - 22) + 1)) with (Z.to_nat (zlen b - 22 + 1) + length a)%nat in H by lia.
  exact (find_from_behind a b (Z.to_nat (zlen b - 22 + 1)) Ha (zlen b - 22) ltac:(lia) _ H).
Qed.

Lemma i64_small z : 0 <= z < 9223372036854775808 -> i64 z = z.
Proof. intros Hz. unfold i64. rewrite u64_small by (unfold is_u64; lia). now rewrite (proj2 (Z.ltb_lt _ _)) by lia. Qed.

Section End.
Context (file x t : bytes) (Hfile : file = x ++ t) (Ht : 22 <= zlen t <= 65557) (Hsig : findSignatureInBlock t = Val 0).

Lemma last_block r : zlen t <= r -> let blen := Z.min r (zlen file) in
  exists a, ReadAt file blen (zlen file - blen) = Val (a ++ t) /\ zlen a = blen - zlen t /\ findSignatureInBlock (a ++ t) = Val (zlen a).
Proof using Hfile Ht Hsig.
  intros Hr blen. assert (zlen file = zlen x + zlen t) as Hl by (rewrite Hfile, length_app; lia).
  assert (0 <= zlen file - blen <= zlen x) as Hk by lia. exists (from (zlen file - blen) x). unfold from.
  split; [|split; [rewrite length_drop; lia|now apply find_in_block]].
  apply (ReadAt_app file (take (Z.to_nat (zlen file - blen)) x) _ []).
  - rewrite app_nil_r, app_assoc, take_drop. exact Hfile.
  - rewrite length_take. lia.
  - rewrite length_app, length_drop. lia.
Qed.

Lemma find_end_spec : exists a, find_end file offrange (zlen file) = Val (a ++ t, zlen a, zlen x).
Proof using Hfile Ht Hsig.
  assert (zlen file = zlen x + zlen t) as Hl by (rewrite Hfile, length_app; lia).
  assert (forall r rs, zlen t <= r -> exists a, find_end file (r :: rs) (zlen file) = Val (a ++ t, zlen a, zlen x)) as Hfound.
  { intros r rs Hr. destruct (last_block r Hr) as (a & E1 & Ha & E2). cbv zeta in *. exists a. cbn [find_end]. rewrite E1. cbn [run_bind].
    rewrite E2. cbn [run_bind]. rewrite (proj2 (Z.geb_le _ _)) by lia. do 2 f_equal. lia. }
  unfold offrange. destruct (Z.leb_spec (zlen t) 1024) as [Hle|Hgt]; [now apply Hfound|].
  destruct (Hfound (65 * 1024) [] ltac:(lia)) as [a Ha]. exists a. rewrite <- Ha. cbn [find_end]. rewrite (Z.min_l 1024) by lia.
  set (k := Z.to_nat (zlen t - 1024)).
  assert (ReadAt file 1024 (zlen file - 1024) = Val (drop k t)) as ->.
  { apply (ReadAt_app file (x ++ take k t) _ []); [rewrite app_nil_r, <- app_assoc, take_drop; exact Hfile|rewrite length_app, length_take; lia|rewrite length_drop; lia]. }
  cbn [run_bind]. rewrite (find_in_comment (take k t)); [|now rewrite take_drop|rewrite length_take; lia|rewrite length_drop; lia].
  cbn [run_bind]. rewrite (proj2 (Z.eqb_neq 1024 _)) by lia. reflexivity.
Qed.

End End.

Lemma end_fields_ok es cmt : archive_ok es cmt ->
  Forall field_ok (end_fields (zlen es) (zlen (central_directory es 0)) (zlen (local_entries es)) (zlen cmt)).
Proof.
  intros [_ Hn Ho [Hd _] [Hc _] _]. unfold end_fields. repeat (apply List.Forall_cons; [unfold field_ok; cbn; lia|]). apply List.Forall_nil.
Qed.

Lemma read_end_spec file x es cmt : archive_ok es cmt -> file = x ++ end_record es cmt ->
  exists d, readDirectoryEnd file (zlen file) = Val (d, cmt) /\ directoryRecords d = zlen es /\ directoryOffset d = zlen (local_entries es).
Proof.
  intros Hok Hfile. pose proof Hok as [_ Hn Ho [Hd Hdn] [Hc Hc0] Hsig].
  assert (zlen (end_record es cmt) = 22 + zlen cmt) as Hl by (unfold end_record; rewrite length_app, Nat2Z.inj_add, pack_length; reflexivity).
  destruct (find_end_spec file x _ Hfile ltac:(lia) Hsig) as [a E]. unfold readDirectoryEnd. rewrite E. cbn [run_bind]. clear E.
  pose proof (end_fields_ok es cmt Hok) as Hfs. unfold end_record in *. set (fs := end_fields _ _ _ _) in *.
  assert (zlen (a ++ pack fs ++ cmt) = zlen a + (22 + zlen cmt)) as Hlm by (rewrite length_app; lia).
  remember (a ++ pack fs ++ cmt) as m eqn:Em. set (c0 := mk_cursor (zlen a) (zlen m - zlen a)).
  assert (before m c0 fs) as H.
  { exists a, cmt. split_and!; [exact Em|reflexivity|cbn [csize c0]; change (widths fs) with 22; lia|cbn [csize c0]; lia|exact Hfs]. }
  assert (csize c0 = 22 + zlen cmt) as Hs by (cbn; lia). assert (cdata c0 = zlen a) as Hd0 by reflexivity. clearbody c0. unfold fs, end_fields in H.
  assert (Discard 4 c0 = (csize c0 - 4, (Discard 4 c0).2)) as -> by (unfold Discard; destruct (Z.geb_spec 4 (csize c0)); [lia|reflexivity]).
  rewrite Hs. rewrite (proj2 (Z.ltb_ge _ 18)) by lia.
  skip_fields H Hs [(4%nat, 0x06054b50)]. do 7 read_next H Hs. rewrite Z.gtb_ltb, (proj2 (Z.ltb_ge _ _)) by lia.
  assert (view m (cdata c7) (zlen cmt) = Val cmt) as ->.
  { rewrite Em, app_assoc, <- (app_nil_r cmt) at 1. apply view_app; [|reflexivity].
    rewrite length_app. assert (zlen (pack fs) = 22) as Hp by (rewrite pack_length; reflexivity). lia. }
  cbn [run_bind]. rewrite !(proj2 (Z.eqb_neq _ _)) by lia. cbn [orb run_bind directoryOffset].
  assert (zlen file = zlen x + (22 + zlen cmt)) as Hlf by (rewrite Hfile, length_app; lia).
  rewrite i64_small by lia. rewrite (proj2 (Z.ltb_ge _ 0)), Z.geb_leb, (proj2 (Z.leb_gt _ _)) by lia. cbn [orb].
  eexists. split; [rewrite cstring_view_id by exact Hc0; reflexivity|]. now split.
Qed.

(** ** The whole archive *)

Lemma central_length es : forall offset, 46 * zlen es <= zlen (central_directory es offset).
Proof.
  induction es as [|e es IH]; intros offset; [cbn; lia|]. cbn [central_directory]. specialize (IH (offset + zlen (local_entry e))).
  unfold central_entry. rewrite !length_app. pose proof (pack_length (central_fields e offset)) as Hp. change (widths _) with 46 in Hp. cbn [length]. lia.
Qed.

Definition total (l : list Z) : Z := fold_right Z.add 0 l.

Lemma wrapped_sum_small g fs : forall z, 0 <= z -> Forall (fun f => 0 <= g f) fs -> z + total (map g fs) < 9223372036854775808 ->
  wrapped_sum g fs z = z + total (map g fs).
Proof.
  induction fs as [|f fs IH]; intros z Hz Hf Hs; [cbn; lia|]. apply Forall_cons in Hf as [Hg Hf].
  change (total (map g (f :: fs))) with (g f + total (map g fs)) in *.
  assert (0 <= total (map g fs)) as Ht by (clear -Hf; induction Hf; cbn; unfold total in *; lia).
  change (wrapped_sum g (f :: fs) z) with (wrapped_sum g fs (i64 (u64 (z + g f)))).
  rewrite u64_small, i64_small by (unfold is_u64; lia). rewrite IH; [lia|lia|exact Hf|lia].
Qed.

Lemma entry_files_sizes es : forall offset, map compressed_size (entry_files es offset) = map (fun e => zlen (e_data e)) es /\
  map uncompressed_size (entry_files es offset) = map e_usize es.
Proof. induction es as [|e es IH]; intros offset; [auto|]. cbn [entry_files map]. destruct (IH (offset + zlen (local_entry e))) as [-> ->]. auto. Qed.

Lemma totals_bound es : Forall entry_ok es ->
  total (map (fun e => zlen (e_data e)) es) <= zlen (local_entries es) /\ 0 <= total (map e_usize es) <= 4294967296 * zlen es.
Proof.
  induction 1 as [|e es He Hes IH]; [cbn; lia|]. change (local_entries (e :: es)) with (local_entry e ++ local_entries es).
  pose proof He as [_ (Hu & _) _ _]. unfold is_u32 in Hu. unfold total in *. cbn [map fold_right length]. unfold local_entry. rewrite !length_app. lia.
Qed.

Lemma totals_of_files es : Forall entry_ok es -> zlen es < 0xFFFF -> zlen (local_entries es) < 0xFFFFFFFF ->
  wrapped_sum compressed_size (entry_files es 0) 0 = total (map (fun e => zlen (e_data e)) es) /\
  wrapped_sum uncompressed_size (entry_files es 0) 0 = total (map e_usize es).
Proof.
  intros He Hn Ho. destruct (totals_bound es He) as [H1 H2]. destruct (entry_files_sizes es 0) as [E1 E2].
  assert (Forall (fun f => 0 <= compressed_size f) (entry_files es 0) /\ Forall (fun f => 0 <= uncompressed_size f) (entry_files es 0)) as [F1 F2].
  { clear -He. generalize 0 at 2 4. induction He as [|e es He _ IH]; intros z; [split; apply List.Forall_nil|].
    cbn [entry_files]. destruct (IH (z + zlen (local_entry e))). pose proof He as [_ (Hu & _) _ _]. unfold is_u32 in Hu. split; apply List.Forall_cons; auto; cbn; lia. }
  split; rewrite wrapped_sum_small; rewrite ?E1, ?E2; auto; lia.
Qed.

(** The place of an entry. *)
Lemma entry_place es : forall offset i e f, es !! i = Some e -> entry_files es offset !! i = Some f ->
  exists l1 l2, local_entries es = l1 ++ local_entry e ++ l2 /\ f = entry_file e (offset + zlen l1).
Proof.
  induction es as [|e0 es IH]; intros offset i e f Hi Hf; [now rewrite lookup_nil in Hi|].
  change (local_entries (e0 :: es)) with (local_entry e0 ++ local_entries es). cbn [entry_files] in Hf. destruct i as [|i];
    [change (Some e0 = Some e) in Hi; change (Some (entry_file e0 offset) = Some f) in Hf
    |change (es !! i = Some e) in Hi; change (entry_files es (offset + zlen (local_entry e0)) !! i = Some f) in Hf].
  - injection Hi as ->. injection Hf as <-. exists [], (local_entries es). split; [reflexivity|]. now rewrite Z.add_0_r.
  - destruct (IH _ i e f Hi Hf) as (l1 & l2 & -> & ->). exists (local_entry e0 ++ l1), l2. rewrite <- app_assoc. split; [reflexivity|]. f_equal. rewrite length_app. lia.
Qed.

Lemma local_fields_ok e : entry_ok e -> Forall field_ok (local_fields e).
Proof.
  intros [H16 H32 (Hn & Hc & He & Hd) _]. unfold is_u32 in *.
  unfold local_fields, fileHeaderSignature. repeat (apply List.Forall_cons; [unfold field_ok; cbn; lia|]). apply List.Forall_nil.
Qed.

Section Decompress.
Context (file : bytes) (codec : File -> Z -> run bytes) (accepts : bytes -> bytes -> bool) (Hacc : forall out data, accepts out data = true).

Lemma store_entry_spec fuel : forall a data b out, file = a ++ data ++ b -> (length data < fuel)%nat ->
  store_loop file accepts fuel (zlen a) (zlen data) out = Val (out ++ data).
Proof using Hacc.
  induction fuel as [|fuel IH]; intros a data b out Hf Hl; [lia|]. cbn [store_loop]. destruct (Z.eqb_spec (zlen data) 0) as [E|E].
  { destruct data; [now rewrite app_nil_r|discriminate]. }
  set (n := Z.to_nat (Z.min (zlen data) 4096)).
  assert (ReadAt file (Z.min (zlen data) 4096) (zlen a) = Val (take n data)) as ->.
  { apply (ReadAt_app file a _ (drop n data ++ b)); [rewrite (app_assoc (take n data)), take_drop; exact Hf|reflexivity|rewrite length_take; lia]. }
  cbn [run_bind]. rewrite Hacc. cbn [negb].
  specialize (IH (a ++ take n data) (drop n data) b (out ++ take n data)). rewrite length_app, length_take, length_drop in IH.
  replace (zlen a + Z.min (zlen data) 4096) with (Z.of_nat (length a + n `min` length data)) by lia.
  replace (zlen data - Z.min (zlen data) 4096) with (Z.of_nat (length data - n)) by lia.
  rewrite IH; [|rewrite <- app_assoc, (app_assoc (take n data)), take_drop; exact Hf|lia]. now rewrite <- app_assoc, take_drop.
Qed.

(** An entry at its place leads to its data. *)
Lemma decompress_spec r pre l1 e l2 : file = pre ++ l1 ++ local_entry e ++ l2 -> zlen file < 9223372036854775808 -> baseOffset r = zlen pre -> entry_ok e ->
  (e_method e = ZIP_STORE -> Decompress file codec accepts r (entry_file e (zlen l1)) = Val (e_data e)) /\
  (e_method e ∈ codec_methods -> exists p, Decompress file codec accepts r (entry_file e (zlen l1)) = codec (entry_file e (zlen l1)) p /\
    slice p (zlen (e_data e)) file = e_data e).
Proof using Hacc.
  intros Hfile Hlen Hbase He. unfold local_entry in Hfile. rewrite <- !app_assoc in Hfile.
  assert (zlen (pack (local_fields e)) = 30) as Hp by (rewrite pack_length; reflexivity).
  set (q := (pre ++ l1) ++ pack (local_fields e) ++ e_name e ++ e_local_extra e).
  assert (file = q ++ e_data e ++ l2) as Hq by (unfold q; rewrite Hfile, <- !app_assoc; reflexivity).
  assert (zlen q = zlen l1 + zlen pre + 30 + zlen (e_name e) + zlen (e_local_extra e)) as Hlq by (unfold q; rewrite !length_app; lia).
  assert (zlen q <= zlen file) as Hle by (rewrite Hq, (length_app q); lia).
  unfold Decompress. cbn [position entry_file set_mode]. rewrite Hbase, u64_small, i64_small by (unfold is_u64; lia).
  assert (ReadAt file fileHeaderLen (zlen l1 + zlen pre) = Val (pack (local_fields e))) as ->.
  { apply (ReadAt_app file (pre ++ l1) _ (e_name e ++ e_local_extra e ++ e_data e ++ l2)); [now rewrite Hfile, <- !app_assoc|rewrite length_app; lia|rewrite Hp; reflexivity]. }
  cbn [run_bind]. assert (before (pack (local_fields e)) (mk_cursor 0 fileHeaderLen) (local_fields e)) as H.
  { exists [], []. rewrite app_nil_r. split_and!; [reflexivity|reflexivity|vm_compute; discriminate|vm_compute; reflexivity|now apply local_fields_ok]. }
  remember (pack _) as m eqn:Em. clear Em. assert (csize (mk_cursor 0 fileHeaderLen) = 30) as Hs by reflexivity. unfold local_fields in H.
  read_next H Hs. rewrite Z.eqb_refl. cbn [negb].
  skip_fields H Hs [(2%nat, e_needed e); (2%nat, e_flags e); (2%nat, e_method e); (2%nat, e_time e); (2%nat, e_date e); (4%nat, e_crc e); (4%nat, zlen (e_data e)); (4%nat, e_usize e)].
  do 2 read_next H Hs. cbv zeta. replace (zlen l1 + zlen pre + fileHeaderLen + zlen (e_name e) + zlen (e_local_extra e)) with (zlen q) by (unfold fileHeaderLen; lia).
  rewrite u64_small, i64_small by (unfold is_u64; lia). rewrite (proj2 (Z.ltb_ge _ 0)) by lia. cbn [method compressed_size entry_file set_mode].
  split.
  - intros ->. cbn [Z.eqb ZIP_STORE]. apply (store_entry_spec _ q (e_data e) l2 [] Hq). lia.
  - intros Hm. destruct (Z.eqb_spec (e_method e) ZIP_STORE) as [E|_]; [rewrite E in Hm; unfold codec_methods, ZIP_STORE in Hm; exfalso; revert Hm; clear; rewrite !elem_of_cons, elem_of_nil; lia|].
    rewrite bool_decide_true by exact Hm. eexists. split; [reflexivity|]. rewrite Hq. apply slice_app; reflexivity.
Qed.

End Decompress.


(** An archive with a stored entry, a compressed one and a directory, behind the
    start of a program. *)
Definition sample_entry (n d : bytes) (m : Z) : entry := mk_entry n [] d m 5 0x0314 20 0 0x6c3d 0x5a21 0x3610a686 (Z.shiftl 0x81a4 16) [].
Definition sample_entries : list entry :=
  [sample_entry (str "a.txt") (str "hello") 0; sample_entry (str "b/c") [203; 72; 205; 201; 201; 7; 0] 8; sample_entry (str "b/") [] 0].
Definition sample_comment : bytes := str "sample".
Definition sample_pre : bytes := [77; 90; 0].
Definition fresh (n : Z) : bytes := replicate (Z.to_nat n) 205.

Lemma sample_entries_ok : Forall entry_ok sample_entries.
Proof.
  assert (forall n d m, zlen n < 65536 -> zlen d < 0xFFFFFFFF -> 0 <= m < 65536 -> 0 ∉ n -> entry_ok (sample_entry n d m)) as H.
  { intros n d m Hn Hd Hm H0. constructor; [cbn; lia|unfold is_u32; split_and!; try (vm_compute; (reflexivity || discriminate))|cbn; lia|]. split; [exact H0|apply not_elem_of_nil]. }
  repeat (apply List.Forall_cons; [apply H; [vm_compute; reflexivity|vm_compute; reflexivity|lia|]|]); [..|apply List.Forall_nil];
    apply (bool_decide_unpack _); vm_compute; exact I.
Qed.

Lemma sample_ok : archive_ok sample_entries sample_comment.
Proof.
  constructor; [exact sample_entries_ok|vm_compute; reflexivity|vm_compute; reflexivity|split; vm_compute; [reflexivity|discriminate]| |vm_compute; reflexivity].
  split; [vm_compute; reflexivity|]. apply (bool_decide_unpack _); vm_compute; exact I.
Qed.

Lemma fresh_length n : 0 <= n -> zlen (fresh n) = n.
Proof. intros Hn. unfold fresh. rewrite length_replicate. lia. Qed.


(** ** Any file *)

Definition comment_length (b : bytes) (i : Z) : Z := byte_at b (i + 20) + 256 * byte_at b (i + 21).

(** An end record with its comment fits at [i]. *)
Definition candidate (b : bytes) (i : Z) : Prop :=
  0 <= i /\ slice i 4 b = end_signature /\ i + directoryEndLen + comment_length b i <= zlen b.

Lemma slice_cons (b : bytes) i n : 0 <= i < zlen b -> 0 <= n -> slice i (n + 1) b = byte_at b i :: slice (i + 1) n b.
Proof.
  intros Hi Hn. unfold slice, from, byte_at. replace (Z.to_nat (i + 1)) with (S (Z.to_nat i)) by lia. replace (Z.to_nat (n + 1)) with (S (Z.to_nat n)) by lia.
  destruct (lookup_lt_is_Some_2 b (Z.to_nat i) ltac:(lia)) as [x Hx]. rewrite (drop_S b x _ Hx). cbn [take]. f_equal. symmetry. now apply nth_lookup_Some.
Qed.

Lemma match_at_spec b sig : forall i, 0 <= i -> i + zlen sig <= zlen b -> match_at b i sig = Val (bool_decide (slice i (zlen sig) b = sig)).
Proof.
  induction sig as [|s sig IH]; intros i Hi Hl; cbn [match_at length]; [reflexivity|]. cbn [length] in Hl. rewrite load_inside by lia. cbn [run_bind].
  replace (Z.of_nat (S (length sig))) with (zlen sig + 1) by lia. rewrite slice_cons by lia. rewrite IH by lia.
  destruct (Z.eqb_spec (byte_at b i) s) as [->|Hne]; [|rewrite bool_decide_false; [reflexivity|congruence]].
  f_equal. apply bool_decide_ext. split; [now intros ->|congruence].
Qed.

Lemma lor_bytes lo hi : is_byte lo -> is_byte hi -> Z.lor lo (Z.shiftl hi 8) = lo + 256 * hi.
Proof.
  unfold is_byte. intros Hl Hh. rewrite Z.shiftl_mul_pow2 by lia. rewrite Z.lor_comm. replace (lo + 256 * hi) with (hi * 2 ^ 8 + lo) by (change (2 ^ 8) with 256; lia).
  apply lor_shifted; [lia|change (2 ^ 8) with 256; lia].
Qed.

Lemma find_from_spec b n : bytes_ok b -> forall i, i + 1 = Z.of_nat n -> i + 22 <= zlen b ->
  exists p, find_from n b i = Val p /\ p <= i /\ (forall q, p < q <= i -> ~ candidate b q) /\ (p = -1 \/ candidate b p).
Proof.
  intros Hb. induction n as [|n IH]; intros i Hi Hl.
  { exists (-1). split; [reflexivity|]. split_and!; [lia|intros q Hq [H0 _]; lia|now left]. }
  cbn [find_from]. rewrite match_at_spec by (cbn; lia). cbn [run_bind]. change (zlen end_signature) with 4.
  destruct (IH (i - 1) ltac:(lia) ltac:(lia)) as (p & E & Hp & Hno & Hc).
  assert (~ candidate b i -> exists p, find_from n b (i - 1) = Val p /\ p <= i /\ (forall q, p < q <= i -> ~ candidate b q) /\ (p = -1 \/ candidate b p)) as Hnext.
  { intros Hn. exists p. split_and!; auto; [lia|]. intros q Hq. destruct (Z.eq_dec q i) as [->|]; [exact Hn|apply Hno; lia]. }
  case_bool_decide as Hs.
  - unfold directoryEndLen in *. rewrite !load_inside by lia. cbn [run_bind]. rewrite lor_bytes by now apply byte_at_ok.
    replace (i + 22 - 2) with (i + 20) by lia. replace (i + 22 - 1) with (i + 21) by lia. change (byte_at b (i + 20) + 256 * byte_at b (i + 21)) with (comment_length b i).
    destruct (Z.leb_spec (comment_length b i + 22 + i) (zlen b)).
    + exists i. split; [reflexivity|]. split_and!; [lia|lia|]. right. split_and!; [lia|exact Hs|unfold directoryEndLen; lia].
    + apply Hnext. intros (_ & _ & Hx). unfold directoryEndLen in Hx. lia.
  - apply Hnext. now intros (_ & Hx & _).
Qed.

(** C38: The search for the end of the directory: for any block, every access of
    [findSignatureInBlock] is inside the block, and its result is the last place
    where the signature stands and the record with the comment that it announces
    fits, or -1 if there is none. *)
Theorem find_signature_correct b : bytes_ok b ->
  exists p, findSignatureInBlock b = Val p /\ (forall q, p < q -> ~ candidate b q) /\ (p = -1 \/ candidate b p).
Proof.
  intros Hb. unfold findSignatureInBlock. set (i := zlen b - directoryEndLen).
  assert (forall q, i < q -> ~ candidate b q) as Hbeyond.
  { intros q Hq (H0 & _ & Hx). unfold comment_length, i in *. pose proof (byte_at_ok b (q + 20) Hb). pose proof (byte_at_ok b (q + 21) Hb). unfold is_byte in *. lia. }
  destruct (Z.leb_spec 0 (i + 1)) as [H1|H1].
  - destruct (find_from_spec b (Z.to_nat (i + 1)) Hb i ltac:(lia) ltac:(unfold i, directoryEndLen; lia)) as (p & E & Hp & Hno & Hc).
    exists p. split_and!; auto. intros q Hq. destruct (Z.leb_spec q i); [apply Hno; lia|apply Hbeyond; lia].
  - replace (Z.to_nat (i + 1)) with O by lia. exists (-1). split_and!; [reflexivity| |now left]. intros q Hq. destruct (Z.leb_spec q i); [lia|apply Hbeyond; lia].
Qed.

Lemma find_signature_correct_witness : bytes_ok [80; 75] /\
  exists p, findSignatureInBlock [80; 75] = Val p /\ (forall q, p < q -> ~ candidate [80; 75] q) /\ (p = -1 \/ candidate [80; 75] p).
Proof. assert (bytes_ok [80; 75]) as Hb by bytes_ok_tac. split; [exact Hb|]. apply (find_signature_correct [80; 75] Hb). Defined.

(** ** No access outside of the buffers *)

Lemma inside_bind {A B} (r : run A) (f : A -> run B) : inside_memory r -> (forall a, r = Val a -> inside_memory (f a)) -> inside_memory (run_bind r f).
Proof. destruct r; cbn; auto. Qed.

(** The cursor is a part of the memory. *)
Definition within (m : bytes) (c : cursor) : Prop := 0 <= cdata c /\ 0 <= csize c < 18446744073709551616 /\ cdata c + csize c <= zlen m.

Lemma Read_within w m c {B} (f : Z * cursor -> run B) : within m c -> 0 <= w <= csize c ->
  (forall v c', (bytes_ok m -> 0 <= v) -> within m c' -> csize c' = csize c - w -> inside_memory (f (v, c'))) -> inside_memory (run_bind (Read w m c) f).
Proof.
  intros (H1 & H2 & H3) Hw Hf. rewrite Read_inside by lia. cbn [run_bind]. apply Hf; [|unfold within; cbn [cdata csize]; lia|reflexivity].
  intros Hb. assert (bytes_ok (slice (cdata c) w m)) as Hs by (unfold slice, from; now apply Forall_take, Forall_drop). apply le_val_range in Hs. lia.
Qed.

Lemma Discard_within n m c : within m c -> 0 <= n < csize c -> within m (Discard n c).2 /\ csize (Discard n c).2 = csize c - n.
Proof. intros (H1 & H2 & H3) Hn. unfold Discard. destruct (Z.geb_spec n (csize c)); [lia|]. unfold within. cbn. lia. Qed.

Lemma ReadAt_inside file n pos : inside_memory (ReadAt file n pos).
Proof. unfold ReadAt. repeat case_if; exact I. Qed.

Ltac read_within Hw Hs :=
  eapply Read_within; [exact Hw|rewrite Hs; lia|]; clear Hw;
  let v := fresh "v" in let c := fresh "c" in let E := fresh "Hs" in let V := fresh "V" in intros v c V Hw E; rewrite Hs in E; clear Hs; rename E into Hs; cbn [run_bind].

Lemma directory64_inside file p : inside_memory (readDirectory64End file p).
Proof.
  unfold readDirectory64End. apply inside_bind; [apply ReadAt_inside|]. intros m Hm. apply ReadAt_length in Hm; [|unfold directory64EndLen; lia].
  assert (within m (mk_cursor 0 directory64EndLen)) as Hw by (unfold within, directory64EndLen in *; cbn [cdata csize]; lia).
  assert (csize (mk_cursor 0 directory64EndLen) = 56) as Hs by reflexivity. revert Hw Hs. generalize (mk_cursor 0 directory64EndLen). intros c Hw Hs.
  read_within Hw Hs. case_if; [exact I|]. destruct (Discard_within 12 _ _ Hw ltac:(lia)) as [Hw2 Hs2]. clear Hw. rename Hw2 into Hw. rewrite Hs in Hs2. clear Hs. rename Hs2 into Hs.
  do 6 read_within Hw Hs. exact I.
Qed.

Lemma locator_inside file p : inside_memory (findDirectory64End file p).
Proof.
  unfold findDirectory64End. cbv zeta. case_if; [exact I|]. apply inside_bind; [apply ReadAt_inside|]. intros m Hm. apply ReadAt_length in Hm; [|unfold directory64LocLen; lia].
  assert (within m (mk_cursor 0 directory64LocLen)) as Hw by (unfold within, directory64LocLen in *; cbn [cdata csize]; lia).
  assert (csize (mk_cursor 0 directory64LocLen) = 20) as Hs by reflexivity. revert Hw Hs. generalize (mk_cursor 0 directory64LocLen). intros c Hw Hs.
  read_within Hw Hs. case_if; [exact I|]. read_within Hw Hs. case_if; [exact I|]. read_within Hw Hs. read_within Hw Hs. case_if; exact I.
Qed.

(** The block that is found contains the record and its comment. *)
Lemma find_end_inside file : bytes_ok file -> forall ranges size, match find_end file ranges size with
  | Val (b, p, _) => candidate b p /\ bytes_ok b /\ zlen b <= zlen file
  | Failed _ => True
  | _ => False
  end.
Proof.
  intros Hb ranges. induction ranges as [|r ranges IH]; intros size; cbn [find_end]; [exact I|].
  destruct (ReadAt file (Z.min r size) (size - Z.min r size)) as [b|e| |] eqn:E; cbn [run_bind]; [|exact I|..];
    try (pose proof (ReadAt_inside file (Z.min r size) (size - Z.min r size)) as Hi; rewrite E in Hi; exact Hi).
  assert (bytes_ok b /\ zlen b <= zlen file) as [Hbb Hbl].
  { unfold ReadAt in E. case_if_in E; [discriminate|]. case_if_in E; [|discriminate]. injection E as <-. unfold slice, from. split; [now apply Forall_take, Forall_drop|].
    rewrite length_take, length_drop. lia. }
  unfold findSignatureInBlock. cbv zeta. destruct (Z.leb_spec 0 (zlen b - directoryEndLen + 1)).
  - destruct (find_from_spec b (Z.to_nat (zlen b - directoryEndLen + 1)) Hbb (zlen b - directoryEndLen) ltac:(lia) ltac:(unfold directoryEndLen; lia)) as (p & -> & _ & _ & Hc).
    cbn [run_bind]. destruct (Z.geb_spec p 0); [destruct Hc as [->|Hc]; [lia|split_and!; auto]|]. 
    match goal with |- context [if ?c then Failed _ else _] => destruct c end; [exact I|apply IH].
  - replace (Z.to_nat (zlen b - directoryEndLen + 1)) with O by lia. cbn [find_from run_bind]. change (-1 >=? 0) with false. cbv iota.
    match goal with |- context [if ?c then Failed _ else _] => destruct c end; [exact I|apply IH].
Qed.

(** C39: The end of the directory is read inside its buffers: for every file that
    is smaller than 2^63 bytes and every size that is given, [readDirectoryEnd] ends
    with a result or an error, and no access is outside of the block or of the
    Zip64 records. *)
Theorem directory_end_safe file size : bytes_ok file -> zlen file < 9223372036854775808 -> inside_memory (readDirectoryEnd file size).
Proof.
  intros Hb Hl. unfold readDirectoryEnd. pose proof (find_end_inside file Hb offrange size) as Hf.
  destruct (find_end file offrange size) as [[[m p] off]|e| |]; cbn [run_bind]; [|exact I|destruct Hf|destruct Hf]. destruct Hf as ((H0 & _ & Hc) & Hbm & Hm).
  assert (0 <= comment_length m p) as Hcl by (unfold comment_length; pose proof (byte_at_ok m (p + 20) Hbm); pose proof (byte_at_ok m (p + 21) Hbm); unfold is_byte in *; lia).
  unfold directoryEndLen in Hc. assert (within m (mk_cursor p (zlen m - p))) as Hw by (unfold within; cbn [cdata csize]; lia).
  assert (csize (mk_cursor p (zlen m - p)) = zlen m - p) as Hs by reflexivity. revert Hw Hs. generalize (mk_cursor p (zlen m - p)). intros c Hw Hs.
  destruct (Discard_within 4 _ _ Hw ltac:(lia)) as [Hw2 Hs2]. destruct (Discard 4 c) as [lft c1]. clear Hw. rename Hw2 into Hw. rewrite Hs in Hs2. clear Hs. rename Hs2 into Hs. cbn [snd] in *.
  case_if; [exact I|]. do 7 read_within Hw Hs. rewrite Z.gtb_ltb.
  match goal with |- context [if ?a <? ?b then _ else _] => destruct (Z.ltb_spec a b) as [_|Hv]; [exact I|] end.
  destruct Hw as (W1 & W2 & W3). specialize (V5 Hbm). rewrite view_inside by lia. cbn [run_bind].
  apply inside_bind; [|intros d _; case_if; exact I]. case_if; [|exact I]. apply inside_bind; [apply locator_inside|]. intros q _.
  case_if; [apply directory64_inside|exact I].
Qed.

Lemma directory_end_safe_witness : bytes_ok end_signature /\ inside_memory (readDirectoryEnd end_signature 4).
Proof. assert (bytes_ok end_signature) as Hb by bytes_ok_tac. split; [exact Hb|]. apply (directory_end_safe end_signature 4 Hb). reflexivity. Defined.

(** ** Extra fields

    [endian::Reader::Sub] makes the rest longer, so the loop over the extra fields
    runs on behind them. *)

Definition field (tag : Z) (content : bytes) : bytes := le_bytes 2 tag ++ le_bytes 2 (zlen content) ++ content.

(** The header of an entry with the name "a". *)
Definition extra_header (extra cmt : bytes) : bytes :=
  pack [(4%nat, directoryHeaderSignature); (2%nat, 20); (2%nat, 20); (2%nat, 0); (2%nat, 0); (2%nat, 0); (2%nat, 0); (4%nat, 0); (4%nat, 0); (4%nat, 0);
    (2%nat, 1); (2%nat, zlen extra); (2%nat, zlen cmt); (2%nat, 0); (2%nat, 0); (4%nat, 0); (4%nat, 0)] ++ str "a" ++ extra ++ cmt.

Definition read_extra (extra cmt : bytes) : run (bytes * bytes) :=
  let file := extra_header extra cmt in
  let! (f, _, _) := readDirectoryHeader file fresh (new_bufio 0) (fresh 65536) in Val (name f, linkname f).

(** A comment that looks like a field is read as one: it changes the name. *)
Example comment_is_extra : read_extra (field 0x9999 (replicate 12 0)) (field infoZipUnicodePathID (1 :: [0; 0; 0; 0] ++ str "evil")) = Val (str "evil", []).
Proof. vm_compute. reflexivity. Qed.

(** A field that ends with the buffer is followed by a read behind the buffer. *)
Example extra_outside : read_extra (field 0x9999 (replicate (Z.to_nat 65531) 0)) [] = Outside.
Proof. vm_compute. reflexivity. Qed.

(** The target of a symbolic link is taken four bytes behind its place. *)
Example unix_link_shifted : read_extra (field unixExtraID (replicate 12 0 ++ str "target")) (str "next") = Val (str "a", str "etnext").
Proof. vm_compute. reflexivity. Qed.

(** Neither the checksum of the old name nor the version is compared. *)
Example path_unchecked : read_extra (field infoZipUnicodePathID (7 :: [1; 2; 3; 4] ++ str "other")) [] = Val (str "other", []).
Proof. vm_compute. reflexivity. Qed.
