(* ===== verification/IndexPieces.v ===== *)
(** * The Index in pieces

    [lzma_index_hash_decode] ([common/index_hash.c]) may be given the Index in any
    number of calls: it ends like the call with all the bytes.  The return code, the
    input that is left and, unless there is an error, the state are the same. *)

From Stdlib Require Import ZArith Lia.
From stdpp Require Import list.
From S2P Require Import Prelude Vli Crc Check BlockHeader StreamFlags IndexHash.

#[local] Opaque lzma_crc32 lzma_check_finish lzma_check_update lzma_vli_decode.

(** What is compared of two results. *)
Definition similar (r1 r2 : lzma_ret * lzma_index_hash * bytes) : Prop :=
  r1.1.1 = r2.1.1 /\ r1.2 = r2.2 /\ (r1.1.1 = LZMA_OK \/ r1.1.1 = LZMA_STREAM_END -> r1.1.2 = r2.1.2).

Lemma similar_refl r : similar r r.
Proof. split_and!; auto. Qed.

Lemma similar_trans r1 r2 r3 : similar r1 r2 -> similar r2 r3 -> similar r1 r3.
Proof. intros (A1 & A2 & A3) (B1 & B2 & B3). split_and!; [congruence|congruence|]. intros H. rewrite A3 by exact H. apply B3. now rewrite <- A1. Qed.

(** The members that the code takes for unsigned integers. *)
Definition unsigned (h : lzma_index_hash) : Prop :=
  0 <= pos h /\ 0 <= remaining h /\ 0 <= rec_unpadded_size h /\ 0 <= rec_uncompressed_size h /\ is_u32 (crc32 h).

Lemma vli_loop_unsigned l : forall v p r v' p' rest, 0 <= v -> 0 <= p -> vli_decode_loop false v p l = (r, v', p', rest) -> 0 <= v' /\ 0 <= p'.
Proof.
  induction l as [|b l IH]; intros v p r v' p' rest Hv Hp; cbn [vli_decode_loop]; [now intros [= <- <- <- <-]|].
  pose proof (u64_range (v + u64 (Z.shiftl (Z.land b 127) (p * 7)))). repeat case_if; try (intros [= <- <- <- <-]; lia). intros E. eapply IH in E; lia.
Qed.

Lemma vli_unsigned l v p r v' p' rest : 0 <= v -> 0 <= p -> lzma_vli_decode v (Some p) l = (r, v', p', rest) -> 0 <= v' /\ 0 <= p'.
Proof.
  Transparent lzma_vli_decode. unfold lzma_vli_decode. intros Hv Hp. set (v0 := if p =? 0 then 0 else v). assert (0 <= v0) by (unfold v0; case_if; lia).
  case_if; [now intros [= <- <- <- <-]|]. destruct l; [now intros [= <- <- <- <-]|]. intros E. eapply vli_loop_unsigned; [| |exact E]; lia.
Qed.

Lemma vli_loop_rest l : forall v p r v' p' rest, bytes_ok l -> vli_decode_loop false v p l = (r, v', p', rest) -> bytes_ok rest.
Proof.
  induction l as [|b l IH]; intros v p r v' p' rest Hb; cbn [vli_decode_loop]; [now intros [= _ _ _ <-]|].
  apply Forall_cons in Hb as [_ Hb]. repeat case_if; try (intros [= _ _ _ <-]; exact Hb). eauto.
Qed.

Lemma vli_rest l v p r v' p' rest : bytes_ok l -> lzma_vli_decode v (Some p) l = (r, v', p', rest) -> bytes_ok rest.
Proof.
  unfold lzma_vli_decode. intros Hb. case_if; [now intros [= _ _ _ <-]|]. destruct l; [now intros [= _ _ _ <-]|]. eauto using vli_loop_rest.
Qed.

Lemma vli_shorter l : forall v p v' p' rest, vli_decode_loop false v p l = (LZMA_STREAM_END, v', p', rest) -> (length rest < length l)%nat.
Proof.
  induction l as [|b l IH]; intros v p v' p' rest; cbn [vli_decode_loop length]; [discriminate|]. repeat case_if; try discriminate.
  - intros [= _ _ <-]. lia.
  - intros E. apply IH in E. lia.
Qed.

Lemma vli_end_shorter l v p v' p' rest : lzma_vli_decode v (Some p) l = (LZMA_STREAM_END, v', p', rest) -> (length rest < length l)%nat.
Proof. unfold lzma_vli_decode. case_if; [discriminate|]. destruct l; [discriminate|]. apply vli_shorter. Qed.

Lemma vli_ok_empty l v p v' p' rest : lzma_vli_decode v (Some p) l = (LZMA_OK, v', p', rest) -> rest = [].
Proof.
  unfold lzma_vli_decode. case_if; [discriminate|]. destruct l as [|x l]; [discriminate|]. generalize (if p =? 0 then 0 else v). generalize (x :: l). clear. intros l.
  revert p. induction l as [|b l IH]; intros p v0; cbn [vli_decode_loop]; [congruence|]. repeat case_if; try discriminate. apply IH.
Qed.
#[local] Opaque lzma_vli_decode.

(** ** What was read counts for the CRC32 only *)

Definition absorb (h : lzma_index_hash) (used : bytes) : lzma_index_hash := set_crc32 h (lzma_crc32 used (crc32 h)).

Definition step_similar (c : Z) (u : bytes) (s1 s2 : index_step) : Prop :=
  match s1, s2 with
  | StepNext h r, StepNext h' r' => h' = absorb h u /\ r = r' /\ sequence h <> SEQ_CRC32 /\ crc32 h = c
  | StepOut ret h r, StepOut ret' h' r' => ret = ret' /\ h' = absorb h u /\ r = r' /\ crc32 h = c
  | StepReturn ret h r, StepReturn ret' h' r' => similar (ret, h, r) (ret', h', r')
  | _, _ => False
  end.

Lemma padding_similar h u used input : bytes_ok u -> bytes_ok used -> is_u32 (crc32 h) -> sequence h <> SEQ_CRC32 ->
  step_similar (crc32 h) u (step_padding h (u ++ used) input) (step_padding (absorb h u) used input).
Proof.
  intros Hu Hus Hc Hs. unfold step_padding, absorb. cbn [pos set_crc32 set_pos].
  destruct (pos h >? 0); [destruct input; [cbn; auto|case_if; cbn; auto; split_and!; cbn; auto; intros [?|?]; discriminate]|].
  change (sizes_differ (set_crc32 h (lzma_crc32 u (crc32 h)))) with (sizes_differ h). case_if; [split_and!; cbn; auto; intros [?|?]; discriminate|].
  cbn [blocks records set_crc32 set_blocks set_records]. case_if; [split_and!; cbn; auto; intros [?|?]; discriminate|].
  match goal with |- context [crc32_loop ?a input] =>
    match goal with |- context [crc32_loop ?b input] => assert_fails (unify a b);
      replace b with a by (unfold set_crc32, set_sequence, set_blocks, set_records; cbn; now rewrite <- crc32_app by assumption);
      destruct (crc32_loop a input) as [[ret h1] r] end end. apply similar_refl.
Qed.

Lemma step_absorb h u used input : bytes_ok u -> bytes_ok used -> is_u32 (crc32 h) -> sequence h <> SEQ_CRC32 ->
  step_similar (crc32 h) u (decode_step h (u ++ used) input) (decode_step (absorb h u) used input).
Proof.
  intros Hu Hus Hc Hs. unfold decode_step. change (sequence (absorb h u)) with (sequence h).
  assert (forall ret h1 h2 r, ret <> LZMA_OK -> ret <> LZMA_STREAM_END -> similar (ret, h1, r) (ret, h2, r)) as Herr by (intros; split_and!; cbn; tauto).
  unfold absorb. cbn [remaining pos rec_unpadded_size rec_uncompressed_size blocks records set_crc32].
  destruct (sequence h) eqn:E; try congruence.
  - destruct input; [cbn; split_and!; auto; congruence|]. case_if; cbn; [apply Herr; discriminate|split_and!; auto; discriminate].
  - destruct (lzma_vli_decode _ _ _) as [[[[] v] p] r]; cbn; auto. case_if; cbn; [apply Herr; discriminate|]. split_and!; auto. case_if; discriminate.
  - destruct (lzma_vli_decode _ _ _) as [[[[] v] p] r]; cbn; auto. case_if; cbn; [apply Herr; discriminate|]. split_and!; auto; discriminate.
  - destruct (lzma_vli_decode _ _ _) as [[[[] v] p] r]; cbn; auto.
    match goal with |- context [sizes_exceeded ?a] => set (ex := sizes_exceeded a) end.
    match goal with |- context [sizes_exceeded ?a] => change (sizes_exceeded a) with ex end.
    destruct ex; cbn; [apply Herr; discriminate|]. split_and!; auto. case_if; discriminate.
  - match goal with |- step_similar _ _ (step_padding ?a _ _) _ => apply (padding_similar a u used input); auto; discriminate end.
  - apply (padding_similar h u used input); auto. congruence.
Qed.

Lemma consumed_ok input rest : bytes_ok input -> bytes_ok (consumed input rest).
Proof. intros H. unfold consumed. now apply Forall_take. Qed.

Lemma out_absorb ret h x u used rest : bytes_ok (x :: u) -> bytes_ok used -> is_u32 (crc32 h) ->
  index_out ret h ((x :: u) ++ used) rest = index_out ret (absorb h (x :: u)) used rest.
Proof.
  intros Hu Hus Hc. unfold index_out, absorb. cbn [app]. destruct used as [|y used]; [now rewrite app_nil_r|].
  do 2 f_equal. change (x :: u ++ y :: used) with ((x :: u) ++ (y :: used)). rewrite crc32_app by assumption. reflexivity.
Qed.

Lemma step_bytes h used input h' rest : bytes_ok input -> decode_step h used input = StepNext h' rest -> bytes_ok rest.
Proof.
  intros Hb. assert (forall h0, step_padding h0 used input = StepNext h' rest -> bytes_ok rest) as Hpad.
  { intros h0. unfold step_padding. destruct (pos h0 >? 0).
    - destruct input as [|b i]; [congruence|]. destruct (negb (b =? 0)); [discriminate|]. apply Forall_cons in Hb. intros E. injection E as _ <-. tauto.
    - destruct (sizes_differ h0); [discriminate|]. cbv zeta. case_if; [discriminate|]. destruct (crc32_loop _ _) as [[? ?] ?]. discriminate. }
  unfold decode_step. destruct (sequence h); auto.
  - destruct input as [|b i]; [intros [= _ <-]; constructor|]. case_if; [discriminate|]. intros [= _ <-]. now apply Forall_cons in Hb.
  - destruct (lzma_vli_decode _ _ _) as [[[[] v] p] r] eqn:E; try discriminate. case_if; [discriminate|]. intros [= _ <-]. eauto using vli_rest.
  - destruct (lzma_vli_decode _ _ _) as [[[[] v] p] r] eqn:E; try discriminate. case_if; [discriminate|]. intros [= _ <-]. eauto using vli_rest.
  - destruct (lzma_vli_decode _ _ _) as [[[[] v] p] r] eqn:E; try discriminate. case_if; [discriminate|]. intros [= _ <-]. eauto using vli_rest.
  - apply Hpad.
  - apply Hpad.
  - destruct (crc32_loop h input) as [[? ?] ?]. discriminate.
Qed.

Lemma loop_absorb x u fuel : bytes_ok (x :: u) -> forall h used input, bytes_ok used -> bytes_ok input -> is_u32 (crc32 h) -> sequence h <> SEQ_CRC32 ->
  similar (decode_loop fuel h ((x :: u) ++ used) input) (decode_loop fuel (absorb h (x :: u)) used input).
Proof.
  intros Hu. induction fuel as [|fuel IH]; intros h used input Hus Hb Hc Hs.
  - destruct input; cbn [decode_loop]; rewrite out_absorb by assumption; apply similar_refl.
  - destruct input as [|b input]; [cbn [decode_loop]; rewrite out_absorb by assumption; apply similar_refl|]. cbn [decode_loop].
    pose proof (step_absorb h (x :: u) used (b :: input) Hu Hus Hc Hs) as H.
    destruct (decode_step h ((x :: u) ++ used) (b :: input)) as [h1 r1|ret1 h1 r1|ret1 h1 r1] eqn:E1,
      (decode_step (absorb h (x :: u)) used (b :: input)) as [h2 r2|ret2 h2 r2|ret2 h2 r2]; cbn [step_similar] in H; try contradiction.
    + destruct H as (-> & <- & Hs1 & Hc1). rewrite <- app_assoc. apply IH; [apply Forall_app; split; [exact Hus|now apply consumed_ok]|eapply step_bytes; eauto|congruence|exact Hs1].
    + destruct H as (<- & -> & <- & Hc1). rewrite <- app_assoc, out_absorb; [apply similar_refl|exact Hu|apply Forall_app; split; [exact Hus|now apply consumed_ok]|congruence].
    + exact H.
Qed.

(** *** More fuel than the length of the input is of no use *)

Lemma step_shorter h used b input h' rest : decode_step h used (b :: input) = StepNext h' rest -> (length rest <= length input)%nat.
Proof.
  assert (forall h0, step_padding h0 used (b :: input) = StepNext h' rest -> (length rest <= length input)%nat) as Hpad.
  { intros h0. unfold step_padding. destruct (pos h0 >? 0).
    - destruct (negb (b =? 0)); [discriminate|]. intros E. injection E as _ <-. lia.
    - destruct (sizes_differ h0); [discriminate|]. cbv zeta. case_if; [discriminate|]. destruct (crc32_loop _ _) as [[? ?] ?]. discriminate. }
  unfold decode_step. destruct (sequence h).
  - case_if; [discriminate|]. intros E. injection E as _ <-. lia.
  - destruct (lzma_vli_decode _ _ _) as [[[[] v] p] r] eqn:E; try discriminate. case_if; [discriminate|]. intros [= _ <-]. apply vli_end_shorter in E. cbn in E. lia.
  - destruct (lzma_vli_decode _ _ _) as [[[[] v] p] r] eqn:E; try discriminate. case_if; [discriminate|]. intros [= _ <-]. apply vli_end_shorter in E. cbn in E. lia.
  - destruct (lzma_vli_decode _ _ _) as [[[[] v] p] r] eqn:E; try discriminate. case_if; [discriminate|]. intros [= _ <-]. apply vli_end_shorter in E. cbn in E. lia.
  - apply Hpad.
  - apply Hpad.
  - destruct (crc32_loop h (b :: input)) as [[? ?] ?]. discriminate.
Qed.

Lemma loop_fuel fuel : forall h used input, (length input <= fuel)%nat -> decode_loop fuel h used input = decode_loop (length input) h used input.
Proof.
  induction fuel as [fuel IH] using lt_wf_ind. intros h used [|b input] Hl; [destruct fuel; reflexivity|].
  destruct fuel as [|fuel]; [cbn in Hl; lia|]. cbn [decode_loop length] in *. destruct (decode_step h used (b :: input)) as [h' r|? ? ?|? ? ?] eqn:E; auto.
  apply step_shorter in E. rewrite (IH fuel), (IH (length input)) by lia. reflexivity.
Qed.

(** ** One byte and then the others *)

Definition joined (r1 : lzma_ret * lzma_index_hash * bytes) (b : bytes) (r : lzma_ret * lzma_index_hash * bytes) : Prop :=
  let '(ret, h1, rest) := r1 in
  if bool_decide (ret = LZMA_OK) then rest = [] /\ unsigned h1 /\ similar r (lzma_index_hash_decode h1 b) else similar r (ret, h1, rest ++ b).

Lemma joined_ok h1 b r : unsigned h1 -> similar r (lzma_index_hash_decode h1 b) -> joined (LZMA_OK, h1, []) b r.
Proof. intros H1 H2. unfold joined. rewrite bool_decide_true by reflexivity. now split_and!. Qed.

Lemma index_loop_step h u y b : decode_loop (length (y :: b)) h u (y :: b) = match decode_step h u (y :: b) with
  | StepNext h' rest => decode_loop (length b) h' (u ++ consumed (y :: b) rest) rest
  | StepOut ret h' rest => index_out ret h' (u ++ consumed (y :: b) rest) rest
  | StepReturn ret h' rest => (ret, h', rest)
  end.
Proof. reflexivity. Qed.

Lemma consumed_cons x b rest : (length rest <= length b)%nat -> consumed (x :: b) rest = [x] ++ consumed b rest.
Proof. intros Hl. unfold consumed. cbn [length]. replace (S (length b) - length rest)%nat with (S (length b - length rest)) by lia. reflexivity. Qed.

(** *** An integer *)

Definition vli_step (v p : Z) (K : Z -> Z -> lzma_index_hash + lzma_index_hash) (g : Z -> Z -> lzma_index_hash) (input : bytes) : index_step :=
  match lzma_vli_decode v (Some p) input with
  | (LZMA_STREAM_END, v, p, rest) => match K v p with inl h => StepReturn LZMA_DATA_ERROR h rest | inr h => StepNext h rest end
  | (ret, v, p, rest) => StepOut ret (g v p) rest
  end.

(** The state reads an integer: [g v p] is the state with the value [v] of [p] bytes. *)
Record reads_vli (h : lzma_index_hash) (v0 p0 : Z) (K : Z -> Z -> lzma_index_hash + lzma_index_hash) (g : Z -> Z -> lzma_index_hash) : Prop := {
  reads_here u i : decode_step h u i = vli_step v0 p0 K g i;
  reads_on v p u i : decode_step (g v p) u i = vli_step v p K g i;
  reads_next v p h' : 0 <= v -> 0 <= p -> K v p = inr h' -> unsigned h' /\ crc32 h' = crc32 h /\ sequence h' <> SEQ_CRC32;
  reads_state v p : 0 <= v -> 0 <= p -> unsigned (g v p) /\ crc32 (g v p) = crc32 h /\ sequence (g v p) <> SEQ_CRC32;
}.

Lemma vli_joined h x b v0 p0 K g : reads_vli h v0 p0 K g -> unsigned h -> 0 <= v0 -> 0 <= p0 -> is_byte x -> bytes_ok b -> b <> [] ->
  joined (lzma_index_hash_decode h [x]) b (lzma_index_hash_decode h (x :: b)).
Proof.
  intros [Hhere Hon Hnext Hstate] (_ & _ & _ & _ & H32) Hv Hp Hx Hb Hne.
  assert (bytes_ok [x]) as Hbx by (constructor; [exact Hx|constructor]).
  assert (forall h', unsigned h' -> crc32 h' = crc32 h -> unsigned (absorb h' [x])) as Habs.
  { intros h' (U1 & U2 & U3 & U4 & U5) Hc'. split_and!; auto. cbn. apply lzma_crc32_u32; [exact Hbx|congruence]. }
  assert (lzma_index_hash_decode h [x] = match decode_step h [] [x] with
    | StepNext h' rest => decode_loop 0 h' (consumed [x] rest) rest
    | StepOut ret h' rest => index_out ret h' (consumed [x] rest) rest
    | StepReturn ret h' rest => (ret, h', rest) end) as -> by reflexivity.
  rewrite Hhere. unfold vli_step.
  pose proof (decode_resume v0 p0 [x] b Hbx ltac:(discriminate) Hne Hp Hv) as Hres. cbn [app] in Hres.
  destruct (lzma_vli_decode v0 (Some p0) [x]) as [[[ret v] p] rest] eqn:E. destruct (vli_unsigned _ _ _ _ _ _ _ Hv Hp E) as [Hv1 Hp1].
  assert (consumed (x :: b) b = [x]) as Hcx by apply (consumed_app [x] b).
  assert (forall h', unsigned h' -> crc32 h' = crc32 h -> sequence h' <> SEQ_CRC32 ->
    similar (decode_loop (length b) h' [x] b) (lzma_index_hash_decode (absorb h' [x]) b)) as Hon_loop.
  { intros h' _ Hc' Hs'. unfold lzma_index_hash_decode. destruct b as [|y b]; [contradiction|].
    pose proof (loop_absorb x [] (length (y :: b)) Hbx h' [] (y :: b) ltac:(constructor) Hb ltac:(congruence) Hs') as H. exact H. }
  assert (lzma_index_hash_decode h (x :: b) = match decode_step h [] (x :: b) with
    | StepNext h' rest => decode_loop (length b) h' (consumed (x :: b) rest) rest
    | StepOut ret h' rest => index_out ret h' (consumed (x :: b) rest) rest
    | StepReturn ret h' rest => (ret, h', rest) end) as Hfull by reflexivity.
  rewrite Hhere in Hfull. unfold vli_step in Hfull. rewrite Hres in Hfull.
  destruct (decide (ret = LZMA_STREAM_END)) as [->|Hne1]; [|destruct (decide (ret = LZMA_OK)) as [->|Hne2]].
  - assert (rest = []) as -> by (apply vli_end_shorter in E; destruct rest; [reflexivity|cbn in E; lia]). cbn [app] in Hfull.
    destruct (K v p) as [h'|h'] eqn:EK.
    + rewrite Hfull. apply similar_refl.
    + destruct (Hnext v p h' Hv1 Hp1 EK) as (U & Uc & Us). apply joined_ok; [now apply Habs|]. rewrite Hfull, Hcx. now apply Hon_loop.
  - apply vli_ok_empty in E. subst rest. destruct (Hstate v p Hv1 Hp1) as (U & Uc & Us). apply joined_ok; [now apply Habs|].
    eapply similar_trans; [|now apply (Hon_loop (g v p))]. rewrite Hfull. destruct b as [|y b]; [contradiction|].
    rewrite index_loop_step, (Hon v p [x] (y :: b)). unfold vli_step.
    destruct (lzma_vli_decode v (Some p) (y :: b)) as [[[ret2 v2] p2] r2] eqn:E2.
    destruct (decide (ret2 = LZMA_STREAM_END)) as [->|Hn1]; [|destruct (decide (ret2 = LZMA_OK)) as [->|Hn2]].
    + apply vli_end_shorter in E2. destruct (K v2 p2) as [h'|h']; [apply similar_refl|]. rewrite consumed_cons by lia.
      cbn [length] in E2. rewrite (loop_fuel (length (y :: b))), (loop_fuel (length b)) by (cbn [length]; lia). apply similar_refl.
    + apply vli_ok_empty in E2. subst r2. rewrite consumed_cons by (cbn; lia). apply similar_refl.
    + destruct ret2; try contradiction; unfold index_out; split_and!; cbn; auto; intros [?|?]; discriminate.
  - rewrite Hfull. destruct ret; try contradiction; unfold index_out, joined; rewrite bool_decide_false by discriminate;
      (split_and!; cbn; auto; intros [?|?]; discriminate).
Qed.

(** *** The other places *)

Lemma crc_loop_keeps l : forall h ret h' rest, crc32_loop h l = (ret, h', rest) ->
  sequence h' = sequence h /\ (unsigned h -> unsigned h') /\ (ret = LZMA_OK -> rest = []).
Proof.
  induction l as [|x l IH]; intros h ret h' rest; cbn [crc32_loop]; [now intros [= <- <- <-]|]. case_if; [now intros [= <- <- <-]|].
  assert (unsigned h -> unsigned (set_pos h (pos h + 1))) as Hu by (intros (U1 & U2 & U3 & U4 & U5); split_and!; cbn; auto; lia).
  case_if; [|intros [= <- <- <-]; split_and!; auto; discriminate]. intros E. apply IH in E as (E1 & E2 & E3). split_and!; auto.
Qed.

Lemma crc_loop_app a b : forall h, crc32_loop h (a ++ b) =
  match crc32_loop h a with (LZMA_OK, h1, _) => crc32_loop h1 b | (ret, h1, rest) => (ret, h1, rest ++ b) end.
Proof. induction a as [|x a IH]; intros h; cbn [app crc32_loop]; [reflexivity|]. case_if; [reflexivity|]. case_if; [apply IH|reflexivity]. Qed.

Lemma decode_crc h b : sequence h = SEQ_CRC32 -> b <> [] -> lzma_index_hash_decode h b = crc32_loop h b.
Proof.
  intros Hs Hb. destruct b as [|y b]; [contradiction|]. unfold lzma_index_hash_decode. rewrite index_loop_step. unfold decode_step. rewrite Hs.
  now destruct (crc32_loop h (y :: b)) as [[? ?] ?].
Qed.

Lemma crc_joined h x b : sequence h = SEQ_CRC32 -> unsigned h -> b <> [] -> joined (crc32_loop h [x]) b (crc32_loop h (x :: b)).
Proof.
  intros Hs Hu Hne. change (x :: b) with ([x] ++ b). rewrite crc_loop_app. destruct (crc32_loop h [x]) as [[ret h1] rest] eqn:E.
  apply crc_loop_keeps in E as (E1 & E2 & E3). destruct (decide (ret = LZMA_OK)) as [->|Hn].
  - rewrite E3 by reflexivity. apply joined_ok; [auto|]. rewrite decode_crc by congruence. apply similar_refl.
  - unfold joined. rewrite bool_decide_false by exact Hn. destruct ret; try contradiction; apply similar_refl.
Qed.

Lemma next_joined h h' x b : decode_step h [] [x] = StepNext h' [] -> decode_step h [] (x :: b) = StepNext h' b ->
  unsigned h' -> sequence h' <> SEQ_CRC32 -> is_byte x -> bytes_ok b -> b <> [] ->
  joined (lzma_index_hash_decode h [x]) b (lzma_index_hash_decode h (x :: b)).
Proof.
  intros E1 E2 U Us Hx Hb Hne. assert (bytes_ok [x]) as Hbx by (constructor; [exact Hx|constructor]). pose proof U as (_ & _ & _ & _ & H32).
  assert (lzma_index_hash_decode h [x] = (LZMA_OK, absorb h' [x], [])) as ->.
  { change (lzma_index_hash_decode h [x]) with (decode_loop (length [x]) h [] [x]). rewrite index_loop_step, E1. reflexivity. }
  assert (lzma_index_hash_decode h (x :: b) = decode_loop (length b) h' [x] b) as ->.
  { change (lzma_index_hash_decode h (x :: b)) with (decode_loop (length (x :: b)) h [] (x :: b)). rewrite index_loop_step, E2. cbn [app]. now replace (consumed (x :: b) b) with [x] by (symmetry; exact (consumed_app [x] b)). }
  apply joined_ok.
  - destruct U as (U1 & U2 & U3 & U4 & U5). split_and!; auto. cbn. now apply lzma_crc32_u32.
  - unfold lzma_index_hash_decode. destruct b as [|y b]; [contradiction|]. exact (loop_absorb x [] (length (y :: b)) Hbx h' [] (y :: b) ltac:(constructor) Hb H32 Us).
Qed.

Lemma return_joined h x b ret h1 h2 r : decode_step h [] [x] = StepReturn ret h1 r -> decode_step h [] (x :: b) = StepReturn ret h2 (r ++ b) ->
  ret <> LZMA_OK -> ret <> LZMA_STREAM_END -> joined (lzma_index_hash_decode h [x]) b (lzma_index_hash_decode h (x :: b)).
Proof.
  intros E1 E2 H1 H2. change (lzma_index_hash_decode h [x]) with (decode_loop (length [x]) h [] [x]).
  change (lzma_index_hash_decode h (x :: b)) with (decode_loop (length (x :: b)) h [] (x :: b)). rewrite !index_loop_step, E1, E2.
  unfold joined. rewrite bool_decide_false by exact H1. split_and!; cbn; tauto.
Qed.

Lemma padding_joined h h0 x b : (forall u i, decode_step h u i = step_padding h0 u i) -> unsigned h0 -> sequence h0 = SEQ_PADDING ->
  is_byte x -> bytes_ok b -> b <> [] -> joined (lzma_index_hash_decode h [x]) b (lzma_index_hash_decode h (x :: b)).
Proof.
  intros Hh U Hs Hx Hb Hne. pose proof (Hh [] [x]) as E1. pose proof (Hh [] (x :: b)) as E2. unfold step_padding in E1, E2.
  pose proof U as (U1 & U2 & U3 & U4 & U5).
  destruct (Z.gtb_spec (pos h0) 0).
  - destruct (negb (x =? 0)); [eapply return_joined; [exact E1|exact E2|discriminate|discriminate]|].
    eapply next_joined; [exact E1|exact E2| |cbn; congruence|exact Hx|exact Hb|exact Hne]. split_and!; cbn; auto; lia.
  - destruct (sizes_differ h0); [eapply return_joined; [exact E1|exact E2|discriminate|discriminate]|].
    cbv zeta in E1, E2. match type of E1 with context [if ?c then _ else _] => destruct c end; [eapply return_joined; [exact E1|exact E2|discriminate|discriminate]|].
    match type of E1 with context [crc32_loop ?a _] => set (h1 := a) in * end.
    assert (unsigned h1) as U'. { unfold h1. split_and!; cbn; auto. apply lzma_crc32_u32; [constructor|exact U5]. }
    change (lzma_index_hash_decode h [x]) with (decode_loop (length [x]) h [] [x]).
    change (lzma_index_hash_decode h (x :: b)) with (decode_loop (length (x :: b)) h [] (x :: b)). rewrite !index_loop_step, E1, E2.
    pose proof (crc_joined h1 x b eq_refl U' Hne) as H1. destruct (crc32_loop h1 [x]) as [[? ?] ?], (crc32_loop h1 (x :: b)) as [[? ?] ?]. exact H1.
Qed.

Definition with_unpadded (h : lzma_index_hash) (v : Z) : lzma_index_hash :=
  {| sequence := sequence h; blocks := blocks h; records := records h; remaining := remaining h; rec_unpadded_size := v;
     rec_uncompressed_size := rec_uncompressed_size h; pos := pos h; crc32 := crc32 h |}.

Definition with_uncompressed (h : lzma_index_hash) (v : Z) : lzma_index_hash :=
  {| sequence := sequence h; blocks := blocks h; records := records h; remaining := remaining h; rec_unpadded_size := rec_unpadded_size h;
     rec_uncompressed_size := v; pos := pos h; crc32 := crc32 h |}.

Ltac unsigned_tac := unfold unsigned; cbn; split_and!; auto; first [lia|discriminate|congruence].

Lemma joined_one h x b : unsigned h -> is_byte x -> bytes_ok b -> b <> [] -> joined (lzma_index_hash_decode h [x]) b (lzma_index_hash_decode h (x :: b)).
Proof.
  intros U Hx Hb Hne. pose proof U as (U1 & U2 & U3 & U4 & U5). destruct (sequence h) eqn:Hs.
  - assert (forall i, decode_step h [] (x :: i) = if negb (x =? INDEX_INDICATOR) then StepReturn LZMA_DATA_ERROR h i else StepNext (set_sequence h SEQ_COUNT) i) as Hstep
      by (intros i; unfold decode_step; now rewrite Hs).
    pose proof (Hstep []) as E1. pose proof (Hstep b) as E2. destruct (negb _); [eapply return_joined; [exact E1|exact E2|discriminate|discriminate]|].
    eapply next_joined; [exact E1|exact E2|exact U|discriminate|exact Hx|exact Hb|exact Hne].
  - eapply (vli_joined h x b (remaining h) (pos h)
      (fun v p => if negb (v =? count (blocks h)) then inl (set_pos (set_remaining h v) p)
        else inr (set_sequence (set_pos (set_remaining h v) 0) (if v =? 0 then SEQ_PADDING_INIT else SEQ_UNPADDED)))
      (fun v p => set_pos (set_remaining h v) p)); auto. constructor.
    + intros u i. unfold decode_step, vli_step. rewrite Hs. destruct (lzma_vli_decode _ _ _) as [[[[] v] p] r]; auto. now destruct (negb _).
    + intros v p u i. unfold decode_step, vli_step. cbn. rewrite Hs. destruct (lzma_vli_decode _ _ _) as [[[[] v'] p'] r]; auto. now destruct (negb _).
    + intros v p h' Hv Hp. destruct (negb (v =? count (blocks h))); [discriminate|]. intros E. injection E as <-. destruct (v =? 0); unsigned_tac.
    + intros v p Hv Hp. unsigned_tac.
  - eapply (vli_joined h x b (rec_unpadded_size h) (pos h)
      (fun v p => let h1 := set_pos (with_unpadded h v) 0 in
        if (v <? UNPADDED_SIZE_MIN) || (v >? UNPADDED_SIZE_MAX) then inl h1 else inr (set_sequence h1 SEQ_UNCOMPRESSED))
      (fun v p => set_pos (with_unpadded h v) p)); auto. constructor.
    + intros u i. unfold decode_step, vli_step. rewrite Hs. destruct (lzma_vli_decode _ _ _) as [[[[] v] p] r]; cbv zeta; unfold with_unpadded; rewrite ?Hs; try reflexivity. now destruct (_ || _).
    + intros v p u i. unfold decode_step, vli_step, with_unpadded. cbn [sequence set_pos]. rewrite Hs. cbn [rec_unpadded_size pos set_pos].
      destruct (lzma_vli_decode _ _ _) as [[[[] v'] p'] r]; cbv zeta; try reflexivity. now destruct (_ || _).
    + intros v p h' Hv Hp. cbv zeta. destruct (_ || _); [discriminate|]. intros E. injection E as <-. unsigned_tac.
    + intros v p Hv Hp. unsigned_tac.
  - eapply (vli_joined h x b (rec_uncompressed_size h) (pos h)
      (fun v p => let h1 := set_pos (with_uncompressed h v) 0 in
        let h2 := set_records h1 (hash_append (records h1) (rec_unpadded_size h1) v) in
        if sizes_exceeded h2 then inl h2
        else let h3 := set_remaining h2 (u64 (remaining h2 - 1)) in
          inr (set_sequence h3 (if remaining h3 =? 0 then SEQ_PADDING_INIT else SEQ_UNPADDED)))
      (fun v p => set_pos (with_uncompressed h v) p)); auto. constructor.
    + intros u i. unfold decode_step, vli_step. rewrite Hs. destruct (lzma_vli_decode _ _ _) as [[[[] v] p] r]; cbv zeta; unfold with_uncompressed; rewrite ?Hs; try reflexivity. now destruct (sizes_exceeded _).
    + intros v p u i. unfold decode_step, vli_step, with_uncompressed. cbn [sequence set_pos]. rewrite Hs. cbn [rec_uncompressed_size pos set_pos].
      destruct (lzma_vli_decode _ _ _) as [[[[] v'] p'] r]; cbv zeta; try reflexivity.
      match goal with |- context [sizes_exceeded ?a] => set (ex := sizes_exceeded a) end.
      match goal with |- context [sizes_exceeded ?a] => change (sizes_exceeded a) with ex end. now destruct ex.
    + intros v p h' Hv Hp. cbv zeta. destruct (sizes_exceeded _); [discriminate|]. intros E. injection E as <-.
      cbn [remaining set_remaining]. match goal with |- context [u64 ?a] => pose proof (u64_range a); set (z := u64 a) in *; clearbody z end. destruct (z =? 0); unsigned_tac.
    + intros v p Hv Hp. unsigned_tac.
  - eapply (padding_joined h _ x b); [intros u i; unfold decode_step; rewrite Hs; reflexivity| |reflexivity|exact Hx|exact Hb|exact Hne].
    unfold unsigned. cbn. split_and!; auto. apply Z.land_nonneg. right. lia.
  - eapply (padding_joined h h x b); [intros u i; unfold decode_step; rewrite Hs; reflexivity|exact U|exact Hs|exact Hx|exact Hb|exact Hne].
  - rewrite !decode_crc by (assumption || discriminate). now apply crc_joined.
Qed.

(** ** Any part and then the others *)

(** A call with [a] and one with [b] are like the call with both. *)
Lemma decode_pieces a : forall h b, unsigned h -> bytes_ok a -> bytes_ok b -> a <> [] -> b <> [] ->
  joined (lzma_index_hash_decode h a) b (lzma_index_hash_decode h (a ++ b)).
Proof.
  induction a as [|x a IH]; intros h b U Ha Hb Hna Hnb; [contradiction|]. apply Forall_cons in Ha as [Hx Ha].
  destruct a as [|y a]; [now apply joined_one|]. assert (bytes_ok ((y :: a) ++ b)) as Hab by now apply Forall_app.
  pose proof (joined_one h x (y :: a) U Hx Ha ltac:(discriminate)) as H1.
  pose proof (joined_one h x ((y :: a) ++ b) U Hx Hab ltac:(discriminate)) as H2. cbn [app] in *.
  destruct (lzma_index_hash_decode h [x]) as [[ret h1] rest]. unfold joined in H1, H2. destruct (bool_decide_reflect (ret = LZMA_OK)) as [->|Hne].
  - destruct H1 as (-> & U1 & S1). destruct H2 as (_ & _ & S2). specialize (IH h1 b U1 Ha Hb ltac:(discriminate) Hnb).
    destruct (lzma_index_hash_decode h (x :: y :: a)) as [[ret2 h2] rest2]. destruct S1 as (E1 & E2 & E3).
    destruct (lzma_index_hash_decode h1 (y :: a)) as [[ret3 h3] rest3]. cbn [fst snd] in *. subst ret3 rest3. unfold joined in *.
    destruct (bool_decide_reflect (ret2 = LZMA_OK)) as [->|Hne2].
    + destruct IH as (-> & U3 & S3). rewrite E3 by now left. split_and!; auto. eapply similar_trans; [exact S2|exact S3].
    + eapply similar_trans; [exact S2|]. eapply similar_trans; [exact IH|]. split_and!; auto. cbn. intros H. symmetry. apply E3. exact H.
  - destruct (lzma_index_hash_decode h (x :: y :: a)) as [[ret2 h2] rest2]. destruct S1 as (E1 & E2 & E3) || destruct H1 as (E1 & E2 & E3). cbn [fst snd] in *. subst ret2.
    unfold joined. rewrite bool_decide_false by exact Hne. eapply similar_trans; [exact H2|]. rewrite E2. split_and!; cbn; auto; [now rewrite <- app_assoc|]. intros H. symmetry. now apply E3.
Qed.

(** ** An Index that is expected *)

Definition accepts (h : lzma_index_hash) (p : bytes) : Prop :=
  p <> [] /\ unsigned h /\ bytes_ok p /\ forall tail, bytes_ok tail -> exists h', lzma_index_hash_decode h (p ++ tail) = (LZMA_STREAM_END, h', tail).

Lemma accepts_part h i q : accepts h (i ++ q) -> i <> [] -> q <> [] -> exists h', lzma_index_hash_decode h i = (LZMA_OK, h', []) /\ accepts h' q.
Proof.
  intros (_ & U & Hb & Hacc) Hi Hq. apply Forall_app in Hb as [Hbi Hbq].
  assert (forall tail, bytes_ok tail -> joined (lzma_index_hash_decode h i) (q ++ tail) (lzma_index_hash_decode h (i ++ q ++ tail))) as Hj.
  { intros tail Ht. apply decode_pieces; auto; [now apply Forall_app|]. destruct q; [contradiction|discriminate]. }
  pose proof (Hj [] ltac:(constructor)) as H0. destruct (Hacc [] ltac:(constructor)) as (hf & Ef). rewrite !app_nil_r in *.
  destruct (lzma_index_hash_decode h i) as [[ret h1] rest]. unfold joined in H0. destruct (bool_decide_reflect (ret = LZMA_OK)) as [->|Hne].
  - destruct H0 as (-> & U1 & _). exists h1. split; [reflexivity|]. split_and!; auto. intros tail Ht.
    specialize (Hj tail Ht). destruct (Hacc tail Ht) as (h2 & E2). rewrite <- app_assoc in E2. unfold joined in Hj. rewrite bool_decide_true in Hj by reflexivity.
    destruct Hj as (_ & _ & E1' & E2' & E3'). rewrite E2 in *. cbn [fst snd] in *. exists h2.
    destruct (lzma_index_hash_decode h1 (q ++ tail)) as [[r3 h3] rest3]. cbn [fst snd] in *. rewrite E3' by now right. congruence.
  - destruct H0 as (_ & E2 & _). rewrite Ef in E2. cbn [fst snd] in E2. destruct rest; [|discriminate]. cbn in E2. congruence.
Qed.

(** *** The size of the Index is that of the Blocks *)

Definition same_blocks (h h' : lzma_index_hash) : Prop := lzma_index_hash_size h' = lzma_index_hash_size h.

Lemma crc_loop_blocks l : forall h ret h' rest, crc32_loop h l = (ret, h', rest) -> blocks h' = blocks h.
Proof.
  induction l as [|x l IH]; intros h ret h' rest; cbn [crc32_loop]; [now intros [= <- <- <-]|]. case_if; [now intros [= <- <- <-]|].
  case_if; [|now intros [= <- <- <-]]. intros E. now apply IH in E.
Qed.

Definition step_state (s : index_step) : lzma_index_hash := match s with StepNext h _ | StepOut _ h _ | StepReturn _ h _ => h end.

Lemma step_blocks h used input : same_blocks h (step_state (decode_step h used input)).
Proof.
  assert (forall h0, same_blocks h0 (step_state (step_padding h0 used input))) as Hpad.
  { intros h0. unfold step_padding. destruct (pos h0 >? 0); [destruct input; [reflexivity|]; now destruct (negb _)|].
    destruct (sizes_differ h0); [reflexivity|]. cbv zeta. destruct (negb _); [reflexivity|].
    destruct (crc32_loop _ _) as [[ret h1] r] eqn:E. apply crc_loop_blocks in E. unfold same_blocks, lzma_index_hash_size. cbn [step_state]. now rewrite E. }
  unfold decode_step. destruct (sequence h).
  - destruct input; [reflexivity|]. now destruct (negb _).
  - destruct (lzma_vli_decode _ _ _) as [[[[] v] p] r]; try reflexivity. cbv zeta. now destruct (negb _).
  - destruct (lzma_vli_decode _ _ _) as [[[[] v] p] r]; try reflexivity. cbv zeta. now destruct (_ || _).
  - destruct (lzma_vli_decode _ _ _) as [[[[] v] p] r]; try reflexivity. cbv zeta. now destruct (sizes_exceeded _).
  - match goal with |- context [step_padding ?a _ _] => exact (Hpad a) end.
  - apply Hpad.
  - destruct (crc32_loop h input) as [[ret h1] r] eqn:E. apply crc_loop_blocks in E. unfold same_blocks, lzma_index_hash_size. cbn [step_state]. now rewrite E.
Qed.

Lemma decode_size h input ret h' rest : lzma_index_hash_decode h input = (ret, h', rest) -> lzma_index_hash_size h' = lzma_index_hash_size h.
Proof.
  assert (forall fuel h used input, same_blocks h (decode_loop fuel h used input).1.2) as Hloop.
  { assert (forall r h used rest, same_blocks h (index_out r h used rest).1.2) as Hout by (intros ? ? [|] ?; reflexivity).
    induction fuel as [|fuel IH]; intros h0 used [|b i]; cbn [decode_loop]; try apply Hout.
    pose proof (step_blocks h0 used (b :: i)) as H. destruct (decode_step h0 used (b :: i)); cbn [step_state] in H; unfold same_blocks in *;
      [rewrite IH|rewrite Hout|cbn]; exact H. }
  unfold lzma_index_hash_decode. destruct input as [|b i]; [now intros [= _ <- _]|]. intros E. pose proof (Hloop (length (b :: i)) h [] (b :: i)) as H. rewrite E in H. exact H.
Qed.

(** *** The Index is read from the front of the input *)

Lemma vli_loop_suffix l : forall v p ret v' p' rest, vli_decode_loop false v p l = (ret, v', p', rest) -> exists used, l = used ++ rest.
Proof.
  induction l as [|b l IH]; intros v p ret v' p' rest; cbn [vli_decode_loop]; [intros [= _ _ _ <-]; now exists []|].
  repeat case_if; try (intros [= _ _ _ <-]; now exists [b]). intros E. apply IH in E as (u & ->). now exists (b :: u).
Qed.

#[local] Transparent lzma_vli_decode.
Lemma vli_suffix v p l ret v' p' rest : lzma_vli_decode v (Some p) l = (ret, v', p', rest) -> exists used, l = used ++ rest.
Proof.
  unfold lzma_vli_decode. case_if; [intros [= _ _ _ <-]; now exists []|]. destruct l; [intros [= _ _ _ <-]; now exists []|]. apply vli_loop_suffix.
Qed.
#[local] Opaque lzma_vli_decode.

Lemma crc_loop_suffix l : forall h ret h' rest, crc32_loop h l = (ret, h', rest) -> exists used, l = used ++ rest.
Proof.
  induction l as [|x l IH]; intros h ret h' rest; cbn [crc32_loop]; [intros [= _ _ <-]; now exists []|].
  case_if; [intros [= _ _ <-]; now exists [x]|]. case_if; [|intros [= _ _ <-]; now exists [x]]. intros E. apply IH in E as (u & ->). now exists (x :: u).
Qed.

Definition step_rest (s : index_step) : bytes := match s with StepNext _ r | StepOut _ _ r | StepReturn _ _ r => r end.

Lemma step_suffix h used input : exists u, input = u ++ step_rest (decode_step h used input).
Proof.
  assert (forall h0, exists u, input = u ++ step_rest (step_padding h0 used input)) as Hpad.
  { intros h0. unfold step_padding. destruct (pos h0 >? 0); [destruct input as [|b i]; [now exists []|]; destruct (negb _); now exists [b]|].
    destruct (sizes_differ h0); [now exists []|]. cbv zeta. destruct (negb _); [now exists []|].
    destruct (crc32_loop _ _) as [[ret h1] r] eqn:E. now apply crc_loop_suffix in E. }
  unfold decode_step. destruct (sequence h).
  - destruct input as [|b i]; [now exists []|]. destruct (negb _); now exists [b].
  - destruct (lzma_vli_decode _ _ _) as [[[ret v] p] r] eqn:E. apply vli_suffix in E. destruct ret; auto. cbv zeta. now destruct (negb _).
  - destruct (lzma_vli_decode _ _ _) as [[[ret v] p] r] eqn:E. apply vli_suffix in E. destruct ret; auto. cbv zeta. now destruct (_ || _).
  - destruct (lzma_vli_decode _ _ _) as [[[ret v] p] r] eqn:E. apply vli_suffix in E. destruct ret; auto. cbv zeta. now destruct (sizes_exceeded _).
  - match goal with |- context [step_padding ?a _ _] => exact (Hpad a) end.
  - apply Hpad.
  - destruct (crc32_loop h input) as [[ret h1] r] eqn:E. now apply crc_loop_suffix in E.
Qed.

(** A call that is given input and goes to the end has read of it. *)
Lemma decode_within h input ret h' rest : lzma_index_hash_decode h input = (ret, h', rest) -> exists used, input = used ++ rest.
Proof.
  assert (forall fuel h used input, exists u, input = u ++ (decode_loop fuel h used input).2) as Hloop.
  { assert (forall r h used rest, (index_out r h used rest).2 = rest) as Hout by reflexivity.
    induction fuel as [|fuel IH]; intros h0 used [|b i]; cbn [decode_loop]; rewrite ?Hout; try (now exists []).
    pose proof (step_suffix h0 used (b :: i)) as (u & E). destruct (decode_step h0 used (b :: i)) as [h1 r|r1 h1 r|r1 h1 r]; cbn [step_rest] in E; rewrite ?Hout; try (now exists u).
    destruct (IH h1 (used ++ consumed (b :: i) r) r) as (u2 & E2). exists (u ++ u2). rewrite <- app_assoc, <- E2. exact E. }
  unfold lzma_index_hash_decode. destruct input as [|b i]; [intros [= _ _ <-]; now exists []|]. intros E. pose proof (Hloop (length (b :: i)) h [] (b :: i)) as H. now rewrite E in H.
Qed.

Lemma crc_end_shorter l : forall h h' rest, crc32_loop h l = (LZMA_STREAM_END, h', rest) -> (length rest < length l)%nat.
Proof.
  induction l as [|x l IH]; intros h h' rest; cbn [crc32_loop length]; [discriminate|]. case_if; [discriminate|]. case_if; [|intros [= _ <-]; lia].
  intros E. apply IH in E. lia.
Qed.

Lemma step_end_shorter h used input : match decode_step h used input with
  | StepReturn LZMA_STREAM_END _ rest => (length rest < length input)%nat | StepOut LZMA_STREAM_END _ _ => False | _ => True end.
Proof.
  assert (forall h0, match step_padding h0 used input with
    | StepReturn LZMA_STREAM_END _ rest => (length rest < length input)%nat | StepOut LZMA_STREAM_END _ _ => False | _ => True end) as Hpad.
  { intros h0. unfold step_padding. destruct (pos h0 >? 0); [destruct input; [exact I|]; now destruct (negb _)|].
    destruct (sizes_differ h0); [exact I|]. cbv zeta. destruct (negb _); [exact I|].
    destruct (crc32_loop _ _) as [[[] h1] r] eqn:E; auto. now apply crc_end_shorter in E. }
  unfold decode_step. destruct (sequence h).
  - destruct input as [|b i]; [exact I|]. now destruct (negb _).
  - destruct (lzma_vli_decode _ _ _) as [[[[] v] p] r]; auto. cbv zeta. now destruct (negb _).
  - destruct (lzma_vli_decode _ _ _) as [[[[] v] p] r]; auto. cbv zeta. now destruct (_ || _).
  - destruct (lzma_vli_decode _ _ _) as [[[[] v] p] r]; auto. cbv zeta. now destruct (sizes_exceeded _).
  - match goal with |- context [step_padding ?a _ _] => exact (Hpad a) end.
  - apply Hpad.
  - destruct (crc32_loop h input) as [[[] h1] r] eqn:E; auto. now apply crc_end_shorter in E.
Qed.

Lemma decode_end_shorter h input h' rest : lzma_index_hash_decode h input = (LZMA_STREAM_END, h', rest) -> (length rest < length input)%nat.
Proof.
  assert (forall fuel h used input h' rest, decode_loop fuel h used input = (LZMA_STREAM_END, h', rest) -> (length rest < length input)%nat) as Hloop.
  { induction fuel as [|fuel IH]; intros h0 used [|b i] h1 r; cbn [decode_loop]; try discriminate.
    pose proof (step_end_shorter h0 used (b :: i)) as H. pose proof (step_suffix h0 used (b :: i)) as (u & Hu).
    destruct (decode_step h0 used (b :: i)) as [h2 r2|r3 h2 r2|r3 h2 r2]; cbn [step_rest] in Hu.
    - intros E. apply IH in E. apply (f_equal length) in Hu. rewrite length_app in Hu. lia.
    - unfold index_out. intros [= -> _ _]. contradiction.
    - intros [= -> _ ->]. exact H. }
  unfold lzma_index_hash_decode. destruct input as [|b i]; [discriminate|]. apply Hloop.
Qed.

(** ** Any number of calls *)

(** Calls with the pieces, until one does not return [LZMA_OK]; the input that is
    left then is in front of the pieces that were not given. *)
Fixpoint index_calls (h : lzma_index_hash) (first : bytes) (pieces : list bytes) : lzma_ret * lzma_index_hash * bytes :=
  match pieces with
  | [] => lzma_index_hash_decode h first
  | piece :: pieces =>
      let '(ret, h, rest) := lzma_index_hash_decode h first in
      match ret with
      | LZMA_OK => index_calls h piece pieces
      | _ => (ret, h, rest ++ concat (piece :: pieces))
      end
  end.

(** C18: The Index may come in any pieces.  Whatever bytes they are, calls with the
    pieces return what one call with all the bytes returns, an error included, and
    leave the same input; as long as there is no error they leave the same state:
    only the number of the calls is the caller's choice. *)
Theorem index_resumable pieces : forall h first, unsigned h -> Forall (fun p => bytes_ok p /\ p <> []) (first :: pieces) ->
  let '(ret, h1, rest) := index_calls h first pieces in
  let '(ret', h2, rest') := lzma_index_hash_decode h (first ++ concat pieces) in
  ret = ret' /\ rest = rest' /\ (ret = LZMA_OK \/ ret = LZMA_STREAM_END -> h1 = h2).
Proof.
  enough (forall h first, unsigned h -> Forall (fun p => bytes_ok p /\ p <> []) (first :: pieces) ->
    similar (index_calls h first pieces) (lzma_index_hash_decode h (first ++ concat pieces))) as H.
  { intros h first U Hp. specialize (H h first U Hp). destruct (index_calls _ _ _) as [[ret h1] rest]. destruct (lzma_index_hash_decode _ _) as [[ret' h2] rest']. exact H. }
  induction pieces as [|p pieces IH]; intros h first U Hp; cbn [index_calls concat]; [rewrite app_nil_r; apply similar_refl|].
  apply Forall_cons in Hp as [[Hf Hfn] Hp]. pose proof Hp as Hp'. apply Forall_cons in Hp' as [[Hpb Hpn] Hps].
  assert (bytes_ok (concat (p :: pieces))) as Hcat by (clear -Hp; induction Hp as [|x l [Hx _] _ IH]; [constructor|]; cbn [concat]; now apply Forall_app_2).
  pose proof (decode_pieces first h (p ++ concat pieces) U Hf Hcat Hfn ltac:(destruct p; [contradiction|discriminate])) as Hj.
  destruct (lzma_index_hash_decode h first) as [[ret h1] rest]. unfold joined in Hj. destruct (bool_decide_reflect (ret = LZMA_OK)) as [->|Hne].
  - destruct Hj as (-> & U1 & (E1 & E2 & E3)). destruct (IH h1 p U1 Hp) as (F1 & F2 & F3). split_and!; [congruence|congruence|].
    intros Hr. rewrite F3 by exact Hr. symmetry. apply E3. rewrite F1 in Hr. now rewrite E1.
  - destruct Hj as (E1 & E2 & E3). destruct ret; try contradiction; (split_and!; cbn [fst snd] in *; [congruence|congruence|]); intros Hr; symmetry; apply E3; now rewrite E1.
Qed.

Lemma index_resumable_witness :
  exists h, append_all (lzma_index_hash_init hash_example) [(100, 300)] = Some h /\
    let '(ret, _, rest) := index_calls h [0x00; 0x01] [[0x64]; [0xAC; 0x02; 0x00; 0x00]; [0x00; 0x8D; 0x23; 0xEE]; [0x4F; 0x59]] in
    ret = LZMA_STREAM_END /\ rest = [0x59].
Proof.
  destruct (append_all (lzma_index_hash_init hash_example) [(100, 300)]) as [h|] eqn:E; [|vm_compute in E; discriminate]. exists h. split; [reflexivity|].
  assert (unsigned h) as U.
  { assert (option_map (fun h => (pos h, remaining h, rec_unpadded_size h, rec_uncompressed_size h, crc32 h)) (Some h) = Some (0, 5, 0, 0, 0)) as E1 by (rewrite <- E; vm_compute; reflexivity).
    injection E1 as E1 E2 E3 E4 E5. unfold unsigned. rewrite E1, E2, E3, E4, E5. unfold is_u32. lia. }
  pose proof (index_resumable [[0x64]; [0xAC; 0x02; 0x00; 0x00]; [0x00; 0x8D; 0x23; 0xEE]; [0x4F; 0x59]] h [0x00; 0x01] U) as H.
  assert (Forall (fun p => bytes_ok p /\ p <> []) [[0x00; 0x01]; [0x64]; [0xAC; 0x02; 0x00; 0x00]; [0x00; 0x8D; 0x23; 0xEE]; [0x4F; 0x59]]) as Hp
    by (repeat constructor; try discriminate; unfold is_byte; lia).
  specialize (H Hp). destruct (index_calls _ _ _) as [[ret h1] rest].
  assert (option_map (fun h => let '(r, _, t) := lzma_index_hash_decode h [0x00; 0x01; 0x64; 0xAC; 0x02; 0x00; 0x00; 0x00; 0x8D; 0x23; 0xEE; 0x4F; 0x59] in (r, t)) (Some h) = Some (LZMA_STREAM_END, [0x59]))
    as Hd by (rewrite <- E; vm_compute; reflexivity).
  cbn [option_map concat app] in *. destruct (lzma_index_hash_decode h _) as [[ret' h2] rest']. destruct H as (-> & -> & _). injection Hd as -> ->. now split.
Defined.
