(* ===== verification/Decodes.v ===== *)
(** * Decoders that are given their data in pieces

    What a decoder of liblzma promises to the coder or the application that calls
    it through [lzma_next_coder.code]: the interface [Decodes].  A state of the
    decoder expects some encoded bytes and the data that they stand for; a call
    with any part of those bytes, with any bytes behind them, and with any room
    gives a part of the data and leaves a state that expects the others. *)

From Stdlib Require Import ZArith Lia.
From stdpp Require Import list.
From S2P Require Import Prelude Coder.

(** The input is a part of [p], or begins with it. *)
Definition agrees (input p : bytes) : Prop := exists more behind, input ++ more = p ++ behind.

Lemma agrees_nil p : agrees [] p.
Proof. exists p, []. now rewrite app_nil_r. Qed.

Lemma agrees_all p tail : agrees (p ++ tail) p.
Proof. exists [], tail. now rewrite app_nil_r. Qed.

Lemma agrees_take n input p : agrees input p -> agrees (take n input) p.
Proof. intros (a & b & E). exists (drop n input ++ a), b. now rewrite app_assoc, take_drop. Qed.

Lemma agrees_app input p q : agrees input (p ++ q) -> agrees input p.
Proof. intros (a & b & E). exists a, (q ++ b). now rewrite E, <- app_assoc. Qed.

Lemma agrees_cut used rest p : agrees (used ++ rest) (used ++ p) -> agrees rest p.
Proof. intros (a & b & E). exists a, b. rewrite <- !app_assoc in E. now apply app_inv_head in E. Qed.

(** The input is a part, or it covers all of [p]. *)
Lemma agrees_cases input p : agrees input p -> (exists q, q <> [] /\ p = input ++ q) \/ exists tail, input = p ++ tail.
Proof.
  intros (a & b & E). apply app_eq_inv in E as [(k & -> & _)|(k & -> & _)]; [right; eauto|].
  destruct k as [|x k]; [right; exists []; now rewrite !app_nil_r|left; exists (x :: k); split; [discriminate|reflexivity]].
Qed.

Lemma agrees_head b input x p : agrees (b :: input) (x :: p) -> b = x /\ agrees input p.
Proof. intros (m & t & E). injection E as -> E. split; [reflexivity|now exists m, t]. Qed.

(** The answer of a decoder that expected [p] and [d].  [LZMA_OK]: what is left of
    both; the call has stopped because there was no more input or no more room.
    Only room can be missing when all of [p] was read, and only input when all of
    [d] was stored. *)
Definition answers {S} (E : S -> bytes -> bytes -> Prop) (p d input : bytes) (avail : nat) (r : lzma_ret * S * bytes * bytes) : Prop :=
  let '(ret, c, out, rest) := r in
  exists used p' d', p = used ++ p' /\ input = used ++ rest /\ d = out ++ d' /\ (length out <= avail)%nat /\
    (ret = LZMA_OK /\ E c p' d' /\ (rest = [] \/ length out = avail) /\ (d' = [] -> rest = [] /\ p' <> []) /\ (p' = [] -> length out = avail) \/
     ret = LZMA_STREAM_END /\ p' = [] /\ d' = []).

Class Decodes (S : Type) {C : Coder S} := {
  expects : S -> bytes -> bytes -> Prop;
  expects_code c p d input avail action : expects c p d -> bytes_ok input -> agrees input p ->
    answers expects p d input avail (code c input avail action);
}.

(** ** Coders that stay within their buffers

    A weaker promise that is about any input: as long as the coder is in order,
    it reads and stores no more than it may, and it stays in order while it returns
    [LZMA_OK]. *)

Definition kept {S} (P : S -> Prop) (input : bytes) (avail : nat) (r : lzma_ret * S * bytes * bytes) : Prop :=
  let '(ret, c, out, rest) := r in (length out <= avail)%nat /\ (exists used, input = used ++ rest) /\ (ret = LZMA_OK -> P c).

Class Safe (S : Type) {C : Coder S} := {
  safe : S -> Prop;
  safe_code c input avail action : safe c -> bytes_ok input -> kept safe input avail (code c input avail action);
}.

Lemma kept_more {S} (P : S -> Prop) used input avail ret c out rest :
  kept P input avail (ret, c, out, rest) -> kept P (used ++ input) avail (ret, c, out, rest).
Proof. intros (H1 & (u & ->) & H2). split_and!; auto. exists (used ++ u). now rewrite app_assoc. Qed.

(** ** Any sequence of calls *)

(** An application gives the first [n] bytes of its input and room for [m]. *)
Fixpoint feed {S} {C : Coder S} (c : S) (input : bytes) (calls : list (nat * nat)) : lzma_ret * S * bytes * bytes :=
  match calls with
  | [] => (LZMA_OK, c, [], input)
  | (n, m) :: calls =>
      let '(ret, c, out, rest) := code c (take n input) m LZMA_RUN in
      let input := rest ++ drop n input in
      match ret with
      | LZMA_OK => let '(ret, c, more, input) := feed c input calls in (ret, c, out ++ more, input)
      | _ => (ret, c, out, input)
      end
  end.

Section Feed.
Context {S : Type} {C : Coder S} {D : Decodes S}.

Lemma feed_decodes calls : forall (c : S) p d tail, expects c p d -> bytes_ok (p ++ tail) ->
  let '(ret, c', out, unread) := feed c (p ++ tail) calls in
  (ret = LZMA_OK /\ exists p' d', unread = p' ++ tail /\ d = out ++ d' /\ expects c' p' d') \/
  (ret = LZMA_STREAM_END /\ out = d /\ unread = tail).
Proof.
  induction calls as [|[n m] calls IH]; intros c p d tail Hc Hb; cbn [feed].
  { left. split; [reflexivity|]. exists p, d. now split. }
  assert (bytes_ok (take n (p ++ tail))) as Hbt by now apply Forall_take.
  pose proof (expects_code c p d (take n (p ++ tail)) m LZMA_RUN Hc Hbt (agrees_take _ _ _ (agrees_all p tail))) as Ha.
  destruct (code c _ _ _) as [[[ret c1] out] rest]. cbn [answers] in Ha.
  destruct Ha as (used & p' & d' & -> & Hin & -> & Hl & Hret).
  assert (rest ++ drop n ((used ++ p') ++ tail) = p' ++ tail) as Hleft.
  { apply (app_inv_head used). rewrite app_assoc, <- Hin, take_drop. now rewrite <- app_assoc. }
  rewrite Hleft. destruct Hret as [(-> & Hc1 & _)|(-> & -> & ->)].
  - specialize (IH c1 p' d' tail Hc1). destruct (feed c1 (p' ++ tail) calls) as [[[ret c2] more] unread].
    destruct IH as [(-> & p2 & d2 & -> & -> & H2)|(-> & -> & ->)]; [rewrite <- !app_assoc, !Forall_app in Hb; rewrite Forall_app; tauto|..].
    + left. split; [reflexivity|]. exists p2, d2. now rewrite app_assoc.
    + now right.
  - right. rewrite app_nil_r. now split.
Qed.

(** Every call that is given bytes and room goes on. *)
Lemma feed_ends calls : forall (c : S) p d tail, expects c p d -> bytes_ok (p ++ tail) ->
  Forall (fun k => (0 < k.1)%nat /\ (0 < k.2)%nat) calls -> (length p + length d < length calls)%nat ->
  exists c', feed c (p ++ tail) calls = (LZMA_STREAM_END, c', d, tail).
Proof.
  induction calls as [|[n m] calls IH]; intros c p d tail Hc Hb Hcalls Hl; [cbn in Hl; lia|]. cbn [feed].
  apply Forall_cons in Hcalls as [[Hn Hm] Hcalls]. cbn [fst snd length] in *.
  assert (bytes_ok (take n (p ++ tail))) as Hbt by now apply Forall_take.
  pose proof (expects_code c p d (take n (p ++ tail)) m LZMA_RUN Hc Hbt (agrees_take _ _ _ (agrees_all p tail))) as Ha.
  destruct (code c _ _ _) as [[[ret c1] out] rest]. cbn [answers] in Ha.
  destruct Ha as (used & p' & d' & -> & Hin & -> & Hlo & Hret).
  assert (rest ++ drop n ((used ++ p') ++ tail) = p' ++ tail) as Hleft.
  { apply (app_inv_head used). rewrite app_assoc, <- Hin, take_drop. now rewrite <- app_assoc. }
  rewrite Hleft. destruct Hret as [(-> & Hc1 & Hstop & _ & Hfull)|(-> & -> & ->)]; [|exists c1; now rewrite !app_nil_r].
  assert (0 < length used + length out)%nat as Hprog.
  { destruct Hstop as [->|]; [|lia]. rewrite app_nil_r in Hin. destruct used as [|x used]; [|cbn; lia].
    cbn [app] in Hin. destruct p' as [|x p']; [rewrite Hfull by reflexivity; lia|]. destruct n; [lia|discriminate]. }
  destruct (IH c1 p' d' tail Hc1) as (c2 & ->); [rewrite <- !app_assoc, !Forall_app in Hb; rewrite Forall_app; tauto|exact Hcalls| |now exists c2].
  rewrite !length_app in Hl. lia.
Qed.
End Feed.
