(* ===== verification/BlockDecoder.v ===== *)
(** * The Block decoder

    [lib/archive/xz/src/liblzma/common/block_decoder.c]: a Block is what the chain
    of filters has made of the data, zeros up to a multiple of four bytes, and the
    Check.  [block_decode] runs the chain, keeps it within the sizes of the Block
    Header, calculates the check of what it gives and compares.  The chain is any
    decoder that keeps its promise ([Decodes]); the Block decoder keeps it, too. *)

From Stdlib Require Import ZArith Lia.
From stdpp Require Import list.
From S2P Require Import Prelude Vli Sha256 Check FilterFlags BlockHeader Coder Decodes.

(** ** Buffers that are filled in several calls *)

(** [lzma_bufcpy(in, in_pos, in_size, buf, &p, size)]: the buffer, the position in
    it and the input that is left. *)
Definition bufcpy_into (input buf : bytes) (p size : nat) : bytes * nat * bytes :=
  let '(l, rest) := lzma_bufcpy input (size - p) in (take p buf ++ l ++ drop (p + length l) buf, (p + length l)%nat, rest).

(** ** Chains of filters *)

(** [lzma_raw_decoder_init] and [lzma_raw_decoder_memusage]. *)
Class RawDecoder (U : Type) := {
  raw_decoder_init : list lzma_filter -> res U;
  raw_decoder_memusage : list lzma_filter -> Z;
}.

Inductive block_sequence := SEQ_CODE | SEQ_PADDING | SEQ_CHECK.

(** [b_block] is the structure that [block] points to; its member [raw_check] is
    [b_raw_check]. *)
Record lzma_block_coder (U : Type) := mk_block_coder {
  b_sequence : block_sequence;
  b_next : U;
  b_block : lzma_block;
  b_raw_check : bytes;
  b_compressed_size : Z;
  b_uncompressed_size : Z;
  b_compressed_limit : Z;
  b_uncompressed_limit : Z;
  b_check_pos : nat;
  b_check : lzma_check_state;
  b_ignore_check : bool;
}.
Arguments mk_block_coder {U} _ _ _ _ _ _ _ _ _ _ _.
Arguments b_sequence {U} _.
Arguments b_next {U} _.
Arguments b_block {U} _.
Arguments b_raw_check {U} _.
Arguments b_compressed_size {U} _.
Arguments b_uncompressed_size {U} _.
Arguments b_compressed_limit {U} _.
Arguments b_uncompressed_limit {U} _.
Arguments b_check_pos {U} _.
Arguments b_check {U} _.
Arguments b_ignore_check {U} _.

Definition is_size_valid (size reference : Z) : bool := (reference =? LZMA_VLI_UNKNOWN) || (reference =? size).

(** [block->compressed_size = ...; block->uncompressed_size = ...;] *)
Definition set_block_sizes (b : lzma_block) (c u : Z) : lzma_block :=
  {| block_version := block_version b; header_size := header_size b; block_check := block_check b; compressed_size := c;
     uncompressed_size := u; filters := filters b; ignore_check := ignore_check b |}.

Section Decoder.
Context {U : Type} {C : Coder U}.
Abbreviation coder := (lzma_block_coder U).
Implicit Types (c : coder).

Definition set_coded c (n : U) (compressed uncompressed : Z) : coder :=
  mk_block_coder (b_sequence c) n (b_block c) (b_raw_check c) compressed uncompressed (b_compressed_limit c) (b_uncompressed_limit c)
    (b_check_pos c) (b_check c) (b_ignore_check c).
Definition set_check c (k : lzma_check_state) : coder :=
  mk_block_coder (b_sequence c) (b_next c) (b_block c) (b_raw_check c) (b_compressed_size c) (b_uncompressed_size c) (b_compressed_limit c)
    (b_uncompressed_limit c) (b_check_pos c) k (b_ignore_check c).
Definition set_block_sequence c (s : block_sequence) (b : lzma_block) : coder :=
  mk_block_coder s (b_next c) b (b_raw_check c) (b_compressed_size c) (b_uncompressed_size c) (b_compressed_limit c) (b_uncompressed_limit c)
    (b_check_pos c) (b_check c) (b_ignore_check c).
Definition set_raw_check c (b : bytes) (p : nat) : coder :=
  mk_block_coder (b_sequence c) (b_next c) (b_block c) b (b_compressed_size c) (b_uncompressed_size c) (b_compressed_limit c)
    (b_uncompressed_limit c) p (b_check c) (b_ignore_check c).

(** [case SEQ_CHECK:] *)
Definition case_check c (input : bytes) : lzma_ret * coder * bytes :=
  let type := block_check (b_block c) in
  let check_size := Z.to_nat (lzma_check_size type) in
  let '(raw, p, rest) := bufcpy_into input (b_raw_check c) (b_check_pos c) check_size in
  let c := set_raw_check c raw p in
  if (p <? check_size)%nat then (LZMA_OK, c, rest)
  else if negb (b_ignore_check c) && lzma_check_is_supported type
          && negb (bool_decide (take check_size raw = take check_size (chk_buffer (b_check c)))) then (LZMA_DATA_ERROR, c, rest)
  else (LZMA_STREAM_END, c, rest).

(** [case SEQ_PADDING:] after its loop, and [SEQ_CHECK]. *)
Definition after_padding c (input : bytes) : lzma_ret * coder * bytes :=
  if block_check (b_block c) =? LZMA_CHECK_NONE then (LZMA_STREAM_END, c, input)
  else
    let c := if b_ignore_check c then c else set_check c (lzma_check_finish (b_check c) (block_check (b_block c))) in
    case_check (set_block_sequence c SEQ_CHECK (b_block c)) input.

(** [while (coder->compressed_size & 3)] *)
Fixpoint padding_loop c (input : bytes) : lzma_ret * coder * bytes :=
  if Z.land (b_compressed_size c) 3 =? 0 then after_padding c input
  else
    match input with
    | [] => (LZMA_OK, c, [])
    | b :: rest =>
        let c := set_coded c (b_next c) (u64 (b_compressed_size c + 1)) (b_uncompressed_size c) in
        if negb (b =? 0) then (LZMA_DATA_ERROR, c, rest) else padding_loop c rest
    end.

(** [case SEQ_CODE:], and what follows by fall through. *)
Definition case_code c (input : bytes) (avail : nat) (action : lzma_action) : lzma_ret * coder * bytes * bytes :=
  let in_n := Z.to_nat (Z.min (zlen input) (u64 (b_compressed_limit c - b_compressed_size c))) in
  let out_n := Z.to_nat (Z.min (Z.of_nat avail) (u64 (b_uncompressed_limit c - b_uncompressed_size c))) in
  let '(ret, n, out, rest) := code (b_next c) (take in_n input) out_n action in
  let rest := rest ++ drop in_n input in
  let block := b_block c in
  let c := set_coded c n (u64 (b_compressed_size c + (zlen input - zlen rest))) (u64 (b_uncompressed_size c + zlen out)) in
  let comp_done := b_compressed_size c =? compressed_size block in
  let uncomp_done := b_uncompressed_size c =? uncompressed_size block in
  if bool_decide (ret = LZMA_OK)
     && ((comp_done && uncomp_done) || (comp_done && (length out <? avail)%nat) || (uncomp_done && (0 <? length rest)%nat))
  then (LZMA_DATA_ERROR, c, out, rest)
  else
    let c := if negb (b_ignore_check c) && (0 <? length out)%nat then set_check c (lzma_check_update (b_check c) (block_check block) out) else c in
    if negb (bool_decide (ret = LZMA_STREAM_END)) then (ret, c, out, rest)
    else if negb (is_size_valid (b_compressed_size c) (compressed_size block)) || negb (is_size_valid (b_uncompressed_size c) (uncompressed_size block))
    then (LZMA_DATA_ERROR, c, out, rest)
    else
      let '(ret, c, rest) :=
        padding_loop (set_block_sequence c SEQ_PADDING (set_block_sizes block (b_compressed_size c) (b_uncompressed_size c))) rest in
      (ret, c, out, rest).

Definition block_decode : Coder coder := fun c input avail action =>
  match b_sequence c with
  | SEQ_CODE => case_code c input avail action
  | SEQ_PADDING => let '(ret, c, rest) := padding_loop c input in (ret, c, [], rest)
  | SEQ_CHECK => let '(ret, c, rest) := case_check c input in (ret, c, [], rest)
  end.

(** [lzma_block_decoder_init]; [raw] and [check] are what the memory contains. *)
Definition lzma_block_decoder_init `{RawDecoder U} (raw : bytes) (check : lzma_check_state) (block : lzma_block) : res coder :=
  if (lzma_block_unpadded_size block =? 0) || negb (lzma_vli_is_valid (uncompressed_size block)) then Err LZMA_PROG_ERROR
  else
    let compressed_limit :=
      if compressed_size block =? LZMA_VLI_UNKNOWN
      then u64 (Z.land LZMA_VLI_MAX (Z.lnot 3) - header_size block - lzma_check_size (block_check block)) else compressed_size block in
    let uncompressed_limit := if uncompressed_size block =? LZMA_VLI_UNKNOWN then LZMA_VLI_MAX else uncompressed_size block in
    let? n := raw_decoder_init (filters block) in
    Ok (mk_block_coder SEQ_CODE n block raw 0 0 compressed_limit uncompressed_limit 0 (lzma_check_init check (block_check block))
      (if block_version block >=? 1 then ignore_check block else false)).
End Decoder.
#[export] Existing Instance block_decode.

(** ** Filling a buffer *)

Lemma bufcpy_into_spec input buf field p size : length field = size -> (size <= length buf)%nat -> (p <= size)%nat ->
  take p buf = take p field -> agrees input (drop p field) ->
  let '(buf', p', rest) := bufcpy_into input buf p size in
  exists used, input = used ++ rest /\ drop p field = used ++ drop p' field /\ (p' <= size)%nat /\ p' = (p + length used)%nat /\
    length buf' = length buf /\ take p' buf' = take p' field /\ (rest = [] \/ p' = size).
Proof.
  intros Hf Hb Hp Ht Ha. unfold bufcpy_into, lzma_bufcpy. set (n := Nat.min (length input) (size - p)).
  assert (length (take n input) = n) as Hn by (rewrite length_take; lia).
  assert (take n input = take n (drop p field)) as Hsame.
  { destruct Ha as (a & b & E). apply (f_equal (take n)) in E. rewrite !take_app_le in E by (rewrite ?length_drop; lia). exact E. }
  exists (take n input). rewrite Hn. split_and!; try lia.
  - now rewrite take_drop.
  - rewrite Hsame, (Nat.add_comm p n), Nat.add_comm, <- drop_drop. now rewrite take_drop.
  - rewrite !length_app, length_take, length_drop, Hn. lia.
  - rewrite app_assoc, take_app_length' by (rewrite length_app, length_take, Hn; lia).
    rewrite Ht, Hsame, <- (take_drop p (take (p + n) field)). rewrite take_take, Nat.min_l by lia. f_equal.
    rewrite skipn_firstn_comm. f_equal. lia.
  - destruct (Nat.le_ge_cases (length input) (size - p)); [left; apply drop_ge; lia|right; lia].
Qed.

Lemma bufcpy_within input buf p size :
  let '(buf', p', rest) := bufcpy_into input buf p size in
  exists used, input = used ++ rest /\ p' = (p + length used)%nat /\ length used = Nat.min (length input) (size - p) /\
    ((p <= size)%nat -> (size <= length buf)%nat -> length buf' = length buf /\ (p' <= size)%nat).
Proof.
  unfold bufcpy_into, lzma_bufcpy. set (n := Nat.min _ _). exists (take n input).
  assert (length (take n input) = n) as Hn by (rewrite length_take; lia). rewrite Hn. split_and!; auto; [now rewrite take_drop|].
  intros Hp Hs. rewrite !length_app, length_take, length_drop, Hn. lia.
Qed.

(** ** Blocks *)

(** The zeros behind [n] bytes. *)
Definition block_padding (n : Z) : bytes := replicate (Z.to_nat ((- n) mod 4)) 0.

Lemma padding_done n : Z.land n 3 = 0 -> block_padding n = [].
Proof.
  change 3 with (2 ^ 2 - 1). rewrite land_low by lia. change (2 ^ 2) with 4. intros H. unfold block_padding.
  replace ((- n) mod 4) with 0 by dlia. reflexivity.
Qed.

Lemma padding_more n : Z.land n 3 <> 0 -> block_padding n = 0 :: block_padding (n + 1).
Proof.
  change 3 with (2 ^ 2 - 1). rewrite land_low by lia. change (2 ^ 2) with 4. intros H. unfold block_padding.
  replace (Z.to_nat ((- n) mod 4)) with (S (Z.to_nat ((- (n + 1)) mod 4))) by dlia. reflexivity.
Qed.

Lemma padding_aligned n : 0 <= n -> (n + zlen (block_padding n)) mod 4 = 0 /\ zlen (block_padding n) <= 3.
Proof. intros Hn. unfold block_padding. rewrite length_replicate. dlia. Qed.

Section Promise.
Context {U : Type} {C : Coder U} {D : Decodes U} (chk0 : lzma_check_state).
Abbreviation coder := (lzma_block_coder U).
Implicit Types (c : coder).

(** The Check field is right, as far as it is looked at. *)
Definition field_ok c (field data : bytes) : Prop :=
  let type := block_check (b_block c) in
  length (b_raw_check c) = 64%nat /\ 0 <= type <= LZMA_CHECK_ID_MAX /\ zlen field = lzma_check_size type /\
  (b_ignore_check c = false -> lzma_check_is_supported type = true -> field = check_ref type data).

Definition checked c (chunks : list bytes) : Prop :=
  let type := block_check (b_block c) in
  Forall bytes_ok chunks /\
  (b_ignore_check c = false -> b_check c = fold_left (fun k b => lzma_check_update k type b) chunks (lzma_check_init chk0 type)).

(** A size of the Block Header: unknown, or the right one and the limit. *)
Definition size_ok (reference limit total : Z) : Prop :=
  0 <= total <= limit /\ limit <= LZMA_VLI_MAX /\ (reference = LZMA_VLI_UNKNOWN \/ reference = total /\ limit = total).

(** [final]: the structure [block] at the end. *)
Inductive block_expects (final : lzma_block) : coder -> bytes -> bytes -> Prop :=
  | expects_data c payload d field chunks total data :
      b_sequence c = SEQ_CODE -> expects (b_next c) payload d -> checked c chunks -> bytes_ok d -> data = concat chunks ++ d ->
      0 <= b_compressed_size c -> total = b_compressed_size c + zlen payload -> b_uncompressed_size c = zlen (concat chunks) ->
      size_ok (compressed_size (b_block c)) (b_compressed_limit c) total ->
      size_ok (uncompressed_size (b_block c)) (b_uncompressed_limit c) (zlen data) ->
      final = set_block_sizes (b_block c) total (zlen data) -> b_check_pos c = O -> field_ok c field data ->
      block_expects final c (payload ++ block_padding total ++ field) d
  | expects_padding c field chunks :
      b_sequence c = SEQ_PADDING -> checked c chunks -> 0 <= b_compressed_size c <= LZMA_VLI_MAX + 1 -> final = b_block c -> b_check_pos c = O ->
      field_ok c field (concat chunks) ->
      block_expects final c (block_padding (b_compressed_size c) ++ field) []
  | expects_check c field data :
      b_sequence c = SEQ_CHECK -> final = b_block c -> field_ok c field data -> (b_check_pos c <= length field)%nat ->
      take (b_check_pos c) (b_raw_check c) = take (b_check_pos c) field ->
      (b_ignore_check c = false -> lzma_check_is_supported (block_check final) = true -> take (length field) (chk_buffer (b_check c)) = field) ->
      block_expects final c (drop (b_check_pos c) field) [].

(** The answer of the part of the decoder that stores nothing. *)
Definition tail_answer final (p input : bytes) (r : lzma_ret * coder * bytes) : Prop :=
  let '(ret, c, rest) := r in
  exists used p', p = used ++ p' /\ input = used ++ rest /\
    (ret = LZMA_OK /\ block_expects final c p' [] /\ rest = [] /\ p' <> [] \/ ret = LZMA_STREAM_END /\ p' = [] /\ b_block c = final).

Lemma case_check_ok final c field data input :
  b_sequence c = SEQ_CHECK -> final = b_block c -> field_ok c field data -> (b_check_pos c <= length field)%nat ->
  take (b_check_pos c) (b_raw_check c) = take (b_check_pos c) field ->
  (b_ignore_check c = false -> lzma_check_is_supported (block_check final) = true -> take (length field) (chk_buffer (b_check c)) = field) ->
  agrees input (drop (b_check_pos c) field) -> tail_answer final (drop (b_check_pos c) field) input (case_check c input).
Proof using Type.
  intros Hseq -> (Hraw & Htype & Hlen & Hval) Hpos Hpre Hsame Ha. unfold case_check.
  pose proof (lzma_check_size_range _ Htype) as Hr. rewrite <- Hlen, Nat2Z.id.
  pose proof (bufcpy_into_spec input (b_raw_check c) field (b_check_pos c) (length field) eq_refl ltac:(lia) Hpos Hpre Ha) as Hb.
  destruct (bufcpy_into _ _ _ _) as [[raw p] rest]. destruct Hb as (used & -> & Hdrop & Hp & -> & Hlr & Htk & Hstop).
  cbn [b_check b_ignore_check set_raw_check]. set (p := (b_check_pos c + length used)%nat) in *.
  destruct (Nat.ltb_spec p (length field)) as [Hlt|Hge].
  - exists used, (drop p field). split_and!; [exact Hdrop|reflexivity|]. left. split_and!; [reflexivity| |destruct Hstop; [assumption|lia]|].
    2: { intros E. apply (f_equal length) in E. rewrite length_drop in E. cbn in E. lia. }
    change p with (b_check_pos (set_raw_check c raw p)).
    apply (expects_check (b_block c) (set_raw_check c raw p) field data); auto. split_and!; cbn; auto; lia.
  - assert (p = length field) as Hpe by lia. rewrite Hpe in *. rewrite firstn_all in Htk. rewrite drop_all in Hdrop.
    match goal with |- context [if ?t then _ else _] => assert (t = false) as -> end.
    { destruct (b_ignore_check c); [reflexivity|]. cbn [negb andb]. destruct (lzma_check_is_supported _) eqn:Es; [|reflexivity].
      rewrite Htk, Hsame by auto. now rewrite bool_decide_true. }
    exists used, []. split_and!; [exact Hdrop|reflexivity|]. right. split_and!; reflexivity.
Qed.

Context (Hchk0 : length (chk_buffer chk0) = 64%nat).

Lemma after_padding_ok final c field chunks input :
  b_sequence c = SEQ_PADDING -> checked c chunks -> final = b_block c -> b_check_pos c = O -> field_ok c field (concat chunks) ->
  agrees input field -> tail_answer final field input (after_padding c input).
Proof using Hchk0.
  intros Hseq [Hb Hchk] -> Hp Hf Ha. pose proof Hf as (Hraw & Htype & Hlen & Hval). unfold after_padding.
  destruct (Z.eqb_spec (block_check (b_block c)) LZMA_CHECK_NONE) as [E|Hne].
  - rewrite E in Hlen. change (lzma_check_size LZMA_CHECK_NONE) with 0 in Hlen. destruct field; [|cbn in Hlen; lia].
    exists [], []. split_and!; auto.
  - set (c1 := if b_ignore_check c then c else _). set (c2 := set_block_sequence c1 SEQ_CHECK (b_block c1)).
    assert (b_block c2 = b_block c /\ b_raw_check c2 = b_raw_check c /\ b_check_pos c2 = O /\ b_ignore_check c2 = b_ignore_check c) as (E1 & E2 & E3 & E4).
    { unfold c2, c1. destruct (b_ignore_check c) eqn:Ei; cbn; auto. }
    pose proof (case_check_ok (b_block c) c2 field (concat chunks) input) as H. rewrite E1, E2, E3, E4 in H. rewrite drop_0 in H.
    apply H; auto; [unfold field_ok; rewrite E1, E2, E4; exact Hf|lia|].
    intros Hi Hs. unfold c2, c1. rewrite Hi. cbn [b_check set_block_sequence set_check]. rewrite (Hchk Hi).
    destruct (check_field_ref chk0 (block_check (b_block c)) chunks ltac:(lia) Hs Hchk0 Hb) as [Href _].
    transitivity (check_field chk0 (block_check (b_block c)) chunks); [|rewrite Href; symmetry; auto].
    unfold check_field, slice, from. rewrite drop_0. f_equal. lia.
Qed.

Lemma padding_loop_ok final field chunks input : forall c,
  b_sequence c = SEQ_PADDING -> checked c chunks -> 0 <= b_compressed_size c <= LZMA_VLI_MAX + 1 -> final = b_block c -> b_check_pos c = O ->
  field_ok c field (concat chunks) -> agrees input (block_padding (b_compressed_size c) ++ field) ->
  tail_answer final (block_padding (b_compressed_size c) ++ field) input (padding_loop c input).
Proof using Hchk0.
  induction input as [|b input IH]; intros c Hseq Hck Hs Hfin Hp Hf Ha; cbn [padding_loop].
  - destruct (Z.eqb_spec (Z.land (b_compressed_size c) 3) 0) as [E|E].
    + rewrite (padding_done _ E) in *. cbn [app] in *. now apply (after_padding_ok final c field chunks).
    + exists [], (block_padding (b_compressed_size c) ++ field). split_and!; auto. left. split_and!; auto.
      * now apply (expects_padding final c field chunks).
      * rewrite (padding_more _ E). discriminate.
  - destruct (Z.eqb_spec (Z.land (b_compressed_size c) 3) 0) as [E|E].
    + rewrite (padding_done _ E) in *. cbn [app] in *. now apply (after_padding_ok final c field chunks).
    + rewrite (padding_more _ E) in *. cbn [app] in *. apply agrees_head in Ha as [-> Ha]. cbn [Z.eqb negb].
      assert (b_compressed_size c <= LZMA_VLI_MAX) as Hs2.
      { revert E. change 3 with (2 ^ 2 - 1). rewrite land_low by lia. change (2 ^ 2) with 4. unfold LZMA_VLI_MAX in *. intros E. dlia. }
      assert (u64 (b_compressed_size c + 1) = b_compressed_size c + 1) as Eu by (apply u64_small; unfold is_u64, LZMA_VLI_MAX in *; lia).
      set (c1 := set_coded c _ _ _). assert (b_compressed_size c1 = b_compressed_size c + 1) as Es by exact Eu.
      specialize (IH c1). rewrite Es in IH. specialize (IH Hseq Hck ltac:(lia) Hfin Hp Hf Ha).
      destruct (padding_loop c1 input) as [[ret c2] rest]. destruct IH as (used & p' & -> & -> & H).
      exists (0 :: used), p'. split_and!; auto.
Qed.
(** Limits that stop a call only where the payload [p] or the data [d] end. *)
Lemma limited_stop (rest1 more p d : bytes) (o avail : nat) :
  forall out_n, (rest1 = [] -> more <> [] -> p = []) -> (o = out_n -> o <> avail -> d = []) ->
  rest1 = [] \/ o = out_n -> (d = [] -> rest1 = [] /\ p <> []) -> (p = [] -> o = out_n) ->
  (rest1 ++ more = [] \/ o = avail) /\ (d = [] -> rest1 ++ more = [] /\ p <> []) /\ (p = [] -> o = avail).
Proof using Type.
  intros out_n Hi Ho Hs He Hf. assert (p = [] -> o = avail) as F3.
  { intros Hp. destruct (decide (o = avail)) as [|Hne]; [assumption|]. destruct He as [_ H]; [auto|contradiction]. }
  assert (d = [] -> rest1 ++ more = [] /\ p <> []) as F2.
  { intros Hd. destruct (He Hd) as [-> Hp]. split; [|exact Hp]. destruct more; [reflexivity|]. exfalso. apply Hp, Hi; [reflexivity|discriminate]. }
  split_and!; auto. destruct Hs as [->|E].
  - destruct more; [now left|right]. apply F3, Hi; [reflexivity|discriminate].
  - destruct (decide (o = avail)); [now right|left]. now apply F2, Ho.
Qed.

Lemma case_code_ok final c p d input avail action :
  block_expects final c p d -> b_sequence c = SEQ_CODE -> bytes_ok input -> agrees input p ->
  let '(ret, c', out, rest) := case_code c input avail action in
  answers (block_expects final) p d input avail (ret, c', out, rest) /\ (ret = LZMA_STREAM_END -> b_block c' = final).
Proof using Hchk0.
  intros Hexp Hcode Hbi Ha. inversion Hexp as [? payload ? field chunks total data Hseq Hn [Hck Hchk] Hbd Hdata H0 Htot Hu Hcs Hus Hfin Hpos Hf| |]; try congruence. subst c0 d0 p.
  unfold case_code. destruct Hcs as ([_ Hcl] & Hcm & Hcr). destruct Hus as ([_ Hul] & Hum & Hur).
  pose proof (Zle_0_nat (length payload)) as Hpl. pose proof (Zle_0_nat (length (concat chunks))) as Hdl.
  assert (zlen data = zlen (concat chunks) + zlen d) as Hlen by (rewrite Hdata, length_app; lia).
  unfold LZMA_VLI_MAX in *. rewrite (u64_small (b_compressed_limit c - _)), (u64_small (b_uncompressed_limit c - _)) by (unfold is_u64; lia).
  set (in_n := Z.to_nat _). set (out_n := Z.to_nat _).
  pose proof (expects_code (b_next c) payload d (take in_n input) out_n action Hn ltac:(now apply Forall_take)
    (agrees_take _ _ _ (agrees_app _ _ _ Ha))) as Hans.
  destruct (code _ _ _ _) as [[[ret n] out] rest1]. cbn [answers] in Hans. destruct Hans as (used & p' & d' & -> & Hin & -> & Hlo & Hret).
  assert (input = used ++ rest1 ++ drop in_n input) as Hinput by (now rewrite app_assoc, <- Hin, take_drop).
  set (rest := rest1 ++ drop in_n input) in *. rewrite !length_app in *.
  assert (zlen input - zlen rest = zlen used) as Hused by (rewrite Hinput at 1; rewrite length_app; lia).
  rewrite Hused. rewrite (u64_small (b_compressed_size c + _)), (u64_small (b_uncompressed_size c + _)) by (unfold is_u64; lia).
  cbn [b_compressed_size b_uncompressed_size set_coded b_ignore_check].
  assert (rest1 = [] -> drop in_n input <> [] -> p' = []) as Hin_stop.
  { intros -> Hdrop. rewrite app_nil_r in Hin. assert (in_n < length input)%nat as Hlt by (destruct (Nat.le_gt_cases (length input) in_n); [rewrite drop_ge in Hdrop by lia; contradiction|lia]).
    apply (f_equal length) in Hin. rewrite length_take in Hin. apply length_zero_iff_nil. lia. }
  assert (length out = out_n -> length out <> avail -> d' = []) as Hout_stop by (intros E Hne; apply length_zero_iff_nil; lia).
  set (c1 := set_coded c n _ _).
  assert (exists chunks2, concat chunks2 = concat chunks ++ out /\
    checked (if negb (b_ignore_check c) && (0 <? length out)%nat then set_check c1 (lzma_check_update (b_check c1) (block_check (b_block c)) out) else c1) chunks2) as (chunks2 & Hcat & Hchecked).
  { apply Forall_app in Hbd as [Hbo _]. destruct (Nat.ltb_spec 0 (length out)) as [Ho|Ho].
    - exists (chunks ++ [out]). split; [now rewrite concat_app; cbn; rewrite app_nil_r|]. destruct (b_ignore_check c) eqn:Ei; cbn [negb andb];
        (split; [apply Forall_app; split; [exact Hck|now constructor]|cbn; rewrite Ei; try discriminate]).
      intros _. rewrite fold_left_app. cbn [fold_left]. now rewrite (Hchk eq_refl).
    - exists chunks. destruct out; [|cbn in Ho; lia]. rewrite app_nil_r. split; [reflexivity|]. rewrite andb_false_r. split; [exact Hck|exact Hchk]. }
  set (c2 := if negb (b_ignore_check c) && _ then _ else c1) in *.
  assert (b_sequence c2 = SEQ_CODE /\ b_next c2 = n /\ b_block c2 = b_block c /\ b_raw_check c2 = b_raw_check c /\ b_check_pos c2 = O /\
    b_ignore_check c2 = b_ignore_check c /\ b_compressed_size c2 = b_compressed_size c + zlen used /\ b_uncompressed_size c2 = b_uncompressed_size c + zlen out /\
    b_compressed_limit c2 = b_compressed_limit c /\ b_uncompressed_limit c2 = b_uncompressed_limit c) as (E1 & E2 & E3 & E4 & E5 & E6 & E7 & E8 & E9 & E10).
  { unfold c2. case_if; cbn; split_and!; auto. }
  clearbody c2.
  assert (concat chunks2 ++ d' = data) as Hdata2 by (now rewrite Hdata, Hcat, <- app_assoc).
  assert (field_ok c2 field data) as Hf2 by (unfold field_ok; rewrite E3, E4, E6; exact Hf).
  assert (zlen (concat chunks2) = b_uncompressed_size c2) as Hu2 by (rewrite Hcat, length_app; lia).
  destruct Hret as [(-> & Hn' & Hstop & Hend & Hfull)|(-> & -> & ->)].
  - destruct (limited_stop rest1 (drop in_n input) p' d' (length out) avail out_n Hin_stop Hout_stop Hstop Hend Hfull) as (F1 & F2 & F3). fold rest in F1, F2.
    match goal with |- context [if ?t then _ else _] => assert (t = false) as -> end.
    { rewrite bool_decide_true by reflexivity. cbn [andb].
      destruct (Z.eqb_spec (b_compressed_size c + zlen used) (compressed_size (b_block c))) as [Ec|]; cbn [andb orb].
      - assert (p' = []) as Hp' by (apply length_zero_iff_nil; unfold LZMA_VLI_UNKNOWN, UINT64_MAX in *; lia).
        rewrite (proj2 (Nat.ltb_ge _ _)) by (rewrite F3 by exact Hp'; lia). rewrite orb_false_r.
        destruct (Z.eqb_spec (b_uncompressed_size c + zlen out) (uncompressed_size (b_block c))) as [Eu|]; [|reflexivity].
        exfalso. destruct F2 as [_ Hne]; [apply length_zero_iff_nil; unfold LZMA_VLI_UNKNOWN, UINT64_MAX in *; lia|contradiction].
      - destruct (Z.eqb_spec (b_uncompressed_size c + zlen out) (uncompressed_size (b_block c))) as [Eu|]; [|reflexivity].
        destruct F2 as [-> _]; [apply length_zero_iff_nil; unfold LZMA_VLI_UNKNOWN, UINT64_MAX in *; lia|reflexivity]. }
    rewrite bool_decide_false by discriminate. cbn [negb]. split; [|discriminate].
    exists used, (p' ++ block_padding total ++ field), d'. split_and!; [now rewrite <- app_assoc|exact Hinput|reflexivity|lia|]. left. split_and!.
    + reflexivity.
    + apply (expects_data final c2 p' d' field chunks2 total data); auto; try congruence; try lia.
      * apply Forall_app in Hbd. tauto.
      * unfold size_ok. rewrite E3, E9. unfold LZMA_VLI_MAX. tauto || (split_and!; auto; lia).
      * unfold size_ok. rewrite E3, E10. unfold LZMA_VLI_MAX. split_and!; auto; lia.
    + exact F1.
    + intros Hd'. destruct (F2 Hd') as [-> Hne]. split; [reflexivity|]. intros E. apply app_eq_nil in E as [? _]. contradiction.
    + intros E. apply app_eq_nil in E as [E _]. auto.
  - rewrite (bool_decide_false (LZMA_STREAM_END = LZMA_OK)) by discriminate. cbn [andb]. rewrite bool_decide_true by reflexivity. cbn [negb].
    rewrite !app_nil_r in *. cbn [length] in *. rewrite Nat.add_0_r in *.
    match goal with |- context [if ?t then _ else _] => assert (t = false) as -> end.
    { unfold is_size_valid. apply orb_false_iff. split; apply negb_false_iff, orb_true_iff; rewrite !Z.eqb_eq; [|clear Hcr]; lia. }
    set (c3 := set_block_sequence c2 SEQ_PADDING _).
    assert (b_compressed_size c3 = total /\ b_block c3 = final) as [E11 E12].
    { split; [cbn; lia|]. unfold c3. cbn [b_block set_block_sequence]. rewrite Hfin, <- Hu2, Hdata2. f_equal; lia. }
    assert (b_block c3 = set_block_sizes (b_block c) (b_compressed_size c2) (b_uncompressed_size c2)) as E13 by reflexivity.
    assert (agrees rest (block_padding total ++ field)) as Ha2 by (rewrite Hinput in Ha; now apply agrees_cut in Ha).
    pose proof (padding_loop_ok final field chunks2 rest c3) as H. rewrite E11 in H.
    assert (tail_answer final (block_padding total ++ field) rest (padding_loop c3 rest)) as Ht.
    { apply H; auto; [|unfold LZMA_VLI_MAX; lia|].
      - destruct Hchecked as [Hb Hk]. split; [exact Hb|]. rewrite E13. cbn [block_check set_block_sizes]. intros Hi. rewrite <- E3. now apply Hk.
      - destruct Hf2 as (G1 & G2 & G3 & G4). rewrite E3 in G2, G3, G4. unfold field_ok. rewrite E13. cbn [block_check set_block_sizes]. rewrite Hdata2. split_and!; auto; lia. }
    clear H. destruct (padding_loop c3 rest) as [[ret c4] rest2]. destruct Ht as (used2 & p2 & Hp2 & Hr2 & Hend).
    split; [|now intros ->; destruct Hend as [[? _]|(_ & _ & ?)]].
    exists (used ++ used2), p2, []. split_and!; [now rewrite Hp2, <- app_assoc|now rewrite Hinput, Hr2, <- app_assoc|now rewrite app_nil_r|lia|].
    destruct Hend as [(-> & Hb4 & -> & Hne)|(-> & -> & _)]; [left|now right]. split_and!; auto. contradiction.
Qed.

Lemma block_decode_ok final c p d input avail action :
  block_expects final c p d -> bytes_ok input -> agrees input p ->
  let '(ret, c', out, rest) := block_decode c input avail action in
  answers (block_expects final) p d input avail (ret, c', out, rest) /\ (ret = LZMA_STREAM_END -> b_block c' = final).
Proof using Hchk0.
  intros Hexp Hbi Ha. unfold block_decode. destruct (b_sequence c) eqn:Hseq; [now apply case_code_ok|..].
  - inversion Hexp as [|? field chunks _ Hck Hs Hfin Hp Hf|]; try congruence. subst c0 p d.
    pose proof (padding_loop_ok final field chunks input c Hseq Hck Hs Hfin Hp Hf Ha) as H.
    destruct (padding_loop c input) as [[ret c1] rest]. destruct H as (used & p' & -> & -> & Hend).
    split; [|now intros ->; destruct Hend as [[? _]|(_ & _ & ?)]]. exists used, p', []. split_and!; auto; [cbn; lia|].
    destruct Hend as [(-> & Hb & -> & Hne)|(-> & -> & _)]; [left|now right]. split_and!; auto. contradiction.
  - inversion Hexp as [| |? field data _ Hfin Hf Hp Hpre Hsame]; try congruence. subst c0 p d.
    pose proof (case_check_ok final c field data input Hseq Hfin Hf Hp Hpre Hsame Ha) as H.
    destruct (case_check c input) as [[ret c1] rest]. destruct H as (used & p' & -> & -> & Hend).
    split; [|now intros ->; destruct Hend as [[? _]|(_ & _ & ?)]]. exists used, p', []. split_and!; auto; [cbn; lia|].
    destruct Hend as [(-> & Hb & -> & Hne)|(-> & -> & _)]; [left|now right]. split_and!; auto. contradiction.
Qed.

End Promise.

#[export] Instance block_decodes {U} {C : Coder U} {D : Decodes U} : Decodes (lzma_block_coder U).
Proof.
  exists (fun c p d => exists chk0 final, length (chk_buffer chk0) = 64%nat /\ block_expects chk0 final c p d).
  intros c p d input avail action (chk0 & final & Hchk & Hexp) Hb Ha. pose proof (block_decode_ok chk0 Hchk final c p d input avail action Hexp Hb Ha) as H.
  unfold code. destruct (block_decode c input avail action) as [[[ret c1] out] rest]. destruct H as [(used & p' & d' & H1 & H2 & H3 & H4 & H5) _].
  exists used, p', d'. split_and!; auto. destruct H5 as [(? & ? & ?)|?]; [left|now right]. split_and!; try tauto. now exists chk0, final.
Defined.

(** ** Blocks with their headers *)

(** [payload] and [field] are right for [data] and for the sizes in the header. *)
Record block_valid (b : lzma_block) (payload field data : bytes) : Prop := {
  valid_version : 0 <= block_version b <= 1;
  valid_header : 8 <= header_size b <= 1024 /\ header_size b mod 4 = 0;
  valid_check : 0 <= block_check b <= LZMA_CHECK_ID_MAX;
  valid_compressed : compressed_size b = LZMA_VLI_UNKNOWN \/ compressed_size b = zlen payload;
  valid_payload : 0 < zlen payload /\ zlen payload + header_size b + lzma_check_size (block_check b) <= UNPADDED_SIZE_MAX;
  valid_uncompressed : uncompressed_size b = LZMA_VLI_UNKNOWN \/ uncompressed_size b = zlen data;
  valid_data : zlen data <= LZMA_VLI_MAX /\ bytes_ok data;
  valid_field : zlen field = lzma_check_size (block_check b) /\
    ((if block_version b >=? 1 then ignore_check b else false) = false -> lzma_check_is_supported (block_check b) = true -> field = check_ref (block_check b) data);
}.

Definition block_bytes (payload field : bytes) : bytes := payload ++ block_padding (zlen payload) ++ field.

Lemma vli_valid_small v : 0 <= v <= LZMA_VLI_MAX -> lzma_vli_is_valid v = true.
Proof. intros Hv. unfold lzma_vli_is_valid. rewrite (proj2 (Z.leb_le _ _)) by lia. reflexivity. Qed.

Lemma block_init_ok {U} {C : Coder U} {D : Decodes U} {R : RawDecoder U} raw chk b payload field data n :
  block_valid b payload field data -> length raw = 64%nat -> raw_decoder_init (filters b) = Ok n -> expects n payload data ->
  exists c, lzma_block_decoder_init raw chk b = Ok c /\
    block_expects chk (set_block_sizes b (zlen payload) (zlen data)) c (block_bytes payload field) data.
Proof.
  intros [Hv [Hh Hm] Hk Hc [Hp Hlim] Hu [Hd Hb] [Hfl Hf]] Hraw Hn Hexp. unfold lzma_block_decoder_init.
  pose proof (lzma_check_size_range _ Hk) as Hcs. change UNPADDED_SIZE_MAX with 9223372036854775804 in Hlim.
  assert (block_sizes_ok b) as Hs.
  { unfold block_sizes_ok, LZMA_VLI_UNKNOWN, UINT64_MAX in *. split_and!; try lia; [destruct Hc as [->| ->]; [reflexivity|apply vli_valid_small; unfold LZMA_VLI_MAX; lia]|].
    intros Hne. destruct Hc as [E|E]; [contradiction|]. rewrite E, u64_small by (unfold is_u64; lia). change UNPADDED_SIZE_MAX with 9223372036854775804. lia. }
  destruct (unpadded_size_spec b) as [[_ Hne] _]; [unfold LZMA_VLI_UNKNOWN, UINT64_MAX in *; lia|lia|].
  rewrite (proj2 (Z.eqb_neq _ _)) by now apply Hne.
  assert (lzma_vli_is_valid (uncompressed_size b) = true) as -> by (destruct Hu as [->| ->]; [reflexivity|apply vli_valid_small; lia]).
  cbn [orb negb]. rewrite Hn. cbn [res_bind]. change (Z.land LZMA_VLI_MAX (Z.lnot 3)) with 9223372036854775804.
  eexists. split; [reflexivity|]. unfold block_bytes.
  apply (expects_data chk _ _ payload data field [] (zlen payload) data); cbn; auto; try lia.
  - split; [constructor|]. reflexivity.
  - unfold size_ok, LZMA_VLI_MAX, LZMA_VLI_UNKNOWN, UINT64_MAX in *. destruct Hc as [->|E].
    + rewrite Z.eqb_refl. rewrite u64_small by (unfold is_u64; lia). split_and!; auto; lia.
    + rewrite E. rewrite (proj2 (Z.eqb_neq _ _)) by lia. split_and!; auto; lia.
  - unfold size_ok, LZMA_VLI_MAX, LZMA_VLI_UNKNOWN, UINT64_MAX in *. destruct Hu as [->|E].
    + rewrite Z.eqb_refl. split_and!; auto; lia.
    + rewrite E. rewrite (proj2 (Z.eqb_neq _ _)) by lia. split_and!; auto; lia.
  - split_and!; cbn; auto; lia.
Qed.

(** ** The decoder stays within its buffers *)

Section Bounds.
Context {U : Type} {C : Coder U} {F : Safe U}.
Implicit Types (c : lzma_block_coder U).

Definition block_safe c : Prop := b_sequence c = SEQ_CODE -> safe (b_next c).

Lemma case_check_within c input : b_sequence c <> SEQ_CODE ->
  let '(ret, c', rest) := case_check c input in b_sequence c' <> SEQ_CODE /\ exists used, input = used ++ rest.
Proof using Type.
  intros Hs. unfold case_check. pose proof (bufcpy_within input (b_raw_check c) (b_check_pos c) (Z.to_nat (lzma_check_size (block_check (b_block c))))) as H.
  destruct (bufcpy_into _ _ _ _) as [[raw p] rest]. destruct H as (used & -> & _). repeat case_if; cbn; eauto.
Qed.

Lemma padding_loop_within input : forall c, b_sequence c <> SEQ_CODE ->
  let '(ret, c', rest) := padding_loop c input in b_sequence c' <> SEQ_CODE /\ exists used, input = used ++ rest.
Proof using Type.
  assert (forall c l, b_sequence c <> SEQ_CODE -> let '(ret, c', rest) := after_padding c l in b_sequence c' <> SEQ_CODE /\ exists used, l = used ++ rest) as Hafter.
  { intros c l Hs. unfold after_padding. case_if; [split; [exact Hs|now exists []]|]. now apply case_check_within. }
  induction input as [|b input IH]; intros c Hs; cbn [padding_loop]; (destruct (Z.land _ _ =? 0); [now apply Hafter|]).
  - split; [exact Hs|now exists []].
  - destruct (negb _); [split; [exact Hs|now exists [b]]|]. specialize (IH (set_coded c (b_next c) (u64 (b_compressed_size c + 1)) (b_uncompressed_size c)) Hs).
    destruct (padding_loop _ input) as [[ret c'] rest]. destruct IH as (H & used & ->). split; [exact H|now exists (b :: used)].
Qed.

Lemma case_code_within c input avail action : block_safe c -> b_sequence c = SEQ_CODE -> bytes_ok input ->
  kept block_safe input avail (case_code c input avail action).
Proof using Type.
  intros Hs Hc Hb. unfold case_code. set (in_n := Z.to_nat _). set (out_n := Z.to_nat _).
  pose proof (safe_code (b_next c) (take in_n input) out_n action (Hs Hc) ltac:(now apply Forall_take)) as Hk.
  destruct (code _ _ _ _) as [[[ret n] out] rest1]. destruct Hk as (Hl & (used & Hin) & Hok).
  assert (length out <= avail)%nat as Hl' by (unfold out_n in Hl; lia).
  assert (input = used ++ rest1 ++ drop in_n input) as Hinput by (now rewrite app_assoc, <- Hin, take_drop).
  set (rest := rest1 ++ drop in_n input) in *. clearbody rest.
  assert (exists used, input = used ++ rest) as Hsuf by now exists used.
  set (c1 := set_coded c n _ _). assert (b_sequence c1 = SEQ_CODE /\ b_next c1 = n) as [E1 E2] by (split; [exact Hc|reflexivity]). clearbody c1.
  match goal with |- context [if ?t then (LZMA_DATA_ERROR, _, _, _) else _] => destruct t end; [split_and!; auto; discriminate|].
  set (c2 := if negb (b_ignore_check c1) && _ then _ else c1).
  assert (b_sequence c2 = SEQ_CODE /\ b_next c2 = n) as [E3 E4] by (unfold c2; case_if; split; auto). clearbody c2.
  destruct (bool_decide_reflect (ret = LZMA_STREAM_END)) as [->|Hne]; cbn [negb].
  - match goal with |- context [if ?t then _ else _] => destruct t end; [split_and!; auto; discriminate|].
    match goal with |- context [padding_loop ?x rest] => pose proof (padding_loop_within rest x ltac:(discriminate)) as Hp end.
    destruct (padding_loop _ rest) as [[ret c3] rest2]. destruct Hp as (Hp & used2 & ->).
    split_and!; auto; [exists (used ++ used2); now rewrite <- app_assoc|]. intros _ E. contradiction.
  - split_and!; auto. intros Hg _. rewrite E4. now apply Hok.
Qed.
End Bounds.

#[export] Instance block_coder_safe {U} {C : Coder U} {F : Safe U} : Safe (lzma_block_coder U).
Proof.
  exists block_safe. intros c input avail action Hs Hb. unfold code, block_decode. destruct (b_sequence c) eqn:E.
  - now apply case_code_within.
  - pose proof (padding_loop_within input c ltac:(congruence)) as H. destruct (padding_loop c input) as [[ret c'] rest]. destruct H as (H & Hu).
    split_and!; auto; [cbn; lia|]. intros _ ?. contradiction.
  - pose proof (case_check_within c input ltac:(congruence)) as H. destruct (case_check c input) as [[ret c'] rest]. destruct H as (H & Hu).
    split_and!; auto; [cbn; lia|]. intros _ ?. contradiction.
Defined.

(** ** The memory that is used again *)

Section Memory.

Lemma store_length b start src : 0 <= start -> start + zlen src <= 64 -> length b = 64%nat -> length (store b start src) = 64%nat.
Proof. intros H1 H2 H3. rewrite <- H3. apply store_spec; lia. Qed.

Lemma sha_update_length buf : forall fuel c, length (sha_buffer c) = 64%nat -> length (sha_buffer (sha256_update_loop fuel buf c)) = 64%nat.
Proof.
  intros fuel. revert buf. induction fuel as [|fuel IH]; intros buf c Hc; cbn [sha256_update_loop]; [exact Hc|]. case_if; [exact Hc|]. cbv zeta.
  assert (0 <= Z.land (sha_size c) 63 < 64) as Hs by (change 63 with (2 ^ 6 - 1); rewrite land_low by lia; change (2 ^ 6) with 64; dlia).
  set (start := Z.land (sha_size c) 63) in *. set (n := if 64 - start >? zlen buf then _ else _).
  assert (0 <= n /\ n <= 64 - start) as Hn by (unfold n; case_if; b2p; lia).
  apply IH. assert (length (store (sha_buffer c) start (slice 0 n buf)) = 64%nat) as E.
  { apply store_length; [lia| |exact Hc]. unfold slice. rewrite length_take. lia. }
  match goal with |- context [if ?t then process _ else _] => destruct t end; exact E.
Qed.

Lemma sha_pad_length fuel : forall p c, 0 <= p <= 64 -> length (sha_buffer c) = 64%nat -> length (sha_buffer (sha256_pad_loop fuel p c)) = 64%nat.
Proof.
  induction fuel as [|fuel IH]; intros p c Hp Hc; cbn [sha256_pad_loop]; [exact Hc|]. case_if; [exact Hc|].
  destruct (Z.eqb_spec p 64); apply IH; try lia; cbn [sha_buffer]; (apply store_length; [lia|cbn; lia|exact Hc]).
Qed.

Lemma transform_words st data : zlen (flat_map write32be (transform st data)) = 32.
Proof. unfold transform. destruct (fold_left _ _ _) as [T W]. reflexivity. Qed.

Lemma check_update_length c type buf : length (chk_buffer c) = 64%nat -> length (chk_buffer (lzma_check_update c type buf)) = 64%nat.
Proof. intros H. unfold lzma_check_update. repeat case_if; try exact H. now apply sha_update_length. Qed.

Lemma check_finish_length c type : length (chk_buffer c) = 64%nat -> length (chk_buffer (lzma_check_finish c type)) = 64%nat.
Proof.
  intros H. unfold lzma_check_finish. repeat case_if; try exact H; try (apply store_length; [lia|cbn; lia|exact H]).
  unfold lzma_sha256_finish, chk_buffer in *. cbv zeta. cbn [sha_buffer chk_sha256].
  assert (0 <= Z.land (sha_size (chk_sha256 c)) 63 < 64) as Hs by (change 63 with (2 ^ 6 - 1); rewrite land_low by lia; change (2 ^ 6) with 64; dlia).
  unfold process. cbn [sha_buffer sha_state]. apply store_length; [lia|rewrite transform_words; lia|]. apply store_length; [lia|cbn; lia|].
  apply sha_pad_length; [lia|]. cbn [sha_buffer]. apply store_length; [lia|cbn; lia|exact H].
Qed.

Lemma check_init_length c type : length (chk_buffer c) = 64%nat -> length (chk_buffer (lzma_check_init c type)) = 64%nat.
Proof. intros H. unfold lzma_check_init. repeat case_if; exact H. Qed.

Context {U : Type} {C : Coder U}.
Implicit Types (c : lzma_block_coder U).

(** The arrays have their lengths, and the Check is one that exists. *)
Definition block_memory c : Prop :=
  length (b_raw_check c) = 64%nat /\ length (chk_buffer (b_check c)) = 64%nat /\ 0 <= block_check (b_block c) <= LZMA_CHECK_ID_MAX /\
  (b_check_pos c <= Z.to_nat (lzma_check_size (block_check (b_block c))))%nat.

Lemma case_check_memory c input : block_memory c -> block_memory (case_check c input).1.2.
Proof using Type.
  intros (Hr & Hk & Ht & Hp). unfold case_check. pose proof (lzma_check_size_range _ Ht) as Hs.
  pose proof (bufcpy_within input (b_raw_check c) (b_check_pos c) (Z.to_nat (lzma_check_size (block_check (b_block c))))) as H.
  destruct (bufcpy_into _ _ _ _) as [[raw p] rest]. destruct H as (used & _ & _ & _ & H). destruct H as [H1 H2]; [lia|lia|].
  repeat case_if; unfold block_memory; cbn; split_and!; auto; lia.
Qed.

Lemma padding_loop_memory input : forall c, block_memory c -> block_memory (padding_loop c input).1.2.
Proof using Type.
  assert (forall c l, block_memory c -> block_memory (after_padding c l).1.2) as Hafter.
  { intros c l (H1 & H2 & H3 & H4). unfold after_padding. case_if; [now split_and!|]. apply case_check_memory. unfold block_memory. case_if; cbn; split_and!; auto using check_finish_length; lia. }
  induction input as [|b input IH]; intros c Hc; cbn [padding_loop]; (destruct (Z.land _ _ =? 0); [now apply Hafter|]); [exact Hc|].
  destruct (negb _); [exact Hc|]. apply IH. exact Hc.
Qed.

Lemma block_decode_memory c input avail action : block_memory c -> block_memory (block_decode c input avail action).1.1.2.
Proof using Type.
  intros Hc. unfold block_decode. destruct (b_sequence c).
  - unfold case_code. destruct (code _ _ _ _) as [[[ret n] out] rest]. set (c1 := set_coded c n _ _).
    assert (block_memory c1 /\ b_block c1 = b_block c) as [H1 E1] by (split; [exact Hc|reflexivity]). clearbody c1.
    match goal with |- context [if ?t then (LZMA_DATA_ERROR, _, _, _) else _] => destruct t end; [exact H1|].
    set (c2 := if negb (b_ignore_check c1) && _ then _ else c1).
    assert (block_memory c2) as H2 by (unfold c2; case_if; [|exact H1]; destruct H1 as (? & ? & ? & ?); unfold block_memory; cbn; split_and!; auto using check_update_length; lia).
    assert (b_block c2 = b_block c) as E2 by (unfold c2; case_if; exact E1).
    clearbody c2. destruct (negb _); [exact H2|]. destruct (_ || _); [exact H2|].
    match goal with |- context [padding_loop ?x ?r] => pose proof (padding_loop_memory r x) as Hp; destruct (padding_loop x r) as [[ret2 c3] rest2] end.
    apply Hp. unfold block_memory in *. rewrite E2 in H2. exact H2.
  - pose proof (padding_loop_memory input c Hc) as H. destruct (padding_loop c input) as [[ret c1] rest]. exact H.
  - pose proof (case_check_memory c input Hc) as H. destruct (case_check c input) as [[ret c1] rest]. exact H.
Qed.
End Memory.

(** ** A Block that is accepted has the check of its data *)

Section Sound.
Context {U : Type} {C : Coder U} {F : Safe U} (chk0 : lzma_check_state) (type reference limit : Z).
Implicit Types (c : lzma_block_coder U).
Hypothesis Htype : 0 <= type <= LZMA_CHECK_ID_MAX.
Hypothesis Hlimit : limit <= LZMA_VLI_MAX.

Abbreviation check_size := (Z.to_nat (lzma_check_size type)).

(** The state of the check after the data [given]. *)
Definition check_of (k : lzma_check_state) (given : bytes) : Prop :=
  exists chunks, concat chunks = given /\ k = fold_left (fun k b => lzma_check_update k type b) chunks (lzma_check_init chk0 type).

(** The Block decoder has read [got] and given [given]. *)
Definition block_sound c (got given : bytes) : Prop :=
  block_safe c /\ block_check (b_block c) = type /\ b_ignore_check c = false /\ length (b_raw_check c) = 64%nat /\
  match b_sequence c with
  | SEQ_CODE => b_check_pos c = O /\ check_of (b_check c) given /\ b_uncompressed_size c = zlen given /\ zlen given <= limit /\
      b_uncompressed_limit c = limit /\ uncompressed_size (b_block c) = reference
  | SEQ_PADDING => b_check_pos c = O /\ check_of (b_check c) given /\ (reference = LZMA_VLI_UNKNOWN \/ reference = zlen given)
  | SEQ_CHECK => (b_check_pos c < check_size)%nat /\ (exists body, got = body ++ take (b_check_pos c) (b_raw_check c)) /\
      (exists k, check_of k given /\ b_check c = lzma_check_finish k type) /\ (reference = LZMA_VLI_UNKNOWN \/ reference = zlen given)
  end.

(** The bytes that were read end with the check. *)
Definition block_accepted (got given : bytes) : Prop :=
  (reference = LZMA_VLI_UNKNOWN \/ reference = zlen given) /\
  exists body field chunks, got = body ++ field /\ length field = check_size /\ concat chunks = given /\
    (lzma_check_is_supported type = true -> field = check_field chk0 type chunks).

Definition sound_answer (got given input : bytes) (r : lzma_ret * lzma_block_coder U * bytes * bytes) : Prop :=
  let '(ret, c, out, rest) := r in
  exists used, input = used ++ rest /\ (ret = LZMA_OK -> block_sound c (got ++ used) (given ++ out)) /\
    (ret = LZMA_STREAM_END -> block_accepted (got ++ used) (given ++ out)).

Lemma check_size_small : (check_size <= 64)%nat.
Proof using Htype. pose proof (lzma_check_size_range _ Htype). lia. Qed.

Lemma sound_more got used given input ret c out rest :
  sound_answer (got ++ used) given input (ret, c, out, rest) -> sound_answer got given (used ++ input) (ret, c, out, rest).
Proof using Type.
  intros (u & -> & H1 & H2). exists (used ++ u). rewrite <- !app_assoc in *. now split_and!.
Qed.

(** The check is collected behind the first [b_check_pos] bytes. *)
Lemma check_sound c got given input : b_sequence c = SEQ_CHECK -> block_check (b_block c) = type -> b_ignore_check c = false ->
  length (b_raw_check c) = 64%nat -> (b_check_pos c <= check_size)%nat -> (exists body, got = body ++ take (b_check_pos c) (b_raw_check c)) ->
  (exists k, check_of k given /\ b_check c = lzma_check_finish k type) -> (reference = LZMA_VLI_UNKNOWN \/ reference = zlen given) ->
  let '(ret, c', rest) := case_check c input in sound_answer got given input (ret, c', [], rest).
Proof using Htype.
  intros Hs Ht Hi Hr Hp (body & Hgot) (k & (chunks & Hcat & Hk) & Hfin) Href. pose proof check_size_small as Hsz. unfold case_check. rewrite Ht.
  unfold bufcpy_into, lzma_bufcpy. set (n := Nat.min _ _). set (l := take n input). assert (length l = n) as Hl by (unfold l; rewrite length_take; lia).
  set (raw := take (b_check_pos c) (b_raw_check c) ++ l ++ drop (b_check_pos c + length l) (b_raw_check c)). set (p := (b_check_pos c + length l)%nat).
  assert (take p raw = take (b_check_pos c) (b_raw_check c) ++ l) as Htk.
  { unfold raw, p. rewrite app_assoc. apply take_app_length'. rewrite length_app, length_take. lia. }
  assert (length raw = 64%nat) as Hraw by (unfold raw; rewrite !length_app, length_take, length_drop; lia).
  cbn [b_ignore_check set_raw_check b_check]. rewrite Hi. cbn [negb andb].
  assert (input = l ++ drop n input) as Hin by (unfold l; now rewrite take_drop).
  destruct (Nat.ltb_spec p check_size).
  - exists l. split; [exact Hin|]. split; [|discriminate]. intros _. rewrite app_nil_r. unfold block_sound. cbn. rewrite Hs. split; [intros E; cbn in E; congruence|].
    split_and!; auto; [exists body; rewrite Hgot, Htk; now rewrite <- app_assoc|exists k; split; [now exists chunks|exact Hfin]].
  - assert (p = check_size) as Ep by (unfold p in *; lia). destruct (lzma_check_is_supported type) eqn:Esup; cbn [andb].
    + destruct (bool_decide_reflect (take check_size raw = take check_size (chk_buffer (b_check c)))) as [Eq|]; cbn [negb]; [|exists l; split; [exact Hin|]; split; discriminate].
      exists l. split; [exact Hin|]. split; [discriminate|]. intros _. rewrite app_nil_r. split; [exact Href|]. exists body, (take check_size raw), chunks.
      rewrite <- Ep at 1. rewrite Htk, Hgot, <- app_assoc. split_and!; auto; [rewrite length_take; lia|]. intros _. rewrite Eq. unfold check_field, slice, from. rewrite drop_0, Hfin, Hk. reflexivity.
    + exists l. split; [exact Hin|]. split; [discriminate|]. intros _. rewrite app_nil_r. split; [exact Href|]. exists body, (take check_size raw), chunks.
      rewrite <- Ep at 1. rewrite Htk, Hgot, <- app_assoc. split_and!; auto; [rewrite length_take; lia|congruence].
Qed.

Lemma padding_sound input : forall c got given, b_sequence c = SEQ_PADDING -> block_check (b_block c) = type -> b_ignore_check c = false ->
  length (b_raw_check c) = 64%nat -> b_check_pos c = O -> check_of (b_check c) given -> (reference = LZMA_VLI_UNKNOWN \/ reference = zlen given) ->
  let '(ret, c', rest) := padding_loop c input in sound_answer got given input (ret, c', [], rest).
Proof using Htype.
  assert (forall c got given input, b_sequence c = SEQ_PADDING -> block_check (b_block c) = type -> b_ignore_check c = false ->
    length (b_raw_check c) = 64%nat -> b_check_pos c = O -> check_of (b_check c) given -> (reference = LZMA_VLI_UNKNOWN \/ reference = zlen given) ->
    let '(ret, c', rest) := after_padding c input in sound_answer got given input (ret, c', [], rest)) as Hafter.
  { clear input. intros c got given input Hs Ht Hi Hr Hp Hk Href. unfold after_padding. rewrite Ht. destruct (Z.eqb_spec type LZMA_CHECK_NONE) as [E|E].
    - exists []. split; [reflexivity|]. split; [discriminate|]. intros _. rewrite !app_nil_r. split; [exact Href|]. destruct Hk as (chunks & Hcat & _).
      exists got, [], chunks. rewrite app_nil_r. split_and!; auto; [rewrite E; reflexivity|]. intros _. unfold check_field. rewrite E. reflexivity.
    - rewrite Hi. apply check_sound; cbn; auto; [lia|exists got; rewrite Hp; cbn; now rewrite app_nil_r|now exists (b_check c)]. }
  induction input as [|b input IH]; intros c got given Hs Ht Hi Hr Hp Hk Href; cbn [padding_loop]; (destruct (Z.land _ _ =? 0); [now apply Hafter|]).
  - exists []. split; [reflexivity|]. split; [|discriminate]. intros _. rewrite !app_nil_r. unfold block_sound. rewrite Hs. split; [intros E; congruence|]. now split_and!.
  - destruct (negb (b =? 0)); [exists [b]; split; [reflexivity|]; split; discriminate|].
    specialize (IH (set_coded c (b_next c) (u64 (b_compressed_size c + 1)) (b_uncompressed_size c)) (got ++ [b]) given Hs Ht Hi Hr Hp Hk Href).
    destruct (padding_loop _ input) as [[ret c'] rest]. exact (sound_more got [b] given input ret c' [] rest IH).
Qed.

Lemma check_of_more k given out : check_of k given -> check_of (lzma_check_update k type out) (given ++ out).
Proof using Type.
  intros (chunks & <- & ->). exists (chunks ++ [out]). rewrite concat_app, fold_left_app. cbn [concat fold_left]. rewrite app_nil_r. split; reflexivity.
Qed.

Lemma code_sound c got given input avail action : b_sequence c = SEQ_CODE -> block_sound c got given -> bytes_ok input ->
  sound_answer got given input (case_code c input avail action).
Proof using Htype Hlimit.
  intros Hs (Hsafe & Ht & Hi & Hr & Hst) Hb. rewrite Hs in Hst. destruct Hst as (Hp & Hk & Hu & Hul & Hlim & Href). unfold case_code.
  set (in_n := Z.to_nat _). set (out_n := Z.to_nat _).
  pose proof (safe_code (b_next c) (take in_n input) out_n action (Hsafe Hs) ltac:(now apply Forall_take)) as Hkept.
  destruct (code _ _ _ _) as [[[ret n] out] rest1]. destruct Hkept as (Hl & (used & Hin) & Hok).
  assert (input = used ++ rest1 ++ drop in_n input) as Hinput by (now rewrite app_assoc, <- Hin, take_drop).
  set (rest := rest1 ++ drop in_n input) in *. clearbody rest. unfold LZMA_VLI_MAX in Hlimit.
  assert (zlen (given ++ out) = zlen given + zlen out /\ zlen given + zlen out <= limit) as [Hlen Hle].
  { rewrite length_app. unfold out_n in Hl. rewrite Hlim, Hu, u64_small in Hl by (unfold is_u64; lia). lia. }
  rewrite Hu, (u64_small (zlen given + zlen out)) by (unfold is_u64; lia). rewrite <- Hlen. set (c1 := set_coded c n _ _).
  assert (b_sequence c1 = SEQ_CODE /\ block_check (b_block c1) = type /\ b_ignore_check c1 = false /\ b_check c1 = b_check c /\ b_raw_check c1 = b_raw_check c /\
    b_check_pos c1 = O /\ b_uncompressed_size c1 = zlen (given ++ out) /\ b_uncompressed_limit c1 = limit /\ uncompressed_size (b_block c1) = reference /\ b_next c1 = n /\ b_block c1 = b_block c)
    as (E1 & E2 & E3 & E4 & E5 & E6 & E7 & E8 & E9 & E10 & E11) by now split_and!. clearbody c1.
  match goal with |- context [if ?t then (LZMA_DATA_ERROR, _, _, _) else _] => destruct t end; [exists used; split; [exact Hinput|]; split; discriminate|].
  rewrite E3, <- E11, E2. cbn [negb andb]. set (c2 := if (0 <? length out)%nat then _ else c1).
  assert (check_of (b_check c2) (given ++ out)) as Hk2.
  { unfold c2. destruct (Nat.ltb_spec 0 (length out)); [cbn [b_check set_check]; rewrite E4; now apply check_of_more|]. destruct out; [now rewrite app_nil_r, E4|cbn in *; lia]. }
  assert (b_sequence c2 = SEQ_CODE /\ b_block c2 = b_block c1 /\ b_ignore_check c2 = false /\ b_raw_check c2 = b_raw_check c1 /\
    b_check_pos c2 = O /\ b_uncompressed_size c2 = zlen (given ++ out) /\ b_uncompressed_limit c2 = limit /\ b_next c2 = n)
    as (F1 & F2 & F3 & F4 & F5 & F6 & F7 & F8) by (unfold c2; destruct (0 <? length out)%nat; now split_and!). clearbody c2.
  destruct (bool_decide_reflect (ret = LZMA_STREAM_END)) as [->|Hne]; cbn [negb].
  - rewrite E9, F6. match goal with |- context [if ?t then (LZMA_DATA_ERROR, _, _, _) else _] => destruct t eqn:Es end; [exists used; split; [exact Hinput|]; split; discriminate|].
    apply orb_false_iff in Es as [_ Es]. apply negb_false_iff in Es. unfold is_size_valid in Es. apply orb_true_iff in Es.
    match goal with |- context [padding_loop ?x rest] => pose proof (padding_sound rest x (got ++ used) (given ++ out)) as Hpad end.
    cbn [b_sequence set_block_sequence b_block b_ignore_check b_raw_check b_check_pos b_check block_check set_block_sizes] in Hpad.
    specialize (Hpad eq_refl E2 F3 ltac:(congruence) F5 Hk2 ltac:(destruct Es as [Es|Es]; apply Z.eqb_eq in Es; auto)).
    destruct (padding_loop _ rest) as [[ret c3] rest2]. destruct Hpad as (used2 & -> & H1 & H2). exists (used ++ used2). rewrite app_nil_r in *. rewrite app_assoc in *.
    split; [exact Hinput|]. now split.
  - exists used. split; [exact Hinput|]. split; [|intros ->; contradiction]. intros ->. split; [intros _; rewrite F8; now apply Hok|].
    rewrite F1, F2, F4. split_and!; auto; congruence || lia.
Qed.

Lemma block_decode_sound c got given input avail action : block_sound c got given -> bytes_ok input ->
  sound_answer got given input (block_decode c input avail action).
Proof using Htype Hlimit.
  intros Hc Hb. unfold block_decode. destruct (b_sequence c) eqn:Hs; [now apply code_sound|..]; destruct Hc as (Hsafe & Ht & Hi & Hr & Hst); rewrite Hs in Hst.
  - destruct Hst as (Hp & Hk & Href). pose proof (padding_sound input c got given Hs Ht Hi Hr Hp Hk Href) as H. now destruct (padding_loop c input) as [[ret c'] rest].
  - destruct Hst as (Hp & Hg & Hk & Href). pose proof (check_sound c got given input Hs Ht Hi Hr ltac:(lia) Hg Hk Href) as H. now destruct (case_check c input) as [[ret c'] rest].
Qed.

Lemma feed_sound calls : forall c got given input, block_sound c got given -> bytes_ok input ->
  let '(ret, c', out, unread) := feed c input calls in
  exists used, input = used ++ unread /\ (ret = LZMA_STREAM_END -> block_accepted (got ++ used) (given ++ out)).
Proof using Htype Hlimit.
  induction calls as [|[n m] calls IH]; intros c got given input Hc Hb; cbn [feed]; [exists []; split; [reflexivity|discriminate]|].
  pose proof (block_decode_sound c got given (take n input) m LZMA_RUN Hc ltac:(now apply Forall_take)) as H. change (code c (take n input) m LZMA_RUN) with (block_decode c (take n input) m LZMA_RUN).
  destruct (block_decode _ _ _ _) as [[[ret c1] out] rest]. destruct H as (used & Hin & Hok & Hend).
  assert (input = used ++ rest ++ drop n input) as Hinput by (now rewrite app_assoc, <- Hin, take_drop).
  destruct ret; try (exists used; split; [exact Hinput|discriminate]).
  - assert (bytes_ok (rest ++ drop n input)) as Hb' by (rewrite Hinput in Hb; now apply Forall_app in Hb).
    specialize (IH c1 (got ++ used) (given ++ out) (rest ++ drop n input) (Hok eq_refl) Hb'). destruct (feed c1 _ calls) as [[[ret c2] more] unread].
    destruct IH as (used2 & E & H). exists (used ++ used2). split; [now rewrite <- app_assoc, <- E|]. rewrite <- !app_assoc in H. exact H.
  - exists used. split; [exact Hinput|exact Hend].
Qed.
End Sound.
