(* ===== verification/StreamDecoder.v ===== *)
(** * The Stream decoder

    [lib/archive/xz/src/liblzma/common/stream_decoder.c]: a .xz Stream is the Stream
    Header, Blocks with their headers, the Index and the Stream Footer; there may be
    several Streams with Stream Padding between them.  [stream_decode] is the state
    machine that collects the headers, runs the Block decoder, keeps the sizes of the
    Blocks in the Index hash and compares.  It keeps the promise of a decoder that is
    given its input in pieces ([Decodes]) when the chains of filters do. *)

From Stdlib Require Import ZArith Lia.
From stdpp Require Import list.
From S2P Require Import Prelude Vli Crc Check FilterProps FilterFlags BlockHeader StreamFlags IndexHash Coder Decodes BlockDecoder IndexPieces.

Definition LZMA_TELL_NO_CHECK : Z := 0x01.
Definition LZMA_TELL_UNSUPPORTED_CHECK : Z := 0x02.
Definition LZMA_TELL_ANY_CHECK : Z := 0x04.
Definition LZMA_CONCATENATED : Z := 0x08.
Definition LZMA_IGNORE_CHECK : Z := 0x10.
Definition LZMA_FAIL_FAST : Z := 0x20.
Definition LZMA_SUPPORTED_FLAGS : Z :=
  Z.lor (Z.lor (Z.lor (Z.lor (Z.lor LZMA_TELL_NO_CHECK LZMA_TELL_UNSUPPORTED_CHECK) LZMA_TELL_ANY_CHECK) LZMA_IGNORE_CHECK) LZMA_CONCATENATED)
    LZMA_FAIL_FAST.
Definition LZMA_MEMUSAGE_BASE : Z := Z.shiftl 1 15.

Inductive stream_sequence :=
  | SEQ_STREAM_HEADER | SEQ_BLOCK_HEADER | SEQ_BLOCK_INIT | SEQ_BLOCK_RUN | SEQ_INDEX | SEQ_STREAM_FOOTER | SEQ_STREAM_PADDING.

(** [s_block_options] is the structure that the Block decoder points to. *)
Record lzma_stream_coder (U : Type) := mk_stream_coder {
  s_sequence : stream_sequence;
  s_block_decoder : option (lzma_block_coder U);
  s_block_options : lzma_block;
  s_stream_flags : lzma_stream_flags;
  s_index_hash : lzma_index_hash;
  s_memlimit : Z;
  s_memusage : Z;
  s_tell_no_check : bool;
  s_tell_unsupported_check : bool;
  s_tell_any_check : bool;
  s_ignore_check : bool;
  s_concatenated : bool;
  s_first_stream : bool;
  s_pos : nat;
  s_buffer : bytes;
}.
Arguments mk_stream_coder {U} _ _ _ _ _ _ _ _ _ _ _ _ _ _ _.
Arguments s_sequence {U} _.
Arguments s_block_decoder {U} _.
Arguments s_block_options {U} _.
Arguments s_stream_flags {U} _.
Arguments s_index_hash {U} _.
Arguments s_memlimit {U} _.
Arguments s_memusage {U} _.
Arguments s_tell_no_check {U} _.
Arguments s_tell_unsupported_check {U} _.
Arguments s_tell_any_check {U} _.
Arguments s_ignore_check {U} _.
Arguments s_concatenated {U} _.
Arguments s_first_stream {U} _.
Arguments s_pos {U} _.
Arguments s_buffer {U} _.

(** ** Assignments to the members *)

Section Assignments.
Context {U : Type}.
Implicit Types (c : lzma_stream_coder U).

Definition set_stream_sequence c (s : stream_sequence) : lzma_stream_coder U :=
  mk_stream_coder s (s_block_decoder c) (s_block_options c) (s_stream_flags c) (s_index_hash c) (s_memlimit c) (s_memusage c) (s_tell_no_check c)
    (s_tell_unsupported_check c) (s_tell_any_check c) (s_ignore_check c) (s_concatenated c) (s_first_stream c) (s_pos c) (s_buffer c).
Definition set_block_decoder c (b : lzma_block_coder U) (o : lzma_block) : lzma_stream_coder U :=
  mk_stream_coder (s_sequence c) (Some b) o (s_stream_flags c) (s_index_hash c) (s_memlimit c) (s_memusage c) (s_tell_no_check c)
    (s_tell_unsupported_check c) (s_tell_any_check c) (s_ignore_check c) (s_concatenated c) (s_first_stream c) (s_pos c) (s_buffer c).
Definition set_block_options c (o : lzma_block) : lzma_stream_coder U :=
  mk_stream_coder (s_sequence c) (s_block_decoder c) o (s_stream_flags c) (s_index_hash c) (s_memlimit c) (s_memusage c) (s_tell_no_check c)
    (s_tell_unsupported_check c) (s_tell_any_check c) (s_ignore_check c) (s_concatenated c) (s_first_stream c) (s_pos c) (s_buffer c).
Definition set_stream_flags c (f : lzma_stream_flags) : lzma_stream_coder U :=
  mk_stream_coder (s_sequence c) (s_block_decoder c) (s_block_options c) f (s_index_hash c) (s_memlimit c) (s_memusage c) (s_tell_no_check c)
    (s_tell_unsupported_check c) (s_tell_any_check c) (s_ignore_check c) (s_concatenated c) (s_first_stream c) (s_pos c) (s_buffer c).
Definition set_index_hash c (h : lzma_index_hash) : lzma_stream_coder U :=
  mk_stream_coder (s_sequence c) (s_block_decoder c) (s_block_options c) (s_stream_flags c) h (s_memlimit c) (s_memusage c) (s_tell_no_check c)
    (s_tell_unsupported_check c) (s_tell_any_check c) (s_ignore_check c) (s_concatenated c) (s_first_stream c) (s_pos c) (s_buffer c).
Definition set_memlimit c (m : Z) : lzma_stream_coder U :=
  mk_stream_coder (s_sequence c) (s_block_decoder c) (s_block_options c) (s_stream_flags c) (s_index_hash c) m (s_memusage c) (s_tell_no_check c)
    (s_tell_unsupported_check c) (s_tell_any_check c) (s_ignore_check c) (s_concatenated c) (s_first_stream c) (s_pos c) (s_buffer c).
Definition set_memusage c (m : Z) : lzma_stream_coder U :=
  mk_stream_coder (s_sequence c) (s_block_decoder c) (s_block_options c) (s_stream_flags c) (s_index_hash c) (s_memlimit c) m (s_tell_no_check c)
    (s_tell_unsupported_check c) (s_tell_any_check c) (s_ignore_check c) (s_concatenated c) (s_first_stream c) (s_pos c) (s_buffer c).
Definition set_first_stream c (b : bool) : lzma_stream_coder U :=
  mk_stream_coder (s_sequence c) (s_block_decoder c) (s_block_options c) (s_stream_flags c) (s_index_hash c) (s_memlimit c) (s_memusage c)
    (s_tell_no_check c) (s_tell_unsupported_check c) (s_tell_any_check c) (s_ignore_check c) (s_concatenated c) b (s_pos c) (s_buffer c).
Definition set_buffer c (p : nat) (b : bytes) : lzma_stream_coder U :=
  mk_stream_coder (s_sequence c) (s_block_decoder c) (s_block_options c) (s_stream_flags c) (s_index_hash c) (s_memlimit c) (s_memusage c)
    (s_tell_no_check c) (s_tell_unsupported_check c) (s_tell_any_check c) (s_ignore_check c) (s_concatenated c) (s_first_stream c) p b.
End Assignments.

(** Assignments to the members of [block_options]. *)
Definition set_block_check (b : lzma_block) (check : Z) : lzma_block :=
  {| block_version := block_version b; header_size := header_size b; block_check := check; compressed_size := compressed_size b;
     uncompressed_size := uncompressed_size b; filters := filters b; ignore_check := ignore_check b |}.
Definition set_block_version (b : lzma_block) (v : Z) : lzma_block :=
  {| block_version := v; header_size := header_size b; block_check := block_check b; compressed_size := compressed_size b;
     uncompressed_size := uncompressed_size b; filters := filters b; ignore_check := ignore_check b |}.
Definition set_block_ignore_check (b : lzma_block) (i : bool) : lzma_block :=
  {| block_version := block_version b; header_size := header_size b; block_check := block_check b; compressed_size := compressed_size b;
     uncompressed_size := uncompressed_size b; filters := filters b; ignore_check := i |}.
Definition set_block_filters (b : lzma_block) (f : list lzma_filter) : lzma_block :=
  {| block_version := block_version b; header_size := header_size b; block_check := block_check b; compressed_size := compressed_size b;
     uncompressed_size := uncompressed_size b; filters := f; ignore_check := ignore_check b |}.

(** The structure that the Block decoder points to was changed. *)
Definition point_to {U} (b : lzma_block_coder U) (o : lzma_block) : lzma_block_coder U :=
  mk_block_coder (b_sequence b) (b_next b) o (b_raw_check b) (b_compressed_size b) (b_uncompressed_size b) (b_compressed_limit b)
    (b_uncompressed_limit b) (b_check_pos b) (b_check b) (b_ignore_check b).

(** ** [stream_decode] *)

(** [break] from the [switch], or the end of the call. *)
Inductive stream_step (U : Type) :=
  | SAgain (c : lzma_stream_coder U) (out rest : bytes)
  | SReturn (ret : lzma_ret) (c : lzma_stream_coder U) (out rest : bytes).
Arguments SAgain {U} _ _ _.
Arguments SReturn {U} _ _ _ _.

(** What the memory that is allocated contains: for the options of a filter, and
    for a Block decoder. *)
Class StreamMemory := {
  options_memory : option lzma_options_lzma;
  raw_check_memory : bytes;
  check_memory : lzma_check_state;
}.

Section Decoder.
Context {U : Type} {C : Coder U} {R : RawDecoder U} {M : StreamMemory}.
Implicit Types (c : lzma_stream_coder U).

Definition stream_decoder_reset c : lzma_stream_coder U :=
  set_buffer (set_stream_sequence (set_index_hash c (lzma_index_hash_init (s_index_hash c))) SEQ_STREAM_HEADER) 0 (s_buffer c).

(** The loop of [SEQ_STREAM_PADDING]: the position and the input that is left. *)
Fixpoint skip_padding (p : nat) (input : bytes) : nat * bytes :=
  match input with
  | b :: rest => if negb (b =? 0) then (p, input) else skip_padding (Z.to_nat (Z.land (Z.of_nat (p + 1)) 3)) rest
  | [] => (p, [])
  end.

Definition case_stream_padding c (input : bytes) (action : lzma_action) : stream_step U :=
  let '(p, rest) := skip_padding (s_pos c) input in
  let c := set_buffer c p (s_buffer c) in
  match rest with
  | [] =>
      if negb (bool_decide (action = LZMA_FINISH)) then SReturn LZMA_OK c [] []
      else SReturn (if (p =? 0)%nat then LZMA_STREAM_END else LZMA_DATA_ERROR) c [] []
  | _ :: after => if negb (p =? 0)%nat then SReturn LZMA_DATA_ERROR c [] after else SAgain (stream_decoder_reset c) [] rest
  end.

Definition case_stream_footer c (input : bytes) (action : lzma_action) : stream_step U :=
  let '(buffer, p, rest) := bufcpy_into input (s_buffer c) (s_pos c) (Z.to_nat LZMA_STREAM_HEADER_SIZE) in
  let c := set_buffer c p buffer in
  if (p <? Z.to_nat LZMA_STREAM_HEADER_SIZE)%nat then SReturn LZMA_OK c [] rest
  else
    let c := set_buffer c 0 buffer in
    match lzma_stream_footer_decode buffer with
    | Err ret => SReturn (if bool_decide (ret = LZMA_FORMAT_ERROR) then LZMA_DATA_ERROR else ret) c [] rest
    | Ok footer_flags =>
        if negb (lzma_index_hash_size (s_index_hash c) =? backward_size footer_flags) then SReturn LZMA_DATA_ERROR c [] rest
        else
          match lzma_stream_flags_compare (s_stream_flags c) footer_flags with
          | LZMA_OK =>
              if negb (s_concatenated c) then SReturn LZMA_STREAM_END c [] rest
              else case_stream_padding (set_stream_sequence c SEQ_STREAM_PADDING) rest action
          | ret => SReturn ret c [] rest
          end
    end.

Definition case_index c (input : bytes) (action : lzma_action) : stream_step U :=
  match input with
  | [] => SReturn LZMA_OK c [] []
  | _ =>
      let '(ret, h, rest) := lzma_index_hash_decode (s_index_hash c) input in
      let c := set_index_hash c h in
      if negb (bool_decide (ret = LZMA_STREAM_END)) then SReturn ret c [] rest
      else case_stream_footer (set_stream_sequence c SEQ_STREAM_FOOTER) rest action
  end.

Definition case_block_run c (input : bytes) (avail : nat) (action : lzma_action) : stream_step U :=
  match s_block_decoder c with
  | None => SReturn LZMA_PROG_ERROR c [] input
  | Some b =>
      let '(ret, b, out, rest) := block_decode b input avail action in
      let c := set_block_decoder c b (b_block b) in
      if negb (bool_decide (ret = LZMA_STREAM_END)) then SReturn ret c out rest
      else
        let '(ret, h) := lzma_index_hash_append (s_index_hash c) (lzma_block_unpadded_size (s_block_options c)) (uncompressed_size (s_block_options c)) in
        let c := set_index_hash c h in
        match ret with
        | LZMA_OK => SAgain (set_stream_sequence c SEQ_BLOCK_HEADER) out rest
        | _ => SReturn ret c out rest
        end
  end.

(** The Block decoder is used again or allocated. *)
Definition init_block_decoder c (block : lzma_block) : res (lzma_block_coder U) :=
  match s_block_decoder c with
  | Some b => lzma_block_decoder_init (b_raw_check b) (b_check b) block
  | None => lzma_block_decoder_init raw_check_memory check_memory block
  end.

Definition case_block_init c (input : bytes) (avail : nat) (action : lzma_action) : stream_step U :=
  let c := set_block_options c (set_block_version (s_block_options c) 1) in
  match lzma_block_header_decode options_memory (s_block_options c) (s_buffer c) with
  | Err ret => SReturn ret c [] input
  | Ok block =>
      let block := set_block_ignore_check block (s_ignore_check c) in
      let memusage := raw_decoder_memusage (filters block) in
      let c := set_block_options c (set_block_filters block []) in
      if memusage =? UINT64_MAX then SReturn LZMA_OPTIONS_ERROR c [] input
      else
        let c := set_memusage c memusage in
        if memusage >? s_memlimit c then SReturn LZMA_MEMLIMIT_ERROR c [] input
        else
          match init_block_decoder c block with
          | Err ret => SReturn ret c [] input
          | Ok b => case_block_run (set_stream_sequence (set_block_decoder c (point_to b (s_block_options c)) (s_block_options c)) SEQ_BLOCK_RUN) input avail action
          end
  end.

Definition case_block_header c (input : bytes) (avail : nat) (action : lzma_action) : stream_step U :=
  match input with
  | [] => SReturn LZMA_OK c [] []
  | b :: _ =>
      if (s_pos c =? 0)%nat && (b =? INDEX_INDICATOR) then SAgain (set_stream_sequence c SEQ_INDEX) [] input
      else
        let c := if (s_pos c =? 0)%nat then set_block_options c (set_header_size (s_block_options c) (lzma_block_header_size_decode b)) else c in
        let size := Z.to_nat (header_size (s_block_options c)) in
        let '(buffer, p, rest) := bufcpy_into input (s_buffer c) (s_pos c) size in
        if (p <? size)%nat then SReturn LZMA_OK (set_buffer c p buffer) [] rest
        else case_block_init (set_stream_sequence (set_buffer c 0 buffer) SEQ_BLOCK_INIT) rest avail action
  end.

Definition case_stream_header c (input : bytes) (avail : nat) (action : lzma_action) : stream_step U :=
  let '(buffer, p, rest) := bufcpy_into input (s_buffer c) (s_pos c) (Z.to_nat LZMA_STREAM_HEADER_SIZE) in
  let c := set_buffer c p buffer in
  if (p <? Z.to_nat LZMA_STREAM_HEADER_SIZE)%nat then SReturn LZMA_OK c [] rest
  else
    let c := set_buffer c 0 buffer in
    match lzma_stream_header_decode buffer with
    | Err ret => SReturn (if bool_decide (ret = LZMA_FORMAT_ERROR) && negb (s_first_stream c) then LZMA_DATA_ERROR else ret) c [] rest
    | Ok flags =>
        let c := set_first_stream (set_stream_flags c flags) false in
        let c := set_block_options c (set_block_check (s_block_options c) (check flags)) in
        let c := set_stream_sequence c SEQ_BLOCK_HEADER in
        if s_tell_no_check c && (check flags =? LZMA_CHECK_NONE) then SReturn LZMA_NO_CHECK c [] rest
        else if s_tell_unsupported_check c && negb (lzma_check_is_supported (check flags)) then SReturn LZMA_UNSUPPORTED_CHECK c [] rest
        else if s_tell_any_check c then SReturn LZMA_GET_CHECK c [] rest
        else case_block_header c rest avail action
    end.

Definition stream_iteration c (input : bytes) (avail : nat) (action : lzma_action) : stream_step U :=
  match s_sequence c with
  | SEQ_STREAM_HEADER => case_stream_header c input avail action
  | SEQ_BLOCK_HEADER => case_block_header c input avail action
  | SEQ_BLOCK_INIT => case_block_init c input avail action
  | SEQ_BLOCK_RUN => case_block_run c input avail action
  | SEQ_INDEX => case_index c input action
  | SEQ_STREAM_FOOTER => case_stream_footer c input action
  | SEQ_STREAM_PADDING => case_stream_padding c input action
  end.

(** [while (true)], on [fuel]. *)
Fixpoint stream_loop (fuel : nat) c (input : bytes) (avail : nat) (action : lzma_action) : option (lzma_ret * lzma_stream_coder U * bytes * bytes) :=
  match fuel with
  | O => None
  | S fuel =>
      match stream_iteration c input avail action with
      | SReturn ret c out rest => Some (ret, c, out, rest)
      | SAgain c out rest =>
          '(ret, c, more, rest) ← stream_loop fuel c rest (avail - length out) action; Some (ret, c, out ++ more, rest)
      end
  end.

(** Enough for the iterations: every one that ends with [break] gets ahead. *)
Definition stream_fuel (input : bytes) : nat := 4 * length input + 5.

Definition stream_decode : Coder (lzma_stream_coder U) := fun c input avail action =>
  default (LZMA_PROG_ERROR, c, [], input) (stream_loop (stream_fuel input) c input avail action).

(** ** The other operations *)

Definition stream_decoder_get_check c : Z := check (s_stream_flags c).

(** The return code, [*memusage], [*old_memlimit] and the coder. *)
Definition stream_decoder_memconfig c (new_memlimit : Z) : lzma_ret * Z * Z * lzma_stream_coder U :=
  if negb (new_memlimit =? 0) then
    if new_memlimit <? s_memusage c then (LZMA_MEMLIMIT_ERROR, s_memusage c, s_memlimit c, c)
    else (LZMA_OK, s_memusage c, s_memlimit c, set_memlimit c new_memlimit)
  else (LZMA_OK, s_memusage c, s_memlimit c, c).

(** [next]: the coder that is used again.  [memory]: what was allocated for one,
    its member [s_index_hash] for the Index hash ([index_memory]: that was, too). *)
Definition lzma_stream_decoder_init (next memory : option (lzma_stream_coder U)) (index_memory : bool) (memlimit flags : Z) : res (lzma_stream_coder U) :=
  if negb (Z.land flags (Z.lnot LZMA_SUPPORTED_FLAGS) =? 0) then Err LZMA_OPTIONS_ERROR
  else
    let flag f := negb (Z.land flags f =? 0) in
    let start c b := stream_decoder_reset (mk_stream_coder (s_sequence c) b (s_block_options c) (s_stream_flags c) (s_index_hash c)
      (Z.max 1 memlimit) LZMA_MEMUSAGE_BASE (flag LZMA_TELL_NO_CHECK) (flag LZMA_TELL_UNSUPPORTED_CHECK) (flag LZMA_TELL_ANY_CHECK)
      (flag LZMA_IGNORE_CHECK) (flag LZMA_CONCATENATED) true (s_pos c) (s_buffer c)) in
    match next, memory with
    | Some c, _ => Ok (start c (s_block_decoder c))
    | None, None => Err LZMA_MEM_ERROR
    | None, Some c => if negb index_memory then Err LZMA_MEM_ERROR else Ok (start c None)
    end.
End Decoder.
#[export] Existing Instance stream_decode.

(** ** The loop ends, and within the buffers *)

(** The chains that are started are in order. *)
Class RawSafe (U : Type) {C : Coder U} {R : RawDecoder U} {F : Safe U} :=
  raw_init_safe fs n : raw_decoder_init fs = Ok n -> safe n.

Lemma block_init_safe {U} {C : Coder U} {R : RawDecoder U} {F : Safe U} {L : RawSafe U} raw chk block b :
  lzma_block_decoder_init raw chk block = Ok b -> block_safe b.
Proof.
  unfold lzma_block_decoder_init. case_if; [discriminate|]. destruct (raw_decoder_init (filters block)) as [n|] eqn:E; cbn [res_bind]; [|discriminate].
  intros [= <-] _. exact (raw_init_safe _ _ E).
Qed.

Section Bounds.
Context {U : Type} {C : Coder U} {R : RawDecoder U} {M : StreamMemory} {F : Safe U} {L : RawSafe U}.
Implicit Types (c : lzma_stream_coder U).

(** What the members are between two iterations. *)
Definition stream_safe c : Prop :=
  length (s_buffer c) = 1024%nat /\
  match s_sequence c with
  | SEQ_STREAM_HEADER | SEQ_STREAM_FOOTER => (s_pos c < 12)%nat
  | SEQ_BLOCK_HEADER => (s_pos c = 0 \/ s_pos c < Z.to_nat (header_size (s_block_options c)) <= 1024)%nat
  | SEQ_BLOCK_INIT | SEQ_INDEX => s_pos c = 0%nat
  | SEQ_BLOCK_RUN => s_pos c = 0%nat /\ exists b, s_block_decoder c = Some b /\ safe b
  | SEQ_STREAM_PADDING => (s_pos c < 4)%nat
  end.

(** The coder may be called again; the chain of filters must have returned
    [LZMA_OK]. *)
Definition goes_on (ret : lzma_ret) c : Prop :=
  ret = LZMA_OK \/ fatal ret = false /\ ret <> LZMA_STREAM_END /\ s_sequence c <> SEQ_BLOCK_RUN.

Definition done (ret : lzma_ret) : bool := negb (bool_decide (ret = LZMA_OK)) && (fatal ret || bool_decide (ret = LZMA_STREAM_END)).

Lemma done_stops ret c : done ret = true -> ~ goes_on ret c.
Proof using Type. unfold done, goes_on. intros Hd [->|(Hf & Hn & _)]; [discriminate|]. rewrite Hf, (bool_decide_false (ret = LZMA_STREAM_END)), andb_false_r in Hd by exact Hn. discriminate. Qed.

Definition returned (input : bytes) (avail : nat) (r : lzma_ret * lzma_stream_coder U * bytes * bytes) : Prop :=
  let '(ret, c, out, rest) := r in (length out <= avail)%nat /\ (exists used, input = used ++ rest) /\ (goes_on ret c -> stream_safe c).

(** The iterations until input is read. *)
Definition stream_rank c : nat :=
  match s_sequence c with
  | SEQ_INDEX => 0 | SEQ_BLOCK_HEADER => 1 | SEQ_BLOCK_INIT | SEQ_BLOCK_RUN => 2 | SEQ_STREAM_HEADER => 3 | SEQ_STREAM_FOOTER | SEQ_STREAM_PADDING => 4
  end.
Definition stream_measure c (input : bytes) : nat := 4 * length input + stream_rank c.

Definition step_kept (m : nat) (input : bytes) (avail : nat) (s : stream_step U) : Prop :=
  match s with
  | SReturn ret c out rest => returned input avail (ret, c, out, rest)
  | SAgain c out rest => (length out <= avail)%nat /\ (exists used, input = used ++ rest) /\ stream_safe c /\ (stream_measure c rest < m)%nat
  end.

Lemma step_kept_more m m' used input avail s : step_kept m input avail s -> (m <= m')%nat -> step_kept m' (used ++ input) avail s.
Proof using Type.
  destruct s as [c out rest|ret c out rest]; [|intros (H1 & (u & ->) & H2) _; split_and!; auto; exists (used ++ u); now rewrite app_assoc]. intros (H1 & (u & ->) & H2 & H3) Hm. split_and!; auto; [|lia].
  exists (used ++ u). now rewrite app_assoc.
Qed.

Lemma skip_padding_ok input : forall p, (p < 4)%nat ->
  let '(p', rest) := skip_padding p input in (p' < 4)%nat /\ exists used, input = used ++ rest.
Proof using Type.
  induction input as [|b input IH]; intros p Hp; cbn [skip_padding]; [split; [exact Hp|now exists []]|].
  destruct (negb _); [split; [exact Hp|now exists []]|]. set (q := Z.to_nat (Z.land _ _)).
  assert (q < 4)%nat as Hq by (unfold q; change 3 with (2 ^ 2 - 1); rewrite land_low by lia; change (2 ^ 2) with 4; dlia).
  specialize (IH q Hq). destruct (skip_padding q input) as [p' rest]. destruct IH as (H & u & ->). split; [exact H|now exists (b :: u)].
Qed.

Lemma case_padding_kept m c input avail action : length (s_buffer c) = 1024%nat -> (s_pos c < 4)%nat -> s_sequence c = SEQ_STREAM_PADDING ->
  (4 * length input + 4 <= m)%nat -> step_kept m input avail (case_stream_padding c input action).
Proof using Type.
  intros Hb Hp Hs Hm. unfold case_stream_padding. pose proof (skip_padding_ok input (s_pos c) Hp) as H.
  destruct (skip_padding _ _) as [p rest]. destruct H as (Hp' & used & ->).
  destruct rest as [|x after]; [|destruct (p =? 0)%nat; cbn [negb]].
  - assert (stream_safe (set_buffer c p (s_buffer c))) as Hsafe by (unfold stream_safe; cbn; rewrite Hs; split; assumption).
    destruct (negb _); (split_and!; [cbn; lia|now exists used|auto]).
  - split_and!; [cbn; lia|now exists used|unfold stream_safe; cbn; split; [exact Hb|lia]|]. unfold stream_measure. cbn. rewrite length_app in Hm. cbn in *. lia.
  - split_and!; [cbn; lia| |now intros [|(? & ? & ?)]]. exists (used ++ [x]). now rewrite <- app_assoc.
Qed.

Lemma bytes_app_r (a b : bytes) : bytes_ok (a ++ b) -> bytes_ok b.
Proof using Type. intros H. now apply Forall_app in H. Qed.

Lemma case_footer_kept m c input avail action : length (s_buffer c) = 1024%nat -> (s_pos c < 12)%nat -> s_sequence c = SEQ_STREAM_FOOTER ->
  (4 * length input + 4 <= m)%nat -> step_kept m input avail (case_stream_footer c input action).
Proof using Type.
  intros Hb Hp Hs Hm. unfold case_stream_footer. change (Z.to_nat LZMA_STREAM_HEADER_SIZE) with 12%nat.
  pose proof (bufcpy_within input (s_buffer c) (s_pos c) 12) as H. destruct (bufcpy_into _ _ _ _) as [[buffer p] rest].
  destruct H as (used & -> & -> & _ & H). destruct H as [H1 H2]; [lia|lia|]. rewrite length_app in Hm.
  destruct (Nat.ltb_spec (s_pos c + length used) 12).
  - split_and!; [cbn; lia|now exists used|]. intros _. unfold stream_safe. cbn. rewrite Hs. split; [congruence|lia].
  - assert (forall ret c1, done ret = true -> step_kept m (used ++ rest) avail (SReturn ret c1 [] rest)) as Hret.
    { intros ret c1 E. split_and!; [cbn; lia|now exists used|]. now intros ?%(done_stops ret c1 E). }
    assert (forall ret c1, ret <> LZMA_NO_CHECK -> ret = LZMA_DATA_ERROR \/ ret = LZMA_OPTIONS_ERROR \/ ret = LZMA_PROG_ERROR -> step_kept m (used ++ rest) avail (SReturn ret c1 [] rest)) as Herr
      by (intros ret c1 _ [->|[->| ->]]; now apply Hret).
    unfold lzma_stream_footer_decode. destruct (negb (bool_decide _)); [now apply Hret|]. cbv zeta. destruct (negb _); [now apply Hret|].
    destruct (stream_flags_decode _); [|now apply Hret]. destruct (negb _); [now apply Hret|].
    destruct (lzma_stream_flags_compare _ _) eqn:E; try (now apply Hret).
    all: try (exfalso; revert E; unfold lzma_stream_flags_compare; repeat match goal with |- context [if ?t then _ else _] => destruct t end; discriminate).
    destruct (negb _); [now apply Hret|]. eapply step_kept_more; [eapply (case_padding_kept m); cbn; auto; try lia; congruence|lia].
Qed.

Lemma case_index_kept m c input avail action : length (s_buffer c) = 1024%nat -> s_pos c = 0%nat -> s_sequence c = SEQ_INDEX ->
  (4 * length input <= m)%nat -> step_kept m input avail (case_index c input action).
Proof using Type.
  intros Hb Hp Hs Hm. unfold case_index. assert (forall h, stream_safe (set_index_hash c h)) as Hsafe by (intros h; unfold stream_safe; cbn; rewrite Hs; split; auto).
  destruct input as [|b i]; [split_and!; [cbn; lia|now exists []|intros _; unfold stream_safe; rewrite Hs; split; auto]|].
  destruct (lzma_index_hash_decode _ _) as [[ret h] rest] eqn:E. pose proof (decode_within _ _ _ _ _ E) as (used & Hu).
  destruct (bool_decide_reflect (ret = LZMA_STREAM_END)) as [->|]; cbn [negb]; [|split_and!; [cbn; lia|now exists used|auto]].
  apply decode_end_shorter in E. rewrite Hu. eapply step_kept_more; [eapply (case_footer_kept m); cbn; auto; lia|lia].
Qed.

Lemma case_run_kept m c input avail action : stream_safe c -> s_sequence c = SEQ_BLOCK_RUN -> bytes_ok input ->
  (4 * length input + 2 <= m)%nat -> step_kept m input avail (case_block_run c input avail action).
Proof using Type.
  intros [Hb Hsafe] Hs Hbi Hm. rewrite Hs in Hsafe. destruct Hsafe as (Hp & b & Eb & Hsb). unfold case_block_run. rewrite Eb.
  pose proof (safe_code b input avail action Hsb Hbi) as Hk. change (code b input avail action) with (block_decode b input avail action) in Hk.
  destruct (block_decode _ _ _ _) as [[[ret b1] out] rest]. destruct Hk as (Hl & (used & ->) & Hk). rewrite length_app in Hm.
  destruct (bool_decide_reflect (ret = LZMA_STREAM_END)) as [->|Hne]; cbn [negb].
  - destruct (lzma_index_hash_append _ _ _) as [ret h] eqn:E. unfold lzma_index_hash_append in E.
    assert (ret = LZMA_OK \/ ret = LZMA_PROG_ERROR \/ ret = LZMA_DATA_ERROR) as [->|Hret].
    { revert E. repeat match goal with |- context [if ?t then _ else _] => destruct t end; intros [= <- _]; auto. }
    + split_and!; [exact Hl|now exists used| |unfold stream_measure; cbn; lia]. unfold stream_safe. cbn. split; [exact Hb|]. now left.
    + destruct Hret as [->| ->]; (split_and!; [exact Hl|now exists used|now intros [|(? & ? & ?)]]).
  - split_and!; [exact Hl|now exists used|]. intros [->|(_ & _ & Hg)]; [|now destruct Hg]. unfold stream_safe. cbn. rewrite Hs. split; [exact Hb|]. split; [exact Hp|]. exists b1. exact (conj eq_refl (Hk eq_refl)).
Qed.

Lemma case_init_kept m c input avail action : length (s_buffer c) = 1024%nat -> s_pos c = 0%nat -> s_sequence c = SEQ_BLOCK_INIT -> bytes_ok input ->
  (4 * length input + 2 <= m)%nat -> step_kept m input avail (case_block_init c input avail action).
Proof using L.
  intros Hb Hp Hs Hbi Hm. unfold case_block_init.
  assert (forall ret c1, length (s_buffer c1) = 1024%nat -> s_pos c1 = 0%nat -> s_sequence c1 = SEQ_BLOCK_INIT -> step_kept m input avail (SReturn ret c1 [] input)) as Hret.
  { intros ret c1 H1 H2 H3. split_and!; [cbn; lia|now exists []|]. intros _. unfold stream_safe. rewrite H3. split; auto. }
  destruct (lzma_block_header_decode _ _ _) as [block|]; [|now apply Hret]. cbv zeta. destruct (_ =? UINT64_MAX); [now apply Hret|].
  destruct (_ >? _); [now apply Hret|].
  match goal with |- context [init_block_decoder ?x ?y] => destruct (init_block_decoder x y) as [b|] eqn:E end; [|now apply Hret].
  assert (block_safe b) as Hsb by (unfold init_block_decoder in E; destruct (s_block_decoder _) in E; now apply block_init_safe in E).
  apply case_run_kept; auto. unfold stream_safe. cbn. split; [exact Hb|]. split; [exact Hp|]. eexists. split; [reflexivity|]. exact Hsb.
Qed.

Lemma case_block_header_kept m c input avail action : stream_safe c -> s_sequence c = SEQ_BLOCK_HEADER -> bytes_ok input ->
  (4 * length input + 1 <= m)%nat -> step_kept m input avail (case_block_header c input avail action).
Proof using L.
  intros Hsafe Hs Hbi Hm. unfold case_block_header. destruct input as [|b i]; [split_and!; [cbn; lia|now exists []|auto]|].
  destruct Hsafe as [Hb Hp]. rewrite Hs in Hp. destruct (_ && _) eqn:Eix.
  { b2p. match goal with H : (_ =? _)%nat = true |- _ => apply Nat.eqb_eq in H; rename H into Hp0 end.
    split_and!; [cbn; lia|now exists []|unfold stream_safe; cbn; now split|unfold stream_measure, stream_rank; cbn [s_sequence set_stream_sequence]; lia]. }
  set (c1 := if (s_pos c =? 0)%nat then _ else c).
  assert (length (s_buffer c1) = 1024 /\ s_pos c1 < Z.to_nat (header_size (s_block_options c1)) <= 1024 /\ s_sequence c1 = SEQ_BLOCK_HEADER)%nat as (B1 & P1 & S1).
  { apply Forall_cons in Hbi as [Hbb _]. unfold c1. destruct (Nat.eqb_spec (s_pos c) 0) as [E|E]; [|split_and!; auto; lia]. split; [exact Hb|]. split; [|exact Hs].
    cbn [header_size s_block_options set_block_options set_header_size s_pos]. unfold lzma_block_header_size_decode, is_byte in *. lia. }
  clearbody c1. set (size := Z.to_nat (header_size (s_block_options c1))) in *. set (input := b :: i) in *.
  pose proof (bufcpy_within input (s_buffer c1) (s_pos c1) size) as H. destruct (bufcpy_into _ _ _ _) as [[buffer p] rest].
  destruct H as (used & Hu & -> & Hn & H). destruct H as [H1 H2]; [lia|lia|].
  assert (0 < length used)%nat as Hpos by (rewrite Hn; cbn [input length]; lia). rewrite Hu in Hbi, Hm |- *. rewrite length_app in Hm. clear Hn.
  destruct (Nat.ltb_spec (s_pos c1 + length used) size).
  - split_and!; [cbn; lia|now exists used|]. intros _. unfold stream_safe. cbn. rewrite S1. fold size. split; [congruence|]. right. lia.
  - eapply step_kept_more; [eapply (case_init_kept m); cbn; auto; try congruence; [now apply bytes_app_r in Hbi|lia]|lia].
Qed.

Lemma case_stream_header_kept m c input avail action : length (s_buffer c) = 1024%nat -> (s_pos c < 12)%nat -> s_sequence c = SEQ_STREAM_HEADER -> bytes_ok input ->
  (4 * length input + 3 <= m)%nat -> step_kept m input avail (case_stream_header c input avail action).
Proof using L.
  intros Hb Hp Hs Hbi Hm. unfold case_stream_header. change (Z.to_nat LZMA_STREAM_HEADER_SIZE) with 12%nat.
  pose proof (bufcpy_within input (s_buffer c) (s_pos c) 12) as H. destruct (bufcpy_into _ _ _ _) as [[buffer p] rest].
  destruct H as (used & -> & -> & _ & H). destruct H as [H1 H2]; [lia|lia|]. rewrite length_app in Hm.
  destruct (Nat.ltb_spec (s_pos c + length used) 12).
  - split_and!; [cbn; lia|now exists used|]. intros _. unfold stream_safe. cbn. rewrite Hs. split; [congruence|lia].
  - assert (forall ret c1, done ret = true -> step_kept m (used ++ rest) avail (SReturn ret c1 [] rest)) as Hret.
    { intros ret c1 E. split_and!; [cbn; lia|now exists used|]. now intros ?%(done_stops ret c1 E). }
    unfold lzma_stream_header_decode. destruct (negb (bool_decide _)); [apply Hret; now destruct (_ && _)|]. cbv zeta. destruct (negb _); [now apply Hret|].
    destruct (stream_flags_decode _); [|now apply Hret].
    match goal with |- context [SReturn LZMA_NO_CHECK ?x] => set (c1 := x) end.
    assert (stream_safe c1) as Hc1 by (unfold stream_safe, c1; cbn; split; [congruence|now left]).
    repeat match goal with |- context [if ?t then _ else _] => destruct t; [split_and!; [cbn; lia|now exists used|auto]|] end.
    eapply step_kept_more; [eapply (case_block_header_kept m); auto; [now apply bytes_app_r in Hbi|lia]|lia].
Qed.

Lemma iteration_kept c input avail action : stream_safe c -> bytes_ok input ->
  step_kept (stream_measure c input) input avail (stream_iteration c input avail action).
Proof using L.
  intros Hsafe Hbi. pose proof Hsafe as [Hb Hp]. unfold stream_iteration, stream_measure, stream_rank. destruct (s_sequence c) eqn:Hs.
  - now apply case_stream_header_kept.
  - now apply case_block_header_kept.
  - now apply case_init_kept.
  - now apply case_run_kept.
  - apply case_index_kept; auto. lia.
  - now apply case_footer_kept.
  - now apply case_padding_kept.
Qed.

Lemma stream_loop_kept fuel : forall c input avail action, stream_safe c -> bytes_ok input -> (stream_measure c input < fuel)%nat ->
  exists r, stream_loop fuel c input avail action = Some r /\ returned input avail r.
Proof using L.
  induction fuel as [|fuel IH]; intros c input avail action Hsafe Hbi Hm; [lia|]. cbn [stream_loop].
  pose proof (iteration_kept c input avail action Hsafe Hbi) as H. destruct (stream_iteration _ _ _ _) as [c1 out rest|ret c1 out rest].
  - destruct H as (Hl & (used & ->) & Hs1 & Hm1). destruct (IH c1 rest (avail - length out)%nat action Hs1) as (r & -> & Hr); [now apply bytes_app_r in Hbi|lia|].
    destruct r as [[[ret c2] more] rest2]. destruct Hr as (Hl2 & (used2 & ->) & Hok). eexists. split; [reflexivity|].
    split_and!; [rewrite length_app; lia| |exact Hok]. exists (used ++ used2). now rewrite app_assoc.
  - eexists. split; [reflexivity|exact H].
Qed.

Lemma stream_loop_enough c input avail action : stream_safe c -> bytes_ok input ->
  exists r, stream_loop (stream_fuel input) c input avail action = Some r /\ returned input avail r.
Proof using L.
  intros Hs Hb. apply stream_loop_kept; auto. unfold stream_measure, stream_fuel, stream_rank. destruct (s_sequence c); lia.
Qed.
End Bounds.

#[export] Instance stream_coder_safe {U} {C : Coder U} {R : RawDecoder U} {M : StreamMemory} {F : Safe U} {L : RawSafe U} : Safe (lzma_stream_coder U).
Proof.
  exists stream_safe. intros c input avail action Hs Hb. unfold code, stream_decode.
  destruct (stream_loop_enough c input avail action Hs Hb) as ([[[ret c'] out] rest] & -> & H1 & H2 & H3). split_and!; auto. intros ->. apply H3. now left.
Defined.
