(* ===== verification/StreamFormat.v ===== *)
(** * Streams of the .xz format

    What the Stream decoder promises about a Stream: [stream_bytes] puts the Stream
    Header, Blocks, Index and Stream Footer together the way the format says, and a
    decoder that is given these bytes in any pieces gives the data of the Blocks. *)

From Stdlib Require Import ZArith Lia.
From stdpp Require Import list.
From S2P Require Import Prelude Vli Crc Sha256 Check FilterProps FilterFlags BlockHeader StreamFlags IndexHash Coder IndexPieces Decodes BlockDecoder StreamDecoder.

#[local] Opaque lzma_crc32 lzma_vli_size vli_bytes lzma_check_update lzma_check_finish.

(** ** The Index *)

Section Index.

Lemma vli_size_mono a b : 0 <= a <= b -> b <= LZMA_VLI_MAX -> lzma_vli_size a <= lzma_vli_size b.
Proof.
  intros Ha Hb. destruct (vli_size_spec a ltac:(lia)) as (j & -> & Hj & Hja & _). destruct (vli_size_spec b ltac:(lia)) as (k & -> & Hk & _ & Hkb).
  destruct (Z.le_gt_cases (Z.of_nat j) (Z.of_nat k)) as [|Hlt]; [lia|]. specialize (Hja ltac:(lia)).
  pose proof (Z.pow_le_mono_r 2 (7 * Z.of_nat k) (7 * (Z.of_nat j - 1)) ltac:(lia) ltac:(lia)). lia.
Qed.

Lemma index_limits_prefix a b : Forall record_ok (a ++ b) -> index_limits (a ++ b) -> index_limits a.
Proof.
  intros Hok Hlim. destruct (totals_prefix a b Hok) as (T1 & T2 & T3). destruct (index_limits_bounds _ Hok Hlim) as [Hn _].
  assert (zlen a <= zlen (a ++ b)) as Hl by (rewrite length_app; lia).
  pose proof (vli_size_mono (zlen a) (zlen (a ++ b)) ltac:(lia) ltac:(unfold LZMA_VLI_MAX; lia)) as Hv.
  assert (index_field_size a <= index_field_size (a ++ b)) as Hi by (unfold index_field_size; dlia).
  destruct Hlim as (L1 & L2 & L3 & L4). unfold index_limits. lia.
Qed.

Lemma records_bytes_ok index : Forall record_ok index -> bytes_ok (flat_map record_bytes index).
Proof.
  induction 1 as [|r l Hr H IH]; [constructor|]. cbn [flat_map]. destruct (record_vli r Hr) as [V1 V2]. destruct (record_ok_sizes r Hr) as [S1 S2].
  destruct (vli_bytes_ok r.1 9 V1 ltac:(lia)) as (_ & B1 & _). destruct (vli_bytes_ok r.2 9 V2 ltac:(lia)) as (_ & B2 & _).
  unfold record_bytes at 1. now repeat apply Forall_app_2.
Qed.

Lemma index_bytes_bytes index : Forall record_ok index -> index_limits index -> bytes_ok (index_bytes index).
Proof.
  intros Hok Hlim. destruct (index_limits_bounds _ Hok Hlim) as [Hn _].
  assert (0 <= zlen index <= LZMA_VLI_MAX) as Hv by (unfold LZMA_VLI_MAX; lia). pose proof (vli_size_range _ Hv).
  destruct (vli_bytes_ok (zlen index) 9 Hv ltac:(lia)) as (_ & B & _).
  unfold index_bytes, index_body. repeat apply Forall_app_2; auto using records_bytes_ok, write32le_bytes.
  - apply Forall_singleton. unfold INDEX_INDICATOR, is_byte. lia.
  - apply Forall_forall. intros x Hx. apply list_elem_of_In, repeat_spec in Hx as ->. unfold is_byte. lia.
Qed.

(** The Index hash after the Blocks with the Records [pre]. *)
Definition hash_holds (h : lzma_index_hash) (pre : list (Z * Z)) : Prop :=
  exists i j rem, h = reading SEQ_BLOCK pre [] i j rem 0 0 0 0 /\ 0 <= rem /\
    length (chk_buffer (info_check i)) = 64%nat /\ length (chk_buffer (info_check j)) = 64%nat.

Definition hash_memory (h : lzma_index_hash) : Prop :=
  0 <= remaining h /\ length (chk_buffer (info_check (blocks h))) = 64%nat /\ length (chk_buffer (info_check (records h))) = 64%nat.

Lemma hash_init_holds h : hash_memory h -> hash_holds (lzma_index_hash_init h) [].
Proof. intros (H1 & H2 & H3). exists (blocks h), (records h), (remaining h). now split_and!. Qed.

Lemma hash_append_holds h pre r : hash_holds h pre -> Forall record_ok (pre ++ [r]) -> index_limits (pre ++ [r]) ->
  exists h', lzma_index_hash_append h r.1 r.2 = (LZMA_OK, h') /\ hash_holds h' (pre ++ [r]).
Proof.
  intros (i & j & rem & -> & Hr & Li & Lj) Hok Hlim. apply Forall_app in Hok as Hok'. destruct Hok' as [Hpre Hone]. apply Forall_cons in Hone as [Hone _].
  destruct (record_vli r Hone) as [V1 V2]. unfold LZMA_VLI_MAX in *.
  rewrite (append_spec _ i pre r) by (reflexivity || assumption || (now apply index_limits_prefix with [r]) || lia).
  rewrite decide_True by exact Hone. rewrite decide_True by exact Hlim. eexists. split; [reflexivity|]. exists i, j, rem. now split_and!.
Qed.

Lemma hash_size h index : hash_holds h index -> Forall record_ok index -> index_limits index -> lzma_index_hash_size h = index_field_size index.
Proof.
  intros (i & j & rem & -> & _) Hok Hlim. unfold lzma_index_hash_size. cbn [reading blocks].
  destruct (within_sums index index i j (within_refl index Hok Hlim)) as (_ & _ & -> & -> & _). now destruct (length_index_bytes index Hok Hlim).
Qed.

Lemma hash_accepts h index : hash_holds h index -> Forall record_ok index -> index_limits index -> accepts h (index_bytes index).
Proof.
  intros (i & j & rem & -> & Hr & Li & Lj) Hok Hlim. split_and!; [discriminate|unfold unsigned; cbn; unfold is_u32; lia|now apply index_bytes_bytes|].
  intros tail _. eapply decode_accepts; [|exact Hok|exact Hlim|exact Li|exact Lj]. now exists rem, 0, 0.
Qed.

End Index.

(** ** Stream Header and Stream Footer *)

Section Flags.

Definition stream_header (check : Z) : bytes := lzma_header_magic ++ [0; check] ++ write32le (lzma_crc32 [0; check] 0).

Definition stream_footer (check : Z) (index : list (Z * Z)) : bytes :=
  let size := index_field_size index / 4 - 1 in
  write32le (lzma_crc32 (write32le size ++ [0; check]) 0) ++ write32le size ++ [0; check] ++ lzma_footer_magic.

Lemma header_decode_rest h rest : length h = 12%nat -> lzma_stream_header_decode (h ++ rest) = lzma_stream_header_decode h.
Proof. intros H. destruct (twelve_bytes h H) as (? & ? & ? & ? & ? & ? & ? & ? & ? & ? & ? & ? & ->). reflexivity. Qed.

Lemma footer_decode_rest h rest : length h = 12%nat -> lzma_stream_footer_decode (h ++ rest) = lzma_stream_footer_decode h.
Proof. intros H. destruct (twelve_bytes h H) as (? & ? & ? & ? & ? & ? & ? & ? & ? & ? & ? & ? & ->). reflexivity. Qed.

Lemma header_decodes check rest : 0 <= check <= LZMA_CHECK_ID_MAX ->
  lzma_stream_header_decode (stream_header check ++ rest) = Ok {| version := 0; backward_size := LZMA_VLI_UNKNOWN; check := check |}.
Proof. intros Hc. rewrite header_decode_rest by reflexivity. now apply header_decode_encoded. Qed.

Lemma index_field_aligned index : Forall record_ok index -> index_limits index ->
  is_u32 (index_field_size index / 4 - 1) /\ (index_field_size index / 4 - 1 + 1) * 4 = index_field_size index /\ 8 <= index_field_size index.
Proof.
  intros Hok (_ & _ & Hs & _). destruct (totals_nonneg _ Hok) as (_ & _ & Hl). unfold LZMA_BACKWARD_SIZE_MAX in Hs.
  pose proof (vli_size_range_any (zlen index) ltac:(lia)) as Hv.
  assert (1 <= lzma_vli_size (zlen index)) as Hv1.
  { destruct (Z.le_gt_cases (zlen index) LZMA_VLI_MAX) as [Hle|Hgt]; [pose proof (vli_size_range (zlen index) ltac:(lia)); lia|].
    exfalso. assert (zlen index <= records_list_size index); [|unfold index_field_size, LZMA_VLI_MAX in *; dlia].
    clear -Hok. unfold records_list_size. induction Hok as [|r l Hr H IH]; [reflexivity|]. cbn [fold_left length]. rewrite fold_add.
    pose proof (record_ok_sizes r Hr). lia. }
  unfold is_u32. unfold index_field_size in *. dlia.
Qed.

Lemma footer_decodes check index rest : 0 <= check <= LZMA_CHECK_ID_MAX -> Forall record_ok index -> index_limits index ->
  lzma_stream_footer_decode (stream_footer check index ++ rest) = Ok {| version := 0; backward_size := index_field_size index; check := check |}.
Proof.
  intros Hc Hok Hlim. destruct (index_field_aligned index Hok Hlim) as (Hu & Hs & _). rewrite footer_decode_rest by reflexivity.
  unfold stream_footer. rewrite footer_decode_encoded by (assumption || reflexivity). do 2 f_equal. rewrite Hs. apply u64_small.
  unfold is_u64, is_u32 in *. lia.
Qed.

Lemma header_bytes check : 0 <= check <= LZMA_CHECK_ID_MAX -> bytes_ok (stream_header check).
Proof. intros Hc. unfold stream_header. repeat apply Forall_app_2; auto using check_bytes, write32le_bytes. bytes_ok_tac. Qed.

Lemma footer_bytes check index : 0 <= check <= LZMA_CHECK_ID_MAX -> bytes_ok (stream_footer check index).
Proof. intros Hc. unfold stream_footer. cbv zeta. repeat apply Forall_app_2; auto using check_bytes, write32le_bytes. bytes_ok_tac. Qed.

Lemma footer_encodes k index : 0 <= k <= LZMA_CHECK_ID_MAX -> Forall record_ok index -> index_limits index ->
  lzma_stream_footer_encode {| version := 0; backward_size := index_field_size index; check := k |} = Ok (stream_footer k index) /\
  lzma_stream_header_encode {| version := 0; backward_size := LZMA_VLI_UNKNOWN; check := k |} = Ok (stream_header k).
Proof.
  intros Hc Hok Hlim. destruct (index_field_aligned index Hok Hlim) as (Hu & Hs & H8). pose proof (proj1 (proj2 (proj2 Hlim))) as Hmax.
  destruct (check_byte k Hc) as (E8 & _ & _ & Eg). split; [|now apply header_encode_ok].
  unfold lzma_stream_footer_encode, is_backward_size_valid. cbn [version backward_size check Z.eqb negb].
  unfold LZMA_BACKWARD_SIZE_MIN, LZMA_BACKWARD_SIZE_MAX in *. change 3 with (2 ^ 2 - 1). rewrite land_low by lia. change (2 ^ 2) with 4.
  btrue (index_field_size index >=? 4). btrue (index_field_size index <=? 17179869184). replace (index_field_size index mod 4) with 0 by (rewrite <- Hs; dlia).
  cbn [Z.eqb andb negb]. unfold stream_flags_encode. cbn [check]. rewrite Eg, E8, u32_small by exact Hu. reflexivity.
Qed.

End Flags.

(** ** Blocks *)

(** A Block of a Stream: its header and what that decodes to, the output of the
    chain, the Check and the data. *)
Record stream_block := {
  sb_header : bytes;
  sb_block : lzma_block;
  sb_payload : bytes;
  sb_field : bytes;
  sb_data : bytes;
}.

(** Its sizes at the end. *)
Definition sb_final (b : stream_block) : lzma_block := set_block_sizes (sb_block b) (zlen (sb_payload b)) (zlen (sb_data b)).
Definition sb_record (b : stream_block) : Z * Z := (lzma_block_unpadded_size (sb_final b), zlen (sb_data b)).

Definition blocks_bytes (bs : list stream_block) : bytes := flat_map (fun b => sb_header b ++ block_bytes (sb_payload b) (sb_field b)) bs.
Definition blocks_data (bs : list stream_block) : bytes := flat_map sb_data bs.

(** What follows the Blocks with the Records [pre], and the whole Stream. *)
Definition stream_rest (check : Z) (pre : list (Z * Z)) (bs : list stream_block) : bytes :=
  let index := pre ++ map sb_record bs in blocks_bytes bs ++ index_bytes index ++ stream_footer check index.
Definition stream_bytes (check : Z) (bs : list stream_block) : bytes := stream_header check ++ stream_rest check [] bs.

(** The arrays of the memory that is allocated have their lengths. *)
Class StreamMemoryLaws {M : StreamMemory} := {
  memory_raw : length raw_check_memory = 64%nat;
  memory_check : length (chk_buffer check_memory) = 64%nat;
}.

Section Promise.
Context {U : Type} {C : Coder U} {R : RawDecoder U} {M : StreamMemory} {F : Safe U} {L : RawSafe U} {D : Decodes U} {ML : StreamMemoryLaws}.
Implicit Types (c : lzma_stream_coder U).

(** A Block with the check [k] that may be decoded within [limit] of memory. *)
Record block_fits (k : Z) (ignore : bool) (limit : Z) (b : stream_block) : Prop := {
  fits_first : exists x rest, sb_header b = x :: rest /\ is_byte x /\ x <> INDEX_INDICATOR /\ lzma_block_header_size_decode x = header_size (sb_block b);
  fits_size : zlen (sb_header b) = header_size (sb_block b);
  fits_decodes o rest : block_version o = 1 -> header_size o = header_size (sb_block b) -> block_check o = k ->
    lzma_block_header_decode options_memory o (sb_header b ++ rest) = Ok (sb_block b);
  fits_version : block_version (sb_block b) = 1;
  fits_check : block_check (sb_block b) = k;
  fits_memory : raw_decoder_memusage (filters (sb_block b)) <= limit /\ raw_decoder_memusage (filters (sb_block b)) <> UINT64_MAX;
  fits_chain : exists n, raw_decoder_init (filters (sb_block b)) = Ok n /\ expects n (sb_payload b) (sb_data b);
  fits_valid : block_valid (set_block_ignore_check (sb_block b) ignore) (sb_payload b) (sb_field b) (sb_data b);
}.

(** Blocks that make a Stream. *)
Definition blocks_fit (k : Z) (ignore : bool) (limit : Z) (bs : list stream_block) : Prop := Forall (block_fits k ignore limit) bs.
Definition index_fits (index : list (Z * Z)) : Prop := Forall record_ok index /\ index_limits index.

(** What does not change after the Stream Header. *)
Definition header_read c (k : Z) (index : list (Z * Z)) : Prop :=
  0 <= k <= LZMA_CHECK_ID_MAX /\ index_fits index /\ s_stream_flags c = {| version := 0; backward_size := LZMA_VLI_UNKNOWN; check := k |}.

(** The coder reports nothing but errors and the end. *)
Definition silent c (k : Z) : Prop :=
  s_tell_no_check c && (k =? LZMA_CHECK_NONE) = false /\ s_tell_unsupported_check c && negb (lzma_check_is_supported k) = false /\
  s_tell_any_check c = false.

Definition decoder_memory c : Prop := forall b, s_block_decoder c = Some b -> block_memory b.

(** The state, the rest of the Stream and the rest of its data. *)
Inductive stream_core : lzma_stream_coder U -> bytes -> bytes -> Prop :=
  | at_header c k bs :
      s_sequence c = SEQ_STREAM_HEADER -> 0 <= k <= LZMA_CHECK_ID_MAX -> silent c k -> hash_holds (s_index_hash c) [] -> index_fits (map sb_record bs) ->
      blocks_fit k (s_ignore_check c) (s_memlimit c) bs -> take (s_pos c) (s_buffer c) = take (s_pos c) (stream_header k) ->
      stream_core c (drop (s_pos c) (stream_header k) ++ stream_rest k [] bs) (blocks_data bs)
  | at_block c k pre bs :
      s_sequence c = SEQ_BLOCK_HEADER -> s_pos c = O -> header_read c k (pre ++ map sb_record bs) -> block_check (s_block_options c) = k ->
      hash_holds (s_index_hash c) pre -> blocks_fit k (s_ignore_check c) (s_memlimit c) bs ->
      stream_core c (stream_rest k pre bs) (blocks_data bs)
  | in_header c k pre b bs :
      s_sequence c = SEQ_BLOCK_HEADER -> (0 < s_pos c < length (sb_header b))%nat -> header_read c k (pre ++ map sb_record (b :: bs)) ->
      block_check (s_block_options c) = k -> header_size (s_block_options c) = zlen (sb_header b) ->
      hash_holds (s_index_hash c) pre -> blocks_fit k (s_ignore_check c) (s_memlimit c) (b :: bs) ->
      take (s_pos c) (s_buffer c) = take (s_pos c) (sb_header b) ->
      stream_core c (drop (s_pos c) (sb_header b) ++ block_bytes (sb_payload b) (sb_field b) ++ stream_rest k (pre ++ [sb_record b]) bs)
        (sb_data b ++ blocks_data bs)
  | in_block c k pre r bs bc chk0 final p d :
      s_sequence c = SEQ_BLOCK_RUN -> s_block_decoder c = Some bc -> header_read c k (pre ++ r :: map sb_record bs) ->
      length (chk_buffer chk0) = 64%nat -> block_expects chk0 final bc p d -> block_check final = k ->
      (lzma_block_unpadded_size final, uncompressed_size final) = r ->
      hash_holds (s_index_hash c) pre -> blocks_fit k (s_ignore_check c) (s_memlimit c) bs ->
      stream_core c (p ++ stream_rest k (pre ++ [r]) bs) (d ++ blocks_data bs)
  | in_index c k index q :
      s_sequence c = SEQ_INDEX -> s_pos c = O -> header_read c k index -> accepts (s_index_hash c) q ->
      lzma_index_hash_size (s_index_hash c) = index_field_size index ->
      stream_core c (q ++ stream_footer k index) []
  | in_footer c k index :
      s_sequence c = SEQ_STREAM_FOOTER -> header_read c k index -> lzma_index_hash_size (s_index_hash c) = index_field_size index ->
      take (s_pos c) (s_buffer c) = take (s_pos c) (stream_footer k index) ->
      stream_core c (drop (s_pos c) (stream_footer k index)) [].

Definition stream_ready c p d : Prop := decoder_memory c /\ s_concatenated c = false /\ stream_core c p d.

Definition step_answers (p d input : bytes) (avail : nat) (s : stream_step U) : Prop :=
  match s with
  | SReturn ret c out rest => answers stream_ready p d input avail (ret, c, out, rest)
  | SAgain c out rest => exists used p' d', p = used ++ p' /\ input = used ++ rest /\ d = out ++ d' /\ (length out <= avail)%nat /\ stream_ready c p' d'
  end.

Lemma step_answers_more used p d input avail s : step_answers p d input avail s -> step_answers (used ++ p) d (used ++ input) avail s.
Proof using Type.
  destruct s as [c out rest|ret c out rest]; cbn [step_answers answers]; intros (u & p' & d' & -> & -> & H); exists (used ++ u), p', d'; rewrite <- !app_assoc; auto.
Qed.

(** All the input was read and more is needed. *)
Lemma answers_wait used p d avail c : stream_ready c p d -> p <> [] ->
  answers stream_ready (used ++ p) d used avail (LZMA_OK, c, [], []).
Proof using Type.
  intros Hc Hp. exists used, p, d. rewrite app_nil_r. split_and!; auto; [cbn; lia|]. left. split_and!; auto. contradiction.
Qed.

(** *** Stream Footer and Index *)

Lemma header_sizes k index : length (stream_header k) = 12%nat /\ length (stream_footer k index) = 12%nat.
Proof using Type. split; reflexivity. Qed.

(** A field that was collected is at the front of the buffer. *)
Lemma collected (buffer field : bytes) n : length field = n -> take n buffer = take n field -> buffer = field ++ drop n buffer.
Proof using Type. intros Hl Ht. rewrite <- (take_drop n buffer) at 1. rewrite Ht, <- Hl, firstn_all. reflexivity. Qed.

Lemma drop_not_nil (field : bytes) n : (n < length field)%nat -> drop n field <> [].
Proof using Type. intros H E. apply (f_equal length) in E. rewrite length_drop in E. cbn in E. lia. Qed.

Lemma footer_step c k index input avail action : length (s_buffer c) = 1024%nat -> (s_pos c < 12)%nat -> decoder_memory c -> s_concatenated c = false ->
  s_sequence c = SEQ_STREAM_FOOTER -> header_read c k index -> lzma_index_hash_size (s_index_hash c) = index_field_size index ->
  take (s_pos c) (s_buffer c) = take (s_pos c) (stream_footer k index) -> agrees input (drop (s_pos c) (stream_footer k index)) ->
  step_answers (drop (s_pos c) (stream_footer k index)) [] input avail (case_stream_footer c input action).
Proof using Type.
  intros Hb Hp Hmem Hcat Hs Hread Hsize Ht Ha. pose proof Hread as (Hk & [Hok Hlim] & Hflags). destruct (header_sizes k index) as [_ Hlen].
  unfold case_stream_footer. change (Z.to_nat LZMA_STREAM_HEADER_SIZE) with 12%nat.
  pose proof (bufcpy_into_spec input (s_buffer c) (stream_footer k index) (s_pos c) 12 Hlen ltac:(lia) ltac:(lia) Ht Ha) as H.
  destruct (bufcpy_into _ _ _ _) as [[buffer p] rest]. destruct H as (used & -> & Hd & Hp12 & -> & Hl & Htk & Hstop). rewrite Hd.
  set (p := (s_pos c + length used)%nat) in *. destruct (Nat.ltb_spec p 12) as [Hlt|Hge].
  - destruct Hstop as [->|]; [|lia]. rewrite app_nil_r. cbn [step_answers]. apply answers_wait; [|apply drop_not_nil; lia]. split_and!; auto.
    change p with (s_pos (set_buffer c p buffer)). apply (in_footer _ k index); auto.
  - assert (p = 12%nat) as Ep by lia. rewrite Ep in *. rewrite (collected buffer (stream_footer k index) 12 Hlen Htk), footer_decodes by assumption.
    cbn [s_index_hash set_buffer backward_size]. rewrite Hsize, Z.eqb_refl. cbn [negb s_stream_flags set_buffer s_concatenated]. rewrite Hflags.
    unfold lzma_stream_flags_compare. cbn [version backward_size check Z.eqb negb orb]. bfalse (k >? LZMA_CHECK_ID_MAX). cbn [orb]. rewrite Z.eqb_refl.
    cbn [negb andb]. change (LZMA_VLI_UNKNOWN =? LZMA_VLI_UNKNOWN) with true. cbn [negb andb]. rewrite Hcat. cbn [negb step_answers answers].
    exists used, [], []. rewrite (drop_ge _ 12) by lia. split_and!; auto; cbn; lia.
Qed.

Lemma index_step c k index q input avail action : length (s_buffer c) = 1024%nat -> s_pos c = O -> decoder_memory c -> s_concatenated c = false ->
  s_sequence c = SEQ_INDEX -> header_read c k index -> accepts (s_index_hash c) q -> lzma_index_hash_size (s_index_hash c) = index_field_size index ->
  bytes_ok input -> agrees input (q ++ stream_footer k index) ->
  step_answers (q ++ stream_footer k index) [] input avail (case_index c input action).
Proof using Type.
  intros Hb Hp Hmem Hcat Hs Hread Hacc Hsize Hbi Ha. unfold case_index. pose proof Hacc as (Hne & _ & _ & Hend).
  destruct input as [|x i]; [apply (answers_wait []); [split_and!; auto; now apply (in_index c k index q)|destruct q; [contradiction|discriminate]]|].
  set (input := x :: i) in *. destruct (agrees_cases _ _ (agrees_app _ _ _ Ha)) as [(q' & Hq' & ->)|(tail & Hin)].
  - destruct (accepts_part _ _ _ Hacc ltac:(discriminate) Hq') as (h' & E & Hacc'). rewrite E.
    rewrite (bool_decide_false (LZMA_OK = LZMA_STREAM_END)) by discriminate. cbn [negb step_answers]. rewrite <- app_assoc.
    apply answers_wait; [|destruct q'; [contradiction|discriminate]]. split_and!; auto.
    apply (in_index _ k index q'); auto. cbn [s_index_hash set_index_hash]. now rewrite (decode_size _ _ _ _ _ E).
  - rewrite Hin in *. destruct (Hend tail ltac:(now apply Forall_app in Hbi)) as (h' & E). rewrite E. rewrite bool_decide_true by reflexivity. cbn [negb].
    apply step_answers_more. set (c1 := set_stream_sequence (set_index_hash c h') SEQ_STREAM_FOOTER).
    pose proof (footer_step c1 k index tail avail action) as H. assert (s_pos c1 = O) as E0 by exact Hp. rewrite E0, drop_0 in H.
    apply H; auto; [lia| |now apply agrees_cut in Ha]. cbn [c1 s_index_hash set_index_hash set_stream_sequence]. now rewrite (decode_size _ _ _ _ _ E).
Qed.

(** *** Blocks *)

Lemma stream_rest_not_nil k pre bs : stream_rest k pre bs <> [].
Proof using Type. intros E. apply (f_equal length) in E. unfold stream_rest in E. rewrite !length_app in E. cbn in E. lia. Qed.

Lemma run_step c k pre r bs bc chk0 final p d input avail action : decoder_memory c -> s_concatenated c = false -> s_pos c = O ->
  s_sequence c = SEQ_BLOCK_RUN -> s_block_decoder c = Some bc -> header_read c k (pre ++ r :: map sb_record bs) ->
  length (chk_buffer chk0) = 64%nat -> block_expects chk0 final bc p d -> block_check final = k ->
  (lzma_block_unpadded_size final, uncompressed_size final) = r -> hash_holds (s_index_hash c) pre -> blocks_fit k (s_ignore_check c) (s_memlimit c) bs ->
  bytes_ok input -> agrees input (p ++ stream_rest k (pre ++ [r]) bs) ->
  step_answers (p ++ stream_rest k (pre ++ [r]) bs) (d ++ blocks_data bs) input avail (case_block_run c input avail action).
Proof using Type.
  intros Hmem Hcat Hp Hs Hbc Hread Hchk Hexp Hk Hr Hhash Hfit Hbi Ha. unfold case_block_run. rewrite Hbc.
  pose proof (block_decode_ok chk0 Hchk final bc p d input avail action Hexp Hbi (agrees_app _ _ _ Ha)) as H.
  pose proof (block_decode_memory bc input avail action (Hmem bc Hbc)) as Hm.
  destruct (block_decode bc input avail action) as [[[ret b] out] rest]. cbn [fst snd] in Hm. destruct H as [(used & p' & d' & -> & -> & -> & Hl & Hret) Hfin].
  set (X := stream_rest k (pre ++ [r]) bs) in *. assert (X <> []) as HX by apply stream_rest_not_nil.
  assert (forall o s, decoder_memory (set_stream_sequence (set_block_decoder c b o) s)) as Hmem' by (intros o s b0 [= <-]; exact Hm).
  destruct Hret as [(-> & Hexp' & Hstop & Hd' & _)|(-> & -> & ->)].
  - rewrite (bool_decide_false (LZMA_OK = LZMA_STREAM_END)) by discriminate. cbn [negb step_answers answers].
    exists used, (p' ++ X), (d' ++ blocks_data bs). rewrite <- !app_assoc. split_and!; auto. left. split_and!; auto.
    + split_and!; [exact (Hmem' _ (s_sequence c))|exact Hcat|]. eapply (in_block _ k pre r bs b chk0 final p' d'); eauto.
    + intros E. apply app_eq_nil in E as [E _]. destruct (Hd' E). split; [assumption|]. intros E2. now apply app_eq_nil in E2 as [_ E2].
    + intros E. now apply app_eq_nil in E as [_ E].
  - rewrite bool_decide_true by reflexivity. cbn [negb s_index_hash set_block_decoder s_block_options]. rewrite (Hfin eq_refl). rewrite !app_nil_r.
    pose proof Hread as (Hk15 & [Hok Hlim] & Hflags). rewrite (cons_middle r pre), (app_assoc pre [r]) in Hok, Hlim.
    assert (index_limits (pre ++ [r])) as Hlim1 by (now apply index_limits_prefix in Hlim). assert (Forall record_ok (pre ++ [r])) as Hok1 by (now apply Forall_app in Hok).
    destruct (hash_append_holds (s_index_hash c) pre r Hhash Hok1 Hlim1) as (h & E & Hh).
    rewrite <- Hr in E. cbn [fst snd] in E. rewrite E. cbn [step_answers].
    exists used, X, (blocks_data bs). split_and!; auto.
    split_and!; [intros b0 [= <-]; exact Hm|exact Hcat|]. apply at_block; auto. unfold header_read. split; [exact Hk15|]. split; [now split|exact Hflags].
Qed.

Lemma expects_point (chk0 : lzma_check_state) final bc p d fs : b_sequence bc = SEQ_CODE -> block_expects chk0 final bc p d ->
  block_expects chk0 (set_block_filters final fs) (point_to bc (set_block_filters (b_block bc) fs)) p d.
Proof using Type.
  intros Hs Hexp. inversion Hexp as [? payload ? field chunks total data ? ? ? ? ? ? ? ? ? ? Hf| |]; subst; try congruence.
  eapply (expects_data chk0 _ _ payload d field chunks); eauto. 
Qed.


Lemma init_step c k pre b bs input avail action : length (s_buffer c) = 1024%nat -> decoder_memory c -> s_concatenated c = false -> s_pos c = O ->
  s_sequence c = SEQ_BLOCK_INIT -> header_read c k (pre ++ map sb_record (b :: bs)) ->
  block_check (s_block_options c) = k -> header_size (s_block_options c) = zlen (sb_header b) -> hash_holds (s_index_hash c) pre ->
  blocks_fit k (s_ignore_check c) (s_memlimit c) (b :: bs) -> (exists behind, s_buffer c = sb_header b ++ behind) ->
  let p := block_bytes (sb_payload b) (sb_field b) ++ stream_rest k (pre ++ [sb_record b]) bs in
  bytes_ok input -> agrees input p -> step_answers p (sb_data b ++ blocks_data bs) input avail (case_block_init c input avail action).
Proof using ML.
  intros Hb Hmem Hcat Hp Hs Hread Hk Hsize Hhash Hfit [behind Hbuf] p Hbi Ha. apply Forall_cons in Hfit as [[Hfirst Hhs Hdec Hver Hchk [Hlim Hmax] (n & Hn & Hexp) Hval] Hfit].
  unfold case_block_init. cbn [s_block_options set_block_options s_buffer]. rewrite Hbuf, Hdec by (cbn; congruence).
  cbv zeta. cbn [filters set_block_ignore_check s_ignore_check set_block_options]. rewrite (proj2 (Z.eqb_neq _ _)) by exact Hmax.
  cbn [s_memlimit set_memusage set_block_options]. bfalse (raw_decoder_memusage (filters (sb_block b)) >? s_memlimit c).
  set (blk := set_block_ignore_check (sb_block b) (s_ignore_check c)) in *. set (c1 := set_memusage _ _).
  assert (exists raw chk, length raw = 64%nat /\ length (chk_buffer chk) = 64%nat /\ init_block_decoder c1 blk = lzma_block_decoder_init raw chk blk) as (raw & chk & Hraw & Hck & ->).
  { unfold init_block_decoder. change (s_block_decoder c1) with (s_block_decoder c). destruct (s_block_decoder c) as [b0|] eqn:E; [|exists raw_check_memory, check_memory; auto using memory_raw, memory_check].
    destruct (Hmem b0 E) as (H1 & H2 & _). now exists (b_raw_check b0), (b_check b0). }
  destruct (block_init_ok raw chk blk (sb_payload b) (sb_field b) (sb_data b) n Hval Hraw Hn Hexp) as (bc & Ebc & Hbe). rewrite Ebc.
  assert (b_sequence bc = SEQ_CODE /\ b_block bc = blk /\ b_raw_check bc = raw /\ b_check bc = lzma_check_init chk (block_check blk) /\ b_check_pos bc = O) as (S1 & S2 & S3 & S4 & S5).
  { unfold lzma_block_decoder_init in Ebc. case_if_in Ebc; [discriminate|]. cbv zeta in Ebc. change (filters blk) with (filters (sb_block b)) in Ebc. rewrite Hn in Ebc. cbn [res_bind] in Ebc. injection Ebc as <-. now split_and!. }
  apply (expects_point _ _ _ _ _ [] S1) in Hbe. rewrite S2 in Hbe.
  eapply (run_step _ k pre (sb_record b) bs); eauto.
  - intros b0 [= <-]. unfold block_memory. cbn. rewrite S3, S4, S5. change (block_check blk) with (block_check (sb_block b)) in *.
    split; [exact Hraw|]. split; [now apply check_init_length|]. split; [rewrite Hchk; apply Hread|lia].
Qed.

(** Collecting the header of the Block [b], and what follows. *)
Lemma block_header_collect c k pre b bs input avail action : length (s_buffer c) = 1024%nat -> decoder_memory c -> s_concatenated c = false ->
  (s_pos c < length (sb_header b) <= 1024)%nat -> s_sequence c = SEQ_BLOCK_HEADER -> header_read c k (pre ++ map sb_record (b :: bs)) ->
  block_check (s_block_options c) = k -> header_size (s_block_options c) = zlen (sb_header b) -> hash_holds (s_index_hash c) pre ->
  blocks_fit k (s_ignore_check c) (s_memlimit c) (b :: bs) -> take (s_pos c) (s_buffer c) = take (s_pos c) (sb_header b) ->
  let p := drop (s_pos c) (sb_header b) ++ block_bytes (sb_payload b) (sb_field b) ++ stream_rest k (pre ++ [sb_record b]) bs in
  bytes_ok input -> input <> [] -> agrees input p ->
  step_answers p (sb_data b ++ blocks_data bs) input avail
    (let size := Z.to_nat (header_size (s_block_options c)) in
     let '(buffer, p, rest) := bufcpy_into input (s_buffer c) (s_pos c) size in
     if (p <? size)%nat then SReturn LZMA_OK (set_buffer c p buffer) [] rest
     else case_block_init (set_stream_sequence (set_buffer c 0 buffer) SEQ_BLOCK_INIT) rest avail action).
Proof using ML.
  intros Hb Hmem Hcat Hp Hs Hread Hk Hsize Hhash Hfit Ht p Hbi Hne Ha. cbv zeta. rewrite Hsize, Nat2Z.id. set (n := length (sb_header b)) in *.
  pose proof (bufcpy_into_spec input (s_buffer c) (sb_header b) (s_pos c) n eq_refl ltac:(lia) ltac:(lia) Ht (agrees_app _ _ _ Ha)) as H.
  pose proof (bufcpy_within input (s_buffer c) (s_pos c) n) as Hw.
  destruct (bufcpy_into _ _ _ _) as [[buffer q] rest]. destruct H as (used & -> & Hd & Hq & -> & Hl & Htk & Hstop). destruct Hw as (used' & E & Eq & Eu & _).
  assert (0 < length used)%nat as Hpos.
  { destruct used as [|x u]; [|cbn; lia]. cbn [app] in *. destruct rest as [|x rest]; [contradiction|]. exfalso. destruct Hstop as [|Hn]; [discriminate|]. cbn in Hn. lia. }
  unfold p in *. rewrite Hd, <- app_assoc in *. set (q := (s_pos c + length used)%nat) in *. destruct (Nat.ltb_spec q n) as [Hlt|Hge].
  - destruct Hstop as [->|]; [|lia]. rewrite app_nil_r. cbn [step_answers]. apply answers_wait.
    + split_and!; auto. change q with (s_pos (set_buffer c q buffer)). apply (in_header _ k pre b bs); auto. cbn [s_pos set_buffer]. unfold q in *. lia.
    + intros E2. apply app_eq_nil in E2 as [_ E2]. apply app_eq_nil in E2 as [_ E2]. now apply stream_rest_not_nil in E2.
  - assert (q = n) as Eqn by lia. rewrite Eqn in *. rewrite (drop_ge _ n) in * by (unfold n; lia). cbn [app] in *. apply step_answers_more.
    apply (init_step _ k pre b bs); auto; [cbn; congruence| |now apply bytes_app_r in Hbi|now apply agrees_cut in Ha].
    exists (drop n buffer). cbn [s_buffer set_stream_sequence set_buffer]. now apply collected.
Qed.

Lemma stream_rest_cons k pre b bs :
  stream_rest k pre (b :: bs) = sb_header b ++ block_bytes (sb_payload b) (sb_field b) ++ stream_rest k (pre ++ [sb_record b]) bs.
Proof using Type. unfold stream_rest, blocks_bytes. cbn [map flat_map]. rewrite (cons_middle (sb_record b) pre), (app_assoc pre). now rewrite <- !app_assoc. Qed.

(** At a Block or the Index. *)
Lemma block_step c k pre bs input avail action : length (s_buffer c) = 1024%nat -> decoder_memory c -> s_concatenated c = false ->
  s_sequence c = SEQ_BLOCK_HEADER -> s_pos c = O -> header_read c k (pre ++ map sb_record bs) -> block_check (s_block_options c) = k ->
  hash_holds (s_index_hash c) pre -> blocks_fit k (s_ignore_check c) (s_memlimit c) bs -> bytes_ok input -> agrees input (stream_rest k pre bs) ->
  step_answers (stream_rest k pre bs) (blocks_data bs) input avail (case_block_header c input avail action).
Proof using ML.
  intros Hb Hmem Hcat Hs Hp Hread Hk Hhash Hfit Hbi Ha. unfold case_block_header.
  assert (stream_ready c (stream_rest k pre bs) (blocks_data bs)) as Hready by (split_and!; auto; now apply at_block).
  destruct input as [|x i]; [apply (answers_wait []); [exact Hready|apply stream_rest_not_nil]|]. rewrite Hp. cbn [Nat.eqb andb].
  pose proof Hread as (Hk15 & [Hok Hlim] & Hflags). destruct bs as [|b bs].
  - cbn [map] in *. rewrite app_nil_r in *. unfold stream_rest in *. cbn [map blocks_bytes flat_map app] in *. rewrite app_nil_r in *.
    pose proof (hash_accepts _ _ Hhash Hok Hlim) as Hacc.
    assert (x = INDEX_INDICATOR) as -> by (unfold index_bytes, index_body in Ha; rewrite <- !app_assoc in Ha; now apply agrees_head in Ha).
    rewrite Z.eqb_refl. cbn [step_answers]. exists [], (index_bytes pre ++ stream_footer k pre), []. split_and!; auto; [cbn; lia|].
    split_and!; auto. apply (in_index _ k pre); auto. cbn [s_index_hash set_stream_sequence]. now apply hash_size.
  - rewrite stream_rest_cons in *. cbn [blocks_data flat_map]. pose proof Hfit as Hfit'. apply Forall_cons in Hfit' as [[(y & hdr & Ey & Hby & Hy & Hsz) Hhs _ _ Hchk _ _ Hval] _].
    assert (x = y) as -> by (rewrite Ey in Ha; now apply agrees_head in Ha). rewrite (proj2 (Z.eqb_neq _ _)) by exact Hy. cbn [andb].
    set (c1 := set_block_options c _). pose proof (block_header_collect c1 k pre b bs (y :: i) avail action) as H.
    assert (s_pos c1 = O) as E0 by exact Hp. rewrite E0 in H. rewrite drop_0 in H. cbv zeta in H. rewrite E0. apply H; auto; try discriminate.
    + pose proof (valid_header _ _ _ _ Hval) as [Hr _]. cbn [header_size set_block_ignore_check] in Hr. lia.
    + cbn [c1 s_block_options set_block_options header_size set_header_size]. congruence.
Qed.

Lemma header_step c k bs input avail action : length (s_buffer c) = 1024%nat -> (s_pos c < 12)%nat -> decoder_memory c -> s_concatenated c = false ->
  s_sequence c = SEQ_STREAM_HEADER -> 0 <= k <= LZMA_CHECK_ID_MAX -> silent c k -> hash_holds (s_index_hash c) [] -> index_fits (map sb_record bs) ->
  blocks_fit k (s_ignore_check c) (s_memlimit c) bs -> take (s_pos c) (s_buffer c) = take (s_pos c) (stream_header k) -> bytes_ok input ->
  agrees input (drop (s_pos c) (stream_header k) ++ stream_rest k [] bs) ->
  step_answers (drop (s_pos c) (stream_header k) ++ stream_rest k [] bs) (blocks_data bs) input avail (case_stream_header c input avail action).
Proof using ML.
  intros Hb Hp Hmem Hcat Hs Hk (Hs1 & Hs2 & Hs3) Hhash Hix Hfit Ht Hbi Ha. destruct (header_sizes k []) as [Hlen _].
  unfold case_stream_header. change (Z.to_nat LZMA_STREAM_HEADER_SIZE) with 12%nat.
  pose proof (bufcpy_into_spec input (s_buffer c) (stream_header k) (s_pos c) 12 Hlen ltac:(lia) ltac:(lia) Ht (agrees_app _ _ _ Ha)) as H.
  destruct (bufcpy_into _ _ _ _) as [[buffer p] rest]. destruct H as (used & -> & Hd & Hp12 & -> & Hl & Htk & Hstop). rewrite Hd, <- app_assoc in *.
  set (p := (s_pos c + length used)%nat) in *. destruct (Nat.ltb_spec p 12) as [Hlt|Hge].
  - destruct Hstop as [->|]; [|lia]. rewrite app_nil_r. cbn [step_answers]. apply answers_wait.
    + split_and!; auto. change p with (s_pos (set_buffer c p buffer)). apply (at_header _ k bs); auto. now split_and!.
    + intros E. apply app_eq_nil in E as [_ E]. now apply stream_rest_not_nil in E.
  - assert (p = 12%nat) as Ep by lia. rewrite Ep in *. rewrite (collected buffer (stream_header k) 12 Hlen Htk), header_decodes by assumption.
    cbn [check]. set (c1 := set_stream_sequence _ SEQ_BLOCK_HEADER).
    change (s_tell_no_check c1) with (s_tell_no_check c). rewrite Hs1. change (s_tell_unsupported_check c1) with (s_tell_unsupported_check c). rewrite Hs2.
    change (s_tell_any_check c1) with (s_tell_any_check c). rewrite Hs3. rewrite (drop_ge _ 12) in * by lia. cbn [app] in *. apply step_answers_more.
    apply block_step; auto; [cbn [c1 s_buffer set_stream_sequence set_block_options set_first_stream set_stream_flags set_buffer]; rewrite length_app, length_drop; cbn [length stream_header]; lia| |now apply bytes_app_r in Hbi|now apply agrees_cut in Ha].
    split_and!; auto; apply Hix || apply Hk.
Qed.

(** *** The loop *)

Lemma iteration_answers c p d input avail action : stream_safe c -> stream_ready c p d -> bytes_ok input -> agrees input p ->
  step_answers p d input avail (stream_iteration c input avail action).
Proof using ML.
  intros [Hb Hsafe] (Hmem & Hcat & Hcore) Hbi Ha. unfold stream_iteration.
  inversion Hcore as [? k bs Hs|? k pre bs Hs Hp|? k pre b bs Hs Hp Hread Hk Hsz Hhash Hfit Ht|? k pre r bs bc chk0 final p0 d0 Hs|? k index q Hs Hp|? k index Hs]; subst; rewrite Hs in *.
  - now apply header_step.
  - apply (block_step c (block_check (s_block_options c)) pre bs); auto.
  - unfold case_block_header. set (p := _ ++ _ ++ _) in *. assert (p <> []) as Hne by (intros E; unfold p in E; apply app_eq_nil in E as [_ E]; apply app_eq_nil in E as [_ E]; now apply stream_rest_not_nil in E).
    destruct input as [|x i]; [apply (answers_wait []); [now split_and!|exact Hne]|].
    assert ((s_pos c =? 0)%nat = false) as -> by (apply Nat.eqb_neq; lia). cbn [andb].
    apply (block_header_collect c (block_check (s_block_options c)) pre b bs); auto.
    apply Forall_cons in Hfit as [[_ _ _ _ _ _ _ Hval] _]. split; [lia|]. rewrite Hsz in Hsafe. lia.
  - eapply run_step; eauto. apply Hsafe.
  - now apply index_step.
  - now apply footer_step.
Qed.

Definition stream_expects c p d : Prop := stream_safe c /\ stream_ready c p d.

Lemma answers_after used p out d input avail ret c more rest : (length out <= avail)%nat ->
  answers stream_expects p d input (avail - length out) (ret, c, more, rest) ->
  answers stream_expects (used ++ p) (out ++ d) (used ++ input) avail (ret, c, out ++ more, rest).
Proof using Type.
  intros Hl (u & p' & d' & -> & -> & -> & Hm & Hret). exists (used ++ u), p', d'. rewrite <- !app_assoc, length_app. split_and!; auto; [lia|].
  destruct Hret as [(-> & Hc & Hs & Hd & Hp)|(-> & -> & ->)]; [left|now right]. split_and!; auto; [destruct Hs; [now left|right; lia]|].
  intros E. specialize (Hp E). lia.
Qed.

Lemma stream_loop_answers fuel : forall c p d input avail action r, stream_expects c p d -> bytes_ok input -> agrees input p ->
  stream_loop fuel c input avail action = Some r -> answers stream_expects p d input avail r.
Proof using L ML.
  induction fuel as [|fuel IH]; intros c p d input avail action r [Hsafe Hready] Hbi Ha; [discriminate|]. cbn [stream_loop].
  pose proof (iteration_answers c p d input avail action Hsafe Hready Hbi Ha) as Hans. pose proof (iteration_kept c input avail action Hsafe Hbi) as Hkept.
  destruct (stream_iteration _ _ _ _) as [c1 out rest|ret c1 out rest].
  - destruct Hans as (used & p' & d' & -> & -> & -> & Hl & Hready1). destruct Hkept as (_ & _ & Hsafe1 & _).
    destruct (stream_loop fuel c1 rest (avail - length out) action) as [[[[ret c2] more] rest2]|] eqn:E; cbn; [|discriminate]. intros [= <-].
    apply answers_after; [exact Hl|]. eapply IH; [split; [exact Hsafe1|exact Hready1]|now apply bytes_app_r in Hbi|now apply agrees_cut in Ha|exact E].
  - intros [= <-]. destruct Hans as (used & p' & d' & H1 & H2 & H3 & H4 & Hret). destruct Hkept as (_ & _ & Hsafe1). exists used, p', d'. split_and!; auto.
    destruct Hret as [(-> & Hr & H)|H]; [left|now right]. split_and!; try tauto. split; [apply Hsafe1; now left|exact Hr].
Qed.

Lemma stream_decode_answers c p d input avail action : stream_expects c p d -> bytes_ok input -> agrees input p ->
  answers stream_expects p d input avail (stream_decode c input avail action).
Proof using L ML.
  intros Hc Hbi Ha. unfold stream_decode. destruct (stream_loop_enough c input avail action (proj1 Hc) Hbi) as (r & E & _). rewrite E. cbn [default].
  now apply stream_loop_answers with (stream_fuel input) c action.
Qed.
End Promise.

#[export] Instance stream_decodes {U} {C : Coder U} {R : RawDecoder U} {M : StreamMemory} {F : Safe U} {L : RawSafe U} {D : Decodes U} {ML : StreamMemoryLaws} :
  Decodes (lzma_stream_coder U).
Proof. exists stream_expects. apply stream_decode_answers. Defined.

(** ** The whole Stream *)

Section Whole.
Context {U : Type} {C : Coder U} {R : RawDecoder U} {M : StreamMemory} {F : Safe U} {L : RawSafe U} {D : Decodes U} {ML : StreamMemoryLaws}.
Implicit Types (c : lzma_stream_coder U).

(** The arrays of a coder, new or used before, have their lengths. *)
Definition stream_memory c : Prop := length (s_buffer c) = 1024%nat /\ hash_memory (s_index_hash c) /\ decoder_memory c.

Definition tells (flags f : Z) : bool := negb (Z.land flags f =? 0).

(** The flags ask for no other return codes than those of the data, and for one
    Stream. *)
Definition plain_flags (flags k : Z) : Prop :=
  tells flags LZMA_TELL_NO_CHECK && (k =? LZMA_CHECK_NONE) = false /\
  tells flags LZMA_TELL_UNSUPPORTED_CHECK && negb (lzma_check_is_supported k) = false /\
  tells flags LZMA_TELL_ANY_CHECK = false /\ tells flags LZMA_CONCATENATED = false.

Lemma stream_init_safe next memory ready memlimit flags c : (forall m, next = Some m -> stream_memory m) -> (forall m, memory = Some m -> stream_memory m) ->
  lzma_stream_decoder_init next memory ready memlimit flags = Ok c -> stream_safe c /\ hash_holds (s_index_hash c) [] /\ decoder_memory c.
Proof using Type.
  intros Hn Hm. unfold lzma_stream_decoder_init. destruct (negb _); [discriminate|]. cbv zeta. destruct next as [m|]; [|destruct memory as [m|]; [|discriminate]].
  - destruct (Hn m eq_refl) as (H1 & H2 & H3). intros [= <-]. split; [|split; [now apply hash_init_holds|exact H3]].
    unfold stream_safe. cbn. split; [exact H1|lia].
  - destruct (Hm m eq_refl) as (H1 & H2 & H3). destruct (negb ready); [discriminate|]. intros [= <-]. split; [|split; [now apply hash_init_holds|]].
    + unfold stream_safe. cbn. split; [exact H1|lia].
    + intros b E. discriminate E.
Qed.

Lemma stream_init_expects next memory ready memlimit flags c k bs :
  (forall m, next = Some m -> stream_memory m) -> (forall m, memory = Some m -> stream_memory m) ->
  lzma_stream_decoder_init next memory ready memlimit flags = Ok c -> 0 <= k <= LZMA_CHECK_ID_MAX -> plain_flags flags k ->
  index_fits (map sb_record bs) -> blocks_fit k (tells flags LZMA_IGNORE_CHECK) (Z.max 1 memlimit) bs ->
  stream_expects c (stream_bytes k bs) (blocks_data bs).
Proof using Type.
  intros Hn Hm Hi Hk (P1 & P2 & P3 & P4) Hix Hbs. destruct (stream_init_safe _ _ _ _ _ _ Hn Hm Hi) as (Hsafe & Hhash & Hmem). split; [exact Hsafe|].
  assert (s_sequence c = SEQ_STREAM_HEADER /\ s_pos c = O /\ s_tell_no_check c = tells flags LZMA_TELL_NO_CHECK /\
    s_tell_unsupported_check c = tells flags LZMA_TELL_UNSUPPORTED_CHECK /\ s_tell_any_check c = tells flags LZMA_TELL_ANY_CHECK /\
    s_ignore_check c = tells flags LZMA_IGNORE_CHECK /\ s_concatenated c = tells flags LZMA_CONCATENATED /\ s_memlimit c = Z.max 1 memlimit)
    as (E1 & E2 & E3 & E4 & E5 & E6 & E7 & E8).
  { unfold lzma_stream_decoder_init in Hi. case_if_in Hi; [discriminate|]. cbv zeta in Hi. destruct next; [|destruct memory; [case_if_in Hi; [discriminate|]|discriminate]];
      injection Hi as <-; now split_and!. }
  split; [exact Hmem|]. split; [congruence|]. pose proof (at_header c k bs E1 Hk) as H. rewrite E2, drop_0 in H. apply H; auto.
  - unfold silent. rewrite E3, E4, E5. now split_and!.
  - now rewrite E6, E8.
Qed.
End Whole.
