(* ===== verification/Lzma2Stored.v ===== *)
(** * LZMA2 data that were not compressed

    Chunks of plain bytes as [block_encode_uncompressed] of
    [common/block_buffer_encoder.c] writes them, and how the decoder of
    [lzma/lz_decoder.c] with that of [lzma/lzma2_decoder.c] reads them: it keeps the
    promise of [Decodes] for every way in which the chunks and the room for the data
    are cut into calls. *)

From Stdlib Require Import ZArith Lia.
From stdpp Require Import list.
From S2P Require Import Prelude FilterProps Coder Decodes LzDict LzDecoder LzmaDecoder LzmaSafety Lzma2Decoder.

(** ** The end of a chain: a coder that has no next coder *)

#[export] Instance no_coder : Coder Empty_set := fun n => match n with end.

Section Last.
Context (config : dict_config) {S : Type} {L : LzCoder S} {LL : LzCoderLaws S}.

(** [lz_decode] without a next filter needs no fuel of its own. *)
Definition lz_last : Coder (lz_coder S Empty_set) := fun c input room action =>
  default (LZMA_PROG_ERROR, c, [], input) (lz_decode config 0 c input room action).

Definition lz_idle (c : lz_coder S Empty_set) (h : history) : Prop :=
  dict_idle config (dict c) h /\ lz_inv (lz c) h /\ wants_reset h = false.

(** What a call does, on the sequence of decoded bytes. *)
Lemma lz_last_spec c h input room action : lz_idle c h -> bytes_ok input ->
  exists ret s' h' out rest d', lz_last c input room action = (ret, set_dict c d' s', out, rest) /\
    decodes (Z.of_nat room) (lz c) h input ret s' h' out rest /\ (length out <= room)%nat /\ (exists used, input = used ++ rest) /\
    (ret = LZMA_OK -> lz_idle (set_dict c d' s') h' /\ (rest = [] \/ length out = room)).
Proof using LL.
  intros (Hi & Hinv & Hw) Hb. unfold lz_last, lz_decode. destruct (lz_next c) as [[]|].
  destruct (buffer_loop config (buffer_fuel input (Z.of_nat room)) (dict c) h (lz c) input (Z.of_nat room) Hi Hinv Hw Hb ltac:(lia)) as
    (ret & d' & s' & h' & out & rest & E & Hdec & Hi' & Hl & [used Hu] & Hfin & Hprog); [unfold buffer_fuel; lia|]. rewrite E. cbn [default].
  exists ret, s', h', out, rest, d'. split_and!; auto; [lia|now exists used|]. intros Hret. destruct (Hfin Hret) as [H1 H2]. split; [now split_and!|].
  destruct (Hprog Hret); [now left|right; lia].
Qed.

Lemma lz_last_kept c input room action : (exists h, lz_idle c h) -> bytes_ok input ->
  kept (fun c => exists h, lz_idle c h) input room (lz_last c input room action).
Proof using LL.
  intros [h Hc] Hb. destruct (lz_last_spec c h input room action Hc Hb) as (ret & s' & h' & out & rest & d' & -> & _ & Hl & Hu & Hok).
  split_and!; auto. intros Hret. exists h'. now apply Hok.
Qed.
End Last.

(** ** The chunks *)

(** A chunk with its header. *)
Definition stored_chunk (control : Z) (x : bytes) : bytes :=
  control :: u8 (Z.shiftr (zlen x - 1) 8) :: u8 (Z.land (zlen x - 1) 0xFF) :: x.

(** The chunks [cs]; the first one resets the dictionary if [first]. *)
Fixpoint stored_chunks (first : bool) (cs : list bytes) : bytes :=
  match cs with
  | [] => [0]
  | x :: cs => stored_chunk (if first then 1 else 2) x ++ stored_chunks false cs
  end.

Definition chunk_ok (x : bytes) : Prop := 1 <= zlen x <= 65536.

(** What the LZMA2 decoder expects inside of such chunks. *)
Inductive stored_expects : lzma_lzma2_coder -> bytes -> bytes -> Prop :=
  | at_control c cs : sequence2 c = SEQ_CONTROL -> Forall chunk_ok cs ->
      stored_expects c (stored_chunks (need_dictionary_reset c) cs) (concat cs)
  | at_size c x cs : sequence2 c = SEQ_COMPRESSED_0 -> next_sequence c = SEQ_COPY -> need_dictionary_reset c = false -> chunk_ok x -> Forall chunk_ok cs ->
      stored_expects c (drop 1 (stored_chunk 2 x) ++ stored_chunks false cs) (x ++ concat cs)
  | at_size_1 c x cs : sequence2 c = SEQ_COMPRESSED_1 -> next_sequence c = SEQ_COPY -> need_dictionary_reset c = false -> chunk_ok x -> Forall chunk_ok cs ->
      compressed_size c = (zlen x - 1) / 256 * 256 ->
      stored_expects c (drop 2 (stored_chunk 2 x) ++ stored_chunks false cs) (x ++ concat cs)
  | at_copy c x cs : sequence2 c = SEQ_COPY -> need_dictionary_reset c = false -> chunk_ok x -> Forall chunk_ok cs -> compressed_size c = zlen x ->
      stored_expects c (x ++ stored_chunks false cs) (x ++ concat cs).

Lemma chunk_header x : chunk_ok x -> u8 (Z.shiftr (zlen x - 1) 8) = (zlen x - 1) / 256 /\ u8 (Z.land (zlen x - 1) 0xFF) = (zlen x - 1) mod 256.
Proof.
  intros Hx. unfold chunk_ok in Hx. rewrite Z.shiftr_div_pow2 by lia. change 0xFF with (2 ^ 8 - 1). rewrite land_low by lia. change (2 ^ 8) with 256.
  rewrite !u8_small by (unfold is_byte; dlia). split; reflexivity.
Qed.

Lemma stored_not_nil first cs : stored_chunks first cs <> [].
Proof. destruct cs; discriminate. Qed.

Lemma expects_not_nil c p d : stored_expects c p d -> p <> [].
Proof.
  intros [c' cs _ _|c' x cs _ _ _ _ _|c' x cs _ _ _ _ _ _|c' x cs _ _ Hx _ _]; try discriminate; [apply stored_not_nil|].
  unfold chunk_ok in Hx. destruct x; [cbn in Hx; lia|discriminate].
Qed.

(** What a step or a call leaves: the parts that were read and stored, and [Q] of
    the others. *)
Definition stored_left (h : history) (p d input : bytes) (h' : history) (rest : bytes) (Q : bytes -> bytes -> Prop) : Prop :=
  exists used p' out d', p = used ++ p' /\ input = used ++ rest /\ d = out ++ d' /\ hist h' = hist h ++ out /\ Q p' d'.

Definition stored_out (h : history) (p d input : bytes) (ret : lzma_ret) (c' : lzma_lzma2_coder) (h' : history) (rest : bytes) : Prop :=
  stored_left h p d input h' rest (fun p' d' =>
    ret = LZMA_OK /\ stored_expects c' p' d' /\ (d' = [] -> rest = []) \/ ret = LZMA_STREAM_END /\ p' = [] /\ d' = []).

Definition stored_step (h : history) (p d input : bytes) (r : step2_result history) : Prop :=
  match r with
  | Next2 c' h' rest => stored_left h p d input h' rest (stored_expects c')
  | Out2 ret c' h' rest => stored_out h p d input ret c' h' rest
  end.

(** Bytes were read, and no data were stored. *)
Lemma stored_used used h h' p d rest (Q : bytes -> bytes -> Prop) : hist h' = hist h -> Q p d -> stored_left h (used ++ p) d (used ++ rest) h' rest Q.
Proof. intros Hh H. exists used, p, [], d. split_and!; auto. now rewrite app_nil_r. Qed.

Lemma stored_byte h b p d rest c' : stored_expects c' p d -> stored_step h (b :: p) d (b :: rest) (Next2 c' h rest).
Proof. intros H. now apply (stored_used [b]). Qed.

Lemma stored_step_ok c h p d input : stored_expects c p d -> 0 <= avail h -> bytes_ok input -> agrees input p ->
  exists r, lzma2_step c h input = Some r /\ stored_step h p d input r.
Proof.
  intros Hc Hav Hb Ha. destruct input as [|b rest].
  { exists (Out2 LZMA_OK c h []). split; [unfold lzma2_step; destruct Hc as [c cs ->|c x cs -> _ _ _ _|c x cs -> _ _ _ _ _|c x cs -> _ _ _ _]; reflexivity|].
    apply (stored_used []); [reflexivity|]. left. now split_and!. }
  destruct Hc as [c cs Hs Hcs|c x cs Hs Hn Hd Hx Hcs|c x cs Hs Hn Hd Hx Hcs Hsz|c x cs Hs Hd Hx Hcs Hsz]; unfold lzma2_step; rewrite Hs.
  - eexists. split; [reflexivity|]. unfold step_byte. rewrite Hs. destruct cs as [|x cs].
    + cbn [stored_chunks concat] in *. apply agrees_head in Ha as [-> _]. apply (stored_used [0]); [reflexivity|]. right. now split_and!.
    + apply Forall_cons in Hcs as [Hx Hcs]. cbn [stored_chunks] in *. unfold stored_chunk in *. cbn [app] in Ha. apply agrees_head in Ha as [-> Ha].
      cbn [app concat]. destruct (need_dictionary_reset c) eqn:Hd.
      * apply (stored_used [1]); [reflexivity|]. left. split_and!; [reflexivity| |].
        -- apply (at_size (set_needs _ _ false) x cs); auto.
        -- intros E. destruct x; [unfold chunk_ok in Hx; cbn in Hx; lia|discriminate].
      * assert (step_control c h 2 rest = Next2 (set_next_sequence (goto2 c SEQ_COMPRESSED_0) SEQ_COPY) h rest) as ->
          by (unfold step_control; rewrite Hd; cbn; now rewrite Hd).
        apply stored_byte. now apply (at_size _ x cs).
  - eexists. split; [reflexivity|]. unfold step_byte. rewrite Hs. destruct (chunk_header x Hx) as [E1 E2]. unfold stored_chunk in *. cbn [drop app] in *.
    apply agrees_head in Ha as [-> Ha]. apply stored_byte. apply (at_size_1 _ x cs); auto. cbn. rewrite E1. rewrite Z.shiftl_mul_pow2 by lia. reflexivity.
  - eexists. split; [reflexivity|]. unfold step_byte. rewrite Hs. destruct (chunk_header x Hx) as [E1 E2]. unfold stored_chunk in *. cbn [drop app] in *.
    apply agrees_head in Ha as [-> Ha]. apply stored_byte. rewrite Hn. apply at_copy; auto. cbn. rewrite E2, Hsz. dlia.
  - eexists. split; [reflexivity|]. set (input := b :: rest) in *. unfold step_copy2. cbn [window_write history_window]. rewrite Hsz.
    set (n := Z.min (Z.min (zlen input) (zlen x)) (avail h)). assert (0 <= n <= zlen input /\ n <= zlen x) as Hn by lia.
    assert (slice 0 n input = take (Z.to_nat n) x) as Esl.
    { unfold slice, from. rewrite drop_0. destruct Ha as (m & t & E). apply (f_equal (take (Z.to_nat n))) in E. rewrite <- app_assoc in E. now rewrite !take_app_le in E by lia. }
    rewrite Esl. set (k := Z.to_nat n) in *. assert (input = take k x ++ from n input) as Ein by (rewrite <- Esl; unfold slice, from; now rewrite drop_0, take_drop).
    assert (forall (Q : bytes -> bytes -> Prop), (Q (drop k x ++ stored_chunks false cs) (drop k x ++ concat cs)) ->
      stored_left h (x ++ stored_chunks false cs) (x ++ concat cs) input (push h (take k x)) (from n input) Q) as Hleft.
    { intros Q HQ. exists (take k x), (drop k x ++ stored_chunks false cs), (take k x), (drop k x ++ concat cs). rewrite !app_assoc, take_drop. now split_and!. }
    destruct (Z.eqb_spec (zlen x - n) 0); cbn [negb stored_step].
    + apply Hleft. rewrite (drop_ge x) by lia. cbn [app]. pose proof (at_control (goto2 (set_compressed_size c (zlen x - n)) SEQ_CONTROL) cs eq_refl Hcs) as H.
      change (need_dictionary_reset (goto2 _ _)) with (need_dictionary_reset c) in H. rewrite Hd in H. exact H.
    + apply Hleft. left. split; [reflexivity|]. assert (zlen (drop k x) = zlen x - n) as El by (rewrite length_drop; lia). split.
      * apply at_copy; auto. unfold chunk_ok in *. lia.
      * intros E. apply app_eq_nil in E as [E _]. apply (f_equal length) in E. cbn in E. lia.
Qed.

(** *** Calls of the LZMA2 decoder *)

Lemma stored_left_trans h p d input h1 rest1 h2 rest2 (Q1 Q2 : bytes -> bytes -> Prop) : agrees input p ->
  stored_left h p d input h1 rest1 Q1 -> (forall p' d', Q1 p' d' -> agrees rest1 p' -> stored_left h1 p' d' rest1 h2 rest2 Q2) ->
  stored_left h p d input h2 rest2 Q2.
Proof.
  intros Ha (used & p' & out & d' & -> & -> & -> & Hh & HQ) Hnext. destruct (Hnext p' d' HQ (agrees_cut _ _ _ Ha)) as (used2 & p2 & out2 & d2 & -> & -> & -> & Hh2 & HQ2).
  exists (used ++ used2), p2, (out ++ out2), d2. rewrite <- !app_assoc. split_and!; auto. now rewrite Hh2, Hh, app_assoc.
Qed.

Lemma stored_loop_ok fuel : forall c h p d input ret c' h' rest, stored_expects c p d -> lzma2_inv c h -> 0 <= avail h -> wants_reset h = false ->
  bytes_ok input -> agrees input p -> lzma2_loop fuel c h input = Some (ret, c', h', rest) -> stored_out h p d input ret c' h' rest.
Proof.
  induction fuel as [|fuel IH]; intros c h p d input ret c' h' rest Hc Hi Hav Hw Hb Ha; [discriminate|]. cbn [lzma2_loop].
  destruct (stored_step_ok c h p d input Hc Hav Hb Ha) as (r & E & Hr). destruct (lzma2_step_ok c h input Hi Hav Hw Hb) as (r' & E' & Hr').
  rewrite E in E'. injection E' as <-. rewrite E. cbn [mbind option_bind]. destruct r as [c1 h1 rest1|ret1 c1 h1 rest1]; cbn [stored_step step2_ok] in *.
  - intros El. destruct Hr' as (Hi1 & (? & _ & _ & Hav1 & _) & Hw1 & [u ->] & _). apply Forall_app in Hb as [_ Hb].
    eapply stored_left_trans; [exact Ha|exact Hr|]. intros p' d' H1 Ha1. now apply (IH c1 h1 p' d' rest1 ret c' h' rest).
  - intros [= <- <- <- <-]. exact Hr.
Qed.

Lemma settled_wants h : wants_reset (settled h) = false.
Proof. unfold settled. destruct (wants_reset h) eqn:E; [reflexivity|exact E]. Qed.

Lemma stored_decodes room s h input ret s' h' out rest : decodes room s h input ret s' h' out rest ->
  forall p d, stored_expects s p d -> lzma2_inv s h -> wants_reset h = false -> bytes_ok input -> agrees input p ->
  exists used p' d', p = used ++ p' /\ input = used ++ rest /\ d = out ++ d' /\
    (ret = LZMA_OK /\ stored_expects s' p' d' /\ (d' = [] -> rest = []) \/ ret = LZMA_STREAM_END /\ p' = [] /\ d' = []).
Proof.
  induction 1 as [room n s h input ret s' h' out rest Hn Hc Hh Hwhy|room n s h input s1 h1 out1 rest1 ret s' h' out rest Hn Hc Hh Hlt Hdec IH];
    intros p d Hs Hi Hw Hb Ha; change (lz_code s (window_shrink h n) input) with (lzma2_loop (lzma2_fuel input) s (window_shrink h n) input) in Hc;
    assert (lzma2_inv s (window_shrink h n)) as Hi' by (now apply (lzma2_inv_same s h)).
  - destruct (stored_loop_ok _ _ _ p d _ _ _ _ _ Hs Hi' (proj1 Hn) Hw Hb Ha Hc) as (used & p' & out' & d' & -> & -> & -> & Hh2 & HQ).
    cbn in Hh2. rewrite Hh in Hh2. apply app_inv_head in Hh2 as <-. exists used, p', d'. now split_and!.
  - destruct (stored_loop_ok _ _ _ p d _ _ _ _ _ Hs Hi' (proj1 Hn) Hw Hb Ha Hc) as (used & p' & out' & d' & -> & -> & -> & Hh2 & HQ).
    cbn in Hh2. rewrite Hh in Hh2. apply app_inv_head in Hh2 as <-. destruct HQ as [(_ & Hs1 & _)|(? & _)]; [|discriminate].
    destruct (lzma2_loop_ok (lzma2_fuel (used ++ rest1)) s (window_shrink h n) (used ++ rest1) Hi' (proj1 Hn) Hw Hb (lzma2_fuel_enough _ _))
      as (ret2 & c2 & h2 & rest2 & E2 & _ & _ & _ & Hfin & _).
    rewrite Hc in E2. injection E2 as <- <- <- <-. apply Forall_app in Hb as [_ Hb].
    destruct (IH p' d' Hs1 (Hfin eq_refl) (settled_wants h1) Hb (agrees_cut _ _ _ Ha)) as (used2 & p2 & d2 & -> & -> & -> & HQ2).
    exists (used ++ used2), p2, d2. rewrite <- !app_assoc. now split_and!.
Qed.

(** ** The decoder of a chain that ends with LZMA2 *)

Section Lz.
Context (config : dict_config).

Definition stored_ready (c : lz_coder lzma_lzma2_coder Empty_set) (p d : bytes) : Prop :=
  (exists h, lz_idle config c h) /\ stored_expects (lz c) p d.

Lemma stored_answers c p d input room action : stored_ready c p d -> bytes_ok input -> agrees input p ->
  answers stored_ready p d input room (lz_last config c input room action).
Proof.
  intros [[h Hidle] Hs] Hb Ha. destruct (lz_last_spec config c h input room action Hidle Hb) as (ret & s' & h' & out & rest & d' & -> & Hdec & Hl & Hu & Hok).
  destruct Hidle as (_ & Hinv & Hw). destruct (stored_decodes _ _ _ _ _ _ _ _ _ Hdec p d Hs Hinv Hw Hb Ha) as (used & p' & d2 & -> & -> & -> & HQ).
  exists used, p', d2. split_and!; auto. destruct HQ as [(-> & Hs' & Hd)|(-> & -> & ->)]; [left|now right].
  destruct (Hok eq_refl) as [Hidle' Hstop]. pose proof (expects_not_nil _ _ _ Hs') as Hne. split_and!; auto; [|contradiction]. split; [now exists h'|exact Hs'].
Qed.

(** A decoder that was just made. *)
Lemma stored_init mem c0 o s ds preset c cs : 0 <= dict_size o -> (forall n b, mem n = Some b -> zlen b = n) -> Forall chunk_ok cs -> preset_dict o = None ->
  lzma2_decoder_init c0 o = Ok (s, ds, preset) -> lzma_lz_decoder_init config mem (lzma2_decoder_init c0 o) (Ok None) = Ok c ->
  stored_ready c (stored_chunks true cs) (concat cs).
Proof.
  intros Hds Hmem Hcs Hpre Hi. unfold lzma_lz_decoder_init. rewrite Hi. cbn [res_bind].
  destruct (dict_init config mem ds preset) as [d|] eqn:Ed; cbn [res_bind]; [|discriminate]. intros [= <-].
  assert (0 <= ds) as Hds' by (injection Hi as _ <- _; exact Hds). destruct (dict_init_idle config mem ds preset d Hds' Hmem Ed) as (tail & Hidle).
  split; [eexists; split_and!; [exact Hidle|now apply (lzma2_init_inv c0 o s ds preset)|reflexivity]|].
  cbn [lz]. injection Hi as <- _ _. pose proof (at_control (set_needs (goto2 c0 SEQ_CONTROL) true (bool_decide (preset_dict o = None) || (preset_dict_size o =? 0))) cs eq_refl Hcs) as H.
  cbn [need_dictionary_reset set_needs] in H. replace (bool_decide (preset_dict o = None)) with true in H |- * by (symmetry; now apply bool_decide_eq_true). exact H.
Qed.

End Lz.
