(* ===== verification/RawDecoder.v ===== *)
(** * Chains of filters that decode

    [lzma_raw_coder_init] and [lzma_raw_coder_memusage]
    ([common/filter_common.c]) for the decoders of [common/filter_decoder.c]: a
    chain is the coder of its first filter, which has the next one in it.  The
    table has the filters of a build with [HAVE_DECODER_LZMA1],
    [HAVE_DECODER_LZMA2] and [HAVE_DECODER_DELTA].  Such chains keep the promises
    [Safe] and [Decodes] that the Block and the Stream decoder rely on. *)

From Stdlib Require Import ZArith Lia.
From stdpp Require Import list.
From S2P Require Import Prelude FilterProps FilterFlags Coder Decodes Delta LzDict LzDecoder LzmaDecoder LzmaSafety Lzma2Decoder BlockDecoder StreamDecoder Lzma2Stored.

(** ** The coders *)

(** [lzma_next_coder]: [next.coder] of a filter, by its type. *)
Inductive next_coder :=
  | NextLzma1 (c : lz_coder lzma_lzma1_decoder Empty_set)
  | NextLzma2 (c : lz_coder lzma_lzma2_coder Empty_set)
  | NextDelta (c : lzma_delta_coder next_coder).

(** What [lzma_alloc] gives for the dictionary, whether it gives memory for the
    coders and what that contains; how [dict_repeat] is compiled, and the sizes of
    the structures, which depend on the platform. *)
Class RawMemory := {
  dictionary_config : dict_config;
  dictionary_memory : Z -> option bytes;
  coder_allocated : bool;
  lzma1_memory : lzma_lzma1_decoder;
  lzma2_memory : lzma_lzma2_coder;
  sizeof_lzma_coder : Z;
  sizeof_lzma_lzma1_decoder : Z;
  sizeof_lzma_lzma2_coder : Z;
  sizeof_lzma_delta_coder : Z;
}.

Section Chain.
Context {M : RawMemory}.

(** [next.code] *)
#[export] Instance raw_code : Coder next_coder :=
  fix go (n : next_coder) (input : bytes) (avail : nat) (action : lzma_action) {struct n} :=
    match n with
    | NextLzma1 c => let '(ret, c, out, rest) := lz_last dictionary_config c input avail action in (ret, NextLzma1 c, out, rest)
    | NextLzma2 c => let '(ret, c, out, rest) := lz_last dictionary_config c input avail action in (ret, NextLzma2 c, out, rest)
    | NextDelta c => let '(ret, c, out, rest) := delta_decode (C := go) c input avail action in (ret, NextDelta c, out, rest)
    end.

(** *** Initialization *)

(** [lzma_filter_coder], the first members of [lzma_filter_decoder].  [fc_init] gets
    the ID, the options and [lzma_next_filter_init] on the rest of the chain. *)
Record lzma_filter_coder := {
  fc_id : Z;
  fc_init : option (Z -> filter_options -> res (option next_coder) -> res next_coder);
  fc_memusage : option (filter_options -> Z);
}.

(** The members are [uint32_t]. *)
Definition options_u32 (o : lzma_options_lzma) : lzma_options_lzma :=
  {| dict_size := u32 (dict_size o); preset_dict := preset_dict o; preset_dict_size := u32 (preset_dict_size o); lc := u32 (lc o);
     lp := u32 (lp o); pb := u32 (pb o); mode := mode o; nice_len := u32 (nice_len o); mf := mf o; depth := u32 (depth o);
     ext_flags := u32 (ext_flags o); ext_size_low := u32 (ext_size_low o); ext_size_high := u32 (ext_size_high o) |}.

(** The options of the last filter; a null pointer is not checked for by the code. *)
Definition lzma_options (options : filter_options) : res lzma_options_lzma :=
  match as_lzma options with Some o => Ok (options_u32 o) | None => Err LZMA_PROG_ERROR end.

(** [lzma_lz_decoder_init] as the last of a chain. *)
Definition lz_last_init {S : Type} {L : LzCoder S} (lz_init : res (S * Z * bytes)) : res (lz_coder S Empty_set) :=
  if negb coder_allocated then Err LZMA_MEM_ERROR else lzma_lz_decoder_init dictionary_config dictionary_memory lz_init (Ok None).

Definition lzma_lzma_decoder_init (id : Z) (options : filter_options) (next : res (option next_coder)) : res next_coder :=
  let? c := lz_last_init (
    let? o := lzma_options options in
    let? c := lzma_decoder_init lzma1_memory (id =? LZMA_FILTER_LZMA1EXT) o in
    Ok (c, dict_size o, preset_bytes o)) in
  Ok (NextLzma1 c).

Definition lzma_lzma2_decoder_init (id : Z) (options : filter_options) (next : res (option next_coder)) : res next_coder :=
  let? c := lz_last_init (
    let? o := lzma_options options in lzma2_decoder_init lzma2_memory o) in
  Ok (NextLzma2 c).

(** [lzma_delta_decoder_init] *)
Definition lzma_delta_decoder_init (id : Z) (options : filter_options) (next : res (option next_coder)) : res next_coder :=
  let? c := lzma_delta_coder_init None coder_allocated options (fun _ => next) in Ok (NextDelta c).

Definition lzma_lz_decoder_memusage (dictionary_size : Z) : Z :=
  u64 (sizeof_lzma_coder + dictionary_size + 2 * LZ_DICT_REPEAT_MAX + LZ_DICT_EXTRA dictionary_config).

Definition lzma_lzma_decoder_memusage_nocheck (options : filter_options) : Z :=
  match lzma_options options with
  | Ok o => u64 (sizeof_lzma_lzma1_decoder + lzma_lz_decoder_memusage (dict_size o))
  | Err _ => UINT64_MAX
  end.

Definition lzma_lzma_decoder_memusage (options : filter_options) : Z :=
  match lzma_options options with
  | Ok o => if negb (is_lclppb_valid o) then UINT64_MAX else lzma_lzma_decoder_memusage_nocheck options
  | Err _ => UINT64_MAX
  end.

Definition lzma_lzma2_decoder_memusage (options : filter_options) : Z :=
  match lzma_options options with
  | Ok _ => u64 (sizeof_lzma_lzma2_coder + lzma_lzma_decoder_memusage_nocheck options)
  | Err _ => UINT64_MAX
  end.

(** [decoders[]] *)
Definition decoder_coders : list lzma_filter_coder :=
  [ {| fc_id := LZMA_FILTER_LZMA1; fc_init := Some lzma_lzma_decoder_init; fc_memusage := Some lzma_lzma_decoder_memusage |};
    {| fc_id := LZMA_FILTER_LZMA1EXT; fc_init := Some lzma_lzma_decoder_init; fc_memusage := Some lzma_lzma_decoder_memusage |};
    {| fc_id := LZMA_FILTER_LZMA2; fc_init := Some lzma_lzma2_decoder_init; fc_memusage := Some lzma_lzma2_decoder_memusage |};
    {| fc_id := LZMA_FILTER_DELTA; fc_init := Some lzma_delta_decoder_init;
       fc_memusage := Some (lzma_delta_coder_memusage sizeof_lzma_delta_coder) |} ].

Definition coder_find (id : Z) : option lzma_filter_coder := find (fun fc => fc_id fc =? id) decoder_coders.

(** [lzma_filter_info] *)
Record lzma_filter_info := {
  info_id : Z;
  info_init : Z -> filter_options -> res (option next_coder) -> res next_coder;
  info_options : filter_options;
}.

(** A terminated array of them; the next coder is new. *)
Fixpoint lzma_next_filter_init (filters : list lzma_filter_info) : res (option next_coder) :=
  match filters with
  | [] => Ok None
  | f :: filters => let? c := info_init f (info_id f) (info_options f) (lzma_next_filter_init filters) in Ok (Some c)
  end.

(** The loop that sets the functions. *)
Fixpoint filter_infos (find_coder : Z -> option lzma_filter_coder) (options_ : list lzma_filter) : res (list lzma_filter_info) :=
  match options_ with
  | [] => Ok []
  | f :: rest =>
      match find_coder (filter_id f) ≫= fc_init with
      | None => Err LZMA_OPTIONS_ERROR
      | Some init => let? infos := filter_infos find_coder rest in Ok ({| info_id := filter_id f; info_init := init; info_options := options f |} :: infos)
      end
  end.

Definition lzma_raw_coder_init (find_coder : Z -> option lzma_filter_coder) (filters : list lzma_filter) (is_encoder : bool) : res (option next_coder) :=
  let? count := lzma_validate_chain filters in
  let? infos := filter_infos find_coder filters in
  lzma_next_filter_init (if is_encoder then rev infos else infos).

(** The loop of [lzma_raw_coder_memusage]. *)
Fixpoint memusage_loop (find_coder : Z -> option lzma_filter_coder) (filters : list lzma_filter) (total : Z) : Z :=
  match filters with
  | [] => u64 (total + LZMA_MEMUSAGE_BASE)
  | f :: rest =>
      match find_coder (filter_id f) with
      | None => UINT64_MAX
      | Some fc =>
          match fc_memusage fc with
          | None => memusage_loop find_coder rest (u64 (total + 1024))
          | Some memusage =>
              let usage := memusage (options f) in
              if usage =? UINT64_MAX then UINT64_MAX else memusage_loop find_coder rest (u64 (total + usage))
          end
      end
  end.

Definition lzma_raw_coder_memusage (find_coder : Z -> option lzma_filter_coder) (filters : list lzma_filter) : Z :=
  match lzma_validate_chain filters with
  | Err _ => UINT64_MAX
  | Ok _ => memusage_loop find_coder filters 0
  end.

Definition lzma_raw_decoder_init (filters : list lzma_filter) : res (option next_coder) := lzma_raw_coder_init coder_find filters false.

Definition lzma_raw_decoder_memusage (filters : list lzma_filter) : Z := lzma_raw_coder_memusage coder_find filters.

(** A valid chain is not empty. *)
#[export] Instance raw_decoder : RawDecoder next_coder := {|
  raw_decoder_init := fun filters => let? n := lzma_raw_decoder_init filters in match n with Some c => Ok c | None => Err LZMA_PROG_ERROR end;
  raw_decoder_memusage := lzma_raw_decoder_memusage;
|}.
End Chain.

(** ** The promises *)

Class RawMemoryLaws {M : RawMemory} :=
  dictionary_length n b : dictionary_memory n = Some b -> zlen b = n.

Section Promise.
Context {M : RawMemory} {ML : RawMemoryLaws}.
Implicit Types (n : next_coder).

Inductive chain_safe : next_coder -> Prop :=
  | safe_lzma1 c : (exists h, lz_idle dictionary_config c h) -> chain_safe (NextLzma1 c)
  | safe_lzma2 c : (exists h, lz_idle dictionary_config c h) -> chain_safe (NextLzma2 c)
  | safe_delta c n past : delta_next c = Some n -> ring c past -> 1 <= distance c <= 256 -> chain_safe n -> chain_safe (NextDelta c).

(** The decoders give back what LZMA2 without compression and Delta have encoded;
    [past] are the last bytes that Delta has given. *)
Inductive chain_expects : next_coder -> bytes -> bytes -> Prop :=
  | expects_lzma2 c p d : stored_ready dictionary_config c p d -> chain_expects (NextLzma2 c) p d
  | expects_delta c n past p d : delta_next c = Some n -> ring c past -> 1 <= distance c <= 256 -> chain_expects n p d ->
      chain_expects (NextDelta c) p (undelta_go (distance c) past d).

Lemma undelta_length dist l : forall past, length (undelta_go dist past l) = length l.
Proof using Type. induction l as [|x l IH]; intros past; cbn; auto. Qed.

Lemma undelta_nil dist past l : undelta_go dist past l = [] <-> l = [].
Proof using Type. destruct l; split; try discriminate; reflexivity. Qed.

Lemma delta_call c n past input avail action : delta_next c = Some n -> ring c past -> 1 <= distance c <= 256 ->
  let '(ret, n', out, rest) := raw_code n input avail action in
  exists c' past', raw_code (NextDelta c) input avail action = (ret, NextDelta c', undelta_go (distance c) past out, rest) /\
    delta_next c' = Some n' /\ ring c' past' /\ distance c' = distance c /\ past' = rev (undelta_go (distance c) past out) ++ past.
Proof using Type.
  intros En Hr Hd. destruct (raw_code n input avail action) as [[[ret n'] out] rest] eqn:E.
  pose proof (decode_buffer_spec out (set_next c (Some n')) past (ring_next c past (Some n') Hr) Hd) as H.
  destruct (Delta.decode_buffer (set_next c (Some n')) out) as [c' o] eqn:Eb. destruct H as (-> & Hr' & Hd' & Hn').
  exists c', (rev (undelta_go (distance c) past out) ++ past). split; [|now split_and!].
  change (raw_code (NextDelta c) input avail action) with (let '(ret, c, out, rest) := delta_decode (C := raw_code) c input avail action in (ret, NextDelta c, out, rest)).
  unfold delta_decode. rewrite En. unfold code. rewrite E, Eb. reflexivity.
Qed.

Lemma raw_code_kept n input avail action : chain_safe n -> bytes_ok input -> kept chain_safe input avail (raw_code n input avail action).
Proof using Type.
  intros Hn Hb. induction Hn as [c Hc|c Hc|c n past En Hr Hd _ IH].
  - pose proof (lz_last_kept dictionary_config c input avail action Hc Hb) as H.
    change (raw_code (NextLzma1 c) input avail action) with (let '(ret, c, out, rest) := lz_last dictionary_config c input avail action in (ret, NextLzma1 c, out, rest)).
    destruct (lz_last _ _ _ _ _) as [[[ret c'] out] rest]. destruct H as (H1 & H2 & H3). split_and!; auto. intros ?. constructor. auto.
  - pose proof (lz_last_kept dictionary_config c input avail action Hc Hb) as H.
    change (raw_code (NextLzma2 c) input avail action) with (let '(ret, c, out, rest) := lz_last dictionary_config c input avail action in (ret, NextLzma2 c, out, rest)).
    destruct (lz_last _ _ _ _ _) as [[[ret c'] out] rest]. destruct H as (H1 & H2 & H3). split_and!; auto. intros ?. constructor. auto.
  - pose proof (delta_call c n past input avail action En Hr Hd) as H. destruct (raw_code n input avail action) as [[[ret n'] out] rest].
    destruct H as (c' & past' & -> & En' & Hr' & Hd' & _). destruct IH as (H1 & H2 & H3). split_and!; auto; [now rewrite undelta_length|].
    intros Hret. apply (safe_delta c' n' past'); auto. lia.
Qed.

Lemma raw_code_answers n p d input avail action : chain_expects n p d -> bytes_ok input -> agrees input p ->
  answers chain_expects p d input avail (raw_code n input avail action).
Proof using Type.
  intros Hn Hb Ha. induction Hn as [c p d Hc|c n past p d En Hr Hd _ IH].
  - pose proof (stored_answers dictionary_config c p d input avail action Hc Hb Ha) as H.
    change (raw_code (NextLzma2 c) input avail action) with (let '(ret, c, out, rest) := lz_last dictionary_config c input avail action in (ret, NextLzma2 c, out, rest)).
    destruct (lz_last _ _ _ _ _) as [[[ret c'] out] rest]. destruct H as (used & p' & d' & H1 & H2 & H3 & H4 & H5). exists used, p', d'. split_and!; auto.
    destruct H5 as [(? & ? & ?)|?]; [left|now right]. split_and!; try tauto. now constructor.
  - pose proof (delta_call c n past input avail action En Hr Hd) as H. specialize (IH Ha). destruct (raw_code n input avail action) as [[[ret n'] out] rest].
    destruct H as (c' & past' & -> & En' & Hr' & Hd' & ->). destruct IH as (used & p' & d' & -> & -> & -> & H4 & H5).
    exists used, p', (undelta_go (distance c) (rev (undelta_go (distance c) past out) ++ past) d'). rewrite undelta_length, undelta_go_app, undelta_nil.
    split_and!; auto. destruct H5 as [(Hret & Hc & H5)|(Hret & -> & ->)]; [left|now right]. split; [exact Hret|]. split; [|exact H5].
    rewrite <- Hd'. apply (expects_delta c' n'); auto; [now rewrite Hd'|lia].
Qed.

(** *** New chains *)

Lemma lz_last_init_safe {S : Type} {L : LzCoder S} {LL : LzCoderLaws S} (i : res (S * Z * bytes)) c :
  (forall s ds preset, i = Ok (s, ds, preset) -> 0 <= ds /\ forall h, lz_inv s h) -> lz_last_init i = Ok c -> exists h, lz_idle dictionary_config c h.
Proof using ML.
  intros Hi. unfold lz_last_init, lzma_lz_decoder_init. case_if; [discriminate|]. destruct i as [[[s ds] preset]|]; cbn [res_bind]; [|discriminate].
  destruct (Hi s ds preset eq_refl) as [Hds Hinv]. destruct (dict_init _ _ _ _) as [d|] eqn:Ed; cbn [res_bind]; [|discriminate]. intros [= <-].
  destruct (dict_init_idle _ _ _ _ _ Hds dictionary_length Ed) as (tail & Hidle). eexists. split_and!; [exact Hidle|apply Hinv|reflexivity].
Qed.

Lemma options_nonneg options o : lzma_options options = Ok o -> 0 <= dict_size o /\ 0 <= lc o /\ 0 <= lp o /\ 0 <= pb o.
Proof using Type.
  unfold lzma_options. destruct (as_lzma options); [|discriminate]. intros [= <-]. unfold options_u32. cbn.
  pose proof (u32_range (dict_size l)). pose proof (u32_range (lc l)). pose proof (u32_range (lp l)). pose proof (u32_range (pb l)). unfold is_u32 in *. lia.
Qed.

Lemma lzma_init_safe id options next n : lzma_lzma_decoder_init id options next = Ok n -> chain_safe n.
Proof using ML.
  unfold lzma_lzma_decoder_init. destruct (lz_last_init _) as [c|] eqn:E; cbn [res_bind]; [|discriminate]. intros [= <-]. constructor.
  apply lz_last_init_safe with (2 := E). intros s ds preset. destruct (lzma_options options) as [o|] eqn:Eo; cbn [res_bind]; [|discriminate].
  destruct (options_nonneg _ _ Eo) as (H1 & H2 & H3 & H4). destruct (lzma_decoder_init _ _ _) as [s1|] eqn:Es; cbn [res_bind]; [|discriminate].
  intros [= <- <- <-]. split; [exact H1|]. intros h. now apply decoder_init_inv with (4 := Es).
Qed.

Lemma lzma2_init_safe id options next n : lzma_lzma2_decoder_init id options next = Ok n -> chain_safe n.
Proof using ML.
  unfold lzma_lzma2_decoder_init. destruct (lz_last_init _) as [c|] eqn:E; cbn [res_bind]; [|discriminate]. intros [= <-]. constructor.
  apply lz_last_init_safe with (2 := E). intros s ds preset. destruct (lzma_options options) as [o|] eqn:Eo; cbn [res_bind]; [|discriminate].
  destruct (options_nonneg _ _ Eo) as (H1 & _). intros Ei. split; [now injection Ei as _ <- _|]. intros h. eapply lzma2_init_inv. exact Ei.
Qed.

Lemma ring_fresh alloc options next (c : lzma_delta_coder next_coder) : lzma_delta_coder_init None alloc options (fun _ => next) = Ok c ->
  exists o, next = Ok o /\ delta_next c = o /\ ring c [] /\ 1 <= distance c <= 256 /\ exists type, as_delta options = Some (type, distance c).
Proof using Type.
  intros E. destruct (ring_init _ _ _ _ _ E) as (H1 & H2 & H3). unfold lzma_delta_coder_init in E. repeat (case_if_in E; [discriminate|]).
  destruct (as_delta options) as [[type dist]|]; [|discriminate]. destruct next as [o|]; cbn [res_bind] in E; [|discriminate].
  exists o. split; [reflexivity|]. split; [now injection E as <-|]. now split.
Qed.

Lemma delta_init_spec id options o n : lzma_delta_decoder_init id options (Ok o) = Ok n ->
  exists c type, n = NextDelta c /\ delta_next c = o /\ ring c [] /\ 1 <= distance c <= 256 /\ as_delta options = Some (type, distance c).
Proof using Type.
  unfold lzma_delta_decoder_init. destruct (lzma_delta_coder_init _ _ _ _) as [c|] eqn:E; cbn [res_bind]; [|discriminate]. intros [= <-].
  destruct (ring_fresh _ _ _ _ E) as (? & [= <-] & H1 & H2 & H3 & type & H4). exists c, type. now split_and!.
Qed.

Lemma coder_find_init id init : coder_find id ≫= fc_init = Some init ->
  id = LZMA_FILTER_DELTA /\ init = lzma_delta_decoder_init \/ id = LZMA_FILTER_LZMA2 /\ init = lzma_lzma2_decoder_init \/
  (id = LZMA_FILTER_LZMA1 \/ id = LZMA_FILTER_LZMA1EXT) /\ init = lzma_lzma_decoder_init.
Proof using Type.
  unfold coder_find. destruct (find _ _) as [fc|] eqn:E; [|discriminate]. apply find_some in E as [Hin E]. b2p. subst id. cbn [decoder_coders] in Hin.
  repeat (destruct Hin as [<-|Hin]; [cbn [mbind option_bind fc_init fc_id]; intros [= <-]; auto|]). destruct Hin.
Qed.

(** The coders of a chain, from the last one on. *)
Lemma next_init_safe pre last : filter_id last ∈ last_ids -> Forall (fun f => filter_id f ∈ non_last_ids) pre -> forall infos o,
  filter_infos coder_find (pre ++ [last]) = Ok infos -> lzma_next_filter_init infos = Ok o -> exists n, o = Some n /\ chain_safe n.
Proof using ML.
  intros Hl. induction 1 as [|f pre Hf _ IH]; intros infos o; cbn [app filter_infos].
  - destruct (coder_find _ ≫= fc_init) as [init|] eqn:E; [|discriminate]. cbn [res_bind]. intros [= <-]. cbn [lzma_next_filter_init info_init info_id info_options].
    destruct (init _ _ _) as [n|] eqn:En; cbn [res_bind]; [|discriminate]. intros [= <-]. exists n. split; [reflexivity|].
    destruct (coder_find_init _ _ E) as [[Eid _]|[[_ ->]|[_ ->]]]; [|now apply lzma2_init_safe in En|now apply lzma_init_safe in En].
    rewrite Eid in Hl. apply (bool_decide_pack _) in Hl. now vm_compute in Hl.
  - destruct (coder_find _ ≫= fc_init) as [init|] eqn:E; [|discriminate]. destruct (filter_infos _ _) as [infos'|] eqn:Ei; cbn [res_bind]; [|discriminate].
    intros [= <-]. cbn [lzma_next_filter_init info_init info_id info_options]. destruct (init _ _ _) as [n|] eqn:En; cbn [res_bind]; [|discriminate]. intros [= <-].
    exists n. split; [reflexivity|]. destruct (coder_find_init _ _ E) as [[_ ->]|[[_ ->]|[_ ->]]]; [|now apply lzma2_init_safe in En|now apply lzma_init_safe in En].
    destruct (lzma_next_filter_init infos') as [o'|] eqn:Eo; [|unfold lzma_delta_decoder_init, lzma_delta_coder_init in En; repeat (case_if_in En; [discriminate|]); destruct (as_delta _) as [[? ?]|]; discriminate].
    destruct (IH _ _ eq_refl Eo) as (n' & -> & Hn'). destruct (delta_init_spec _ _ _ _ En) as (c & type & -> & H1 & H2 & H3 & _). now apply (safe_delta c n' []).
Qed.

Lemma raw_decoder_init_safe filters n : raw_decoder_init filters = Ok n -> chain_safe n.
Proof using ML.
  cbn [raw_decoder_init raw_decoder]. unfold lzma_raw_decoder_init, lzma_raw_coder_init, lzma_validate_chain. destruct filters as [|f fs]; [discriminate|].
  set (filters := f :: fs). destruct (validate_loop filters true false 0 0) as [[[l c] i]|] eqn:Ev; cbn [res_bind]; [|discriminate].
  case_if; [discriminate|]. b2p. apply validate_loop_inv in Ev as [_ [(-> & _)|[(-> & _)|(_ & _ & pre & last & E & Hp & Hl)]]]; try discriminate.
  cbn [res_bind]. rewrite E. destruct (filter_infos _ _) as [infos|] eqn:Ei; cbn [res_bind]; [|discriminate].
  destruct (lzma_next_filter_init infos) as [o|] eqn:Eo; cbn [res_bind]; [|discriminate]. destruct (next_init_safe pre last Hl Hp _ _ Ei Eo) as (n' & -> & Hn').
  now intros [= <-].
Qed.

(** *** Delta filters and LZMA2 *)

Definition delta_filter (dist : Z) : lzma_filter := {| filter_id := LZMA_FILTER_DELTA; options := OptDelta LZMA_DELTA_TYPE_BYTE dist |}.
Definition lzma2_filter (o : lzma_options_lzma) : lzma_filter := {| filter_id := LZMA_FILTER_LZMA2; options := OptLzma o |}.

(** What the encoders of Delta filters give to the next one, and back. *)
Definition deltas (dists : list Z) (data : bytes) : bytes := fold_left (fun d dist => delta_go dist [] d) dists data.
Definition undeltas (dists : list Z) (data : bytes) : bytes := fold_right (fun dist d => undelta_go dist [] d) data dists.

Lemma delta_go_bytes dist data : forall past, bytes_ok (delta_go dist past data).
Proof using Type. induction data as [|b data IH]; intros past; constructor; [apply u8_range|apply IH]. Qed.

Lemma undeltas_deltas dists : forall data, bytes_ok data -> undeltas dists (deltas dists data) = data.
Proof using Type.
  unfold deltas, undeltas. induction dists as [|dist dists IH]; intros data Hb; [reflexivity|]. cbn [fold_left fold_right].
  rewrite IH by apply delta_go_bytes. now apply undelta_delta.
Qed.

Lemma deltas_bytes dists : forall data, bytes_ok data -> bytes_ok (deltas dists data).
Proof using Type. unfold deltas. induction dists as [|dist dists IH]; intros data Hb; [exact Hb|]. cbn [fold_left]. apply IH, delta_go_bytes. Qed.

Lemma deltas_length dists : forall data, length (deltas dists data) = length data.
Proof using Type. unfold deltas. induction dists as [|dist dists IH]; intros data; [reflexivity|]. cbn [fold_left]. now rewrite IH, length_delta_go. Qed.

Lemma stored_chain_init o cs : forall dists infos r, preset_dict o = None -> Forall chunk_ok cs ->
  filter_infos coder_find (map delta_filter dists ++ [lzma2_filter o]) = Ok infos -> lzma_next_filter_init infos = Ok r ->
  exists c, r = Some c /\ chain_expects c (stored_chunks true cs) (undeltas dists (concat cs)).
Proof using ML.
  intros dists. induction dists as [|dist dists IH]; intros infos r Ho Hcs; cbn [map app filter_infos].
  - intros [= <-]. cbn [lzma_next_filter_init info_init info_id info_options]. unfold lzma_lzma2_decoder_init at 1, lz_last_init. cbn [lzma2_filter filter_id options].
    unfold lzma_options. cbn [as_lzma res_bind]. set (i := lzma2_decoder_init _ _). case_if; [discriminate|].
    destruct (lzma_lz_decoder_init _ _ i (Ok None)) as [c|] eqn:E; cbn [res_bind]; [|discriminate]. intros [= <-]. eexists. split; [reflexivity|]. constructor.
    eapply stored_init with (o := options_u32 o); [apply u32_range|apply dictionary_length|exact Hcs|exact Ho|reflexivity|exact E].
  - change (coder_find (filter_id (delta_filter dist)) ≫= fc_init) with (Some lzma_delta_decoder_init). cbv iota.
    destruct (filter_infos _ _) as [infos'|] eqn:Ei; cbn [res_bind]; [|discriminate]. intros [= <-]. cbn [lzma_next_filter_init info_init info_id info_options].
    destruct (lzma_next_filter_init infos') as [r'|] eqn:En'.
    + destruct (lzma_delta_decoder_init _ _ _) as [c|] eqn:E; cbn [res_bind]; [|discriminate]. intros [= <-].
      destruct (IH _ _ Ho Hcs eq_refl En') as (c' & -> & Hc'). destruct (delta_init_spec _ _ _ _ E) as (cd & type & -> & H1 & H2 & H3 & [= _ Hdist]).
      eexists. split; [reflexivity|]. unfold undeltas. cbn [fold_right]. rewrite Hdist. exact (expects_delta cd c' [] _ _ H1 H2 H3 Hc').
    + unfold lzma_delta_decoder_init, lzma_delta_coder_init. cbn [res_bind]. repeat (case_if; [discriminate|]). discriminate.
Qed.

Lemma stored_raw_init dists o cs n : preset_dict o = None -> Forall chunk_ok cs ->
  raw_decoder_init (map delta_filter dists ++ [lzma2_filter o]) = Ok n -> chain_expects n (stored_chunks true cs) (undeltas dists (concat cs)).
Proof using ML.
  intros Ho Hcs. cbn [raw_decoder_init raw_decoder]. unfold lzma_raw_decoder_init, lzma_raw_coder_init.
  destruct (lzma_validate_chain _); cbn [res_bind]; [|discriminate]. destruct (filter_infos _ _) as [infos|] eqn:Ei; cbn [res_bind]; [|discriminate].
  destruct (lzma_next_filter_init infos) as [o'|] eqn:Eo; cbn [res_bind]; [|discriminate]. destruct (stored_chain_init o cs dists infos o' Ho Hcs Ei Eo) as (c & -> & Hc).
  now intros [= <-].
Qed.
End Promise.

#[export] Instance raw_coder_safe `{ML : RawMemoryLaws} : Safe next_coder.
Proof. exists chain_safe. apply raw_code_kept. Defined.

#[export] Instance raw_chain_safe `{ML : RawMemoryLaws} : RawSafe next_coder.
Proof. exact raw_decoder_init_safe. Defined.

#[export] Instance raw_coder_decodes `{ML : RawMemoryLaws} : Decodes next_coder.
Proof. exists chain_expects. apply raw_code_answers. Defined.
