(* ===== verification/BufferEncoder.v ===== *)
(** * Blocks and Streams that are encoded in a single call

    [common/block_buffer_encoder.c] and [common/stream_buffer_encoder.c], with
    [lzma_index_append] ([common/index.c]) for the Index that they write.  Data
    that do not get smaller are stored as LZMA2 chunks of plain bytes, for which
    [lzma2_bound] is the exact size. *)

From Stdlib Require Import ZArith Lia.
From stdpp Require Import list.
From S2P Require Import Prelude Delta LzDict LzDecoder LzmaDecoder LzmaSafety Lzma2Decoder Vli Crc Sha256 Check FilterProps FilterFlags BlockHeader StreamFlags IndexHash Coder IndexPieces Decodes BlockDecoder StreamDecoder StreamFormat Lzma2Stored RawDecoder.

(** ** Bounds *)

Definition LZMA_CHECK_SIZE_MAX : Z := 64.
Definition LZMA2_CHUNK_MAX : Z := Z.shiftl 1 16.
Definition LZMA2_HEADER_UNCOMPRESSED : Z := 3.
Definition SIZE_MAX : Z := UINT64_MAX.

(** [common/block_encoder.h] *)
Definition COMPRESSED_SIZE_MAX : Z := Z.land (LZMA_VLI_MAX - LZMA_BLOCK_HEADER_SIZE_MAX - LZMA_CHECK_SIZE_MAX) (Z.lnot 3).

Definition BLOCK_HEADERS_BOUND : Z := Z.land (1 + 1 + 2 * LZMA_VLI_BYTES_MAX + 3 + 4 + LZMA_CHECK_SIZE_MAX + 3) (Z.lnot 3).

(** The divisions are of unsigned integers; [0] stands for a size that is too large. *)
Definition lzma2_bound (uncompressed_size : Z) : Z :=
  if uncompressed_size >? COMPRESSED_SIZE_MAX then 0
  else
    let overhead := u64 (u64 (uncompressed_size + LZMA2_CHUNK_MAX - 1) / LZMA2_CHUNK_MAX * LZMA2_HEADER_UNCOMPRESSED + 1) in
    if u64 (COMPRESSED_SIZE_MAX - overhead) <? uncompressed_size then 0 else u64 (uncompressed_size + overhead).

Definition lzma_block_buffer_bound64 (uncompressed_size : Z) : Z :=
  let lzma2_size := lzma2_bound uncompressed_size in
  if lzma2_size =? 0 then 0
  else u64 (BLOCK_HEADERS_BOUND + Z.land (u64 (lzma2_size + 3)) (u64 (Z.lnot 3))).

Definition INDEX_BOUND : Z := Z.land (1 + 1 + 2 * LZMA_VLI_BYTES_MAX + 4 + 3) (Z.lnot 3).
Definition STREAM_HEADERS_BOUND : Z := 2 * LZMA_STREAM_HEADER_SIZE + INDEX_BOUND.

Definition lzma_stream_buffer_bound (uncompressed_size : Z) : Z :=
  let block_bound := lzma_block_buffer_bound64 uncompressed_size in
  if block_bound =? 0 then 0
  else if u64 (Z.min SIZE_MAX LZMA_VLI_MAX - block_bound) <? STREAM_HEADERS_BOUND then 0
  else u64 (block_bound + STREAM_HEADERS_BOUND).

(** ** Chunks *)

(** [while (in_pos < in_size)] with the end marker behind it; [fuel] of more than the
    bytes is enough. *)
Fixpoint chunk_loop (fuel : nat) (control : Z) (input : bytes) : option bytes :=
  match fuel with
  | O => None
  | S fuel =>
      match input with
      | [] => Some [0]
      | _ =>
          let copy_size := Z.min (zlen input) LZMA2_CHUNK_MAX in
          more ← chunk_loop fuel 2 (from copy_size input);
          Some (control :: u8 (Z.shiftr (copy_size - 1) 8) :: u8 (Z.land (copy_size - 1) 0xFF) :: slice 0 copy_size input ++ more)
      end
  end.

(** [{ .dict_size = LZMA_DICT_SIZE_MIN }] *)
Definition lzma2_min : lzma_options_lzma := Build_lzma_options_lzma LZMA_DICT_SIZE_MIN None 0 0 0 0 0 0 0 0 0 0 0.

(** The functions get the room in [out]; they give the structure and the bytes that
    were stored.  [block->compressed_size] is [lzma2_bound] of the size. *)
Definition block_encode_uncompressed (block : lzma_block) (input : bytes) (avail : Z) : res (lzma_block * bytes) :=
  match lzma_block_header_size (set_block_filters block [lzma2_filter lzma2_min]) with
  | Err _ => Err LZMA_PROG_ERROR
  | Ok b =>
      if avail <? u64 (header_size b + compressed_size b) then Err LZMA_BUF_ERROR
      else
        match lzma_block_header_encode b with
        | Err _ => Err LZMA_PROG_ERROR
        | Ok header =>
            match chunk_loop (S (length input)) 1 input with
            | Some chunks => Ok (set_block_filters b (filters block), header ++ chunks)
            | None => Err LZMA_PROG_ERROR
            end
        end
  end.

(** [lzma_raw_encoder_init], one call of the coder with [LZMA_FINISH] and
    [lzma_next_end]: the return code and the bytes that were stored. *)
Class RawEncoder := raw_encode : list lzma_filter -> bytes -> nat -> lzma_ret * bytes.

Section Encoder.
Context {E : RawEncoder}.

Definition block_encode_normal (block : lzma_block) (input : bytes) (avail : Z) : res (lzma_block * bytes) :=
  let? b := lzma_block_header_size block in
  if avail <=? header_size b then Err LZMA_BUF_ERROR
  else
    let '(ret, out) := raw_encode (filters b) input (Z.to_nat (Z.min (avail - header_size b) (compressed_size b))) in
    match ret with
    | LZMA_STREAM_END =>
        let b := set_compressed_size b (zlen out) in
        match lzma_block_header_encode b with
        | Ok header => Ok (b, header ++ out)
        | Err _ => Err LZMA_PROG_ERROR
        end
    | LZMA_OK => Err LZMA_BUF_ERROR
    | ret => Err ret
    end.

(** The loop for Block Padding. *)
Fixpoint padding_bytes (n : nat) (i : Z) : bytes :=
  match n with
  | O => []
  | S n => if Z.land i 3 =? 0 then [] else 0 :: padding_bytes n (i + 1)
  end.

(** [check]: the memory of the structure; the pointers are valid.  The structure, its
    [raw_check], and the bytes that were stored. *)
Definition block_buffer_encode (memory : lzma_check_state) (block : lzma_block) (input : bytes) (avail : Z) (try_to_compress : bool) :
    res (lzma_block * bytes * bytes) :=
  if block_version block >? 1 then Err LZMA_OPTIONS_ERROR
  else if block_check block >? LZMA_CHECK_ID_MAX then Err LZMA_PROG_ERROR
  else if negb (lzma_check_is_supported (block_check block)) then Err LZMA_UNSUPPORTED_CHECK
  else
    let avail := avail - Z.land avail 3 in
    let check_size := lzma_check_size (block_check block) in
    if avail <=? check_size then Err LZMA_BUF_ERROR
    else
      let avail := avail - check_size in
      let block := set_block_sizes block (lzma2_bound (zlen input)) (zlen input) in
      if compressed_size block =? 0 then Err LZMA_DATA_ERROR
      else
        let? (block, out) :=
          match if try_to_compress then block_encode_normal block input avail else Err LZMA_BUF_ERROR with
          | Ok r => Ok r
          | Err LZMA_BUF_ERROR => block_encode_uncompressed block input avail
          | Err ret => Err ret
          end in
        let out := out ++ padding_bytes 3 (compressed_size block) in
        if check_size >? 0 then
          let check := lzma_check_init memory (block_check block) in
          let check := lzma_check_update check (block_check block) input in
          let check := lzma_check_finish check (block_check block) in
          let raw := slice 0 check_size (chk_buffer check) in
          Ok (block, raw, out ++ raw)
        else Ok (block, [], out).

Definition lzma_block_buffer_encode (memory : lzma_check_state) (block : lzma_block) (input : bytes) (avail : Z) :=
  block_buffer_encode memory block input avail true.

Definition lzma_block_uncomp_encode (memory : lzma_check_state) (block : lzma_block) (input : bytes) (avail : Z) :=
  block_buffer_encode memory block input avail false.

(** ** The Index of one Stream *)

Definition index_file_size (compressed_base unpadded_sum record_count index_list_size stream_padding : Z) : Z :=
  let file_size := u64 (compressed_base + 2 * LZMA_STREAM_HEADER_SIZE + stream_padding + vli_ceil4 unpadded_sum) in
  if file_size >? LZMA_VLI_MAX then LZMA_VLI_UNKNOWN
  else
    let file_size := u64 (file_size + index_size record_count index_list_size) in
    if file_size >? LZMA_VLI_MAX then LZMA_VLI_UNKNOWN else file_size.

(** The Records are those of the only Stream; the allocations succeed. *)
Definition lzma_index_append (index : list (Z * Z)) (unpadded_size uncompressed_size : Z) : res (list (Z * Z)) :=
  if (unpadded_size <? UNPADDED_SIZE_MIN) || (unpadded_size >? UNPADDED_SIZE_MAX) || (uncompressed_size >? LZMA_VLI_MAX) then Err LZMA_PROG_ERROR
  else
    let compressed_base := total_blocks index in
    let uncompressed_base := total_uncompressed index in
    let index_list_size_add := lzma_vli_size unpadded_size + lzma_vli_size uncompressed_size in
    if u64 (uncompressed_base + uncompressed_size) >? LZMA_VLI_MAX then Err LZMA_DATA_ERROR
    else if u64 (compressed_base + unpadded_size) >? UNPADDED_SIZE_MAX then Err LZMA_DATA_ERROR
    else if index_file_size 0 (u64 (compressed_base + unpadded_size)) (zlen index + 1) (records_list_size index + index_list_size_add) 0 =? LZMA_VLI_UNKNOWN
    then Err LZMA_DATA_ERROR
    else if index_size (zlen index + 1) (records_list_size index + index_list_size_add) >? LZMA_BACKWARD_SIZE_MAX then Err LZMA_DATA_ERROR
    else Ok (index ++ [(unpadded_size, uncompressed_size)]).

(** ** Streams *)

Definition lzma_stream_buffer_encode (memory : lzma_check_state) (filters : list lzma_filter) (check : Z) (input : bytes) (out_size : Z) : res bytes :=
  if check >? LZMA_CHECK_ID_MAX then Err LZMA_PROG_ERROR
  else if negb (lzma_check_is_supported check) then Err LZMA_UNSUPPORTED_CHECK
  else if out_size <=? 2 * LZMA_STREAM_HEADER_SIZE then Err LZMA_BUF_ERROR
  else
    let out_size := out_size - LZMA_STREAM_HEADER_SIZE in
    match lzma_stream_header_encode {| version := 0; backward_size := 0; check := check |} with
    | Err _ => Err LZMA_PROG_ERROR
    | Ok header =>
        let block := Build_lzma_block 0 0 check 0 0 filters false in
        let? (index, blocks) :=
          if zlen input >? 0 then
            let? (block, _, out) := lzma_block_buffer_encode memory block input (out_size - zlen header) in
            let? index := lzma_index_append [] (lzma_block_unpadded_size block) (uncompressed_size block) in
            Ok (index, out)
          else Ok ([], []) in
        let? index_out := lzma_index_buffer_encode index (Z.to_nat (out_size - zlen header - zlen blocks)) in
        let backward_size := index_size (zlen index) (records_list_size index) in
        match lzma_stream_footer_encode {| version := 0; backward_size := backward_size; check := check |} with
        | Err _ => Err LZMA_PROG_ERROR
        | Ok footer => Ok (header ++ blocks ++ index_out ++ footer)
        end
    end.
End Encoder.

Lemma words_bytes l : bytes_ok (flat_map write32be l).
Proof. induction l as [|x l IH]; [constructor|]. cbn [flat_map]. apply Forall_app_2; [repeat constructor; apply u8_range|exact IH]. Qed.

Lemma check_ref_bytes type data : bytes_ok (check_ref type data).
Proof.
  unfold check_ref. repeat case_if; [apply write32le_bytes|unfold write64le; apply Forall_app_2; apply write32le_bytes|apply words_bytes|constructor].
Qed.

#[local] Opaque lzma_crc32 lzma_vli_size vli_bytes lzma_check_update lzma_check_finish lzma_check_init check_ref.

(** ** The chunks and their size *)

Section Chunks.

Definition chunk_count (n : Z) : Z := (n + 65535) / 65536.

Lemma stored_chunks_length first cs : zlen (stored_chunks first cs) = zlen (concat cs) + 3 * zlen cs + 1.
Proof.
  revert first. induction cs as [|x cs IH]; intros first; [reflexivity|]. cbn [stored_chunks concat]. unfold stored_chunk. cbn [app length].
  rewrite !length_app. specialize (IH false). lia.
Qed.

Lemma stored_chunks_bytes first cs : Forall bytes_ok cs -> bytes_ok (stored_chunks first cs).
Proof.
  intros H. revert first. induction H as [|x cs Hx _ IH]; intros first; cbn [stored_chunks]; [bytes_ok_tac|].
  unfold stored_chunk. cbn [app]. repeat constructor; try (apply u8_range); try (destruct first; unfold is_byte; lia). now apply Forall_app_2.
Qed.

(** The chunks of [input]; [first] tells which control byte the first one has. *)
Lemma chunk_loop_ok fuel : forall (first : bool) input, (length input < fuel)%nat ->
  exists cs, chunk_loop fuel (if first then 1 else 2) input = Some (stored_chunks first cs) /\ concat cs = input /\ Forall chunk_ok cs /\
    zlen cs = chunk_count (zlen input).
Proof.
  induction fuel as [|fuel IH]; intros first input Hf; [lia|]. cbn [chunk_loop]. destruct input as [|b i]; [exists []; now split_and!|].
  set (input := b :: i) in *. change LZMA2_CHUNK_MAX with 65536. set (n := Z.min (zlen input) 65536). assert (1 <= zlen input) as Hl by (cbn; lia).
  assert (zlen (slice 0 n input) = n) as Hn by (apply length_slice; lia).
  assert (zlen (from n input) = zlen input - n) as Hr by (unfold from; rewrite length_drop; lia).
  destruct (IH false (from n input)) as (cs & E & Hcs & Hok & Hlen); [lia|]. rewrite E. cbn [mbind option_bind].
  exists (slice 0 n input :: cs). cbn [stored_chunks concat]. unfold stored_chunk. rewrite Hn, Hcs. split_and!; [reflexivity| | |].
  - unfold slice, from. rewrite drop_0. apply take_drop.
  - constructor; [unfold chunk_ok; lia|exact Hok].
  - cbn [length]. rewrite Nat2Z.inj_succ, Hlen, Hr. unfold chunk_count, n. destruct (Z.min_spec (zlen input) 65536) as [[? ->]|[? ->]]; dlia.
Qed.

Lemma bound_spec n : 0 <= n -> lzma2_bound n <> 0 ->
  lzma2_bound n = n + 3 * chunk_count n + 1 /\ 0 < lzma2_bound n <= COMPRESSED_SIZE_MAX.
Proof.
  intros Hn. unfold lzma2_bound, chunk_count. change LZMA2_CHUNK_MAX with 65536. change LZMA2_HEADER_UNCOMPRESSED with 3.
  change COMPRESSED_SIZE_MAX with 9223372036854774716. destruct (Z.gtb_spec n 9223372036854774716); [congruence|].
  rewrite (u64_small (n + 65536 - 1)) by (unfold is_u64; lia). replace (n + 65536 - 1) with (n + 65535) by lia.
  rewrite (u64_small (_ + 1)) by (unfold is_u64; dlia). rewrite (u64_small (9223372036854774716 - _)) by (unfold is_u64; dlia).
  destruct (Z.ltb_spec (9223372036854774716 - ((n + 65535) / 65536 * 3 + 1)) n); [congruence|]. rewrite u64_small by (unfold is_u64; dlia). intros _. dlia.
Qed.

Lemma padding_bytes_loop n : forall i, (length (block_padding i) <= n)%nat -> padding_bytes n i = block_padding i.
Proof.
  induction n as [|n IH]; intros i Hl; cbn [padding_bytes]; [destruct (block_padding i); [reflexivity|cbn in Hl; lia]|].
  destruct (Z.eqb_spec (Z.land i 3) 0) as [E|E]; [now rewrite padding_done|]. rewrite padding_more in * by exact E. f_equal. apply IH. cbn in Hl. lia.
Qed.

Lemma padding_bytes_spec i : padding_bytes 3 i = block_padding i.
Proof. apply padding_bytes_loop. unfold block_padding. rewrite length_replicate. dlia. Qed.
End Chunks.

(** ** The Block Header *)

Section Header.

Lemma header_encode_version b : block_version b <= 1 -> lzma_block_header_encode (set_block_version b 1) = lzma_block_header_encode b.
Proof.
  intros Hv. unfold lzma_block_header_encode, lzma_block_unpadded_size. cbn [block_version set_block_version header_size block_check compressed_size uncompressed_size filters].
  now bfalse (block_version b >? 1).
Qed.

Lemma block_eta b b0 : b0 = set_header_size b (header_size b0) ->
  b0 = Build_lzma_block (block_version b) (header_size b0) (block_check b) (compressed_size b) (uncompressed_size b) (filters b) (ignore_check b).
Proof. exact id. Qed.

Definition block_args (b : lzma_block) : Prop :=
  0 <= block_version b <= 1 /\ 0 <= block_check b <= LZMA_CHECK_ID_MAX /\ 1 <= zlen (filters b) <= 4 /\ Forall filter_ok (filters b) /\
  0 < compressed_size b <= COMPRESSED_SIZE_MAX /\ 0 <= uncompressed_size b <= LZMA_VLI_MAX.

(** The header that was reserved for [compressed_size b] has room for a smaller size. *)
Lemma header_written m b b0 c : block_args b -> lzma_block_header_size b = Ok b0 -> 0 < c <= compressed_size b ->
  let b1 := set_compressed_size b0 c in
  b0 = set_header_size b (header_size b0) /\ (8 <= header_size b0 <= 1024 /\ header_size b0 mod 4 = 0) /\ exists header fs', lzma_block_header_encode b1 = Ok header /\
    zlen header = header_size b0 /\ bytes_ok header /\ Forall2 (filter_stored m) (filters b) fs' /\
    (exists x rest, header = x :: rest /\ is_byte x /\ x <> INDEX_INDICATOR /\ lzma_block_header_size_decode x = header_size b0) /\
    forall o rest, block_version o = 1 -> header_size o = header_size b0 -> block_check o = block_check b ->
      lzma_block_header_decode (Some m) o (header ++ rest) = Ok (Build_lzma_block 1 (header_size b0) (block_check b) c (uncompressed_size b) fs' false).
Proof.
  intros (Hv & Hk & Hn & Hfs & Hc & Hu) Hs Hcc b1. destruct (filters_roundtrip m (filters b) Hfs 0 ltac:(unfold LZMA_FILTERS_MAX; lia)) as (n & Hn1 & Hsz & _).
  change COMPRESSED_SIZE_MAX with 9223372036854774716 in Hc. change LZMA_VLI_MAX with 9223372036854775807 in Hu.
  assert (forall v, 0 <= v <= 9223372036854775807 -> lzma_vli_is_valid v = true /\ optional_size v = lzma_vli_size v /\ 0 <= optional_size v <= 9) as Hvli.
  { intros v Hv1. pose proof (vli_valid_small v ltac:(unfold LZMA_VLI_MAX; lia)) as Hva. split; [exact Hva|]. split; [|apply optional_size_range; [lia|exact Hva]].
    unfold optional_size. now rewrite (proj2 (Z.eqb_neq _ _)) by (unfold LZMA_VLI_UNKNOWN, UINT64_MAX; lia). }
  destruct (Hvli (compressed_size b) ltac:(lia)) as (V1 & O1 & R1). destruct (Hvli (uncompressed_size b) ltac:(lia)) as (V2 & O2 & R2). destruct (Hvli c ltac:(lia)) as (V3 & O3 & R3).
  assert (filters b <> []) as Hne by (intros E; rewrite E in Hn; cbn in Hn; lia).
  pose proof (vli_size_mono c (compressed_size b) ltac:(lia) ltac:(unfold LZMA_VLI_MAX; lia)) as Hmono.
  rewrite (block_header_size_spec b n) in Hs by (auto; try lia; intros; apply Hsz; lia). rewrite O1 in Hs. injection Hs as Hs.
  set (total := 6 + lzma_vli_size (compressed_size b) + optional_size (uncompressed_size b) + n) in *.
  assert (8 <= header_size b0 <= 1024 /\ header_size b0 mod 4 = 0) as Hh by (rewrite <- Hs; cbn [header_size set_header_size]; unfold total; dlia).
  split; [now rewrite <- Hs|]. split; [exact Hh|].
  assert (total = 6 + lzma_vli_size (compressed_size b) + optional_size (uncompressed_size b) + n) as Htotal by reflexivity. clearbody total.
  set (b1v := set_block_version b1 1).
  assert (header_size b1v = header_size b0 /\ block_check b1v = block_check b /\ compressed_size b1v = c /\ uncompressed_size b1v = uncompressed_size b /\ filters b1v = filters b /\ block_version b1v = 1)
    as (E1 & E2 & E3 & E4 & E5 & E6) by (unfold b1v, b1; rewrite <- Hs; now split_and!).
  assert (lzma_block_header_encode b1v = lzma_block_header_encode b1) as Eenc by (apply header_encode_version; unfold b1; rewrite <- Hs; cbn; lia).
  pose proof (lzma_check_size_range _ Hk) as Hcs. clearbody b1v.
  destruct (header_roundtrip m b1v (set_header_size b1v (6 + optional_size c + optional_size (uncompressed_size b) + n + 3 - (6 + optional_size c + optional_size (uncompressed_size b) + n + 3) mod 4)))
    as (header & fs' & H1 & H2 & H3 & H4 & H5); rewrite ?E1, ?E2, ?E3, ?E4, ?E5, ?E6; auto; try (unfold LZMA_FILTERS_MAX; lia).
  - destruct (unpadded_size_spec b1v) as [[_ Hnz] _]; [lia|lia|]. apply Hnz. unfold block_sizes_ok. rewrite E1, E2, E3, E6. split_and!; auto; try lia.
    intros _. rewrite u64_small by (unfold is_u64; lia). change UNPADDED_SIZE_MAX with 9223372036854775804. lia.
  - rewrite (block_header_size_spec b1v n); rewrite ?E3, ?E4, ?E5, ?E6; auto; try lia. intros; apply Hsz; lia.
  - cbn [header_size set_header_size]. rewrite <- Hs. cbn [header_size set_header_size]. dlia.
  - rewrite <- Eenc. exists header, fs'. rewrite E1, E2 in *. rewrite E3, E4, E6 in H5. split_and!; auto; [now rewrite <- E5| ].
    pose proof (H5 b1v [] E6 E1 E2) as Hd. unfold lzma_block_header_decode in Hd. destruct (negb (_ =? header_size b1v) || _) eqn:Et in Hd; [discriminate|].
    destruct header as [|x l]; [cbn in H2; lia|]. change (byte_at ((x :: l) ++ []) 0) with x in Et. b2p. exists x, l. pose proof H3 as Hx. apply Forall_cons in Hx as [Hx _].
    rewrite E1 in *. split_and!; auto. unfold INDEX_INDICATOR, lzma_block_header_size_decode in *. lia.
Qed.
End Header.

(** ** The Index accepts the Records that the Index hash accepts *)

Lemma index_append_spec index r : Forall record_ok index -> index_limits index -> is_u64 r.1 -> is_u64 r.2 ->
  lzma_index_append index r.1 r.2 =
    if decide (record_ok r) then if decide (index_limits (index ++ [r])) then Ok (index ++ [r]) else Err LZMA_DATA_ERROR else Err LZMA_PROG_ERROR.
Proof.
  intros Hok Hlim Hr1 Hr2. unfold is_u64 in *. unfold lzma_index_append. destruct (decide (record_ok r)) as [Hr|Hr].
  2: { match goal with |- (if ?t then _ else _) = _ => destruct t eqn:E end; [reflexivity|]. b2p. exfalso. apply Hr. split; lia. }
  pose proof Hr as [Hr1' Hr2']. bfalse (r.1 <? UNPADDED_SIZE_MIN). bfalse (r.1 >? UNPADDED_SIZE_MAX). bfalse (r.2 >? LZMA_VLI_MAX). cbn [orb].
  pose proof (index_limits_bounds index Hok Hlim) as [Bn Bl]. pose proof (totals_nonneg index Hok) as (N1 & N2 & N3).
  destruct (totals_snoc index r) as (T1 & T2 & T3 & T4). pose proof (record_ok_sizes r Hr). pose proof (record_ok_ceil r Hr).
  destruct Hlim as (L1 & L2 & L3 & L4). unfold LZMA_VLI_MAX in *. change UNPADDED_SIZE_MAX with 9223372036854775804 in *.
  assert (total_blocks index mod 4 = 0) as Hmod.
  { clear -Hok. unfold total_blocks. induction index as [|x l IH] using rev_ind; [reflexivity|]. apply Forall_app in Hok as [Hok Hx]. apply Forall_cons in Hx as [[Hx _] _].
    rewrite fold_add_app. cbn [fold_left]. specialize (IH Hok). unfold UNPADDED_SIZE_MIN in Hx. rewrite (vli_ceil4_spec x.1) by lia. dlia. }
  set (field := index_field_size (index ++ [r])).
  assert (0 <= field <= 17179869300) as F.
  { unfold field, index_field_size. pose proof (vli_size_range_any (zlen (index ++ [r])) ltac:(lia)). dlia. }
  rewrite <- T3, <- T4. rewrite !index_size_spec by lia. unfold index_file_size. rewrite !index_size_spec by lia. fold (index_field_size (index ++ [r])). fold field.
  unfold index_limits. fold field. rewrite T1, T2. unfold LZMA_STREAM_HEADER_SIZE, LZMA_VLI_MAX, LZMA_VLI_UNKNOWN, UINT64_MAX in *.
  rewrite (u64_small (total_uncompressed index + r.2)) by (unfold is_u64; lia). rewrite (u64_small (total_blocks index + r.1)) by (unfold is_u64; lia).
  destruct (Z.gtb_spec (total_uncompressed index + r.2) 9223372036854775807); [rewrite decide_False by lia; reflexivity|].
  destruct (Z.gtb_spec (total_blocks index + r.1) 9223372036854775804); [rewrite decide_False by lia; reflexivity|].
  assert (vli_ceil4 (total_blocks index + r.1) = total_blocks index + vli_ceil4 r.1) as ->.
  { rewrite !vli_ceil4_spec by (change UNPADDED_SIZE_MAX with 9223372036854775804; unfold UNPADDED_SIZE_MIN in *; lia). dlia. }
  rewrite (u64_small (0 + _ + 0 + _)) by (unfold is_u64; lia).
  destruct (Z.gtb_spec (0 + 2 * 12 + 0 + (total_blocks index + vli_ceil4 r.1)) 9223372036854775807); [rewrite Z.eqb_refl, decide_False by lia; reflexivity|].
  rewrite u64_small by (unfold is_u64; lia).
  match goal with |- context [if ?a >? 9223372036854775807 then _ else _] => destruct (Z.gtb_spec a 9223372036854775807) end; [rewrite Z.eqb_refl, decide_False by lia; reflexivity|].
  rewrite (proj2 (Z.eqb_neq _ _)) by lia. destruct (Z.gtb_spec field LZMA_BACKWARD_SIZE_MAX); [rewrite decide_False by lia; reflexivity|].
  rewrite decide_True by lia. now destruct r.
Qed.

(** ** What was encoded can be decoded *)

Section Encode.
Context {U : Type} {C : Coder U} {R : RawDecoder U} {M : StreamMemory} {D : Decodes U} {E : RawEncoder} (m : lzma_options_lzma) (limit : Z).

(** The chain of the filters [fs], when the header has been decoded, gives [data]
    for [payload] and needs no more memory than [limit]. *)
Definition decodable (fs : list lzma_filter) (payload data : bytes) : Prop :=
  forall fs', Forall2 (filter_stored m) fs fs' ->
    (exists n, raw_decoder_init fs' = Ok n /\ expects n payload data) /\ raw_decoder_memusage fs' <= limit /\ raw_decoder_memusage fs' <> UINT64_MAX.

(** The decoders understand stored chunks, and what the encoders give. *)
Class RawCodec := {
  codec_stored cs : Forall chunk_ok cs -> Forall bytes_ok cs -> decodable [lzma2_filter lzma2_min] (stored_chunks true cs) (concat cs);
  codec_encoded fs data n out : Forall filter_ok fs -> 1 <= zlen fs <= 4 -> bytes_ok data -> raw_encode fs data n = (LZMA_STREAM_END, out) ->
    bytes_ok out /\ (0 < length out <= n)%nat /\ decodable fs out data;
}.

(** [b] is the structure of the Block with the header and payload in [out]. *)
Record block_written (blk b : lzma_block) (input out : bytes) (avail : Z) (header payload : bytes) (fs' : list lzma_filter) : Prop := {
  written_out : out = header ++ payload /\ bytes_ok out /\ zlen out <= avail;
  written_block : b = Build_lzma_block (block_version blk) (zlen header) (block_check blk) (zlen payload) (zlen input) (filters b) (ignore_check b);
  written_header : 8 <= zlen header <= 1024 /\ zlen header mod 4 = 0;
  written_payload : 0 < zlen payload <= COMPRESSED_SIZE_MAX;
  written_first : exists x rest, header = x :: rest /\ is_byte x /\ x <> INDEX_INDICATOR /\ lzma_block_header_size_decode x = zlen header;
  written_decodes o rest : block_version o = 1 -> header_size o = zlen header -> block_check o = block_check blk ->
    lzma_block_header_decode (Some m) o (header ++ rest) = Ok (Build_lzma_block 1 (zlen header) (block_check blk) (zlen payload) (zlen input) fs' false);
  written_chain : (exists n, raw_decoder_init fs' = Ok n /\ expects n payload input) /\ raw_decoder_memusage fs' <= limit /\ raw_decoder_memusage fs' <> UINT64_MAX;
}.

(** The sizes were set by [block_buffer_encode]. *)
Definition block_started (b : lzma_block) (input : bytes) : Prop :=
  0 <= block_version b <= 1 /\ 0 <= block_check b <= LZMA_CHECK_ID_MAX /\ compressed_size b = lzma2_bound (zlen input) /\ lzma2_bound (zlen input) <> 0 /\
  uncompressed_size b = zlen input /\ bytes_ok input.

Lemma uncompressed_ok {K : RawCodec} blk input avail b out : block_started blk input -> block_encode_uncompressed blk input avail = Ok (b, out) ->
  exists header payload fs', block_written blk b input out avail header payload fs'.
Proof using Type.
  intros (Hv & Hk & Hc & Hb0 & Hu & Hbi). destruct (bound_spec (zlen input) ltac:(lia) Hb0) as [Hbound Hmax]. unfold block_encode_uncompressed.
  set (blk1 := set_block_filters blk [lzma2_filter lzma2_min]). destruct (lzma_block_header_size blk1) as [b0|] eqn:Eh; [|discriminate].
  assert (block_args blk1) as Hargs.
  { unfold block_args. cbn [blk1 set_block_filters block_version block_check filters compressed_size uncompressed_size length]. rewrite Hc, Hu.
    change COMPRESSED_SIZE_MAX with 9223372036854774716 in *. split_and!; auto; try lia.
    - repeat constructor; cbn; unfold LZMA_DICT_SIZE_MIN; lia.
    - unfold chunk_count, LZMA_VLI_MAX in *. dlia. }
  destruct (header_written m blk1 b0 (compressed_size blk1) Hargs Eh) as (Hb & Hh & header & fs' & He & Hl & Hbh & Hst & Hf & Hd); [cbn [blk1 set_block_filters compressed_size]; lia|].
  assert (set_compressed_size b0 (compressed_size blk1) = b0) as Esame by (rewrite Hb; reflexivity). rewrite Esame in He. rewrite He.
  destruct (Z.ltb_spec avail (u64 (header_size b0 + compressed_size b0))); [discriminate|].
  destruct (chunk_loop_ok (S (length input)) true input ltac:(lia)) as (cs & Ecs & Hcat & Hok & Hn). rewrite Ecs. intros [= <- <-].
  pose proof (stored_chunks_length true cs) as Hlen. rewrite Hcat, Hn in Hlen.
  assert (zlen (stored_chunks true cs) = lzma2_bound (zlen input)) as Elen by lia.
  assert (Forall bytes_ok cs) as Hbcs by (subst input; clear -Hbi; induction cs as [|x cs IH]; constructor; cbn [concat] in Hbi; apply Forall_app in Hbi as [? ?]; auto).
  assert (compressed_size b0 = lzma2_bound (zlen input)) as Ecb by (rewrite Hb; exact Hc).
  change COMPRESSED_SIZE_MAX with 9223372036854774716 in *.
  exists header, (stored_chunks true cs), fs'. constructor; rewrite ?Elen, ?Hl; auto.
  - split; [reflexivity|]. split; [apply Forall_app_2; auto using stored_chunks_bytes|]. rewrite length_app, Nat2Z.inj_add, Hl, Elen. rewrite u64_small in * by (unfold is_u64; lia). lia.
  - pose proof (block_eta _ _ Hb) as Hb'. unfold set_block_filters, set_compressed_size. destruct b0. cbn in *. congruence.
  - intros o rest E1 E2 E3. rewrite Hd by assumption. cbn [blk1 set_block_filters compressed_size uncompressed_size block_check]. now rewrite Hc, Hu.
  - rewrite <- Hcat. apply (codec_stored cs Hok Hbcs). exact Hst.
Qed.

Lemma normal_ok {K : RawCodec} blk input avail b out : block_started blk input -> Forall filter_ok (filters blk) -> 1 <= zlen (filters blk) <= 4 ->
  block_encode_normal blk input avail = Ok (b, out) -> exists header payload fs', block_written blk b input out avail header payload fs'.
Proof using Type.
  intros (Hv & Hk & Hc & Hb0 & Hu & Hbi) Hfs Hnf. destruct (bound_spec (zlen input) ltac:(lia) Hb0) as [Hbound Hmax]. unfold block_encode_normal.
  destruct (lzma_block_header_size blk) as [b0|] eqn:Eh; cbn [res_bind]; [|discriminate].
  assert (block_args blk) as Hargs.
  { unfold block_args. rewrite Hc, Hu. change COMPRESSED_SIZE_MAX with 9223372036854774716 in *. split_and!; auto; try lia. unfold chunk_count, LZMA_VLI_MAX in *. dlia. }
  destruct (header_written m blk b0 (compressed_size blk) Hargs Eh) as (Hb & Hh & _); [lia|].
  assert (filters b0 = filters blk /\ compressed_size b0 = compressed_size blk) as [Ef Ec] by (rewrite Hb; split; reflexivity). rewrite Ef, Ec, Hc.
  destruct (Z.leb_spec avail (header_size b0)); [discriminate|]. set (n := Z.to_nat _). destruct (raw_encode _ _ n) as [ret payload] eqn:Er.
  destruct ret; try discriminate. destruct (codec_encoded _ _ _ _ Hfs Hnf Hbi Er) as (Hbp & Hlp & Hdec).
  destruct (header_written m blk b0 (zlen payload) Hargs Eh) as (_ & _ & header & fs' & He & Hl & Hbh & Hst & Hf & Hd); [lia|]. rewrite He. intros [= <- <-].
  exists header, payload, fs'. constructor; rewrite ?Hl; auto.
  - split; [reflexivity|]. split; [now apply Forall_app_2|]. rewrite length_app. lia.
  - pose proof (block_eta _ _ Hb) as Hb'. unfold set_block_filters, set_compressed_size. destruct b0. cbn in *. congruence.
  - lia.
  - intros o rest E1 E2 E3. rewrite Hd by assumption. now rewrite Hu.
Qed.
(** A Block whose sizes are in its header. *)
Lemma block_valid_written k size payload field data fs ignore : 0 <= k <= LZMA_CHECK_ID_MAX -> 8 <= size <= 1024 -> size mod 4 = 0 ->
  0 < zlen payload <= 9223372036854774716 -> zlen data <= LZMA_VLI_MAX -> bytes_ok data -> field = check_ref k data -> zlen field = lzma_check_size k ->
  block_valid (set_block_ignore_check (Build_lzma_block 1 size k (zlen payload) (zlen data) fs false) ignore) payload field data.
Proof using Type.
  intros Hk Hs Hm Hp Hd Hb Hf Hl. pose proof (lzma_check_size_range k Hk). constructor; cbn [set_block_ignore_check block_version header_size block_check compressed_size uncompressed_size].
  - lia.
  - now split.
  - exact Hk.
  - now right.
  - change UNPADDED_SIZE_MAX with 9223372036854775804. lia.
  - now right.
  - now split.
  - now split.
Qed.

(** The Block for the Stream format. *)
Lemma block_buffer_ok {K : RawCodec} memory blk input avail try b raw out : length (chk_buffer memory) = 64%nat ->
  0 <= block_version blk -> 0 <= block_check blk -> bytes_ok input -> Forall filter_ok (filters blk) -> 1 <= zlen (filters blk) <= 4 ->
  options_memory = Some m -> block_buffer_encode memory blk input avail try = Ok (b, raw, out) ->
  exists sb, out = sb_header sb ++ block_bytes (sb_payload sb) (sb_field sb) /\ bytes_ok out /\ zlen out <= avail /\ sb_data sb = input /\
    raw = sb_field sb /\ (forall ignore, block_fits (block_check blk) ignore limit sb) /\
    sb_record sb = (lzma_block_unpadded_size b, uncompressed_size b) /\ record_ok (sb_record sb).
Proof using Type.
  intros Hmem Hv Hk Hbi Hfs Hnf Hopt. unfold block_buffer_encode. destruct (Z.gtb_spec (block_version blk) 1); [discriminate|].
  destruct (Z.gtb_spec (block_check blk) LZMA_CHECK_ID_MAX); [discriminate|]. destruct (lzma_check_is_supported (block_check blk)) eqn:Esup; [|discriminate]. cbn [negb].
  pose proof (lzma_check_size_range (block_check blk) ltac:(lia)) as Hcs.
  cbv zeta. set (room := avail - Z.land avail 3). set (size := lzma_check_size (block_check blk)) in *. destruct (Z.leb_spec room size); [discriminate|].
  set (blk1 := set_block_sizes blk _ _). destruct (Z.eqb_spec (compressed_size blk1) 0) as [|Hb0]; [discriminate|].
  assert (block_started blk1 input) as Hst by (split_and!; auto; cbn; lia).
  match goal with |- res_bind ?x _ = _ -> _ => destruct x as [[b1 out1]|] eqn:Ew end; cbn [res_bind]; [|discriminate].
  assert (exists header payload fs', block_written blk1 b1 input out1 (room - size) header payload fs') as (header & payload & fs' & [(Ho & Hbo & Hlo) Hb1 [Hh Hhm] Hp Hf Hd (Hn & Hlim & Hmax)]).
  { destruct try; [|now apply uncompressed_ok]. destruct (block_encode_normal blk1 input (room - size)) as [[b2 out2]|ret] eqn:En.
    - injection Ew as <- <-. now apply (normal_ok blk1).
    - destruct ret; try discriminate. now apply uncompressed_ok. }
  clear Ew. cbn [blk1 set_block_sizes block_version block_check] in *. set (type := block_check blk) in *.
  assert (block_check b1 = type /\ block_version b1 = block_version blk /\ header_size b1 = zlen header /\ compressed_size b1 = zlen payload /\ uncompressed_size b1 = zlen input)
    as (B1 & B2 & B3 & B4 & B5) by (rewrite Hb1; now split_and!). rewrite B1, B4, padding_bytes_spec. clear Hb1.
  destruct (check_field_ref memory type [input] Hk Esup Hmem ltac:(now constructor)) as [Eref Elen]. unfold check_field in Eref, Elen. cbn [fold_left concat] in Eref, Elen.
  rewrite app_nil_r in Eref. set (ref := slice 0 _ _) in *. fold size in Elen.
  intros Hres. assert (b = b1 /\ raw = ref /\ out = (out1 ++ block_padding (zlen payload)) ++ ref) as (-> & -> & ->).
  { destruct (Z.gtb_spec size 0); injection Hres as <- <- <-; [now split_and!|]. assert (ref = []) as -> by (destruct ref; [reflexivity|cbn in Elen; lia]). now rewrite app_nil_r. }
  clear Hres. pose proof (padding_aligned (zlen payload) ltac:(lia)) as [Hpad Hpad3].
  exists (Build_stream_block header (Build_lzma_block 1 (zlen header) type (zlen payload) (zlen input) fs' false) payload ref input). cbn [sb_header sb_payload sb_field sb_data].
  change COMPRESSED_SIZE_MAX with 9223372036854774716 in *.
  assert (lzma_check_size type mod 4 = 0) as Hsm.
  { apply Z.eqb_eq. apply (check_sweep (fun t => lzma_check_size t mod 4 =? 0)); [reflexivity|lia]. }
  fold size in Hsm. assert (room mod 4 = 0 /\ room <= avail) as [Hrm Hra].
  { unfold room. change 3 with (2 ^ 2 - 1). rewrite land_low by lia. change (2 ^ 2) with 4. dlia. }
  set (final := Build_lzma_block 1 (zlen header) type (zlen payload) (zlen input) fs' false).
  assert (lzma_block_unpadded_size b1 = lzma_block_unpadded_size final) as Eun.
  { unfold lzma_block_unpadded_size. rewrite B1, B2, B3, B4. cbn [final block_version header_size compressed_size block_check]. now bfalse (block_version blk >? 1). }
  assert (lzma_block_unpadded_size final = zlen payload + zlen header + size) as Eunf.
  { destruct (unpadded_size_spec final) as [_ Hu]; [cbn; lia|cbn; lia|]. rewrite Hu.
    - cbn [final compressed_size header_size block_check]. rewrite (proj2 (Z.eqb_neq _ _)) by (unfold LZMA_VLI_UNKNOWN, UINT64_MAX; lia). reflexivity.
    - unfold block_sizes_ok. cbn [final block_version header_size compressed_size block_check]. split_and!; try lia; [apply vli_valid_small; unfold LZMA_VLI_MAX; lia|].
      intros _. fold size. rewrite u64_small by (unfold is_u64; lia). change UNPADDED_SIZE_MAX with 9223372036854775804. lia. }
  destruct Hst as (_ & _ & Hcb & Hbz & _). destruct (bound_spec (zlen input) ltac:(lia) Hbz) as [Hbd Hbm]. change COMPRESSED_SIZE_MAX with 9223372036854774716 in Hbm.
  assert (zlen input <= LZMA_VLI_MAX) as Hin by (unfold LZMA_VLI_MAX, chunk_count in *; dlia).
  split_and!; auto.
  - unfold block_bytes. rewrite Ho, <- !app_assoc. reflexivity.
  - apply Forall_app_2; [apply Forall_app_2; [exact Hbo|]|rewrite Eref; apply check_ref_bytes]. unfold block_padding. apply Forall_replicate. unfold is_byte. lia.
  - rewrite Ho in *. rewrite !length_app in *. clear -Hlo Hhm Hpad Hpad3 Hsm Hrm Hra Elen. rewrite !Nat2Z.inj_add in *. dlia.
  - intros ignore. constructor; cbn [sb_header sb_block sb_payload sb_field sb_data header_size block_check block_version filters].
    + exact Hf.
    + reflexivity.
    + intros o rest E1 E2 E3. rewrite Hopt. now apply Hd.
    + reflexivity.
    + reflexivity.
    + split; [exact Hlim|exact Hmax].
    + exact Hn.
    + apply block_valid_written; auto; lia.
  - unfold sb_record, sb_final. cbn [sb_block sb_payload sb_data]. rewrite Eun, B5. reflexivity.
  - unfold sb_record, sb_final. cbn [sb_block sb_payload sb_data]. change (set_block_sizes final (zlen payload) (zlen input)) with final.
    split; cbn [fst snd]; [|lia]. rewrite Eunf. change UNPADDED_SIZE_MAX with 9223372036854775804. unfold UNPADDED_SIZE_MIN. lia.
Qed.

(** The parts of a Stream behind the Blocks. *)
Lemma stream_end_ok k index avail out : 0 <= k <= LZMA_CHECK_ID_MAX -> index_fits index -> lzma_index_buffer_encode index avail = Ok out ->
  out = index_bytes index /\ zlen out <= Z.of_nat avail /\
  lzma_stream_footer_encode {| version := 0; backward_size := index_size (zlen index) (records_list_size index); check := k |} = Ok (stream_footer k index).
Proof using Type.
  intros Hk [Hok Hlim]. rewrite (buffer_encode_spec index avail Hok Hlim). destruct (decide _) as [Hle|]; [|discriminate]. intros [= <-]. split_and!; auto.
  destruct (length_index_bytes index Hok Hlim) as [_ ->]. now apply footer_encodes.
Qed.

Lemma empty_index_fits : index_fits [].
Proof using Type. split; [constructor|apply limits_nil]. Qed.

Lemma stream_buffer_ok {K : RawCodec} memory fs k input out_size out : length (chk_buffer memory) = 64%nat -> 0 <= k -> bytes_ok input ->
  Forall filter_ok fs -> 1 <= zlen fs <= 4 -> options_memory = Some m -> lzma_stream_buffer_encode memory fs k input out_size = Ok out ->
  0 <= k <= LZMA_CHECK_ID_MAX /\ exists bs, out = stream_bytes k bs /\ bytes_ok out /\ zlen out <= out_size /\ blocks_data bs = input /\
    (forall ignore, blocks_fit k ignore limit bs) /\ index_fits (map sb_record bs).
Proof using Type.
  intros Hmem Hk Hbi Hfs Hnf Hopt. unfold lzma_stream_buffer_encode. destruct (Z.gtb_spec k LZMA_CHECK_ID_MAX); [discriminate|].
  assert (0 <= k <= LZMA_CHECK_ID_MAX) as Hkr by lia. destruct (negb _); [discriminate|]. destruct (Z.leb_spec out_size (2 * LZMA_STREAM_HEADER_SIZE)); [discriminate|].
  rewrite header_encode_ok by (exact Hkr || reflexivity). cbn [check]. fold (stream_header k). destruct (header_sizes k []) as [Hhl _]. rewrite Hhl.
  cbv zeta. change LZMA_STREAM_HEADER_SIZE with 12 in *. set (room := out_size - 12) in *.
  assert (forall bs blocks index_avail, bytes_ok blocks -> blocks = blocks_bytes bs -> blocks_data bs = input -> (forall ignore, blocks_fit k ignore limit bs) ->
    index_fits (map sb_record bs) -> index_avail = Z.to_nat (room - Z.of_nat 12 - zlen blocks) -> zlen blocks <= room - Z.of_nat 12 ->
    (let? index_out := lzma_index_buffer_encode (map sb_record bs) index_avail in
     match lzma_stream_footer_encode {| version := 0; backward_size := index_size (zlen (map sb_record bs)) (records_list_size (map sb_record bs)); check := k |} with
     | Ok footer => Ok (stream_header k ++ blocks ++ index_out ++ footer)
     | Err _ => Err LZMA_PROG_ERROR
     end) = Ok out ->
    exists bs, out = stream_bytes k bs /\ bytes_ok out /\ zlen out <= out_size /\ blocks_data bs = input /\
      (forall ignore, blocks_fit k ignore limit bs) /\ index_fits (map sb_record bs)) as Hend.
  { intros bs blocks index_avail Hbb -> Hdata Hfit Hix -> Hroom. destruct (lzma_index_buffer_encode _ _) as [index_out|] eqn:Ei; cbn [res_bind]; [|discriminate].
    destruct (stream_end_ok k _ _ _ Hkr Hix Ei) as (-> & Hle & ->). intros Hres.
    assert (out = stream_bytes k bs) as -> by (injection Hres as <-; reflexivity). clear Hres. exists bs. pose proof Hix as [Hok Hlim].
    destruct (header_sizes k (map sb_record bs)) as [_ Hfl]. split; [reflexivity|]. split; [|split; [|now split_and!]]; unfold stream_bytes, stream_rest; cbv zeta; rewrite !app_nil_l.
    - apply Forall_app_2; [now apply header_bytes|]. apply Forall_app_2; [exact Hbb|]. apply Forall_app_2; [now apply index_bytes_bytes|now apply footer_bytes].
    - rewrite !length_app, !Nat2Z.inj_add, Hhl, Hfl. lia. }
  intros Hres. split; [exact Hkr|]. revert Hres. destruct (Z.gtb_spec (zlen input) 0).
  - unfold lzma_block_buffer_encode. set (blk := Build_lzma_block 0 0 k 0 0 fs false) in *.
    destruct (block_buffer_encode memory blk input (room - Z.of_nat 12) true) as [[[b raw] blocks]|] eqn:Eb; cbn [res_bind] in *; [|discriminate].
    destruct (block_buffer_ok memory blk input (room - Z.of_nat 12) true b raw blocks Hmem ltac:(cbn; lia) Hk Hbi Hfs Hnf Hopt Eb)
      as (sb & Hout & Hbo & Hlo & Hdata & _ & Hfit & Hrec & Hrok).
    pose proof (index_append_spec [] (sb_record sb) (proj1 empty_index_fits) (proj2 empty_index_fits)) as Hap. rewrite Hrec in *. cbn [fst snd] in Hap.
    destruct Hrok as [Hr1 Hr2]. cbn [fst snd] in Hr1, Hr2. change UNPADDED_SIZE_MAX with 9223372036854775804 in Hr1. unfold UNPADDED_SIZE_MIN, LZMA_VLI_MAX in *.
    rewrite Hap by (unfold is_u64; lia). clear Hap. destruct (decide (record_ok _)) as [Hrok|]; [|discriminate].
    destruct (decide (index_limits _)) as [Hlim|]; [|discriminate]. cbn [res_bind].
    assert (([] ++ [(lzma_block_unpadded_size b, uncompressed_size b)]) = map sb_record [sb]) as Eix by (cbn; now rewrite Hrec). rewrite Eix in *.
    apply (Hend [sb] blocks _ Hbo); [unfold blocks_bytes; cbn; now rewrite app_nil_r|unfold blocks_data; cbn; now rewrite app_nil_r| | |reflexivity|exact Hlo].
    + intros ignore. constructor; [apply Hfit|constructor].
    + split; [cbn; rewrite Hrec; now constructor|exact Hlim].
  - assert (input = []) as Hin by (destruct input; [reflexivity|cbn in *; lia]).
    cbn [res_bind]. apply (Hend [] [] (Z.to_nat (room - Z.of_nat 12 - zlen (@nil Z))) (Forall_nil_2 _) eq_refl (eq_sym Hin));
      [intros; constructor|apply empty_index_fits|reflexivity|unfold room; cbn; lia].
Qed.

End Encode.

(** C23: The two implementations of the limits of a Stream agree: after the same
    Records, [lzma_index_append] of an application that encodes and
    [lzma_index_hash_append] of a decoder return the same for the next one, with a
    Record that is not valid, a Stream that gets too large, and a valid one, after
    which both have the Records in the same order and the same size of the Index. *)
Theorem index_append_agrees h0 pre h unpadded_size uncompressed_size :
  Forall (fun r => is_u64 r.1 /\ is_u64 r.2) pre -> length (chk_buffer (info_check (blocks h0))) = 64%nat ->
  length (chk_buffer (info_check (records h0))) = 64%nat -> append_all (lzma_index_hash_init h0) pre = Some h ->
  is_u64 unpadded_size -> is_u64 uncompressed_size ->
  let '(ret, h') := lzma_index_hash_append h unpadded_size uncompressed_size in
  match lzma_index_append pre unpadded_size uncompressed_size with
  | Ok index => ret = LZMA_OK /\ index = pre ++ [(unpadded_size, uncompressed_size)] /\
      lzma_index_hash_size h' = index_size (zlen index) (records_list_size index)
  | Err e => ret = e
  end.
Proof.
  intros H64 Li Lj H Hu Hv. destruct (append_all_ready h0 pre h H64 H) as ((rem & u & c & ->) & Hok & Hlim). set (r := (unpadded_size, uncompressed_size)).
  match goal with |- context [lzma_index_hash_append ?h _ _] => pose proof (append_spec h (blocks h0) pre r) as Ha end.
  unfold is_u64 in *. rewrite (index_append_spec pre r Hok Hlim Hu Hv : lzma_index_append pre unpadded_size uncompressed_size = _).
  cbn [r fst snd] in Ha. rewrite Ha by (reflexivity || assumption || lia). destruct (decide (record_ok r)) as [Hr|]; [|reflexivity].
  destruct (decide (index_limits (pre ++ [r]))) as [Hl|]; [|reflexivity]. split; [reflexivity|]. split; [reflexivity|].
  unfold lzma_index_hash_size. cbn [blocks set_blocks]. assert (Forall record_ok (pre ++ [r])) as Hok' by (apply Forall_app_2; auto).
  now destruct (within_sums _ _ (blocks h0) (records h0) (within_refl (pre ++ [r]) Hok' Hl)) as (_ & _ & -> & -> & _).
Qed.

Lemma index_append_agrees_witness :
  exists h h', append_all (lzma_index_hash_init hash_example) [(100, 300)] = Some h /\
    lzma_index_hash_append h 33 7 = (LZMA_OK, h') /\ lzma_index_append [(100, 300)] 33 7 = Ok [(100, 300); (33, 7)].
Proof.
  destruct (append_all (lzma_index_hash_init hash_example) [(100, 300)]) as [h|] eqn:E; [|vm_compute in E; discriminate].
  pose proof (index_append_agrees hash_example [(100, 300)] h 33 7 ltac:(repeat constructor; cbn; lia) eq_refl eq_refl E ltac:(unfold is_u64; lia) ltac:(unfold is_u64; lia)) as H.
  destruct (lzma_index_hash_append h 33 7) as [ret h'] eqn:Eh. assert (lzma_index_append [(100, 300)] 33 7 = Ok [(100, 300); (33, 7)]) as Ea by (vm_compute; reflexivity).
  rewrite Ea in H. destruct H as (-> & _ & _). exists h, h'. split; [reflexivity|]. split; [exact Eh|exact Ea].
Defined.

(** ** Enough room *)

Section Room.
Context {E : RawEncoder}.

Lemma stored_header_small b b0 : block_args (set_block_filters b [lzma2_filter lzma2_min]) ->
  lzma_block_header_size (set_block_filters b [lzma2_filter lzma2_min]) = Ok b0 -> header_size b0 <= 28.
Proof using Type.
  intros (Hv & Hk & Hn & Hfs & Hc & Hu). change COMPRESSED_SIZE_MAX with 9223372036854774716 in Hc. change LZMA_VLI_MAX with 9223372036854775807 in Hu.
  pose proof (vli_valid_small (compressed_size b) ltac:(cbn in Hc; unfold LZMA_VLI_MAX; lia)) as V1. pose proof (vli_valid_small (uncompressed_size b) ltac:(cbn in Hu; unfold LZMA_VLI_MAX; lia)) as V2.
  rewrite (block_header_size_spec _ 3); cbn [set_block_filters compressed_size uncompressed_size block_version filters] in *; auto; try lia; try discriminate.
  - pose proof (optional_size_range (compressed_size b) ltac:(lia) V1). pose proof (optional_size_range (uncompressed_size b) ltac:(lia) V2).
    intros [= <-]. cbn [header_size set_header_size]. dlia.
  - intros size Hs. cbn [filters_size_loop]. change (0 =? LZMA_FILTERS_MAX) with false. cbv iota.
    assert (lzma_filter_flags_size (lzma2_filter lzma2_min) = Ok 3) as -> by (vm_compute; reflexivity). cbn [res_bind]. now rewrite u32_small by (unfold is_u32; lia).
Qed.

(** C22: [lzma_block_buffer_bound] keeps its promise: with as much room as it returns,
    data of any contents are stored as a Block, and the Block is no larger; a size
    for which there is no bound is refused. *)
Theorem block_bound_suffices memory blk input avail : 0 <= block_version blk <= 1 -> 0 <= block_check blk <= LZMA_CHECK_ID_MAX ->
  lzma_check_is_supported (block_check blk) = true -> length (chk_buffer memory) = 64%nat ->
  let bound := lzma_block_buffer_bound64 (zlen input) in
  if bound =? 0 then lzma_check_size (block_check blk) + 3 < avail -> lzma_block_uncomp_encode memory blk input avail = Err LZMA_DATA_ERROR
  else bound <= avail -> exists b raw out, lzma_block_uncomp_encode memory blk input avail = Ok (b, raw, out) /\ zlen out <= bound /\ zlen out mod 4 = 0.
Proof using Type.
  intros Hv Hk Hsup Hmem bound. unfold bound, lzma_block_buffer_bound64. set (c := lzma2_bound (zlen input)).
  pose proof (lzma_check_size_range _ Hk) as Hcs. set (size := lzma_check_size (block_check blk)) in *.
  assert (size mod 4 = 0) as Hsm by (apply Z.eqb_eq, (check_sweep (fun t => lzma_check_size t mod 4 =? 0)); [reflexivity|lia]).
  unfold lzma_block_uncomp_encode, block_buffer_encode. bfalse (block_version blk >? 1). bfalse (block_check blk >? LZMA_CHECK_ID_MAX). rewrite Hsup. cbn [negb]. cbv zeta. fold size.
  set (room := avail - Z.land avail 3). assert (room mod 4 = 0 /\ room <= avail /\ avail - 3 <= room) as (Hr1 & Hr2 & Hr3).
  { unfold room. change 3 with (2 ^ 2 - 1). rewrite land_low by lia. change (2 ^ 2) with 4. dlia. }
  cbn [set_block_sizes compressed_size]. fold c. destruct (Z.eqb_spec c 0) as [Hc0|Hc0].
  { rewrite Z.eqb_refl. intros Ha. bfalse (room <=? size). reflexivity. }
  destruct (bound_spec (zlen input) ltac:(lia) Hc0) as [Hbound Hmax]. fold c in Hbound, Hmax. change COMPRESSED_SIZE_MAX with 9223372036854774716 in Hmax.
  assert (Z.land (u64 (c + 3)) (u64 (Z.lnot 3)) = (c + 3) / 4 * 4) as Hceil by (apply (vli_ceil4_spec c); change UNPADDED_SIZE_MAX with 9223372036854775804; lia).
  rewrite Hceil. change BLOCK_HEADERS_BOUND with 92. rewrite u64_small by (unfold is_u64; dlia). rewrite (proj2 (Z.eqb_neq _ 0)) by dlia. intros Ha.
  rewrite (proj2 (Z.leb_gt room size)) by dlia. set (blk1 := set_block_sizes blk c (zlen input)). unfold block_encode_uncompressed.
  assert (block_args (set_block_filters blk1 [lzma2_filter lzma2_min])) as Hargs.
  { unfold block_args. cbn [blk1 set_block_filters set_block_sizes block_version block_check filters compressed_size uncompressed_size length].
    change COMPRESSED_SIZE_MAX with 9223372036854774716. split_and!; auto; try lia.
    - repeat constructor; cbn; unfold LZMA_DICT_SIZE_MIN; lia.
    - unfold chunk_count, LZMA_VLI_MAX in *. dlia. }
  destruct (lzma_block_header_size (set_block_filters blk1 [lzma2_filter lzma2_min])) as [b0|] eqn:Eh.
  2: { exfalso. destruct Hargs as (A1 & A2 & A3 & A4 & A5 & A6).
       destruct (filters_roundtrip lzma2_min _ A4 0 ltac:(unfold LZMA_FILTERS_MAX; lia)) as (n & Hn1 & Hsz & _).
       change COMPRESSED_SIZE_MAX with 9223372036854774716 in A5.
       rewrite (block_header_size_spec _ n) in Eh; auto; try lia; try discriminate; try (apply vli_valid_small; unfold LZMA_VLI_MAX in *; lia). intros; apply Hsz; lia. }
  pose proof (stored_header_small _ _ Hargs Eh) as Hhs.
  destruct (header_written lzma2_min _ b0 c Hargs Eh) as (Hb & Hh & header & fs' & He & Hl & _); [cbn; lia|].
  assert (set_compressed_size b0 c = b0 /\ compressed_size b0 = c) as [Esame Ec] by (rewrite Hb; split; reflexivity). rewrite Esame in He. rewrite He, Ec.
  rewrite u64_small by (unfold is_u64; lia). rewrite (proj2 (Z.ltb_ge (room - size) (header_size b0 + c))) by dlia.
  destruct (chunk_loop_ok (S (length input)) true input ltac:(lia)) as (cs & -> & Hcat & Hok & Hnc).
  pose proof (stored_chunks_length true cs) as Hlen. rewrite Hcat, Hnc, <- Hbound in Hlen. cbn [res_bind].
  assert (forall f, compressed_size (set_block_filters b0 f) = c /\ block_check (set_block_filters b0 f) = block_check blk) as Hf by (intros f; rewrite Hb; split; reflexivity).
  destruct (Hf (filters blk1)) as [-> ->]. rewrite padding_bytes_spec. pose proof (padding_aligned c ltac:(lia)) as [Hpad Hpad3].
  set (ref := slice 0 size _). assert (zlen ref = size) as Href.
  { unfold ref. apply length_slice; [lia|lia|]. rewrite check_finish_length; [lia|]. now apply check_update_length, check_init_length. }
  assert (forall tail, zlen tail = size -> zlen (((header ++ stored_chunks true cs) ++ block_padding c) ++ tail) <= 92 + (c + 3) / 4 * 4 /\
    zlen (((header ++ stored_chunks true cs) ++ block_padding c) ++ tail) mod 4 = 0) as Hsize.
  { intros tail Ht. rewrite !length_app, !Nat2Z.inj_add, Hlen, Hl, Ht. clear -Hpad Hpad3 Hsm Hcs Hhs Hh Hmax Hk. dlia. }
  destruct (Z.gtb_spec size 0); (eexists _, _, _; split; [reflexivity|]); [now apply Hsize|].
  specialize (Hsize [] ltac:(cbn; lia)). now rewrite app_nil_r in Hsize.
Qed.

End Room.

Lemma block_bound_suffices_witness :
  let blk := Build_lzma_block 0 0 LZMA_CHECK_CRC32 0 0 [] false in
  let E : RawEncoder := fun _ _ _ => (LZMA_OK, []) in
  lzma_block_buffer_bound64 5 = 104 /\
  exists b raw out, lzma_block_uncomp_encode check_state_example blk [104; 101; 108; 108; 111] 104 = Ok (b, raw, out) /\ zlen out <= 104 /\ zlen out mod 4 = 0.
Proof.
  intros blk E. assert (lzma_block_buffer_bound64 5 = 104) as Hb by (vm_compute; reflexivity). split; [exact Hb|].
  pose proof (block_bound_suffices check_state_example blk [104; 101; 108; 108; 111] 104 ltac:(cbn; lia) ltac:(cbn; unfold LZMA_CHECK_CRC32, LZMA_CHECK_ID_MAX; lia) eq_refl eq_refl) as H.
  cbv zeta in H. change (zlen [104; 101; 108; 108; 111]) with 5 in H. rewrite Hb in H. apply H. lia.
Defined.
