(* ===== verification/XzRoundtrip.v ===== *)
(** * The .xz format, there and back

    What [lzma_stream_buffer_encode] ([BufferEncoder]) writes, the Stream decoder
    ([StreamDecoder]) with a chain of the filters LZMA2 and Delta ([RawDecoder])
    gives back, in whatever pieces it gets the Stream and whatever room it has; and
    what holds of these decoders for any input. *)

From Stdlib Require Import ZArith Lia.
From stdpp Require Import list.
From S2P Require Import Prelude Delta LzDict LzDecoder LzmaDecoder LzmaSafety Lzma2Decoder Vli Crc Sha256 Check FilterProps FilterFlags BlockHeader StreamFlags IndexHash Coder IndexPieces Decodes BlockDecoder StreamDecoder StreamFormat Lzma2Stored RawDecoder BufferEncoder.

(** ** The decoders that are started *)

(** The allocations succeed, and the structures are not huge. *)
Class RawMemoryAmple {M : RawMemory} := {
  ample_coder : coder_allocated = true;
  ample_dictionary n : 0 <= n -> exists b, dictionary_memory n = Some b;
  ample_sizes : 0 <= sizeof_lzma_coder < 2 ^ 32 /\ 0 <= sizeof_lzma_lzma1_decoder < 2 ^ 32 /\ 0 <= sizeof_lzma_lzma2_coder < 2 ^ 32 /\
    0 <= sizeof_lzma_delta_coder < 2 ^ 32;
}.

Section Codec.
Context {M : RawMemory} {ML : RawMemoryLaws} {MA : RawMemoryAmple}.

Definition delta_ok (dist : Z) : Prop := LZMA_DELTA_DIST_MIN <= dist <= LZMA_DELTA_DIST_MAX.

Lemma dict_init_total ds preset : 0 <= ds <= UINT32_MAX -> exists d, dict_init dictionary_config dictionary_memory ds preset = Ok d.
Proof using MA.
  intros Hds. pose proof (extra_nonneg dictionary_config) as Hx. pose proof (alloc_size_spec ds ltac:(lia)) as [_ Ha].
  unfold UINT32_MAX in Hds. change LZ_DICT_INIT_POS with 576 in Ha.
  assert (0 <= alloc_size ds + LZ_DICT_EXTRA dictionary_config) as Hsize by lia. destruct (ample_dictionary _ Hsize) as [b Eb].
  unfold dict_init. rewrite Eb. change LZ_DICT_REPEAT_MAX with 288.
  destruct (Z.gtb_spec (Z.max ds 4096) (UINT64_MAX - 15 - 2 * 288 - LZ_DICT_EXTRA dictionary_config)); [unfold UINT64_MAX in *; lia|]. case_if; eauto.
Qed.

Lemma lzma2_init_total id o next : exists n, lzma_lzma2_decoder_init id (OptLzma o) next = Ok n.
Proof using MA.
  unfold lzma_lzma2_decoder_init, lz_last_init. rewrite ample_coder. cbn [negb lzma_options as_lzma res_bind]. unfold lzma2_decoder_init, lzma_lz_decoder_init. cbn [res_bind].
  destruct (dict_init_total (dict_size (options_u32 o)) (preset_bytes (options_u32 o))) as [d ->]; [pose proof (u32_range (dict_size o)); cbn; unfold UINT32_MAX; lia|].
  cbn [res_bind]. eauto.
Qed.

Lemma delta_init_total id dist next : delta_ok dist -> exists n, lzma_delta_decoder_init id (OptDelta LZMA_DELTA_TYPE_BYTE dist) (Ok next) = Ok n.
Proof using MA.
  intros Hd. unfold delta_ok, LZMA_DELTA_DIST_MIN, LZMA_DELTA_DIST_MAX in Hd. unfold lzma_delta_decoder_init, lzma_delta_coder_init. rewrite ample_coder, andb_false_r.
  unfold lzma_delta_coder_memusage. cbn [as_delta]. unfold LZMA_DELTA_DIST_MIN, LZMA_DELTA_DIST_MAX. rewrite Z.eqb_refl. cbn [negb orb].
  bfalse (dist <? 1). bfalse (dist >? 256). cbn [orb]. change (1 =? UINT64_MAX) with false. cbn [res_bind]. eauto.
Qed.

(** The chains of the round trip, as they are decoded. *)
Definition delta_chain (dists : list Z) (o : lzma_options_lzma) : list lzma_filter := map delta_filter dists ++ [lzma2_filter o].

Lemma chain_total dists o : Forall delta_ok dists -> exists infos n,
  filter_infos coder_find (delta_chain dists o) = Ok infos /\ lzma_next_filter_init infos = Ok (Some n).
Proof using MA.
  unfold delta_chain. induction 1 as [|dist dists Hd _ IH]; cbn [map app filter_infos].
  - destruct (lzma2_init_total LZMA_FILTER_LZMA2 o (Ok None)) as [n En]. eexists _, n. split; [reflexivity|].
    cbn [lzma_next_filter_init info_init info_id info_options lzma2_filter filter_id options]. now rewrite En.
  - destruct IH as (infos & n & Ei & En). change (coder_find (filter_id (delta_filter dist)) ≫= fc_init) with (Some lzma_delta_decoder_init). cbv iota. rewrite Ei. cbn [res_bind].
    destruct (delta_init_total LZMA_FILTER_DELTA dist (Some n) Hd) as [n' En']. eexists _, n'. split; [reflexivity|].
    cbn [lzma_next_filter_init info_init info_id info_options delta_filter filter_id options]. rewrite En, En'. reflexivity.
Qed.

Lemma chain_valid dists o : zlen dists <= 3 -> exists count, lzma_validate_chain (delta_chain dists o) = Ok count.
Proof using Type.
  intros Hn. unfold lzma_validate_chain, delta_chain. pose proof (validate_loop_ok (map delta_filter dists) (lzma2_filter o) false 0 0) as H.
  rewrite H; [|apply Forall_map, Forall_forall; intros d _; apply list_elem_of_here|now apply (bool_decide_unpack _)].
  destruct (map delta_filter dists ++ [lzma2_filter o]) eqn:E; [now destruct dists|]. cbn [res_bind]. rewrite length_map. unfold LZMA_FILTERS_MAX.
  bfalse (0 + zlen dists + 1 >? 4). cbn [negb orb]. eexists. reflexivity.
Qed.

Lemma raw_init_total dists o : zlen dists <= 3 -> Forall delta_ok dists -> exists n, raw_decoder_init (delta_chain dists o) = Ok n.
Proof using MA.
  intros Hn Hd. cbn [raw_decoder_init raw_decoder]. unfold lzma_raw_decoder_init, lzma_raw_coder_init. destruct (chain_valid dists o Hn) as [count ->]. cbn [res_bind].
  destruct (chain_total dists o Hd) as (infos & n & -> & E). cbn [res_bind]. rewrite E. cbn [res_bind]. eauto.
Qed.

(** *** Their memory *)

Lemma lz_memusage ds : 0 <= ds <= UINT32_MAX -> 0 <= lzma_lz_decoder_memusage ds <= 2 ^ 34.
Proof using MA.
  intros Hds. destruct ample_sizes as (H & _). pose proof (extra_nonneg dictionary_config). unfold UINT32_MAX in Hds.
  unfold lzma_lz_decoder_memusage. change LZ_DICT_REPEAT_MAX with 288. rewrite u64_small by (unfold is_u64; lia). lia.
Qed.

Lemma lzma2_memusage o : 0 <= lzma_lzma2_decoder_memusage (OptLzma o) <= 2 ^ 35.
Proof using MA.
  destruct ample_sizes as (_ & H1 & H2 & _). unfold lzma_lzma2_decoder_memusage, lzma_lzma_decoder_memusage_nocheck. cbn [lzma_options as_lzma].
  pose proof (lz_memusage (dict_size (options_u32 o))) as H. pose proof (u32_range (dict_size o)) as Hr. unfold is_u32 in Hr. specialize (H ltac:(cbn; unfold UINT32_MAX; lia)).
  rewrite (u64_small (_ + lzma_lz_decoder_memusage _)) by (unfold is_u64; lia). rewrite u64_small by (unfold is_u64; lia). lia.
Qed.

Lemma delta_memusage dist : delta_ok dist -> lzma_delta_coder_memusage sizeof_lzma_delta_coder (OptDelta LZMA_DELTA_TYPE_BYTE dist) = sizeof_lzma_delta_coder.
Proof using Type.
  unfold delta_ok, LZMA_DELTA_DIST_MIN, LZMA_DELTA_DIST_MAX. intros Hd. unfold lzma_delta_coder_memusage. cbn [as_delta]. unfold LZMA_DELTA_DIST_MIN, LZMA_DELTA_DIST_MAX.
  rewrite Z.eqb_refl. bfalse (dist <? 1). bfalse (dist >? 256). reflexivity.
Qed.

Lemma memusage_loop_small dists o : forall total, zlen dists <= 3 -> Forall delta_ok dists -> 0 <= total -> total + zlen dists * 2 ^ 32 <= 2 ^ 34 ->
  0 <= memusage_loop coder_find (delta_chain dists o) total <= 2 ^ 36.
Proof using MA.
  destruct ample_sizes as (_ & _ & _ & H4). induction dists as [|dist dists IH]; intros total Hn Hd Ht Hsum; cbn [delta_chain map app memusage_loop].
  - change (coder_find (filter_id (lzma2_filter o))) with (Some {| fc_id := LZMA_FILTER_LZMA2; fc_init := Some lzma_lzma2_decoder_init; fc_memusage := Some lzma_lzma2_decoder_memusage |}).
    cbn [fc_memusage options lzma2_filter]. pose proof (lzma2_memusage o) as Hu. cbn [length] in Hsum. change LZMA_MEMUSAGE_BASE with 32768.
    rewrite (proj2 (Z.eqb_neq _ UINT64_MAX)) by (unfold UINT64_MAX; lia). rewrite (u64_small (total + _)) by (unfold is_u64; lia). rewrite u64_small by (unfold is_u64; lia). lia.
  - change (coder_find (filter_id (delta_filter dist))) with (Some {| fc_id := LZMA_FILTER_DELTA; fc_init := Some lzma_delta_decoder_init; fc_memusage := Some (lzma_delta_coder_memusage sizeof_lzma_delta_coder) |}).
    apply Forall_cons in Hd as [Hd1 Hd]. cbn [fc_memusage options delta_filter length] in *. rewrite (delta_memusage dist Hd1).
    rewrite (proj2 (Z.eqb_neq _ UINT64_MAX)) by (unfold UINT64_MAX; lia). rewrite (u64_small (total + _)) by (unfold is_u64; lia). apply IH; auto; lia.
Qed.

Lemma chain_memusage dists o : zlen dists <= 3 -> Forall delta_ok dists -> 0 <= lzma_raw_decoder_memusage (delta_chain dists o) <= 2 ^ 36.
Proof using MA.
  intros Hn Hd. unfold lzma_raw_decoder_memusage, lzma_raw_coder_memusage. destruct (chain_valid dists o Hn) as [count ->]. apply memusage_loop_small; auto; lia.
Qed.

(** *** What they decode *)

Lemma stored_chain m dists o fs' : Forall2 (filter_stored m) (delta_chain dists o) fs' -> exists size, fs' = delta_chain dists (set_dict m size).
Proof using Type.
  unfold delta_chain. revert fs'. induction dists as [|dist dists IH]; intros fs' H; cbn [map app] in *.
  - apply Forall2_cons_inv_l in H as ([id o'] & t & [H1 (size & H2 & _)] & Ht & ->). apply Forall2_nil_inv_l in Ht as ->. cbn in H1, H2. subst. now exists size.
  - apply Forall2_cons_inv_l in H as ([id o'] & t & [H1 H2] & Ht & ->). cbn in H1, H2. subst. destruct (IH _ Ht) as [size ->]. now exists size.
Qed.

Lemma chain_decodable m limit dists o cs : 2 ^ 36 <= limit -> zlen dists <= 3 -> Forall delta_ok dists -> Forall chunk_ok cs ->
  decodable m limit (delta_chain dists o) (stored_chunks true cs) (undeltas dists (concat cs)).
Proof using ML MA.
  intros Hlim Hn Hd Hcs fs' Hst. destruct (stored_chain m dists o fs' Hst) as [size ->]. destruct (raw_init_total dists (set_dict m size) Hn Hd) as [n En].
  pose proof (chain_memusage dists (set_dict m size) Hn Hd) as Hu. split; [|cbn [raw_decoder_memusage raw_decoder]; unfold UINT64_MAX; lia].
  exists n. split; [exact En|]. now apply (stored_raw_init dists (set_dict m size) cs n).
Qed.

(** ** An encoder for examples: it never compresses *)

Fixpoint delta_dists (fs : list lzma_filter) : option (list Z) :=
  match fs with
  | [] => None
  | f :: rest =>
      match options f, rest with
      | OptLzma _, [] => Some []
      | OptDelta _ dist, _ => dists ← delta_dists rest; Some (dist :: dists)
      | _, _ => None
      end
  end.

#[local] Instance storing : RawEncoder := fun fs data n =>
  match delta_dists fs with
  | None => (LZMA_OPTIONS_ERROR, [])
  | Some dists =>
      match chunk_loop (S (length data)) 1 (deltas dists data) with
      | None => (LZMA_PROG_ERROR, [])
      | Some out => if (length out <=? n)%nat then (LZMA_STREAM_END, out) else (LZMA_OK, take n out)
      end
  end.

Lemma delta_dists_spec fs : forall dists, Forall filter_ok fs -> delta_dists fs = Some dists -> Forall delta_ok dists /\ exists o, fs = delta_chain dists o.
Proof using Type.
  unfold delta_chain. induction fs as [|[id o] fs IH]; intros dists Hok; cbn [delta_dists]; [discriminate|]. apply Forall_cons in Hok as [Hf Hok]. cbn [options].
  destruct o as [|s|type dist|o]; try discriminate.
  - destruct (delta_dists fs) as [ds|] eqn:E; [|discriminate]. cbn. intros [= <-]. destruct (IH ds Hok eq_refl) as [Hd [o ->]]. destruct Hf as (Hid & -> & Hd1). cbn in Hid. subst id.
    split; [now constructor|]. exists o. reflexivity.
  - destruct fs; [|discriminate]. intros [= <-]. destruct Hf as [Hid _]. cbn in Hid. subst id. split; [constructor|]. now exists o.
Qed.

#[local] Instance storing_codec m limit : 2 ^ 36 <= limit -> RawCodec m limit.
Proof using ML MA.
  intros Hlim. constructor.
  - intros cs Hcs _. exact (chain_decodable m limit [] lzma2_min cs Hlim ltac:(cbn; lia) ltac:(constructor) Hcs).
  - intros fs data n out Hok Hn Hb. unfold raw_encode, storing. destruct (delta_dists fs) as [dists|] eqn:Ed; [|discriminate].
    destruct (delta_dists_spec fs dists Hok Ed) as [Hd [o ->]]. unfold delta_chain in Hn. rewrite length_app, length_map in Hn. cbn [length] in Hn.
    pose proof (deltas_length dists data) as Hlen.
    destruct (chunk_loop_ok (S (length data)) true (deltas dists data)) as (cs & E & Hcat & Hcs & _); [rewrite Hlen; lia|]. rewrite E.
    destruct (Nat.leb_spec (length (stored_chunks true cs)) n); [|discriminate]. intros [= <-].
    assert (Forall bytes_ok cs) as Hbcs.
    { pose proof (deltas_bytes dists data Hb) as H'. rewrite <- Hcat in H'. clear -H'. induction cs as [|x cs IH]; constructor; cbn [concat] in H'; apply Forall_app in H' as [? ?]; auto. }
    split_and!; [now apply stored_chunks_bytes|pose proof (stored_chunks_length true cs); lia|lia|].
    rewrite <- (undeltas_deltas dists data Hb), <- Hcat. apply chain_decodable; auto. lia.
Qed.
End Codec.

(** ** Theorems *)

Section Theorems.
Context {U : Type} {C : Coder U} {R : RawDecoder U} {SM : StreamMemory} {F : Safe U} {L : RawSafe U}.

(** States that the application can call: one that was initialized, for the first time
    or again, and every one that a call has left without a failure. *)
Definition callable (c : lzma_stream_coder U) : Prop :=
  stream_safe c \/ exists next memory ready memlimit flags, (forall m, next = Some m -> stream_memory m) /\ (forall m, memory = Some m -> stream_memory m) /\
    lzma_stream_decoder_init next memory ready memlimit flags = Ok c.

(** C17: The Stream decoder returns, whatever it is given: from any state that it can
    be called in, for any input, room and action, the loop of [stream_decode] ends
    within [4 * size + 5] iterations, it reads and stores no more than it may, and
    unless it has failed it may be called again. *)
Theorem stream_decode_returns c input avail action : callable c -> bytes_ok input ->
  exists ret c' out rest, stream_loop (stream_fuel input) c input avail action = Some (ret, c', out, rest) /\
    (length out <= avail)%nat /\ (exists used, input = used ++ rest) /\ (goes_on ret c' -> callable c').
Proof using L.
  intros Hc Hb. assert (stream_safe c) as Hs by (destruct Hc as [|(next & memory & ready & memlimit & flags & Hn & Hm & Hi)]; [assumption|exact (proj1 (stream_init_safe _ _ _ _ _ _ Hn Hm Hi))]).
  destruct (stream_loop_enough c input avail action Hs Hb) as ([[[ret c'] out] rest] & E & H1 & H2 & H3). exists ret, c', out, rest. split_and!; auto. intros ?. left. auto.
Qed.

(** C3: A Block is only accepted with the check of its data.  Whatever the chain of
    filters gives for whatever bytes, in whatever pieces: when the Block decoder
    returns [LZMA_STREAM_END] and the check is supported and not to be ignored, the
    bytes that were read end with the CRC32, CRC64 or SHA-256 of all the data that
    were given, and their number is the one in the Block Header. *)
Theorem block_check_sound raw chk blk c input calls : lzma_block_decoder_init raw chk blk = Ok c -> length raw = 64%nat -> length (chk_buffer chk) = 64%nat ->
  0 <= block_check blk -> 0 <= uncompressed_size blk -> (if block_version blk >=? 1 then ignore_check blk else false) = false ->
  lzma_check_is_supported (block_check blk) = true -> bytes_ok input ->
  let '(ret, _, out, unread) := feed c input calls in
  ret = LZMA_STREAM_END -> bytes_ok out ->
  (exists body, input = body ++ check_ref (block_check blk) out ++ unread) /\ (uncompressed_size blk = LZMA_VLI_UNKNOWN \/ uncompressed_size blk = zlen out).
Proof using L.
  intros Hi Hr Hc Hk Hu Hig Hsup Hb. pose proof (block_init_safe _ _ _ _ Hi) as Hsafe. unfold lzma_block_decoder_init in Hi. rewrite Hig in Hi.
  destruct (_ || _) eqn:Ev in Hi; [discriminate|]. apply orb_false_iff in Ev as [Ev1 Ev2]. apply negb_false_iff in Ev2. apply Z.eqb_neq in Ev1.
  assert (block_check blk <= LZMA_CHECK_ID_MAX) as Hkm.
  { unfold lzma_block_unpadded_size in Ev1. destruct (Z.gtb_spec (block_check blk) LZMA_CHECK_ID_MAX); [|lia]. exfalso. apply Ev1. rewrite orb_true_r. reflexivity. }
  cbv zeta in Hi. destruct (raw_decoder_init (filters blk)) as [n|]; cbn [res_bind] in Hi; [|discriminate]. injection Hi as Ec.
  set (limit := if uncompressed_size blk =? LZMA_VLI_UNKNOWN then LZMA_VLI_MAX else uncompressed_size blk) in *.
  assert (0 <= limit <= LZMA_VLI_MAX) as Hlim.
  { unfold limit. destruct (Z.eqb_spec (uncompressed_size blk) LZMA_VLI_UNKNOWN) as [|Hne]; [unfold LZMA_VLI_MAX; lia|]. pose proof (unknown_spec _ Ev2 Hne). lia. }
  pose proof (feed_sound chk (block_check blk) (uncompressed_size blk) limit (conj Hk Hkm) (proj2 Hlim) calls c [] [] input) as H.
  assert (block_sound chk (block_check blk) (uncompressed_size blk) limit c [] []) as Hs.
  { split; [exact Hsafe|]. rewrite <- Ec. cbn. split_and!; auto; try lia. now exists []. }
  specialize (H Hs Hb). destruct (feed c input calls) as [[[ret c'] out] unread]. destruct H as (used & -> & Hend). intros -> Hob.
  destruct (Hend eq_refl) as (Href & body & field & chunks & Hgot & _ & Hcat & Hf). cbn [app] in *. split; [|exact Href]. exists body.
  assert (Forall bytes_ok chunks) as Hbc by (subst out; clear -Hob; induction chunks as [|x l IH]; constructor; cbn [concat] in Hob; apply Forall_app in Hob as [? ?]; auto).
  destruct (check_field_ref chk (block_check blk) chunks Hk Hsup Hc Hbc) as [Eref _]. rewrite Hgot, (Hf Hsup), Eref, Hcat. now rewrite <- app_assoc.
Qed.

Context {D : Decodes U} {SML : StreamMemoryLaws}.

(** What [feed] promises for [data]: the part of it that was asked for, and the end. *)
Definition gives (data tail input : bytes) (calls : list (nat * nat)) (r : lzma_ret * lzma_stream_coder U * bytes * bytes) : Prop :=
  let '(ret, _, out, unread) := r in
  (ret = LZMA_OK /\ (exists later, data = out ++ later) /\ (exists p, unread = p ++ tail) \/ ret = LZMA_STREAM_END /\ out = data /\ unread = tail) /\
  (Forall (fun k => (0 < k.1)%nat /\ (0 < k.2)%nat) calls -> (length input + length data < length calls)%nat -> ret = LZMA_STREAM_END).

Lemma stream_gives c p d tail calls : stream_expects c p d -> bytes_ok (p ++ tail) -> gives d tail p calls (feed c (p ++ tail) calls).
Proof using SML D L.
  intros Hc Hb. pose proof (feed_decodes calls c p d tail Hc Hb) as H. pose proof (feed_ends calls c p d tail Hc Hb) as He.
  destruct (feed c (p ++ tail) calls) as [[[ret c'] out] unread]. split.
  - destruct H as [(-> & p' & d' & -> & -> & _)|(-> & -> & ->)]; [left|now right]. split_and!; eauto.
  - intros Hcalls Hl. destruct (He Hcalls Hl) as [c2 E]. now injection E as -> _ _ _.
Qed.

(** C4: A Stream of the .xz format is decoded in any pieces.  Whatever Blocks it has
    (each with a header that decodes to what it holds and needs no more memory than
    the limit, what the filters have made of its data, and the check), a decoder that
    was initialized gives a part of their data after every call, in order, stops
    behind the Stream Footer, and reaches it if every call is given something to read
    and some room. *)
Theorem stream_pieces next memory ready memlimit flags c k bs tail calls :
  (forall m, next = Some m -> stream_memory m) -> (forall m, memory = Some m -> stream_memory m) ->
  lzma_stream_decoder_init next memory ready memlimit flags = Ok c -> 0 <= k <= LZMA_CHECK_ID_MAX -> plain_flags flags k ->
  index_fits (map sb_record bs) -> blocks_fit k (tells flags LZMA_IGNORE_CHECK) (Z.max 1 memlimit) bs -> bytes_ok (stream_bytes k bs ++ tail) ->
  gives (blocks_data bs) tail (stream_bytes k bs) calls (feed c (stream_bytes k bs ++ tail) calls).
Proof using SML D L.
  intros Hn Hm Hi Hk Hp Hix Hbs Hb. apply stream_gives; [|exact Hb]. exact (stream_init_expects _ _ _ _ _ _ _ _ Hn Hm Hi Hk Hp Hix Hbs).
Qed.

(** C2: The round trip of the .xz format.  What [lzma_stream_buffer_encode] writes
    for any data fits into the room it was given, and the Stream decoder gives the data
    back, whatever pieces of the Stream and whatever room the calls have, and leaves
    what follows the Stream.  This holds for all filters whose decoders are right
    ([RawCodec]), whether the data got smaller or are stored. *)
Theorem stream_buffer_roundtrip {E : RawEncoder} m memlimit {K : RawCodec m (Z.max 1 memlimit)} memory fs k data size out next decoder ready flags c tail calls :
  length (chk_buffer memory) = 64%nat -> 0 <= k -> bytes_ok data -> Forall filter_ok fs -> 1 <= zlen fs <= 4 -> options_memory = Some m ->
  lzma_stream_buffer_encode memory fs k data size = Ok out ->
  (forall m, next = Some m -> stream_memory m) -> (forall m, decoder = Some m -> stream_memory m) ->
  lzma_stream_decoder_init next decoder ready memlimit flags = Ok c -> plain_flags flags k -> bytes_ok tail ->
  zlen out <= size /\ gives data tail out calls (feed c (out ++ tail) calls).
Proof using SML D L.
  intros Hmem Hk Hb Hfs Hn Hopt Henc Hnext Hdec Hi Hp Ht.
  destruct (stream_buffer_ok m (Z.max 1 memlimit) memory fs k data size out Hmem Hk Hb Hfs Hn Hopt Henc) as (Hkr & bs & -> & Hbo & Hle & Hdata & Hfit & Hix).
  split; [exact Hle|]. rewrite <- Hdata. apply stream_gives; [|now apply Forall_app_2]. exact (stream_init_expects _ _ _ _ _ _ _ _ Hnext Hdec Hi Hkr Hp Hix (Hfit _)).
Qed.
End Theorems.

(** ** Examples *)

#[local] Existing Instance storing.

#[local] Instance example_raw_memory : RawMemory := {|
  dictionary_config := use_sse2; dictionary_memory := example_memory; coder_allocated := true; lzma1_memory := example_decoder;
  lzma2_memory := example_coder; sizeof_lzma_coder := 4312; sizeof_lzma_lzma1_decoder := 28400; sizeof_lzma_lzma2_coder := 176;
  sizeof_lzma_delta_coder := 344;
|}.

#[local] Instance example_raw_laws : RawMemoryLaws.
Proof. intros n b. cbn. unfold example_memory. destruct (Z.ltb_spec n 0); [discriminate|]. intros [= <-]. rewrite length_replicate. lia. Qed.

#[local] Instance example_raw_ample : RawMemoryAmple.
Proof.
  constructor; [reflexivity| |cbn; lia]. intros n Hn. cbn. unfold example_memory. destruct (Z.ltb_spec n 0); [lia|]. eauto.
Qed.

#[local] Instance example_stream_memory : StreamMemory := {|
  options_memory := Some lzma2_min; raw_check_memory := repeat 7 64; check_memory := check_state_example;
|}.

#[local] Instance example_memory_laws : StreamMemoryLaws.
Proof. constructor; reflexivity. Qed.

Definition example_coder_memory : lzma_stream_coder next_coder :=
  mk_stream_coder SEQ_STREAM_PADDING None block_example {| version := 0; backward_size := 3; check := 7 |} hash_example 0 0 true true true true true
    false 9 (repeat 1 1024).

(** A new decoder without a limit of memory. *)
Definition example_decoder_init (flags : Z) : res (lzma_stream_coder next_coder) :=
  lzma_stream_decoder_init None (Some example_coder_memory) true UINT64_MAX flags.

Definition decode_example (flags : Z) (input : bytes) (calls : list (nat * nat)) : res (lzma_ret * bytes * bytes) :=
  let? c := example_decoder_init flags in
  let '(ret, _, out, unread) := feed c input calls in Ok (ret, out, unread).

(** A file that xz has written, with the filters Delta (of distance 2) and LZMA2 and a
    CRC32, and another with SHA-256. *)
Definition xz_delta_file : bytes :=
  [253; 55; 122; 88; 90; 0; 0; 1; 105; 34; 222; 54; 2; 1; 3; 1; 1; 33; 1; 0; 77; 242; 172; 162; 224; 0; 35; 0; 11; 93; 0; 48; 152; 124; 79; 232; 229; 171; 59; 66;
   0; 0; 0; 0; 234; 22; 1; 241; 0; 1; 35; 36; 155; 38; 44; 162; 144; 66; 153; 13; 1; 0; 0; 0; 0; 1; 89; 90].

Definition xz_sha256_file : bytes :=
  [253; 55; 122; 88; 90; 0; 0; 10; 225; 251; 12; 161; 2; 0; 33; 1; 0; 0; 0; 0; 55; 39; 151; 214; 224; 0; 16; 0; 12; 93; 0; 49; 24; 75; 17; 120; 213; 198; 5; 237;
   163; 0; 0; 0; 151; 59; 109; 92; 217; 249; 63; 223; 170; 122; 212; 113; 162; 232; 250; 17; 170; 198; 212; 76; 171; 79; 161; 125; 125; 3; 7; 24; 147; 99; 67; 172;
   0; 1; 64; 17; 220; 218; 79; 186; 24; 155; 75; 154; 1; 0; 0; 0; 0; 10; 89; 90].

Definition baulk : bytes := [98; 97; 117; 108; 107].

Example decode_delta_file : decode_example 0 (xz_delta_file ++ [9]) (repeat (7%nat, 5%nat) 40) = Ok (LZMA_STREAM_END, concat (repeat [97; 98; 99] 12), [9]).
Proof. vm_compute. reflexivity. Qed.

Example decode_sha256_file : decode_example 0 xz_sha256_file (repeat (5%nat, 2%nat) 40) = Ok (LZMA_STREAM_END, baulk ++ [32] ++ baulk ++ [32] ++ baulk, []).
Proof. vm_compute. reflexivity. Qed.

(** One bit of the check is wrong; the flag makes the decoder ignore it. *)
Example decode_damaged :
  let file := <[50%nat := 0]> xz_sha256_file in
  decode_example 0 file (repeat (5%nat, 3%nat) 40) = Ok (LZMA_DATA_ERROR, baulk ++ [32] ++ baulk ++ [32] ++ baulk, drop 76 file) /\
  decode_example LZMA_IGNORE_CHECK file (repeat (5%nat, 3%nat) 40) = Ok (LZMA_STREAM_END, baulk ++ [32] ++ baulk ++ [32] ++ baulk, []).
Proof. vm_compute. split; reflexivity. Qed.

(** Two Streams with Stream Padding between them. *)
Example decode_concatenated :
  (let? c := example_decoder_init LZMA_CONCATENATED in
   let '(ret, _, out, rest) := stream_decode c (xz_delta_file ++ [0; 0; 0; 0] ++ xz_delta_file) 100%nat LZMA_FINISH in Ok (ret, out, rest)) =
  Ok (LZMA_STREAM_END, concat (repeat [97; 98; 99] 24), []).
Proof. vm_compute. reflexivity. Qed.

(** ** Witnesses *)

Lemma example_memory_ok m : Some example_coder_memory = Some m -> stream_memory m.
Proof. intros [= <-]. split; [reflexivity|]. split; [split; [cbn; lia|now split]|]. intros b E. discriminate E. Qed.

Lemma no_memory m : @None (lzma_stream_coder next_coder) = Some m -> stream_memory m.
Proof. discriminate. Qed.

Lemma stream_decode_returns_witness : exists c ret c' out rest, example_decoder_init 0 = Ok c /\
  stream_loop (stream_fuel xz_delta_file) c xz_delta_file 8 LZMA_RUN = Some (ret, c', out, rest) /\ (length out <= 8)%nat.
Proof.
  destruct (example_decoder_init 0) as [c|] eqn:Ec; [|vm_compute in Ec; discriminate].
  destruct (stream_decode_returns c xz_delta_file 8 LZMA_RUN) as (ret & c' & out & rest & H1 & H2 & _).
  - right. exists None, (Some example_coder_memory), true, UINT64_MAX, 0. split; [exact no_memory|]. split; [exact example_memory_ok|exact Ec].
  - bytes_ok_tac.
  - exists c, ret, c', out, rest. split; [reflexivity|]. split; [exact H1|exact H2].
Defined.

Definition example_block : lzma_block := Build_lzma_block 1 12 LZMA_CHECK_CRC32 LZMA_VLI_UNKNOWN LZMA_VLI_UNKNOWN [lzma2_filter lzma2_min] false.
Definition hello : bytes := [104; 101; 108; 108; 111].
Definition example_block_bytes : bytes := [1; 0; 4; 104; 101; 108; 108; 111; 0; 0; 0; 0; 134; 166; 16; 54; 9].

Lemma block_check_sound_witness : exists c c', lzma_block_decoder_init (repeat 7 64) check_state_example example_block = Ok c /\
  feed c example_block_bytes (repeat (3%nat, 2%nat) 9) = (LZMA_STREAM_END, c', hello, [9]) /\
  exists body, example_block_bytes = body ++ check_ref LZMA_CHECK_CRC32 hello ++ [9].
Proof.
  destruct (lzma_block_decoder_init (U := next_coder) (repeat 7 64) check_state_example example_block) as [c|] eqn:Ec; [|vm_compute in Ec; discriminate].
  pose proof (block_check_sound (repeat 7 64) check_state_example example_block c example_block_bytes (repeat (3%nat, 2%nat) 9) Ec eq_refl eq_refl
    ltac:(cbn; unfold LZMA_CHECK_CRC32; lia) ltac:(cbn; unfold LZMA_VLI_UNKNOWN, UINT64_MAX; lia) eq_refl eq_refl ltac:(bytes_ok_tac)) as H.
  assert (option_map (fun c => let '(ret, _, out, rest) := feed c example_block_bytes (repeat (3%nat, 2%nat) 9) in (ret, out, rest)) (Some c) = Some (LZMA_STREAM_END, hello, [9])) as Hf.
  { change (Some c) with (match @Ok (lzma_block_coder next_coder) c with Ok c => Some c | Err _ => None end). rewrite <- Ec. vm_compute. reflexivity. }
  cbn [option_map] in Hf. destruct (feed c _ _) as [[[ret c'] out] rest] eqn:Ef. injection Hf as -> -> ->.
  exists c, c'. split; [reflexivity|]. split; [exact Ef|]. apply H; [reflexivity|bytes_ok_tac].
Defined.

Lemma stream_buffer_roundtrip_witness : exists c out, example_decoder_init 0 = Ok c /\
  lzma_stream_buffer_encode check_state_example [delta_filter 2; lzma2_filter lzma2_min] LZMA_CHECK_CRC32 hello 200 = Ok out /\
  zlen out <= 200 /\ gives hello [9] out (repeat (3%nat, 2%nat) 40) (feed c (out ++ [9]) (repeat (3%nat, 2%nat) 40)).
Proof.
  destruct (example_decoder_init 0) as [c|] eqn:Ec; [|vm_compute in Ec; discriminate].
  destruct (lzma_stream_buffer_encode check_state_example [delta_filter 2; lzma2_filter lzma2_min] LZMA_CHECK_CRC32 hello 200) as [out|] eqn:Eo; [|vm_compute in Eo; discriminate].
  exists c, out. split; [reflexivity|]. split; [reflexivity|].
  apply (stream_buffer_roundtrip lzma2_min UINT64_MAX (K := storing_codec lzma2_min (Z.max 1 UINT64_MAX) ltac:(unfold UINT64_MAX; lia)) check_state_example
    [delta_filter 2; lzma2_filter lzma2_min] LZMA_CHECK_CRC32 hello 200 out None (Some example_coder_memory) true 0); try exact Ec; try exact Eo; try reflexivity;
    try exact no_memory; try exact example_memory_ok; try bytes_ok_tac.
  - unfold LZMA_CHECK_CRC32. lia.
  - repeat constructor; cbn; unfold LZMA_DICT_SIZE_MIN, LZMA_DELTA_DIST_MIN, LZMA_DELTA_DIST_MAX; lia.
  - cbn. lia.
  - now split_and!.
Defined.

(** Two Blocks that [lzma_block_uncomp_encode] has written. *)
Lemma example_blocks : exists bs, blocks_data bs = hello ++ baulk /\ (forall ignore, blocks_fit LZMA_CHECK_CRC32 ignore UINT64_MAX bs) /\
  index_fits (map sb_record bs) /\ bytes_ok (stream_bytes LZMA_CHECK_CRC32 bs) /\ length bs = 2%nat.
Proof.
  set (blk := Build_lzma_block 0 0 LZMA_CHECK_CRC32 0 0 [lzma2_filter lzma2_min] false).
  assert (forall input b raw out, bytes_ok input -> block_buffer_encode check_state_example blk input 200 false = Ok (b, raw, out) ->
    exists sb, out = sb_header sb ++ block_bytes (sb_payload sb) (sb_field sb) /\ bytes_ok out /\ zlen out <= 200 /\ sb_data sb = input /\ raw = sb_field sb /\
      (forall ignore, block_fits LZMA_CHECK_CRC32 ignore UINT64_MAX sb) /\ sb_record sb = (lzma_block_unpadded_size b, uncompressed_size b) /\ record_ok (sb_record sb)) as Hblock.
  { intros input b raw out Hb Hok. apply (block_buffer_ok lzma2_min UINT64_MAX (K := storing_codec lzma2_min UINT64_MAX ltac:(unfold UINT64_MAX; lia)) check_state_example blk input 200 false b raw out);
      try exact Hb; try exact Hok; try reflexivity; try (cbn; unfold LZMA_CHECK_CRC32; lia). repeat constructor; cbn; unfold LZMA_DICT_SIZE_MIN; lia. }
  destruct (block_buffer_encode check_state_example blk hello 200 false) as [[[b1 raw1] out1]|] eqn:E1; [|vm_compute in E1; discriminate].
  destruct (block_buffer_encode check_state_example blk baulk 200 false) as [[[b2 raw2] out2]|] eqn:E2; [|vm_compute in E2; discriminate].
  destruct (Hblock hello b1 raw1 out1 ltac:(bytes_ok_tac) E1) as (sb1 & O1 & B1 & _ & D1 & _ & F1 & R1 & K1).
  destruct (Hblock baulk b2 raw2 out2 ltac:(bytes_ok_tac) E2) as (sb2 & O2 & B2 & _ & D2 & _ & F2 & R2 & K2).
  assert (map sb_record [sb1; sb2] = [(25, 5); (25, 5)]) as Hix.
  { cbn [map]. rewrite R1, R2. vm_compute in E1. injection E1 as <- _ _. vm_compute in E2. injection E2 as <- _ _. reflexivity. }
  assert (index_fits (map sb_record [sb1; sb2])) as Hfits.
  { split; [cbn [map]; exact (Forall_cons_2 _ _ _ K1 (Forall_cons_2 _ _ _ K2 (Forall_nil_2 _)))|]. rewrite Hix. unfold index_limits. vm_compute. repeat split; discriminate. }
  exists [sb1; sb2]. split; [unfold blocks_data; cbn [flat_map]; now rewrite D1, D2|]. split; [intros ignore; constructor; [apply F1|constructor; [apply F2|constructor]]|].
  split; [exact Hfits|]. split; [|reflexivity]. pose proof Hfits as [Hok Hlim]. assert (0 <= LZMA_CHECK_CRC32 <= LZMA_CHECK_ID_MAX) as Hk by (unfold LZMA_CHECK_CRC32, LZMA_CHECK_ID_MAX; lia).
  unfold stream_bytes, stream_rest. cbv zeta. rewrite !app_nil_l. apply Forall_app_2; [now apply header_bytes|]. apply Forall_app_2; [|apply Forall_app_2; [now apply index_bytes_bytes|now apply footer_bytes]].
  unfold blocks_bytes. cbn [flat_map]. rewrite <- O1, <- O2. apply Forall_app_2; [exact B1|apply Forall_app_2; [exact B2|constructor]].
Qed.

Lemma stream_pieces_witness : exists c bs, example_decoder_init 0 = Ok c /\ length bs = 2%nat /\ blocks_data bs = hello ++ baulk /\
  gives (hello ++ baulk) [9] (stream_bytes LZMA_CHECK_CRC32 bs) (repeat (3%nat, 2%nat) 80) (feed c (stream_bytes LZMA_CHECK_CRC32 bs ++ [9]) (repeat (3%nat, 2%nat) 80)).
Proof.
  destruct (example_decoder_init 0) as [c|] eqn:Ec; [|vm_compute in Ec; discriminate]. destruct example_blocks as (bs & Hdata & Hfit & Hix & Hb & Hlen).
  exists c, bs. split; [reflexivity|]. split; [exact Hlen|]. split; [exact Hdata|]. rewrite <- Hdata.
  apply (stream_pieces None (Some example_coder_memory) true UINT64_MAX 0); [exact no_memory|exact example_memory_ok|exact Ec| | |exact Hix|apply Hfit|].
  - unfold LZMA_CHECK_CRC32, LZMA_CHECK_ID_MAX. lia.
  - now split_and!.
  - apply Forall_app_2; [exact Hb|bytes_ok_tac].
Defined.
